(* ===== verification/_CoqProject ===== *)
-Q . S2P
Prelude.v
Crypto.v
Types.v
StringOrder.v
JSON.v
JSONPrint.v
Varint.v
WorldState.v
ProvenanceJSON.v
LevelDB.v
Snapshot.v
Identity.v
Validation.v
DataTxValidator.v
DataTxProofs.v
UserTxValidator.v
DbTxValidator.v
ReConfig.v
ConfigTxValidator.v
Instances.v
Validator.v
BlockIsolation.v
AdminTx.v
DbEntries.v
Provenance.v
QuadList.v
ProvenanceProofs.v
ProvenanceHistory.v
ProvenanceQueries.v
IndexEncoding.v
StateIndex.v
Committer.v
CommitProofs.v
ConfigHistory.v
MerkleTree.v
BlockEncoding.v
BlockStore.v
BlockStoreProofs.v
BlockRecovery.v
MPTrie.v
TrieTree.v
TrieRefinement.v
TrieProofs.v
TrieStore.v
TrieDurability.v
TrieExample.v
SkipList.v
Ledger.v
Processor.v
ProcessorProofs.v
ProvenanceCommit.v
ProvenanceExample.v
Queue.v
Pipeline.v
PipelineProofs.v
PipelineExample.v
Barrier.v
Replicator.v
HttpUtils.v
Catchup.v
CatchupProofs.v
Transport.v
TransportProofs.v
ReplicatorProofs.v
ReplicatorLoops.v
OnBoarding.v
ReplicatorExample.v
CatchupExample.v
ProcessorExample.v
QueryExecutor.v
IndexText.v
QueryProofs.v
StateQueries.v
StateQueryProofs.v
QueryExample.v
Backend.v
Frontend.v
FrontendProofs.v
FrontendExample.v
