(* ===== verification/Prelude.v ===== *)
(** * Orion: a verification development for the orion-server ledger database

    The program is a replicated key-value database whose blocks of transactions form a
    ledger.  A client posts a signed transaction; the leader of the cluster queues it,
    batches it into a block and proposes the block to Raft.  A block that consensus has
    ordered is validated against the world state, completed with its verdicts, skip-list
    links, Merkle root and state root, appended to the block store and applied to the
    world state, the state trie and the provenance store; clients then ask signed queries
    for data, histories and proofs.  The development follows a transaction on that way.
    Paths below are relative to [src/].

    ** How code becomes definitions

    A Go function is a Rocq function of the same name where possible.  [(T, error)] is
    [res T] below: a value, an error or a panic.  A method that mutates a component is a
    [prog S A], from a state to a state and a result; the changes made before an error
    stay.  A nil pointer that the code can meet is [None].  Integers are [Z] with the
    wrap-around written out ([u64], [i64]).  A Go map is a [gmap]; ranging over one visits
    it in the order of the class [MapRange], over which the theorems quantify.  Goroutines
    are step relations whose steps are what one of them does between two points where
    another may act.  Code that is not part of the repository is a class with the
    behaviour that is relied on: wire formats ([Codec], [TxMarshal], [TxDecode]),
    certificates ([X509]), snappy, protobuf varints, host names and durations ([NetTime]),
    the graph database ([Graph]), the Raft library with its storage ([RaftEnv]), the
    network between peers ([PeerNetwork], [PeerTable]) and the key of the node ([Signer]).
    Instances.v and the example modules instantiate all of them.  SHA-256 and JSON are
    executable; where a theorem needs that hashes do not collide it says so of the finitely
    many messages that occur in it.

    ** Files

    - Prelude.v (this file), Crypto.v ([pkg/crypto], SHA-256), Types.v ([pkg/types], the
      messages as records), StringOrder.v, JSON.v, JSONPrint.v ([encoding/json] as the
      code uses it), Varint.v (integers of [encoding/binary]).
    - WorldState.v: [internal/worldstate/db.go] as a class with laws; LevelDB.v and
      Snapshot.v: [internal/worldstate/leveldb] implements it.
    - Identity.v: [internal/identity/querier.go], [pkg/certificateauthority],
      [pkg/cryptoservice/verifier.go]; DbEntries.v: [internal/identity/db_entries.go].
    - Validation.v, DataTxValidator.v, UserTxValidator.v, DbTxValidator.v,
      ConfigTxValidator.v, Validator.v: [internal/txvalidation]; ReConfig.v:
      [internal/replication/utils.go].  DataTxProofs.v, BlockIsolation.v and AdminTx.v hold
      their theorems.
    - IndexEncoding.v and StateIndex.v: [internal/stateindex]; Committer.v:
      [internal/blockprocessor/committer.go]; CommitProofs.v and ConfigHistory.v hold what
      commits do to data, indexes and the cluster configuration.
    - QueryExecutor.v: [internal/queryexecutor]; StateQueries.v:
      [internal/bcdb/worldstate_query_processor.go]; IndexText.v, QueryProofs.v,
      StateQueryProofs.v and QueryExample.v hold their theorems.
    - MerkleTree.v: [internal/mtree].
    - BlockEncoding.v and BlockStore.v: [internal/blockstore], with the position of the
      shared file descriptor as part of the state; BlockStoreProofs.v and BlockRecovery.v.
    - MPTrie.v: [internal/mptrie] and [pkg/state/proof.go] over an interface of its store;
      TrieStore.v: [internal/mptrie/store] implements it.  TrieTree.v is the trie as a plain
      tree, TrieRefinement.v that the nodes in the store implement it; TrieProofs.v,
      TrieDurability.v, TrieExample.v.
    - SkipList.v, Ledger.v: [internal/bcdb/ledger_query_procesor.go].
    - Processor.v: [internal/blockprocessor/processor.go] and the commit of a block through
      all stores; ProcessorProofs.v, ProcessorExample.v.
    - ProvenanceJSON.v and Provenance.v: [internal/provenance/commit_and_query.go];
      ProvenanceQueries.v: [internal/bcdb/provenance_query_processor.go].  QuadList.v
      implements the graph interface; ProvenanceProofs.v, ProvenanceHistory.v,
      ProvenanceCommit.v and ProvenanceExample.v hold the theorems.
    - Queue.v: [internal/queue]; Pipeline.v: [internal/txreorderer],
      [internal/blockcreator] and the submission in
      [internal/bcdb/transaction_processor.go] as one step relation; PipelineProofs.v,
      PipelineExample.v.  Barrier.v: [internal/queue/onequeuebarrier.go].
    - Replicator.v: [internal/replication/blockreplicator.go]; ReplicatorProofs.v: delivery
      of the Raft log; ReplicatorLoops.v: the two loops of a leader; OnBoarding.v: joining
      a cluster; ReplicatorExample.v.
    - HttpUtils.v: [internal/utils/http.go]; Catchup.v and CatchupProofs.v:
      [internal/comm/catchup_handler.go] and [catchup_client.go]; Transport.v and
      TransportProofs.v: [internal/comm/httptransport.go]; CatchupExample.v.
    - Backend.v: [internal/bcdb/db.go]; Frontend.v: [internal/httphandler] over an interface
      of the database, the class [DB]; FrontendProofs.v, where [backend_DB] makes the
      backend an instance of it; FrontendExample.v.

    ** What is shown

    - Requests (FrontendProofs.v): queries are answered and transactions submitted only if
      the users they name signed them; a key is served exactly when the user may read it;
      responses have the type of the query and the signature of the node, and queries change
      nothing that is stored.
    - Submission (PipelineProofs.v, Barrier.v): batches keep the order of acceptance,
      identifiers are unique on their way into a block, and in the ledger as long as blocks
      of other leaders bring only new ones, receipts are true, and a call through the
      barrier is a call.
    - Replication (ReplicatorProofs.v, ReplicatorLoops.v, OnBoarding.v): the log is
      committed once and in order over restarts; proposals are numbered, hash-linked and
      bounded; a joining node reaches the join block.  Peers (CatchupProofs.v,
      TransportProofs.v): segments of the ledger are served and the peers are the members.
    - Validation (BlockIsolation.v, AdminTx.v): a transaction is valid exactly when its
      declarative specification holds; the valid transactions of a block are serializable,
      lose no update and are authorised; administrators and members change only as allowed.
    - Commit (CommitProofs.v, ConfigHistory.v): a block leaves the state of a serial
      execution, indexes stay exact, Raft identifiers are never reused.
    - Queries (StateQueryProofs.v): a JSON query over an exact index returns exactly the
      keys that satisfy it and that the user may read, for string ranges where the order of
      the index is the order of the strings; paging through a range returns every record
      once.
    - Provenance (ProvenanceHistory.v, ProvenanceCommit.v): the history of a key, its
      readers and writers are what was committed, and stay in step with the world state;
      committing the records of a block twice is harmless.
    - Ledger (MerkleTree.v, BlockEncoding.v, BlockStoreProofs.v, BlockRecovery.v, Ledger.v):
      proofs are sound and complete, stored blocks are read back, a commit interrupted after
      the append is completed, one interrupted in the append is undone where the block is
      not the first of its chunk, and the path between two blocks is found, hash-linked and of
      logarithmic length.
    - State trie (TrieProofs.v, TrieDurability.v): lookups, canonical root, proofs, and that
      a trie survives restarts.
    - Node (ProcessorProofs.v): the stores stay in step, the world state is the replay of
      the blocks, and is recovered after a stop before its commit, for blocks that create no
      indexed database.
    - Defects that the proofs turned up are theorems too: a read can make the next commit
      overwrite blocks, a recovery can rewind a chunk or lose an index, deleted keys come
      back in the trie, deletion proofs can be forged, state roots depend on a map's order,
      receipts can be lost, a leader can wait for ever or miss a membership change, a
      snapshot can lag behind its index, string ranges follow the order of JSON texts, and
      some requests are answered twice or panic (the example modules).

    ** Bounds and fuel

    Loops that are not structural take fuel, and the theorems show that the fuel given by
    the definitions suffices: 64 halvings of a 64-bit number ([skipListHeight]), the
    distance of two blocks ([ledgerFindPath]), twice the length of a key ([key_fuel]), the
    height of the ledger ([blocksLoop]), the length of a JSON text ([DecodeObject]).  The
    depth of the trie in a commit is an argument, at least four times the length of the
    keys in bytes (128 for the 32-byte keys of the world state).  The rounds in which
    blocks are pulled from other nodes depend on the network: their number is an argument
    ([pullLoop], [pullRounds]), [None] is what is left when it is used up, and
    [on_boarding_completes] says which number is enough.

    ** Not modelled

    - [internal/replication/storage.go] and the Raft library: files of the etcd libraries;
      of the replicator, the campaign loop, the reports of unreachable peers and [Close],
      which only call that library or close channels.
    - The wiring at the start of a node ([NewDB], [newTransactionProcessor]) and the
      bootstrap transaction that is read from configuration files.
    - [pkg/server], [cmd], [config], [pkg/logger], [internal/fileops]: listeners, command
      lines, configuration files, logging and files; of [internal/comm] the TLS settings
      and HTTP servers.
    - Routes of the HTTP router, generated protobuf accessors and wire formats, file
      handling of LevelDB and of the graph database, and locks where every operation takes
      the same one. *)

From stdpp Require Export base gmap strings list pretty sorting.
From Stdlib Require Export ZArith Lia.
From Stdlib Require Import Ascii.

Global Set Default Goal Selector "1".

(** ** Results of Go calls

    A Go function that returns [(T, error)] is a function to [res T]: [Ok v]
    for [(v, nil)], [Err e] for a non-nil error and [Panic why] for a run-time
    panic (an explicit [panic], a nil dereference, an index out of range). *)

Inductive goerr : Type :=
  | UserNotFoundErr (id : string)      (* identity.NotFoundErr *)
  | DBNotFoundErr (dbName : string)    (* leveldb.DBNotFoundErr *)
  | NotFoundErr (msg : string)         (* internal/errors.NotFoundErr *)
  | PermissionErr (msg : string)       (* internal/errors.PermissionErr *)
  | BadRequestErr (msg : string)       (* internal/errors.BadRequestError *)
  | ServerRestrictionErr (msg : string)(* internal/errors.ServerRestrictionError *)
  | TimeoutErr (msg : string)          (* internal/errors.TimeoutErr *)
  | DuplicateTxIDErr (txID : string)   (* internal/errors.DuplicateTxIDError *)
  | ClosedErr (msg : string)           (* internal/errors.ClosedError *)
  | NotLeaderErr (leaderID : Z) (leaderHostPort : string) (* internal/errors.NotLeaderError *)
  | PlainErr (msg : string)            (* errors.New, errors.Errorf *)
  | WrappedErr (msg : string) (e : goerr). (* errors.Wrap, errors.WithMessage *)

Inductive res (A : Type) : Type :=
  | Ok (a : A)
  | Err (e : goerr)
  | Panic (why : string).

Arguments Ok {A} _.
Arguments Err {A} _.
Arguments Panic {A} _.

#[export] Instance goerr_eq_dec : EqDecision goerr.
Proof. solve_decision. Defined.

#[export] Instance res_eq_dec `{EqDecision A} : EqDecision (res A).
Proof. solve_decision. Defined.

#[export] Instance res_ret : MRet res := fun _ a => Ok a.

#[export] Instance res_bind : MBind res := fun _ _ f m =>
  match m with
  | Ok a => f a
  | Err e => Err e
  | Panic w => Panic w
  end.

#[export] Instance res_fmap : FMap res := fun _ _ f m =>
  match m with
  | Ok a => Ok (f a)
  | Err e => Err e
  | Panic w => Panic w
  end.

(** [err.Error()]. *)
Fixpoint Error (e : goerr) : string :=
  match e with
  | UserNotFoundErr id => "the user [" +:+ id +:+ "] does not exist"
  | DBNotFoundErr dbName => "database " +:+ dbName +:+ " does not exist"
  | NotFoundErr msg | PermissionErr msg | BadRequestErr msg
  | ServerRestrictionErr msg | TimeoutErr msg | ClosedErr msg | PlainErr msg => msg
  | DuplicateTxIDErr txID => "the transaction has a duplicate txID [" +:+ txID +:+ "]"
  | NotLeaderErr leaderID leaderHostPort =>
    "not a leader, leader is RaftID: " +:+ pretty leaderID +:+ ", with HostPort: " +:+ leaderHostPort
  | WrappedErr msg e => msg +:+ ": " +:+ Error e
  end.

(** [errors.Wrap(err, msg)] and [errors.WithMessage(err, msg)] on the error path. *)
Definition wrap_err {A} (msg : string) (m : res A) : res A :=
  match m with
  | Err e => Err (WrappedErr msg e)
  | _ => m
  end.

(** Dereference of a pointer that may be nil. *)
Definition deref {A} (p : option A) : res A :=
  match p with
  | Some a => Ok a
  | None => Panic "invalid memory address or nil pointer dereference"
  end.

Definition is_ok {A} (m : res A) : bool :=
  match m with Ok _ => true | _ => false end.

Lemma bind_ok_inv {A B} (m : res A) (f : A → res B) b :
  m ≫= f = Ok b → ∃ a, m = Ok a ∧ f a = Ok b.
Proof. destruct m; cbn; naive_solver. Qed.

Lemma wrap_err_ok {A} msg (m : res A) a : wrap_err msg m = Ok a ↔ m = Ok a.
Proof. destruct m; cbn; naive_solver. Qed.

Lemma deref_ok {A} (p : option A) a : deref p = Ok a ↔ p = Some a.
Proof. destruct p; cbn; naive_solver. Qed.

(** Invert every successful bind, wrapped call and dereference in the context. *)
Ltac inv_res :=
  repeat match goal with
  | H : (_ ≫= _) = Ok _ |- _ => apply bind_ok_inv in H as (? & ? & H); cbn beta in H
  | H : wrap_err _ _ = Ok _ |- _ => rewrite wrap_err_ok in H
  | H : deref _ = Ok _ |- _ => rewrite deref_ok in H
  | H : Ok _ = Ok _ |- _ => injection H as H
  | H : Ok _ = Err _ |- _ => discriminate H
  | H : Ok _ = Panic _ |- _ => discriminate H
  | H : Err _ = Ok _ |- _ => discriminate H
  | H : Panic _ = Ok _ |- _ => discriminate H
  end.

(** [mapM] over a list that stops at the first error or panic. *)
Fixpoint res_mapM {A B} (f : A → res B) (l : list A) : res (list B) :=
  match l with
  | [] => Ok []
  | x :: l => y ← f x; ys ← res_mapM f l; Ok (y :: ys)
  end.

(** [for] over a list with an accumulator; the body may fail. *)
Fixpoint res_foldM {A S} (f : S → A → res S) (s : S) (l : list A) : res S :=
  match l with
  | [] => Ok s
  | x :: l => s' ← f s x; res_foldM f s' l
  end.

Lemma res_foldM_app {A S} (f : S → A → res S) s l1 l2 :
  res_foldM f s (l1 ++ l2) = res_foldM f s l1 ≫= fun s' => res_foldM f s' l2.
Proof. revert s. induction l1 as [|x l1 IH]; intros s; cbn; [done|]. destruct (f s x); cbn; auto. Qed.

Lemma res_mapM_cons_inv {A B} (f : A → res B) x l r :
  res_mapM f (x :: l) = Ok r → ∃ y ys, r = y :: ys ∧ f x = Ok y ∧ res_mapM f l = Ok ys.
Proof. cbn. intros H. inv_res. eauto. Qed.

Lemma res_mapM_length {A B} (f : A → res B) l r :
  res_mapM f l = Ok r → length r = length l.
Proof.
  revert r; induction l as [|x l IH]; intros r H; cbn in H; inv_res; subst; cbn; auto.
Qed.

Lemma res_mapM_lookup {A B} (f : A → res B) l r i x :
  res_mapM f l = Ok r → l !! i = Some x → ∃ y, r !! i = Some y ∧ f x = Ok y.
Proof.
  revert r i; induction l as [|a l IH]; intros r i H Hi; [done|].
  cbn in H; inv_res; subst. destruct i as [|i]; cbn in *; simplify_eq; eauto.
Qed.

Lemma res_mapM_elem {A B} (f : A → res B) l r y :
  res_mapM f l = Ok r → y ∈ r ↔ ∃ x, x ∈ l ∧ f x = Ok y.
Proof.
  revert r. induction l as [|a l IH]; intros r H; cbn in H; inv_res; subst; [set_solver|].
  rewrite elem_of_cons, (IH _ H1). setoid_rewrite elem_of_cons. split.
  - intros [->|(x' & ? & ?)]; eauto.
  - intros (x' & [->|?] & ?); [left; congruence|eauto].
Qed.

(** ** Stateful calls

    A method that mutates a component with state [S] and returns [(T, error)]:
    the changes made before an error remain. *)

Definition prog (S A : Type) : Type := S → S * res A.

#[export] Instance prog_ret {S} : MRet (prog S) := fun _ a s => (s, Ok a).

#[export] Instance prog_bind {S} : MBind (prog S) := fun _ _ f m s =>
  match m s with
  | (s', Ok a) => f a s'
  | (s', Err e) => (s', Err e)
  | (s', Panic w) => (s', Panic w)
  end.

(** A call without effect on the state, a look at the state, a change of it. *)
Definition lift {S A} (m : res A) : prog S A := fun s => (s, m).
Definition gets {S A} (f : S → A) : prog S A := fun s => (s, Ok (f s)).
Definition modify {S} (f : S → S) : prog S unit := fun s => (f s, Ok tt).

(** [errors.Wrap] on the result of a stateful call. *)
Definition wrap_prog {S A} (msg : string) (m : prog S A) : prog S A :=
  fun s => let '(s', r) := m s in (s', wrap_err msg r).

Lemma prog_bind_ok_inv {S A B} (m : prog S A) (f : A → prog S B) s s' b :
  (m ≫= f) s = (s', Ok b) → ∃ s1 a, m s = (s1, Ok a) ∧ f a s1 = (s', Ok b).
Proof. unfold mbind, prog_bind. destruct (m s) as [s1 [a|e|w]]; naive_solver. Qed.

(** One step of a stateful sequence. *)
Lemma bind_step {S A B} (m : prog S A) (f : A → prog S B) s s1 a :
  m s = (s1, Ok a) → (m ≫= f) s = f a s1.
Proof. intros H. unfold mbind, prog_bind. by rewrite H. Qed.

Lemma prog_bind_assoc {S A B C} (m : prog S A) (f : A → prog S B) (g : B → prog S C) s :
  ((m ≫= f) ≫= g) s = (m ≫= fun a => f a ≫= g) s.
Proof. unfold mbind, prog_bind. by destruct (m s) as [? [?|?|?]]. Qed.

Lemma lift_ok_inv {S A} (m : res A) (s s' : S) a : lift m s = (s', Ok a) ↔ s' = s ∧ m = Ok a.
Proof. unfold lift. naive_solver. Qed.

(** ** Go maps

    A Go [map[string]V] is a [gmap string V].  [m[k]] on a missing key is the
    zero value.  [range m] visits the entries in an order the language leaves
    unspecified: the class [MapRange] is that order, and every theorem about
    code that ranges over a map is proved for all of them. *)

Definition mget (m : gmap string bool) (k : string) : bool := default false (m !! k).

Class MapRange := {
  range : ∀ {V : Type}, gmap string V → list (string * V);
  range_perm : ∀ {V} (m : gmap string V), range m ≡ₚ map_to_list m;
}.

(** One order: that of [map_to_list]; and its reverse. *)
Definition canonical_range : MapRange :=
  {| range _ m := map_to_list m; range_perm _ m := reflexivity _ |}.

Definition reversed_range : MapRange :=
  {| range _ m := reverse (map_to_list m);
     range_perm _ m := reverse_Permutation (map_to_list m) |}.

Definition range_keys `{MapRange} {V} (m : gmap string V) : list string := (range m).*1.

Lemma elem_of_range `{MapRange} {V} (m : gmap string V) k v :
  (k, v) ∈ range m ↔ m !! k = Some v.
Proof. rewrite (range_perm m). apply elem_of_map_to_list. Qed.

Lemma elem_of_range_keys `{MapRange} {V} (m : gmap string V) k :
  k ∈ range_keys m ↔ is_Some (m !! k).
Proof.
  unfold range_keys. rewrite list_elem_of_fmap. split.
  - intros ([k' v] & -> & Hin%elem_of_range). eauto.
  - intros [v Hv%elem_of_range]. by exists (k, v).
Qed.

Lemma range_keys_NoDup `{MapRange} {V} (m : gmap string V) : NoDup (range_keys m).
Proof. unfold range_keys. rewrite (range_perm m). apply NoDup_fst_map_to_list. Qed.

Lemma NoDup_fmap_elem {A B} (f : A → B) (l : list A) x y :
  NoDup (f <$> l) → x ∈ l → y ∈ l → f x = f y → x = y.
Proof.
  intros Hnd [i Hi]%list_elem_of_lookup [j Hj]%list_elem_of_lookup Heq.
  assert (i = j) as ->; [|congruence].
  eapply (NoDup_lookup (f <$> l)); [done| |]; rewrite list_lookup_fmap;
    [rewrite Hi|rewrite Hj]; cbn; by f_equal.
Qed.

(** ** Lists with nil entries *)

Lemma omap_id_all_some {A} (l : list (option A)) :
  None ∉ l → l = Some <$> omap id l.
Proof.
  induction l as [|[x|] l IH]; cbn; intros Hl; [done| |set_solver].
  f_equal. apply IH. set_solver.
Qed.

Lemma elem_of_omap_id {A} (l : list (option A)) x : x ∈ omap id l ↔ Some x ∈ l.
Proof. rewrite list_elem_of_omap. unfold id. naive_solver. Qed.

Lemma existsb_elem {A} (f : A → bool) l : existsb f l = true ↔ ∃ x, x ∈ l ∧ f x = true.
Proof. rewrite existsb_exists. by setoid_rewrite list_elem_of_In. Qed.

(** ** Strings *)

(** [sort.Strings]. *)
Definition string_le (a b : string) : Prop := String.leb a b = true.

#[export] Instance string_le_dec : RelDecision string_le.
Proof. intros a b. unfold string_le. apply _. Defined.

Definition sort_strings (l : list string) : list string := merge_sort string_le l.

Lemma sort_strings_perm l : sort_strings l ≡ₚ l.
Proof. apply merge_sort_Permutation. Qed.

(** [strings.Join]. *)
Definition strings_join (l : list string) (sep : string) : string := String.concat sep l.

(** [strings.Split] by a one-character separator. *)
Fixpoint strings_split (sep : ascii) (s : string) : list string :=
  match s with
  | EmptyString => [""]
  | String c s =>
    if bool_decide (c = sep) then "" :: strings_split sep s
    else match strings_split sep s with
         | [] => [String c ""]
         | w :: ws => String c w :: ws
         end
  end.

Fixpoint string_forallb (f : ascii → bool) (s : string) : bool :=
  match s with
  | EmptyString => true
  | String c s => f c && string_forallb f s
  end.

Lemma strings_split_no_sep sep s :
  string_forallb (fun x => bool_decide (x ≠ sep)) s = true → strings_split sep s = [s].
Proof.
  induction s as [|c s IH]; cbn; [done|]. intros [Hc Hs]%andb_true_iff.
  rewrite IH by done. apply bool_decide_eq_true in Hc. by rewrite bool_decide_eq_false_2.
Qed.

(** A separator that cannot occur in the left part makes concatenation injective. *)
Lemma append_sep_inj (c : ascii) (a a' b b' : string) :
  string_forallb (fun x => bool_decide (x ≠ c)) a = true →
  string_forallb (fun x => bool_decide (x ≠ c)) a' = true →
  a +:+ String c b = a' +:+ String c b' → a = a' ∧ b = b'.
Proof.
  revert a'. induction a as [|x a IH]; intros [|x' a'] Ha Ha' Heq; cbn in *.
  - by injection Heq.
  - injection Heq as -> _. by rewrite bool_decide_eq_false_2 in Ha' by auto.
  - injection Heq as -> _. by rewrite bool_decide_eq_false_2 in Ha by auto.
  - injection Heq as -> Hrest.
    apply andb_true_iff in Ha as [_ Ha], Ha' as [_ Ha'].
    by destruct (IH a' Ha Ha' Hrest) as [-> ->].
Qed.

(** ** Bytes and machine integers *)

(** A byte slice is a list of integers in [0, 256). *)
Abbreviation bytes := (list Z).

(** Wrap-around of [uint64] arithmetic. *)
Definition u64 (z : Z) : Z := (z mod 2 ^ 64)%Z.

Lemma u64_small z : (0 ≤ z < 2 ^ 64)%Z → u64 z = z.
Proof. apply Z.mod_small. Qed.

Lemma u64_range z : (0 ≤ u64 z < 2 ^ 64)%Z.
Proof. apply Z.mod_pos_bound. lia. Qed.

(** The bytes of a Go string. *)
Definition bytes_of_string (s : string) : bytes :=
  (fun c => Z.of_N (Ascii.N_of_ascii c)) <$> String.list_ascii_of_string s.

(** The string with given bytes. *)
Definition string_of_bytes (b : bytes) : string :=
  String.string_of_list_ascii ((fun z => Ascii.ascii_of_N (Z.to_N z)) <$> b).

Lemma string_of_bytes_of_string s : string_of_bytes (bytes_of_string s) = s.
Proof.
  unfold string_of_bytes, bytes_of_string. rewrite <- list_fmap_compose.
  rewrite <- (String.string_of_list_ascii_of_string s) at 2. f_equal.
  rewrite <- (list_fmap_id (String.list_ascii_of_string s)) at 2. apply list_fmap_ext. intros i c _. cbn.
  by rewrite N2Z.id, Ascii.ascii_N_embedding.
Qed.

(** ** Automation *)

Create HintDb orion.
#[export] Hint Resolve range_keys_NoDup u64_range : orion.
