(* ===== verification/Crypto.v ===== *)
(** * Hashes

    [pkg/crypto/hash.go], with SHA-256 of the Go standard library written out as
    an executable function so that roots, proofs and headers can be computed. *)

From S2P Require Import Prelude.

(** ** SHA-256 (FIPS 180-4) *)

Module Sha256.

Definition mask : Z := 0xffffffff.
Definition add32 (x y : Z) : Z := Z.land (x + y) mask.
Definition rotr (n x : Z) : Z := Z.lor (Z.shiftr x n) (Z.land (Z.shiftl x (32 - n)) mask).
Definition Ch (x y z : Z) : Z := Z.lxor (Z.land x y) (Z.land (Z.lxor x mask) z).
Definition Maj (x y z : Z) : Z := Z.lxor (Z.lxor (Z.land x y) (Z.land x z)) (Z.land y z).
Definition Sigma0 (x : Z) : Z := Z.lxor (Z.lxor (rotr 2 x) (rotr 13 x)) (rotr 22 x).
Definition Sigma1 (x : Z) : Z := Z.lxor (Z.lxor (rotr 6 x) (rotr 11 x)) (rotr 25 x).
Definition sigma0 (x : Z) : Z := Z.lxor (Z.lxor (rotr 7 x) (rotr 18 x)) (Z.shiftr x 3).
Definition sigma1 (x : Z) : Z := Z.lxor (Z.lxor (rotr 17 x) (rotr 19 x)) (Z.shiftr x 10).

(** The constants of the standard are fractional parts of roots of primes: 32
    bits of the cube roots of the first 64, and of the square roots of the first 8. *)
Definition is_prime (n : Z) : bool :=
  forallb (fun d => negb (n mod Z.of_nat d =? 0)%Z) (seq 2 (Z.to_nat n - 2)).

Definition primes : list Z := filter (fun n => is_prime n = true) (Z.of_nat <$> seq 2 310).

(** The largest [r] below [2 ^ bits] with [r ^ 3 <= n], from the top bit down. *)
Fixpoint cube_root (bits : nat) (r n : Z) : Z :=
  match bits with
  | O => r
  | S bits =>
    let r' := (r + 2 ^ Z.of_nat bits)%Z in
    cube_root bits (if (r' ^ 3 <=? n)%Z then r' else r) n
  end.

Definition K : list Z := Eval vm_compute in
  (fun p => Z.land (cube_root 36 0 (p * 2 ^ 96)) mask) <$> primes.

Record state := mkState { ha : Z; hb : Z; hc : Z; hd : Z; he : Z; hf : Z; hg : Z; hh : Z }.

Definition init : state := Eval vm_compute in
  let h i := Z.land (Z.sqrt (nth i primes 0%Z * 2 ^ 64)) mask in
  mkState (h 0) (h 1) (h 2) (h 3) (h 4) (h 5) (h 6) (h 7).

Definition round (s : state) (kw : Z * Z) : state :=
  let T1 := add32 (add32 (add32 (add32 (hh s) (Sigma1 (he s))) (Ch (he s) (hf s) (hg s))) kw.1) kw.2 in
  let T2 := add32 (Sigma0 (ha s)) (Maj (ha s) (hb s) (hc s)) in
  mkState (add32 T1 T2) (ha s) (hb s) (hc s) (add32 (hd s) T1) (he s) (hf s) (hg s).

(** The message schedule, last word first. *)
Fixpoint extend (n : nat) (ws : list Z) : list Z :=
  match n with
  | O => ws
  | S n => extend n (add32 (add32 (sigma1 (nth 1 ws 0%Z)) (nth 6 ws 0%Z))
                       (add32 (sigma0 (nth 14 ws 0%Z)) (nth 15 ws 0%Z)) :: ws)
  end.

Fixpoint words (b : bytes) : list Z :=
  match b with
  | b0 :: b1 :: b2 :: b3 :: rest =>
    Z.lor (Z.lor (Z.shiftl b0 24) (Z.shiftl b1 16)) (Z.lor (Z.shiftl b2 8) b3) :: words rest
  | _ => []
  end.

Definition compress (s : state) (block : bytes) : state :=
  let ws := reverse (extend 48 (reverse (words block))) in
  let t := foldl round s (zip K ws) in
  mkState (add32 (ha s) (ha t)) (add32 (hb s) (hb t)) (add32 (hc s) (hc t)) (add32 (hd s) (hd t))
          (add32 (he s) (he t)) (add32 (hf s) (hf t)) (add32 (hg s) (hg t)) (add32 (hh s) (hh t)).

Definition be_bytes (n : nat) (z : Z) : bytes :=
  (fun i => Z.land (Z.shiftr z (8 * Z.of_nat (n - 1 - i))) 0xff) <$> seq 0 n.

Definition pad (msg : bytes) : bytes :=
  let n := Z.of_nat (length msg) in
  msg ++ [0x80%Z] ++ replicate (Z.to_nat ((55 - n) mod 64)) 0%Z ++ be_bytes 8 (8 * n).

(** The blocks of a padded message; [n] bounds their number. *)
Fixpoint blocks (n : nat) (b : bytes) : list bytes :=
  match n, b with
  | O, _ | _, [] => []
  | S n, _ => take 64 b :: blocks n (drop 64 b)
  end.

Definition digest (msg : bytes) : bytes :=
  let p := pad msg in
  let s := foldl compress init (blocks (length p) p) in
  mjoin (be_bytes 4 <$> [ha s; hb s; hc s; hd s; he s; hf s; hg s; hh s]).

Lemma be_bytes_length n z : length (be_bytes n z) = n.
Proof. unfold be_bytes. by rewrite length_fmap, length_seq. Qed.

Lemma digest_length msg : length (digest msg) = 32.
Proof. unfold digest. cbn [fmap list_fmap mjoin list_join]. by rewrite !length_app, !be_bytes_length. Qed.

Definition hex_digit (z : Z) : string :=
  nth (Z.to_nat z) ["0"; "1"; "2"; "3"; "4"; "5"; "6"; "7"; "8"; "9"; "a"; "b"; "c"; "d"; "e"; "f"] "?".

Definition hex (b : bytes) : string :=
  String.concat "" ((fun z => hex_digit (Z.shiftr z 4) +:+ hex_digit (Z.land z 15)) <$> b).

(** Test vectors of the standard. *)
Example digest_empty :
  hex (digest []) = "e3b0c44298fc1c149afbf4c8996fb92427ae41e4649b934ca495991b7852b855".
Proof. vm_compute. reflexivity. Qed.

Example digest_abc :
  hex (digest (bytes_of_string "abc")) = "ba7816bf8f01cfea414140de5dae2223b00361a396177a9cb410ff61f20015ad".
Proof. vm_compute. reflexivity. Qed.

Example digest_two_blocks :
  hex (digest (bytes_of_string "abcdbcdecdefdefgefghfghighijhijkijkljklmklmnlmnomnopnopq")) =
  "248d6a61d20638b8e5c026930c3e6039a33ce45964ff2167f6ecedd419db06c1".
Proof. vm_compute. reflexivity. Qed.

End Sha256.

(** ** [pkg/crypto] *)

(** Writing to a hash never fails, so neither does hashing. *)
Definition ComputeSHA256Hash (msgBytes : bytes) : bytes := Sha256.digest msgBytes.

#[global] Opaque ComputeSHA256Hash.

Lemma ComputeSHA256Hash_length msg : length (ComputeSHA256Hash msg) = 32.
Proof. apply Sha256.digest_length. Qed.

Lemma ComputeSHA256Hash_not_nil msg : ComputeSHA256Hash msg ≠ [].
Proof. intros H. pose proof (ComputeSHA256Hash_length msg). by rewrite H in *. Qed.

(** [bytes.Compare(a, b) < 0]. *)
Fixpoint bytes_ltb (a b : bytes) : bool :=
  match a, b with
  | _, [] => false
  | [], _ :: _ => true
  | x :: a, y :: b => if Z.ltb x y then true else if Z.ltb y x then false else bytes_ltb a b
  end.

Lemma bytes_ltb_trichotomy a b : bytes_ltb a b = false → bytes_ltb b a = false → a = b.
Proof.
  revert b. induction a as [|x a IH]; intros [|y b]; cbn; try done.
  destruct (Z.ltb_spec x y), (Z.ltb_spec y x); try done. intros. f_equal; [lia|auto].
Qed.

Lemma bytes_ltb_asym a b : bytes_ltb a b = true → bytes_ltb b a = false.
Proof.
  revert b. induction a as [|x a IH]; intros [|y b]; cbn; try done.
  destruct (Z.ltb_spec x y), (Z.ltb_spec y x); try done; [lia|auto].
Qed.

(** The message that is hashed for two hashes: the smaller one first. *)
Definition sorted_pair (h1 h2 : bytes) : bytes :=
  if bytes_ltb h1 h2 then h1 ++ h2 else h2 ++ h1.

Definition ConcatenateHashes (h1 h2 : bytes) : bytes :=
  if bool_decide (length h1 = 0) then h2
  else if bool_decide (length h2 = 0) then h1
  else ComputeSHA256Hash (sorted_pair h1 h2).

Lemma ConcatenateHashes_nil_r h : ConcatenateHashes h [] = h.
Proof. unfold ConcatenateHashes. by case_bool_decide as E; [destruct h|]. Qed.

Lemma sorted_pair_comm h1 h2 : sorted_pair h1 h2 = sorted_pair h2 h1.
Proof.
  unfold sorted_pair. destruct (bytes_ltb h1 h2) eqn:E1.
  - by rewrite (bytes_ltb_asym _ _ E1).
  - destruct (bytes_ltb h2 h1) eqn:E2; [done|]. by rewrite (bytes_ltb_trichotomy _ _ E1 E2).
Qed.

Lemma ConcatenateHashes_comm h1 h2 : ConcatenateHashes h1 h2 = ConcatenateHashes h2 h1.
Proof.
  unfold ConcatenateHashes. repeat case_bool_decide; try done.
  - by destruct h1, h2.
  - by rewrite sorted_pair_comm.
Qed.

Lemma ConcatenateHashes_eq h1 h2 :
  h1 ≠ [] → h2 ≠ [] → ConcatenateHashes h1 h2 = ComputeSHA256Hash (sorted_pair h1 h2).
Proof.
  intros H1 H2. unfold ConcatenateHashes.
  rewrite !bool_decide_eq_false_2; [done|by destruct h2|by destruct h1].
Qed.

(** A pair of digests determines its members, up to their order. *)
Lemma sorted_pair_inj a b c d :
  length a = 32 → length b = 32 → length c = 32 → length d = 32 →
  sorted_pair a b = sorted_pair c d → (a = c ∧ b = d) ∨ (a = d ∧ b = c).
Proof.
  intros Ha Hb Hc Hd. unfold sorted_pair.
  destruct (bytes_ltb a b), (bytes_ltb c d); intros [-> ->]%app_inj_1; auto; congruence.
Qed.

(** No two different messages of the list have the same digest. *)
Definition collision_free (msgs : list bytes) : Prop :=
  ∀ x y, x ∈ msgs → y ∈ msgs → ComputeSHA256Hash x = ComputeSHA256Hash y → x = y.

Definition collision_freeb (msgs : list bytes) : bool :=
  forallb (fun x => forallb (fun y =>
    negb (bool_decide (ComputeSHA256Hash x = ComputeSHA256Hash y)) || bool_decide (x = y)) msgs) msgs.

Lemma collision_freeb_ok msgs : collision_freeb msgs = true → collision_free msgs.
Proof.
  unfold collision_freeb. intros H x y Hx%list_elem_of_In Hy%list_elem_of_In Heq.
  rewrite forallb_forall in H. specialize (H x Hx). rewrite forallb_forall in H. specialize (H y Hy).
  rewrite (bool_decide_eq_true_2 _ Heq) in H. by apply bool_decide_eq_true in H.
Qed.
