(* ===== verification/Types.v ===== *)
(** * Messages

    The protobuf messages of [pkg/types] that the modelled code reads and
    writes, one record per message with the message's fields.  A pointer the
    code compares with nil is an [option]; a [map[string]V] is a [gmap string V];
    an enum that proto3 leaves open keeps a constructor for unknown numbers.
    Messages have decidable equality ([proto.Equal]) and are countable, which
    gives a concrete wire format to instantiate [Codec] with. *)

From S2P Require Import Prelude.
From stdpp Require Import countable.

(** ** Versions, access control, metadata *)

Record Version := mkVersion { BlockNum : Z; TxNum : Z }.

Inductive AccessControl_WritePolicy :=
  | AccessControl_ANY
  | AccessControl_ALL
  | AccessControl_Unknown (n : Z).

Record AccessControl := mkAccessControl {
  ReadUsers : gmap string bool;
  ReadWriteUsers : gmap string bool;
  SignPolicyForWrite : AccessControl_WritePolicy;
}.

Record Metadata := mkMetadata {
  Metadata_Version : option Version;
  Metadata_AccessControl : option AccessControl;
}.

Record ValueWithMetadata := mkValueWithMetadata {
  VWM_Value : bytes;
  VWM_Metadata : option Metadata;
}.

(** Generated getters: the zero value on a nil receiver. *)
Definition GetVersion_of (m : option Metadata) : option Version := m ≫= Metadata_Version.
Definition GetAccessControl_of (m : option Metadata) : option AccessControl :=
  m ≫= Metadata_AccessControl.

(** ** Validation flags *)

Inductive Flag :=
  | VALID
  | INVALID_MVCC_CONFLICT_WITHIN_BLOCK
  | INVALID_MVCC_CONFLICT_WITH_COMMITTED_STATE
  | INVALID_DATABASE_DOES_NOT_EXIST
  | INVALID_NO_PERMISSION
  | INVALID_INCORRECT_ENTRIES
  | INVALID_UNAUTHORISED
  | INVALID_MISSING_SIGNATURE.

Record ValidationInfo := mkValidationInfo {
  VI_Flag : Flag;
  ReasonIfInvalid : string;
}.

(** ** Data transactions *)

Record DataRead := mkDataRead { DR_Key : string; DR_Version : option Version }.

Record DataWrite := mkDataWrite {
  DW_Key : string;
  DW_Value : bytes;
  DW_Acl : option AccessControl;
}.

Record DataDelete := mkDataDelete { DD_Key : string }.

Record DBOperation := mkDBOperation {
  DbName : string;
  DataReads : list DataRead;
  DataWrites : list (option DataWrite);
  DataDeletes : list (option DataDelete);
}.

Record DataTx := mkDataTx {
  MustSignUserIds : list string;
  DTx_TxId : string;
  DbOperations : list DBOperation;
}.

Record DataTxEnvelope := mkDataTxEnvelope {
  DEnv_Payload : DataTx;
  Signatures : gmap string bytes;
}.

(** ** Identities *)

Definition Privilege_Read : Z := 0.
Definition Privilege_ReadWrite : Z := 1.

Record Privilege := mkPrivilege {
  DbPermission : gmap string Z;
  Admin_priv : bool;
}.

Record User := mkUser {
  User_Id : string;
  User_Certificate : bytes;
  User_Privilege : option Privilege;
}.

Record UserRead := mkUserRead { UR_UserId : string; UR_Version : option Version }.
Record UserWrite := mkUserWrite { UW_User : option User; UW_Acl : option AccessControl }.
Record UserDelete := mkUserDelete { UD_UserId : string }.

Record UserAdministrationTx := mkUserAdministrationTx {
  UTx_UserId : string;
  UTx_TxId : string;
  UserReads : list UserRead;
  UserWrites : list (option UserWrite);
  UserDeletes : list (option UserDelete);
}.

Record UserAdministrationTxEnvelope := mkUserAdministrationTxEnvelope {
  UEnv_Payload : UserAdministrationTx;
  UEnv_Signature : bytes;
}.

(** ** Database administration *)

Inductive IndexAttributeType :=
  | IndexAttributeType_NUMBER
  | IndexAttributeType_STRING
  | IndexAttributeType_BOOLEAN
  | IndexAttributeType_Unknown (n : Z).

Record DBIndex := mkDBIndex { AttributeAndType : gmap string IndexAttributeType }.

Record DBAdministrationTx := mkDBAdministrationTx {
  DBTx_UserId : string;
  DBTx_TxId : string;
  CreateDbs : list string;
  DeleteDbs : list string;
  DbsIndex : gmap string (option DBIndex);
}.

Record DBAdministrationTxEnvelope := mkDBAdministrationTxEnvelope {
  DBEnv_Payload : DBAdministrationTx;
  DBEnv_Signature : bytes;
}.

(** ** Cluster configuration *)

Record NodeConfig := mkNodeConfig {
  Node_Id : string;
  Node_Address : string;
  Node_Port : Z;
  Node_Certificate : bytes;
}.

Record Admin := mkAdmin { Admin_Id : string; Admin_Certificate : bytes }.

Record CAConfig := mkCAConfig { Roots : list bytes; Intermediates : list bytes }.

Record PeerConfig := mkPeerConfig {
  NodeId : string;
  RaftId : Z;
  PeerHost : string;
  PeerPort : Z;
}.

Record RaftConfig := mkRaftConfig {
  TickInterval : string;
  ElectionTicks : Z;
  HeartbeatTicks : Z;
  MaxInflightBlocks : Z;
  SnapshotIntervalSize : Z;
  MaxRaftId : Z;
}.

Record ConsensusConfig := mkConsensusConfig {
  Algorithm : string;
  Members : list (option PeerConfig);
  Observers : list (option PeerConfig);
  CC_RaftConfig : option RaftConfig;
}.

Record LedgerConfig := mkLedgerConfig { StateMerkelPatriciaTrieDisabled : bool }.

Record ClusterConfig := mkClusterConfig {
  Nodes : list (option NodeConfig);
  Admins : list (option Admin);
  CertAuthConfig : option CAConfig;
  Consensus : option ConsensusConfig;
  Ledger : option LedgerConfig;
}.

Record ConfigTx := mkConfigTx {
  CTx_UserId : string;
  CTx_TxId : string;
  ReadOldConfigVersion : option Version;
  NewConfig : option ClusterConfig;
}.

Record ConfigTxEnvelope := mkConfigTxEnvelope {
  CEnv_Payload : ConfigTx;
  CEnv_Signature : bytes;
}.

(** ** Blocks *)

Record BlockHeaderBase := mkBlockHeaderBase {
  Number : Z;
  PreviousBaseHeaderHash : bytes;
  LastCommittedBlockHash : bytes;
  LastCommittedBlockNum : Z;
}.

Record BlockHeader := mkBlockHeader {
  BaseHeader : BlockHeaderBase;
  SkipchainHashes : list bytes;
  TxMerkelTreeRootHash : bytes;
  StateMerkelTreeRootHash : bytes;
  ValidationInfos : list ValidationInfo;
}.

Inductive BlockPayload :=
  | Block_DataTxEnvelopes (envs : list DataTxEnvelope)
  | Block_ConfigTxEnvelope (env : ConfigTxEnvelope)
  | Block_DbAdministrationTxEnvelope (env : DBAdministrationTxEnvelope)
  | Block_UserAdministrationTxEnvelope (env : UserAdministrationTxEnvelope).

Record ConsensusMetadata := mkConsensusMetadata { RaftTerm : Z; RaftIndex : Z }.

Record Block := mkBlock {
  Header : BlockHeader;
  Payload : option BlockPayload;
  Block_ConsensusMetadata : option ConsensusMetadata;
}.

(** ** Decidable equality and countability of the messages *)

#[export] Instance Version_eq_dec : EqDecision Version.
Proof. solve_decision. Defined.
#[export] Instance Version_countable : Countable Version.
Proof.
  refine (inj_countable' (fun r => (BlockNum r, TxNum r))
    (fun '(a0, a1) => mkVersion a0 a1) _); by intros [].
Defined.

#[export] Instance AccessControl_WritePolicy_eq_dec : EqDecision AccessControl_WritePolicy.
Proof. solve_decision. Defined.
#[export] Instance AccessControl_WritePolicy_countable : Countable AccessControl_WritePolicy.
Proof.
  refine (inj_countable'
    (fun p => match p with
              | AccessControl_ANY => (0, 0%Z) | AccessControl_ALL => (1, 0%Z)
              | AccessControl_Unknown n => (2, n) end)
    (fun '(t, n) => match t with
                    | 0 => AccessControl_ANY | 1 => AccessControl_ALL
                    | _ => AccessControl_Unknown n end) _); by intros [].
Defined.

#[export] Instance AccessControl_eq_dec : EqDecision AccessControl.
Proof. solve_decision. Defined.
#[export] Instance AccessControl_countable : Countable AccessControl.
Proof.
  refine (inj_countable' (fun r => (ReadUsers r, ReadWriteUsers r, SignPolicyForWrite r))
    (fun '(a0, a1, a2) => mkAccessControl a0 a1 a2) _); by intros [].
Defined.

#[export] Instance Metadata_eq_dec : EqDecision Metadata.
Proof. solve_decision. Defined.
#[export] Instance Metadata_countable : Countable Metadata.
Proof.
  refine (inj_countable' (fun r => (Metadata_Version r, Metadata_AccessControl r))
    (fun '(a0, a1) => mkMetadata a0 a1) _); by intros [].
Defined.

#[export] Instance ValueWithMetadata_eq_dec : EqDecision ValueWithMetadata.
Proof. solve_decision. Defined.
#[export] Instance ValueWithMetadata_countable : Countable ValueWithMetadata.
Proof.
  refine (inj_countable' (fun r => (VWM_Value r, VWM_Metadata r))
    (fun '(a0, a1) => mkValueWithMetadata a0 a1) _); by intros [].
Defined.

#[export] Instance Flag_eq_dec : EqDecision Flag.
Proof. solve_decision. Defined.
#[export] Instance Flag_countable : Countable Flag.
Proof.
  refine (inj_countable'
    (fun f => match f with
              | VALID => 0 | INVALID_MVCC_CONFLICT_WITHIN_BLOCK => 1
              | INVALID_MVCC_CONFLICT_WITH_COMMITTED_STATE => 2
              | INVALID_DATABASE_DOES_NOT_EXIST => 3 | INVALID_NO_PERMISSION => 4
              | INVALID_INCORRECT_ENTRIES => 5 | INVALID_UNAUTHORISED => 6
              | INVALID_MISSING_SIGNATURE => 7 end)
    (fun n => match n with
              | 0 => VALID | 1 => INVALID_MVCC_CONFLICT_WITHIN_BLOCK
              | 2 => INVALID_MVCC_CONFLICT_WITH_COMMITTED_STATE
              | 3 => INVALID_DATABASE_DOES_NOT_EXIST | 4 => INVALID_NO_PERMISSION
              | 5 => INVALID_INCORRECT_ENTRIES | 6 => INVALID_UNAUTHORISED
              | _ => INVALID_MISSING_SIGNATURE end) _); by intros [].
Defined.

#[export] Instance ValidationInfo_eq_dec : EqDecision ValidationInfo.
Proof. solve_decision. Defined.
#[export] Instance ValidationInfo_countable : Countable ValidationInfo.
Proof.
  refine (inj_countable' (fun r => (VI_Flag r, ReasonIfInvalid r))
    (fun '(a0, a1) => mkValidationInfo a0 a1) _); by intros [].
Defined.

#[export] Instance DataRead_eq_dec : EqDecision DataRead.
Proof. solve_decision. Defined.
#[export] Instance DataRead_countable : Countable DataRead.
Proof.
  refine (inj_countable' (fun r => (DR_Key r, DR_Version r))
    (fun '(a0, a1) => mkDataRead a0 a1) _); by intros [].
Defined.

#[export] Instance DataWrite_eq_dec : EqDecision DataWrite.
Proof. solve_decision. Defined.
#[export] Instance DataWrite_countable : Countable DataWrite.
Proof.
  refine (inj_countable' (fun r => (DW_Key r, DW_Value r, DW_Acl r))
    (fun '(a0, a1, a2) => mkDataWrite a0 a1 a2) _); by intros [].
Defined.

#[export] Instance DataDelete_eq_dec : EqDecision DataDelete.
Proof. solve_decision. Defined.
#[export] Instance DataDelete_countable : Countable DataDelete.
Proof. refine (inj_countable' DD_Key mkDataDelete _). by intros []. Defined.

#[export] Instance DBOperation_eq_dec : EqDecision DBOperation.
Proof. solve_decision. Defined.
#[export] Instance DBOperation_countable : Countable DBOperation.
Proof.
  refine (inj_countable' (fun r => (DbName r, DataReads r, DataWrites r, DataDeletes r))
    (fun '(a0, a1, a2, a3) => mkDBOperation a0 a1 a2 a3) _); by intros [].
Defined.

#[export] Instance DataTx_eq_dec : EqDecision DataTx.
Proof. solve_decision. Defined.
#[export] Instance DataTx_countable : Countable DataTx.
Proof.
  refine (inj_countable' (fun r => (MustSignUserIds r, DTx_TxId r, DbOperations r))
    (fun '(a0, a1, a2) => mkDataTx a0 a1 a2) _); by intros [].
Defined.

#[export] Instance DataTxEnvelope_eq_dec : EqDecision DataTxEnvelope.
Proof. solve_decision. Defined.
#[export] Instance DataTxEnvelope_countable : Countable DataTxEnvelope.
Proof.
  refine (inj_countable' (fun r => (DEnv_Payload r, Signatures r))
    (fun '(a0, a1) => mkDataTxEnvelope a0 a1) _); by intros [].
Defined.

#[export] Instance Privilege_eq_dec : EqDecision Privilege.
Proof. solve_decision. Defined.
#[export] Instance Privilege_countable : Countable Privilege.
Proof.
  refine (inj_countable' (fun r => (DbPermission r, Admin_priv r))
    (fun '(a0, a1) => mkPrivilege a0 a1) _); by intros [].
Defined.

#[export] Instance User_eq_dec : EqDecision User.
Proof. solve_decision. Defined.
#[export] Instance User_countable : Countable User.
Proof.
  refine (inj_countable' (fun r => (User_Id r, User_Certificate r, User_Privilege r))
    (fun '(a0, a1, a2) => mkUser a0 a1 a2) _); by intros [].
Defined.

#[export] Instance UserRead_eq_dec : EqDecision UserRead.
Proof. solve_decision. Defined.
#[export] Instance UserRead_countable : Countable UserRead.
Proof.
  refine (inj_countable' (fun r => (UR_UserId r, UR_Version r))
    (fun '(a0, a1) => mkUserRead a0 a1) _); by intros [].
Defined.

#[export] Instance UserWrite_eq_dec : EqDecision UserWrite.
Proof. solve_decision. Defined.
#[export] Instance UserWrite_countable : Countable UserWrite.
Proof.
  refine (inj_countable' (fun r => (UW_User r, UW_Acl r))
    (fun '(a0, a1) => mkUserWrite a0 a1) _); by intros [].
Defined.

#[export] Instance UserDelete_eq_dec : EqDecision UserDelete.
Proof. solve_decision. Defined.
#[export] Instance UserDelete_countable : Countable UserDelete.
Proof. refine (inj_countable' UD_UserId mkUserDelete _). by intros []. Defined.

#[export] Instance UserAdministrationTx_eq_dec : EqDecision UserAdministrationTx.
Proof. solve_decision. Defined.
#[export] Instance UserAdministrationTx_countable : Countable UserAdministrationTx.
Proof.
  refine (inj_countable' (fun r => (UTx_UserId r, UTx_TxId r, UserReads r, UserWrites r, UserDeletes r))
    (fun '(a0, a1, a2, a3, a4) => mkUserAdministrationTx a0 a1 a2 a3 a4) _); by intros [].
Defined.

#[export] Instance UserAdministrationTxEnvelope_eq_dec : EqDecision UserAdministrationTxEnvelope.
Proof. solve_decision. Defined.
#[export] Instance UserAdministrationTxEnvelope_countable : Countable UserAdministrationTxEnvelope.
Proof.
  refine (inj_countable' (fun r => (UEnv_Payload r, UEnv_Signature r))
    (fun '(a0, a1) => mkUserAdministrationTxEnvelope a0 a1) _); by intros [].
Defined.

#[export] Instance IndexAttributeType_eq_dec : EqDecision IndexAttributeType.
Proof. solve_decision. Defined.
#[export] Instance IndexAttributeType_countable : Countable IndexAttributeType.
Proof.
  refine (inj_countable'
    (fun p => match p with
              | IndexAttributeType_NUMBER => (0, 0%Z) | IndexAttributeType_STRING => (1, 0%Z)
              | IndexAttributeType_BOOLEAN => (2, 0%Z)
              | IndexAttributeType_Unknown n => (3, n) end)
    (fun '(t, n) => match t with
                    | 0 => IndexAttributeType_NUMBER | 1 => IndexAttributeType_STRING
                    | 2 => IndexAttributeType_BOOLEAN
                    | _ => IndexAttributeType_Unknown n end) _); by intros [].
Defined.

#[export] Instance DBIndex_eq_dec : EqDecision DBIndex.
Proof. solve_decision. Defined.
#[export] Instance DBIndex_countable : Countable DBIndex.
Proof. refine (inj_countable' AttributeAndType mkDBIndex _). by intros []. Defined.

#[export] Instance DBAdministrationTx_eq_dec : EqDecision DBAdministrationTx.
Proof. solve_decision. Defined.
#[export] Instance DBAdministrationTx_countable : Countable DBAdministrationTx.
Proof.
  refine (inj_countable' (fun r => (DBTx_UserId r, DBTx_TxId r, CreateDbs r, DeleteDbs r, DbsIndex r))
    (fun '(a0, a1, a2, a3, a4) => mkDBAdministrationTx a0 a1 a2 a3 a4) _); by intros [].
Defined.

#[export] Instance DBAdministrationTxEnvelope_eq_dec : EqDecision DBAdministrationTxEnvelope.
Proof. solve_decision. Defined.
#[export] Instance DBAdministrationTxEnvelope_countable : Countable DBAdministrationTxEnvelope.
Proof.
  refine (inj_countable' (fun r => (DBEnv_Payload r, DBEnv_Signature r))
    (fun '(a0, a1) => mkDBAdministrationTxEnvelope a0 a1) _); by intros [].
Defined.

#[export] Instance NodeConfig_eq_dec : EqDecision NodeConfig.
Proof. solve_decision. Defined.
#[export] Instance NodeConfig_countable : Countable NodeConfig.
Proof.
  refine (inj_countable' (fun r => (Node_Id r, Node_Address r, Node_Port r, Node_Certificate r))
    (fun '(a0, a1, a2, a3) => mkNodeConfig a0 a1 a2 a3) _); by intros [].
Defined.

#[export] Instance Admin_eq_dec : EqDecision Admin.
Proof. solve_decision. Defined.
#[export] Instance Admin_countable : Countable Admin.
Proof.
  refine (inj_countable' (fun r => (Admin_Id r, Admin_Certificate r))
    (fun '(a0, a1) => mkAdmin a0 a1) _); by intros [].
Defined.

#[export] Instance CAConfig_eq_dec : EqDecision CAConfig.
Proof. solve_decision. Defined.
#[export] Instance CAConfig_countable : Countable CAConfig.
Proof.
  refine (inj_countable' (fun r => (Roots r, Intermediates r))
    (fun '(a0, a1) => mkCAConfig a0 a1) _); by intros [].
Defined.

#[export] Instance PeerConfig_eq_dec : EqDecision PeerConfig.
Proof. solve_decision. Defined.
#[export] Instance PeerConfig_countable : Countable PeerConfig.
Proof.
  refine (inj_countable' (fun r => (NodeId r, RaftId r, PeerHost r, PeerPort r))
    (fun '(a0, a1, a2, a3) => mkPeerConfig a0 a1 a2 a3) _); by intros [].
Defined.

#[export] Instance RaftConfig_eq_dec : EqDecision RaftConfig.
Proof. solve_decision. Defined.
#[export] Instance RaftConfig_countable : Countable RaftConfig.
Proof.
  refine (inj_countable' (fun r => (TickInterval r, ElectionTicks r, HeartbeatTicks r, MaxInflightBlocks r, SnapshotIntervalSize r, MaxRaftId r))
    (fun '(a0, a1, a2, a3, a4, a5) => mkRaftConfig a0 a1 a2 a3 a4 a5) _); by intros [].
Defined.

#[export] Instance ConsensusConfig_eq_dec : EqDecision ConsensusConfig.
Proof. solve_decision. Defined.
#[export] Instance ConsensusConfig_countable : Countable ConsensusConfig.
Proof.
  refine (inj_countable' (fun r => (Algorithm r, Members r, Observers r, CC_RaftConfig r))
    (fun '(a0, a1, a2, a3) => mkConsensusConfig a0 a1 a2 a3) _); by intros [].
Defined.

#[export] Instance LedgerConfig_eq_dec : EqDecision LedgerConfig.
Proof. solve_decision. Defined.
#[export] Instance LedgerConfig_countable : Countable LedgerConfig.
Proof. refine (inj_countable' StateMerkelPatriciaTrieDisabled mkLedgerConfig _). by intros []. Defined.

#[export] Instance ClusterConfig_eq_dec : EqDecision ClusterConfig.
Proof. solve_decision. Defined.
#[export] Instance ClusterConfig_countable : Countable ClusterConfig.
Proof.
  refine (inj_countable' (fun r => (Nodes r, Admins r, CertAuthConfig r, Consensus r, Ledger r))
    (fun '(a0, a1, a2, a3, a4) => mkClusterConfig a0 a1 a2 a3 a4) _); by intros [].
Defined.

#[export] Instance ConfigTx_eq_dec : EqDecision ConfigTx.
Proof. solve_decision. Defined.
#[export] Instance ConfigTx_countable : Countable ConfigTx.
Proof.
  refine (inj_countable' (fun r => (CTx_UserId r, CTx_TxId r, ReadOldConfigVersion r, NewConfig r))
    (fun '(a0, a1, a2, a3) => mkConfigTx a0 a1 a2 a3) _); by intros [].
Defined.

#[export] Instance ConfigTxEnvelope_eq_dec : EqDecision ConfigTxEnvelope.
Proof. solve_decision. Defined.
#[export] Instance ConfigTxEnvelope_countable : Countable ConfigTxEnvelope.
Proof.
  refine (inj_countable' (fun r => (CEnv_Payload r, CEnv_Signature r))
    (fun '(a0, a1) => mkConfigTxEnvelope a0 a1) _); by intros [].
Defined.

#[export] Instance BlockHeaderBase_eq_dec : EqDecision BlockHeaderBase.
Proof. solve_decision. Defined.
#[export] Instance BlockHeaderBase_countable : Countable BlockHeaderBase.
Proof.
  refine (inj_countable' (fun r => (Number r, PreviousBaseHeaderHash r, LastCommittedBlockHash r, LastCommittedBlockNum r))
    (fun '(a0, a1, a2, a3) => mkBlockHeaderBase a0 a1 a2 a3) _); by intros [].
Defined.

#[export] Instance BlockHeader_eq_dec : EqDecision BlockHeader.
Proof. solve_decision. Defined.
#[export] Instance BlockHeader_countable : Countable BlockHeader.
Proof.
  refine (inj_countable' (fun r => (BaseHeader r, SkipchainHashes r, TxMerkelTreeRootHash r, StateMerkelTreeRootHash r, ValidationInfos r))
    (fun '(a0, a1, a2, a3, a4) => mkBlockHeader a0 a1 a2 a3 a4) _); by intros [].
Defined.

#[export] Instance BlockPayload_eq_dec : EqDecision BlockPayload.
Proof. solve_decision. Defined.
#[export] Instance BlockPayload_countable : Countable BlockPayload.
Proof.
  refine (inj_countable'
    (fun p => match p with
              | Block_DataTxEnvelopes e => inl (inl e)
              | Block_ConfigTxEnvelope e => inl (inr e)
              | Block_DbAdministrationTxEnvelope e => inr (inl e)
              | Block_UserAdministrationTxEnvelope e => inr (inr e) end)
    (fun p => match p with
              | inl (inl e) => Block_DataTxEnvelopes e
              | inl (inr e) => Block_ConfigTxEnvelope e
              | inr (inl e) => Block_DbAdministrationTxEnvelope e
              | inr (inr e) => Block_UserAdministrationTxEnvelope e end) _); by intros [].
Defined.

#[export] Instance ConsensusMetadata_eq_dec : EqDecision ConsensusMetadata.
Proof. solve_decision. Defined.
#[export] Instance ConsensusMetadata_countable : Countable ConsensusMetadata.
Proof.
  refine (inj_countable' (fun r => (RaftTerm r, RaftIndex r))
    (fun '(a0, a1) => mkConsensusMetadata a0 a1) _); by intros [].
Defined.

#[export] Instance Block_eq_dec : EqDecision Block.
Proof. solve_decision. Defined.
#[export] Instance Block_countable : Countable Block.
Proof.
  refine (inj_countable' (fun r => (Header r, Payload r, Block_ConsensusMetadata r))
    (fun '(a0, a1, a2) => mkBlock a0 a1 a2) _); by intros [].
Defined.

(** ** Wire formats

    [proto.Marshal] and [proto.Unmarshal] are code of a third-party package.
    What the program relies on is the round trip of a marshaled message;
    [Marshal] may fail (a string field that is not UTF-8). *)

Class Codec (A : Type) := {
  Marshal : A → res bytes;
  Unmarshal : bytes → res A;
  unmarshal_marshal : ∀ a b, Marshal a = Ok b → Unmarshal b = Ok a;
}.

(** A concrete format, for instances: the bits of the message's code. *)
Fixpoint positive_bits (p : positive) : bytes :=
  match p with
  | xH => []
  | xO p => 0%Z :: positive_bits p
  | xI p => 1%Z :: positive_bits p
  end.

Fixpoint bits_positive (b : bytes) : positive :=
  match b with
  | [] => xH
  | z :: b => if Z.eqb z 0 then xO (bits_positive b) else xI (bits_positive b)
  end.

Lemma bits_positive_bits p : bits_positive (positive_bits p) = p.
Proof. induction p; cbn; congruence. Qed.

Program Definition countable_codec `{Countable A} : Codec A := {|
  Marshal a := Ok (positive_bits (encode a));
  Unmarshal b := match decode (bits_positive b) with
                 | Some a => Ok a
                 | None => Err (PlainErr "cannot unmarshal")
                 end;
|}.
Next Obligation.
  cbn. intros A ? ? a b [= <-]. by rewrite bits_positive_bits, decode_encode.
Qed.
