(* ===== verification/StringOrder.v ===== *)
(** * The byte order of strings

    Go compares strings byte by byte.  Texts made of parts that show where they
    end compare part by part: the order of the keys of an index rests on this. *)

From S2P Require Import Prelude.
From Stdlib Require Import Ascii.

#[local] Arguments String.append !_ _ /.

Lemma string_app_assoc a b c : a +:+ (b +:+ c) = (a +:+ b) +:+ c.
Proof. induction a as [|x a IH]; cbn; [done|by rewrite IH]. Qed.

Lemma string_app_nil a : a +:+ "" = a.
Proof. induction a as [|x a IH]; cbn; [done|by rewrite IH]. Qed.

(** ** [String.compare] as an order *)

Lemma ascii_compare_refl c : Ascii.compare c c = Eq.
Proof. unfold Ascii.compare. apply N.compare_refl. Qed.

Lemma ascii_compare_eq c d : Ascii.compare c d = Eq → c = d.
Proof.
  unfold Ascii.compare. intros H%N.compare_eq_iff.
  by rewrite <- (ascii_N_embedding c), H, ascii_N_embedding.
Qed.

Lemma string_compare_refl s : String.compare s s = Eq.
Proof. induction s as [|c s IH]; cbn; [done|]. by rewrite ascii_compare_refl. Qed.

Lemma string_compare_eq a b : String.compare a b = Eq ↔ a = b.
Proof.
  split; [|intros ->; apply string_compare_refl].
  revert b. induction a as [|c a IH]; intros [|d b] H; cbn in H; try done.
  destruct (Ascii.compare c d) eqn:E; try done. apply ascii_compare_eq in E as ->. by rewrite (IH b).
Qed.

Lemma string_compare_antisym a b : String.compare b a = CompOpp (String.compare a b).
Proof.
  revert b. induction a as [|c a IH]; intros [|d b]; cbn; try done.
  unfold Ascii.compare. rewrite N.compare_antisym. destruct (N_of_ascii c ?= N_of_ascii d)%N; cbn; done.
Qed.

Lemma string_compare_lt_trans a b c :
  String.compare a b = Lt → String.compare b c = Lt → String.compare a c = Lt.
Proof.
  revert b c. induction a as [|x a IH]; intros [|y b] [|z c] H1 H2; cbn in *; try done.
  unfold Ascii.compare in *.
  destruct (N.compare_spec (N_of_ascii x) (N_of_ascii y)) as [E1|E1|E1]; try done;
    destruct (N.compare_spec (N_of_ascii y) (N_of_ascii z)) as [E2|E2|E2]; try done.
  - rewrite E1, E2, N.compare_refl. by eapply IH.
  - rewrite E1, (proj2 (N.compare_lt_iff _ _) E2). done.
  - rewrite <- E2, (proj2 (N.compare_lt_iff _ _) E1). done.
  - rewrite (proj2 (N.compare_lt_iff _ _) (N.lt_trans _ _ _ E1 E2)). done.
Qed.

Lemma ltb_compare a b : String.ltb a b = true ↔ String.compare a b = Lt.
Proof. unfold String.ltb. by destruct (String.compare a b). Qed.

Lemma leb_compare a b : String.leb a b = true ↔ String.compare a b ≠ Gt.
Proof. unfold String.leb. by destruct (String.compare a b). Qed.

Lemma leb_ltb a b : String.leb a b = negb (String.ltb b a).
Proof.
  unfold String.leb, String.ltb. rewrite (string_compare_antisym a b). by destruct (String.compare a b).
Qed.

(** ** Parts that show where they end *)

(** No text of a prefix code continues another. *)
Class PrefixCode (A : string → Prop) :=
  prefix_code : ∀ a b r r', A a → A b → a +:+ r = b +:+ r' → a = b.

(** Two strings with the same start compare as what follows. *)
Lemma compare_same p a b : String.compare (p +:+ a) (p +:+ b) = String.compare a b.
Proof. induction p as [|c p IH]; cbn; [done|]. by rewrite ascii_compare_refl. Qed.

(** Two strings differ at a place, or one continues the other. *)
Lemma compare_diverge a b :
  (∀ r r', String.compare (a +:+ r) (b +:+ r') = String.compare a b ∧ String.compare a b ≠ Eq) ∨
  (∃ t, a +:+ t = b) ∨ (∃ t, b +:+ t = a).
Proof.
  revert b. induction a as [|c a IH]; intros b; [right; left; by exists b|].
  destruct b as [|d b]; [right; right; by exists (String c a)|].
  destruct (Ascii.compare c d) eqn:E.
  - apply ascii_compare_eq in E as ->. destruct (IH b) as [H|[[t <-]|[t <-]]].
    + left. intros r r'. cbn. rewrite ascii_compare_refl. apply H.
    + right. left. by exists t.
    + right. right. by exists t.
  - left. intros r r'. cbn. by rewrite E.
  - left. intros r r'. cbn. by rewrite E.
Qed.

Definition lex (c d : comparison) : comparison := match c with Eq => d | _ => c end.

Lemma lex_eq c d : lex c d = Eq ↔ c = Eq ∧ d = Eq.
Proof. destruct c; cbn; naive_solver. Qed.

Lemma lex_eq_r c : lex c Eq = c.
Proof. by destruct c. Qed.

(** Texts that start with parts of a prefix code compare as the parts, then as
    what follows them. *)
Lemma compare_code `{PrefixCode A} a b r r' : A a → A b →
  String.compare (a +:+ r) (b +:+ r') = lex (String.compare a b) (String.compare r r').
Proof.
  intros Ha Hb. destruct (compare_diverge a b) as [H'|[[t Ht]|[t Ht]]].
  - destruct (H' r r') as [-> Hne]. by destruct (String.compare a b).
  - assert (a = b) as -> by (apply (prefix_code a b t ""); [done..|by rewrite string_app_nil]).
    by rewrite compare_same, string_compare_refl.
  - assert (a = b) as -> by (apply (prefix_code a b "" t); [done..|by rewrite string_app_nil]).
    by rewrite compare_same, string_compare_refl.
Qed.

(** ** Decimal numbers *)

Lemma pretty_N_chars (f : ascii → bool) x s :
  (∀ d, (d < 10)%N → f (pretty_N_char d) = true) → string_forallb f s = true →
  string_forallb f (pretty_N_go x s) = true.
Proof.
  intros Hf. revert s. induction (N.lt_wf_0 x) as [x _ IH]. intros s Hs.
  destruct (decide (x = 0)%N) as [->|]; [by rewrite pretty_N_go_0|].
  rewrite pretty_N_go_step by lia. apply IH; [apply N.div_lt; lia|]. cbn.
  by rewrite Hs, Hf by (apply N.mod_lt; lia).
Qed.

(** A decimal number and the comma after it. *)
Definition number_comma (s : string) : Prop := ∃ z : Z, s = pretty z +:+ ",".

Lemma pretty_no_comma (z : Z) : string_forallb (fun x => bool_decide (x ≠ ","%char)) (pretty z) = true.
Proof.
  assert (Hp : ∀ p, string_forallb (fun x => bool_decide (x ≠ ","%char)) (pretty (Npos p)) = true).
  { intros p. unfold pretty, pretty_N. case_decide; [done|]. apply pretty_N_chars; [|done].
    intros d Hd. apply bool_decide_eq_true. unfold pretty_N_char. by repeat case_match. }
  destruct z as [|p|p]; [done|apply Hp|]. unfold pretty, pretty_Z. cbn. apply Hp.
Qed.

#[export] Instance number_comma_code : PrefixCode number_comma.
Proof.
  intros a b r r' [z ->] [z' ->] H. rewrite <- !string_app_assoc in H. cbn in H.
  by destruct (append_sep_inj _ _ _ _ _ (pretty_no_comma z) (pretty_no_comma z') H) as [-> _].
Qed.
