(* ===== verification/JSON.v ===== *)
(** * JSON text

    What the sources use of [encoding/json]: the text of a string as
    [json.Marshal] writes it, and the decoder that reads a value with
    [UseNumber].  The round trip of strings, that the text of a string shows where
    it ends, and that the decoder's fuel is enough for every input. *)

From S2P Require Import Prelude StringOrder.
From Stdlib Require Import Ascii.

#[local] Arguments String.append !_ _ /.

(** ** JSON values as [encoding/json] decodes them

    Numbers keep their literal ([UseNumber]); the fields of an object are listed
    in the order a range over the decoded map visits them. *)

Inductive json :=
  | JNull
  | JBool (b : bool)
  | JNumber (lit : string)
  | JString (s : string)
  | JArray (l : list json)
  | JObject (fields : list (string * json)).

(** ** UTF-8 *)

Definition code (c : ascii) : Z := Z.of_N (N_of_ascii c).
Definition char (z : Z) : ascii := ascii_of_N (Z.to_N z).
Definition between (lo hi : Z) (c : ascii) : bool := (lo <=? code c)%Z && (code c <=? hi)%Z.

(** The length of the encoding a first byte announces, and the second bytes it accepts. *)
Definition utf8_first (c : ascii) : option (nat * Z * Z) :=
  if between 0xC2 0xDF c then Some (2, 0x80%Z, 0xBF%Z)
  else if between 0xE0 0xE0 c then Some (3, 0xA0%Z, 0xBF%Z)
  else if between 0xED 0xED c then Some (3, 0x80%Z, 0x9F%Z)
  else if between 0xE1 0xEF c then Some (3, 0x80%Z, 0xBF%Z)
  else if between 0xF0 0xF0 c then Some (4, 0x90%Z, 0xBF%Z)
  else if between 0xF1 0xF3 c then Some (4, 0x80%Z, 0xBF%Z)
  else if between 0xF4 0xF4 c then Some (4, 0x80%Z, 0x8F%Z)
  else None.

Fixpoint continuation (n : nat) (s : string) : bool :=
  match n, s with
  | 0, _ => true
  | S n, String c s => between 0x80 0xBF c && continuation n s
  | S _, EmptyString => false
  end.

(** [utf8.DecodeRuneInString] on a text that starts with the byte [c], not ASCII:
    how many bytes follow [c], [None] for a [RuneError] of width one. *)
Definition rune_tail (c : ascii) (s : string) : option nat :=
  '(n, lo, hi) ← utf8_first c;
  match s with
  | String c1 s1 => if between lo hi c1 && continuation (n - 2) s1 then Some (n - 1) else None
  | EmptyString => None
  end.

(** [utf8.ValidString]; [skip] bytes belong to the rune being read. *)
Fixpoint utf8_from (skip : nat) (s : string) : bool :=
  match s with
  | EmptyString => true
  | String c s1 =>
    match skip with
    | S k => utf8_from k s1
    | 0 =>
      if (code c <? 0x80)%Z then utf8_from 0 s1
      else match rune_tail c s1 with Some n => utf8_from n s1 | None => false end
    end
  end.
Definition utf8_valid (s : string) : bool := utf8_from 0 s.

(** [utf8.EncodeRune] *)
Definition utf8_encode (r : Z) : string :=
  let tail n := char (0x80 + (Z.shiftr r (6 * n)) mod 64) in
  if (r <? 0x80)%Z then String (char r) ""
  else if (r <? 0x800)%Z then String (char (0xC0 + Z.shiftr r 6)) (String (tail 0%Z) "")
  else if (r <? 0x10000)%Z then
    String (char (0xE0 + Z.shiftr r 12)) (String (tail 1%Z) (String (tail 0%Z) ""))
  else
    String (char (0xF0 + Z.shiftr r 18)) (String (tail 2%Z) (String (tail 1%Z) (String (tail 0%Z) ""))).

Definition replacement : string := utf8_encode 0xFFFD.

(** ** Writing strings *)

Definition hex_digit (n : Z) : ascii := if (n <? 10)%Z then char (48 + n) else char (87 + n).

(** An ASCII character: quotes, backslashes, control characters and the
    characters of HTML are escaped. *)
Definition escape_ascii (c : ascii) : string :=
  let n := code c in
  if ((n =? 34) || (n =? 92))%Z then String (char 92) (String c "")
  else if (n =? 10)%Z then "\n"
  else if (n =? 13)%Z then "\r"
  else if (n =? 9)%Z then "\t"
  else if ((n <? 32) || (n =? 38) || (n =? 60) || (n =? 62))%Z then
    "\u00" +:+ String (hex_digit (n / 16)) (String (hex_digit (n mod 16)) "")
  else String c "".

(** The line separators U+2028 and U+2029: their last byte. *)
Definition line_separator (c : ascii) (s : string) : option (ascii * string) :=
  match s with
  | String c1 (String c2 s3) =>
    if ((code c =? 0xE2) && (code c1 =? 0x80) && ((code c2 =? 0xA8) || (code c2 =? 0xA9)))%Z
    then Some (c2, s3) else None
  | _ => None
  end.

Fixpoint escape_from (skip : nat) (s : string) : string :=
  match s with
  | EmptyString => ""
  | String c s1 =>
    match skip with
    | S k => String c (escape_from k s1)
    | 0 =>
      if (code c <? 0x80)%Z then escape_ascii c +:+ escape_from 0 s1
      else match rune_tail c s1 with
           | None => "\ufffd" +:+ escape_from 0 s1
           | Some n =>
             match s1 with
             | String c1 (String c2 s3) =>
               match line_separator c s1 with
               | Some _ => "\u202" +:+ String (hex_digit (code c2 mod 16)) (escape_from 0 s3)
               | None => String c (escape_from n s1)
               end
             | _ => String c (escape_from n s1)
             end
           end
    end
  end.
Definition escape (s : string) : string := escape_from 0 s.

Definition quote : string := String (char 34) "".
Definition json_string (s : string) : string := quote +:+ escape s +:+ quote.

(** ** Reading *)

Definition is_space (c : ascii) : bool :=
  ((code c =? 32) || (code c =? 9) || (code c =? 13) || (code c =? 10))%Z.

Fixpoint skip_space (s : string) : string :=
  match s with
  | String c s1 => if is_space c then skip_space s1 else s
  | EmptyString => ""
  end.

(** The text after the character with code [n], when the text starts with it. *)
Definition expect (n : Z) (s : string) : option string :=
  match s with
  | String c s1 => if (code c =? n)%Z then Some s1 else None
  | EmptyString => None
  end.

Fixpoint expect_word (w s : string) : option string :=
  match w, s with
  | EmptyString, _ => Some s
  | String c w, String c' s => if Ascii.eqb c c' then expect_word w s else None
  | String _ _, EmptyString => None
  end.

Definition digit (c : ascii) : option Z :=
  if between 48 57 c then Some (code c - 48)%Z else None.

Definition hex_value (c : ascii) : option Z :=
  if between 48 57 c then Some (code c - 48)%Z
  else if between 97 102 c then Some (code c - 87)%Z
  else if between 65 70 c then Some (code c - 55)%Z
  else None.

Definition hex4 (a b c d : ascii) : option Z :=
  x ← hex_value a; y ← hex_value b; z ← hex_value c; w ← hex_value d;
  Some (((x * 16 + y) * 16 + z) * 16 + w)%Z.

Definition is_surrogate (r : Z) : bool := ((0xD800 <=? r) && (r <? 0xE000))%Z.

(** [utf16.DecodeRune] *)
Definition surrogate_pair (r1 r2 : Z) : option Z :=
  if ((0xD800 <=? r1) && (r1 <? 0xDC00) && (0xDC00 <=? r2) && (r2 <? 0xE000))%Z
  then Some ((r1 - 0xD800) * 1024 + (r2 - 0xDC00) + 0x10000)%Z else None.

(** The character a one-letter escape stands for. *)
Definition unescape_char (c : ascii) : option ascii :=
  let n := code c in
  if ((n =? 34) || (n =? 92) || (n =? 47))%Z then Some c
  else if (n =? 98)%Z then Some (char 8)
  else if (n =? 102)%Z then Some (char 12)
  else if (n =? 110)%Z then Some (char 10)
  else if (n =? 114)%Z then Some (char 13)
  else if (n =? 116)%Z then Some (char 9)
  else None.

Definition prepend (t : string) (r : option (string * string)) : option (string * string) :=
  '(s, rest) ← r; Some (t +:+ s, rest).

(** The string that starts after an opening quote, and the text after its closing
    quote: escapes are replaced, control characters are refused, and what is not
    UTF-8 becomes U+FFFD. *)
Fixpoint unquote_from (skip : nat) (s : string) : option (string * string) :=
  match s with
  | EmptyString => None
  | String c s1 =>
    match skip with
    | S k => prepend (String c "") (unquote_from k s1)
    | 0 =>
      if (code c =? 34)%Z then Some ("", s1)
      else if (code c =? 92)%Z then
        match s1 with
        | EmptyString => None
        | String e s2 =>
          if (code e =? 117)%Z then
            match s2 with
            | String h1 (String h2 (String h3 (String h4 s6))) =>
              r ← hex4 h1 h2 h3 h4;
              if is_surrogate r then
                match s6 with
                | String b (String u (String g1 (String g2 (String g3 (String g4 s12))))) =>
                  match (if ((code b =? 92) && (code u =? 117))%Z then hex4 g1 g2 g3 g4 else None)
                        ≫= surrogate_pair r with
                  | Some r' => prepend (utf8_encode r') (unquote_from 0 s12)
                  | None => prepend replacement (unquote_from 0 s6)
                  end
                | _ => prepend replacement (unquote_from 0 s6)
                end
              else prepend (utf8_encode r) (unquote_from 0 s6)
            | _ => None
            end
          else c' ← unescape_char e; prepend (String c' "") (unquote_from 0 s2)
        end
      else if (code c <? 32)%Z then None
      else if (code c <? 0x80)%Z then prepend (String c "") (unquote_from 0 s1)
      else match rune_tail c s1 with
           | Some n => prepend (String c "") (unquote_from n s1)
           | None => prepend replacement (unquote_from 0 s1)
           end
    end
  end.
Definition unquote (s : string) : option (string * string) := unquote_from 0 s.

(** *** Numbers *)

Fixpoint take_digits (s : string) : string * string :=
  match s with
  | String c s1 =>
    if between 48 57 c then (String c (take_digits s1).1, (take_digits s1).2) else ("", s)
  | EmptyString => ("", "")
  end.

Definition some_digits (s : string) : option (string * string) :=
  let '(ds, rest) := take_digits s in
  if bool_decide (ds = "") then None else Some (ds, rest).

(** [0] or a number that does not start with [0] *)
Definition int_part (s : string) : option (string * string) :=
  match s with
  | String c s1 => if (code c =? 48)%Z then Some (String c "", s1) else some_digits s
  | EmptyString => None
  end.

Definition frac_part (s : string) : option (string * string) :=
  match s with
  | String c s1 =>
    if (code c =? 46)%Z then prepend (String c "") (some_digits s1) else Some ("", s)
  | EmptyString => Some ("", s)
  end.

Definition exp_part (s : string) : option (string * string) :=
  match s with
  | String c s1 =>
    if ((code c =? 101) || (code c =? 69))%Z then
      prepend (String c "")
        match s1 with
        | String d s2 =>
          if ((code d =? 43) || (code d =? 45))%Z then prepend (String d "") (some_digits s2)
          else some_digits s1
        | EmptyString => None
        end
    else Some ("", s)
  | EmptyString => Some ("", s)
  end.

(** A number literal, not split further, and the text after it. *)
Definition parse_number (s : string) : option (string * string) :=
  let '(sign, s) := match expect 45 s with Some s1 => ("-", s1) | None => ("", s) end in
  '(i, s) ← int_part s; '(f, s) ← frac_part s; '(e, s) ← exp_part s;
  Some (sign +:+ i +:+ f +:+ e, s).

(** *** Values *)

(** The fields of an object, made of the members of its text. *)
Class ObjectFields := object_fields : list (string * json) → list (string * json).

(** The map of the fields read: the last of two fields with the same name counts. *)
Definition fields_map (fields : list (string * json)) : gmap string json :=
  foldl (fun m '(k, v) => <[k := v]> m) ∅ fields.

(** A [map[string]interface{}], and the members as the decoder visits them to fill a
    struct. *)
#[export] Instance map_fields {mr : MapRange} : ObjectFields := fun fields => range (fields_map fields).
Definition text_fields : ObjectFields := fun fields => fields.

Section Parser.
Context {ofields : ObjectFields}.

Definition maxNestingDepth : Z := 10000.

(** The value that starts the text, and the text after it.  [depth] objects and
    arrays are open. *)
Fixpoint parse_value (fuel : nat) (depth : Z) (s : string) : option (json * string) :=
  match fuel with
  | 0 => None
  | S fuel =>
    match skip_space s with
    | EmptyString => None
    | String c s1 as s0 =>
      if (code c =? 123)%Z then
        if (depth <? maxNestingDepth)%Z then
          match expect 125 (skip_space s1) with
          | Some rest => Some (JObject [], rest)
          | None =>
            '(fields, rest) ← parse_members fuel (depth + 1) s1;
            Some (JObject (object_fields fields), rest)
          end
        else None
      else if (code c =? 91)%Z then
        if (depth <? maxNestingDepth)%Z then
          match expect 93 (skip_space s1) with
          | Some rest => Some (JArray [], rest)
          | None => '(l, rest) ← parse_elements fuel (depth + 1) s1; Some (JArray l, rest)
          end
        else None
      else if (code c =? 34)%Z then '(t, rest) ← unquote s1; Some (JString t, rest)
      else if (code c =? 116)%Z then rest ← expect_word "true" s0; Some (JBool true, rest)
      else if (code c =? 102)%Z then rest ← expect_word "false" s0; Some (JBool false, rest)
      else if (code c =? 110)%Z then rest ← expect_word "null" s0; Some (JNull, rest)
      else '(lit, rest) ← parse_number s0; Some (JNumber lit, rest)
    end
  end
with parse_members (fuel : nat) (depth : Z) (s : string) : option (list (string * json) * string) :=
  match fuel with
  | 0 => None
  | S fuel =>
    s1 ← expect 34 (skip_space s);
    '(name, s2) ← unquote s1;
    s3 ← expect 58 (skip_space s2);
    '(v, s4) ← parse_value fuel depth s3;
    match expect 125 (skip_space s4) with
    | Some rest => Some ([(name, v)], rest)
    | None =>
      s5 ← expect 44 (skip_space s4);
      '(fields, rest) ← parse_members fuel depth s5;
      Some ((name, v) :: fields, rest)
    end
  end
with parse_elements (fuel : nat) (depth : Z) (s : string) : option (list json * string) :=
  match fuel with
  | 0 => None
  | S fuel =>
    '(v, s1) ← parse_value fuel depth s;
    match expect 93 (skip_space s1) with
    | Some rest => Some ([v], rest)
    | None =>
      s2 ← expect 44 (skip_space s1);
      '(l, rest) ← parse_elements fuel depth s2;
      Some (v :: l, rest)
    end
  end.

(** One value and the text after it. *)
Definition parse_json (s : string) : option (json * string) := parse_value (2 * String.length s + 1) 0 s.

(** A whole text, as [json.Unmarshal] requires it. *)
Definition parse_text (s : string) : option json :=
  '(v, rest) ← parse_json s;
  if bool_decide (skip_space rest = "") then Some v else None.

(** The members of a whole text that is an object, in the order of the text, as
    [json.Unmarshal] into a struct visits them; [null] leaves the struct alone. *)
Definition parse_fields (s : string) : option (list (string * json)) :=
  match expect 123 (skip_space s) with
  | None => match parse_text s with Some JNull => Some [] | _ => None end
  | Some s1 =>
    match expect 125 (skip_space s1) with
    | Some rest => if bool_decide (skip_space rest = "") then Some [] else None
    | None =>
      '(fields, rest) ← parse_members (2 * String.length s + 1) 1 s1;
      if bool_decide (skip_space rest = "") then Some fields else None
    end
  end.

(** [json.Decoder.Decode] into a [map[string]interface{}]: the first value of the
    input, an object or [null]; what follows it is not read. *)
Definition DecodeObject (v : bytes) : option (list (string * json)) :=
  match parse_json (string_of_bytes v) with
  | Some (JObject fields, _) => Some fields
  | Some (JNull, _) => Some []
  | _ => None
  end.

End Parser.

(** ** The text of a string shows where it ends *)

(** The text up to the closing quote: a backslash hides the character after it. *)
Fixpoint scan (s : string) : option (string * string) :=
  match s with
  | EmptyString => None
  | String c s1 =>
    if (code c =? 34)%Z then Some ("", s1)
    else if (code c =? 92)%Z then
      match s1 with
      | String e s2 => prepend (String c (String e "")) (scan s2)
      | EmptyString => None
      end
    else prepend (String c "") (scan s1)
  end.

Lemma prepend_app t s r : prepend t (prepend s r) = prepend (t +:+ s) r.
Proof. destruct r as [[x y]|]; cbn; [|done]. by rewrite string_app_assoc. Qed.

(** A byte of a longer encoding is no quote, backslash or ASCII character. *)
Lemma continuation_byte c lo hi : between lo hi c = true → (0x80 ≤ lo)%Z →
  (code c =? 34)%Z = false ∧ (code c =? 92)%Z = false ∧ (code c <? 32)%Z = false ∧ (code c <? 0x80)%Z = false.
Proof. unfold between. intros [H1 H2]%andb_true_iff ?. lia. Qed.

Lemma not_ascii c : (code c <? 0x80)%Z = false →
  (code c =? 34)%Z = false ∧ (code c =? 92)%Z = false ∧ (code c <? 32)%Z = false.
Proof. lia. Qed.

Lemma utf8_first_range c n lo hi : utf8_first c = Some (n, lo, hi) → 2 ≤ n ≤ 4 ∧ (0x80 ≤ lo ∧ hi ≤ 0xBF)%Z.
Proof. unfold utf8_first. intros H. repeat case_match; simplify_eq; lia. Qed.

Lemma rune_tail_continuation c s n : rune_tail c s = Some n → continuation n s = true ∧ 1 ≤ n ≤ 3.
Proof.
  unfold rune_tail. intros H. destruct (utf8_first c) as [[[m lo] hi]|] eqn:E; [|done]. cbn in H.
  apply utf8_first_range in E. destruct s as [|c1 s1]; [done|].
  destruct (between lo hi c1) eqn:Hb; [|done]. destruct (continuation (m - 2) s1) eqn:Hc; [|done].
  cbn in H. injection H as <-. split; [|lia]. replace (m - 1) with (S (m - 2)) by lia. cbn.
  rewrite Hc, andb_true_r. unfold between in *. lia.
Qed.

(** The bytes of the rune being read are copied. *)
Lemma escape_skip n s : continuation n s = true →
  ∃ p q, s = p +:+ q ∧ escape_from n s = p +:+ escape_from 0 q ∧ String.length p = n.
Proof.
  revert s. induction n as [|n IH]; intros s H; [by exists "", s|].
  destruct s as [|c s]; [done|]. cbn in H. apply andb_true_iff in H as [_ H].
  destruct (IH s H) as (p & q & -> & Hq & <-). exists (String c p), q. cbn. by rewrite Hq.
Qed.

Lemma scan_plain c s : (code c =? 34)%Z = false → (code c =? 92)%Z = false →
  scan (String c s) = prepend (String c "") (scan s).
Proof. intros H1 H2. cbn [scan]. by rewrite H1, H2. Qed.

Lemma scan_escape c e s : (code c =? 92)%Z = true →
  scan (String c (String e s)) = prepend (String c (String e "")) (scan s).
Proof. intros H. cbn [scan]. rewrite H. by destruct (code c =? 34)%Z eqn:E; [lia|]. Qed.

(** Replaces the escape of each ASCII character by its text. *)
Ltac escape_cases c :=
  destruct c as [[] [] [] [] [] [] [] []];
  intros H; try discriminate H; clear H;
  match goal with
  | |- context [escape_ascii ?c] => let e := eval vm_compute in (escape_ascii c) in change (escape_ascii c) with e
  end; cbn [String.append].

Lemma escape_ascii_scan c r : (code c <? 0x80)%Z = true →
  scan (escape_ascii c +:+ r) = prepend (escape_ascii c) (scan r).
Proof.
  escape_cases c; rewrite ?scan_escape, ?scan_plain, ?prepend_app by reflexivity; reflexivity.
Qed.

Lemma scan_skip n p q r : continuation n (p +:+ q) = true → String.length p = n →
  scan (p +:+ r) = prepend p (scan r).
Proof.
  revert p. induction n as [|n IH]; intros [|c p] H Hl; try done.
  - cbn. by destruct (scan r) as [[? ?]|].
  - cbn in H, Hl. apply andb_true_iff in H as [Hc H].
    apply continuation_byte in Hc as (H1 & H2 & _); [|done]. cbn [String.append].
    rewrite scan_plain, (IH p), prepend_app by (done || lia). done.
Qed.

(** Strong induction on the length of a string. *)
Lemma string_length_ind (P : string → Prop) :
  (∀ s, (∀ s', String.length s' < String.length s → P s') → P s) → ∀ s, P s.
Proof. intros H s. apply (induction_ltof1 _ String.length). intros x IH. apply H. intros s'. apply IH. Qed.

(** The escape of a string, a step at a time: what its first rune becomes, and
    the string that is left. *)
Inductive escape_step : string → string → string → Prop :=
  | step_ascii c s : (code c <? 0x80)%Z = true → escape_step (String c s) (escape_ascii c) s
  | step_invalid c s : (code c <? 0x80)%Z = false → rune_tail c s = None →
      escape_step (String c s) "\ufffd" s
  | step_separator c c1 c2 s : line_separator c (String c1 (String c2 s)) = Some (c2, s) →
      rune_tail c (String c1 (String c2 s)) = Some 2 →
      escape_step (String c (String c1 (String c2 s))) ("\u202" +:+ String (hex_digit (code c2 mod 16)) "") s
  | step_rune c p s : (code c <? 0x80)%Z = false → rune_tail c (p +:+ s) = Some (String.length p) →
      escape_step (String c (p +:+ s)) (String c p) s.

Lemma escape_step_exists s : s ≠ "" →
  ∃ t s', escape_step s t s' ∧ escape s = t +:+ escape s' ∧ String.length s' < String.length s.
Proof.
  destruct s as [|c s]; [done|]. intros _. unfold escape. cbn [escape_from].
  destruct (code c <? 0x80)%Z eqn:Ha; [by exists (escape_ascii c), s; repeat econstructor|].
  destruct (rune_tail c s) as [n|] eqn:Hr; [|by eexists _, s; repeat econstructor].
  assert (Hrune : ∃ t s', escape_step (String c s) t s' ∧
      String c (escape_from n s) = t +:+ escape_from 0 s' ∧ String.length s' < String.length (String c s)).
  { destruct (rune_tail_continuation _ _ _ Hr) as [Hc _].
    destruct (escape_skip _ _ Hc) as (p & q & -> & Hq & <-).
    exists (String c p), q. split_and!; [by apply step_rune|cbn; by rewrite Hq|].
    cbn. clear. induction p; cbn; lia. }
  destruct s as [|c1 [|c2 s]]; try done.
  destruct (line_separator c _) as [[c' s']|] eqn:Hl; [|done].
  exists ("\u202" +:+ String (hex_digit (code c2 mod 16)) ""), s. split_and!; [|done|cbn; lia].
  apply step_separator.
  - cbn in Hl |- *. case_match; [|done]. done.
  - rewrite Hr. cbn in Hl. destruct (code c =? 0xE2)%Z eqn:E; [|done].
    unfold rune_tail, utf8_first, between in Hr.
    assert (Hcode : code c = 0xE2%Z) by lia. rewrite Hcode in Hr. cbn in Hr. clear Hl. case_match; congruence.
Qed.

(** The text of a string ends at the first quote that is not escaped. *)
Lemma scan_json s r : scan (escape s +:+ quote +:+ r) = Some (escape s, r).
Proof.
  revert s. apply string_length_ind. intros s IH. destruct (decide (s = "")) as [->|Hne]; [done|].
  destruct (escape_step_exists s Hne) as (t & s' & Hs & -> & Hlt).
  rewrite <- string_app_assoc.
  assert (Hscan : ∀ r, scan (t +:+ r) = prepend t (scan r)).
  { clear IH Hlt Hne. intros x. destruct Hs as [c s Hc|c s _ _|c c1 c2 s Hl _|c p s Hc Hr].
    - by apply escape_ascii_scan.
    - cbn [String.append]. rewrite scan_escape, !scan_plain, !prepend_app by reflexivity. done.
    - cbn in Hl. case_match; [|done]. assert (Hcode : code c2 = 0xA8%Z ∨ code c2 = 0xA9%Z) by lia.
      destruct Hcode as [-> | ->]; cbn [String.append];
        rewrite scan_escape, !scan_plain, !prepend_app by reflexivity; done.
    - apply not_ascii in Hc as (H1 & H2 & _). apply rune_tail_continuation in Hr as [Hr _].
      cbn [String.append]. rewrite scan_plain, (scan_skip _ _ _ _ Hr), prepend_app by done. done. }
  rewrite Hscan, IH by done. done.
Qed.

Definition is_json_string (s : string) : Prop := ∃ x, s = json_string x.

#[export] Instance json_string_code : PrefixCode is_json_string.
Proof.
  intros a b r r' [x ->] [y ->] H. unfold json_string in H |- *. rewrite <- !string_app_assoc in H.
  apply (inj (String.append quote)) in H.
  pose proof (scan_json x r) as Hx. rewrite H, (scan_json y r') in Hx. congruence.
Qed.

(** ** Strings can be read back *)

Lemma continuation_local p s s' :
  continuation (String.length p) (p +:+ s) = continuation (String.length p) (p +:+ s').
Proof. induction p as [|c p IH]; cbn; [done|by rewrite IH]. Qed.

Lemma rune_tail_local c p s s' :
  rune_tail c (p +:+ s) = Some (String.length p) → rune_tail c (p +:+ s') = Some (String.length p).
Proof.
  intros H. pose proof (rune_tail_continuation _ _ _ H) as [_ Hl]. unfold rune_tail in *.
  destruct (utf8_first c) as [[[n lo] hi]|] eqn:E; [|done]. cbn in *.
  apply utf8_first_range in E. destruct p as [|c1 p]; [cbn in *; lia|]. cbn [String.append] in *.
  destruct (between lo hi c1); [|done]. destruct (continuation (n - 2) (p +:+ s)) eqn:Hc; [|done].
  assert (n - 2 = String.length p) as Hn by (cbn in *; simplify_eq; lia).
  rewrite Hn, (continuation_local _ _ s), <- Hn, Hc. done.
Qed.

Lemma utf8_skip p s : utf8_from (String.length p) (p +:+ s) = utf8_from 0 s.
Proof. induction p as [|c p IH]; cbn; done. Qed.

Lemma unquote_skip p s : unquote_from (String.length p) (p +:+ s) = prepend p (unquote_from 0 s).
Proof.
  induction p as [|c p IH]; cbn [unquote_from String.length String.append].
  - by destruct (unquote_from 0 s) as [[? ?]|].
  - by rewrite IH, prepend_app.
Qed.

Lemma escape_ascii_unquote c r : (code c <? 0x80)%Z = true →
  unquote_from 0 (escape_ascii c +:+ r) = prepend (String c "") (unquote_from 0 r).
Proof. escape_cases c; reflexivity. Qed.

(** The bytes of the string that a step of the escape stands for. *)
Lemma unquote_step s t s' x : escape_step s t s' → utf8_valid s = true →
  ∃ p, s = p +:+ s' ∧ utf8_valid s' = true ∧ unquote_from 0 (t +:+ x) = prepend p (unquote_from 0 x).
Proof.
  unfold utf8_valid. intros Hs Hv. destruct Hs as [c s Hc|c s Hc Hr|c c1 c2 s Hl Hr|c p s Hc Hr]; cbn [utf8_from] in Hv.
  - rewrite Hc in Hv. exists (String c ""). by rewrite escape_ascii_unquote.
  - by rewrite Hc, Hr in Hv.
  - exists (String c (String c1 (String c2 ""))). cbn in Hl.
    assert (code c = 0xE2%Z ∧ code c1 = 0x80%Z ∧ (code c2 = 0xA8%Z ∨ code c2 = 0xA9%Z)) as (H0 & H1 & H2)
      by (clear Hv Hr; case_match; [lia|done]).
    rewrite Hr, H0 in Hv. split_and!; [done|done|].
    assert (Hchar : ∀ c z, code c = z → c = char z).
    { intros c' z <-. unfold char, code. by rewrite N2Z.id, ascii_N_embedding. }
    rewrite (Hchar _ _ H0), (Hchar _ _ H1). destruct H2 as [H2|H2]; rewrite (Hchar _ _ H2); reflexivity.
  - rewrite Hc, Hr, utf8_skip in Hv. exists (String c p). split_and!; [done|done|].
    cbn [String.append unquote_from]. apply (rune_tail_local _ _ _ x) in Hr.
    destruct (not_ascii _ Hc) as (H1 & H2 & H3). rewrite H1, H2, H3, Hc, Hr.
    by rewrite unquote_skip, prepend_app.
Qed.

(** A string of UTF-8 text is read back from its JSON text. *)
Lemma unquote_json s r : utf8_valid s = true → unquote (escape s +:+ quote +:+ r) = Some (s, r).
Proof.
  revert s. apply (string_length_ind (fun s => utf8_valid s = true → _)). intros s IH Hv.
  destruct (decide (s = "")) as [->|Hne]; [done|].
  destruct (escape_step_exists s Hne) as (t & s' & Hs & -> & Hlt). rewrite <- string_app_assoc.
  unfold unquote in *.
  destruct (unquote_step _ _ _ (escape s' +:+ quote +:+ r) Hs Hv) as (p & Hp & Hv' & ->).
  rewrite IH by done. cbn. by rewrite Hp.
Qed.

Lemma escape_inj s s' : utf8_valid s = true → utf8_valid s' = true → escape s = escape s' → s = s'.
Proof.
  intros H H' He. pose proof (unquote_json s "" H) as Hs. rewrite He, (unquote_json s' "" H') in Hs. congruence.
Qed.

Lemma json_string_inj s s' :
  utf8_valid s = true → utf8_valid s' = true → json_string s = json_string s' → s = s'.
Proof.
  intros H H' He. apply escape_inj; [done..|]. unfold json_string in He. apply (inj (String.append quote)) in He.
  pose proof (scan_json s "") as Hs. rewrite !string_app_nil in Hs.
  rewrite He in Hs. pose proof (scan_json s' "") as Hs'. rewrite !string_app_nil in Hs'. congruence.
Qed.

(** *** What is read is UTF-8 *)

Lemma utf8_valid_app a b : utf8_valid a = true → utf8_valid b = true → utf8_valid (a +:+ b) = true.
Proof.
  intros Ha Hb. revert a Ha. apply (string_length_ind (fun a => utf8_valid a = true → _)). intros a IH Ha.
  destruct a as [|c a]; [done|]. unfold utf8_valid in *. cbn [String.append utf8_from] in *.
  destruct (code c <? 0x80)%Z; [apply IH; [cbn; lia|done]|].
  destruct (rune_tail c a) as [n|] eqn:Hr; [|done].
  destruct (rune_tail_continuation _ _ _ Hr) as [Hc _]. destruct (escape_skip _ _ Hc) as (p & q & -> & _ & <-).
  rewrite <- string_app_assoc. rewrite (rune_tail_local _ _ _ (q +:+ b) Hr), utf8_skip.
  rewrite utf8_skip in Ha. apply IH; [|done]. cbn. clear. induction p; cbn; lia.
Qed.

Lemma code_char z : (0 ≤ z < 256)%Z → code (char z) = z.
Proof. intros H. unfold code, char. rewrite N_ascii_embedding by lia. lia. Qed.

Lemma utf8_rune_valid c p : (code c <? 0x80)%Z = false → rune_tail c p = Some (String.length p) →
  utf8_valid (String c p) = true.
Proof.
  intros Hc Hr. unfold utf8_valid. cbn [utf8_from]. rewrite Hc, Hr.
  pose proof (utf8_skip p "") as H. by rewrite string_app_nil in H.
Qed.

Lemma utf8_encode_valid r : (0 ≤ r < 0x110000)%Z → is_surrogate r = false → utf8_valid (utf8_encode r) = true.
Proof.
  unfold is_surrogate, utf8_encode. intros Hr Hs. rewrite !Z.shiftr_div_pow2 by lia.
  pose proof (Z.mod_pos_bound r 64 ltac:(lia)). pose proof (Z.mod_pos_bound (r / 64) 64 ltac:(lia)).
  pose proof (Z.mod_pos_bound (r / 4096) 64 ltac:(lia)).
  change (2 ^ (6 * 0))%Z with 1%Z. change (2 ^ (6 * 1))%Z with 64%Z. change (2 ^ (6 * 2))%Z with 4096%Z.
  change (2 ^ 6)%Z with 64%Z. change (2 ^ 12)%Z with 4096%Z. change (2 ^ 18)%Z with 262144%Z.
  rewrite Z.div_1_r.
  pose proof (Z.div_mod r 64 ltac:(lia)). pose proof (Z.div_mod (r / 64) 64 ltac:(lia)) as Hd.
  rewrite Zdiv.Zdiv_Zdiv in Hd by lia. change (64 * 64)%Z with 4096%Z in Hd.
  pose proof (Z.div_mod (r / 4096) 64 ltac:(lia)) as Hd3.
  rewrite Zdiv.Zdiv_Zdiv in Hd3 by lia. change (4096 * 64)%Z with 262144%Z in Hd3.
  repeat case_match;
    [unfold utf8_valid; cbn; rewrite code_char by lia; case_match; [done|lia]|..];
    (apply utf8_rune_valid; [rewrite code_char by lia; lia|]);
    unfold rune_tail, utf8_first, between; rewrite !code_char by lia;
    repeat (case_match; [|try (exfalso; lia)]); try (exfalso; lia);
    cbn; rewrite ?code_char by lia; unfold between; rewrite ?code_char by lia; case_match; try done; exfalso; lia.
Qed.

Lemma hex_value_range c x : hex_value c = Some x → (0 ≤ x < 16)%Z.
Proof. unfold hex_value, between. intros H. repeat case_match; simplify_eq; lia. Qed.

Lemma hex4_range a b c d r : hex4 a b c d = Some r → (0 ≤ r < 0x10000)%Z.
Proof.
  unfold hex4. intros H. simplify_option_eq.
  repeat match goal with H : hex_value _ = Some _ |- _ => apply hex_value_range in H end. lia.
Qed.

Lemma surrogate_pair_valid r1 r2 r : surrogate_pair r1 r2 = Some r → utf8_valid (utf8_encode r) = true.
Proof.
  unfold surrogate_pair. intros H. case_match; [|done]. simplify_eq.
  apply utf8_encode_valid; unfold is_surrogate; lia.
Qed.

Lemma ascii_valid c : (code c <? 0x80)%Z = true → utf8_valid (String c "") = true.
Proof. intros H. unfold utf8_valid. cbn. by rewrite H. Qed.

Lemma ascii_string_valid s : string_forallb (fun c => (code c <? 0x80)%Z) s = true → utf8_valid s = true.
Proof.
  unfold utf8_valid. induction s as [|c s IH]; [done|]. cbn. intros [Hc Hs]%andb_true_iff. rewrite Hc. by apply IH.
Qed.

Lemma unescape_char_ascii e c : unescape_char e = Some c → (code c <? 0x80)%Z = true.
Proof. unfold unescape_char. intros H. repeat case_match; simplify_eq; try reflexivity. lia. Qed.

Lemma prepend_some p x t r : prepend p x = Some (t, r) → ∃ t', x = Some (t', r) ∧ t = p +:+ t'.
Proof. destruct x as [[t' r']|]; cbn; intros; simplify_eq. eauto. Qed.

Lemma unquote_valid s t r : unquote s = Some (t, r) →
  utf8_valid t = true ∧ String.length r < String.length s.
Proof.
  unfold unquote. revert s t r.
  apply (string_length_ind (fun s => ∀ t r, unquote_from 0 s = Some (t, r) → _)). intros s IH t r H.
  assert (Hstep : ∀ p s', utf8_valid p = true → String.length s' < String.length s →
    prepend p (unquote_from 0 s') = Some (t, r) → utf8_valid t = true ∧ String.length r < String.length s).
  { intros p s' Hp Hlt (t' & Ht & ->)%prepend_some. destruct (IH _ Hlt _ _ Ht) as [Hv Hl].
    split; [by apply utf8_valid_app|lia]. }
  assert (Hrep : utf8_valid replacement = true) by reflexivity.
  destruct s as [|c s1]; [done|]. cbn [unquote_from] in H.
  destruct (code c =? 34)%Z; [simplify_eq; cbn; split; [done|lia]|].
  destruct (code c =? 92)%Z.
  - destruct s1 as [|e s2]; [done|]. destruct (code e =? 117)%Z.
    + destruct s2 as [|h1 [|h2 [|h3 [|h4 s6]]]]; try done.
      destruct (hex4 h1 h2 h3 h4) as [u|] eqn:Hu; [|done]. cbn in H. apply hex4_range in Hu.
      destruct (is_surrogate u) eqn:Hs; [|eapply Hstep; [..|exact H]; [apply utf8_encode_valid; lia || done|cbn; lia]].
      repeat match type of H with
             | match ?s with EmptyString => _ | String _ _ => _ end = _ =>
               destruct s; [eapply Hstep; [exact Hrep| |exact H]; cbn; lia|]
             end.
      match type of H with
      | match ?p with Some _ => _ | None => _ end = _ => destruct p as [u'|] eqn:Hp
      end; (eapply Hstep; [..|exact H]; [|cbn; lia]); [|done].
      case_match; [|done]. destruct (hex4 _ _ _ _); [|done]. by eapply surrogate_pair_valid.
    + destruct (unescape_char e) as [c'|] eqn:He; [|done]. cbn in H. apply unescape_char_ascii in He.
      eapply Hstep; [by apply ascii_valid| |exact H]. cbn; lia.
  - destruct (code c <? 32)%Z; [done|]. destruct (code c <? 0x80)%Z eqn:Ha;
      [eapply Hstep; [by apply ascii_valid| |exact H]; cbn; lia|].
    destruct (rune_tail c s1) as [n|] eqn:Hr; [|eapply Hstep; [done| |exact H]; cbn; lia].
    destruct (rune_tail_continuation _ _ _ Hr) as [Hc _].
    destruct (escape_skip _ _ Hc) as (p & q & -> & _ & <-).
    rewrite unquote_skip, prepend_app in H. eapply Hstep; [..|exact H].
    + apply utf8_rune_valid; [done|]. apply (rune_tail_local _ _ _ "") in Hr. by rewrite string_app_nil in Hr.
    + cbn. clear. induction p; cbn; lia.
Qed.

(** ** The fuel of the decoder *)

Lemma skip_space_length s : String.length (skip_space s) ≤ String.length s.
Proof. induction s as [|c s IH]; cbn; [done|]. case_match; cbn; lia. Qed.

Lemma expect_length n s r : expect n s = Some r → String.length s = S (String.length r).
Proof. destruct s; cbn; [done|]. intros. case_match; by simplify_eq. Qed.

Lemma expect_word_length w s r : expect_word w s = Some r → String.length s = String.length w + String.length r.
Proof.
  revert s. induction w as [|c w IH]; intros [|c' s] H; cbn in H; simplify_option_eq; try done.
  case_match; [|done]. cbn. by rewrite (IH _ H).
Qed.

Lemma take_digits_length s : String.length (take_digits s).2 + String.length (take_digits s).1 = String.length s.
Proof. induction s as [|c s IH]; cbn; [done|]. case_match; cbn; lia. Qed.

Lemma some_digits_length s d r : some_digits s = Some (d, r) → String.length r < String.length s.
Proof.
  unfold some_digits. pose proof (take_digits_length s) as H. destruct (take_digits s) as [ds rest]. cbn in H.
  case_bool_decide as Hd; [done|]. intros [= -> ->]. destruct d; [done|]. cbn in H. lia.
Qed.

Lemma parse_number_length s l r : parse_number s = Some (l, r) → String.length r < String.length s.
Proof.
  unfold parse_number. intros H.
  destruct (match expect 45 s with Some s1 => ("-", s1) | None => ("", s) end) as [sign s0] eqn:E.
  assert (Hs0 : String.length s0 ≤ String.length s).
  { destruct (expect 45 s) eqn:He; simplify_eq; [|done]. apply expect_length in He. lia. }
  destruct (int_part s0) as [[i s1]|] eqn:Hi; [|done]. cbn in H.
  assert (String.length s1 < String.length s0).
  { destruct s0 as [|c s0]; [done|]. cbn in Hi. case_match; simplify_eq; [cbn; lia|].
    by apply some_digits_length in Hi. }
  destruct (frac_part s1) as [[f s2]|] eqn:Hf; [|done]. cbn in H.
  assert (String.length s2 ≤ String.length s1).
  { destruct s1 as [|c s1]; cbn in Hf; [by simplify_eq|]. case_match; simplify_eq; [|done].
    apply prepend_some in Hf as (? & Hf%some_digits_length & _). cbn; lia. }
  destruct (exp_part s2) as [[e s3]|] eqn:He; [|done]. cbn in H. simplify_eq.
  assert (String.length r ≤ String.length s2).
  { destruct s2 as [|c s2]; cbn in He; [by simplify_eq|]. case_match; simplify_eq; [|done].
    apply prepend_some in He as (? & He & _). destruct s2 as [|d s2]; [done|].
    case_match; [apply prepend_some in He as (? & He & _)|]; apply some_digits_length in He; cbn in *; lia. }
  lia.
Qed.

Section Fuel.
Context {ofields : ObjectFields}.

(** Turns the steps of the decoder into facts on the lengths of the texts. *)
Ltac lengths :=
  repeat match goal with
         | H : expect _ (skip_space ?s) = Some _ |- _ =>
           apply expect_length in H; pose proof (skip_space_length s)
         | H : expect_word _ _ = Some _ |- _ => apply expect_word_length in H; cbn in H
         | H : unquote _ = Some _ |- _ => apply unquote_valid in H as [_ H]
         | H : parse_number _ = Some _ |- _ => apply parse_number_length in H; cbn in H
         end.

Lemma parse_length f :
  (∀ d s v r, parse_value f d s = Some (v, r) → String.length r < String.length s) ∧
  (∀ d s v r, parse_members f d s = Some (v, r) → String.length r < String.length s) ∧
  (∀ d s v r, parse_elements f d s = Some (v, r) → String.length r < String.length s).
Proof.
  induction f as [|f (IHv & IHm & IHe)]; [done|]. split_and!; intros d s v r H; cbn in H.
  - pose proof (skip_space_length s) as Hs. destruct (skip_space s) as [|c s1]; [done|]. cbn in Hs.
    repeat (case_match; simplify_option_eq; try done); lengths;
      repeat match goal with
             | H : parse_members _ _ _ = Some _ |- _ => apply IHm in H
             | H : parse_elements _ _ _ = Some _ |- _ => apply IHe in H
             end; lia.
  - simplify_option_eq; repeat (case_match; simplify_option_eq; try done); lengths;
      repeat match goal with
             | H : parse_value _ _ _ = Some _ |- _ => apply IHv in H
             | H : parse_members _ _ _ = Some _ |- _ => apply IHm in H
             end; lia.
  - simplify_option_eq; repeat (case_match; simplify_option_eq; try done); lengths;
      repeat match goal with
             | H : parse_value _ _ _ = Some _ |- _ => apply IHv in H
             | H : parse_elements _ _ _ = Some _ |- _ => apply IHe in H
             end; lia.
Qed.

(** More fuel than the text needs does not change what is read. *)
Lemma parse_fuel f :
  (∀ f' d s, 2 * String.length s + 1 ≤ f → f ≤ f' → parse_value f d s = parse_value f' d s) ∧
  (∀ f' d s, 2 * String.length s + 1 ≤ f → f ≤ f' → parse_members f d s = parse_members f' d s) ∧
  (∀ f' d s, 2 * String.length s + 2 ≤ f → f ≤ f' → parse_elements f d s = parse_elements f' d s).
Proof.
  induction f as [|f (IHv & IHm & IHe)]; [split_and!; intros; lia|].
  split_and!; intros [|f'] d s Hl Hf; try lia; cbn [parse_value parse_members parse_elements].
  - pose proof (skip_space_length s) as Hs. destruct (skip_space s) as [|c s1]; [done|]. cbn in Hs.
    rewrite (IHm f' (d + 1)%Z s1), (IHe f' (d + 1)%Z s1) by lia. done.
  - destruct (expect 34 (skip_space s)) as [s1|] eqn:H1; [|done]. cbn.
    destruct (unquote s1) as [[name s2]|] eqn:H2; [|done]. cbn.
    destruct (expect 58 (skip_space s2)) as [s3|] eqn:H3; [|done]. cbn. lengths.
    rewrite (IHv f' d s3) by lia. destruct (parse_value f' d s3) as [[v s4]|] eqn:Hv; [|done]. cbn.
    apply (proj1 (parse_length _)) in Hv. destruct (expect 125 _); [done|].
    destruct (expect 44 (skip_space s4)) as [s5|] eqn:H5; [|done]. cbn. lengths.
    by rewrite (IHm f' d s5) by lia.
  - rewrite (IHv f' d s) by lia. destruct (parse_value f' d s) as [[v s1]|] eqn:Hv; [|done]. cbn.
    apply (proj1 (parse_length _)) in Hv. destruct (expect 93 _); [done|].
    destruct (expect 44 (skip_space s1)) as [s2|] eqn:H2; [|done]. cbn. lengths.
    by rewrite (IHe f' d s2) by lia.
Qed.

Lemma parse_json_fuel f s : 2 * String.length s + 1 ≤ f → parse_value f 0 s = parse_json s.
Proof. intros H. unfold parse_json. symmetry. by apply parse_fuel. Qed.

End Fuel.
