(* ===== verification/JSONPrint.v ===== *)
(** * Writing JSON, and decoding it into Go values

    The compact text that [json.Marshal] writes of a value, that the decoder reads
    it back, and how [encoding/json] decodes values into Go strings, booleans, integers
    and byte slices. *)

From S2P Require Import Prelude StringOrder JSON.
From Stdlib Require Import Ascii.

#[local] Arguments String.append !_ _ /.

(** ** Text *)

Definition field (name : string) : string := json_string name +:+ ":".

(** Members and elements in order, without white space. *)
Fixpoint print (v : json) : string :=
  match v with
  | JNull => "null"
  | JBool true => "true"
  | JBool false => "false"
  | JNumber lit => lit
  | JString s => json_string s
  | JArray l => "[" +:+ strings_join (print <$> l) "," +:+ "]"
  | JObject fields => "{" +:+ strings_join ((fun '(name, x) => field name +:+ print x) <$> fields) "," +:+ "}"
  end.

(** ** Numbers *)

Fixpoint parse_digits (s : string) (acc : Z) : option Z :=
  match s with
  | EmptyString => Some acc
  | String c s => d ← digit c; parse_digits s (acc * 10 + d)%Z
  end.

Definition parse_nonempty (s : string) : option Z :=
  if bool_decide (s = "") then None else parse_digits s 0.

(** [strconv.ParseInt(s, 10, 64)] *)
Definition ParseInt64 (s : string) : option Z :=
  let v := match s with
           | String "-"%char s => Z.opp <$> parse_nonempty s
           | String "+"%char s => parse_nonempty s
           | s => parse_nonempty s
           end in
  n ← v;
  if bool_decide (- 2 ^ 63 ≤ n < 2 ^ 63)%Z then Some n else None.

(** [strconv.ParseUint(s, 10, 64)] *)
Definition ParseUint64 (s : string) : option Z :=
  n ← parse_nonempty s;
  if bool_decide (n < 2 ^ 64)%Z then Some n else None.

(** ** Decoding into Go values *)

(** A value decoded into an integer of [bits] bits that holds [old]: [null] leaves it alone. *)
Definition decode_int (bits old : Z) (v : json) : res Z :=
  match v with
  | JNull => Ok old
  | JNumber lit =>
    match ParseInt64 lit with
    | Some n => if bool_decide (- 2 ^ (bits - 1) ≤ n < 2 ^ (bits - 1))%Z then Ok n
                else Err (PlainErr ("json: cannot unmarshal number " +:+ lit))
    | None => Err (PlainErr ("json: cannot unmarshal number " +:+ lit))
    end
  | _ => Err (PlainErr "json: cannot unmarshal value into Go value of an integer type")
  end.

Definition decode_string (old : string) (v : json) : res string :=
  match v with
  | JNull => Ok old
  | JString s => Ok s
  | _ => Err (PlainErr "json: cannot unmarshal value into Go value of type string")
  end.

Definition decode_bool (old : bool) (v : json) : res bool :=
  match v with
  | JNull => Ok old
  | JBool b => Ok b
  | _ => Err (PlainErr "json: cannot unmarshal value into Go value of type bool")
  end.

(** Into an unsigned integer of [bits] bits. *)
Definition decode_uint (bits old : Z) (v : json) : res Z :=
  match v with
  | JNull => Ok old
  | JNumber lit =>
    match ParseUint64 lit with
    | Some n => if bool_decide (n < 2 ^ bits)%Z then Ok n
                else Err (PlainErr ("json: cannot unmarshal number " +:+ lit))
    | None => Err (PlainErr ("json: cannot unmarshal number " +:+ lit))
    end
  | _ => Err (PlainErr "json: cannot unmarshal value into Go value of an unsigned integer type")
  end.

(** Names of fields are compared without case; the long s folds to [s] and the
    Kelvin sign to [k]. *)
Definition fold_char (c : ascii) : ascii := if between 65 90 c then char (code c + 32) else c.

Fixpoint fold_name (s : string) : string :=
  match s with
  | String c (String c1 s2 as s1) =>
    if ((code c =? 0xC5) && (code c1 =? 0xBF))%Z then String "s" (fold_name s2)
    else match s2 with
         | String c2 s3 =>
           if ((code c =? 0xE2) && (code c1 =? 0x84) && (code c2 =? 0xAA))%Z then String "k" (fold_name s3)
           else String (fold_char c) (fold_name s1)
         | EmptyString => String (fold_char c) (fold_name s1)
         end
  | String c EmptyString => String (fold_char c) ""
  | EmptyString => ""
  end.

(** ** Reading strings and members *)

Section Members.
Context {ofields : ObjectFields}.

Lemma json_string_app s r : json_string s +:+ r = String (char 34) (escape s +:+ quote +:+ r).
Proof. unfold json_string. by rewrite <- !string_app_assoc. Qed.

Lemma parse_string_value f d s r : utf8_valid s = true →
  parse_value (S f) d (json_string s +:+ r) = Some (JString s, r).
Proof.
  intros Hs. rewrite json_string_app.
  transitivity ('(t, rest) ← unquote (escape s +:+ quote +:+ r); Some (JString t, rest)); [done|].
  by rewrite unquote_json.
Qed.

(** The name of a member is read, then its value. *)
Lemma parse_members_name f d name s : utf8_valid name = true →
  parse_members (S f) d (field name +:+ s) =
    ('(v, s4) ← parse_value f d s;
     match expect 125 (skip_space s4) with
     | Some rest => Some ([(name, v)], rest)
     | None =>
       s5 ← expect 44 (skip_space s4);
       '(fields, rest) ← parse_members f d s5;
       Some ((name, v) :: fields, rest)
     end).
Proof.
  intros Hn. unfold field. rewrite <- string_app_assoc, json_string_app.
  transitivity ('(name, s2) ← unquote (escape name +:+ quote +:+ ":" +:+ s);
    s3 ← expect 58 (skip_space s2);
    '(v, s4) ← parse_value f d s3;
    match expect 125 (skip_space s4) with
    | Some rest => Some ([(name, v)], rest)
    | None =>
      s5 ← expect 44 (skip_space s4);
      '(fields, rest) ← parse_members f d s5;
      Some ((name, v) :: fields, rest)
    end); [done|].
  by rewrite unquote_json.
Qed.

(** One member, the last one and one that others follow. *)
Lemma parse_members_last f d name s v r : utf8_valid name = true →
  parse_value f d s = Some (v, String (char 125) r) →
  parse_members (S f) d (field name +:+ s) = Some ([(name, v)], r).
Proof. intros Hn Hv. rewrite parse_members_name, Hv by done. done. Qed.

Lemma parse_members_cons f d name s v r fields r' : utf8_valid name = true →
  parse_value f d s = Some (v, String (char 44) r) → parse_members f d r = Some (fields, r') →
  parse_members (S f) d (field name +:+ s) = Some ((name, v) :: fields, r').
Proof.
  intros Hn Hv Hm. rewrite parse_members_name, Hv by done.
  transitivity ('(fields, rest) ← parse_members f d r; Some ((name, v) :: fields, rest)); [done|]. by rewrite Hm.
Qed.

End Members.

(** ** Numbers are read back *)

(** What can follow a value in a text. *)
Definition ends (r : string) : Prop :=
  match r with
  | EmptyString => True
  | String c _ => code c = 44%Z ∨ code c = 93%Z ∨ code c = 125%Z
  end.

Lemma ends_not c r : ends (String c r) → ∀ n, n ∉ [44; 93; 125]%Z → (code c =? n)%Z = false.
Proof. cbn. intros H n Hn. apply Z.eqb_neq. intros <-. set_solver. Qed.

Definition is_digits (s : string) : Prop := string_forallb (between 48 57) s = true.

Lemma ends_not_digit c r : ends (String c r) → between 48 57 c = false.
Proof. unfold between. cbn. lia. Qed.

Lemma take_digits_app s r : is_digits s → ends r → take_digits (s +:+ r) = (s, r).
Proof.
  intros Hs Hr. induction s as [|c s IH].
  - destruct r as [|c r]; [done|]. cbn. by rewrite (ends_not_digit _ _ Hr).
  - unfold is_digits in Hs. cbn in Hs. apply andb_true_iff in Hs as [Hc Hs]. cbn. by rewrite Hc, IH.
Qed.

Lemma pretty_char_digit d : (d < 10)%N → between 48 57 (pretty_N_char d) = true.
Proof. unfold pretty_N_char. intros. by repeat case_match. Qed.

Lemma pretty_char_value d : (d < 10)%N → digit (pretty_N_char d) = Some (Z.of_N d).
Proof.
  intros H. assert (d ∈ [0; 1; 2; 3; 4; 5; 6; 7; 8; 9]%N) as Hd.
  { rewrite !elem_of_cons. lia. }
  repeat (apply elem_of_cons in Hd as [->|Hd]; [done|]). by apply not_elem_of_nil in Hd.
Qed.

(** A positive number starts with a digit other than zero. *)
Lemma pretty_go_head x s : (0 < x)%N → ∃ c t, pretty_N_go x s = String c t ∧ between 49 57 c = true.
Proof.
  revert s. induction (N.lt_wf_0 x) as [x _ IH]. intros s Hx. rewrite pretty_N_go_step by done.
  destruct (decide (x / 10 = 0)%N) as [E|E].
  - rewrite E, pretty_N_go_0. eexists _, _. split; [done|].
    assert (x < 10)%N by (by apply N.div_small_iff). rewrite N.mod_small by done.
    assert (x ∈ [1; 2; 3; 4; 5; 6; 7; 8; 9]%N) as Hd by (rewrite !elem_of_cons; lia).
    repeat (apply elem_of_cons in Hd as [->|Hd]; [done|]). by apply not_elem_of_nil in Hd.
  - apply IH; [apply N.div_lt; lia|by apply N.neq_0_lt_0].
Qed.

Lemma pretty_pos p : pretty (Npos p) = pretty_N_go (Npos p) "".
Proof. unfold pretty, pretty_N. by case_decide. Qed.

Lemma pretty_pos_digits p : is_digits (pretty (Npos p)).
Proof. rewrite pretty_pos. apply pretty_N_chars; [apply pretty_char_digit|done]. Qed.

Lemma parse_digits_go x s : (0 < x)%N → parse_digits (pretty_N_go x s) 0 = parse_digits s (Z.of_N x).
Proof.
  revert s. induction (N.lt_wf_0 x) as [x _ IH]. intros s Hx. rewrite pretty_N_go_step by done.
  assert (Hm : (x `mod` 10 < 10)%N) by (apply N.mod_lt; lia).
  assert (Hx10 : (Z.of_N (x / 10) * 10 + Z.of_N (x `mod` 10) = Z.of_N x)%Z).
  { pose proof (N.div_mod x 10 ltac:(lia)). lia. }
  destruct (decide (x / 10 = 0)%N) as [E|E].
  - rewrite E, pretty_N_go_0. cbn [parse_digits]. rewrite pretty_char_value by done. cbn [mbind option_bind].
    f_equal. rewrite E in Hx10. lia.
  - rewrite IH by first [apply N.div_lt; lia|by apply N.neq_0_lt_0]. cbn [parse_digits].
    rewrite pretty_char_value by done. cbn [mbind option_bind]. by rewrite Hx10.
Qed.

Lemma parse_nonempty_pos p : parse_nonempty (pretty (Npos p)) = Some (Z.pos p).
Proof.
  unfold parse_nonempty. rewrite pretty_pos. destruct (pretty_go_head (Npos p) "") as (c & t & E & _); [lia|].
  rewrite bool_decide_eq_false_2 by (by rewrite E). by rewrite parse_digits_go by lia.
Qed.

Lemma ParseUint64_pretty z : (0 ≤ z < 2 ^ 64)%Z → ParseUint64 (pretty z) = Some z.
Proof.
  intros Hz. destruct z as [|p|p]; [done| |lia]. unfold ParseUint64.
  change (pretty (Z.pos p)) with (pretty (Npos p)). rewrite parse_nonempty_pos. cbn [mbind option_bind]. by rewrite bool_decide_eq_true_2 by lia.
Qed.

Lemma ParseInt64_pretty z : (- 2 ^ 63 ≤ z < 2 ^ 63)%Z → ParseInt64 (pretty z) = Some z.
Proof.
  intros Hz. destruct z as [|p|p]; [done|..]; unfold ParseInt64.
  - change (pretty (Z.pos p)) with (pretty (Npos p)). destruct (pretty_go_head (Npos p) "") as (c & t & E & Hc); [lia|]. rewrite <- pretty_pos in E.
    rewrite E. assert (Hn : parse_nonempty (String c t) = Some (Z.pos p)) by (by rewrite <- E, parse_nonempty_pos).
    clear E. destruct c as [[] [] [] [] [] [] [] []]; try discriminate Hc; rewrite Hn; cbn;
      by rewrite bool_decide_eq_true_2 by lia.
  - change (pretty (Z.neg p)) with (String "-" (pretty (Npos p))). cbv iota. rewrite parse_nonempty_pos. cbn. by rewrite bool_decide_eq_true_2 by lia.
Qed.

Lemma frac_exp_end r : ends r → frac_part r = Some ("", r) ∧ exp_part r = Some ("", r).
Proof.
  intros Hr. destruct r as [|c r]; [done|]. unfold frac_part, exp_part.
  by rewrite !(ends_not _ _ Hr) by set_solver.
Qed.

Lemma parse_number_pretty (z : Z) r : ends r → parse_number (pretty z +:+ r) = Some (pretty z, r).
Proof.
  intros Hr. destruct (frac_exp_end r Hr) as [Hf He].
  assert (Hint : ∀ p, int_part (pretty (Npos p) +:+ r) = Some (pretty (Npos p), r)).
  { intros p. pose proof (take_digits_app _ r (pretty_pos_digits p) Hr) as Ht.
    destruct (pretty_go_head (Npos p) "") as (c & t & E & Hc); [lia|]. rewrite <- pretty_pos in E.
    rewrite E in *. unfold int_part. cbn [String.append] in *.
    assert ((code c =? 48)%Z = false) as -> by (unfold between in Hc; lia).
    unfold some_digits. rewrite Ht. done. }
  assert (Hsign : ∀ p, expect 45 (pretty (Npos p) +:+ r) = None).
  { intros p. destruct (pretty_go_head (Npos p) "") as (c & t & E & Hc); [lia|]. rewrite <- pretty_pos in E.
    rewrite E. cbn. assert ((code c =? 45)%Z = false) as -> by (unfold between in Hc; lia). done. }
  destruct z as [|p|p]; unfold parse_number.
  - change (expect 45 (pretty 0%Z +:+ r)) with (@None string).
    cbv iota. change (int_part (pretty 0%Z +:+ r)) with (Some ("0", r)). cbn [mbind option_bind].
    rewrite Hf. cbn [mbind option_bind]. by rewrite He.
  - change (pretty (Z.pos p)) with (pretty (Npos p)). rewrite Hsign. cbv iota. rewrite Hint. cbn [mbind option_bind].
    rewrite Hf. cbn [mbind option_bind]. rewrite He. cbn. by rewrite string_app_nil.
  - change (pretty (Z.neg p) +:+ r) with (String "-" (pretty (Npos p) +:+ r)).
    change (expect 45 (String "-" (pretty (Npos p) +:+ r))) with (Some (pretty (Npos p) +:+ r)). cbv iota.
    rewrite Hint. cbn [mbind option_bind].
    rewrite Hf. cbn [mbind option_bind]. rewrite He. cbn. by rewrite string_app_nil.
Qed.

(** ** Values are read back *)

(** Values with strings in UTF-8 and decimal numbers, nested at most [n] deep. *)
Fixpoint printable (n : nat) (v : json) : Prop :=
  match v with
  | JNull | JBool _ => True
  | JNumber lit => ∃ z : Z, lit = pretty z
  | JString s => utf8_valid s = true
  | JArray l => match n with 0 => False | S n => Forall (printable n) l end
  | JObject fields =>
    match n with 0 => False | S n => Forall (fun p => utf8_valid p.1 = true ∧ printable n p.2) fields end
  end.

Lemma printable_eq n v : printable n v =
  match v with
  | JNull | JBool _ => True
  | JNumber lit => ∃ z : Z, lit = pretty z
  | JString s => utf8_valid s = true
  | JArray l => match n with 0 => False | S n => Forall (printable n) l end
  | JObject fields =>
    match n with 0 => False | S n => Forall (fun p => utf8_valid p.1 = true ∧ printable n p.2) fields end
  end.
Proof. by destruct n. Qed.

(** The decoder that keeps members as they are. *)
#[local] Existing Instance text_fields.

Definition reads_back (depth : Z) (v : json) : Prop :=
  ∃ f0, ∀ f r, f0 ≤ f → ends r → parse_value f depth (print v +:+ r) = Some (v, r).

Lemma parse_value_number f d (z : Z) r : ends r →
  parse_value (S f) d (pretty z +:+ r) = Some (JNumber (pretty z), r).
Proof.
  intros Hr. pose proof (parse_number_pretty z r Hr) as Hn.
  assert (∃ c t, pretty z = String c t ∧ (c = "-"%char ∨ between 48 57 c = true)) as (c & t & E & Hc).
  { destruct z as [|p|p]; [by eexists _, _; split; [done|right]| |by eexists _, _; split; [done|left]].
    change (pretty (Z.pos p)) with (pretty (Npos p)). rewrite pretty_pos.
    destruct (pretty_go_head (Npos p) "") as (c & t & -> & Hc); [lia|]. eexists _, _. split; [done|]. right.
    unfold between in *. lia. }
  rewrite E in *. clear E. cbn [String.append] in *. cbn [parse_value skip_space].
  assert (Hb : (48 ≤ code c ≤ 57 ∨ code c = 45)%Z).
  { destruct Hc as [->|Hc]; [by right|]. unfold between in Hc. lia. }
  assert (is_space c = false) as -> by (unfold is_space; lia). cbv iota.
  repeat match goal with |- context [(code c =? ?n)%Z] => assert ((code c =? n)%Z = false) as -> by lia end.
  by rewrite Hn.
Qed.

Lemma expect_sep n c r : code c = n → is_space c = false → expect n (skip_space (String c r)) = Some r.
Proof. intros <- Hs. cbn. rewrite Hs. cbn. by rewrite Z.eqb_refl. Qed.

Lemma members_read_back d fields : fields ≠ [] →
  Forall (fun p => utf8_valid p.1 = true ∧ reads_back d p.2) fields →
  ∃ f0, ∀ f r, f0 ≤ f →
    parse_members f d (strings_join ((fun '(name, x) => field name +:+ print x) <$> fields) "," +:+ String "}" r)
    = Some (fields, r).
Proof.
  induction fields as [|[name v] fields IH]; [done|]. intros _ Hf. apply Forall_cons in Hf as [[Hn [f1 Hv]] Hf].
  cbn in Hn, Hv. destruct fields as [|p fields].
  - exists (S f1). intros [|f] r Hle; [lia|]. cbn [fmap list_fmap strings_join String.concat].
    rewrite <- string_app_assoc. apply parse_members_last; [done|]. apply Hv; [lia|]. cbn. auto.
  - destruct IH as [f2 IH]; [done..|]. exists (S (f1 `max` f2)). intros [|f] r Hle; [lia|].
    unfold strings_join in *. rewrite fmap_cons. set (rest := (fun '(name, x) => _) <$> p :: fields) in *.
    assert (∀ a, String.concat "," (a :: rest) = a +:+ "," +:+ String.concat "," rest) as ->.
    { intros a. unfold rest. by destruct p. }
    rewrite <- !string_app_assoc. eapply parse_members_cons; [done| |apply IH; lia].
    apply Hv; [lia|]. cbn. auto.
Qed.

Lemma elements_read_back d l : l ≠ [] → Forall (reads_back d) l →
  ∃ f0, ∀ f r, f0 ≤ f →
    parse_elements f d (strings_join (print <$> l) "," +:+ String "]" r) = Some (l, r).
Proof.
  induction l as [|v l IH]; [done|]. intros _ Hf. apply Forall_cons in Hf as [[f1 Hv] Hf].
  destruct l as [|w l].
  - exists (S f1). intros [|f] r Hle; [lia|]. cbn [fmap list_fmap strings_join String.concat parse_elements].
    rewrite Hv; [done|lia|]. cbn. auto.
  - destruct IH as [f2 IH]; [done..|]. exists (S (f1 `max` f2)). intros [|f] r Hle; [lia|].
    change (strings_join (print <$> v :: w :: l) ",") with (print v +:+ "," +:+ strings_join (print <$> w :: l) ",").
    rewrite <- !string_app_assoc. cbn [parse_elements]. rewrite Hv; [|lia|cbn; auto]. cbn [mbind option_bind].
    change ("," +:+ ?x) with (String "," x). unfold String.append at 1 2; fold String.append.
    rewrite (expect_sep 44) by done. cbn -[parse_elements strings_join]. by rewrite IH by lia.
Qed.

(** No value starts with white space or a closing bracket. *)
Lemma print_head n v : printable n v → ∃ c t, print v = String c t ∧ is_space c = false ∧ code c ≠ 93%Z.
Proof.
  rewrite printable_eq. destruct v as [|b|lit|s|l|fields]; intros Hv; try by eexists _, _; split_and!.
  - destruct b; by eexists _, _; split_and!.
  - destruct Hv as [z ->]. destruct z as [|p|p]; [by eexists _, _; split_and!| |by eexists _, _; split_and!].
    cbn [print]. change (pretty (Z.pos p)) with (pretty (Npos p)). rewrite pretty_pos.
    destruct (pretty_go_head (Npos p) "") as (c & t & -> & Hc); [lia|]. eexists _, _. split_and!; [done|..];
      unfold between, is_space in *; lia.
Qed.

Lemma expect_none n c r : code c ≠ n → is_space c = false → expect n (skip_space (String c r)) = None.
Proof. intros Hc Hs. cbn. rewrite Hs. cbn. by assert ((code c =? n)%Z = false) as -> by lia. Qed.

Lemma array_read_back d n l : (d < maxNestingDepth)%Z → Forall (printable n) l →
  Forall (reads_back (d + 1)) l → reads_back d (JArray l).
Proof.
  intros Hd Hp Hl. assert (Hdb : (d <? maxNestingDepth)%Z = true) by lia. destruct l as [|v l].
  { exists 1. intros [|f] r Hf Hr; [lia|]. cbn. by rewrite Hdb. }
  destruct (elements_read_back (d + 1) (v :: l)) as [f0 He]; [done..|].
  exists (S f0). intros [|f] r Hf Hr; [lia|].
  apply Forall_cons in Hp as [Hv _]. apply print_head in Hv as (c & t & Hv & Hs & Hc).
  cbn [print]. set (body := strings_join (print <$> v :: l) ",") in *.
  assert (Hbody : ∃ t', body = String c t').
  { unfold body. destruct l; cbn; rewrite Hv; by eexists. }
  transitivity (match expect 93 (skip_space (body +:+ String "]" r)) with
                | Some rest => Some (JArray [], rest)
                | None => '(l, rest) ← parse_elements f (d + 1) (body +:+ String "]" r); Some (JArray l, rest)
                end).
  { rewrite <- !string_app_assoc. cbn -[parse_elements body]. by rewrite Hdb. }
  destruct Hbody as [t' Hbody]. rewrite He by lia. rewrite Hbody. cbn [String.append].
  by rewrite expect_none.
Qed.

Lemma object_read_back d fields : (d < maxNestingDepth)%Z →
  Forall (fun p => utf8_valid p.1 = true ∧ reads_back (d + 1) p.2) fields → reads_back d (JObject fields).
Proof.
  intros Hd Hl. assert (Hdb : (d <? maxNestingDepth)%Z = true) by lia. destruct fields as [|p fields].
  { exists 1. intros [|f] r Hf Hr; [lia|]. cbn. by rewrite Hdb. }
  destruct (members_read_back (d + 1) (p :: fields)) as [f0 He]; [done..|].
  exists (S f0). intros [|f] r Hf Hr; [lia|].
  cbn [print]. set (body := strings_join _ ",") in *.
  assert (Hbody : ∃ t', body = String (char 34) t').
  { unfold body. destruct p as [name v], fields; cbn; by eexists. }
  transitivity (match expect 125 (skip_space (body +:+ String "}" r)) with
                | Some rest => Some (JObject [], rest)
                | None => '(fs, rest) ← parse_members f (d + 1) (body +:+ String "}" r); Some (JObject fs, rest)
                end).
  { rewrite <- !string_app_assoc. cbn -[parse_members body]. by rewrite Hdb. }
  destruct Hbody as [t' Hbody]. rewrite He by lia. rewrite Hbody. cbn [String.append].
  by rewrite expect_none.
Qed.

Lemma print_read_back n : ∀ v d, printable n v → (d + Z.of_nat n ≤ maxNestingDepth)%Z → reads_back d v.
Proof.
  induction n as [n IH] using lt_wf_ind. intros v d Hv Hd.
  rewrite printable_eq in Hv. destruct v as [|b|lit|s|l|fields].
  - exists 1. intros [|f] r; [lia|done].
  - exists 1. intros [|f] r; [lia|]. by destruct b.
  - destruct Hv as [z ->]. exists 1. intros [|f] r Hf Hr; [lia|]. by apply parse_value_number.
  - exists 1. intros [|f] r Hf Hr; [lia|]. by apply parse_string_value.
  - destruct n as [|n]; [done|]. apply (array_read_back d n); [lia|done|].
    eapply Forall_impl; [done|]. intros x Hx. apply (IH n); [lia|done|lia].
  - destruct n as [|n]; [done|]. apply object_read_back; [lia|].
    eapply Forall_impl; [done|]. intros x [Hn Hx]. split; [done|]. apply (IH n); [lia|done|lia].
Qed.

(** A whole text is read back. *)
Lemma parse_print n v : printable n v → (Z.of_nat n ≤ maxNestingDepth)%Z → parse_text (print v) = Some v.
Proof.
  intros Hv Hn. destruct (print_read_back n v 0 Hv) as [f0 H]; [lia|].
  specialize (H (f0 `max` (2 * String.length (print v) + 1)) "" ltac:(lia) I).
  rewrite string_app_nil, parse_json_fuel in H by lia. unfold parse_text. by rewrite H.
Qed.

Lemma print_inj n v w : printable n v → printable n w → (Z.of_nat n ≤ maxNestingDepth)%Z → print v = print w → v = w.
Proof.
  intros Hv Hw Hn H. apply (parse_print n) in Hv, Hw; [|done..]. rewrite H, Hw in Hv. by injection Hv.
Qed.
