(* ===== verification/Varint.v ===== *)
(** * Integer encodings of [encoding/binary]

    [PutUvarint] / [ReadUvarint] as the LevelDB state height and the block file
    use them, and [BigEndian.PutUint64] / [Uint64]. *)

From S2P Require Import Prelude.
Local Open Scope Z_scope.

Definition MaxVarintLen64 : nat := 10.

(** [binary.PutUvarint]: seven bits per byte, low bits first. *)
Fixpoint put_uvarint (fuel : nat) (x : Z) : bytes :=
  match fuel with
  | O => [x mod 256]
  | S fuel => if x <? 128 then [x] else (x mod 128 + 128) :: put_uvarint fuel (x / 128)
  end.

Definition PutUvarint (x : Z) : bytes := put_uvarint 9 x.

(** [binary.ReadUvarint]: the value and the bytes left in the reader. *)
Fixpoint read_uvarint (fuel : nat) (x s : Z) (b : bytes) : res (Z * bytes) :=
  match fuel with
  | O => Err (PlainErr "binary: varint overflows a 64-bit integer")
  | S fuel =>
    match b with
    | [] => Err (PlainErr "EOF")
    | c :: b =>
      if c <? 128 then
        if (Nat.eqb fuel 0) && (1 <? c)
        then Err (PlainErr "binary: varint overflows a 64-bit integer")
        else Ok (Z.lor x (Z.shiftl c s), b)
      else read_uvarint fuel (Z.lor x (Z.shiftl (Z.land c 127) s)) (s + 7) b
    end
  end.

Definition ReadUvarint (b : bytes) : res (Z * bytes) := read_uvarint MaxVarintLen64 0 0 b.

Lemma lor_shiftl_add x c s : 0 ≤ s → 0 ≤ x < 2 ^ s → 0 ≤ c → Z.lor x (Z.shiftl c s) = x + c * 2 ^ s.
Proof.
  intros Hs Hx Hc. rewrite Z.shiftl_mul_pow2 by lia.
  rewrite <- Z.lxor_lor, <- Z.add_nocarry_lxor; auto;
    rewrite <- (Z.mod_small x (2 ^ s)), <- Z.land_ones, <- Z.shiftl_mul_pow2 by lia;
    apply Z.bits_inj'; intros n Hn; rewrite !Z.land_spec, Z.bits_0;
    destruct (Z.lt_ge_cases n s).
  all: try (rewrite Z.shiftl_spec_low by lia; apply andb_false_r).
  all: rewrite Z.ones_spec_high by lia; rewrite andb_false_r; apply andb_false_l.
Qed.

(** Reading what [put_uvarint] wrote, with [fuel] bytes of budget left after
    [9 - fuel] bytes were consumed. *)
Lemma read_put_uvarint fuel x acc s rest :
  (fuel ≤ 9)%nat → s = 7 * (9 - Z.of_nat fuel) → 0 ≤ acc < 2 ^ s →
  0 ≤ x → x * 2 ^ s < 2 ^ 64 →
  read_uvarint (S fuel) acc s (put_uvarint fuel x ++ rest) = Ok (acc + x * 2 ^ s, rest).
Proof.
  revert x acc s. induction fuel as [|fuel IH]; intros x acc s Hf Hs Hacc Hx Hov.
  - assert (x ≤ 1) by (subst s; cbn in Hov; lia).
    cbn -[Z.shiftl Z.lor Z.modulo]. rewrite Z.mod_small by lia.
    rewrite (proj2 (Z.ltb_lt x 128)) by lia.
    rewrite (proj2 (Z.ltb_ge 1 x)) by lia. cbn -[Z.shiftl Z.lor].
    rewrite lor_shiftl_add by lia. done.
  - cbn [put_uvarint]. destruct (x <? 128) eqn:E.
    + cbn -[Z.shiftl Z.lor Z.pow]. rewrite E. cbn -[Z.shiftl Z.lor Z.pow].
      rewrite lor_shiftl_add by lia. done.
    + apply Z.ltb_ge in E.
      pose proof (Z.mod_pos_bound x 128 ltac:(lia)) as Hm.
      pose proof (Z.div_mod x 128 ltac:(lia)) as Hd.
      assert (Hp : 2 ^ (s + 7) = 2 ^ s * 128) by (rewrite Z.pow_add_r by lia; lia).
      assert (Hs0 : 0 < 2 ^ s) by (apply Z.pow_pos_nonneg; lia).
      rewrite <- app_comm_cons. remember (S fuel) as f' eqn:Ef.
      cbn -[Z.shiftl Z.lor Z.pow Z.land Z.modulo]. subst f'.
      rewrite (proj2 (Z.ltb_ge (x mod 128 + 128) 128)) by lia.
      replace (Z.land (x mod 128 + 128) 127) with (x mod 128).
      2:{ change 127 with (Z.ones 7). rewrite Z.land_ones by lia.
          change (2 ^ 7) with 128. rewrite <- Zplus_mod_idemp_r, Z_mod_same_full, Z.add_0_r.
          by rewrite Z.mod_mod by lia. }
      rewrite lor_shiftl_add by lia.
      rewrite IH by (rewrite ?Hp; nia). do 2 f_equal. rewrite Hp. nia.
Qed.

(** A [uint64] written by [PutUvarint] is read back, whatever follows it. *)
Lemma ReadUvarint_PutUvarint x rest :
  0 ≤ x < 2 ^ 64 → ReadUvarint (PutUvarint x ++ rest) = Ok (x, rest).
Proof.
  intros Hx. unfold ReadUvarint, PutUvarint, MaxVarintLen64.
  rewrite read_put_uvarint with (s := 0); try lia.
  do 2 f_equal. lia.
Qed.

#[export] Hint Resolve ReadUvarint_PutUvarint : orion.
