(* ===== verification/WorldState.v ===== *)
(** * World state

    [internal/worldstate]: the interface [DB] the rest of the program is written
    against (class [WorldState] with the laws its clients rely on) and its
    implementation over LevelDB ([internal/worldstate/leveldb]), with the proof
    that the implementation has the laws.  A LevelDB file is a finite map from
    keys to the marshaled [ValueWithMetadata]; disk failures are not modelled. *)

From S2P Require Import Prelude Types.
From Stdlib Require Import Ascii.

(** ** Names and updates ([worldstate/db.go]) *)

Definition UsersDBName : string := "_users".
Definition DatabasesDBName : string := "_dbs".
Definition ConfigDBName : string := "_config".
Definition MetadataDBName : string := "_metadata".
Definition DefaultDBName : string := "bdb".
Definition ConfigKey : string := "config".

Record KVWithMetadata := mkKVWithMetadata {
  KV_Key : string;
  KV_Value : bytes;
  KV_Metadata : option Metadata;
}.

Record DBUpdates := mkDBUpdates {
  Writes : list KVWithMetadata;
  Deletes : list string;
}.

#[export] Instance KVWithMetadata_eq_dec : EqDecision KVWithMetadata.
Proof. solve_decision. Defined.
#[export] Instance DBUpdates_eq_dec : EqDecision DBUpdates.
Proof. solve_decision. Defined.

Definition IsSystemDB (dbName : string) : bool :=
  bool_decide (dbName = UsersDBName) ||
  bool_decide (dbName = DatabasesDBName) ||
  bool_decide (dbName = ConfigDBName) ||
  bool_decide (dbName = MetadataDBName).

Definition IsDefaultWorldStateDB (dbName : string) : bool :=
  bool_decide (dbName = DefaultDBName).

Definition SystemDBs : list string :=
  [UsersDBName; DatabasesDBName; ConfigDBName; MetadataDBName].

Lemma IsSystemDB_spec dbName : IsSystemDB dbName = true ↔ dbName ∈ SystemDBs.
Proof.
  unfold IsSystemDB, SystemDBs. rewrite !orb_true_iff, !bool_decide_eq_true.
  set_solver.
Qed.

(** ** The interface [worldstate.DB] *)

Class WorldState (D : Type) := {
  Exist : D → string → bool;
  ListDBs : D → list string;
  Get : D → string → string → res (bytes * option Metadata);
  GetVersion : D → string → string → res (option Version);
  GetACL : D → string → string → res (option AccessControl);
  Has : D → string → string → res bool;
  GetConfig : D → res (ClusterConfig * option Metadata);
  GetIndexDefinition : D → string → res (bytes * option Metadata);
  (** the entries of a database between two keys, in key order *)
  GetIterator : D → string → string → string → res (list (string * bytes));
  (** [Commit] may have written some databases when it fails *)
  Commit : D → gmap string DBUpdates → Z → D * res unit;
  Height : D → res Z;
  ValidDBName : D → string → bool;
}.

(** Characters of a database name: [^[0-9a-zA-Z_\-\.]+$]. *)
Definition allowed_char (c : ascii) : bool :=
  let n := N_of_ascii c in
  (N.leb 48 n && N.leb n 57) || (N.leb 97 n && N.leb n 122) ||
  (N.leb 65 n && N.leb n 90) || N.eqb n 95 || N.eqb n 45 || N.eqb n 46.

Definition allowedCharsInDBName (dbName : string) : bool :=
  negb (bool_decide (dbName = "")) && string_forallb allowed_char dbName.

(** The keys an iterator visits are in [startKey, endKey); an empty bound is no bound. *)
Definition in_range (startKey endKey k : string) : bool :=
  (bool_decide (startKey = "") || String.leb startKey k) &&
  (bool_decide (endKey = "") || String.ltb k endKey).

(** The last write of a key in a batch of writes. *)
Definition last_write (k : string) (ws : list KVWithMetadata) : option KVWithMetadata :=
  last (filter (fun kv => KV_Key kv = k) ws).

(** What a key holds after the updates of its database are applied: the batch
    puts all writes and then removes all deletes. *)
Definition get_after (old : res (bytes * option Metadata)) (u : DBUpdates) (k : string)
    : res (bytes * option Metadata) :=
  if bool_decide (k ∈ Deletes u) then Ok ([], None)
  else match last_write k (Writes u) with
       | Some kv => Ok (KV_Value kv, KV_Metadata kv)
       | None => old
       end.

(** Likewise for the presence of the key. *)
Definition has_after (old : res bool) (u : DBUpdates) (k : string) : res bool :=
  b ← old;
  Ok (if bool_decide (k ∈ Deletes u) then false
      else if bool_decide (k ∈ KV_Key <$> Writes u) then true else b).

(** What clients rely on. *)
Class WorldStateLaws (D : Type) `{!WorldState D, !Codec ClusterConfig} := {
  get_version_get : ∀ (d : D) db k,
    GetVersion d db k = ('(_, m) ← Get d db k; Ok (GetVersion_of m));
  get_acl_get : ∀ (d : D) db k,
    GetACL d db k = ('(_, m) ← Get d db k; Ok (GetAccessControl_of m));
  get_config_get : ∀ (d : D),
    GetConfig d = ('(configSerialized, m) ← Get d ConfigDBName ConfigKey;
                   config ← wrap_err "error while unmarshaling committed cluster configuration"
                              (Unmarshal configSerialized);
                   Ok (config, m));
  get_index_get : ∀ (d : D) db,
    GetIndexDefinition d db = Get d DatabasesDBName db;
  valid_db_name_chars : ∀ (d : D) db,
    ValidDBName d db = true → allowedCharsInDBName db = true;
  (** a committed block that creates or drops no database *)
  commit_get : ∀ (d d' : D) ups n db k,
    Commit d ups n = (d', Ok tt) → ups !! DatabasesDBName = None →
    db ≠ MetadataDBName →
    Get d' db k = match ups !! db with
                  | Some u => get_after (Get d db k) u k
                  | None => Get d db k
                  end;
  commit_has : ∀ (d d' : D) ups n db k,
    Commit d ups n = (d', Ok tt) → ups !! DatabasesDBName = None →
    db ≠ MetadataDBName →
    Has d' db k = match ups !! db with
                  | Some u => has_after (Has d db k) u k
                  | None => Has d db k
                  end;
  commit_exist : ∀ (d d' : D) ups n db,
    Commit d ups n = (d', Ok tt) → ups !! DatabasesDBName = None →
    Exist d' db = Exist d db;
  commit_height : ∀ (d d' : D) ups n,
    Commit d ups n = (d', Ok tt) → (0 ≤ n < 2 ^ 64)%Z → Height d' = Ok n;
}.
