(* ===== verification/ProvenanceJSON.v ===== *)
(** * The JSON texts of the provenance graph

    The vertices and version edges of the provenance graph are JSON texts:
    [json.Marshal] and [json.Unmarshal] of [KVWithMetadata], [Version] and
    [TxIDLocation], field by field, with the base64 text of byte slices.  Texts are
    read back, and different values have different texts. *)

From S2P Require Import Prelude StringOrder Types JSON JSONPrint WorldState.
From Stdlib Require Import Ascii.

#[local] Arguments String.append !_ _ /.
#[local] Existing Instance text_fields.

(** ** [base64.StdEncoding] *)

Definition base64_char (n : Z) : ascii :=
  char (if n <? 26 then 65 + n else if n <? 52 then 71 + n else if n <? 62 then n - 4
        else if n =? 62 then 43 else 47)%Z.

Definition base64_value (c : ascii) : option Z :=
  if between 65 90 c then Some (code c - 65)%Z
  else if between 97 122 c then Some (code c - 71)%Z
  else if between 48 57 c then Some (code c + 4)%Z
  else if (code c =? 43)%Z then Some 62%Z
  else if (code c =? 47)%Z then Some 63%Z
  else None.

Fixpoint base64 (b : bytes) : string :=
  match b with
  | x :: y :: z :: b =>
    String (base64_char (x / 4)) (String (base64_char (x mod 4 * 16 + y / 16))
      (String (base64_char (y mod 16 * 4 + z / 64)) (String (base64_char (z mod 64)) (base64 b))))
  | [x; y] =>
    String (base64_char (x / 4)) (String (base64_char (x mod 4 * 16 + y / 16))
      (String (base64_char (y mod 16 * 4)) "="))
  | [x] => String (base64_char (x / 4)) (String (base64_char (x mod 4 * 16)) "==")
  | [] => ""
  end%Z.

(** Groups of four characters; the last one may be padded, and its spare bits are
    not looked at. *)
Fixpoint base64_groups (s : string) : option bytes :=
  match s with
  | EmptyString => Some []
  | String a (String b (String c (String d s))) =>
    x ← base64_value a; y ← base64_value b;
    if ((code d =? 61) && bool_decide (s = ""))%Z then
      if (code c =? 61)%Z then Some [x * 4 + y / 16]%Z
      else z ← base64_value c; Some [x * 4 + y / 16; y mod 16 * 16 + z / 4]%Z
    else
      z ← base64_value c; w ← base64_value d; rest ← base64_groups s;
      Some ((x * 4 + y / 16) :: (y mod 16 * 16 + z / 4) :: (z mod 4 * 64 + w) :: rest)%Z
  | _ => None
  end.

(** The decoder skips line ends. *)
Fixpoint strip_line_ends (s : string) : string :=
  match s with
  | EmptyString => ""
  | String c s => if ((code c =? 13) || (code c =? 10))%Z then strip_line_ends s else String c (strip_line_ends s)
  end.

Definition base64_decode (s : string) : option bytes := base64_groups (strip_line_ends s).

(** A byte slice is read from a base64 string, or from an array of numbers. *)
Definition decode_bytes (v : json) : res bytes :=
  match v with
  | JNull => Ok []
  | JString s =>
    match base64_decode s with
    | Some b => Ok b
    | None => Err (PlainErr "illegal base64 data")
    end
  | JArray l => res_mapM (decode_uint 8 0) l
  | _ => Err (PlainErr "json: cannot unmarshal value into Go value of type []uint8")
  end.

(** ** Decoding structs, pointers and maps *)

(** The members of an object are read one after the other; [null] changes nothing. *)
Definition decode_struct {A} (load : A → string → json → res A) (old : A) (v : json) : res A :=
  match v with
  | JNull => Ok old
  | JObject fields => res_foldM (fun a '(name, x) => load a (fold_name name) x) old fields
  | _ => Err (PlainErr "json: cannot unmarshal value into Go value of a struct type")
  end.

(** A pointer becomes nil for [null]; what it points to is kept otherwise. *)
Definition decode_pointer {A} (decode : A → json → res A) (zero : A) (old : option A) (v : json) : res (option A) :=
  match v with
  | JNull => Ok None
  | _ => Some <$> decode (default zero old) v
  end.

(** A [map[string]bool]: members are added to the map there is. *)
Definition decode_bools (old : gmap string bool) (v : json) : res (gmap string bool) :=
  match v with
  | JNull => Ok ∅
  | JObject fields => res_foldM (fun m '(k, x) => b ← decode_bool false x; Ok (<[k := b]> m)) old fields
  | _ => Err (PlainErr "json: cannot unmarshal value into Go value of type map[string]bool")
  end.

(** ** Fields that [omitempty] leaves out *)

Definition omit_empty (b : bool) (name : string) (v : json) : list (string * json) := if b then [] else [(name, v)].

Definition number_member (name : string) (n : Z) : list (string * json) :=
  omit_empty (n =? 0)%Z name (JNumber (pretty n)).

Definition pointer_member {A} (name : string) (f : A → json) (p : option A) : list (string * json) :=
  match p with None => [] | Some a => [(name, f a)] end.

(** The keys of a map are sorted. *)
Definition bools_json (m : gmap string bool) : json :=
  JObject ((fun k => (k, JBool (mget m k))) <$> sort_strings (map_to_list m).*1).

Definition bools_member (name : string) (m : gmap string bool) : list (string * json) :=
  omit_empty (bool_decide (m = ∅)) name (bools_json m).

(** ** The types of the store *)

Definition version_json (v : Version) : json :=
  JObject (number_member "block_num" (BlockNum v) ++ number_member "tx_num" (TxNum v)).

Definition load_version (v : Version) (name : string) (x : json) : res Version :=
  if bool_decide (name = "block_num") then n ← decode_uint 64 (BlockNum v) x; Ok (mkVersion n (TxNum v))
  else if bool_decide (name = "tx_num") then n ← decode_uint 64 (TxNum v) x; Ok (mkVersion (BlockNum v) n)
  else Ok v.

Definition policy_number (p : AccessControl_WritePolicy) : Z :=
  match p with AccessControl_ANY => 0 | AccessControl_ALL => 1 | AccessControl_Unknown n => n end.

Definition policy_of_number (n : Z) : AccessControl_WritePolicy :=
  if (n =? 0)%Z then AccessControl_ANY else if (n =? 1)%Z then AccessControl_ALL else AccessControl_Unknown n.

Definition acl_json (a : AccessControl) : json :=
  JObject (bools_member "read_users" (ReadUsers a) ++ bools_member "read_write_users" (ReadWriteUsers a) ++
           number_member "sign_policy_for_write" (policy_number (SignPolicyForWrite a))).

Definition load_acl (a : AccessControl) (name : string) (x : json) : res AccessControl :=
  let '(mkAccessControl r w p) := a in
  if bool_decide (name = "read_users") then r ← decode_bools r x; Ok (mkAccessControl r w p)
  else if bool_decide (name = "read_write_users") then w ← decode_bools w x; Ok (mkAccessControl r w p)
  else if bool_decide (name = "sign_policy_for_write") then
    n ← decode_int 32 (policy_number p) x; Ok (mkAccessControl r w (policy_of_number n))
  else Ok a.

Definition metadata_json (m : Metadata) : json :=
  JObject (pointer_member "version" version_json (Metadata_Version m) ++
           pointer_member "access_control" acl_json (Metadata_AccessControl m)).

Definition new_version : Version := mkVersion 0 0.
Definition new_acl : AccessControl := mkAccessControl ∅ ∅ AccessControl_ANY.

Definition load_metadata (m : Metadata) (name : string) (x : json) : res Metadata :=
  let '(mkMetadata v a) := m in
  if bool_decide (name = "version") then
    v ← decode_pointer (decode_struct load_version) new_version v x; Ok (mkMetadata v a)
  else if bool_decide (name = "access_control") then
    a ← decode_pointer (decode_struct load_acl) new_acl a x; Ok (mkMetadata v a)
  else Ok m.

Definition kv_json (kv : KVWithMetadata) : json :=
  JObject (omit_empty (bool_decide (KV_Key kv = "")) "key" (JString (KV_Key kv)) ++
           omit_empty (bool_decide (KV_Value kv = [])) "value" (JString (base64 (KV_Value kv))) ++
           pointer_member "metadata" metadata_json (KV_Metadata kv)).

Definition load_kv (kv : KVWithMetadata) (name : string) (x : json) : res KVWithMetadata :=
  let '(mkKVWithMetadata k v m) := kv in
  if bool_decide (name = "key") then k ← decode_string k x; Ok (mkKVWithMetadata k v m)
  else if bool_decide (name = "value") then v ← decode_bytes x; Ok (mkKVWithMetadata k v m)
  else if bool_decide (name = "metadata") then
    m ← decode_pointer (decode_struct load_metadata) (mkMetadata None None) m x; Ok (mkKVWithMetadata k v m)
  else Ok kv.

(** [json.Marshal] of a [*Version] and of a [*KVWithMetadata] *)
Definition MarshalVersion (v : option Version) : string :=
  match v with None => "null" | Some v => print (version_json v) end.

Definition MarshalKV (kv : KVWithMetadata) : string := print (kv_json kv).

(** [json.Unmarshal] into a new struct *)
Definition Unmarshal {A} (load : A → string → json → res A) (zero : A) (text : string) : res A :=
  match parse_text text with
  | None => Err (PlainErr "invalid JSON")
  | Some v => decode_struct load zero v
  end.

Definition UnmarshalKV : string → res KVWithMetadata := Unmarshal load_kv (mkKVWithMetadata "" [] None).

(** [provenance.TxIDLocation] *)
Record TxIDLocation := mkTxIDLocation { Loc_BlockNum : Z; Loc_TxIndex : Z }.

Definition MarshalLocation (l : TxIDLocation) : string :=
  print (JObject [("block_num", JNumber (pretty (Loc_BlockNum l))); ("tx_index", JNumber (pretty (Loc_TxIndex l)))]).

Definition load_location (l : TxIDLocation) (name : string) (x : json) : res TxIDLocation :=
  if bool_decide (name = "block_num") then n ← decode_uint 64 (Loc_BlockNum l) x; Ok (mkTxIDLocation n (Loc_TxIndex l))
  else if bool_decide (name = "tx_index") then
    n ← decode_int 64 (Loc_TxIndex l) x; Ok (mkTxIDLocation (Loc_BlockNum l) n)
  else Ok l.

Definition UnmarshalLocation : string → res TxIDLocation := Unmarshal load_location (mkTxIDLocation 0 0).

(** ** Base64 is read back *)

Definition byte (x : Z) : Prop := (0 ≤ x < 256)%Z.

Lemma base64_char_code n : (0 ≤ n < 64)%Z →
  code (base64_char n) =
    (if n <? 26 then 65 + n else if n <? 52 then 71 + n else if n <? 62 then n - 4
     else if n =? 62 then 43 else 47)%Z.
Proof. intros Hn. unfold base64_char. apply code_char. repeat case_match; lia. Qed.

Lemma base64_value_char n : (0 ≤ n < 64)%Z → base64_value (base64_char n) = Some n.
Proof.
  intros Hn. unfold base64_value, between. rewrite base64_char_code by done.
  repeat case_match; try f_equal; lia.
Qed.

Lemma base64_char_plain n : (0 ≤ n < 64)%Z →
  (code (base64_char n) =? 61)%Z = false ∧ (code (base64_char n) =? 13)%Z = false ∧
  (code (base64_char n) =? 10)%Z = false ∧ (code (base64_char n) <? 0x80)%Z = true.
Proof. intros Hn. rewrite base64_char_code by done. repeat case_match; lia. Qed.

(** Lists in steps of three. *)
Lemma list_ind3 {A} (P : list A → Prop) :
  P [] → (∀ x, P [x]) → (∀ x y, P [x; y]) → (∀ x y z l, P l → P (x :: y :: z :: l)) → ∀ l, P l.
Proof.
  intros H0 H1 H2 H3. fix IH 1. intros [|x [|y [|z l]]]; [apply H0|apply H1|apply H2|apply H3, IH].
Qed.

(** The ranges of the parts of bytes. *)
Ltac byte_parts :=
  repeat match goal with
         | H : Forall byte (_ :: _) |- _ => apply Forall_cons in H as [? H]
         end;
  unfold byte in *; rewrite ?Z.div_div, ?Z.mod_mod by lia;
  try (Z.div_mod_to_equations; lia).

Lemma base64_plain b : Forall byte b →
  string_forallb (fun c => negb ((code c =? 13) || (code c =? 10))%Z && (code c <? 0x80)%Z) (base64 b) = true.
Proof.
  assert (Hc : ∀ n s, (0 ≤ n < 64)%Z →
    string_forallb (fun c => negb ((code c =? 13) || (code c =? 10))%Z && (code c <? 0x80)%Z) (String (base64_char n) s) =
    string_forallb (fun c => negb ((code c =? 13) || (code c =? 10))%Z && (code c <? 0x80)%Z) s).
  { intros n s Hn. cbn [string_forallb]. by destruct (base64_char_plain n Hn) as (_ & -> & -> & ->). }
  intros Hb. induction b as [|x|x y|x y z b IH] using list_ind3; cbn [base64]; [done|..];
    rewrite !Hc by byte_parts; [done..|]. apply IH. by do 3 apply Forall_cons in Hb as [_ Hb].
Qed.

Lemma strip_line_ends_plain s :
  string_forallb (fun c => negb ((code c =? 13) || (code c =? 10))%Z && (code c <? 0x80)%Z) s = true →
  strip_line_ends s = s.
Proof.
  induction s as [|c s IH]; [done|]. cbn. intros [[Hc%negb_true_iff _]%andb_true_iff Hs]%andb_true_iff.
  by rewrite Hc, IH.
Qed.

Lemma base64_utf8 b : Forall byte b → utf8_valid (base64 b) = true.
Proof.
  intros Hb%base64_plain. apply ascii_string_valid. induction (base64 b) as [|c s IH]; [done|]. cbn in *.
  apply andb_true_iff in Hb as [[_ ->]%andb_true_iff Hs]. by apply IH.
Qed.

Lemma base64_read_back b : Forall byte b → base64_decode (base64 b) = Some b.
Proof.
  intros Hb. unfold base64_decode. rewrite strip_line_ends_plain by (by apply base64_plain).
  induction b as [|x|x y|x y z b IH] using list_ind3; [done|..]; cbn [base64 base64_groups].
  - rewrite !base64_value_char by byte_parts. cbn. do 2 f_equal. byte_parts.
  - rewrite !base64_value_char by byte_parts. cbn.
    destruct (base64_char_plain (y mod 16 * 4)) as [-> _]; [byte_parts|]. cbn.
    f_equal. f_equal; [byte_parts|]. f_equal. byte_parts.
  - rewrite !base64_value_char by byte_parts. cbn.
    destruct (base64_char_plain (z mod 64)) as [-> _]; [byte_parts|]. cbn.
    rewrite IH by (by do 3 apply Forall_cons in Hb as [_ Hb]). cbn.
    f_equal. f_equal; [byte_parts|]. f_equal; [byte_parts|]. f_equal. byte_parts.
Qed.

(** ** Structs are read back *)

Definition uint64 (n : Z) : Prop := (0 ≤ n < 2 ^ 64)%Z.

Definition version_wf (v : Version) : Prop := uint64 (BlockNum v) ∧ uint64 (TxNum v).

Definition bools_wf (m : gmap string bool) : Prop := ∀ k, is_Some (m !! k) → utf8_valid k = true.

Definition acl_wf (a : AccessControl) : Prop :=
  bools_wf (ReadUsers a) ∧ bools_wf (ReadWriteUsers a) ∧
  (- 2 ^ 31 ≤ policy_number (SignPolicyForWrite a) < 2 ^ 31)%Z ∧
  policy_of_number (policy_number (SignPolicyForWrite a)) = SignPolicyForWrite a.

Definition metadata_wf (m : Metadata) : Prop :=
  (∀ v, Metadata_Version m = Some v → version_wf v) ∧ (∀ a, Metadata_AccessControl m = Some a → acl_wf a).

(** Values as the wire format delivers them: byte slices of bytes, strings in UTF-8. *)
Definition kv_wf (kv : KVWithMetadata) : Prop :=
  utf8_valid (KV_Key kv) = true ∧ Forall byte (KV_Value kv) ∧ (∀ m, KV_Metadata kv = Some m → metadata_wf m).

Lemma decode_uint_pretty n old : uint64 n → decode_uint 64 old (JNumber (pretty n)) = Ok n.
Proof. intros Hn. unfold decode_uint. rewrite ParseUint64_pretty by done. by rewrite bool_decide_eq_true_2 by apply Hn. Qed.

Lemma decode_int_pretty bits n old : (0 < bits ≤ 64)%Z → (- 2 ^ (bits - 1) ≤ n < 2 ^ (bits - 1))%Z →
  decode_int bits old (JNumber (pretty n)) = Ok n.
Proof.
  intros Hb Hn. unfold decode_int. assert (2 ^ (bits - 1) ≤ 2 ^ 63)%Z by (apply Z.pow_le_mono_r; lia).
  rewrite ParseInt64_pretty by lia. by rewrite bool_decide_eq_true_2.
Qed.

Lemma decode_version v : version_wf v → decode_struct load_version new_version (version_json v) = Ok v.
Proof.
  intros [Hb Ht]. destruct v as [b t]. unfold version_json, number_member, omit_empty. cbn [BlockNum TxNum] in *.
  assert (Hload : ∀ v n, uint64 n → load_version v (fold_name "block_num") (JNumber (pretty n)) = Ok (mkVersion n (TxNum v))).
  { intros v n Hn. unfold load_version. change (fold_name "block_num") with "block_num".
    rewrite bool_decide_eq_true_2 by done. by rewrite decode_uint_pretty. }
  assert (Hload' : ∀ v n, uint64 n → load_version v (fold_name "tx_num") (JNumber (pretty n)) = Ok (mkVersion (BlockNum v) n)).
  { intros v n Hn. unfold load_version. change (fold_name "tx_num") with "tx_num".
    rewrite bool_decide_eq_false_2, bool_decide_eq_true_2 by done. by rewrite decode_uint_pretty. }
  destruct (b =? 0)%Z eqn:Eb, (t =? 0)%Z eqn:Et; cbn [app decode_struct res_foldM];
    rewrite ?Hload by done; cbn [mbind res_bind]; rewrite ?Hload' by done; cbn; repeat f_equal; lia.
Qed.

Lemma decode_bools_json m : decode_bools ∅ (bools_json m) = Ok m.
Proof.
  unfold bools_json, decode_bools.
  assert (Hgen : ∀ ks (m0 : gmap string bool), res_foldM (fun (m : gmap string bool) '(k, x) => b ← decode_bool false x; Ok (<[k := b]> m)) m0
    ((fun k => (k, JBool (mget m k))) <$> ks) = Ok (foldl (fun m0 k => <[k := mget m k]> m0) m0 ks)).
  { induction ks as [|k ks IH]; intros m0; [done|]. cbn. apply IH. }
  rewrite Hgen. f_equal.
  assert (Hl : ∀ ks (m0 : gmap string bool) j, foldl (fun m0 k => <[k := mget m k]> m0) m0 ks !! j =
    if bool_decide (j ∈ ks) then Some (mget m j) else m0 !! j).
  { induction ks as [|k ks IH]; intros m0 j; cbn [foldl].
    - by rewrite bool_decide_eq_false_2 by (by apply not_elem_of_nil).
    - rewrite IH. destruct (decide (j ∈ ks)).
      + rewrite !bool_decide_eq_true_2; [done|by right|done].
      + rewrite (bool_decide_eq_false_2 (j ∈ ks)) by done. destruct (decide (j = k)) as [->|].
        * rewrite lookup_insert_eq, bool_decide_eq_true_2; [done|by left].
        * rewrite lookup_insert_ne by done. rewrite bool_decide_eq_false_2; [done|]. set_solver. }
  apply map_eq. intros j. rewrite Hl, lookup_empty.
  assert (Hj : j ∈ sort_strings (map_to_list m).*1 ↔ is_Some (m !! j)).
  { rewrite (sort_strings_perm (map_to_list m).*1). rewrite list_elem_of_fmap. split.
    - intros ([k b] & -> & H%elem_of_map_to_list). by eexists.
    - intros [b Hb]. exists (j, b). by rewrite elem_of_map_to_list. }
  unfold mget. case_bool_decide as H.
  - apply Hj in H as [b ->]. done.
  - destruct (m !! j) eqn:E; [|done]. destruct H. apply Hj. by eexists.
Qed.

Lemma decode_acl a : acl_wf a → decode_struct load_acl new_acl (acl_json a) = Ok a.
Proof.
  intros (_ & _ & Hp & Hpn). destruct a as [r w p]. unfold acl_json. cbn [ReadUsers ReadWriteUsers SignPolicyForWrite] in *.
  unfold decode_struct. rewrite !res_foldM_app.
  assert (res_foldM (fun a '(name, x) => load_acl a (fold_name name) x) new_acl (bools_member "read_users" r) =
    Ok (mkAccessControl r ∅ AccessControl_ANY)) as ->.
  { unfold bools_member, omit_empty. case_bool_decide as Hr; [by rewrite Hr|]. cbn [res_foldM].
    change (fold_name "read_users") with "read_users". unfold load_acl, new_acl.
    rewrite bool_decide_eq_true_2 by done. by rewrite decode_bools_json. }
  cbn [mbind res_bind]. rewrite res_foldM_app.
  assert (res_foldM (fun a '(name, x) => load_acl a (fold_name name) x) (mkAccessControl r ∅ AccessControl_ANY)
    (bools_member "read_write_users" w) = Ok (mkAccessControl r w AccessControl_ANY)) as ->.
  { unfold bools_member, omit_empty. case_bool_decide as Hr; [by rewrite Hr|]. cbn [res_foldM].
    change (fold_name "read_write_users") with "read_write_users". unfold load_acl.
    rewrite bool_decide_eq_false_2, bool_decide_eq_true_2 by done. by rewrite decode_bools_json. }
  cbn [mbind res_bind]. unfold number_member, omit_empty. destruct (policy_number p =? 0)%Z eqn:E.
  - cbn. rewrite <- Hpn. unfold policy_of_number. by rewrite E.
  - cbn [res_foldM]. change (fold_name "sign_policy_for_write") with "sign_policy_for_write". unfold load_acl.
    rewrite !bool_decide_eq_false_2, bool_decide_eq_true_2 by done.
    rewrite decode_int_pretty by (cbn; lia). cbn [mbind res_bind]. by rewrite Hpn.
Qed.

Lemma decode_metadata m : metadata_wf m →
  decode_struct load_metadata (mkMetadata None None) (metadata_json m) = Ok m.
Proof.
  intros [Hv Ha]. destruct m as [v a]. cbn [Metadata_Version Metadata_AccessControl] in *.
  unfold metadata_json, decode_struct. cbn [Metadata_Version Metadata_AccessControl]. rewrite res_foldM_app.
  assert (res_foldM (fun m '(name, x) => load_metadata m (fold_name name) x) (mkMetadata None None)
    (pointer_member "version" version_json v) = Ok (mkMetadata v None)) as ->.
  { destruct v as [v|]; [|done]. cbn [pointer_member res_foldM].
    change (fold_name "version") with "version". unfold load_metadata. rewrite bool_decide_eq_true_2 by done.
    unfold decode_pointer. cbn [default]. rewrite decode_version by (by apply Hv). done. }
  cbn [mbind res_bind]. destruct a as [a|]; [|done]. cbn [pointer_member res_foldM].
  change (fold_name "access_control") with "access_control". unfold load_metadata.
  rewrite bool_decide_eq_false_2, bool_decide_eq_true_2 by done.
  unfold decode_pointer. cbn [default]. rewrite decode_acl by (by apply Ha). done.
Qed.

Lemma decode_kv kv : kv_wf kv → decode_struct load_kv (mkKVWithMetadata "" [] None) (kv_json kv) = Ok kv.
Proof.
  intros (_ & Hb & Hm). destruct kv as [k v m]. cbn [KV_Key KV_Value KV_Metadata] in *.
  unfold kv_json, decode_struct. cbn [KV_Key KV_Value KV_Metadata]. rewrite res_foldM_app.
  assert (res_foldM (fun kv '(name, x) => load_kv kv (fold_name name) x) (mkKVWithMetadata "" [] None)
    (omit_empty (bool_decide (k = "")) "key" (JString k)) = Ok (mkKVWithMetadata k [] None)) as ->.
  { unfold omit_empty. case_bool_decide as Hk; [by rewrite Hk|done]. }
  cbn [mbind res_bind]. rewrite res_foldM_app.
  assert (res_foldM (fun kv '(name, x) => load_kv kv (fold_name name) x) (mkKVWithMetadata k [] None)
    (omit_empty (bool_decide (v = [])) "value" (JString (base64 v))) = Ok (mkKVWithMetadata k v None)) as ->.
  { unfold omit_empty. case_bool_decide as Hv; [by rewrite Hv|]. cbn [res_foldM].
    change (fold_name "value") with "value". unfold load_kv. rewrite bool_decide_eq_false_2, bool_decide_eq_true_2 by done.
    unfold decode_bytes. by rewrite base64_read_back. }
  cbn [mbind res_bind]. destruct m as [m|]; [|done]. cbn [pointer_member res_foldM].
  change (fold_name "metadata") with "metadata". unfold load_kv.
  rewrite !bool_decide_eq_false_2, bool_decide_eq_true_2 by done.
  unfold decode_pointer. cbn [default]. rewrite decode_metadata by (by apply Hm). done.
Qed.

(** ** Texts are read back *)

Lemma omit_empty_printable n b name v : utf8_valid name = true → printable n v →
  Forall (fun p => utf8_valid p.1 = true ∧ printable n p.2) (omit_empty b name v).
Proof. intros Hn Hv. destruct b; [done|]. by apply Forall_singleton. Qed.

Lemma number_member_printable n name z : utf8_valid name = true →
  Forall (fun p => utf8_valid p.1 = true ∧ printable n p.2) (number_member name z).
Proof. intros Hn. apply omit_empty_printable; [done|]. rewrite printable_eq. by exists z. Qed.

Lemma pointer_member_printable {A} n name (f : A → json) p : utf8_valid name = true →
  (∀ a, p = Some a → printable n (f a)) →
  Forall (fun p => utf8_valid p.1 = true ∧ printable n p.2) (pointer_member name f p).
Proof. intros Hn Hf. destruct p as [a|]; [|done]. apply Forall_singleton. split; [done|]. by apply Hf. Qed.

Lemma version_printable n v : printable (S n) (version_json v).
Proof. rewrite printable_eq; unfold version_json. apply Forall_app; split; by apply number_member_printable. Qed.

Lemma bools_printable n m : bools_wf m → printable (S n) (bools_json m).
Proof.
  intros Hm. rewrite printable_eq; unfold bools_json. apply Forall_fmap, Forall_forall. intros k Hk. cbn. split; [|by destruct n].
  apply Hm. rewrite (sort_strings_perm (map_to_list m).*1) in Hk. apply list_elem_of_fmap in Hk as ([k' b] & -> & H).
  apply elem_of_map_to_list in H. by eexists.
Qed.

Lemma acl_printable n a : acl_wf a → printable (S (S n)) (acl_json a).
Proof.
  intros (Hr & Hw & _). rewrite printable_eq; unfold acl_json. rewrite !Forall_app. split_and!;
    first [by apply number_member_printable|by apply omit_empty_printable; [|apply bools_printable]].
Qed.

Lemma metadata_printable n m : metadata_wf m → printable (S (S (S n))) (metadata_json m).
Proof.
  intros [_ Ha]. rewrite printable_eq; unfold metadata_json. apply Forall_app; split; apply pointer_member_printable; try done.
  - intros v _. apply version_printable.
  - intros a H. by apply acl_printable, Ha.
Qed.

Lemma kv_printable kv : kv_wf kv → printable 4 (kv_json kv).
Proof.
  intros (Hk & Hb & Hm). rewrite printable_eq; unfold kv_json. rewrite !Forall_app. split_and!.
  - by apply omit_empty_printable.
  - apply omit_empty_printable; [done|]. by apply base64_utf8.
  - apply pointer_member_printable; [done|]. intros m H. by apply metadata_printable, Hm.
Qed.

Lemma UnmarshalKV_MarshalKV kv : kv_wf kv → UnmarshalKV (MarshalKV kv) = Ok kv.
Proof.
  intros H. unfold UnmarshalKV, Unmarshal, MarshalKV.
  rewrite (parse_print 4) by first [by apply kv_printable|done]. by apply decode_kv.
Qed.

Lemma MarshalKV_inj kv kv' : kv_wf kv → kv_wf kv' → MarshalKV kv = MarshalKV kv' → kv = kv'.
Proof.
  intros H H' E. apply UnmarshalKV_MarshalKV in H, H'. rewrite E, H' in H. by injection H.
Qed.

Lemma MarshalVersion_inj v v' : (∀ x, v = Some x → version_wf x) → (∀ x, v' = Some x → version_wf x) →
  MarshalVersion v = MarshalVersion v' → v = v'.
Proof.
  intros H H' E. destruct v as [v|], v' as [v'|]; [|done|done|done]. cbn [MarshalVersion] in E.
  apply (print_inj 1) in E; [|apply version_printable..|done].
  pose proof (decode_version v (H v eq_refl)) as Hv. rewrite E, decode_version in Hv by (by apply H'). by injection Hv as ->.
Qed.

Definition location_wf (l : TxIDLocation) : Prop := uint64 (Loc_BlockNum l) ∧ (0 ≤ Loc_TxIndex l < 2 ^ 63)%Z.

Lemma UnmarshalLocation_MarshalLocation l : location_wf l → UnmarshalLocation (MarshalLocation l) = Ok l.
Proof.
  intros [Hb Ht]. unfold UnmarshalLocation, Unmarshal, MarshalLocation. rewrite (parse_print 1); [|..|done].
  - cbn [decode_struct res_foldM]. change (fold_name "block_num") with "block_num".
    change (fold_name "tx_index") with "tx_index". unfold load_location.
    rewrite (bool_decide_eq_true_2 ("block_num" = "block_num")), decode_uint_pretty by done. cbn [mbind res_bind].
    rewrite bool_decide_eq_false_2, bool_decide_eq_true_2, decode_int_pretty by (done || cbn; lia).
    by destruct l.
  - cbn [printable]. repeat constructor; by eexists.
Qed.
