(* ===== verification/LevelDB.v ===== *)
(** * The LevelDB world state

    [internal/worldstate/leveldb/commit_and_query.go] and the database creation of
    [open.go]: the implementation of the interface of [WorldState] and the proof
    of its laws. *)

From S2P Require Import Prelude Types Varint WorldState.

Record LevelDB := mkLevelDB { dbs : gmap string (gmap string bytes) }.

#[export] Instance LevelDB_eq_dec : EqDecision LevelDB.
Proof. solve_decision. Defined.

(** Entries in the order of their keys, as a LevelDB iterator returns them. *)
Definition entry_le {V} (a b : string * V) : Prop := string_le a.1 b.1.

#[export] Instance entry_le_dec {V} : RelDecision (@entry_le V).
Proof. intros a b. unfold entry_le. apply _. Defined.

Module LDB.
Section LevelDB.
Context `{!Codec ValueWithMetadata, !Codec ClusterConfig} {mr : MapRange}.

Definition lastCommittedBlockNumberKey : string := "lastCommittedBlockNumber".

Definition preCreateDBs : list string := SystemDBs ++ [DefaultDBName].

Definition Exist (l : LevelDB) (dbName : string) : bool :=
  bool_decide (is_Some (dbs l !! dbName)).

Definition ListDBs (l : LevelDB) : list string :=
  filter (fun name => name ∉ preCreateDBs) (range_keys (dbs l)).

Definition Height (l : LevelDB) : res Z :=
  match dbs l !! MetadataDBName with
  | None => Err (PlainErr "unable to retrieve the state database height due to missing metadataDB")
  | Some db =>
    match db !! lastCommittedBlockNumberKey with
    | None => Ok 0%Z
    | Some blockNumberEnc =>
      wrap_err "error while decoding the stored height"
        ('(blockNumberDec, _) ← ReadUvarint blockNumberEnc; Ok blockNumberDec)
    end
  end.

Definition Get (l : LevelDB) (dbName key : string) : res (bytes * option Metadata) :=
  match dbs l !! dbName with
  | None => Err (DBNotFoundErr dbName)
  | Some db =>
    match db !! key with
    | None => Ok ([], None)
    | Some dbval =>
      persisted ← Unmarshal dbval;
      Ok (VWM_Value persisted, VWM_Metadata persisted)
    end
  end.

Definition GetVersion (l : LevelDB) (dbName key : string) : res (option Version) :=
  '(_, metadata) ← Get l dbName key; Ok (GetVersion_of metadata).

Definition GetACL (l : LevelDB) (dbName key : string) : res (option AccessControl) :=
  '(_, metadata) ← Get l dbName key; Ok (GetAccessControl_of metadata).

(** [Has] uses the handle without checking that the database exists. *)
Definition Has (l : LevelDB) (dbName key : string) : res bool :=
  db ← deref (dbs l !! dbName); Ok (bool_decide (is_Some (db !! key))).

Definition GetConfig (l : LevelDB) : res (ClusterConfig * option Metadata) :=
  '(configSerialized, metadata) ← Get l ConfigDBName ConfigKey;
  config ← wrap_err "error while unmarshaling committed cluster configuration"
             (Unmarshal configSerialized);
  Ok (config, metadata).

Definition GetIndexDefinition (l : LevelDB) (dbName : string) : res (bytes * option Metadata) :=
  Get l DatabasesDBName dbName.

Definition sorted_entries (f : gmap string bytes) : list (string * bytes) :=
  merge_sort entry_le (map_to_list f).

Definition GetIterator (l : LevelDB) (dbName startKey endKey : string)
    : res (list (string * bytes)) :=
  match dbs l !! dbName with
  | None => Err (PlainErr ("database " +:+ dbName +:+ " does not exist"))
  | Some db => Ok (filter (fun e => in_range startKey endKey e.1 = true) (sorted_entries db))
  end.

Definition create (l : LevelDB) (dbName : string) : LevelDB :=
  match dbs l !! dbName with
  | Some _ => l
  | None => mkLevelDB (<[dbName := ∅]> (dbs l))
  end.

Definition delete_db (l : LevelDB) (dbName : string) : LevelDB :=
  match dbs l !! dbName with
  | None => l
  | Some _ => mkLevelDB (delete dbName (dbs l))
  end.

(** The batch: every write marshaled, in order, then every delete. *)
Definition batch_puts (ws : list KVWithMetadata) : res (list (string * bytes)) :=
  res_mapM (fun kv =>
    dbval ← wrap_err "failed to marshal the constructed dbValue"
              (Marshal (mkValueWithMetadata (KV_Value kv) (KV_Metadata kv)));
    Ok (KV_Key kv, dbval)) ws.

Definition write_batch (f : gmap string bytes) (puts : list (string * bytes)) (dels : list string)
    : gmap string bytes :=
  foldl (fun f k => delete k f) (foldl (fun f p => <[p.1 := p.2]> f) f puts) dels.

Definition commitToDB (l : LevelDB) (dbName : string) (db : gmap string bytes) (updates : DBUpdates)
    : LevelDB * res unit :=
  match batch_puts (Writes updates) with
  | Ok puts =>
    let l1 := mkLevelDB (<[dbName := write_batch db puts (Deletes updates)]> (dbs l)) in
    if negb (bool_decide (dbName = DatabasesDBName)) then (l1, Ok tt)
    else
      let l2 := foldl (fun l kv => create l (KV_Key kv)) l1 (Writes updates) in
      (foldl delete_db l2 (Deletes updates), Ok tt)
  | Err e => (l, Err e)
  | Panic w => (l, Panic w)
  end.

Fixpoint commit_loop (l : LevelDB) (updates : list (string * DBUpdates)) : LevelDB * res unit :=
  match updates with
  | [] => (l, Ok tt)
  | (dbName, u) :: rest =>
    match dbs l !! dbName with
    | None => (l, Err (PlainErr ("database " +:+ dbName +:+ " does not exist")))
    | Some db =>
      match commitToDB l dbName db u with
      | (l', Ok _) => commit_loop l' rest
      | r => r
      end
    end
  end.

(** The height is written in a buffer of [MaxVarintLen64] bytes. *)
Definition encode_height (blockNumber : Z) : bytes :=
  let b := PutUvarint blockNumber in b ++ replicate (MaxVarintLen64 - length b) 0%Z.

Definition Commit (l : LevelDB) (dbsUpdates : gmap string DBUpdates) (blockNumber : Z)
    : LevelDB * res unit :=
  match commit_loop l (range dbsUpdates) with
  | (l, Ok _) =>
    match dbs l !! MetadataDBName with
    | None => (l, Err (PlainErr "metadata database does not exist"))
    | Some db =>
      (mkLevelDB (<[MetadataDBName :=
         <[lastCommittedBlockNumberKey := encode_height blockNumber]> db]> (dbs l)), Ok tt)
    end
  | r => r
  end.

Definition ValidDBName (l : LevelDB) (dbName : string) : bool := allowedCharsInDBName dbName.

(** A new instance: every system database and the default one, all empty. *)
Definition openNewLevelDBInstance : LevelDB := foldl create (mkLevelDB ∅) preCreateDBs.

#[export] Instance LevelDB_WorldState : WorldState LevelDB := {|
  WorldState.Exist := Exist;
  WorldState.ListDBs := ListDBs;
  WorldState.Get := Get;
  WorldState.GetVersion := GetVersion;
  WorldState.GetACL := GetACL;
  WorldState.Has := Has;
  WorldState.GetConfig := GetConfig;
  WorldState.GetIndexDefinition := GetIndexDefinition;
  WorldState.GetIterator := GetIterator;
  WorldState.Commit := Commit;
  WorldState.Height := Height;
  WorldState.ValidDBName := ValidDBName;
|}.

(** ** The batch *)

Lemma foldl_put_lookup_ne f puts k :
  k ∉ puts.*1 → foldl (fun f p => <[p.1 := p.2]> f) f puts !! k = (f : gmap string bytes) !! k.
Proof.
  revert f. induction puts as [|[k' v] puts IH]; intros f Hk; cbn in *; [done|].
  apply not_elem_of_cons in Hk as [Hne Hk].
  rewrite IH by done. by rewrite lookup_insert_ne.
Qed.

Lemma foldl_delete_lookup (f : gmap string bytes) dels k :
  foldl (fun f k => delete k f) f dels !! k = if bool_decide (k ∈ dels) then None else f !! k.
Proof.
  revert f. induction dels as [|d dels IH]; intros f; cbn -[bool_decide]; [done|].
  rewrite IH. destruct (decide (k = d)) as [->|Hne].
  - rewrite (bool_decide_eq_true_2 (d ∈ d :: dels)) by set_solver.
    case_bool_decide; [done|]. by rewrite lookup_delete_eq.
  - rewrite lookup_delete_ne by done. do 2 case_bool_decide; set_solver.
Qed.

(** Looking up a key in the puts of a batch finds its last write. *)
Lemma batch_puts_lookup ws puts f k :
  batch_puts ws = Ok puts →
  match last_write k ws with
  | Some kv => ∃ b, foldl (fun f p => <[p.1 := p.2]> f) f puts !! k = Some b ∧
                    Unmarshal b = Ok (mkValueWithMetadata (KV_Value kv) (KV_Metadata kv))
  | None => foldl (fun f p => <[p.1 := p.2]> f) f puts !! k = (f : gmap string bytes) !! k
  end.
Proof.
  unfold last_write. revert puts f. induction ws as [|w ws IH]; intros puts f H.
  - cbn in *. inv_res. by subst.
  - apply res_mapM_cons_inv in H as (y & ys & -> & Hw & H). inv_res. subst y.
    specialize (IH _ (<[KV_Key w := x]> f) H).
    rewrite filter_cons. cbn [foldl fst snd]. destruct (decide (KV_Key w = k)) as [Hk|Hk].
    + destruct (filter (λ kv, KV_Key kv = k) ws) as [|w' ws'] eqn:Ef.
      * cbn in *. rewrite IH, Hk, lookup_insert_eq. eauto using unmarshal_marshal.
      * rewrite last_cons_cons. destruct (last (w' :: ws')) eqn:El; [done|].
        by apply last_None in El.
    + case_match; [done|]. by rewrite IH, lookup_insert_ne.
Qed.

Lemma get_write_batch l l' dbName db u puts k :
  dbs l !! dbName = Some db → batch_puts (Writes u) = Ok puts →
  dbs l' !! dbName = Some (write_batch db puts (Deletes u)) →
  Get l' dbName k = get_after (Get l dbName k) u k.
Proof.
  intros Hdb Hp Hl'. unfold Get, get_after, write_batch in *. rewrite Hl', Hdb.
  rewrite foldl_delete_lookup. case_bool_decide; [done|].
  pose proof (batch_puts_lookup _ _ db k Hp) as Hk.
  destruct (last_write k (Writes u)) as [kv|].
  - destruct Hk as (b & -> & ->). done.
  - by rewrite Hk.
Qed.

Lemma batch_puts_keys ws puts : batch_puts ws = Ok puts → puts.*1 = KV_Key <$> ws.
Proof.
  revert puts. induction ws as [|w ws IH]; intros puts H.
  - cbn in H. inv_res. by subst.
  - apply res_mapM_cons_inv in H as (y & ys & -> & Hw & H). inv_res. subst y. cbn. f_equal. by apply IH.
Qed.

Lemma foldl_put_is_Some (f : gmap string bytes) puts k :
  is_Some (foldl (fun f p => <[p.1 := p.2]> f) f puts !! k) ↔ k ∈ puts.*1 ∨ is_Some (f !! k).
Proof.
  revert f. induction puts as [|[k' v] puts IH]; intros f; cbn; [set_solver|].
  rewrite IH, lookup_insert_is_Some, elem_of_cons. destruct (decide (k' = k)); naive_solver.
Qed.

Lemma has_write_batch l l' dbName db u puts k :
  dbs l !! dbName = Some db → batch_puts (Writes u) = Ok puts →
  dbs l' !! dbName = Some (write_batch db puts (Deletes u)) →
  Has l' dbName k = has_after (Has l dbName k) u k.
Proof.
  intros Hdb Hp Hl'. unfold Has, has_after, write_batch in *. rewrite Hl', Hdb. cbn [deref mbind res_bind].
  f_equal. rewrite foldl_delete_lookup, <- (batch_puts_keys _ _ Hp).
  destruct (decide (k ∈ Deletes u)) as [Hd|Hd].
  - rewrite !(bool_decide_eq_true_2 (k ∈ Deletes u)) by done. done.
  - rewrite !(bool_decide_eq_false_2 (k ∈ Deletes u)) by done.
    rewrite (bool_decide_ext _ _ (foldl_put_is_Some db puts k)), bool_decide_or.
    by case_bool_decide.
Qed.

Lemma commitToDB_ok l l' dbName db u :
  dbName ≠ DatabasesDBName → commitToDB l dbName db u = (l', Ok tt) →
  ∃ puts, batch_puts (Writes u) = Ok puts ∧
    l' = mkLevelDB (<[dbName := write_batch db puts (Deletes u)]> (dbs l)).
Proof.
  unfold commitToDB. intros Hne H. rewrite bool_decide_eq_false_2 in H by done.
  destruct (batch_puts (Writes u)) eqn:E; cbn in H; simplify_eq; eauto.
Qed.

(** ** The commit loop over the updated databases *)

Lemma commit_loop_spec ups l l' :
  NoDup ups.*1 → DatabasesDBName ∉ ups.*1 → commit_loop l ups = (l', Ok tt) →
  ∀ db, (∀ u, (db, u) ∈ ups → ∃ f puts, dbs l !! db = Some f ∧
            batch_puts (Writes u) = Ok puts ∧
            dbs l' !! db = Some (write_batch f puts (Deletes u))) ∧
        (db ∉ ups.*1 → dbs l' !! db = dbs l !! db).
Proof.
  revert l. induction ups as [|[n u] ups IH]; intros l Hnd Hdb Hc db; cbn in *.
  { simplify_eq. split; [set_solver|done]. }
  apply NoDup_cons in Hnd as [Hn Hnd]. apply not_elem_of_cons in Hdb as [Hne Hdb].
  destruct (dbs l !! n) as [f|] eqn:Ef; [|done].
  destruct (commitToDB l n f u) as [l1 [[]| |]] eqn:E1; try done.
  apply commitToDB_ok in E1 as (puts & Hp & ->); [|done].
  destruct (IH _ Hnd Hdb Hc db) as [IH1 IH2]. split.
  - intros u' [Heq|Hin]%elem_of_cons.
    + simplify_eq. exists f, puts. rewrite IH2 by done. cbn. by rewrite lookup_insert_eq.
    + destruct (IH1 u' Hin) as (f' & puts' & Hf' & Hp' & Hl').
      exists f', puts'. split_and!; [|done..]. cbn in Hf'.
      rewrite lookup_insert_ne in Hf'; [done|].
      intros ->. apply Hn, list_elem_of_fmap. by exists (db, u').
  - intros [Hnd' Hin]%not_elem_of_cons. rewrite IH2 by done. cbn.
    by rewrite lookup_insert_ne.
Qed.

Lemma Commit_ok l l' ups n :
  Commit l ups n = (l', Ok tt) →
  ∃ l1 db, commit_loop l (range ups) = (l1, Ok tt) ∧ dbs l1 !! MetadataDBName = Some db ∧
    l' = mkLevelDB (<[MetadataDBName := <[lastCommittedBlockNumberKey := encode_height n]> db]>
                      (dbs l1)).
Proof.
  unfold Commit. intros H. destruct (commit_loop l (range ups)) as [l1 [[]| |]]; try done.
  destruct (dbs l1 !! MetadataDBName) eqn:E; simplify_eq; eauto.
Qed.

Lemma range_keys_none {V} (m : gmap string V) k : m !! k = None → k ∉ (range m).*1.
Proof.
  intros Hk Hin. change (k ∈ range_keys m) in Hin. apply elem_of_range_keys in Hin.
  destruct Hin. congruence.
Qed.

Lemma Commit_get l l' ups n db k :
  Commit l ups n = (l', Ok tt) → ups !! DatabasesDBName = None → db ≠ MetadataDBName →
  Get l' db k = match ups !! db with
                | Some u => get_after (Get l db k) u k
                | None => Get l db k
                end.
Proof.
  intros (l1 & mdb & Hc & _ & ->)%Commit_ok Hno Hm.
  destruct (commit_loop_spec _ _ _ (range_keys_NoDup ups) (range_keys_none _ _ Hno) Hc db)
    as [H1 H2].
  assert (Hl1 : Get (mkLevelDB (<[MetadataDBName:=
      <[lastCommittedBlockNumberKey:=encode_height n]> mdb]> (dbs l1))) db k = Get l1 db k).
  { unfold Get. cbn. by rewrite lookup_insert_ne. }
  rewrite Hl1. destruct (ups !! db) as [u|] eqn:Eu.
  - apply elem_of_range in Eu. destruct (H1 u Eu) as (f & puts & ? & ? & ?).
    by eapply get_write_batch.
  - unfold Get. by rewrite H2 by by apply range_keys_none.
Qed.

Lemma Commit_has l l' ups n db k :
  Commit l ups n = (l', Ok tt) → ups !! DatabasesDBName = None → db ≠ MetadataDBName →
  Has l' db k = match ups !! db with
                | Some u => has_after (Has l db k) u k
                | None => Has l db k
                end.
Proof.
  intros (l1 & mdb & Hc & _ & ->)%Commit_ok Hno Hm.
  destruct (commit_loop_spec _ _ _ (range_keys_NoDup ups) (range_keys_none _ _ Hno) Hc db)
    as [H1 H2].
  assert (Hl1 : Has (mkLevelDB (<[MetadataDBName:=
      <[lastCommittedBlockNumberKey:=encode_height n]> mdb]> (dbs l1))) db k = Has l1 db k).
  { unfold Has. cbn. by rewrite lookup_insert_ne. }
  rewrite Hl1. destruct (ups !! db) as [u|] eqn:Eu.
  - apply elem_of_range in Eu. destruct (H1 u Eu) as (f & puts & ? & ? & ?).
    by eapply has_write_batch.
  - unfold Has. by rewrite H2 by by apply range_keys_none.
Qed.

Lemma Commit_exist l l' ups n db :
  Commit l ups n = (l', Ok tt) → ups !! DatabasesDBName = None → Exist l' db = Exist l db.
Proof.
  intros (l1 & mdb & Hc & Hmdb & ->)%Commit_ok Hno.
  destruct (commit_loop_spec _ _ _ (range_keys_NoDup ups) (range_keys_none _ _ Hno) Hc db)
    as [H1 H2].
  assert (Hl1 : Exist l1 db = Exist l db).
  { unfold Exist. apply bool_decide_ext. destruct (ups !! db) as [u|] eqn:Eu.
    - apply elem_of_range in Eu. destruct (H1 u Eu) as (f & puts & -> & _ & ->).
      split; eauto.
    - by rewrite H2 by by apply range_keys_none. }
  rewrite <- Hl1. unfold Exist. apply bool_decide_ext. cbn.
  destruct (decide (db = MetadataDBName)) as [->|Hne].
  - rewrite lookup_insert_eq, Hmdb. split; eauto.
  - by rewrite lookup_insert_ne.
Qed.

Lemma Commit_height l l' ups n :
  Commit l ups n = (l', Ok tt) → (0 ≤ n < 2 ^ 64)%Z → Height l' = Ok n.
Proof.
  intros (l1 & mdb & _ & _ & ->)%Commit_ok Hn. unfold Height. cbn [dbs].
  rewrite !lookup_insert_eq. unfold encode_height. by rewrite ReadUvarint_PutUvarint.
Qed.

#[export] Instance LevelDB_laws : WorldStateLaws LevelDB.
Proof.
  constructor.
  - done.
  - done.
  - done.
  - done.
  - done.
  - intros. by eapply Commit_get.
  - intros. by eapply Commit_has.
  - intros. by eapply Commit_exist.
  - intros. by eapply Commit_height.
Qed.

End LevelDB.
End LDB.
Export (hints) LDB.
