(* ===== verification/Snapshot.v ===== *)
(** * Snapshots and iterators

    [internal/worldstate/leveldb/snapshot.go] and the iterators of
    [commit_and_query.go]: a snapshot of some databases reads as the world state
    did when it was taken.  Queries are proved against the two classes of laws
    here, which the LevelDB world state satisfies. *)

From S2P Require Import Prelude StringOrder Types WorldState LevelDB.

(** An iterator is the list of the entries it has not visited yet. *)
Definition key_lt {V} (a b : string * V) : Prop := String.ltb a.1 b.1 = true.

(** [worldstate.DBsSnapshot] *)
Class DBsSnapshot (S : Type) := {
  SnapGet : S → string → string → res (bytes * option Metadata);
  SnapGetIndexDefinition : S → string → res (bytes * option Metadata);
  SnapGetIterator : S → string → string → string → res (list (string * bytes));
}.

Class Snapshotter (D S : Type) := GetDBsSnapshot : D → list string → res S.

(** What the iterators of a world state promise. *)
Class IteratorLaws (D : Type) `{!WorldState D, !Codec ValueWithMetadata} := {
  iterator_exists : ∀ (d : D) db, Exist d db = true → is_ok (GetIterator d db "" "") = true;
  iterator_range : ∀ (d : D) db x y,
    GetIterator d db x y =
      (l ← GetIterator d db "" ""; Ok (filter (fun e => in_range x y e.1 = true) l));
  iterator_sorted : ∀ (d : D) db l, GetIterator d db "" "" = Ok l → StronglySorted key_lt l;
  iterator_has : ∀ (d : D) db l k,
    GetIterator d db "" "" = Ok l → k ∈ l.*1 ↔ Has d db k = Ok true;
  iterator_get : ∀ (d : D) db l k b,
    GetIterator d db "" "" = Ok l → (k, b) ∈ l →
    Get d db k = (p ← Unmarshal b; Ok (VWM_Value p, VWM_Metadata p));
}.

(** What a snapshot promises. *)
Class SnapshotLaws (D S : Type) `{!WorldState D, !DBsSnapshot S, !Snapshotter D S} := {
  snapshot_exists : ∀ (d : D) names,
    (∀ db, db ∈ names → Exist d db = true) → is_ok (GetDBsSnapshot (S := S) d names) = true;
  snapshot_taken : ∀ (d : D) names (s : S) db,
    GetDBsSnapshot d names = Ok s → db ∈ names → Exist d db = true;
  snapshot_get : ∀ (d : D) names (s : S) db k,
    GetDBsSnapshot d names = Ok s → db ∈ names → SnapGet s db k = Get d db k;
  snapshot_iterator : ∀ (d : D) names (s : S) db x y,
    GetDBsSnapshot d names = Ok s → db ∈ names → SnapGetIterator s db x y = GetIterator d db x y;
  snapshot_index : ∀ (s : S) db, SnapGetIndexDefinition s db = SnapGet s DatabasesDBName db;
}.

(** ** The LevelDB snapshots *)

Record Snapshots := mkSnapshots { dbSnap : gmap string (gmap string bytes) }.

Module Snap.
Section Snapshots.
Context `{!Codec ValueWithMetadata}.

Definition GetDBsSnapshot (l : LevelDB) (dbNames : list string) : res Snapshots :=
  res_foldM (fun snap dbName =>
    match dbs l !! dbName with
    | None => Err (DBNotFoundErr dbName)
    | Some db => Ok (mkSnapshots (<[dbName := db]> (dbSnap snap)))
    end) (mkSnapshots ∅) dbNames.

Definition Get (s : Snapshots) (dbName key : string) : res (bytes * option Metadata) :=
  match dbSnap s !! dbName with
  | None => Err (PlainErr (dbName +:+ " is needed to fetch the index definiton and is not snapshotted"))
  | Some lSnap =>
    match lSnap !! key with
    | None => Ok ([], None)
    | Some dbval =>
      persisted ← Unmarshal dbval;
      Ok (VWM_Value persisted, VWM_Metadata persisted)
    end
  end.

Definition GetIndexDefinition (s : Snapshots) (dbName : string) : res (bytes * option Metadata) :=
  Get s DatabasesDBName dbName.

Definition GetIterator (s : Snapshots) (dbName startKey endKey : string) : res (list (string * bytes)) :=
  match dbSnap s !! dbName with
  | None => Err (PlainErr (dbName +:+ " database is not snapshotted"))
  | Some lSnap => Ok (filter (fun e => in_range startKey endKey e.1 = true) (LDB.sorted_entries lSnap))
  end.

End Snapshots.
End Snap.

#[export] Instance leveldb_snapshot `{!Codec ValueWithMetadata} : DBsSnapshot Snapshots := {|
  SnapGet := Snap.Get;
  SnapGetIndexDefinition := Snap.GetIndexDefinition;
  SnapGetIterator := Snap.GetIterator;
|}.

#[export] Instance leveldb_snapshotter : Snapshotter LevelDB Snapshots := Snap.GetDBsSnapshot.

(** ** The laws hold *)

#[export] Instance string_le_total : Total string_le.
Proof. intros a b. unfold string_le, String.leb. rewrite (string_compare_antisym a b). destruct (String.compare a b); auto. Qed.

#[export] Instance string_le_trans : Transitive string_le.
Proof.
  intros a b c. unfold string_le. rewrite !leb_ltb, !negb_true_iff, <- !not_true_iff_false, !ltb_compare.
  intros Hab Hbc Hca. destruct (String.compare b c) eqn:E.
  - apply string_compare_eq in E as ->. done.
  - apply Hab. by eapply string_compare_lt_trans.
  - rewrite string_compare_antisym in E. destruct (String.compare c b) eqn:E'; done.
Qed.

Lemma sorted_entries_elem f k b : (k, b) ∈ LDB.sorted_entries f ↔ f !! k = Some b.
Proof. unfold LDB.sorted_entries. rewrite merge_sort_Permutation. apply elem_of_map_to_list. Qed.

(** Entries with different keys that are sorted are strictly sorted. *)
Lemma sorted_strict (l : list (string * bytes)) :
  NoDup l.*1 → StronglySorted entry_le l → StronglySorted key_lt l.
Proof.
  induction l as [|a l IH]; intros Hnd Hs; [constructor|]. cbn in Hnd.
  apply NoDup_cons in Hnd as [Ha Hnd]. apply StronglySorted_inv in Hs as [Hs Hall].
  constructor; [by apply IH|]. rewrite Forall_forall in Hall |- *. intros b Hb.
  specialize (Hall b Hb). unfold entry_le, string_le, key_lt in *.
  rewrite leb_compare in Hall. rewrite ltb_compare. destruct (String.compare a.1 b.1) eqn:E; [|done|done].
  apply string_compare_eq in E. destruct Ha. rewrite E. by apply list_elem_of_fmap_2.
Qed.

Lemma sorted_entries_sorted f : StronglySorted key_lt (LDB.sorted_entries f).
Proof.
  apply sorted_strict.
  - unfold LDB.sorted_entries. rewrite merge_sort_Permutation. apply NoDup_fst_map_to_list.
  - apply StronglySorted_merge_sort; [intros a b c; apply string_le_trans|intros a b; apply string_le_total].
Qed.

Lemma in_range_all k : in_range "" "" k = true.
Proof. done. Qed.

Lemma filter_in_range_all (l : list (string * bytes)) : filter (fun e => in_range "" "" e.1 = true) l = l.
Proof. induction l as [|e l IH]; [done|]. rewrite filter_cons_True by done. by rewrite IH. Qed.

Section Laws.
Context `{!Codec ValueWithMetadata, !Codec ClusterConfig} {mr : MapRange}.

#[export] Instance leveldb_iterator_laws : IteratorLaws LevelDB.
Proof.
  split.
  - intros d db. cbn. unfold LDB.Exist, LDB.GetIterator.
    intros [x ->]%bool_decide_eq_true. done.
  - intros d db x y. cbn. unfold LDB.GetIterator. destruct (dbs d !! db); [|done].
    cbn. by rewrite filter_in_range_all.
  - intros d db l. cbn. unfold LDB.GetIterator. destruct (dbs d !! db); [|done].
    intros [= <-]. rewrite filter_in_range_all. apply sorted_entries_sorted.
  - intros d db l k. cbn. unfold LDB.GetIterator, LDB.Has. destruct (dbs d !! db) as [f|]; [|done].
    intros [= <-]. rewrite filter_in_range_all. cbn. rewrite list_elem_of_fmap. split.
    + intros ([k' b] & -> & Hb%sorted_entries_elem). by rewrite bool_decide_eq_true_2 by (cbn; eauto).
    + intros [= [b Hb]%bool_decide_eq_true]. exists (k, b). by rewrite sorted_entries_elem.
  - intros d db l k b. cbn. unfold LDB.GetIterator, LDB.Get. destruct (dbs d !! db) as [f|]; [|done].
    intros [= <-]. rewrite filter_in_range_all, sorted_entries_elem. by intros ->.
Qed.

Lemma snapshot_lookup l names s :
  Snap.GetDBsSnapshot l names = Ok s → ∀ db, db ∈ names → is_Some (dbs l !! db) ∧ dbSnap s !! db = dbs l !! db.
Proof.
  unfold Snap.GetDBsSnapshot. intros H.
  assert (Hgen : ∀ names snap s,
    res_foldM (fun snap dbName =>
      match dbs l !! dbName with
      | None => Err (DBNotFoundErr dbName)
      | Some db => Ok (mkSnapshots (<[dbName := db]> (dbSnap snap)))
      end) snap names = Ok s →
    ∀ db, (db ∈ names → is_Some (dbs l !! db) ∧ dbSnap s !! db = dbs l !! db) ∧
          (dbSnap snap !! db = dbs l !! db → dbSnap s !! db = dbs l !! db)).
  { clear. intros names. induction names as [|n names IH]; intros snap s H db; cbn in H.
    - simplify_eq. split; [set_solver|done].
    - destruct (dbs l !! n) as [f|] eqn:Hn; [|done]. cbn in H. destruct (IH _ _ H db) as [H1 H2]. split.
      + intros [->|Hin]%elem_of_cons; [|by apply H1]. split; [by rewrite Hn|].
        apply H2. cbn. by rewrite lookup_insert_eq.
      + intros Hs. apply H2. cbn. destruct (decide (n = db)) as [->|Hne]; [by rewrite lookup_insert_eq|].
        by rewrite lookup_insert_ne. }
  intros db. apply (Hgen names _ s H db).
Qed.

Lemma snapshot_fold_ok l names snap :
  (∀ db, db ∈ names → is_Some (dbs l !! db)) →
  is_ok (res_foldM (fun snap dbName =>
      match dbs l !! dbName with
      | None => Err (DBNotFoundErr dbName)
      | Some db => Ok (mkSnapshots (<[dbName := db]> (dbSnap snap)))
      end) snap names) = true.
Proof.
  revert snap. induction names as [|n names IH]; intros snap H; cbn; [done|].
  destruct (H n ltac:(by left)) as [f ->]. cbn. apply IH. intros db Hdb. apply H. by right.
Qed.

#[export] Instance leveldb_snapshot_laws : SnapshotLaws LevelDB Snapshots.
Proof.
  split.
  - intros d names H. apply snapshot_fold_ok. intros db Hdb%H. cbn in Hdb.
    unfold LDB.Exist in Hdb. by apply bool_decide_eq_true in Hdb.
  - intros d names s db H Hdb. destruct (snapshot_lookup _ _ _ H db Hdb) as [Hf _].
    cbn. unfold LDB.Exist. by apply bool_decide_eq_true.
  - intros d names s db k H Hdb. destruct (snapshot_lookup _ _ _ H db Hdb) as [[f Hf] Hs].
    cbn. unfold Snap.Get, LDB.Get. by rewrite Hs, Hf.
  - intros d names s db x y H Hdb. destruct (snapshot_lookup _ _ _ H db Hdb) as [[f Hf] Hs].
    cbn. unfold Snap.GetIterator, LDB.GetIterator. by rewrite Hs, Hf.
  - done.
Qed.

End Laws.
