(* ===== verification/Identity.v ===== *)
(** * Identities

    The certificates of [crypto/x509] as the program uses them, the CA
    certificate collection ([pkg/certificateauthority/ca_chain.go]), the
    signature verifier ([pkg/cryptoservice/verifier.go]) and the identity
    querier ([internal/identity/querier.go]), which reads users and nodes from
    the world state through the interface of [WorldState]. *)

From S2P Require Import Prelude Types WorldState.
From Stdlib Require Import Ascii.

(** ** Certificates

    Parsing, chain building and signature checking are parameters: nothing is
    assumed of them. *)

Class X509 := {
  Certificate : Type;
  ParseCertificate : bytes → res Certificate;
  IsCA : Certificate → bool;
  SerialNumber : Certificate → Z;
  CheckSignature : Certificate → bytes → bytes → res unit;
  CheckSignatureFrom : Certificate → Certificate → res unit;
  VerifyChain : list Certificate → list Certificate → Certificate → res unit;
}.

(** ** CA certificate collection *)

Module CertAuthority.
Section CertAuthority.
Context {x509 : X509}.

Record CACertCollection := mkCACertCollection {
  roots : list Certificate;
  intermediates : list Certificate;
}.

Definition parse_ca (asn1Data : bytes) : res Certificate :=
  cert ← ParseCertificate asn1Data;
  if IsCA cert then Ok cert
  else Err (PlainErr ("certificate is missing the CA property, SN: " +:+ pretty (SerialNumber cert))).

Definition NewCACertCollection (rootCAs intermediateCAs : list bytes) : res CACertCollection :=
  rs ← res_mapM parse_ca rootCAs;
  ints ← res_mapM parse_ca intermediateCAs;
  Ok (mkCACertCollection rs ints).

Definition VerifyLeafCert (c : CACertCollection) (asn1Data : bytes) : res unit :=
  cert ← wrap_err "error parsing certificate" (ParseCertificate asn1Data);
  wrap_err "error verifying certificate against trusted certificate authority (CA)"
    (VerifyChain (roots c) (intermediates c) cert).

Definition VerifyCollection (c : CACertCollection) : res unit :=
  _ ← res_foldM (fun _ rootCert =>
        wrap_err ("root CA certificate is not self-signed, SN: " +:+ pretty (SerialNumber rootCert))
          (CheckSignatureFrom rootCert rootCert)) tt (roots c);
  res_foldM (fun _ cert =>
    wrap_err ("error verifying CA certificate against trusted certificate authority (CA), SN: "
                +:+ pretty (SerialNumber cert))
      (VerifyChain (roots c) (intermediates c) cert)) tt (roots c ++ intermediates c).

End CertAuthority.
End CertAuthority.

(** ** Querier *)

(** [string(UserNamespace)+userID] and [string(NodeNamespace)+nodeID]. *)
Definition UserNamespace : string := String "000"%char EmptyString.
Definition NodeNamespace : string := String "000"%char EmptyString.

Section Querier.
Context `{!WorldState D, !Codec User, !Codec NodeConfig} {x509 : X509}.
Implicit Types (db : D).

Definition DoesUserExist db (userID : string) : res bool :=
  wrap_err ("error while checking the existance of the userID [" +:+ userID +:+ "]")
    (Has db UsersDBName (UserNamespace +:+ userID)).

Definition GetUser db (userID : string) : res (User * option Metadata) :=
  '(val, meta) ← wrap_err ("error while fetching userID [" +:+ userID +:+ "]")
                   (Get db UsersDBName (UserNamespace +:+ userID));
  if bool_decide (val = []) then Err (UserNotFoundErr userID)
  else
    user ← wrap_err ("error while unmarshaling persisted value of userID [" +:+ userID +:+ "]")
             (Unmarshal val);
    Ok (user, meta).

Definition GetAccessControl db (userID : string) : res (option AccessControl) :=
  '(_, metadata) ← GetUser db userID; Ok (GetAccessControl_of metadata).

Definition GetCertificate db (userID : string) : res Certificate :=
  '(user, _) ← GetUser db userID; ParseCertificate (User_Certificate user).

(** [metadata.Version] dereferences the metadata. *)
Definition GetUserVersion db (userID : string) : res (option Version) :=
  '(_, metadata) ← GetUser db userID; m ← deref metadata; Ok (Metadata_Version m).

Definition hasPrivilege db (userID dbName : string) (privilege : Z) : res bool :=
  '(user, _) ← GetUser db userID;
  match User_Privilege user with
  | None => Ok false
  | Some p =>
    if Admin_priv p then Ok true
    else match DbPermission p !! dbName with
         | None => Ok false
         | Some a => Ok (Z.leb privilege a)
         end
  end.

Definition HasReadAccessOnDataDB db (userID dbName : string) : res bool :=
  hasPrivilege db userID dbName Privilege_Read.

Definition HasReadWriteAccess db (userID dbName : string) : res bool :=
  hasPrivilege db userID dbName Privilege_ReadWrite.

Definition HasAdministrationPrivilege db (userID : string) : res bool :=
  '(user, _) ← GetUser db userID;
  Ok (match User_Privilege user with Some p => Admin_priv p | None => false end).

Definition HasReadAccessOnTargetUser db (srcUser targetUser : string) : res bool :=
  acl ← GetAccessControl db targetUser;
  Ok (match acl with
      | None => true
      | Some acl => mget (ReadUsers acl) srcUser || mget (ReadWriteUsers acl) srcUser
      end).

Definition HasReadWriteAccessOnTargetUser db (srcUser targetUser : string) : res bool :=
  acl ← GetAccessControl db targetUser;
  Ok (match acl with
      | None => true
      | Some acl => mget (ReadWriteUsers acl) srcUser
      end).

Definition HasLedgerAccess db (userID : string) : res bool := DoesUserExist db userID.

Definition GetNode db (nodeID : string) : res (NodeConfig * option Metadata) :=
  '(val, meta) ← wrap_err ("error while fetching nodeID [" +:+ nodeID +:+ "]")
                   (Get db ConfigDBName (NodeNamespace +:+ nodeID));
  if bool_decide (val = []) then Err (UserNotFoundErr nodeID)
  else
    node ← wrap_err ("error while unmarshaling persisted value of nodeID [" +:+ nodeID +:+ "]")
             (Unmarshal val);
    Ok (node, meta).

Definition GetNodeVersion db (nodeID : string) : res (option Version) :=
  '(_, metadata) ← GetNode db nodeID; m ← deref metadata; Ok (Metadata_Version m).

(** ** Signature verification ([pkg/cryptoservice/verifier.go]) *)

Definition SignatureVerify db (userID : string) (signature body : bytes) : res unit :=
  cert ← GetCertificate db userID; CheckSignature cert body signature.

End Querier.
