(* ===== verification/Validation.v ===== *)
(** * Validation results

    The shape every validator of [internal/txvalidation] shares: a check returns
    a [ValidationInfo] and an error, and the caller goes on only when the error
    is nil and the flag is [VALID].  Also the signature check of
    [sig_validator.go], shared by the four validators. *)

From S2P Require Import Prelude Types WorldState Identity.

Definition valid : ValidationInfo := mkValidationInfo VALID "".

Definition invalid (f : Flag) (reason : string) : ValidationInfo := mkValidationInfo f reason.

Definition is_valid (r : ValidationInfo) : bool := bool_decide (VI_Flag r = VALID).

(** [r, err := m; if err != nil || r.Flag != VALID { return r, err }; k] *)
Definition andthen (m k : res ValidationInfo) : res ValidationInfo :=
  r ← m; if is_valid r then k else Ok r.

Declare Scope orion_scope.
Delimit Scope orion_scope with orion.
Notation "m ;;? k" := (andthen m k) (at level 100, right associativity) : orion_scope.
Open Scope orion_scope.

(** [for _, x := range l { r, err := f(x); ... }; return VALID] *)
Fixpoint for_valid {A} (f : A → res ValidationInfo) (l : list A) : res ValidationInfo :=
  match l with
  | [] => Ok valid
  | x :: l => f x ;;? for_valid f l
  end.

Lemma is_valid_spec r : is_valid r = true ↔ VI_Flag r = VALID.
Proof. apply bool_decide_eq_true. Qed.

Lemma is_valid_valid : is_valid valid = true.
Proof. done. Qed.

(** [passes m]: the check ran and let the transaction through. *)
Definition passes (m : res ValidationInfo) : Prop := ∃ r, m = Ok r ∧ VI_Flag r = VALID.

#[export] Instance passes_dec m : Decision (passes m).
Proof.
  refine (match m with
          | Ok r => cast_if (decide (VI_Flag r = VALID))
          | _ => right _
          end); unfold passes; naive_solver.
Defined.

Lemma passes_ok r : passes (Ok r) ↔ VI_Flag r = VALID.
Proof. unfold passes. naive_solver. Qed.

Lemma passes_valid : passes (Ok valid).
Proof. by apply passes_ok. Qed.

Lemma passes_err e : ¬ passes (Err e).
Proof. by intros (? & ? & _). Qed.

Lemma passes_andthen m k : passes (m ;;? k) ↔ passes m ∧ passes k.
Proof.
  unfold andthen. destruct m as [r|e|w]; cbn.
  - rewrite passes_ok, <- is_valid_spec. destruct (is_valid r) eqn:E; [intuition|].
    rewrite passes_ok, <- is_valid_spec. intuition congruence.
  - split; [by intros ?%passes_err|]. by intros [?%passes_err _].
  - split; [|intros [H _]]; unfold passes in *; naive_solver.
Qed.

Lemma passes_bind {A} (m : res A) k :
  passes (m ≫= k) ↔ ∃ a, m = Ok a ∧ passes (k a).
Proof.
  destruct m; cbn; unfold passes; naive_solver.
Qed.

Lemma passes_if (b : bool) m n : passes (if b then m else n) ↔ (b = true ∧ passes m) ∨ (b = false ∧ passes n).
Proof. destruct b; naive_solver. Qed.

Lemma passes_for_valid {A} (f : A → res ValidationInfo) l :
  passes (for_valid f l) ↔ ∀ x, x ∈ l → passes (f x).
Proof.
  induction l as [|x l IH]; cbn.
  - split; [set_solver|]. intros _. apply passes_valid.
  - rewrite passes_andthen, IH. set_solver.
Qed.

Lemma passes_wrap_err msg m : passes (wrap_err msg m) ↔ passes m.
Proof. destruct m; cbn; unfold passes; naive_solver. Qed.

Lemma passes_for_deref {A} (f : A → res ValidationInfo) (l : list (option A)) :
  passes (for_valid (fun w => w ← deref w; f w) l) ↔ None ∉ l ∧ ∀ x, x ∈ omap id l → passes (f x).
Proof.
  rewrite passes_for_valid. setoid_rewrite elem_of_omap_id. split.
  - intros H. split.
    + intros Hn. destruct (H None Hn) as (? & ? & _). done.
    + intros x Hx. apply (H (Some x) Hx).
  - intros [Hn H] [x|] Hx; [by apply H|done].
Qed.

(** Flags other than [VALID] never pass. *)
Lemma passes_invalid f r : f ≠ VALID → ¬ passes (Ok (invalid f r)).
Proof. intros Hf ?%passes_ok. done. Qed.

(** Split a [passes] hypothesis along the structure of the validator. *)
Ltac inv_passes :=
  repeat match goal with
  | H : passes (_ ;;? _) |- _ => apply passes_andthen in H as [? H]
  | H : passes (for_valid _ _) |- _ => rewrite passes_for_valid in H
  | H : passes (_ ≫= _) |- _ => apply passes_bind in H as (? & ? & H); cbn beta in H
  | H : passes (wrap_err _ _) |- _ => rewrite passes_wrap_err in H
  | H : passes (Ok (invalid _ _)) |- _ => by apply passes_invalid in H
  | H : passes (Err _) |- _ => by apply passes_err in H
  end.

(** ** Signatures ([sig_validator.go]) *)

(** The JSON form of a transaction payload that its submitter signs
    ([marshal.DefaultMarshaler]). *)
Class TxMarshal (A : Type) := marshalTx : A → res bytes.

Section SigValidator.
Context `{!WorldState D, !Codec User} {x509 : X509}.

Definition sig_validate `{!TxMarshal A} (db : D) (user : string) (signature : bytes) (txPayload : A)
    : res ValidationInfo :=
  requestBytes ← wrap_err "failed to Marshal Tx" (marshalTx txPayload);
  match SignatureVerify db user signature requestBytes with
  | Ok _ => Ok valid
  | Err e => Ok (invalid INVALID_UNAUTHORISED ("signature verification failed: " +:+ Error e))
  | Panic w => Panic w
  end.

(** [signed_by db user sig tx]: the signature verifies under the certificate the
    world state holds for the user. *)
Definition signed_by `{!TxMarshal A} (db : D) (user : string) (signature : bytes) (txPayload : A) : Prop :=
  ∃ body, marshalTx txPayload = Ok body ∧ SignatureVerify db user signature body = Ok tt.

Lemma passes_sig_validate `{!TxMarshal A} (db : D) user sig (tx : A) :
  passes (sig_validate db user sig tx) ↔ signed_by db user sig tx.
Proof.
  unfold sig_validate, signed_by. split.
  - intros H. inv_passes. inv_res. exists x. split; [done|].
    destruct (SignatureVerify _ _ _ _) as [[]|e|w]; [done| |].
    + by apply passes_invalid in H.
    + by destruct H as (? & ? & _).
  - intros (body & -> & Hv). cbn. rewrite Hv. apply passes_valid.
Qed.

End SigValidator.
