(* ===== verification/DataTxValidator.v ===== *)
(** * Data transactions

    [internal/txvalidation/data_tx_validator.go] and the pending operations of
    [validator.go]: every check a data transaction goes through, in the order
    the code makes them. *)

From S2P Require Import Prelude Types WorldState Identity Validation.
From Stdlib Require Import Ascii.

(** ** Pending operations of the block *)

Record pendingOperations := mkPendingOperations {
  pendingWrites : gset string;
  pendingDeletes : gset string;
}.

Definition newPendingOperations : pendingOperations := mkPendingOperations ∅ ∅.

(** [dbName + "~" + key] *)
Definition constructCompositeKey (dbName key : string) : string :=
  dbName +:+ String "~"%char key.

Definition addWrite (p : pendingOperations) (dbName key : string) : pendingOperations :=
  mkPendingOperations ({[constructCompositeKey dbName key]} ∪ pendingWrites p) (pendingDeletes p).

Definition addDelete (p : pendingOperations) (dbName key : string) : pendingOperations :=
  mkPendingOperations (pendingWrites p) ({[constructCompositeKey dbName key]} ∪ pendingDeletes p).

Definition existDelete (p : pendingOperations) (dbName key : string) : bool :=
  bool_decide (constructCompositeKey dbName key ∈ pendingDeletes p).

Definition exist (p : pendingOperations) (dbName key : string) : bool :=
  bool_decide (constructCompositeKey dbName key ∈ pendingWrites p) ||
  bool_decide (constructCompositeKey dbName key ∈ pendingDeletes p).

Section DataTxValidator.
Context `{!WorldState D, !Codec User, !TxMarshal DataTx} {x509 : X509} {mr : MapRange}.
Implicit Types (db : D).

(** ** Signatures *)

Fixpoint validateSignatures_loop db (txEnv : DataTxEnvelope) (sigs : list (string * bytes))
    (userIDsWithValidSign : list string) : res (list string * ValidationInfo) :=
  match sigs with
  | [] => Ok (userIDsWithValidSign, valid)
  | (userID, signature) :: sigs =>
    valRes ← sig_validate db userID signature (DEnv_Payload txEnv);
    if is_valid valRes then
      validateSignatures_loop db txEnv sigs (userIDsWithValidSign ++ [userID])
    else if bool_decide (userID ∈ MustSignUserIds (DEnv_Payload txEnv)) then
      Ok ([], invalid INVALID_UNAUTHORISED
                ("signature of the must sign user [" +:+ userID +:+
                 "] is not valid (maybe the certificate got changed)"))
    else validateSignatures_loop db txEnv sigs userIDsWithValidSign
  end.

Definition validateSignatures db (txEnv : DataTxEnvelope) : res (list string * ValidationInfo) :=
  validateSignatures_loop db txEnv (range (Signatures txEnv)) [].

(** ** Database names *)

Definition validateDBName db (dbName : string) : res ValidationInfo :=
  if negb (ValidDBName db dbName) then
    Ok (invalid INVALID_INCORRECT_ENTRIES ("the database name [" +:+ dbName +:+ "] is not valid"))
  else if negb (Exist db dbName) then
    Ok (invalid INVALID_DATABASE_DOES_NOT_EXIST
          ("the database [" +:+ dbName +:+ "] does not exist in the cluster"))
  else if IsSystemDB dbName then
    Ok (invalid INVALID_NO_PERMISSION
          ("the database [" +:+ dbName +:+ "] is a system database and no user can write to a " +:+
           "system database via data transaction. Use appropriate transaction type to modify the system database"))
  else Ok valid.

(** ** Fields of the writes *)

(** The users of an ACL that were not found to exist yet ([userToCheck]). *)
Definition userToCheck (acl : AccessControl) (existingUser : gset string) : gmap string unit :=
  gset_to_gmap tt ((dom (ReadUsers acl) ∪ dom (ReadWriteUsers acl)) ∖ existingUser).

(** The inner loop: all of [users] exist; returns the users known to exist. *)
Fixpoint checkACLUsers db (key : string) (users : list string) (existingUser : gset string)
    : res (ValidationInfo * gset string) :=
  match users with
  | [] => Ok (valid, existingUser)
  | user :: users =>
    ex ← wrap_err "error while validating access control definition" (DoesUserExist db user);
    if ex : bool then checkACLUsers db key users ({[user]} ∪ existingUser)
    else Ok (invalid INVALID_INCORRECT_ENTRIES
               ("the user [" +:+ user +:+ "] defined in the access control for the key [" +:+ key +:+
                "] does not exist"), existingUser)
  end.

Fixpoint validateFieldsInDataWrites_loop db (writes : list (option DataWrite))
    (existingUser : gset string) : res ValidationInfo :=
  match writes with
  | [] => Ok valid
  | None :: _ => Ok (invalid INVALID_INCORRECT_ENTRIES "there is an empty entry in the write list")
  | Some w :: writes =>
    match DW_Acl w with
    | None => validateFieldsInDataWrites_loop db writes existingUser
    | Some acl =>
      '(r, existingUser') ←
         checkACLUsers db (DW_Key w) (range_keys (userToCheck acl existingUser)) existingUser;
      if is_valid r then validateFieldsInDataWrites_loop db writes existingUser' else Ok r
    end
  end.

Definition validateFieldsInDataWrites db (writes : list (option DataWrite)) : res ValidationInfo :=
  validateFieldsInDataWrites_loop db writes ∅.

(** ** Fields of the deletes *)

Definition validateFieldsInDataDeletes db (dbName : string) (dataDeletes : list (option DataDelete))
    (pendingOps : pendingOperations) : res ValidationInfo :=
  for_valid (fun d =>
    match d with
    | None => Ok (invalid INVALID_INCORRECT_ENTRIES "there is an empty entry in the delete list")
    | Some d =>
      if existDelete pendingOps dbName (DD_Key d) then
        Ok (invalid INVALID_MVCC_CONFLICT_WITHIN_BLOCK
              ("the key [" +:+ DD_Key d +:+ "] is already deleted by some previous transaction in the block"))
      else
        '(val, metadata) ← wrap_err "error while validating delete entries" (Get db dbName (DD_Key d));
        if bool_decide (val = []) && bool_decide (metadata = None) then
          Ok (invalid INVALID_INCORRECT_ENTRIES
                ("the key [" +:+ DD_Key d +:+ "] does not exist in the database and hence, it cannot be deleted"))
        else Ok valid
    end) dataDeletes.

(** ** Uniqueness of the keys *)

Fixpoint uniqueWrites (writes : list (option DataWrite)) (writeKeys : gset string)
    : res (ValidationInfo * gset string) :=
  match writes with
  | [] => Ok (valid, writeKeys)
  | w :: writes =>
    w ← deref w;
    if bool_decide (DW_Key w ∈ writeKeys) then
      Ok (invalid INVALID_INCORRECT_ENTRIES
            ("the key [" +:+ DW_Key w +:+ "] is duplicated in the write list. The keys in the write list must be unique"),
          writeKeys)
    else uniqueWrites writes ({[DW_Key w]} ∪ writeKeys)
  end.

Fixpoint uniqueDeletes (deletes : list (option DataDelete)) (writeKeys deleteKeys : gset string)
    : res ValidationInfo :=
  match deletes with
  | [] => Ok valid
  | d :: deletes =>
    d ← deref d;
    if bool_decide (DD_Key d ∈ deleteKeys) then
      Ok (invalid INVALID_INCORRECT_ENTRIES
            ("the key [" +:+ DD_Key d +:+ "] is duplicated in the delete list. The keys in the delete list must be unique"))
    else if bool_decide (DD_Key d ∈ writeKeys) then
      Ok (invalid INVALID_INCORRECT_ENTRIES
            ("the key [" +:+ DD_Key d +:+ "] is being updated as well as deleted. Only one operation per key is allowed within a transaction"))
    else uniqueDeletes deletes writeKeys ({[DD_Key d]} ∪ deleteKeys)
  end.

Definition validateUniquenessInDataWritesAndDeletes (dataWrites : list (option DataWrite))
    (dataDeletes : list (option DataDelete)) : res ValidationInfo :=
  '(r, writeKeys) ← uniqueWrites dataWrites ∅;
  if is_valid r then uniqueDeletes dataDeletes writeKeys ∅ else Ok r.

(** ** Access control *)

Definition validateACLOnDataReads db (userIDs : list string) (dbName : string) (reads : list DataRead)
    : res ValidationInfo :=
  for_valid (fun r =>
    acl ← wrap_err ("error while validating ACL on the key [" +:+ DR_Key r +:+ "] in the reads")
            (GetACL db dbName (DR_Key r));
    match acl with
    | None => Ok valid
    | Some acl =>
      if existsb (fun userID => mget (ReadUsers acl) userID || mget (ReadWriteUsers acl) userID) userIDs
      then Ok valid
      else Ok (invalid INVALID_NO_PERMISSION
                 ("none of the user in [" +:+ strings_join userIDs "," +:+
                  "] has a read permission on key [" +:+ DR_Key r +:+
                  "] present in the database [" +:+ dbName +:+ "]"))
    end) reads.

Definition validateACLForWriteOrDelete db (userIDs : list string) (dbName key : string)
    : res ValidationInfo :=
  acl ← GetACL db dbName key;
  match acl with
  | None => Ok valid
  | Some acl =>
    if bool_decide (ReadWriteUsers acl = ∅) then
      Ok (invalid INVALID_NO_PERMISSION ("no user can write or delete the key [" +:+ key +:+ "]"))
    else
      match SignPolicyForWrite acl with
      | AccessControl_ANY =>
        if existsb (fun userID => mget (ReadWriteUsers acl) userID) userIDs then Ok valid
        else Ok (invalid INVALID_NO_PERMISSION
                   ("none of the user in [" +:+ strings_join userIDs "," +:+
                    "] has a write/delete permission on key [" +:+ key +:+
                    "] present in the database [" +:+ dbName +:+ "]"))
      | AccessControl_ALL =>
        for_valid (fun targetUserID =>
          if bool_decide (targetUserID ∈ userIDs) then Ok valid
          else Ok (invalid INVALID_NO_PERMISSION
                     ("not all required users in [" +:+
                      strings_join (sort_strings (range_keys (ReadWriteUsers acl))) "," +:+
                      "] have signed the transaction to write/delete key [" +:+ key +:+
                      "] present in the database [" +:+ dbName +:+ "]")))
          (range_keys (ReadWriteUsers acl))
      | AccessControl_Unknown _ => Ok valid
      end
  end.

Definition validateACLOnDataWrites db (userIDs : list string) (dbName : string)
    (writes : list (option DataWrite)) : res ValidationInfo :=
  for_valid (fun w => w ← deref w; validateACLForWriteOrDelete db userIDs dbName (DW_Key w)) writes.

Definition validateACLOnDataDeletes db (userIDs : list string) (dbName : string)
    (deletes : list (option DataDelete)) : res ValidationInfo :=
  for_valid (fun d => d ← deref d; validateACLForWriteOrDelete db userIDs dbName (DD_Key d)) deletes.

(** ** MVCC *)

Definition mvccValidation db (dbName : string) (txOps : DBOperation) (pendingOps : pendingOperations)
    : res ValidationInfo :=
  for_valid (fun r =>
    if exist pendingOps dbName (DR_Key r) then
      Ok (invalid INVALID_MVCC_CONFLICT_WITHIN_BLOCK
            ("mvcc conflict has occurred within the block for the key [" +:+ DR_Key r +:+
             "] in database [" +:+ dbName +:+ "]"))
    else
      committedVersion ← GetVersion db dbName (DR_Key r);
      if bool_decide (DR_Version r = committedVersion) then Ok valid
      else Ok (invalid INVALID_MVCC_CONFLICT_WITH_COMMITTED_STATE
                 ("mvcc conflict has occurred as the committed state for the key [" +:+ DR_Key r +:+
                  "] in database [" +:+ dbName +:+ "] changed"))) (DataReads txOps) ;;?
  for_valid (fun w =>
    w ← deref w;
    if exist pendingOps dbName (DW_Key w) then
      Ok (invalid INVALID_MVCC_CONFLICT_WITHIN_BLOCK
            ("mvcc conflict has occurred within the block for the key [" +:+ DW_Key w +:+
             "] in database [" +:+ dbName +:+ "]. Within a block, a key can be modified only once"))
    else Ok valid) (DataWrites txOps) ;;?
  for_valid (fun d =>
    d ← deref d;
    if exist pendingOps dbName (DD_Key d) then
      Ok (invalid INVALID_MVCC_CONFLICT_WITHIN_BLOCK
            ("mvcc conflict has occurred within the block for the key [" +:+ DD_Key d +:+
             "] in database [" +:+ dbName +:+ "]. Within a block, a key can be modified only once"))
    else Ok valid) (DataDeletes txOps).

(** ** One database of the transaction *)

Definition validateOps db (userIDs : list string) (txOps : DBOperation) (pendingOps : pendingOperations)
    : res ValidationInfo :=
  let dbName := DbName txOps in
  validateFieldsInDataWrites db (DataWrites txOps) ;;?
  validateFieldsInDataDeletes db dbName (DataDeletes txOps) pendingOps ;;?
  validateUniquenessInDataWritesAndDeletes (DataWrites txOps) (DataDeletes txOps) ;;?
  validateACLOnDataReads db userIDs dbName (DataReads txOps) ;;?
  validateACLOnDataWrites db userIDs dbName (DataWrites txOps) ;;?
  validateACLOnDataDeletes db userIDs dbName (DataDeletes txOps) ;;?
  mvccValidation db dbName txOps pendingOps.

(** ** The transaction *)

Fixpoint uniqueDBs (ops : list DBOperation) (seen : gset string) : res ValidationInfo :=
  match ops with
  | [] => Ok valid
  | o :: ops =>
    if bool_decide (DbName o ∈ seen) then
      Ok (invalid INVALID_INCORRECT_ENTRIES
            ("the database [" +:+ DbName o +:+
             "] occurs more than once in the operations. The database present in the operations should be unique"))
    else uniqueDBs ops ({[DbName o]} ∪ seen)
  end.

(** The users of the list that have read-write access to the database. *)
Fixpoint usersWithDBAccess db (dbName : string) (userIDs : list string) : res (list string) :=
  match userIDs with
  | [] => Ok []
  | userID :: userIDs =>
    hasPerm ← HasReadWriteAccess db userID dbName;
    rest ← usersWithDBAccess db dbName userIDs;
    Ok (if hasPerm : bool then userID :: rest else rest)
  end.

Definition validateDBOperation db (userIDsWithValidSign : list string) (pendingOps : pendingOperations)
    (ops : DBOperation) : res ValidationInfo :=
  validateDBName db (DbName ops) ;;?
  (let userIDs := sort_strings userIDsWithValidSign in
   users ← usersWithDBAccess db (DbName ops) userIDs;
   if bool_decide (users = []) then
     Ok (invalid INVALID_NO_PERMISSION
           ("none of the user in [" +:+ strings_join userIDs ", " +:+
            "] has read-write permission on the database [" +:+ DbName ops +:+ "]"))
   else validateOps db users ops pendingOps).

Definition dataTx_validate db (txEnv : DataTxEnvelope) (userIDsWithValidSign : list string)
    (pendingOps : pendingOperations) : res ValidationInfo :=
  uniqueDBs (DbOperations (DEnv_Payload txEnv)) ∅ ;;?
  for_valid (validateDBOperation db userIDsWithValidSign pendingOps)
    (DbOperations (DEnv_Payload txEnv)).

End DataTxValidator.
