(* ===== verification/DataTxProofs.v ===== *)
(** * What a valid data transaction is

    The declarative reading of the checks of [DataTxValidator] and the proof
    that the validator accepts exactly the transactions it describes. *)

From S2P Require Import Prelude Types WorldState Identity Validation DataTxValidator.

(** Keys a database operation writes or deletes. *)
Definition write_keys (o : DBOperation) : list string :=
  DW_Key <$> omap id (DataWrites o).
Definition delete_keys (o : DBOperation) : list string :=
  DD_Key <$> omap id (DataDeletes o).
Definition modified_keys (o : DBOperation) : list string := write_keys o ++ delete_keys o.

Section DataTxProofs.
Context `{!WorldState D, !Codec User, !TxMarshal DataTx} {x509 : X509} {mr : MapRange}.
Implicit Types (db : D).

(** ** Specification *)

(** A key may be written or deleted by a set of users of its database. *)
Definition write_allowed db (users : list string) (dbName key : string) : Prop :=
  ∃ acl, GetACL db dbName key = Ok acl ∧
    match acl with
    | None => True
    | Some acl =>
      ReadWriteUsers acl ≠ ∅ ∧
      match SignPolicyForWrite acl with
      | AccessControl_ANY => ∃ u, u ∈ users ∧ mget (ReadWriteUsers acl) u = true
      | AccessControl_ALL => ∀ u, is_Some (ReadWriteUsers acl !! u) → u ∈ users
      | AccessControl_Unknown _ => True
      end
    end.

Definition read_allowed db (users : list string) (dbName key : string) : Prop :=
  ∃ acl, GetACL db dbName key = Ok acl ∧
    match acl with
    | None => True
    | Some acl => ∃ u, u ∈ users ∧ (mget (ReadUsers acl) u = true ∨ mget (ReadWriteUsers acl) u = true)
    end.

(** The users an ACL names exist. *)
Definition acl_users_exist db (acl : AccessControl) : Prop :=
  ∀ u, is_Some (ReadUsers acl !! u) ∨ is_Some (ReadWriteUsers acl !! u) → DoesUserExist db u = Ok true.

(** A key of the committed state: its value or its metadata is not nil. *)
Definition key_exists db (dbName key : string) : Prop :=
  ∃ val meta, Get db dbName key = Ok (val, meta) ∧ ¬ (val = [] ∧ meta = None).

Record db_ok db (dbName : string) : Prop := {
  db_name_valid : ValidDBName db dbName = true;
  db_exists : Exist db dbName = true;
  db_not_system : IsSystemDB dbName = false;
}.

(** The operations of a transaction on one database, with the users that signed
    it and have read-write access to that database, and the keys deleted and
    modified by the transactions before it in the block. *)
Record op_ok db (users : list string) (deleted modified : string → string → Prop) (o : DBOperation) : Prop := {
  op_writes : ∀ w, w ∈ DataWrites o →
    ∃ w', w = Some w' ∧ ∀ acl, DW_Acl w' = Some acl → acl_users_exist db acl;
  op_deletes : ∀ d, d ∈ DataDeletes o →
    ∃ d', d = Some d' ∧ ¬ deleted (DbName o) (DD_Key d') ∧
          key_exists db (DbName o) (DD_Key d');
  op_unique : NoDup (modified_keys o);
  op_reads_allowed : ∀ r, r ∈ DataReads o → read_allowed db users (DbName o) (DR_Key r);
  op_writes_allowed : ∀ k, k ∈ modified_keys o → write_allowed db users (DbName o) k;
  op_reads_current : ∀ r, r ∈ DataReads o →
    ¬ modified (DbName o) (DR_Key r) ∧ GetVersion db (DbName o) (DR_Key r) = Ok (DR_Version r);
  op_no_conflict : ∀ k, k ∈ modified_keys o → ¬ modified (DbName o) k;
}.

Record data_tx_ok db (env : DataTxEnvelope) (users : list string)
    (deleted modified : string → string → Prop) : Prop := {
  tx_dbs_unique : NoDup (DbName <$> DbOperations (DEnv_Payload env));
  tx_ops : ∀ o, o ∈ DbOperations (DEnv_Payload env) →
    db_ok db (DbName o) ∧
    ∃ accessors, accessors ≠ [] ∧ op_ok db accessors deleted modified o ∧
      (∀ u, u ∈ accessors ↔ u ∈ users ∧ HasReadWriteAccess db u (DbName o) = Ok true) ∧
      (∀ u, u ∈ users → is_ok (HasReadWriteAccess db u (DbName o)) = true);
}.

(** The keys deleted and modified, as the pending operations record them. *)
Definition pend_del (p : pendingOperations) (n k : string) : Prop := existDelete p n k = true.
Definition pend_mod (p : pendingOperations) (n k : string) : Prop := exist p n k = true.

(** ** Each check *)

Lemma passes_validateDBName db n : passes (validateDBName db n) ↔ db_ok db n.
Proof.
  unfold validateDBName. split.
  - intros H. destruct (ValidDBName db n) eqn:E1; cbn in H; [|inv_passes].
    destruct (Exist db n) eqn:E2; cbn in H; [|inv_passes].
    destruct (IsSystemDB n) eqn:E3; [inv_passes|]. by split.
  - intros [-> -> ->]. apply passes_valid.
Qed.

Lemma checkACLUsers_valid db key users ex r ex' :
  checkACLUsers db key users ex = Ok (r, ex') → VI_Flag r = VALID →
  (∀ u, u ∈ users → DoesUserExist db u = Ok true) ∧ ex' = list_to_set users ∪ ex.
Proof.
  revert ex. induction users as [|u users IH]; intros ex H Hr; cbn in H.
  - simplify_eq. split; set_solver.
  - inv_res. destruct x.
    + destruct (IH _ H Hr) as [Hu ->]. split; [set_solver|]. cbn. set_solver.
    + injection H as <- <-. done.
Qed.

Lemma checkACLUsers_complete db key users ex :
  (∀ u, u ∈ users → DoesUserExist db u = Ok true) →
  checkACLUsers db key users ex = Ok (valid, list_to_set users ∪ ex).
Proof.
  revert ex. induction users as [|u users IH]; intros ex H; cbn.
  - do 2 f_equal. set_solver.
  - rewrite H by set_solver. cbn. rewrite IH by set_solver. do 2 f_equal. set_solver.
Qed.

Lemma elem_of_userToCheck acl ex u :
  u ∈ range_keys (userToCheck acl ex) ↔
  (is_Some (ReadUsers acl !! u) ∨ is_Some (ReadWriteUsers acl !! u)) ∧ u ∉ ex.
Proof.
  rewrite elem_of_range_keys. unfold userToCheck.
  rewrite <- elem_of_dom, dom_gset_to_gmap. rewrite <- !elem_of_dom. set_solver.
Qed.

Lemma passes_fields_writes_loop db ws (ex : gset string) :
  (∀ u, u ∈ ex → DoesUserExist db u = Ok true) →
  passes (validateFieldsInDataWrites_loop db ws ex) ↔
  ∀ w, w ∈ ws → ∃ w', w = Some w' ∧ ∀ acl, DW_Acl w' = Some acl → acl_users_exist db acl.
Proof.
  revert ex. induction ws as [|[w|] ws IH]; intros ex Hex; cbn.
  - split; [set_solver|]. intros _. apply passes_valid.
  - destruct (DW_Acl w) as [acl|] eqn:Ea.
    + split.
      * intros H. inv_passes. destruct x as [r ex']. destruct (is_valid r) eqn:Er.
        -- apply is_valid_spec in Er.
           destruct (checkACLUsers_valid _ _ _ _ _ _ H0 Er) as [Hu ->].
           assert (Hall : acl_users_exist db acl).
           { intros u Hin. destruct (decide (u ∈ ex)); [by apply Hex|].
             apply Hu, elem_of_userToCheck. done. }
           rewrite IH in H by set_solver.
           intros w0 [->|?]%elem_of_cons; [|by apply H]. exists w. naive_solver.
        -- apply passes_ok, is_valid_spec in H. congruence.
      * intros H. destruct (H (Some w)) as (w' & [= <-] & Hacl); [set_solver|].
        specialize (Hacl acl Ea).
        rewrite checkACLUsers_complete.
        2:{ intros u [Hu _]%elem_of_userToCheck. by apply Hacl. }
        cbn. apply IH; [|set_solver].
        intros u [Hu|Hu]%elem_of_union; [|by apply Hex].
        apply elem_of_list_to_set, elem_of_userToCheck in Hu as [Hu _]. by apply Hacl.
    + rewrite IH by done. split.
      * intros H w0 [->|?]%elem_of_cons; [|by apply H]. exists w. naive_solver.
      * set_solver.
  - split; [intros H; inv_passes|]. intros H.
    destruct (H None) as (? & ? & _); [set_solver|done].
Qed.

Lemma passes_fields_deletes db n ds p :
  passes (validateFieldsInDataDeletes db n ds p) ↔
  ∀ d, d ∈ ds → ∃ d', d = Some d' ∧ ¬ pend_del p n (DD_Key d') ∧ key_exists db n (DD_Key d').
Proof.
  unfold pend_del. setoid_rewrite not_true_iff_false.
  unfold validateFieldsInDataDeletes. rewrite passes_for_valid.
  apply forall_proper; intros [d|]; [|split; intros H Hin; [specialize (H Hin); inv_passes|naive_solver]].
  split; intros H Hin; specialize (H Hin).
  - exists d. destruct (existDelete p n (DD_Key d)) eqn:E; [inv_passes|].
    inv_passes. inv_res. destruct x as [val meta].
    destruct (bool_decide (val = []) && bool_decide (meta = None)) eqn:Eb; [inv_passes|].
    split_and!; try done. exists val, meta. split; [done|]. intros [-> ->]. done.
  - destruct H as (d' & [= <-] & -> & val & meta & -> & Hne). cbn.
    rewrite (proj2 (andb_false_iff _ _)); [apply passes_valid|].
    rewrite !bool_decide_eq_false. destruct (decide (val = [])); [|by left].
    right. naive_solver.
Qed.

Lemma uniqueWrites_valid ws (S S' : gset string) r :
  uniqueWrites ws S = Ok (r, S') → VI_Flag r = VALID →
  None ∉ ws ∧ NoDup (DW_Key <$> omap id ws) ∧
  (∀ k, k ∈ DW_Key <$> omap id ws → k ∉ S) ∧ S' = list_to_set (DW_Key <$> omap id ws) ∪ S.
Proof.
  revert S. induction ws as [|w ws IH]; intros S H Hr; cbn in H.
  - simplify_eq. split_and!; cbn; [set_solver|constructor|set_solver|set_solver].
  - inv_res. subst w. case_bool_decide as Hin; [by injection H as <- <-|].
    destruct (IH _ H Hr) as (Hn & Hnd & Hdis & ->). cbn.
    split_and!; [set_solver| |set_solver|set_solver].
    constructor; [|done]. intros Hk. apply Hdis in Hk. set_solver.
Qed.

Lemma uniqueWrites_complete ws (S : gset string) :
  None ∉ ws → NoDup (DW_Key <$> omap id ws) → (∀ k, k ∈ DW_Key <$> omap id ws → k ∉ S) →
  uniqueWrites ws S = Ok (valid, list_to_set (DW_Key <$> omap id ws) ∪ S).
Proof.
  revert S. induction ws as [|[w|] ws IH]; intros S Hn Hnd Hdis; cbn in *; [| |set_solver].
  - do 2 f_equal. set_solver.
  - apply NoDup_cons in Hnd as [Hk Hnd]. rewrite bool_decide_eq_false_2 by set_solver.
    rewrite IH; [do 2 f_equal; set_solver|set_solver|done|set_solver].
Qed.

Lemma passes_uniqueDeletes ds (W S : gset string) :
  passes (uniqueDeletes ds W S) ↔
  None ∉ ds ∧ NoDup (DD_Key <$> omap id ds) ∧ ∀ k, k ∈ DD_Key <$> omap id ds → k ∉ W ∧ k ∉ S.
Proof.
  revert S. induction ds as [|[d|] ds IH]; intros S; cbn.
  - split; intros _; [|apply passes_valid]. split_and!; [set_solver|constructor|set_solver].
  - rewrite NoDup_cons. case_bool_decide; [|case_bool_decide].
    + split; [intros H'; inv_passes|]. intros (_ & _ & Hk). by destruct (Hk (DD_Key d)); [left|].
    + split; [intros H'; inv_passes|]. intros (_ & _ & Hk). by destruct (Hk (DD_Key d)); [left|].
    + rewrite IH. set_solver.
  - split; [|set_solver]. intros (? & ? & _). done.
Qed.

Lemma passes_uniqueness ws ds :
  passes (validateUniquenessInDataWritesAndDeletes ws ds) ↔
  None ∉ ws ∧ None ∉ ds ∧ NoDup ((DW_Key <$> omap id ws) ++ (DD_Key <$> omap id ds)).
Proof.
  unfold validateUniquenessInDataWritesAndDeletes. rewrite NoDup_app. split.
  - intros H. inv_passes. destruct x as [r S]. destruct (is_valid r) eqn:Er.
    + apply is_valid_spec in Er.
      destruct (uniqueWrites_valid _ _ _ _ H0 Er) as (? & ? & _ & ->).
      apply passes_uniqueDeletes in H as (? & ? & Hd). set_solver.
    + apply passes_ok, is_valid_spec in H. congruence.
  - intros (Hw & Hd & Hnw & Hdis & Hnd). rewrite uniqueWrites_complete by set_solver.
    cbn. apply passes_uniqueDeletes. set_solver.
Qed.

Lemma passes_read_acl db users n r :
  passes (acl ← wrap_err ("error while validating ACL on the key [" +:+ DR_Key r +:+ "] in the reads")
            (GetACL db n (DR_Key r));
    match acl with
    | None => Ok valid
    | Some acl =>
      if existsb (fun userID => mget (ReadUsers acl) userID || mget (ReadWriteUsers acl) userID) users
      then Ok valid
      else Ok (invalid INVALID_NO_PERMISSION
                 ("none of the user in [" +:+ strings_join users "," +:+
                  "] has a read permission on key [" +:+ DR_Key r +:+
                  "] present in the database [" +:+ n +:+ "]"))
    end) ↔ read_allowed db users n (DR_Key r).
Proof.
  unfold read_allowed. rewrite passes_bind. setoid_rewrite wrap_err_ok.
  apply exist_proper; intros [acl|]; [|split; [naive_solver|intros [? _]; eauto using passes_valid]].
  apply and_iff_compat_l. setoid_rewrite <- orb_true_iff. rewrite <- existsb_elem.
  destruct (existsb _ users); split; try done.
  - intros _. apply passes_valid.
  - intros H. inv_passes.
Qed.

Lemma passes_write_acl db users n k :
  passes (validateACLForWriteOrDelete db users n k) ↔ write_allowed db users n k.
Proof.
  unfold validateACLForWriteOrDelete, write_allowed. rewrite passes_bind.
  apply exist_proper; intros [acl|]; [|split; [naive_solver|intros [? _]; eauto using passes_valid]].
  apply and_iff_compat_l. case_bool_decide as Hemp.
  { split; [intros H; inv_passes|naive_solver]. }
  destruct (SignPolicyForWrite acl).
  - rewrite <- existsb_elem. destruct (existsb _ users).
    + split; [done|]. intros _. apply passes_valid.
    + split; [intros H; inv_passes|naive_solver].
  - rewrite passes_for_valid. setoid_rewrite elem_of_range_keys. split.
    + intros H. split; [done|]. intros u Hu. specialize (H u Hu).
      case_bool_decide; [done|inv_passes].
    + intros [_ H] u Hu. rewrite bool_decide_eq_true_2 by auto. apply passes_valid.
  - split; [done|]. intros _. apply passes_valid.
Qed.

Lemma passes_mvcc db n o p :
  None ∉ DataWrites o → None ∉ DataDeletes o →
  passes (mvccValidation db n o p) ↔
  (∀ r, r ∈ DataReads o → ¬ pend_mod p n (DR_Key r) ∧ GetVersion db n (DR_Key r) = Ok (DR_Version r)) ∧
  (∀ k, k ∈ modified_keys o → ¬ pend_mod p n k).
Proof.
  unfold pend_mod. setoid_rewrite not_true_iff_false.
  intros Hw Hd. unfold mvccValidation. rewrite !passes_andthen, passes_for_valid, !passes_for_deref.
  assert (Hreads : ∀ r, passes (if exist p n (DR_Key r) then
      Ok (invalid INVALID_MVCC_CONFLICT_WITHIN_BLOCK
            ("mvcc conflict has occurred within the block for the key [" +:+ DR_Key r +:+
             "] in database [" +:+ n +:+ "]"))
    else
      committedVersion ← GetVersion db n (DR_Key r);
      if bool_decide (DR_Version r = committedVersion) then Ok valid
      else Ok (invalid INVALID_MVCC_CONFLICT_WITH_COMMITTED_STATE
                 ("mvcc conflict has occurred as the committed state for the key [" +:+ DR_Key r +:+
                  "] in database [" +:+ n +:+ "] changed"))) ↔
      exist p n (DR_Key r) = false ∧ GetVersion db n (DR_Key r) = Ok (DR_Version r)).
  { intros r. destruct (exist p n (DR_Key r)).
    - split; [intros H; inv_passes|naive_solver].
    - split.
      + intros H. inv_passes. case_bool_decide; [by subst|inv_passes].
      + intros [_ ->]. cbn. rewrite bool_decide_eq_true_2 by done. apply passes_valid. }
  setoid_rewrite Hreads.
  assert (Hmod : ∀ k msg, passes (if exist p n k then Ok (invalid INVALID_MVCC_CONFLICT_WITHIN_BLOCK msg)
                              else Ok valid) ↔ exist p n k = false).
  { intros k msg. destruct (exist p n k); [|split; [done|intros _; apply passes_valid]].
    split; [intros H; inv_passes|done]. }
  setoid_rewrite Hmod. unfold modified_keys, write_keys, delete_keys.
  setoid_rewrite elem_of_app. setoid_rewrite list_elem_of_fmap. naive_solver.
Qed.

Lemma passes_validateOps db users o p :
  passes (validateOps db users o p) ↔ op_ok db users (pend_del p) (pend_mod p) o.
Proof.
  unfold validateOps. rewrite !passes_andthen.
  unfold validateFieldsInDataWrites. rewrite passes_fields_writes_loop by set_solver.
  rewrite passes_fields_deletes, passes_uniqueness.
  unfold validateACLOnDataReads. rewrite passes_for_valid. setoid_rewrite passes_read_acl.
  unfold validateACLOnDataWrites, validateACLOnDataDeletes. rewrite !passes_for_deref.
  setoid_rewrite passes_write_acl. split.
  - intros (Hw & Hd & (Hnw & Hnd & Hu) & Hr & [_ Haw] & [_ Had] & Hm).
    apply passes_mvcc in Hm as [Hm1 Hm2]; [|done..]. constructor; try done.
    intros k. unfold modified_keys, write_keys, delete_keys.
    rewrite elem_of_app, !list_elem_of_fmap. naive_solver.
  - intros [Hw Hd Hu Hr Ha Hm1 Hm2].
    assert (None ∉ DataWrites o) by (intros H; destruct (Hw _ H) as (? & ? & _); done).
    assert (None ∉ DataDeletes o) by (intros H0; destruct (Hd _ H0) as (? & ? & _); done).
    rewrite passes_mvcc by done. split_and!; try done.
    + intros w Hx. apply Ha. unfold modified_keys, write_keys. set_solver.
    + intros d Hx. apply Ha. unfold modified_keys, delete_keys. set_solver.
Qed.

Lemma passes_uniqueDBs ops (S : gset string) :
  passes (uniqueDBs ops S) ↔ NoDup (DbName <$> ops) ∧ ∀ n, n ∈ DbName <$> ops → n ∉ S.
Proof.
  revert S. induction ops as [|o ops IH]; intros S; cbn.
  - split; intros _; [|apply passes_valid]. split; [constructor|set_solver].
  - rewrite NoDup_cons. case_bool_decide.
    + split; [intros H'; inv_passes|]. intros [_ Hk]. by destruct (Hk (DbName o)); [left|].
    + rewrite IH. set_solver.
Qed.

Lemma usersWithDBAccess_ok db n users us :
  usersWithDBAccess db n users = Ok us →
  (∀ u, u ∈ us ↔ u ∈ users ∧ HasReadWriteAccess db u n = Ok true) ∧
  (∀ u, u ∈ users → is_ok (HasReadWriteAccess db u n) = true).
Proof.
  revert us. induction users as [|u users IH]; intros us H; cbn in H.
  - simplify_eq. split; set_solver.
  - inv_res. destruct (IH _ H1) as [IH1 IH2]. subst us. split.
    + intros v. destruct x; rewrite ?elem_of_cons, IH1.
      * split; [naive_solver|]. intros [[->|?] ?]; [by left|by right].
      * split; [naive_solver|]. intros [[->|?] ?]; [congruence|done].
    + intros v [->|Hv]%elem_of_cons; [by rewrite H0|by apply IH2].
Qed.

Lemma usersWithDBAccess_total db n users :
  (∀ u, u ∈ users → is_ok (HasReadWriteAccess db u n) = true) →
  ∃ us, usersWithDBAccess db n users = Ok us.
Proof.
  induction users as [|u users IH]; intros H; cbn; [eauto|].
  pose proof (H u ltac:(set_solver)) as Hu. destruct (HasReadWriteAccess db u n); try done.
  destruct IH as [us ->]; [set_solver|]. cbn. eauto.
Qed.

(** The validation of one database operation of a transaction. *)
Lemma passes_validateDBOperation db users p o :
  passes (validateDBOperation db users p o) ↔
  db_ok db (DbName o) ∧
  ∃ accessors, accessors ≠ [] ∧ op_ok db accessors (pend_del p) (pend_mod p) o ∧
    (∀ u, u ∈ accessors ↔ u ∈ users ∧ HasReadWriteAccess db u (DbName o) = Ok true) ∧
    (∀ u, u ∈ users → is_ok (HasReadWriteAccess db u (DbName o)) = true).
Proof.
  unfold validateDBOperation. rewrite passes_andthen, passes_validateDBName.
  apply and_iff_compat_l. split.
  - intros H. inv_passes. destruct (usersWithDBAccess_ok _ _ _ _ H0) as [H1 H2].
    setoid_rewrite sort_strings_perm in H1. setoid_rewrite sort_strings_perm in H2.
    case_bool_decide; [inv_passes|]. apply passes_validateOps in H. eauto 10.
  - intros (acc & Hne & Hop & Hacc & Hall).
    destruct (usersWithDBAccess_total db (DbName o) (sort_strings users)) as [us Hus].
    { setoid_rewrite sort_strings_perm. done. }
    rewrite Hus. cbn. destruct (usersWithDBAccess_ok _ _ _ _ Hus) as [H1 _].
    setoid_rewrite sort_strings_perm in H1.
    assert (Heq : ∀ u, u ∈ us ↔ u ∈ acc) by (intros u; rewrite H1, Hacc; done).
    rewrite bool_decide_eq_false_2.
    2:{ destruct acc as [|a acc]; [done|]. intros ->. set_solver. }
    apply passes_validateOps. destruct Hop as [Hw Hd Hu Hr Ha Hm1 Hm2].
    constructor; try done.
    + intros r Hin. destruct (Hr r Hin) as (acl & ? & ?). exists acl. split; [done|].
      destruct acl; [|done]. setoid_rewrite Heq. done.
    + intros k Hin. destruct (Ha k Hin) as (acl & ? & ?). exists acl. split; [done|].
      destruct acl as [a|]; [|done]. destruct (SignPolicyForWrite a); try setoid_rewrite Heq; done.
Qed.

(** The validator accepts exactly the transactions of the specification. *)
Lemma passes_dataTx_validate db env users p :
  passes (dataTx_validate db env users p) ↔ data_tx_ok db env users (pend_del p) (pend_mod p).
Proof.
  unfold dataTx_validate. rewrite passes_andthen, passes_uniqueDBs, passes_for_valid.
  setoid_rewrite passes_validateDBOperation. split.
  - intros [[Hnd _] H]. by split.
  - intros [Hnd H]. split; [|done]. split; [done|set_solver].
Qed.

End DataTxProofs.
