(* ===== verification/UserTxValidator.v ===== *)
(** * User administration transactions

    [internal/txvalidation/useradmin_tx_validator.go]: the checks, their
    declarative reading, and the proof that they agree. *)

From S2P Require Import Prelude Types WorldState Identity Validation.
Import CertAuthority.

Section UserTxValidator.
Context `{!WorldState D, !Codec User, !TxMarshal UserAdministrationTx} {x509 : X509} {mr : MapRange}.
Implicit Types (db : D).

(** The databases named in a user's permissions exist. *)
Definition validateDBPermission db (dbPerm : gmap string Z) : res ValidationInfo :=
  for_valid (fun dbName =>
    if Exist db dbName then Ok valid
    else Ok (invalid INVALID_DATABASE_DOES_NOT_EXIST
               ("the database [" +:+ dbName +:+
                "] present in the db permission list does not exist in the cluster")))
    (range_keys dbPerm).

Definition validateUserWrite db (caCertCollection : CACertCollection) (w : option UserWrite)
    : res ValidationInfo :=
  match w with
  | None => Ok (invalid INVALID_INCORRECT_ENTRIES "there is an empty entry in the write list")
  | Some w =>
    match UW_User w with
    | None => Ok (invalid INVALID_INCORRECT_ENTRIES "there is an empty user entry in the write list")
    | Some u =>
      if bool_decide (User_Id u = "") then
        Ok (invalid INVALID_INCORRECT_ENTRIES
              "there is an user in the write list with an empty ID. A valid userID must be an non-empty string")
      else
        match User_Privilege u with
        | None => Ok valid
        | Some p =>
          if Admin_priv p then
            Ok (invalid INVALID_NO_PERMISSION
                  ("the user [" +:+ User_Id u +:+
                   "] is marked as admin user. Only via a cluster configuration transaction, the [" +:+
                   User_Id u +:+ "] can be added as admin"))
          else validateDBPermission db (DbPermission p)
        end ;;?
        match VerifyLeafCert caCertCollection (User_Certificate u) with
        | Ok _ => Ok valid
        | Err e => Ok (invalid INVALID_INCORRECT_ENTRIES
                         ("the user [" +:+ User_Id u +:+
                          "] in the write list has an invalid certificate: Error = " +:+ Error e))
        | Panic s => Panic s
        end
    end
  end.

Definition committedCACertCollection db : res CACertCollection :=
  '(config, _) ← wrap_err "cannot get config" (GetConfig db);
  ca ← deref (CertAuthConfig config);
  wrap_err "cannot build CA certificate collection"
    (NewCACertCollection (Roots ca) (Intermediates ca)).

Definition validateFieldsInUserWrites db (userWrites : list (option UserWrite)) : res ValidationInfo :=
  caCertCollection ← committedCACertCollection db;
  for_valid (validateUserWrite db caCertCollection) userWrites.

Definition validateFieldsInUserDeletes (userDeletes : list (option UserDelete)) : res ValidationInfo :=
  for_valid (fun d =>
    match d with
    | None => Ok (invalid INVALID_INCORRECT_ENTRIES "there is an empty entry in the delete list")
    | Some d =>
      if bool_decide (UD_UserId d = "") then
        Ok (invalid INVALID_INCORRECT_ENTRIES
              "there is an user in the delete list with an empty ID. A valid userID must be an non-empty string")
      else Ok valid
    end) userDeletes.

Definition written_user (w : option UserWrite) : res User := w ← deref w; deref (UW_User w).

Fixpoint uniqueUserWrites (userWrites : list (option UserWrite)) (writeUserIDs : gset string)
    : res (ValidationInfo * gset string) :=
  match userWrites with
  | [] => Ok (valid, writeUserIDs)
  | w :: userWrites =>
    u ← written_user w;
    if bool_decide (User_Id u ∈ writeUserIDs) then
      Ok (invalid INVALID_INCORRECT_ENTRIES
            ("there are two users with the same userID [" +:+ User_Id u +:+
             "] in the write list. The userIDs in the write list must be unique"), writeUserIDs)
    else uniqueUserWrites userWrites ({[User_Id u]} ∪ writeUserIDs)
  end.

Fixpoint uniqueUserDeletes (userDeletes : list (option UserDelete)) (writeUserIDs deleteUserIDs : gset string)
    : res ValidationInfo :=
  match userDeletes with
  | [] => Ok valid
  | d :: userDeletes =>
    d ← deref d;
    if bool_decide (UD_UserId d ∈ deleteUserIDs) then
      Ok (invalid INVALID_INCORRECT_ENTRIES
            ("there are two users with the same userID [" +:+ UD_UserId d +:+
             "] in the delete list. The userIDs in the delete list must be unique"))
    else if bool_decide (UD_UserId d ∈ writeUserIDs) then
      Ok (invalid INVALID_INCORRECT_ENTRIES
            ("the user [" +:+ UD_UserId d +:+
             "] is present in both write and delete list. Only one operation per key is allowed within a transaction"))
    else uniqueUserDeletes userDeletes writeUserIDs ({[UD_UserId d]} ∪ deleteUserIDs)
  end.

Definition validateUniquenessInUserWritesAndDeletes (userWrites : list (option UserWrite))
    (userDeletes : list (option UserDelete)) : res ValidationInfo :=
  '(r, writeUserIDs) ← uniqueUserWrites userWrites ∅;
  if is_valid r then uniqueUserDeletes userDeletes writeUserIDs ∅ else Ok r.

Definition validateACLOnUserReads db (operatingUser : string) (reads : list UserRead) : res ValidationInfo :=
  for_valid (fun r =>
    match HasReadAccessOnTargetUser db operatingUser (UR_UserId r) with
    | Err (UserNotFoundErr _) => Ok valid
    | Err e => Err e
    | Panic w => Panic w
    | Ok true => Ok valid
    | Ok false =>
      Ok (invalid INVALID_NO_PERMISSION
            ("the user [" +:+ operatingUser +:+ "] has no read permission on the user [" +:+ UR_UserId r +:+ "]"))
    end) reads.

Definition validateACLOnUserWrites db (operatingUser : string) (writes : list (option UserWrite))
    : res ValidationInfo :=
  for_valid (fun w =>
    u ← written_user w;
    let targetUser := User_Id u in
    match HasAdministrationPrivilege db targetUser with
    | Err (UserNotFoundErr _) => Ok valid
    | Err e => Err e
    | Panic s => Panic s
    | Ok true =>
      Ok (invalid INVALID_NO_PERMISSION
            ("the user [" +:+ targetUser +:+
             "] is an admin user. Only via a cluster configuration transaction, the [" +:+ targetUser +:+
             "] can be modified"))
    | Ok false =>
      hasPerm ← HasReadWriteAccessOnTargetUser db operatingUser targetUser;
      if hasPerm : bool then Ok valid
      else Ok (invalid INVALID_NO_PERMISSION
                 ("the user [" +:+ operatingUser +:+ "] has no write permission on the user [" +:+ targetUser +:+ "]"))
    end) writes.

Definition validateACLOnUserDeletes db (operatingUser : string) (deletes : list (option UserDelete))
    : res ValidationInfo :=
  for_valid (fun d =>
    d ← deref d;
    let targetUser := UD_UserId d in
    match HasAdministrationPrivilege db targetUser with
    | Err (UserNotFoundErr _) =>
      Ok (invalid INVALID_INCORRECT_ENTRIES
            ("the user [" +:+ targetUser +:+ "] present in the delete list does not exist"))
    | Err e => Err e
    | Panic s => Panic s
    | Ok true =>
      Ok (invalid INVALID_NO_PERMISSION
            ("the user [" +:+ targetUser +:+
             "] is an admin user. Only via a cluster configuration transaction, the [" +:+ targetUser +:+
             "] can be deleted"))
    | Ok false =>
      hasPerm ← HasReadWriteAccessOnTargetUser db operatingUser targetUser;
      if hasPerm : bool then Ok valid
      else Ok (invalid INVALID_NO_PERMISSION
                 ("the user [" +:+ operatingUser +:+ "] has no write permission on the user [" +:+ targetUser +:+
                  "]. Hence, the delete operation cannot be performed"))
    end) deletes.

(** The committed version of a user, nil when the user does not exist. *)
Definition committedUserVersion db (userID : string) : res (option Version) :=
  match GetUserVersion db userID with
  | Err (UserNotFoundErr _) => Ok None
  | r => r
  end.

Definition userTx_mvccValidation db (userReads : list UserRead) : res ValidationInfo :=
  for_valid (fun r =>
    committedVersion ← committedUserVersion db (UR_UserId r);
    if bool_decide (UR_Version r = committedVersion) then Ok valid
    else Ok (invalid INVALID_MVCC_CONFLICT_WITH_COMMITTED_STATE
               ("mvcc conflict has occurred as the committed state for the user [" +:+ UR_UserId r +:+
                "] has changed"))) userReads.

Definition userTx_validate db (txEnv : UserAdministrationTxEnvelope) : res ValidationInfo :=
  let tx := UEnv_Payload txEnv in
  sig_validate db (UTx_UserId tx) (UEnv_Signature txEnv) tx ;;?
  (hasPerm ← wrap_err ("error while checking user administrative privilege for user [" +:+ UTx_UserId tx +:+ "]")
               (HasAdministrationPrivilege db (UTx_UserId tx));
   if negb hasPerm then
     Ok (invalid INVALID_NO_PERMISSION
           ("the user [" +:+ UTx_UserId tx +:+ "] has no privilege to perform user administrative operations"))
   else
     wrap_err "error while validating fields in user writes"
       (validateFieldsInUserWrites db (UserWrites tx)) ;;?
     validateFieldsInUserDeletes (UserDeletes tx) ;;?
     validateUniquenessInUserWritesAndDeletes (UserWrites tx) (UserDeletes tx) ;;?
     wrap_err "error while validating ACL on reads"
       (validateACLOnUserReads db (UTx_UserId tx) (UserReads tx)) ;;?
     wrap_err "error while validating ACL on writes"
       (validateACLOnUserWrites db (UTx_UserId tx) (UserWrites tx)) ;;?
     wrap_err "error while validating ACL on deletes"
       (validateACLOnUserDeletes db (UTx_UserId tx) (UserDeletes tx)) ;;?
     userTx_mvccValidation db (UserReads tx)).

(** ** Specification *)

Definition user_not_found db (userID : string) : Prop :=
  ∃ id, HasAdministrationPrivilege db userID = Err (UserNotFoundErr id).

(** A user entry that a user administration transaction may write. *)
Record user_entry_ok db (ca : CACertCollection) (u : User) : Prop := {
  ue_id : User_Id u ≠ "";
  ue_not_admin : ∀ p, User_Privilege u = Some p → Admin_priv p = false;
  ue_dbs_exist : ∀ p n, User_Privilege u = Some p → is_Some (DbPermission p !! n) → Exist db n = true;
  ue_cert : VerifyLeafCert ca (User_Certificate u) = Ok tt;
}.

(** A user that may be changed by the operating user: not an administrator, and
    writable under its own access control. *)
Definition target_writable db (operatingUser targetUser : string) : Prop :=
  HasAdministrationPrivilege db targetUser = Ok false ∧
  HasReadWriteAccessOnTargetUser db operatingUser targetUser = Ok true.

Definition target_readable db (operatingUser targetUser : string) : Prop :=
  HasReadAccessOnTargetUser db operatingUser targetUser = Ok true ∨
  ∃ id, HasReadAccessOnTargetUser db operatingUser targetUser = Err (UserNotFoundErr id).

(** The identifiers a transaction writes and deletes. *)
Definition written_ids (ws : list (option UserWrite)) : list string :=
  User_Id <$> omap (fun w => w ≫= UW_User) ws.
Definition deleted_ids (ds : list (option UserDelete)) : list string :=
  UD_UserId <$> omap id ds.

Record user_tx_ok db (env : UserAdministrationTxEnvelope) : Prop := {
  utx_signed : signed_by db (UTx_UserId (UEnv_Payload env)) (UEnv_Signature env) (UEnv_Payload env);
  utx_admin : HasAdministrationPrivilege db (UTx_UserId (UEnv_Payload env)) = Ok true;
  utx_entries : ∃ ca, committedCACertCollection db = Ok ca ∧
    ∀ w, w ∈ UserWrites (UEnv_Payload env) → ∃ u acl, w = Some (mkUserWrite (Some u) acl) ∧ user_entry_ok db ca u;
  utx_writes : ∀ id, id ∈ written_ids (UserWrites (UEnv_Payload env)) →
    user_not_found db id ∨ target_writable db (UTx_UserId (UEnv_Payload env)) id;
  utx_deletes : ∀ d, d ∈ UserDeletes (UEnv_Payload env) →
    ∃ d', d = Some d' ∧ UD_UserId d' ≠ "" ∧
          target_writable db (UTx_UserId (UEnv_Payload env)) (UD_UserId d');
  utx_unique : NoDup (written_ids (UserWrites (UEnv_Payload env)) ++
                      deleted_ids (UserDeletes (UEnv_Payload env)));
  utx_reads : ∀ r, r ∈ UserReads (UEnv_Payload env) →
    target_readable db (UTx_UserId (UEnv_Payload env)) (UR_UserId r) ∧
    committedUserVersion db (UR_UserId r) = Ok (UR_Version r);
}.

(** ** Each check *)

Lemma passes_validateDBPermission db m :
  passes (validateDBPermission db m) ↔ ∀ n, is_Some (m !! n) → Exist db n = true.
Proof.
  unfold validateDBPermission. rewrite passes_for_valid. setoid_rewrite elem_of_range_keys.
  apply forall_proper; intros n. destruct (Exist db n).
  - split; [done|]. intros _ _. apply passes_valid.
  - split; intros H Hn; specialize (H Hn); [inv_passes|done].
Qed.

Lemma passes_validateUserWrite db ca w :
  passes (validateUserWrite db ca w) ↔
  ∃ u acl, w = Some (mkUserWrite (Some u) acl) ∧ user_entry_ok db ca u.
Proof.
  unfold validateUserWrite. split.
  - intros H. destruct w as [[[u|] acl]|]; cbn in H; [|inv_passes..].
    exists u, acl. split; [done|]. case_bool_decide; [inv_passes|]. inv_passes.
    assert (VerifyLeafCert ca (User_Certificate u) = Ok tt).
    { destruct (VerifyLeafCert _ _) as [[]|e|s]; [done|inv_passes|by destruct H as (?&?&_)]. }
    destruct (User_Privilege u) as [p|] eqn:Ep; [|by split; naive_solver].
    destruct (Admin_priv p) eqn:Ea; [inv_passes|].
    rewrite passes_validateDBPermission in H1. split; naive_solver.
  - intros (u & acl & -> & [Hid Hna Hdb Hc]). cbn. rewrite bool_decide_eq_false_2 by done.
    rewrite Hc, passes_andthen. split; [|apply passes_valid].
    destruct (User_Privilege u) as [p|]; [|apply passes_valid].
    rewrite Hna by done. apply passes_validateDBPermission. naive_solver.
Qed.

Lemma passes_validateFieldsInUserWrites db ws :
  passes (validateFieldsInUserWrites db ws) ↔
  ∃ ca, committedCACertCollection db = Ok ca ∧
    ∀ w, w ∈ ws → ∃ u acl, w = Some (mkUserWrite (Some u) acl) ∧ user_entry_ok db ca u.
Proof.
  unfold validateFieldsInUserWrites. rewrite passes_bind. setoid_rewrite passes_for_valid.
  by setoid_rewrite passes_validateUserWrite.
Qed.

Lemma passes_validateFieldsInUserDeletes ds :
  passes (validateFieldsInUserDeletes ds) ↔
  ∀ d, d ∈ ds → ∃ d', d = Some d' ∧ UD_UserId d' ≠ "".
Proof.
  unfold validateFieldsInUserDeletes. rewrite passes_for_valid.
  apply forall_proper; intros [d|].
  - case_bool_decide.
    + split; intros H' Hd; specialize (H' Hd); [inv_passes|naive_solver].
    + split; [eauto|]. intros _ _. apply passes_valid.
  - split; intros H' Hd; specialize (H' Hd); [inv_passes|naive_solver].
Qed.

Lemma uniqueUserWrites_valid ws (S S' : gset string) r :
  uniqueUserWrites ws S = Ok (r, S') → VI_Flag r = VALID →
  NoDup (written_ids ws) ∧ (∀ k, k ∈ written_ids ws → k ∉ S) ∧ S' = list_to_set (written_ids ws) ∪ S.
Proof.
  revert S. induction ws as [|w ws IH]; intros S H Hr; cbn in H.
  - simplify_eq. split_and!; cbn; [constructor|set_solver|set_solver].
  - unfold written_user in H. inv_res. subst w. case_bool_decide as Hin; [by injection H as <- <-|].
    destruct (IH _ H Hr) as (Hnd & Hdis & ->). unfold written_ids in *. cbn.
    match goal with Hu : UW_User _ = Some _ |- _ => rewrite Hu end. cbn.
    split_and!; [|set_solver|set_solver].
    constructor; [|done]. intros Hk. apply Hdis in Hk. set_solver.
Qed.

Lemma uniqueUserWrites_complete ws (S : gset string) :
  (∀ w, w ∈ ws → ∃ u acl, w = Some (mkUserWrite (Some u) acl)) →
  NoDup (written_ids ws) → (∀ k, k ∈ written_ids ws → k ∉ S) →
  uniqueUserWrites ws S = Ok (valid, list_to_set (written_ids ws) ∪ S).
Proof.
  unfold written_ids. revert S. induction ws as [|w ws IH]; intros S Hn Hnd Hdis.
  - cbn. do 2 f_equal. set_solver.
  - destruct (Hn w) as (u & acl & ->); [set_solver|]. cbn in *.
    apply NoDup_cons in Hnd as [Hk Hnd]. rewrite bool_decide_eq_false_2 by set_solver.
    rewrite IH; [do 2 f_equal; set_solver|set_solver|done|set_solver].
Qed.

Lemma passes_uniqueUserDeletes ds (W S : gset string) :
  passes (uniqueUserDeletes ds W S) ↔
  None ∉ ds ∧ NoDup (deleted_ids ds) ∧ ∀ k, k ∈ deleted_ids ds → k ∉ W ∧ k ∉ S.
Proof.
  unfold deleted_ids. revert S. induction ds as [|[d|] ds IH]; intros S; cbn.
  - split; intros _; [|apply passes_valid]. split_and!; [set_solver|constructor|set_solver].
  - rewrite NoDup_cons. case_bool_decide; [|case_bool_decide].
    + split; [intros H'; inv_passes|]. intros (_ & _ & Hk). by destruct (Hk (UD_UserId d)); [left|].
    + split; [intros H'; inv_passes|]. intros (_ & _ & Hk). by destruct (Hk (UD_UserId d)); [left|].
    + rewrite IH. set_solver.
  - split; [|set_solver]. intros (? & ? & _). done.
Qed.

Lemma passes_uniqueness_users ws ds :
  (∀ w, w ∈ ws → ∃ u acl, w = Some (mkUserWrite (Some u) acl)) → None ∉ ds →
  passes (validateUniquenessInUserWritesAndDeletes ws ds) ↔
  NoDup (written_ids ws ++ deleted_ids ds).
Proof.
  intros Hws Hds. unfold validateUniquenessInUserWritesAndDeletes. rewrite NoDup_app. split.
  - intros H. inv_passes. destruct x as [r S]. destruct (is_valid r) eqn:Er.
    + apply is_valid_spec in Er.
      destruct (uniqueUserWrites_valid _ _ _ _ H0 Er) as (? & _ & ->).
      apply passes_uniqueUserDeletes in H as (? & ? & Hd). set_solver.
    + apply passes_ok, is_valid_spec in H. congruence.
  - intros (Hnw & Hdis & Hnd). rewrite uniqueUserWrites_complete by set_solver.
    cbn. apply passes_uniqueUserDeletes. set_solver.
Qed.

Lemma passes_validateACLOnUserReads db op rs :
  passes (validateACLOnUserReads db op rs) ↔ ∀ r, r ∈ rs → target_readable db op (UR_UserId r).
Proof.
  unfold validateACLOnUserReads, target_readable. rewrite passes_for_valid.
  apply forall_proper; intros r. apply forall_proper; intros _.
  destruct (HasReadAccessOnTargetUser db op (UR_UserId r)) as [[]|[]|];
    (split; [intros H|intros [H|[? H]]]); try (by apply passes_valid); try discriminate H;
    try (by inv_passes); try (by destruct H as (?&?&_)); eauto.
Qed.

Lemma passes_validateACLOnUserWrites db op ws :
  (∀ w, w ∈ ws → ∃ u acl, w = Some (mkUserWrite (Some u) acl)) →
  passes (validateACLOnUserWrites db op ws) ↔
  ∀ id, id ∈ written_ids ws → user_not_found db id ∨ target_writable db op id.
Proof.
  intros Hws. unfold validateACLOnUserWrites, written_ids. rewrite passes_for_valid.
  setoid_rewrite list_elem_of_fmap. setoid_rewrite list_elem_of_omap. split.
  - intros H id (u & -> & w & Hw & Hu). destruct (Hws w Hw) as (u' & acl & ->).
    cbn in Hu. injection Hu as ->. specialize (H _ Hw). cbn in H.
    unfold user_not_found, target_writable.
    destruct (HasAdministrationPrivilege db (User_Id u)) as [[]|[]|];
      try (by inv_passes); try (by destruct H as (?&?&_)); [|by eauto].
    rewrite (passes_bind (HasReadWriteAccessOnTargetUser _ _ _)) in H.
    destruct H as ([] & ? & H); [by auto|inv_passes].
  - intros H w Hw. destruct (Hws w Hw) as (u & acl & ->). cbn.
    destruct (H (User_Id u)) as [[id Hid]|[Ha Hp]].
    + exists u. split; [done|]. exists (Some (mkUserWrite (Some u) acl)). done.
    + rewrite Hid. apply passes_valid.
    + rewrite Ha, Hp. apply passes_valid.
Qed.

Lemma passes_validateACLOnUserDeletes db op ds :
  passes (validateACLOnUserDeletes db op ds) ↔
  ∀ d, d ∈ ds → ∃ d', d = Some d' ∧ target_writable db op (UD_UserId d').
Proof.
  unfold validateACLOnUserDeletes. rewrite passes_for_valid.
  apply forall_proper; intros d. apply forall_proper; intros _.
  unfold target_writable. split.
  - intros H. inv_passes. inv_res. exists x. split; [done|].
    destruct (HasAdministrationPrivilege db (UD_UserId x)) as [[]|[]|];
      try (by inv_passes); try (by destruct H as (?&?&_)).
    rewrite (passes_bind (HasReadWriteAccessOnTargetUser _ _ _)) in H.
    destruct H as ([] & ? & H); [by auto|inv_passes].
  - intros (d' & -> & Ha & Hp). cbn. rewrite Ha, Hp. apply passes_valid.
Qed.

Lemma passes_userTx_mvcc db rs :
  passes (userTx_mvccValidation db rs) ↔
  ∀ r, r ∈ rs → committedUserVersion db (UR_UserId r) = Ok (UR_Version r).
Proof.
  unfold userTx_mvccValidation. rewrite passes_for_valid.
  apply forall_proper; intros r. apply forall_proper; intros _. rewrite passes_bind. split.
  - intros (v & Hv & H). case_bool_decide; [by subst|inv_passes].
  - intros ->. eexists. split; [done|]. rewrite bool_decide_eq_true_2 by done. apply passes_valid.
Qed.

(** The validator accepts exactly the transactions of the specification. *)
Lemma passes_userTx_validate db env :
  passes (userTx_validate db env) ↔ user_tx_ok db env.
Proof.
  unfold userTx_validate. rewrite passes_andthen, passes_sig_validate, passes_bind.
  setoid_rewrite wrap_err_ok. set (tx := UEnv_Payload env). split.
  - intros (Hs & [] & Ha & H); cbn in H; [|inv_passes].
    apply passes_andthen in H as [Hw H]. apply passes_andthen in H as [Hd H].
    apply passes_andthen in H as [Hu H]. apply passes_andthen in H as [Hr H].
    apply passes_andthen in H as [Haw H]. apply passes_andthen in H as [Had Hm].
    rewrite passes_wrap_err in Hw, Hr, Haw, Had.
    apply passes_validateFieldsInUserWrites in Hw.
    assert (Hws : ∀ w, w ∈ UserWrites tx → ∃ u acl, w = Some (mkUserWrite (Some u) acl)) by naive_solver.
    rewrite passes_validateFieldsInUserDeletes in Hd.
    rewrite passes_validateACLOnUserDeletes in Had.
    rewrite passes_uniqueness_users in Hu; [|done|intros Hn; naive_solver].
    rewrite passes_validateACLOnUserReads in Hr. rewrite passes_validateACLOnUserWrites in Haw by done.
    rewrite passes_userTx_mvcc in Hm. split; try done; fold tx; [|by auto].
    intros d Hin. destruct (Hd d Hin) as (d' & -> & ?). destruct (Had _ Hin) as (? & [= <-] & ?). eauto.
  - intros [Hs Ha Hw Haw Hd Hu Hr]. fold tx in Hs, Ha, Hw, Haw, Hd, Hu, Hr.
    assert (Hws : ∀ w, w ∈ UserWrites tx → ∃ u acl, w = Some (mkUserWrite (Some u) acl)) by naive_solver.
    split; [done|]. exists true. split; [done|]. cbn.
    rewrite !passes_andthen, !passes_wrap_err, passes_validateFieldsInUserWrites,
      passes_validateFieldsInUserDeletes, passes_uniqueness_users, passes_validateACLOnUserReads,
      passes_validateACLOnUserWrites, passes_validateACLOnUserDeletes, passes_userTx_mvcc;
      [|done|done|intros Hn; naive_solver].
    split_and!; try done; naive_solver.
Qed.

End UserTxValidator.
