(* ===== verification/DbTxValidator.v ===== *)
(** * Database administration transactions

    [internal/txvalidation/dbadmin_tx_validator.go]: the checks, their
    declarative reading, and the proof that they agree. *)

From S2P Require Import Prelude Types WorldState Identity Validation.

Section DbTxValidator.
Context `{!WorldState D, !Codec User, !TxMarshal DBAdministrationTx} {x509 : X509} {mr : MapRange}.
Implicit Types (db : D).

Fixpoint validateCreateDBEntries_loop db (toCreateDBs : list string) (toCreateDBsLookup : gset string)
    : ValidationInfo :=
  match toCreateDBs with
  | [] => valid
  | dbName :: toCreateDBs =>
    if bool_decide (dbName = "") then
      invalid INVALID_INCORRECT_ENTRIES "the name of the database to be created cannot be empty"
    else if negb (ValidDBName db dbName) then
      invalid INVALID_INCORRECT_ENTRIES ("the database name [" +:+ dbName +:+ "] is not valid")
    else if IsSystemDB dbName then
      invalid INVALID_INCORRECT_ENTRIES
        ("the database [" +:+ dbName +:+ "] is a system database which cannot be created as it exist by default")
    else if IsDefaultWorldStateDB dbName then
      invalid INVALID_INCORRECT_ENTRIES
        ("the database [" +:+ dbName +:+
         "] is the system created default database for storing states and it cannot be created as it exist by default")
    else if Exist db dbName then
      invalid INVALID_INCORRECT_ENTRIES
        ("the database [" +:+ dbName +:+ "] already exists in the cluster and hence, it cannot be created")
    else if bool_decide (dbName ∈ toCreateDBsLookup) then
      invalid INVALID_INCORRECT_ENTRIES
        ("the database [" +:+ dbName +:+ "] is duplicated in the create list")
    else validateCreateDBEntries_loop db toCreateDBs ({[dbName]} ∪ toCreateDBsLookup)
  end.

Definition validateCreateDBEntries db (toCreateDBs : list string) : ValidationInfo :=
  validateCreateDBEntries_loop db toCreateDBs ∅.

Fixpoint validateDeleteDBEntries_loop db (toDeleteDBs : list string) (toDeleteDBsLookup : gset string)
    : ValidationInfo :=
  match toDeleteDBs with
  | [] => valid
  | dbName :: toDeleteDBs =>
    if bool_decide (dbName = "") then
      invalid INVALID_INCORRECT_ENTRIES "the name of the database to be deleted cannot be empty"
    else if negb (ValidDBName db dbName) then
      invalid INVALID_INCORRECT_ENTRIES ("the database name [" +:+ dbName +:+ "] is not valid")
    else if IsSystemDB dbName then
      invalid INVALID_INCORRECT_ENTRIES
        ("the database [" +:+ dbName +:+ "] is a system database which cannot be deleted")
    else if IsDefaultWorldStateDB dbName then
      invalid INVALID_INCORRECT_ENTRIES
        ("the database [" +:+ dbName +:+
         "] is the system created default database to store states and it cannot be deleted")
    else if negb (Exist db dbName) then
      invalid INVALID_INCORRECT_ENTRIES
        ("the database [" +:+ dbName +:+ "] does not exist in the cluster and hence, it cannot be deleted")
    else if bool_decide (dbName ∈ toDeleteDBsLookup) then
      invalid INVALID_INCORRECT_ENTRIES
        ("the database [" +:+ dbName +:+ "] is duplicated in the delete list")
    else validateDeleteDBEntries_loop db toDeleteDBs ({[dbName]} ∪ toDeleteDBsLookup)
  end.

Definition validateDeleteDBEntries db (toDeleteDBs : list string) : ValidationInfo :=
  validateDeleteDBEntries_loop db toDeleteDBs ∅.

Definition validateAttributeType (attrTy : string * IndexAttributeType) : res ValidationInfo :=
  match attrTy.2 with
  | IndexAttributeType_NUMBER | IndexAttributeType_STRING | IndexAttributeType_BOOLEAN => Ok valid
  | _ => Ok (invalid INVALID_INCORRECT_ENTRIES
               ("invalid type provided for the attribute [" +:+ attrTy.1 +:+ "]"))
  end.

Definition validateIndexEntries db (dbsIndex : gmap string (option DBIndex))
    (toCreateDBs toDeleteDBs : list string) : res ValidationInfo :=
  for_valid (fun '(dbName, dbIndex) =>
    if negb (Exist db dbName) && negb (bool_decide (dbName ∈ toCreateDBs)) then
      Ok (invalid INVALID_INCORRECT_ENTRIES
            ("index definion provided for database [" +:+ dbName +:+
             "] cannot be processed as the database neither exists nor is in the create DB list"))
    else if Exist db dbName && bool_decide (dbName ∈ toDeleteDBs) then
      Ok (invalid INVALID_INCORRECT_ENTRIES
            ("index definion provided for database [" +:+ dbName +:+
             "] cannot be processed as the database is present in the delete list"))
    else if Exist db dbName then
      Ok (invalid INVALID_INCORRECT_ENTRIES "index update to an existing database is not allowed")
    else
      dbIndex ← deref dbIndex;
      for_valid validateAttributeType (range (AttributeAndType dbIndex)))
    (range dbsIndex).

Definition dbTx_validate db (txEnv : DBAdministrationTxEnvelope) : res ValidationInfo :=
  let tx := DBEnv_Payload txEnv in
  sig_validate db (DBTx_UserId tx) (DBEnv_Signature txEnv) tx ;;?
  (hasPerm ← wrap_err ("error while checking database administrative privilege for user [" +:+
                       DBTx_UserId tx +:+ "]")
               (HasAdministrationPrivilege db (DBTx_UserId tx));
   if negb hasPerm then
     Ok (invalid INVALID_NO_PERMISSION
           ("the user [" +:+ DBTx_UserId tx +:+ "] has no privilege to perform database administrative operations"))
   else
     Ok (validateCreateDBEntries db (CreateDbs tx)) ;;?
     Ok (validateDeleteDBEntries db (DeleteDbs tx)) ;;?
     validateIndexEntries db (DbsIndex tx) (CreateDbs tx) (DeleteDbs tx)).

(** ** Specification *)

(** A name that database administration may create or delete. *)
Record user_db_name db (n : string) : Prop := {
  udn_nonempty : n ≠ "";
  udn_valid : ValidDBName db n = true;
  udn_system : IsSystemDB n = false;
  udn_default : IsDefaultWorldStateDB n = false;
}.

Definition known_type (ty : IndexAttributeType) : Prop :=
  ty = IndexAttributeType_NUMBER ∨ ty = IndexAttributeType_STRING ∨ ty = IndexAttributeType_BOOLEAN.

Record db_tx_ok db (env : DBAdministrationTxEnvelope) : Prop := {
  dtx_signed : signed_by db (DBTx_UserId (DBEnv_Payload env)) (DBEnv_Signature env) (DBEnv_Payload env);
  dtx_admin : HasAdministrationPrivilege db (DBTx_UserId (DBEnv_Payload env)) = Ok true;
  dtx_creates : NoDup (CreateDbs (DBEnv_Payload env)) ∧
    ∀ n, n ∈ CreateDbs (DBEnv_Payload env) → user_db_name db n ∧ Exist db n = false;
  dtx_deletes : NoDup (DeleteDbs (DBEnv_Payload env)) ∧
    ∀ n, n ∈ DeleteDbs (DBEnv_Payload env) → user_db_name db n ∧ Exist db n = true;
  dtx_indexes : ∀ n idx, DbsIndex (DBEnv_Payload env) !! n = Some idx →
    n ∈ CreateDbs (DBEnv_Payload env) ∧ Exist db n = false ∧
    ∃ d, idx = Some d ∧ ∀ a ty, AttributeAndType d !! a = Some ty → known_type ty;
}.

Lemma valid_creates db l (S : gset string) :
  VI_Flag (validateCreateDBEntries_loop db l S) = VALID ↔
  NoDup l ∧ (∀ n, n ∈ l → n ∉ S) ∧ ∀ n, n ∈ l → user_db_name db n ∧ Exist db n = false.
Proof.
  revert S. induction l as [|n l IH]; intros S; cbn.
  - split; [|done]. intros _. split_and!; [constructor|set_solver..].
  - case_bool_decide as E0; [split; [done|]; intros (_ & _ & H); by destruct (H n) as [[] _]; [left|]|].
    destruct (ValidDBName db n) eqn:E1; cbn [negb];
      [|split; [done|]; intros (_ & _ & H); destruct (H n) as [[] _]; [left|congruence]].
    destruct (IsSystemDB n) eqn:E2;
      [split; [done|]; intros (_ & _ & H); destruct (H n) as [[] _]; [left|congruence]|].
    destruct (IsDefaultWorldStateDB n) eqn:E3;
      [split; [done|]; intros (_ & _ & H); destruct (H n) as [[] _]; [left|congruence]|].
    destruct (Exist db n) eqn:E4;
      [split; [done|]; intros (_ & _ & H); destruct (H n) as [_ ?]; [left|congruence]|].
    case_bool_decide as E5; [split; [done|]; intros (_ & H & _); by destruct (H n); [left|]|].
    assert (user_db_name db n) by by split.
    rewrite IH, NoDup_cons. set_solver.
Qed.

Lemma valid_deletes db l (S : gset string) :
  VI_Flag (validateDeleteDBEntries_loop db l S) = VALID ↔
  NoDup l ∧ (∀ n, n ∈ l → n ∉ S) ∧ ∀ n, n ∈ l → user_db_name db n ∧ Exist db n = true.
Proof.
  revert S. induction l as [|n l IH]; intros S; cbn.
  - split; [|done]. intros _. split_and!; [constructor|set_solver..].
  - case_bool_decide as E0; [split; [done|]; intros (_ & _ & H); by destruct (H n) as [[] _]; [left|]|].
    destruct (ValidDBName db n) eqn:E1; cbn [negb];
      [|split; [done|]; intros (_ & _ & H); destruct (H n) as [[] _]; [left|congruence]].
    destruct (IsSystemDB n) eqn:E2;
      [split; [done|]; intros (_ & _ & H); destruct (H n) as [[] _]; [left|congruence]|].
    destruct (IsDefaultWorldStateDB n) eqn:E3;
      [split; [done|]; intros (_ & _ & H); destruct (H n) as [[] _]; [left|congruence]|].
    destruct (Exist db n) eqn:E4; cbn [negb];
      [|split; [done|]; intros (_ & _ & H); destruct (H n) as [_ ?]; [left|congruence]].
    case_bool_decide as E5; [split; [done|]; intros (_ & H & _); by destruct (H n); [left|]|].
    assert (user_db_name db n) by by split.
    rewrite IH, NoDup_cons. set_solver.
Qed.

Lemma passes_validateAttributeType x : passes (validateAttributeType x) ↔ known_type x.2.
Proof.
  unfold validateAttributeType, known_type.
  destruct (x.2); split; try (intros _; by auto using passes_valid);
    intros H; [inv_passes|naive_solver].
Qed.

Lemma passes_validateIndexEntries db m cs ds :
  passes (validateIndexEntries db m cs ds) ↔
  ∀ n idx, m !! n = Some idx → n ∈ cs ∧ Exist db n = false ∧
    ∃ d, idx = Some d ∧ ∀ a ty, AttributeAndType d !! a = Some ty → known_type ty.
Proof.
  unfold validateIndexEntries. rewrite passes_for_valid. split.
  - intros H n idx Hn%elem_of_range. specialize (H _ Hn). cbn in H.
    destruct (Exist db n) eqn:E; cbn in H.
    { case_bool_decide; inv_passes. }
    case_bool_decide; cbn in H; [|inv_passes]. inv_passes. inv_res.
    split_and!; [done..|]. exists x. split; [done|]. intros a ty Ha%elem_of_range.
    by apply (passes_validateAttributeType (a, ty)), H.
  - intros H [n idx] Hn%elem_of_range. destruct (H n idx Hn) as (Hc & -> & d & -> & Hd). cbn.
    rewrite bool_decide_eq_true_2 by done. cbn. rewrite passes_for_valid.
    intros [a ty] Ha%elem_of_range. apply passes_validateAttributeType. eauto.
Qed.

(** The validator accepts exactly the transactions of the specification. *)
Lemma passes_dbTx_validate db env : passes (dbTx_validate db env) ↔ db_tx_ok db env.
Proof.
  unfold dbTx_validate. rewrite passes_andthen, passes_sig_validate, passes_bind.
  setoid_rewrite wrap_err_ok. set (tx := DBEnv_Payload env).
  unfold validateCreateDBEntries, validateDeleteDBEntries. split.
  - intros (Hs & [] & Ha & H); cbn [negb] in H; [|inv_passes].
    rewrite !passes_andthen, !passes_ok, valid_creates, valid_deletes, passes_validateIndexEntries in H.
    destruct H as ((? & _ & ?) & (? & _ & ?) & ?). by split.
  - intros [Hs Ha [Hc1 Hc2] [Hd1 Hd2] Hi]. fold tx in Hs, Ha, Hc1, Hc2, Hd1, Hd2, Hi.
    split; [done|]. exists true. split; [done|]. cbn [negb].
    rewrite !passes_andthen, !passes_ok, valid_creates, valid_deletes, passes_validateIndexEntries.
    split_and!; try done; set_solver.
Qed.

End DbTxValidator.
