(* ===== verification/ReConfig.v ===== *)
(** * Reconfiguration rules

    [internal/replication/utils.go]: what may change between two consecutive
    cluster configurations. *)

From S2P Require Import Prelude Types.

(** The peers by node ID, as [detectPeerConfigChanges] builds them. *)
Fixpoint peersByID (members : list (option PeerConfig)) (acc : gmap string PeerConfig)
    : res (gmap string PeerConfig) :=
  match members with
  | [] => Ok acc
  | m :: members => m ← deref m; peersByID members (<[NodeId m := m]> acc)
  end.

Fixpoint detectPeers_loop (maxRaftID : option RaftConfig) (currPeers : gmap string PeerConfig)
    (updated : list (option PeerConfig)) (updtPeers : gmap string PeerConfig)
    (addedPeers changedPeers : list PeerConfig)
    : res (gmap string PeerConfig * list PeerConfig * list PeerConfig) :=
  match updated with
  | [] => Ok (updtPeers, addedPeers, changedPeers)
  | updtMember :: updated =>
    updtMember ← deref updtMember;
    let updtPeers := <[NodeId updtMember := updtMember]> updtPeers in
    match currPeers !! NodeId updtMember with
    | Some currMember =>
      if bool_decide (updtMember = currMember) then
        detectPeers_loop maxRaftID currPeers updated updtPeers addedPeers changedPeers
      else if bool_decide (RaftId updtMember ≠ RaftId currMember) then
        Err (PlainErr ("cannot change the RaftId of an existing peer: NodeId=" +:+ NodeId currMember +:+
                       ", current=" +:+ pretty (RaftId currMember) +:+
                       ", updated=" +:+ pretty (RaftId updtMember)))
      else
        detectPeers_loop maxRaftID currPeers updated updtPeers addedPeers (changedPeers ++ [updtMember])
    | None =>
      raftConfig ← deref maxRaftID;
      if bool_decide (RaftId updtMember ≤ MaxRaftId raftConfig)%Z then
        Err (PlainErr ("the RaftId of a new peer must be unique,  > MaxRaftId [" +:+
                       pretty (MaxRaftId raftConfig) +:+ "]; but: NodeId=" +:+ NodeId updtMember +:+
                       ", RaftID=" +:+ pretty (RaftId updtMember)))
      else
        detectPeers_loop maxRaftID currPeers updated updtPeers (addedPeers ++ [updtMember]) changedPeers
    end
  end.

Section ReConfig.
Context {mr : MapRange}.

Definition detectPeerConfigChanges (currentConfig updatedConfig : ConsensusConfig)
    : res (list PeerConfig * list PeerConfig * list PeerConfig) :=
  currPeers ← peersByID (Members currentConfig) ∅;
  '(updtPeers, addedPeers, changedPeers) ←
    detectPeers_loop (CC_RaftConfig currentConfig) currPeers (Members updatedConfig) ∅ [] [];
  let removedPeers :=
    filter (fun currMember => updtPeers !! NodeId currMember = None) (range currPeers).*2 in
  Ok (addedPeers, removedPeers, changedPeers).

Definition VerifyConsensusReConfig (currentConfig updatedConfig : option ConsensusConfig) : res unit :=
  currentConfig ← deref currentConfig;
  updatedConfig ← deref updatedConfig;
  '(addedPeers, removedPeers, changedPeers) ← detectPeerConfigChanges currentConfig updatedConfig;
  if bool_decide (1 < length addedPeers + length removedPeers) then
    Err (PlainErr ("cannot make more than one membership change at a time: " +:+
                   pretty (length addedPeers) +:+ " added, " +:+ pretty (length removedPeers) +:+ " removed"))
  else if bool_decide (length addedPeers + length removedPeers = 1) && bool_decide (1 < length changedPeers) then
    Err (PlainErr ("cannot update peer endpoints while making membership changes: " +:+
                   pretty (length addedPeers) +:+ " added, " +:+ pretty (length removedPeers) +:+
                   " removed, " +:+ pretty (length changedPeers) +:+ " updated"))
  else Ok tt.

End ReConfig.

(** [changedAdmins] and [changedNodes]: a different length, or an entry of the
    current list that the updated list does not have. *)
Definition changedAdmins (curAdmins updAdmins : list (option Admin)) : bool :=
  bool_decide (length curAdmins ≠ length updAdmins) ||
  existsb (fun curA => negb (existsb (fun updA => bool_decide (curA = updA)) updAdmins)) curAdmins.

Definition changedNodes (curNodes updNodes : list (option NodeConfig)) : bool :=
  bool_decide (length curNodes ≠ length updNodes) ||
  existsb (fun curN => negb (existsb (fun updN => bool_decide (curN = updN)) updNodes)) curNodes.

Definition ClassifyClusterReConfig (currentConfig updatedConfig : ClusterConfig) : bool * bool * bool * bool :=
  (changedNodes (Nodes currentConfig) (Nodes updatedConfig),
   bool_decide (Consensus currentConfig ≠ Consensus updatedConfig),
   bool_decide (CertAuthConfig currentConfig ≠ CertAuthConfig updatedConfig),
   changedAdmins (Admins currentConfig) (Admins updatedConfig)).

(** ** What the rules guarantee *)

(** Two member lists related by at most one addition or removal. *)
Definition member_ids (c : ConsensusConfig) : gset string :=
  list_to_set (NodeId <$> omap id (Members c)).

Lemma peersByID_ok members acc m :
  peersByID members acc = Ok m →
  None ∉ members ∧ dom m = list_to_set (NodeId <$> omap id members) ∪ dom acc ∧
  (∀ k p, m !! k = Some p → acc !! k = Some p ∨ (NodeId p = k ∧ p ∈ omap id members)).
Proof.
  revert acc. induction members as [|x l IH]; intros acc H; cbn in H.
  - simplify_eq. split_and!; set_solver.
  - inv_res. subst x. destruct (IH _ H) as (Hn & Hd & Hl). cbn. split_and!.
    + set_solver.
    + rewrite Hd, dom_insert_L. set_solver.
    + intros k p Hp. destruct (Hl k p Hp) as [Hi|[? ?]]; [|set_solver].
      apply lookup_insert_Some in Hi as [[<- <-]|[_ ?]]; [right|by left]. split; [done|set_solver].
Qed.

Lemma peersByID_complete members acc :
  None ∉ members → ∃ m, peersByID members acc = Ok m.
Proof.
  revert acc. induction members as [|[x|] l IH]; intros acc Hn; cbn; [eauto| |set_solver].
  apply IH. set_solver.
Qed.

(** A peer of the updated configuration that the current one does not have, and
    one that it has with another endpoint. *)
Definition peer_added (curr : gmap string PeerConfig) (p : PeerConfig) : Prop :=
  curr !! NodeId p = None.
Definition peer_changed (curr : gmap string PeerConfig) (p : PeerConfig) : Prop :=
  match curr !! NodeId p with Some q => p ≠ q | None => False end.

#[export] Instance peer_added_dec curr p : Decision (peer_added curr p).
Proof. unfold peer_added. apply _. Defined.
#[export] Instance peer_changed_dec curr p : Decision (peer_changed curr p).
Proof. unfold peer_changed. destruct (curr !! NodeId p); apply _. Defined.

(** What [detectPeers_loop] demands of each peer of the updated configuration. *)
Definition peer_ok (rc : option RaftConfig) (curr : gmap string PeerConfig) (p : PeerConfig) : Prop :=
  match curr !! NodeId p with
  | Some q => RaftId p = RaftId q
  | None => ∃ c, rc = Some c ∧ (MaxRaftId c < RaftId p)%Z
  end.

Lemma detectPeers_loop_ok rc curr upd up0 add0 chg0 up add chg :
  detectPeers_loop rc curr upd up0 add0 chg0 = Ok (up, add, chg) →
  None ∉ upd ∧ dom up = list_to_set (NodeId <$> omap id upd) ∪ dom up0 ∧
  add = add0 ++ filter (peer_added curr) (omap id upd) ∧
  chg = chg0 ++ filter (peer_changed curr) (omap id upd) ∧
  (∀ p, p ∈ omap id upd → peer_ok rc curr p).
Proof.
  revert up0 add0 chg0. induction upd as [|x l IH]; intros up0 add0 chg0 H; cbn in H.
  - simplify_eq. cbn. rewrite !app_nil_r. split_and!; set_solver.
  - inv_res. subst x. change (omap id (Some x0 :: l)) with (x0 :: omap id l).
    rewrite !filter_cons, fmap_cons, list_to_set_cons.
    destruct (curr !! NodeId x0) as [q|] eqn:Eq.
    + assert (Hna : ¬ peer_added curr x0) by (unfold peer_added; congruence).
      rewrite (decide_False (P := peer_added curr x0)) by done. case_bool_decide as Hb.
      * apply IH in H as (? & -> & -> & -> & ?). rewrite dom_insert_L.
        rewrite decide_False by (unfold peer_changed; rewrite Eq; naive_solver).
        split_and!; [set_solver|set_solver|done|done|].
        intros p [->|?]%elem_of_cons; [|by auto]. unfold peer_ok. rewrite Eq. congruence.
      * case_bool_decide; [done|].
        apply IH in H as (? & -> & -> & -> & ?). rewrite dom_insert_L.
        rewrite decide_True by (unfold peer_changed; by rewrite Eq).
        rewrite <- app_assoc. split_and!; [set_solver|set_solver|done|done|].
        intros p [->|?]%elem_of_cons; [|by auto]. unfold peer_ok. rewrite Eq.
        lia.
    + inv_res. subst rc. case_bool_decide; [done|].
      apply IH in H as (? & -> & -> & -> & ?). rewrite dom_insert_L.
      rewrite decide_True by done. rewrite decide_False by (unfold peer_changed; rewrite Eq; tauto).
      rewrite <- app_assoc. split_and!; [set_solver|set_solver|done|done|].
      intros p [->|?]%elem_of_cons; [|by auto]. unfold peer_ok. rewrite Eq. eexists. split; [done|lia].
Qed.

Lemma detectPeers_loop_complete rc curr upd up0 add0 chg0 :
  None ∉ upd → (∀ p, p ∈ omap id upd → peer_ok rc curr p) →
  is_ok (detectPeers_loop rc curr upd up0 add0 chg0) = true.
Proof.
  revert up0 add0 chg0. induction upd as [|[p|] l IH]; intros up0 add0 chg0 Hn Hok; cbn;
    [done| |set_solver].
  assert (Hp : peer_ok rc curr p) by (apply Hok; cbn; set_solver). unfold peer_ok in Hp.
  assert (Hl : None ∉ l) by set_solver.
  assert (Hok' : ∀ p, p ∈ omap id l → peer_ok rc curr p) by (intros; apply Hok; cbn; set_solver).
  destruct (curr !! NodeId p).
  - case_bool_decide; [by apply IH|]. rewrite bool_decide_eq_false_2 by naive_solver. by apply IH.
  - destruct Hp as (c & -> & Hc). cbn. rewrite bool_decide_eq_false_2 by lia. by apply IH.
Qed.

(** The peer a configuration has under a node ID. *)
Definition has_member (c : ConsensusConfig) (p : PeerConfig) : Prop := Some p ∈ Members c.

#[export] Instance has_member_dec c p : Decision (has_member c p).
Proof. unfold has_member. apply _. Defined.

Section ReConfigSpec.
Context {mr : MapRange}.

(** The membership rules: existing members keep their Raft ID, new ones get one
    above the maximum, and at most one member is added or removed. *)
Record reconfig_ok (cur upd : ConsensusConfig) : Prop := {
  rc_no_nil : None ∉ Members cur ∧ None ∉ Members upd;
  rc_raft_id : ∀ p q, has_member upd p → has_member cur q → NodeId p = NodeId q → RaftId p = RaftId q;
  rc_new_id : ∀ p, has_member upd p → NodeId p ∉ member_ids cur →
    ∃ c, CC_RaftConfig cur = Some c ∧ (MaxRaftId c < RaftId p)%Z;
  rc_one_change : size (member_ids upd ∖ member_ids cur) + size (member_ids cur ∖ member_ids upd) ≤ 1;
  rc_endpoints : size (member_ids upd ∖ member_ids cur) + size (member_ids cur ∖ member_ids upd) = 1 →
    length (filter (fun p => NodeId p ∈ member_ids cur ∧ ¬ has_member cur p) (omap id (Members upd))) ≤ 1;
}.

(** The peers of a configuration have pairwise distinct node IDs. *)
Definition unique_ids (c : ConsensusConfig) : Prop := NoDup (NodeId <$> omap id (Members c)).

Lemma peersByID_spec c m :
  unique_ids c → peersByID (Members c) ∅ = Ok m →
  None ∉ Members c ∧ dom m = member_ids c ∧ ∀ k p, m !! k = Some p ↔ has_member c p ∧ NodeId p = k.
Proof.
  intros Hnd (Hn & Hd & Hl)%peersByID_ok. rewrite dom_empty_L, union_empty_r_L in Hd.
  split_and!; [done..|]. intros k p. unfold has_member. rewrite <- elem_of_omap_id. split.
  - intros Hk. destruct (Hl k p Hk) as [?|[? ?]]; [done|]. done.
  - intros [Hp <-]. assert (is_Some (m !! NodeId p)) as [q Hq].
    { apply elem_of_dom. rewrite Hd. set_solver. }
    destruct (Hl _ _ Hq) as [?|[Heq Hin]]; [done|].
    by rewrite <- (NoDup_fmap_elem NodeId _ p q Hnd Hp Hin (eq_sym Heq)) in Hq.
Qed.

Lemma length_filter_ids (P : PeerConfig → Prop) `{!∀ p, Decision (P p)} (l : list PeerConfig) (X : gset string) :
  NoDup (NodeId <$> l) → (∀ k, k ∈ X ↔ ∃ p, p ∈ l ∧ P p ∧ NodeId p = k) →
  length (filter P l) = size X.
Proof.
  intros Hnd HX. rewrite <- (length_fmap NodeId).
  rewrite <- (size_list_to_set (C := gset string)).
  - apply set_size_proper. intros k. rewrite HX, elem_of_list_to_set, list_elem_of_fmap.
    setoid_rewrite list_elem_of_filter. naive_solver.
  - eapply sublist_NoDup; [apply Hnd|]. apply fmap_sublist, sublist_filter.
Qed.

Lemma length_added c u m :
  unique_ids u → dom m = member_ids c →
  length (filter (peer_added m) (omap id (Members u))) = size (member_ids u ∖ member_ids c).
Proof.
  intros Hu Hd. apply length_filter_ids; [done|]. intros k. unfold peer_added.
  setoid_rewrite <- not_elem_of_dom. rewrite Hd. unfold member_ids.
  rewrite elem_of_difference, elem_of_list_to_set, list_elem_of_fmap. naive_solver.
Qed.

Lemma length_removed c u (m up : gmap string PeerConfig) :
  (∀ k p, m !! k = Some p → NodeId p = k) → dom m = member_ids c → dom up = member_ids u →
  length (filter (fun p => up !! NodeId p = None) (range m).*2) = size (member_ids c ∖ member_ids u).
Proof.
  intros Hk Hd Hdu.
  assert (Hids : NodeId <$> (range m).*2 = range_keys m).
  { unfold range_keys. rewrite <- list_fmap_compose. apply list_fmap_ext.
    intros i [k p] Hi. cbn. apply Hk, elem_of_range, list_elem_of_lookup. eauto. }
  apply length_filter_ids; [rewrite Hids; apply range_keys_NoDup|].
  intros k. rewrite elem_of_difference, <- Hd, <- Hdu, not_elem_of_dom, elem_of_dom.
  setoid_rewrite list_elem_of_fmap. split.
  - intros [[p Hp] Hu]. exists p. rewrite (Hk _ _ Hp). split_and!; [|done..].
    exists (k, p). split; [done|]. by apply elem_of_range.
  - intros (p & ([k' p'] & -> & Hin%elem_of_range) & Hn & <-). cbn in *.
    rewrite (Hk _ _ Hin) in *. eauto.
Qed.

(** The checks of a reconfiguration agree with the membership rules. *)
Lemma VerifyConsensusReConfig_spec cur upd :
  unique_ids cur → unique_ids upd →
  VerifyConsensusReConfig (Some cur) (Some upd) = Ok tt ↔ reconfig_ok cur upd.
Proof.
  intros Hc Hu. unfold VerifyConsensusReConfig, detectPeerConfigChanges. cbn.
  assert (Hchg : ∀ m, (∀ k p, m !! k = Some p ↔ has_member cur p ∧ NodeId p = k) → dom m = member_ids cur →
    filter (peer_changed m) (omap id (Members upd)) =
    filter (fun p => NodeId p ∈ member_ids cur ∧ ¬ has_member cur p) (omap id (Members upd))).
  { intros m Hm Hd. apply list_filter_iff. intros p. unfold peer_changed. rewrite <- Hd, elem_of_dom.
    destruct (m !! NodeId p) as [q|] eqn:Eq.
    - rewrite Hm in Eq. destruct Eq as [Hq Heq]. split.
      + intros Hne. split; [done|]. intros Hp. apply Hne.
        eapply (NoDup_fmap_elem NodeId _ _ _ Hc); [by apply elem_of_omap_id..|done].
      + intros [_ Hp] ->. done.
    - split; [done|]. intros [[? ?] _]. done. }
  assert (Hraft : ∀ m, (∀ k p, m !! k = Some p ↔ has_member cur p ∧ NodeId p = k) → dom m = member_ids cur →
    (∀ p, p ∈ omap id (Members upd) → peer_ok (CC_RaftConfig cur) m p) ↔
    (∀ p q, has_member upd p → has_member cur q → NodeId p = NodeId q → RaftId p = RaftId q) ∧
    (∀ p, has_member upd p → NodeId p ∉ member_ids cur →
       ∃ c, CC_RaftConfig cur = Some c ∧ (MaxRaftId c < RaftId p)%Z)).
  { intros m Hm Hd. setoid_rewrite elem_of_omap_id. unfold peer_ok. split.
    - intros H. split.
      + intros p q Hp Hq Heq. specialize (H p Hp).
        assert (Eq : m !! NodeId p = Some q) by (by apply Hm). by rewrite Eq in H.
      + intros p Hp Hni. rewrite <- Hd, not_elem_of_dom in Hni. specialize (H p Hp). by rewrite Hni in H.
    - intros [H1 H2] p Hp. destruct (m !! NodeId p) as [q|] eqn:Eq.
      + apply Hm in Eq as [Hq Heq]. by eapply H1.
      + apply H2; [done|]. by rewrite <- Hd, not_elem_of_dom. }
  split.
  - intros H. inv_res. destruct x1 as [[up add] chg]. injection H0 as <-.
    destruct (peersByID_spec _ _ Hc H1) as (Hn & Hd & Hm).
    apply detectPeers_loop_ok in H2 as (Hnu & Hdu & -> & -> & Hok). cbn in *.
    rewrite dom_empty_L, union_empty_r_L in Hdu.
    rewrite (length_added cur), (length_removed cur upd), Hchg in H by naive_solver.
    apply (Hraft _ Hm Hd) in Hok as [? ?].
    case_bool_decide as Hone; [done|]. rewrite <- bool_decide_and in H.
    case_bool_decide as Hend; [done|]. split; try done; lia.
  - intros [[Hn Hnu] Hr1 Hr2 Hone Hend].
    destruct (peersByID_complete (Members cur) ∅ Hn) as [m Em]. rewrite Em. cbn.
    destruct (peersByID_spec _ _ Hc Em) as (_ & Hd & Hm).
    pose proof (detectPeers_loop_complete (CC_RaftConfig cur) m (Members upd) ∅ [] []) as Hcomp.
    destruct (detectPeers_loop _ _ _ _ _ _) as [[[up add] chg]|e|w] eqn:El.
    2-3: by exfalso; apply diff_false_true, Hcomp; [done|]; apply (Hraft _ Hm Hd).
    apply detectPeers_loop_ok in El as (_ & Hdu & -> & -> & Hok). cbn.
    rewrite dom_empty_L, union_empty_r_L in Hdu.
    rewrite (length_added cur), (length_removed cur upd), Hchg by naive_solver.
    rewrite bool_decide_eq_false_2 by lia. rewrite <- bool_decide_and.
    rewrite bool_decide_eq_false_2; [done|]. intros [Heq ?]. specialize (Hend Heq). lia.
Qed.

End ReConfigSpec.
