(* ===== verification/ConfigTxValidator.v ===== *)
(** * Configuration transactions

    [internal/txvalidation/config_tx_validator.go]: the checks on a new cluster
    configuration, their declarative reading, and the proof that they agree. *)

From S2P Require Import Prelude Types WorldState Identity Validation ReConfig.
Import CertAuthority.

(** [net.ParseIP(s) != nil], [url.Parse(s)] followed by [Hostname()], and
    [time.ParseDuration]. *)
Class NetTime := {
  ParseIP : string → bool;
  ParseHostname : string → res string;
  ParseDuration : string → res Z;
}.

Section ConfigTxValidator.
Context `{!WorldState D, !Codec User, !TxMarshal ConfigTx} {x509 : X509} {mr : MapRange} {nt : NetTime}.
Implicit Types (db : D).

Definition validateHostPort (host : string) (port : Z) : res unit :=
  if bool_decide (host = "") then Err (PlainErr "an empty host")
  else
    _ ← (if ParseIP host then Ok tt
         else
           match ParseHostname ("bogus://" +:+ host) with
           | Err _ => Err (PlainErr ("an invalid host [" +:+ host +:+ "]"))
           | Panic w => Panic w
           | Ok h =>
             if bool_decide (h ≠ host) then Err (PlainErr ("an invalid host [" +:+ host +:+ "]"))
             else Ok tt
           end);
    if bool_decide (port = 0)%Z || bool_decide (2 ^ 16 ≤ port)%Z then
      Err (PlainErr ("an invalid port number [" +:+ pretty port +:+ "]"))
    else Ok tt.

(** [fmt.Sprintf("%s:%d", host, port)] *)
Definition hostPort (host : string) (port : Z) : string := host +:+ ":" +:+ pretty port.

Definition incorrect (reason : string) : ValidationInfo := invalid INVALID_INCORRECT_ENTRIES reason.

(** [if err := m; err != nil { return INVALID_INCORRECT_ENTRIES, f(err) }] *)
Definition reject_err {A} (f : string → string) (m : res A) : res ValidationInfo :=
  match m with
  | Ok _ => Ok valid
  | Err e => Ok (incorrect (f (Error e)))
  | Panic w => Panic w
  end.

Definition validateCAConfig (caConfig : option CAConfig) : res (ValidationInfo * option CACertCollection) :=
  match caConfig with
  | None => Ok (incorrect "CA config is empty. At least one root CA is required", None)
  | Some caConfig =>
    if bool_decide (length (Roots caConfig) = 0) then
      Ok (incorrect "CA config Roots is empty. At least one root CA is required", None)
    else
      match NewCACertCollection (Roots caConfig) (Intermediates caConfig) with
      | Err e => Ok (incorrect ("CA certificate collection cannot be created: " +:+ Error e), None)
      | Panic w => Panic w
      | Ok caCertCollection =>
        match VerifyCollection caCertCollection with
        | Err e => Ok (incorrect ("CA certificate collection is invalid: " +:+ Error e), None)
        | Panic w => Panic w
        | Ok _ => Ok (valid, Some caCertCollection)
        end
      end
  end.

Fixpoint validateNodeConfig_loop (caCertCollection : CACertCollection) (nodes : list (option NodeConfig))
    (nodeIDsSet hostPortSet : gset string) : res ValidationInfo :=
  match nodes with
  | [] => Ok valid
  | None :: _ => Ok (incorrect "there is an empty node entry in the node config")
  | Some n :: nodes =>
    if bool_decide (Node_Id n = "") then
      Ok (incorrect "there is a node in the node config with an empty ID. A valid nodeID must be an non-empty string")
    else
      reject_err (fun e => "the node [" +:+ Node_Id n +:+ "] has an invalid certificate: " +:+ e)
        (VerifyLeafCert caCertCollection (Node_Certificate n)) ;;?
      reject_err (fun e => "the node [" +:+ Node_Id n +:+ "] has " +:+ e)
        (validateHostPort (Node_Address n) (Node_Port n)) ;;?
      if bool_decide (Node_Id n ∈ nodeIDsSet) then
        Ok (incorrect ("there are two nodes with the same ID [" +:+ Node_Id n +:+
                       "] in the node config. The node IDs must be unique"))
      else
        let hp := hostPort (Node_Address n) (Node_Port n) in
        if bool_decide (hp ∈ hostPortSet) then
          Ok (incorrect ("there are two nodes with the same Host:Port [" +:+ hp +:+
                         "] in the node config. Endpoints must be unique"))
        else validateNodeConfig_loop caCertCollection nodes ({[Node_Id n]} ∪ nodeIDsSet) ({[hp]} ∪ hostPortSet)
  end.

Definition validateNodeConfig (nodes : list (option NodeConfig)) (caCertCollection : CACertCollection)
    : res ValidationInfo :=
  if bool_decide (length nodes = 0) then
    Ok (incorrect "node config is empty. There must be at least single node in the cluster")
  else validateNodeConfig_loop caCertCollection nodes ∅ ∅.

Fixpoint validateAdminConfig_loop (caCertCollection : CACertCollection) (admins : list (option Admin))
    (adminIDs : gset string) : res ValidationInfo :=
  match admins with
  | [] => Ok valid
  | None :: _ => Ok (incorrect "there is an empty admin entry in the admin config")
  | Some a :: admins =>
    if bool_decide (Admin_Id a = "") then
      Ok (incorrect "there is an admin in the admin config with an empty ID. A valid adminID must be an non-empty string")
    else
      reject_err (fun e => "the admin [" +:+ Admin_Id a +:+ "] has an invalid certificate: " +:+ e)
        (VerifyLeafCert caCertCollection (Admin_Certificate a)) ;;?
      if bool_decide (Admin_Id a ∈ adminIDs) then
        Ok (incorrect ("there are two admins with the same ID [" +:+ Admin_Id a +:+
                       "] in the admin config. The admin IDs must be unique"))
      else validateAdminConfig_loop caCertCollection admins ({[Admin_Id a]} ∪ adminIDs)
  end.

Definition validateAdminConfig (admins : list (option Admin)) (caCertCollection : CACertCollection)
    : res ValidationInfo :=
  if bool_decide (length admins = 0) then
    Ok (incorrect "admin config is empty. There must be at least single admin in the cluster")
  else validateAdminConfig_loop caCertCollection admins ∅.

(** The loop over the members; it returns the node IDs and endpoints seen, which
    the loop over the observers goes on with. *)
Fixpoint validateMembers (members : list (option PeerConfig)) (nodeIDsSet hostPortSet : gset string)
    (raftIDSet : gset Z) : res (ValidationInfo * (gset string * gset string)) :=
  let stop r := Ok (incorrect r, (nodeIDsSet, hostPortSet)) in
  match members with
  | [] => Ok (valid, (nodeIDsSet, hostPortSet))
  | None :: _ => stop "Consensus config has an empty member entry."
  | Some m :: members =>
    if bool_decide (NodeId m = "") then
      stop "Consensus config has a member with an empty ID. A valid nodeID must be an non-empty string."
    else if bool_decide (RaftId m = 0)%Z then
      stop ("Consensus config has a member [" +:+ NodeId m +:+ "] with Raft ID 0, must be >0.")
    else
      match validateHostPort (PeerHost m) (PeerPort m) with
      | Err e => stop ("Consensus config has a member [" +:+ NodeId m +:+ "] with " +:+ Error e)
      | Panic w => Panic w
      | Ok _ =>
        if bool_decide (NodeId m ∈ nodeIDsSet) then
          stop ("Consensus config has two members with the same ID [" +:+ NodeId m +:+
                "], the node IDs must be unique.")
        else if bool_decide (RaftId m ∈ raftIDSet) then
          stop ("Consensus config has two members with the same Raft ID [" +:+ pretty (RaftId m) +:+
                "], Raft IDs must be unique.")
        else
          let hp := hostPort (PeerHost m) (PeerPort m) in
          if bool_decide (hp ∈ hostPortSet) then
            stop ("Consensus config has two members with the same Host:Port [" +:+ hp +:+
                  "], endpoints must be unique.")
          else validateMembers members ({[NodeId m]} ∪ nodeIDsSet) ({[hp]} ∪ hostPortSet)
                 ({[RaftId m]} ∪ raftIDSet)
      end
  end.

Fixpoint validateObservers (observers : list (option PeerConfig)) (nodeIDsSet hostPortSet : gset string)
    : res ValidationInfo :=
  match observers with
  | [] => Ok valid
  | None :: _ => Ok (incorrect "Consensus config has an empty observer entry.")
  | Some o :: observers =>
    if bool_decide (NodeId o = "") then
      Ok (incorrect "Consensus config has an observer with an empty ID. A valid nodeID must be an non-empty string.")
    else if bool_decide (RaftId o ≠ 0)%Z then
      Ok (incorrect ("Consensus config has an observer [" +:+ NodeId o +:+ "] with Raft ID >0."))
    else
      reject_err (fun e => "Consensus config has an observer [" +:+ NodeId o +:+ "] with " +:+ e)
        (validateHostPort (PeerHost o) (PeerPort o)) ;;?
      if bool_decide (NodeId o ∈ nodeIDsSet) then
        Ok (incorrect ("Consensus config has two peers with the same ID [" +:+ NodeId o +:+
                       "], the node IDs must be unique."))
      else
        let hp := hostPort (PeerHost o) (PeerPort o) in
        if bool_decide (hp ∈ hostPortSet) then
          Ok (incorrect ("Consensus config has two peers with the same Host:Port [" +:+ hp +:+
                         "], endpoints must be unique."))
        else validateObservers observers ({[NodeId o]} ∪ nodeIDsSet) ({[hp]} ∪ hostPortSet)
  end.

Definition validateRaftConfig (raftConfig : option RaftConfig) : res ValidationInfo :=
  match raftConfig with
  | None => Ok (incorrect "Consensus config RaftConfig is empty.")
  | Some c =>
    if bool_decide (TickInterval c = "") then Ok (incorrect "Consensus config RaftConfig.TickInterval is empty.")
    else if bool_decide (HeartbeatTicks c = 0)%Z then
      Ok (incorrect "Consensus config RaftConfig.HeartbeatTicks is 0.")
    else if bool_decide (ElectionTicks c = 0)%Z then
      Ok (incorrect "Consensus config RaftConfig.ElectionTicks is 0.")
    else
      match ParseDuration (TickInterval c) with
      | Err e => Ok (incorrect ("Consensus config RaftConfig.TickInterval is invalid: " +:+ Error e))
      | Panic w => Panic w
      | Ok d =>
        if bool_decide (d ≤ 0)%Z then
          Ok (incorrect ("Consensus config RaftConfig.TickInterval is invalid: " +:+ TickInterval c))
        else Ok valid
      end
  end.

Definition validateConsensusConfig (consensusConf : option ConsensusConfig) : res ValidationInfo :=
  match consensusConf with
  | None => Ok (incorrect "Consensus config is empty.")
  | Some c =>
    if bool_decide (Algorithm c ≠ "raft") then
      Ok (incorrect ("Consensus config Algorithm '" +:+ Algorithm c +:+ "' is not supported."))
    else if bool_decide (length (Members c) = 0) then
      Ok (incorrect "Consensus config has no member peers. At least one member peer is required.")
    else
      '(r, (nodeIDsSet, hostPortSet)) ← validateMembers (Members c) ∅ ∅ ∅;
      if is_valid r then
        validateObservers (Observers c) nodeIDsSet hostPortSet ;;?
        validateRaftConfig (CC_RaftConfig c)
      else Ok r
  end.

Fixpoint nodesByID (nodes : list (option NodeConfig)) (acc : gmap string NodeConfig)
    : res (gmap string NodeConfig) :=
  match nodes with
  | [] => Ok acc
  | n :: nodes => n ← deref n; nodesByID nodes (<[Node_Id n := n]> acc)
  end.

Definition validateMembersNodesMatch (members : list (option PeerConfig)) (nodes : list (option NodeConfig))
    : res ValidationInfo :=
  if bool_decide (length nodes ≠ length members) then
    Ok (incorrect "ClusterConfig.Nodes must be the same length as ClusterConfig.ConsensusConfig.Members, and Nodes set must include all Members")
  else
    nodesMap ← nodesByID nodes ∅;
    for_valid (fun m =>
      m ← deref m;
      match nodesMap !! NodeId m with
      | None =>
        Ok (incorrect ("ClusterConfig.Nodes set does not include ClusterConfig.ConsensusConfig.Members peer [" +:+
                       NodeId m +:+ "], Nodes set must include all Members."))
      | Some n =>
        let nHostPort := hostPort (Node_Address n) (Node_Port n) in
        let mHostPort := hostPort (PeerHost m) (PeerPort m) in
        if bool_decide (nHostPort = mHostPort) then
          Ok (incorrect ("ClusterConfig node [" +:+ NodeId m +:+ "] and respective peer have the same endpoint [" +:+
                         nHostPort +:+ "], node and peer endpoints must be unique."))
        else Ok valid
      end) members.

Definition validateConfig (config : option ClusterConfig) : res ValidationInfo :=
  config ← deref config;
  '(vi, caCertCollection) ← validateCAConfig (CertAuthConfig config);
  if negb (is_valid vi) then Ok vi
  else
    caCertCollection ← deref caCertCollection;
    validateNodeConfig (Nodes config) caCertCollection ;;?
    validateAdminConfig (Admins config) caCertCollection ;;?
    validateConsensusConfig (Consensus config) ;;?
    (consensus ← deref (Consensus config);
     validateMembersNodesMatch (Members consensus) (Nodes config)).

Definition configTx_mvccValidation (readOldConfigVersion : option Version) (currentConfigMetadata : option Metadata)
    : res ValidationInfo :=
  if bool_decide (GetVersion_of currentConfigMetadata ≠ readOldConfigVersion) then
    Ok (invalid INVALID_MVCC_CONFLICT_WITH_COMMITTED_STATE
          "mvcc conflict has occurred as the read old configuration does not match the committed version")
  else Ok valid.

(** The node lists are printed for the log when they differ, which dereferences
    every entry ([nodeConfigSliceToString]). *)
Definition validateConfigTransitionRules (currentConfig updatedConfig : ClusterConfig) : res ValidationInfo :=
  let '(nodes, consensus, ca, admins) := ClassifyClusterReConfig currentConfig updatedConfig in
  _ ← (if nodes : bool then
         _ ← res_mapM deref (Nodes currentConfig); _ ← res_mapM deref (Nodes updatedConfig); Ok tt
       else Ok tt);
  if consensus : bool then
    reject_err (fun e => "error in ConsensusConfig: " +:+ e)
      (VerifyConsensusReConfig (Consensus currentConfig) (Consensus updatedConfig))
  else Ok valid.

Definition configTx_Validate db (txEnv : ConfigTxEnvelope) : res ValidationInfo :=
  let tx := CEnv_Payload txEnv in
  sig_validate db (CTx_UserId tx) (CEnv_Signature txEnv) tx ;;?
  (hasPerm ← wrap_err ("error while checking cluster administrative privilege for user [" +:+
                       CTx_UserId tx +:+ "]")
               (HasAdministrationPrivilege db (CTx_UserId tx));
   if negb hasPerm then
     Ok (invalid INVALID_NO_PERMISSION
           ("the user [" +:+ CTx_UserId tx +:+ "] has no privilege to perform cluster administrative operations"))
   else
     match NewConfig tx with
     | None =>
       Ok (incorrect "new config is empty. There must be at least single node and an admin in the cluster")
     | Some newConfig =>
       validateConfig (Some newConfig) ;;?
       ('(clusterConfig, configMetadata) ← GetConfig db;
        configTx_mvccValidation (ReadOldConfigVersion tx) configMetadata ;;?
        validateConfigTransitionRules clusterConfig newConfig)
     end).

Definition validateGenesis (txEnv : ConfigTxEnvelope) : res (list ValidationInfo) :=
  vi ← validateConfig (NewConfig (CEnv_Payload txEnv));
  if is_valid vi then Ok [valid]
  else Err (PlainErr ("genesis block cannot be invalid: reason for invalidation [" +:+ ReasonIfInvalid vi +:+ "]")).

(** ** Specification *)

Record host_port_ok (host : string) (port : Z) : Prop := {
  hp_host : host ≠ "" ∧ (ParseIP host = true ∨ ParseHostname ("bogus://" +:+ host) = Ok host);
  hp_port : port ≠ 0%Z ∧ (port < 2 ^ 16)%Z;
}.

Record node_ok (ca : CACertCollection) (n : NodeConfig) : Prop := {
  node_id : Node_Id n ≠ "";
  node_cert : VerifyLeafCert ca (Node_Certificate n) = Ok tt;
  node_endpoint : host_port_ok (Node_Address n) (Node_Port n);
}.

Record admin_ok (ca : CACertCollection) (a : Admin) : Prop := {
  admin_id : Admin_Id a ≠ "";
  admin_cert : VerifyLeafCert ca (Admin_Certificate a) = Ok tt;
}.

Record peer_entry_ok (p : PeerConfig) : Prop := {
  peer_id : NodeId p ≠ "";
  peer_endpoint_ok : host_port_ok (PeerHost p) (PeerPort p);
}.

Definition node_endpoint_of (n : NodeConfig) : string := hostPort (Node_Address n) (Node_Port n).
Definition peer_endpoint_of (p : PeerConfig) : string := hostPort (PeerHost p) (PeerPort p).

Record raft_config_ok (c : RaftConfig) : Prop := {
  raft_ticks : HeartbeatTicks c ≠ 0%Z ∧ ElectionTicks c ≠ 0%Z;
  raft_tick : TickInterval c ≠ "" ∧ ∃ d, ParseDuration (TickInterval c) = Ok d ∧ (0 < d)%Z;
}.

(** Entries without nil: [entries l ms] says that the pointers of [l] point to [ms]. *)
Definition entries {A} (l : list (option A)) (ms : list A) : Prop := l = Some <$> ms.

Record consensus_ok (c : ConsensusConfig) (members observers : list PeerConfig) : Prop := {
  co_algorithm : Algorithm c = "raft";
  co_members : entries (Members c) members;
  co_observers : entries (Observers c) observers;
  co_nonempty : members ≠ [];
  co_entries : Forall peer_entry_ok (members ++ observers);
  co_raft_ids : Forall (fun p => RaftId p ≠ 0%Z) members ∧ Forall (fun p => RaftId p = 0%Z) observers;
  co_unique_raft_ids : NoDup (RaftId <$> members);
  co_unique_ids : NoDup (NodeId <$> members ++ observers);
  co_unique_endpoints : NoDup (peer_endpoint_of <$> members ++ observers);
  co_raft : ∃ rc, CC_RaftConfig c = Some rc ∧ raft_config_ok rc;
}.

Record config_ok (config : ClusterConfig) (ca : CACertCollection) (nodes : list NodeConfig)
    (admins : list Admin) (c : ConsensusConfig) (members observers : list PeerConfig) : Prop := {
  cfg_ca : ∃ cc, CertAuthConfig config = Some cc ∧ Roots cc ≠ [] ∧
    NewCACertCollection (Roots cc) (Intermediates cc) = Ok ca ∧ VerifyCollection ca = Ok tt;
  cfg_nodes : entries (Nodes config) nodes ∧ nodes ≠ [] ∧ Forall (node_ok ca) nodes ∧
    NoDup (Node_Id <$> nodes) ∧ NoDup (node_endpoint_of <$> nodes);
  cfg_admins : entries (Admins config) admins ∧ admins ≠ [] ∧ Forall (admin_ok ca) admins ∧
    NoDup (Admin_Id <$> admins);
  cfg_consensus : Consensus config = Some c ∧ consensus_ok c members observers;
  cfg_match : length nodes = length members ∧
    ∀ m, m ∈ members → ∃ n, n ∈ nodes ∧ Node_Id n = NodeId m ∧ node_endpoint_of n ≠ peer_endpoint_of m;
}.

(** ** Each check *)

Lemma passes_incorrect r : ¬ passes (Ok (incorrect r)).
Proof. by apply passes_invalid. Qed.

Lemma passes_panic w : ¬ passes (Panic w).
Proof. by intros (? & ? & _). Qed.

Lemma passes_reject_err {A} f (m : res A) : passes (reject_err f m) ↔ ∃ a, m = Ok a.
Proof.
  destruct m; cbn; split; try (intros [? ?]; done); eauto using passes_valid.
  - by intros ?%passes_incorrect.
  - by intros ?%passes_panic.
Qed.

Lemma ok_unit (m : res unit) : (∃ a, m = Ok a) ↔ m = Ok tt.
Proof. split; [intros [[] ->]|]; eauto. Qed.

(** A guard that rejects: the check passes when the guard is false. *)
Lemma passes_guard (P : Prop) `{!Decision P} r m :
  passes (if bool_decide P then Ok (incorrect r) else m) ↔ ¬ P ∧ passes m.
Proof. case_bool_decide; [|naive_solver]. split; [by intros ?%passes_incorrect|naive_solver]. Qed.

Lemma entries_cons {A} (x : A) l ms : entries (Some x :: l) (x :: ms) ↔ entries l ms.
Proof. unfold entries. cbn. naive_solver. Qed.

Lemma entries_nil_inv {A} (ms : list A) : entries [] ms → ms = [].
Proof. by destruct ms. Qed.

Lemma entries_cons_inv {A} (x : A) l ms : entries (Some x :: l) ms → ∃ ms', ms = x :: ms' ∧ entries l ms'.
Proof. destruct ms as [|y ms]; intros H; [done|]. unfold entries in *. cbn in H. naive_solver. Qed.

Lemma validateHostPort_ok h p : validateHostPort h p = Ok tt ↔ host_port_ok h p.
Proof.
  unfold validateHostPort. case_bool_decide as Eh.
  { split; [done|]. by intros [[] _]. }
  assert (Hport : (if bool_decide (p = 0)%Z || bool_decide (2 ^ 16 ≤ p)%Z
     then Err (PlainErr ("an invalid port number [" +:+ pretty p +:+ "]")) else Ok tt) = Ok tt ↔
     p ≠ 0%Z ∧ (p < 2 ^ 16)%Z).
  { rewrite <- bool_decide_or. case_bool_decide; [|split; [lia|done]]. split; [done|lia]. }
  destruct (ParseIP h) eqn:Ei; cbn.
  { rewrite Hport. split; [intros ?; split; auto|]. by intros [_ ?]. }
  destruct (ParseHostname ("bogus://" +:+ h)) as [h'|e|w] eqn:En; cbn.
  - destruct (decide (h' = h)) as [->|E].
    + rewrite (bool_decide_eq_false_2 (h ≠ h)) by (intros Hn; by apply Hn). cbn.
      rewrite Hport. split; [intros ?; split; auto|]. by intros [_ ?].
    + rewrite (bool_decide_eq_true_2 (h' ≠ h)) by done. split; [done|]. intros [[_ [?|?]] _]; congruence.
  - split; [done|]. intros [[_ [?|?]] _]; congruence.
  - split; [done|]. intros [[_ [?|?]] _]; congruence.
Qed.

Lemma passes_validateNodeConfig_loop ca l (S T : gset string) :
  passes (validateNodeConfig_loop ca l S T) ↔
  ∃ ns, entries l ns ∧ Forall (node_ok ca) ns ∧ NoDup (Node_Id <$> ns) ∧ NoDup (node_endpoint_of <$> ns) ∧
    (∀ k, k ∈ Node_Id <$> ns → k ∉ S) ∧ (∀ e, e ∈ node_endpoint_of <$> ns → e ∉ T).
Proof.
  revert S T. induction l as [|[n|] l IH]; intros S T; cbn.
  - split; intros _; [|apply passes_valid]. exists []. split_and!; try constructor; set_solver.
  - rewrite passes_guard, !passes_andthen, !passes_reject_err, !ok_unit, validateHostPort_ok,
      !passes_guard, IH. split.
    + intros (Hid & Hc & Hhp & HS & HT & ns & He & Hok & Hn1 & Hn2 & HS' & HT').
      exists (n :: ns). rewrite entries_cons, Forall_cons, !fmap_cons, !NoDup_cons.
      split_and!; try done; [intros Hk; apply HS' in Hk|intros Hk; apply HT' in Hk| |]; set_solver.
    + intros (ns & (ns' & -> & He)%entries_cons_inv & Hok & Hn1 & Hn2 & HS & HT).
      rewrite Forall_cons, !fmap_cons, !NoDup_cons in *. destruct Hok as [[? ? ?] ?], Hn1, Hn2.
      unfold node_endpoint_of in *. split_and!; try done; [set_solver..|].
      exists ns'. split_and!; try done; set_solver.
  - split; [by intros ?%passes_incorrect|]. intros (ns & He & _). by destruct ns.
Qed.

Lemma passes_validateNodeConfig ca l :
  passes (validateNodeConfig l ca) ↔
  ∃ ns, entries l ns ∧ ns ≠ [] ∧ Forall (node_ok ca) ns ∧ NoDup (Node_Id <$> ns) ∧
        NoDup (node_endpoint_of <$> ns).
Proof.
  unfold validateNodeConfig. rewrite passes_guard, passes_validateNodeConfig_loop. split.
  - intros (Hl & ns & He & ? & ? & ? & _). exists ns. split_and!; try done. intros ->. by rewrite He in Hl.
  - intros (ns & He & Hne & ? & ? & ?). split; [rewrite He; by destruct ns|].
    exists ns. split_and!; try done; set_solver.
Qed.

Lemma passes_validateAdminConfig_loop ca l (S : gset string) :
  passes (validateAdminConfig_loop ca l S) ↔
  ∃ ns, entries l ns ∧ Forall (admin_ok ca) ns ∧ NoDup (Admin_Id <$> ns) ∧ (∀ k, k ∈ Admin_Id <$> ns → k ∉ S).
Proof.
  revert S. induction l as [|[n|] l IH]; intros S; cbn.
  - split; intros _; [|apply passes_valid]. exists []. split_and!; try constructor; set_solver.
  - rewrite passes_guard, !passes_andthen, !passes_reject_err, !ok_unit, !passes_guard, IH. split.
    + intros (Hid & Hc & HS & ns & He & Hok & Hn & HS').
      exists (n :: ns). rewrite entries_cons, Forall_cons, fmap_cons, NoDup_cons.
      split_and!; try done; [intros Hk; apply HS' in Hk|]; set_solver.
    + intros (ns & (ns' & -> & He)%entries_cons_inv & Hok & Hn & HS).
      rewrite Forall_cons, fmap_cons, NoDup_cons in *. destruct Hok as [[? ?] ?], Hn.
      split_and!; try done; [set_solver|]. exists ns'. split_and!; try done; set_solver.
  - split; [by intros ?%passes_incorrect|]. intros (ns & He & _). by destruct ns.
Qed.

Lemma passes_validateAdminConfig ca l :
  passes (validateAdminConfig l ca) ↔
  ∃ ns, entries l ns ∧ ns ≠ [] ∧ Forall (admin_ok ca) ns ∧ NoDup (Admin_Id <$> ns).
Proof.
  unfold validateAdminConfig. rewrite passes_guard, passes_validateAdminConfig_loop. split.
  - intros (Hl & ns & He & ? & ? & _). exists ns. split_and!; try done. intros ->. by rewrite He in Hl.
  - intros (ns & He & Hne & ? & ?). split; [rewrite He; by destruct ns|].
    exists ns. split_and!; try done; set_solver.
Qed.

Lemma validateMembers_valid l (S T S' T' : gset string) (R : gset Z) r :
  validateMembers l S T R = Ok (r, (S', T')) → VI_Flag r = VALID →
  ∃ ms, entries l ms ∧ Forall peer_entry_ok ms ∧ Forall (fun p => RaftId p ≠ 0%Z) ms ∧
    NoDup (NodeId <$> ms) ∧ NoDup (peer_endpoint_of <$> ms) ∧ NoDup (RaftId <$> ms) ∧
    (∀ k, k ∈ RaftId <$> ms → k ∉ R) ∧
    (∀ k, k ∈ NodeId <$> ms → k ∉ S) ∧ (∀ k, k ∈ peer_endpoint_of <$> ms → k ∉ T) ∧
    S' = list_to_set (NodeId <$> ms) ∪ S ∧ T' = list_to_set (peer_endpoint_of <$> ms) ∪ T.
Proof.
  revert S T R. induction l as [|[m|] l IH]; intros S T R H Hr; cbn in H.
  - simplify_eq. exists []. split_and!; try constructor; set_solver.
  - destruct (validateHostPort _ _) as [[]|e|w] eqn:Ehp; repeat case_bool_decide; simplify_eq; try done.
    apply validateHostPort_ok in Ehp.
    destruct (IH _ _ _ H Hr) as (ms & He & Hok & Hz & Hn1 & Hn2 & Hn3 & HR & HS & HT & -> & ->).
    exists (m :: ms). unfold peer_endpoint_of in *.
    rewrite entries_cons, !Forall_cons, !fmap_cons, !NoDup_cons, !list_to_set_cons.
    split_and!; try done;
      try (intros Hk; first [apply HR in Hk|apply HS in Hk|apply HT in Hk]; set_solver); set_solver.
  - by simplify_eq.
Qed.

Lemma validateMembers_complete l ms (S T : gset string) (R : gset Z) :
  entries l ms → Forall peer_entry_ok ms → Forall (fun p => RaftId p ≠ 0%Z) ms →
  NoDup (NodeId <$> ms) → NoDup (peer_endpoint_of <$> ms) → NoDup (RaftId <$> ms) →
  (∀ k, k ∈ RaftId <$> ms → k ∉ R) →
  (∀ k, k ∈ NodeId <$> ms → k ∉ S) → (∀ k, k ∈ peer_endpoint_of <$> ms → k ∉ T) →
  validateMembers l S T R =
    Ok (valid, (list_to_set (NodeId <$> ms) ∪ S, list_to_set (peer_endpoint_of <$> ms) ∪ T)).
Proof.
  intros ->. revert S T R. unfold peer_endpoint_of.
  induction ms as [|m ms IH]; intros S T R Hok Hz Hn1 Hn2 Hn3 HR HS HT; cbn in *.
  - do 3 f_equal; set_solver.
  - apply Forall_cons in Hok as [[Hid Hhp] Hok], Hz as [? ?].
    apply NoDup_cons in Hn1 as [? ?], Hn2 as [? ?], Hn3 as [? ?].
    rewrite !bool_decide_eq_false_2 by done. apply validateHostPort_ok in Hhp as ->.
    rewrite !bool_decide_eq_false_2 by set_solver.
    rewrite IH; [do 3 f_equal; set_solver|done..|set_solver|set_solver|set_solver].
Qed.

Lemma passes_validateObservers l (S T : gset string) :
  passes (validateObservers l S T) ↔
  ∃ os, entries l os ∧ Forall peer_entry_ok os ∧ Forall (fun p => RaftId p = 0%Z) os ∧
    NoDup (NodeId <$> os) ∧ NoDup (peer_endpoint_of <$> os) ∧
    (∀ k, k ∈ NodeId <$> os → k ∉ S) ∧ (∀ e, e ∈ peer_endpoint_of <$> os → e ∉ T).
Proof.
  unfold peer_endpoint_of. revert S T. induction l as [|[n|] l IH]; intros S T; cbn.
  - split; intros _; [|apply passes_valid]. exists []. split_and!; try constructor; set_solver.
  - rewrite !passes_guard, !passes_andthen, !passes_reject_err, !ok_unit, validateHostPort_ok,
      !passes_guard, IH. split.
    + intros (Hid & Hz%dec_stable & Hhp & HS & HT & ns & He & Hok & Hzs & Hn1 & Hn2 & HS' & HT').
      exists (n :: ns). rewrite entries_cons, !Forall_cons, !fmap_cons, !NoDup_cons.
      split_and!; try done; [intros Hk; apply HS' in Hk|intros Hk; apply HT' in Hk| |]; set_solver.
    + intros (ns & (ns' & -> & He)%entries_cons_inv & Hok & Hz & Hn1 & Hn2 & HS & HT).
      rewrite !Forall_cons, !fmap_cons, !NoDup_cons in *. destruct Hok as [[? ?] ?], Hn1, Hn2, Hz.
      split_and!; try done; [naive_solver|set_solver..|].
      exists ns'. split_and!; try done; set_solver.
  - split; [by intros ?%passes_incorrect|]. intros (ns & He & _). by destruct ns.
Qed.

Lemma passes_validateRaftConfig rc :
  passes (validateRaftConfig rc) ↔ ∃ c, rc = Some c ∧ raft_config_ok c.
Proof.
  destruct rc as [c|]; cbn; [|split; [by intros ?%passes_incorrect|naive_solver]].
  rewrite !passes_guard. split.
  - intros (H1 & H2 & H3 & H). exists c. split; [done|].
    destruct (ParseDuration (TickInterval c)) as [d|e|w] eqn:Ed;
      [|by apply passes_incorrect in H|by apply passes_panic in H].
    rewrite passes_guard in H. split; [done|]. split; [done|]. exists d. split; [done|lia].
  - intros (? & [= <-] & [[H1 H2] (H3 & d & Hd & Hpos)]). rewrite Hd, passes_guard.
    split_and!; try done; [lia|apply passes_valid].
Qed.

Lemma passes_validateConsensusConfig cc :
  passes (validateConsensusConfig cc) ↔ ∃ c ms os, cc = Some c ∧ consensus_ok c ms os.
Proof.
  destruct cc as [c|]; cbn; [|split; [by intros ?%passes_incorrect|naive_solver]].
  rewrite !passes_guard. split.
  - intros (Ha%dec_stable & Hl & H). apply passes_bind in H as ([r [S T]] & Hm & H).
    destruct (is_valid r) eqn:Er; [|apply passes_ok, is_valid_spec in H; congruence].
    apply is_valid_spec in Er.
    destruct (validateMembers_valid _ _ _ _ _ _ _ Hm Er)
      as (ms & He & Hok & Hz & Hn1 & Hn2 & Hn3 & _ & _ & _ & -> & ->).
    rewrite passes_andthen, passes_validateObservers, passes_validateRaftConfig in H.
    destruct H as [(os & Heo & Hoo & Hzo & Ho1 & Ho2 & HS & HT) Hrc].
    exists c, ms, os. split; [done|]. split; try done.
    + intros ->. by rewrite He in Hl.
    + by apply Forall_app.
    + rewrite fmap_app, NoDup_app. set_solver.
    + rewrite fmap_app, NoDup_app. set_solver.
  - intros (? & ms & os & [= <-] & [Ha He Heo Hne Hok [Hz Hzo] Hr Hn He2 Hrc]).
    rewrite Forall_app in Hok. rewrite fmap_app, NoDup_app in Hn, He2.
    split_and!; [naive_solver|rewrite He; by destruct ms|].
    rewrite (validateMembers_complete _ ms) by (done || naive_solver || set_solver).
    cbn [mbind res_bind]. rewrite is_valid_valid.
    rewrite passes_andthen, passes_validateObservers, passes_validateRaftConfig.
    split; [|done]. exists os. split_and!; try naive_solver; set_solver.
Qed.

Lemma nodesByID_entries ns acc :
  nodesByID (Some <$> ns) acc = Ok (foldl (fun m n => <[Node_Id n := n]> m) acc ns).
Proof. revert acc. induction ns as [|n ns IH]; intros acc; cbn; [done|apply IH]. Qed.

Lemma nodesByID_lookup ns (acc : gmap string NodeConfig) k n :
  NoDup (Node_Id <$> ns) →
  foldl (fun m n => <[Node_Id n := n]> m) acc ns !! k = Some n ↔
  (n ∈ ns ∧ Node_Id n = k) ∨ (k ∉ Node_Id <$> ns ∧ acc !! k = Some n).
Proof.
  revert acc. induction ns as [|x ns IH]; intros acc Hnd; cbn.
  - set_solver.
  - rewrite fmap_cons, NoDup_cons in Hnd. destruct Hnd as [Hx Hnd]. rewrite IH by done.
    rewrite lookup_insert_Some, not_elem_of_cons, elem_of_cons. split.
    + intros [[? ?]|[? [[<- <-]|[? ?]]]]; [by eauto|by eauto|]. right. split_and!; auto.
    + intros [[[->|?] <-]|[[? ?] ?]]; [|by eauto|]; right; split; eauto.
Qed.

Lemma passes_validateMembersNodesMatch ms ns :
  NoDup (Node_Id <$> ns) →
  passes (validateMembersNodesMatch (Some <$> ms) (Some <$> ns)) ↔
  length ns = length ms ∧
  ∀ m, m ∈ ms → ∃ n, n ∈ ns ∧ Node_Id n = NodeId m ∧ node_endpoint_of n ≠ peer_endpoint_of m.
Proof.
  intros Hnd. unfold validateMembersNodesMatch. rewrite passes_guard, !length_fmap, nodesByID_entries.
  cbn [mbind res_bind]. rewrite passes_for_valid. unfold node_endpoint_of, peer_endpoint_of.
  assert (Hlook : ∀ k n, foldl (fun m n => <[Node_Id n := n]> m) (∅ : gmap string NodeConfig) ns !! k = Some n ↔ n ∈ ns ∧ Node_Id n = k).
  { intros k n. rewrite nodesByID_lookup by done. rewrite lookup_empty. naive_solver. }
  split.
  - intros [Hl%dec_stable H]. split; [done|]. intros m Hm.
    specialize (H (Some m) (list_elem_of_fmap_2 _ _ _ Hm)). cbn in H.
    destruct (_ !! NodeId m) as [n|] eqn:En; [|by apply passes_incorrect in H].
    apply Hlook in En as [? ?]. rewrite passes_guard in H. naive_solver.
  - intros [Hl H]. split; [naive_solver|]. intros ? (m & -> & Hm)%list_elem_of_fmap.
    destruct (H m Hm) as (n & Hn & Hid & Hne). cbn.
    rewrite (proj2 (Hlook (NodeId m) n)) by done. rewrite passes_guard. split; [done|apply passes_valid].
Qed.

Lemma passes_validateConfig config :
  passes (validateConfig (Some config)) ↔
  ∃ ca nodes admins c members observers, config_ok config ca nodes admins c members observers.
Proof.
  unfold validateConfig. cbn [deref mbind res_bind]. rewrite passes_bind. split.
  - intros ([vi ca] & Hca & H). unfold validateCAConfig in Hca.
    destruct (CertAuthConfig config) as [cc|] eqn:Ec; [|by simplify_eq; apply passes_incorrect in H].
    case_bool_decide as Hr; [by simplify_eq; apply passes_incorrect in H|].
    destruct (NewCACertCollection _ _) as [coll|e|w] eqn:En; simplify_eq;
      [|by apply passes_incorrect in H].
    destruct (VerifyCollection coll) as [[]|e|w] eqn:Ev; simplify_eq; [|by apply passes_incorrect in H].
    rewrite is_valid_valid in H. cbn [negb deref mbind res_bind] in H. rewrite !passes_andthen, passes_validateNodeConfig, passes_validateAdminConfig,
      passes_validateConsensusConfig, passes_bind in H.
    destruct H as ((ns & Hns) & (ads & Has) & (c & ms & os & Hc & Hco) & c' & Hc' & Hm).
    rewrite deref_ok in Hc'. rewrite Hc in Hc'. injection Hc' as <-.
    exists coll, ns, ads, c, ms, os. destruct Hco as [? Hms] eqn:Hco'. clear Hco'.
    assert (Hcok : consensus_ok c ms os) by done.
    rewrite Hms in Hm. destruct Hns as (Hne & Hns). rewrite Hne in Hm.
    rewrite passes_validateMembersNodesMatch in Hm by naive_solver.
    split; try done. exists cc. split_and!; try done. intros Hroots. by rewrite Hroots in Hr.
  - intros (ca & ns & ads & c & ms & os & [(cc & Hcc & Hr & Hn & Hv) Hns Hads [Hc Hco] Hm]).
    exists (valid, Some ca). split.
    + unfold validateCAConfig. rewrite Hcc, Hn, Hv.
      rewrite bool_decide_eq_false_2; [done|]. by destruct (Roots cc).
    + rewrite is_valid_valid. cbn [negb deref mbind res_bind].
      rewrite !passes_andthen, passes_validateNodeConfig, passes_validateAdminConfig,
        passes_validateConsensusConfig.
      split_and!; [by eauto|by eauto|by eauto 6|]. rewrite Hc. cbn [deref mbind res_bind].
      rewrite (co_members _ _ _ Hco). destruct Hns as (-> & Hns).
      apply passes_validateMembersNodesMatch; naive_solver.
Qed.

(** A well-formed configuration. *)
Definition wf_config (config : ClusterConfig) : Prop :=
  ∃ ca nodes admins c members observers, config_ok config ca nodes admins c members observers.

(** The change of the members between two configurations: [reconfig_ok] says what may
    be added, removed and changed at once. *)
Definition transition_ok (cur new : ClusterConfig) : Prop :=
  ∃ ccur cnew, Consensus cur = Some ccur ∧ Consensus new = Some cnew ∧ reconfig_ok ccur cnew.

(** A configuration transaction that an administrator signed, with a well-formed new
    configuration, based on the committed one, from which it makes an allowed change. *)
Record config_tx_with (allowed : ClusterConfig → ClusterConfig → Prop) db (env : ConfigTxEnvelope) : Prop := {
  ctx_signed : signed_by db (CTx_UserId (CEnv_Payload env)) (CEnv_Signature env) (CEnv_Payload env);
  ctx_admin : HasAdministrationPrivilege db (CTx_UserId (CEnv_Payload env)) = Ok true;
  ctx_config : ∃ new cur meta, NewConfig (CEnv_Payload env) = Some new ∧ wf_config new ∧
    GetConfig db = Ok (cur, meta) ∧ GetVersion_of meta = ReadOldConfigVersion (CEnv_Payload env) ∧
    allowed cur new;
}.

Definition config_tx_ok db (env : ConfigTxEnvelope) : Prop := config_tx_with transition_ok db env.

(** The changes that the code lets through. *)
Definition transition_passes (cur new : ClusterConfig) : Prop := passes (validateConfigTransitionRules cur new).

Lemma res_mapM_deref {A} (l : list (option A)) :
  (∃ r, res_mapM deref l = Ok r) ↔ None ∉ l.
Proof.
  induction l as [|[x|] l IH]; cbn; [split; [set_solver|eauto]| |].
  - rewrite not_elem_of_cons, <- IH. split.
    + intros [r Hr]. inv_res. eauto.
    + intros [_ [r ->]]. cbn. eauto.
  - split; [by intros [? ?]|set_solver].
Qed.

Lemma wf_config_unique_ids config :
  wf_config config → ∃ c, Consensus config = Some c ∧ unique_ids c ∧ None ∉ Members c.
Proof.
  intros (ca & ns & ads & c & ms & os & [_ _ _ [Hc Hco] _]). exists c. split; [done|].
  destruct Hco as [_ Hms _ _ _ _ _ Hn _ _]. rewrite fmap_app, NoDup_app in Hn.
  unfold unique_ids. rewrite Hms.
  assert (Hom : omap id (Some <$> ms) = ms) by (clear; induction ms; cbn; congruence).
  rewrite Hom. split; [by destruct Hn|]. intros (? & ? & _)%list_elem_of_fmap. done.
Qed.

Lemma wf_config_nodes config : wf_config config → None ∉ Nodes config.
Proof.
  intros (ca & ns & ads & c & ms & os & [_ (-> & _) _ _ _]). by intros (? & ? & _)%list_elem_of_fmap.
Qed.

(** Keeping the members is an allowed change. *)
Lemma reconfig_same c : unique_ids c → None ∉ Members c → reconfig_ok c c.
Proof.
  intros Hu Hn. split; [done|..]; rewrite ?difference_diag_L, ?size_empty; try lia.
  - intros p q Hp Hq Heq. f_equal. eapply (NoDup_fmap_elem NodeId _ _ _ Hu); [by apply elem_of_omap_id..|done].
  - intros p Hp Hni. destruct Hni. unfold member_ids.
    apply elem_of_list_to_set, list_elem_of_fmap. exists p. split; [done|]. by apply elem_of_omap_id.
Qed.

(** Between well-formed configurations, the code lets exactly the allowed changes through. *)
Lemma transition_passes_iff cur new :
  wf_config cur → wf_config new → transition_passes cur new ↔ transition_ok cur new.
Proof.
  intros Hw1 Hw2. destruct (wf_config_unique_ids _ Hw1) as (c1 & H1 & Hu1 & Hn1).
  destruct (wf_config_unique_ids _ Hw2) as (c2 & H2 & Hu2 & Hn2).
  assert (transition_ok cur new ↔ reconfig_ok c1 c2) as ->.
  { unfold transition_ok. split; [intros (? & ? & ? & ? & ?); by simplify_eq|eauto]. }
  unfold transition_passes, validateConfigTransitionRules, ClassifyClusterReConfig. rewrite passes_bind.
  assert (Hc : passes (if bool_decide (Consensus cur ≠ Consensus new) then
      reject_err (fun e => "error in ConsensusConfig: " +:+ e)
        (VerifyConsensusReConfig (Consensus cur) (Consensus new)) else Ok valid) ↔ reconfig_ok c1 c2).
  { rewrite H1, H2. case_bool_decide as Hne; [by rewrite passes_reject_err, ok_unit, VerifyConsensusReConfig_spec|].
    injection Hne as ->. split; [intros _; by apply reconfig_same|intros _; apply passes_valid]. }
  setoid_rewrite Hc. clear Hc. destruct (changedNodes (Nodes cur) (Nodes new)); [|naive_solver].
  destruct (proj2 (res_mapM_deref _) (wf_config_nodes _ Hw1)) as [r1 ->].
  destruct (proj2 (res_mapM_deref _) (wf_config_nodes _ Hw2)) as [r2 ->]. cbn. naive_solver.
Qed.

(** The validator accepts exactly the transactions of the specification. *)
Lemma passes_configTx_Validate db env :
  passes (configTx_Validate db env) ↔ config_tx_with transition_passes db env.
Proof.
  unfold configTx_Validate. rewrite passes_andthen, passes_sig_validate, passes_bind.
  setoid_rewrite wrap_err_ok. set (tx := CEnv_Payload env).
  assert (Hmv : ∀ m, passes (configTx_mvccValidation (ReadOldConfigVersion tx) m) ↔
                 GetVersion_of m = ReadOldConfigVersion tx).
  { intros m. unfold configTx_mvccValidation. case_bool_decide as H.
    - split; [intros ?; inv_passes|done].
    - split; [done|]. intros _. apply passes_valid. }
  split.
  - intros (Hs & [] & Ha & H); cbn [negb] in H; [|inv_passes].
    destruct (NewConfig tx) as [new|] eqn:En; [|by apply passes_incorrect in H].
    rewrite passes_andthen, passes_validateConfig, passes_bind in H.
    destruct H as (Hwf & [cur meta] & Hg & H).
    rewrite passes_andthen, Hmv in H.
    destruct H. split; try done. exists new, cur, meta. done.
  - intros [Hs Ha (new & cur & meta & Hn & Hwf & Hg & Hv & Ht)]. fold tx in Hs, Ha, Hn, Hv.
    split; [done|]. exists true. split; [done|]. cbn [negb]. rewrite Hn, Hg.
    rewrite passes_andthen, passes_validateConfig. split; [done|]. cbn [mbind res_bind].
    by rewrite passes_andthen, Hmv.
Qed.

(** On a well-formed committed configuration, the changes are the allowed ones. *)
Lemma config_tx_passes_ok db env : (∀ cur meta, GetConfig db = Ok (cur, meta) → wf_config cur) →
  config_tx_with transition_passes db env ↔ config_tx_ok db env.
Proof.
  intros Hwf. split; intros [Hs Ha (new & cur & meta & Hn & Hw & Hg & Hv & Ht)]; (split; [done..|]);
    exists new, cur, meta; split_and!; try done; apply transition_passes_iff; try done; by eapply Hwf.
Qed.

(** A change that the code lets through between well-formed configurations obeys the
    membership rules. *)
Lemma transition_reconfig cur new ccur cnew :
  transition_passes cur new → wf_config cur → wf_config new →
  Consensus cur = Some ccur → Consensus new = Some cnew → reconfig_ok ccur cnew.
Proof. intros Ht Hw1 Hw2 H1 H2. apply transition_passes_iff in Ht as (? & ? & ? & ? & ?); [|done..]. by simplify_eq. Qed.

End ConfigTxValidator.
