(* ===== verification/Instances.v ===== *)
(** * Concrete instances

    Instances of the parameters of the development (certificates, wire formats,
    iteration order, host names) and a small cluster state built with the world
    state's own operations.  The theorems are proved for all instances; these
    show that their hypotheses can be met. *)

From S2P Require Import Prelude Types WorldState LevelDB Identity Validation ConfigTxValidator.

Module Toy.

(** A certificate is its bytes; it signs a body by prefixing it. *)
#[export] Instance x509 : X509 := {|
  Certificate := bytes;
  ParseCertificate b := if bool_decide (b = []) then Err (PlainErr "malformed certificate") else Ok b;
  IsCA c := bool_decide (head c = Some 1%Z);
  SerialNumber c := default 0%Z (head c);
  CheckSignature c body sig :=
    if bool_decide (sig = c ++ body) then Ok tt else Err (PlainErr "verification error");
  CheckSignatureFrom c parent := if bool_decide (c = parent) then Ok tt else Err (PlainErr "not signed by parent");
  VerifyChain roots ints c := if bool_decide (roots = []) then Err (PlainErr "unknown authority") else Ok tt;
|}.

#[export] Instance codec `{Countable A} : Codec A | 100 := countable_codec.
#[export] Instance marshal `{Countable A} : TxMarshal A | 100 := fun a => Marshal a.
#[export] Instance order : MapRange := canonical_range.

#[export] Instance net : NetTime := {|
  ParseIP s := bool_decide (s = "127.0.0.1");
  ParseHostname s := if bool_decide (s = "bogus://node") then Ok "node" else Err (PlainErr "invalid URL");
  ParseDuration s := if bool_decide (s = "100ms") then Ok 100000000%Z else Err (PlainErr "invalid duration");
|}.

(** Users: an administrator, and alice and bob with access to the database db1. *)
Definition cert (n : Z) : bytes := [2; n]%Z.

Definition user (id : string) (n : Z) (admin : bool) (perm : gmap string Z) : User :=
  mkUser id (cert n) (Some (mkPrivilege perm admin)).

Definition admin_user : User := user "admin" 0 true ∅.
Definition alice : User := user "alice" 1 false {["db1" := 1%Z]}.
Definition bob : User := user "bob" 2 false {["db1" := 1%Z]}.

(** The signature of a payload under a user's certificate. *)
Definition sign `{Countable A} (n : Z) (payload : A) : bytes := cert n ++ positive_bits (encode payload).

Definition version (b t : Z) : option Version := Some (mkVersion b t).
Definition meta (b t : Z) : option Metadata := Some (mkMetadata (version b t) None).

Definition user_entry (u : User) : KVWithMetadata :=
  mkKVWithMetadata (UserNamespace +:+ User_Id u) (positive_bits (encode u)) (meta 1 0).

(** The cluster configuration: one node. *)
Definition ca_config : CAConfig := mkCAConfig [[1%Z]] [].
Definition node_config : NodeConfig := mkNodeConfig "node1" "127.0.0.1" 6001 (cert 9).
Definition peer_config : PeerConfig := mkPeerConfig "node1" 1 "127.0.0.1" 7001.
Definition raft_config (maxID : Z) : RaftConfig := mkRaftConfig "100ms" 100 10 50 64 maxID.
Definition consensus (members : list PeerConfig) (maxID : Z) : ConsensusConfig :=
  mkConsensusConfig "raft" (Some <$> members) [] (Some (raft_config maxID)).
Definition cluster (nodes : list NodeConfig) (members : list PeerConfig) (maxID : Z) : ClusterConfig :=
  mkClusterConfig (Some <$> nodes) [Some (mkAdmin "admin" (cert 0))] (Some ca_config)
    (Some (consensus members maxID)) None.
Definition config1 : ClusterConfig := cluster [node_config] [peer_config] 1.

(** The state after three blocks: configuration and users, the database db1, and
    one key in it. *)
Definition commit (l : LevelDB) (ups : gmap string DBUpdates) (n : Z) : LevelDB := (Commit l ups n).1.

Definition state1 : LevelDB :=
  commit LDB.openNewLevelDBInstance
    {[UsersDBName := mkDBUpdates (user_entry <$> [admin_user; alice; bob]) [];
      ConfigDBName := mkDBUpdates [mkKVWithMetadata ConfigKey (positive_bits (encode config1)) (meta 1 0)] []]} 1.
Definition state2 : LevelDB :=
  commit state1 {[DatabasesDBName := mkDBUpdates [mkKVWithMetadata "db1" [] (meta 2 0)] []]} 2.
Definition state3 : LevelDB :=
  commit state2 {["db1" := mkDBUpdates [mkKVWithMetadata "k1" [7%Z] (meta 3 0)] []]} 3.

(** Data transactions on db1. *)
Definition data_op (reads : list (string * option Version)) (writes : list string) (deletes : list string)
    : DBOperation :=
  mkDBOperation "db1" ((fun r => mkDataRead r.1 r.2) <$> reads)
    ((fun k => Some (mkDataWrite k [8%Z] None)) <$> writes)
    ((fun k => Some (mkDataDelete k)) <$> deletes).

Definition data_tx (user : string) (n : Z) (txID : string) (op : DBOperation) : DataTxEnvelope :=
  let tx := mkDataTx [user] txID [op] in
  mkDataTxEnvelope tx {[user := sign n tx]}.

Definition header (n : Z) : BlockHeader :=
  mkBlockHeader (mkBlockHeaderBase n [] [] 0) [] [] [] [].

End Toy.
