(* ===== verification/Validator.v ===== *)
(** * Block validation

    [internal/txvalidation/validator.go]: the validator of a block, which runs
    the validators of its transactions and, in a data block, carries the keys
    modified by the valid transactions so far to the next one. *)

From S2P Require Import Prelude Types WorldState Identity Validation.
From S2P Require Import DataTxValidator DataTxProofs UserTxValidator DbTxValidator ReConfig ConfigTxValidator.

Section Validator.
Context `{!WorldState D, !Codec User, !TxMarshal DataTx, !TxMarshal UserAdministrationTx,
  !TxMarshal DBAdministrationTx, !TxMarshal ConfigTx} {x509 : X509} {mr : MapRange} {nt : NetTime}.
Implicit Types (db : D).

(** The goroutines write disjoint slots; after [wg.Wait] the first error by
    transaction number is returned. *)
Definition parallelSigValidation db (dataTxEnvs : list DataTxEnvelope)
    : res (list (list string * ValidationInfo)) :=
  res_mapM (validateSignatures db) dataTxEnvs.

Definition addWrites (dbName : string) (p : pendingOperations) (ws : list (option DataWrite))
    : res pendingOperations :=
  res_foldM (fun p w => w ← deref w; Ok (addWrite p dbName (DW_Key w))) p ws.

Definition addDeletes (dbName : string) (p : pendingOperations) (ds : list (option DataDelete))
    : res pendingOperations :=
  res_foldM (fun p d => d ← deref d; Ok (addDelete p dbName (DD_Key d))) p ds.

(** The writes and deletes of a valid transaction become pending. *)
Definition addPending (p : pendingOperations) (ops : list DBOperation) : res pendingOperations :=
  res_foldM (fun p o =>
    p ← addWrites (DbName o) p (DataWrites o);
    addDeletes (DbName o) p (DataDeletes o)) p ops.

Fixpoint validateDataTxs db (txs : list (DataTxEnvelope * (list string * ValidationInfo)))
    (pendingOps : pendingOperations) : res (list ValidationInfo) :=
  match txs with
  | [] => Ok []
  | (txEnv, (usersWithValidSig, sigInfo)) :: txs =>
    if negb (is_valid sigInfo) then
      rest ← validateDataTxs db txs pendingOps;
      Ok (sigInfo :: rest)
    else
      valRes ← wrap_err "error while validating data transaction"
                 (dataTx_validate db txEnv usersWithValidSig pendingOps);
      if negb (is_valid valRes) then
        rest ← validateDataTxs db txs pendingOps;
        Ok (valRes :: rest)
      else
        pendingOps ← addPending pendingOps (DbOperations (DEnv_Payload txEnv));
        rest ← validateDataTxs db txs pendingOps;
        Ok (valRes :: rest)
  end.

Definition ValidateBlock db (block : Block) : res (list ValidationInfo) :=
  if bool_decide (Number (BaseHeader (Header block)) = 1%Z) then
    match Payload block with
    | Some (Block_ConfigTxEnvelope env) => validateGenesis env
    | _ => Panic "invalid memory address or nil pointer dereference"
    end
  else
    match Payload block with
    | Some (Block_DataTxEnvelopes dataTxEnvs) =>
      sigs ← parallelSigValidation db dataTxEnvs;
      validateDataTxs db (zip dataTxEnvs sigs) newPendingOperations
    | Some (Block_UserAdministrationTxEnvelope userTxEnv) =>
      valRes ← wrap_err "error while validating user administrative transaction" (userTx_validate db userTxEnv);
      Ok [valRes]
    | Some (Block_DbAdministrationTxEnvelope dbTxEnv) =>
      valRes ← wrap_err "error while validating db administrative transaction" (dbTx_validate db dbTxEnv);
      Ok [valRes]
    | Some (Block_ConfigTxEnvelope configTxEnv) =>
      valRes ← wrap_err "error while validating config transaction" (configTx_Validate db configTxEnv);
      Ok [valRes]
    | None => Err (PlainErr "unexpected transaction envelope in the block")
    end.

(** ** Pending operations

    [pending_rep p txs]: the pending operations hold the keys the transactions
    [txs] write and delete. *)

Definition writes_key (env : DataTxEnvelope) (n k : string) : Prop :=
  ∃ o, o ∈ DbOperations (DEnv_Payload env) ∧ DbName o = n ∧ k ∈ write_keys o.
Definition deletes_key (env : DataTxEnvelope) (n k : string) : Prop :=
  ∃ o, o ∈ DbOperations (DEnv_Payload env) ∧ DbName o = n ∧ k ∈ delete_keys o.
Definition modifies_key (env : DataTxEnvelope) (n k : string) : Prop :=
  writes_key env n k ∨ deletes_key env n k.

Record pending_rep (p : pendingOperations) (txs : list DataTxEnvelope) : Prop := {
  pr_writes : ∀ c, c ∈ pendingWrites p ↔
    ∃ env n k, env ∈ txs ∧ writes_key env n k ∧ c = constructCompositeKey n k;
  pr_deletes : ∀ c, c ∈ pendingDeletes p ↔
    ∃ env n k, env ∈ txs ∧ deletes_key env n k ∧ c = constructCompositeKey n k;
}.

Lemma pending_rep_new : pending_rep newPendingOperations [].
Proof. split; intros c; cbn; set_solver. Qed.

Lemma addWrites_ok n p ws p' :
  addWrites n p ws = Ok p' →
  pendingDeletes p' = pendingDeletes p ∧
  ∀ c, c ∈ pendingWrites p' ↔
    c ∈ pendingWrites p ∨ ∃ k, k ∈ DW_Key <$> omap id ws ∧ c = constructCompositeKey n k.
Proof.
  unfold addWrites. revert p. induction ws as [|w ws IH]; intros p H; cbn in H.
  - simplify_eq. split; [done|]. set_solver.
  - inv_res. subst. destruct (IH _ H) as [-> Hc]. split; [done|]. intros c. rewrite Hc. cbn. set_solver.
Qed.

Lemma addDeletes_ok n p ds p' :
  addDeletes n p ds = Ok p' →
  pendingWrites p' = pendingWrites p ∧
  ∀ c, c ∈ pendingDeletes p' ↔
    c ∈ pendingDeletes p ∨ ∃ k, k ∈ DD_Key <$> omap id ds ∧ c = constructCompositeKey n k.
Proof.
  unfold addDeletes. revert p. induction ds as [|w ws IH]; intros p H; cbn in H.
  - simplify_eq. split; [done|]. set_solver.
  - inv_res. subst. destruct (IH _ H) as [-> Hc]. split; [done|]. intros c. rewrite Hc. cbn. set_solver.
Qed.

Lemma addPending_ok ops p p' :
  addPending p ops = Ok p' →
  (∀ c, c ∈ pendingWrites p' ↔ c ∈ pendingWrites p ∨
     ∃ o k, o ∈ ops ∧ k ∈ write_keys o ∧ c = constructCompositeKey (DbName o) k) ∧
  (∀ c, c ∈ pendingDeletes p' ↔ c ∈ pendingDeletes p ∨
     ∃ o k, o ∈ ops ∧ k ∈ delete_keys o ∧ c = constructCompositeKey (DbName o) k).
Proof.
  unfold addPending. revert p. induction ops as [|o ops IH]; intros p H; cbn in H.
  - simplify_eq. set_solver.
  - inv_res. apply IH in H as [Hw Hd].
    apply addWrites_ok in H1 as [Ed Hw1]. apply addDeletes_ok in H0 as [Ew Hd1].
    unfold write_keys, delete_keys in *. split; intros c; rewrite ?Hw, ?Hd.
    + rewrite Ew, Hw1. setoid_rewrite elem_of_cons. naive_solver.
    + rewrite Hd1, Ed. setoid_rewrite elem_of_cons. naive_solver.
Qed.

Lemma addPending_rep p txs env p' :
  pending_rep p txs → addPending p (DbOperations (DEnv_Payload env)) = Ok p' →
  pending_rep p' (txs ++ [env]).
Proof.
  intros [Hw Hd] [Hw' Hd']%addPending_ok. unfold writes_key, deletes_key in *.
  split; intros c; [rewrite Hw', Hw|rewrite Hd', Hd];
    (split; [intros [(e & n & k & ? & ? & ->)|(o & k & ? & ? & ->)]
            |intros (e & n & k & [?|?%list_elem_of_singleton]%elem_of_app & Hx & ->)];
    [exists e, n, k; set_solver|exists env, (DbName o), k; set_solver|left; eauto 10|
     subst; destruct Hx as (o & ? & <- & ?); right; eauto]).
Qed.

Lemma addPending_total p ops :
  (∀ o, o ∈ ops → None ∉ DataWrites o ∧ None ∉ DataDeletes o) → ∃ p', addPending p ops = Ok p'.
Proof.
  assert (Hf : ∀ A (f : pendingOperations → A → pendingOperations) (l : list (option A)) p,
    None ∉ l → ∃ p', res_foldM (fun p w => w ← deref w; Ok (f p w)) p l = Ok p').
  { intros A f l. induction l as [|[x|] l IH]; intros q Hl; cbn; [eauto| |set_solver].
    apply IH. set_solver. }
  unfold addPending. revert p. induction ops as [|o ops IH]; intros p H; cbn; [eauto|].
  destruct (H o) as [Hw Hd]; [set_solver|].
  destruct (Hf _ (fun p w => addWrite p (DbName o) (DW_Key w)) (DataWrites o) p Hw) as [p1 Hp1].
  destruct (Hf _ (fun p d => addDelete p (DbName o) (DD_Key d)) (DataDeletes o) p1 Hd) as [p2 Hp2].
  unfold addWrites, addDeletes. rewrite Hp1. cbn. rewrite Hp2. cbn. apply IH. set_solver.
Qed.

Lemma data_tx_ok_no_nil db env users deleted modified o :
  data_tx_ok db env users deleted modified → o ∈ DbOperations (DEnv_Payload env) →
  None ∉ DataWrites o ∧ None ∉ DataDeletes o.
Proof.
  intros [_ Hops] Ho. destruct (Hops o Ho) as (_ & acc & _ & [Hw Hd _ _ _ _ _] & _).
  split; intros Hn; [destruct (Hw _ Hn) as (? & ? & _)|destruct (Hd _ Hn) as (? & ? & _)]; done.
Qed.

(** ** The data block *)

(** The transactions found valid among the first [j]. *)
Definition valid_before {A} (txs : list A) (infos : list ValidationInfo) (j : nat) : list A :=
  (filter (fun x => is_valid x.2) (take j (zip txs infos))).*1.

Lemma valid_before_cons {A} (x : A) txs info infos j :
  valid_before (x :: txs) (info :: infos) (S j) =
  (if is_valid info then [x] else []) ++ valid_before txs infos j.
Proof.
  unfold valid_before. cbn [zip zip_with take]. rewrite filter_cons. cbn.
  destruct (is_valid info); cbn; done.
Qed.

Lemma validateDataTxs_length db txs p infos :
  validateDataTxs db txs p = Ok infos → length infos = length txs.
Proof.
  revert p infos. induction txs as [|[env [users sig]] txs IH]; intros p infos H; cbn in H.
  - by simplify_eq.
  - destruct (is_valid sig); cbn in H; inv_res; subst; cbn; [|f_equal; eauto].
    destruct (is_valid x); cbn in H; inv_res; subst; cbn; f_equal; eauto.
Qed.

(** Each transaction is judged against the keys modified by the valid ones
    before it, and only those. *)
Lemma validateDataTxs_spec db txs p prior infos :
  validateDataTxs db txs p = Ok infos → pending_rep p prior →
  ∀ j env users sig info, txs !! j = Some (env, (users, sig)) → infos !! j = Some info →
  ∃ p', pending_rep p' (prior ++ valid_before txs.*1 infos j) ∧
    (VI_Flag info = VALID ↔ VI_Flag sig = VALID ∧ data_tx_ok db env users (pend_del p') (pend_mod p')).
Proof.
  revert p prior infos. induction txs as [|[env0 [users0 sig0]] txs IH];
    intros p prior infos H Hrep j env users sig info Hj Hi; cbn in H; [done|].
  assert (Hstep : ∃ r0 rest p1, infos = r0 :: rest ∧ validateDataTxs db txs p1 = Ok rest ∧
     pending_rep p1 (prior ++ (if is_valid r0 then [env0] else [])) ∧
     (VI_Flag r0 = VALID ↔ VI_Flag sig0 = VALID ∧ data_tx_ok db env0 users0 (pend_del p) (pend_mod p))).
  { pose proof (is_valid_spec sig0) as Hs0. destruct (is_valid sig0) eqn:Es; cbn in H.
    - apply bind_ok_inv in H as (r0 & Hr0 & H). rewrite wrap_err_ok in Hr0.
      assert (Hp : VI_Flag r0 = VALID ↔ data_tx_ok db env0 users0 (pend_del p) (pend_mod p))
       
        by (rewrite <- passes_dataTx_validate, Hr0; symmetry; apply passes_ok).
      destruct (is_valid r0) eqn:Er; cbn in H; inv_res; subst.
      + eexists _, _, _. rewrite Er. split_and!; eauto using addPending_rep; naive_solver.
      + eexists _, _, _. rewrite Er, app_nil_r. split_and!; eauto; naive_solver.
    - inv_res. subst. eexists _, _, _. rewrite Es, app_nil_r.
      split_and!; eauto. rewrite <- is_valid_spec. naive_solver. }
  destruct Hstep as (r0 & rest & p1 & -> & Hrest & Hrep1 & Hr0).
  destruct j as [|j]; cbn in Hj, Hi.
  - simplify_eq. exists p. unfold valid_before. cbn. rewrite app_nil_r. done.
  - rewrite fmap_cons, valid_before_cons, app_assoc. cbn [fst]. eapply IH; eauto.
Qed.

End Validator.
