(* ===== verification/BlockIsolation.v ===== *)
(** * Isolation of the transactions of a block

    What [ValidateBlock] guarantees of a block of data transactions: the valid
    ones behave as if they had been executed one after the other, in block
    order. *)

From S2P Require Import Prelude Types WorldState Identity Validation.
From S2P Require Import DataTxValidator DataTxProofs UserTxValidator DbTxValidator ReConfig ConfigTxValidator.
From S2P Require Import LevelDB Instances Validator.
From Stdlib Require Import Ascii.

(** ** Signatures *)

Section Signatures.
Context `{!WorldState D, !Codec User, !TxMarshal DataTx} {x509 : X509} {mr : MapRange}.
Implicit Types (db : D).

Lemma validateSignatures_loop_spec db env sigs acc users info :
  validateSignatures_loop db env sigs acc = Ok (users, info) →
  VI_Flag info = VALID ↔
    (∀ u s, (u, s) ∈ sigs → u ∈ MustSignUserIds (DEnv_Payload env) → signed_by db u s (DEnv_Payload env)).
Proof.
  revert acc. induction sigs as [|[u s] sigs IH]; intros acc H; cbn in H.
  - simplify_eq. set_solver.
  - inv_res. pose proof (passes_sig_validate db u s (DEnv_Payload env)) as Hp.
    rewrite H0, passes_ok in Hp. rewrite <- is_valid_spec in Hp.
    destruct (is_valid x).
    + rewrite (IH _ H). set_solver.
    + case_bool_decide.
      * simplify_eq. split; [done|]. intros Hs. exfalso.
        destruct Hp as [_ Hp]. specialize (Hp (Hs u s ltac:(set_solver) ltac:(done))). done.
      * rewrite (IH _ H). set_solver.
Qed.

Lemma validateSignatures_loop_users db env sigs acc users info :
  validateSignatures_loop db env sigs acc = Ok (users, info) → VI_Flag info = VALID →
  ∀ u, u ∈ users ↔ u ∈ acc ∨ ∃ s, (u, s) ∈ sigs ∧ signed_by db u s (DEnv_Payload env).
Proof.
  revert acc. induction sigs as [|[v s] sigs IH]; intros acc H Hv u; cbn in H.
  - simplify_eq. set_solver.
  - inv_res. pose proof (passes_sig_validate db v s (DEnv_Payload env)) as Hp.
    rewrite H0, passes_ok in Hp. rewrite <- is_valid_spec in Hp.
    destruct (is_valid x).
    + rewrite (IH _ H Hv). destruct Hp as [Hp _]. specialize (Hp eq_refl). set_solver.
    + assert (Hn : ¬ signed_by db v s (DEnv_Payload env)) by (intros ?%Hp; done).
      case_bool_decide; [by simplify_eq|]. rewrite (IH _ H Hv). set_solver.
Qed.

(** The users whose signature on the transaction verifies. *)
Definition signer db (env : DataTxEnvelope) (u : string) : Prop :=
  ∃ s, Signatures env !! u = Some s ∧ signed_by db u s (DEnv_Payload env).

(** Every must-sign user that has a signature in the envelope has a valid one. *)
Definition must_sign_ok db (env : DataTxEnvelope) : Prop :=
  ∀ u, u ∈ MustSignUserIds (DEnv_Payload env) → is_Some (Signatures env !! u) → signer db env u.

Lemma validateSignatures_spec db env users info :
  validateSignatures db env = Ok (users, info) →
  (VI_Flag info = VALID ↔ must_sign_ok db env) ∧
  (VI_Flag info = VALID → ∀ u, u ∈ users ↔ signer db env u).
Proof.
  unfold validateSignatures, must_sign_ok, signer. intros H. split.
  - rewrite (validateSignatures_loop_spec _ _ _ _ _ _ H). setoid_rewrite elem_of_range. split.
    + intros Hs u Hu [s Hus]. eauto.
    + intros Hs u s Hus Hu. destruct (Hs u Hu) as (s' & Hs' & ?); [eauto|]. congruence.
  - intros Hv u. rewrite (validateSignatures_loop_users _ _ _ _ _ _ H Hv).
    setoid_rewrite elem_of_range. set_solver.
Qed.

End Signatures.

Section Isolation.
Context `{!WorldState D, !Codec ClusterConfig, !WorldStateLaws D, !Codec User, !TxMarshal DataTx, !TxMarshal UserAdministrationTx,
  !TxMarshal DBAdministrationTx, !TxMarshal ConfigTx} {x509 : X509} {mr : MapRange} {nt : NetTime}.
Implicit Types (db : D).

(** Keys deleted and modified by a list of transactions. *)
Definition deleted_by (txs : list DataTxEnvelope) (n k : string) : Prop :=
  ∃ env, env ∈ txs ∧ deletes_key env n k.
Definition modified_by (txs : list DataTxEnvelope) (n k : string) : Prop :=
  ∃ env, env ∈ txs ∧ modifies_key env n k.

(** What it takes to be a valid data transaction after [prior] in a block. *)
Definition data_tx_valid db (env : DataTxEnvelope) (prior : list DataTxEnvelope) : Prop :=
  must_sign_ok db env ∧
  ∃ users, (∀ u, u ∈ users ↔ signer db env u) ∧
    data_tx_ok db env users (deleted_by prior) (modified_by prior).

Lemma no_tilde db n :
  ValidDBName db n = true → string_forallb (fun x => bool_decide (x ≠ "~"%char)) n = true.
Proof.
  intros [_ Hn]%valid_db_name_chars%andb_true_iff. induction n as [|c n IH]; [done|].
  cbn in *. apply andb_true_iff in Hn as [Hc Hn]. rewrite IH by done.
  rewrite bool_decide_eq_true_2; [done|]. by intros ->.
Qed.

Lemma composite_inj db n k n' k' :
  ValidDBName db n = true → ValidDBName db n' = true →
  constructCompositeKey n k = constructCompositeKey n' k' → n = n' ∧ k = k'.
Proof. intros Hn Hn'. apply append_sep_inj; by eapply no_tilde. Qed.

(** Transactions whose databases all have valid names. *)
Definition names_valid db (txs : list DataTxEnvelope) : Prop :=
  ∀ env o, env ∈ txs → o ∈ DbOperations (DEnv_Payload env) → ValidDBName db (DbName o) = true.

Lemma pend_del_iff db p prior n k :
  pending_rep p prior → names_valid db prior → ValidDBName db n = true →
  pend_del p n k ↔ deleted_by prior n k.
Proof.
  intros [_ Hd] Hv Hn. unfold pend_del, existDelete, deleted_by. rewrite bool_decide_eq_true, Hd. split.
  - intros (env & n' & k' & He & Hx & Heq). destruct Hx as (o & Ho & <- & Hk).
    apply (composite_inj db) in Heq as [-> ->]; [|done|by eapply Hv]. exists env. split; [done|]. by exists o.
  - intros (env & He & Hx). by exists env, n, k.
Qed.

Lemma pend_mod_iff db p prior n k :
  pending_rep p prior → names_valid db prior → ValidDBName db n = true →
  pend_mod p n k ↔ modified_by prior n k.
Proof.
  intros Hrep Hv Hn. pose proof Hrep as [Hw _]. pose proof (pend_del_iff db p prior n k Hrep Hv Hn) as Hdel.
  unfold pend_mod, exist, modified_by, modifies_key. unfold pend_del, existDelete in Hdel.
  rewrite orb_true_iff, Hdel, bool_decide_eq_true, Hw. split.
  - intros [(env & n' & k' & He & Hx & Heq)|(env & ? & ?)]; [|by eauto].
    destruct Hx as (o & Ho & <- & Hk).
    apply (composite_inj db) in Heq as [-> ->]; [|done|by eapply Hv].
    exists env. split; [done|]. left. by exists o.
  - intros (env & He & [Hx|Hx]); [left; by exists env, n, k|right; by exists env].
Qed.

Lemma data_tx_ok_ext db env users users' (d m d' m' : string → string → Prop) :
  (∀ u, u ∈ users ↔ u ∈ users') →
  (∀ n k, ValidDBName db n = true → d n k ↔ d' n k) → (∀ n k, ValidDBName db n = true → m n k ↔ m' n k) →
  data_tx_ok db env users d m → data_tx_ok db env users' d' m'.
Proof.
  intros Hu Hd Hm [Hun Hops]. split; [done|]. intros o Ho.
  destruct (Hops o Ho) as ([Hn ? ?] & acc & Hne & [H1 H2 H3 H4 H5 H6 H7] & Hacc & Hall).
  split; [done|]. exists acc. split; [done|]. split.
  - split; try done.
    + intros x Hx. destruct (H2 x Hx) as (x' & -> & Hnd & ?). exists x'. by rewrite <- Hd.
    + intros r Hr. rewrite <- Hm by done. auto.
    + intros k Hk. rewrite <- Hm by done. auto.
  - split; intros u; rewrite <- Hu; auto.
Qed.

(** ** Every transaction of a data block *)

Lemma zip_fst_lookup {A B} (l : list A) (r : list B) j x :
  length l = length r → l !! j = Some x → ∃ y, r !! j = Some y ∧ zip l r !! j = Some (x, y).
Proof.
  intros Hl Hj. assert (is_Some (r !! j)) as [y Hy].
  { apply lookup_lt_is_Some. rewrite <- Hl. eapply lookup_lt_Some; eauto. }
  exists y. split; [done|]. apply lookup_zip_with_Some. eauto.
Qed.

Lemma elem_of_valid_before {A} (txs : list A) infos j x :
  x ∈ valid_before txs infos j ↔
  ∃ i info, i < j ∧ txs !! i = Some x ∧ infos !! i = Some info ∧ VI_Flag info = VALID.
Proof.
  unfold valid_before. rewrite list_elem_of_fmap. setoid_rewrite list_elem_of_filter. split.
  - intros ([x' info] & -> & Hv & [i Hi]%list_elem_of_lookup). cbn in *.
    apply lookup_take_Some in Hi as [Hi Hij].
    apply lookup_zip_with_Some in Hi as (? & ? & [= <- <-] & ? & ?).
    exists i, info. split_and!; try done. apply is_valid_spec. by destruct (is_valid info).
  - intros (i & info & Hij & Hx & Hinfo & Hv). exists (x, info). split; [done|]. cbn. split.
    + apply is_valid_spec in Hv. by rewrite Hv.
    + apply list_elem_of_lookup. exists i. apply lookup_take_Some. split; [|done].
      apply lookup_zip_with_Some. eauto.
Qed.

(** In a data block, a transaction is marked valid exactly when it is valid after
    the valid transactions before it. *)
Lemma ValidateBlock_data db block envs infos :
  ValidateBlock db block = Ok infos → Number (BaseHeader (Header block)) ≠ 1%Z →
  Payload block = Some (Block_DataTxEnvelopes envs) →
  length infos = length envs ∧
  ∀ j env info, envs !! j = Some env → infos !! j = Some info →
    VI_Flag info = VALID ↔ data_tx_valid db env (valid_before envs infos j).
Proof.
  unfold ValidateBlock. intros H Hnum Hp. rewrite bool_decide_eq_false_2 in H by done.
  rewrite Hp in H. inv_res. unfold parallelSigValidation in H0.
  pose proof (res_mapM_length _ _ _ H0) as Hlen.
  assert (Hfst : (zip envs x).*1 = envs) by (apply fst_zip; lia).
  assert (Hinfos : length infos = length envs).
  { rewrite (validateDataTxs_length _ _ _ _ H), length_zip_with. lia. }
  split; [done|]. intros j. induction j as [j IH] using lt_wf_ind. intros env info Hj Hi.
  destruct (zip_fst_lookup envs x j env ltac:(done) Hj) as ([users sig] & Hx & Hz).
  destruct (res_mapM_lookup _ _ _ _ _ H0 Hj) as (y & Hy & Hsig). simplify_eq.
  destruct (validateDataTxs_spec _ _ _ _ _ H pending_rep_new j env users sig info Hz Hi)
    as (p' & Hrep & Hiff). rewrite Hfst in Hrep. cbn in Hrep.
  set (prior := valid_before envs infos j) in *.
  assert (Hnames : names_valid db prior).
  { intros e o He Ho. apply elem_of_valid_before in He as (i & info' & Hij & Hei & Hii & Hv).
    apply (IH i Hij e info' Hei Hii) in Hv as (_ & us & _ & [_ Hops]).
    destruct (Hops o Ho) as [[Hn _ _] _]. done. }
  destruct (validateSignatures_spec _ _ _ _ Hsig) as [Hms Hus]. rewrite Hiff. split.
  - intros [Hv Hok]. split; [by apply Hms|]. exists users. split; [by apply Hus|].
    eapply data_tx_ok_ext; [done|..|done]; intros n k Hn;
      [eapply pend_del_iff|eapply pend_mod_iff]; done.
  - intros [Hm (us & Husers & Hok)]. split; [by apply Hms|].
    apply Hms in Hm. eapply data_tx_ok_ext; [|..|done].
    + intros u. by rewrite Husers, (Hus Hm).
    + intros n k Hn. symmetry. by eapply pend_del_iff.
    + intros n k Hn. symmetry. by eapply pend_mod_iff.
Qed.

(** ** Serial execution *)

(** The contents of all keys: a value and its metadata; [([], None)] is absence. *)
Definition contents := string → string → bytes * option Metadata.

Definition committed db : contents :=
  fun n k => match Get db n k with Ok c => c | _ => ([], None) end.

(** The version of a key. *)
Definition version_in (st : contents) (n k : string) : option Version := GetVersion_of (st n k).2.

(** Executing one transaction: keys it writes get its values and its version, keys
    it deletes disappear. *)
Definition deletesb (env : DataTxEnvelope) (n k : string) : bool :=
  existsb (fun o => bool_decide (DbName o = n) && bool_decide (k ∈ delete_keys o)) (DbOperations (DEnv_Payload env)).

Definition find_write (env : DataTxEnvelope) (n k : string) : option DataWrite :=
  head (DbOperations (DEnv_Payload env) ≫= fun o =>
          if bool_decide (DbName o = n) then filter (fun w => DW_Key w = k) (omap id (DataWrites o)) else []).

Definition written (blockNum : Z) (txNum : nat) (w : DataWrite) : bytes * option Metadata :=
  (DW_Value w, Some (mkMetadata (Some (mkVersion blockNum (Z.of_nat txNum))) (DW_Acl w))).

Definition execute (blockNum : Z) (txNum : nat) (env : DataTxEnvelope) (st : contents) : contents :=
  fun n k =>
    if deletesb env n k then ([], None)
    else match find_write env n k with
         | Some w => written blockNum txNum w
         | None => st n k
         end.

(** Executing the valid transactions one after the other, numbered from [i]. *)
Fixpoint execute_serially (blockNum : Z) (i : nat) (txs : list (DataTxEnvelope * ValidationInfo)) (st : contents)
    : contents :=
  match txs with
  | [] => st
  | (env, info) :: txs =>
    execute_serially blockNum (S i) txs (if is_valid info then execute blockNum i env st else st)
  end.

Lemma deletesb_spec env n k : deletesb env n k = true ↔ deletes_key env n k.
Proof.
  unfold deletesb, deletes_key. rewrite existsb_elem. setoid_rewrite andb_true_iff.
  by setoid_rewrite bool_decide_eq_true.
Qed.

Lemma find_write_some env n k w :
  find_write env n k = Some w →
  ∃ o, o ∈ DbOperations (DEnv_Payload env) ∧ DbName o = n ∧ Some w ∈ DataWrites o ∧ DW_Key w = k.
Proof.
  unfold find_write. intros Hw%head_Some_elem_of. apply list_elem_of_bind in Hw as (o & Hw & Ho).
  case_bool_decide; [|set_solver]. apply list_elem_of_filter in Hw as [? ?%elem_of_omap_id]. eauto.
Qed.

Lemma find_write_none env n k : find_write env n k = None ↔ ¬ writes_key env n k.
Proof.
  unfold find_write. rewrite head_None. split.
  - intros Hnil (o & Ho & <- & Hk). unfold write_keys in Hk.
    apply list_elem_of_fmap in Hk as (w & -> & Hw). eapply (elem_of_nil w). rewrite <- Hnil.
    apply list_elem_of_bind. exists o. rewrite bool_decide_eq_true_2 by done. split; [|done].
    by apply list_elem_of_filter.
  - intros Hn. apply elem_of_nil_inv. intros w (o & Hw & Ho)%list_elem_of_bind.
    case_bool_decide as Hb; [|set_solver]. apply list_elem_of_filter in Hw as [<- Hw].
    apply Hn. exists o. split_and!; [done..|]. by apply list_elem_of_fmap_2.
Qed.

Lemma execute_other b i env st n k : ¬ modifies_key env n k → execute b i env st n k = st n k.
Proof.
  intros Hn. unfold execute, modifies_key in *.
  destruct (deletesb env n k) eqn:Ed; [apply deletesb_spec in Ed; tauto|].
  by rewrite (proj2 (find_write_none env n k)) by tauto.
Qed.

Lemma execute_serially_other b i txs st n k :
  (∀ env info, (env, info) ∈ txs → is_valid info = true → ¬ modifies_key env n k) →
  execute_serially b i txs st n k = st n k.
Proof.
  revert i st. induction txs as [|[env info] txs IH]; intros i st H; cbn; [done|].
  rewrite IH by set_solver. destruct (is_valid info) eqn:Ei; [|done].
  apply execute_other. eapply H; [by left|done].
Qed.

Lemma valid_before_take {A} (txs : list A) infos j x info :
  (x, info) ∈ take j (zip txs infos) → is_valid info = true → x ∈ valid_before txs infos j.
Proof.
  intros Hin Hv. unfold valid_before. apply list_elem_of_fmap. exists (x, info). split; [done|].
  apply list_elem_of_filter. split; [|done]. cbn. by rewrite Hv.
Qed.

Lemma data_tx_valid_read db env prior o r :
  data_tx_valid db env prior → o ∈ DbOperations (DEnv_Payload env) → r ∈ DataReads o →
  ¬ modified_by prior (DbName o) (DR_Key r) ∧ GetVersion db (DbName o) (DR_Key r) = Ok (DR_Version r).
Proof.
  intros (_ & us & _ & [_ Hops]) Ho Hr. destruct (Hops o Ho) as (_ & acc & _ & [_ _ _ _ _ Hc _] & _). auto.
Qed.

Lemma data_tx_valid_modifies db env prior n k :
  data_tx_valid db env prior → modifies_key env n k → ¬ modified_by prior n k.
Proof.
  intros (_ & us & _ & [_ Hops]) [(o & Ho & <- & Hk)|(o & Ho & <- & Hk)];
    destruct (Hops o Ho) as (_ & acc & _ & [_ _ _ _ _ _ Hc] & _); apply Hc;
    unfold modified_keys; set_solver.
Qed.

(** C1: the validator marks a transaction of a data block valid exactly when it
    satisfies the declarative specification of a valid transaction (signatures,
    databases, access control, existence of deleted keys, uniqueness, read
    versions) relative to the valid transactions before it in the block. *)
Theorem data_block_valid_iff db block envs infos j env info :
  ValidateBlock db block = Ok infos → Number (BaseHeader (Header block)) ≠ 1%Z →
  Payload block = Some (Block_DataTxEnvelopes envs) →
  envs !! j = Some env → infos !! j = Some info →
  VI_Flag info = VALID ↔ data_tx_valid db env (valid_before envs infos j).
Proof. intros H Hn Hp. by apply (ValidateBlock_data _ _ _ _ H Hn Hp). Qed.

(** C2: the valid transactions of a data block are serializable in block order:
    every version a valid transaction has read is the version its key has after
    the committed state is changed by the valid transactions before it, one
    after the other. *)
Theorem data_block_serializable db block envs infos j env info o r :
  ValidateBlock db block = Ok infos → Number (BaseHeader (Header block)) ≠ 1%Z →
  Payload block = Some (Block_DataTxEnvelopes envs) →
  envs !! j = Some env → infos !! j = Some info → VI_Flag info = VALID →
  o ∈ DbOperations (DEnv_Payload env) → r ∈ DataReads o →
  version_in (execute_serially (Number (BaseHeader (Header block))) 0 (take j (zip envs infos)) (committed db))
    (DbName o) (DR_Key r) = DR_Version r.
Proof.
  intros H Hn Hp Hj Hi Hv Ho Hr. destruct (ValidateBlock_data _ _ _ _ H Hn Hp) as [_ Hall].
  apply (Hall j env info Hj Hi) in Hv.
  destruct (data_tx_valid_read _ _ _ _ _ Hv Ho Hr) as [Hm Hver].
  unfold version_in. rewrite execute_serially_other.
  - unfold committed. rewrite get_version_get in Hver. destruct (Get db (DbName o) (DR_Key r)) as [[]| |]; cbn in *;
      by inv_res.
  - intros e inf Hin Hval Hmod. apply Hm. exists e. eauto using valid_before_take.
Qed.

(** No key is modified by two valid transactions of a data block: of the
    transactions that write or delete a key, at most one is valid. *)
Theorem data_block_no_lost_update db block envs infos i j env env' info info' n k :
  ValidateBlock db block = Ok infos → Number (BaseHeader (Header block)) ≠ 1%Z →
  Payload block = Some (Block_DataTxEnvelopes envs) → i ≠ j →
  envs !! i = Some env → infos !! i = Some info → VI_Flag info = VALID →
  envs !! j = Some env' → infos !! j = Some info' → VI_Flag info' = VALID →
  modifies_key env n k → ¬ modifies_key env' n k.
Proof.
  intros H Hn Hp. destruct (ValidateBlock_data _ _ _ _ H Hn Hp) as [_ Hall].
  assert (Hlt : ∀ a b ea eb ia ib, a < b → envs !! a = Some ea → infos !! a = Some ia → VI_Flag ia = VALID →
    envs !! b = Some eb → infos !! b = Some ib → VI_Flag ib = VALID →
    modifies_key ea n k → ¬ modifies_key eb n k).
  { intros a b ea eb ia ib Hab Ha Hia Hva Hb Hib Hvb Hma Hmb.
    apply (Hall b eb ib Hb Hib) in Hvb. eapply data_tx_valid_modifies; [done..|].
    exists ea. split; [|done]. apply elem_of_valid_before. eauto 10. }
  intros Hij Hei Hii Hvi Hej Hij' Hvj Hm Hm'.
  destruct (Nat.lt_trichotomy i j) as [?|[?|?]]; [|done|]; eapply Hlt; eauto.
Qed.

(** C35: a valid data transaction is authorised: it touches existing databases
    that are not system databases, some of its signers has read-write access to
    each of them, and the signers with that access satisfy the write policy of
    every key it writes or deletes. *)
Theorem data_tx_authorised db block envs infos j env info o :
  ValidateBlock db block = Ok infos → Number (BaseHeader (Header block)) ≠ 1%Z →
  Payload block = Some (Block_DataTxEnvelopes envs) →
  envs !! j = Some env → infos !! j = Some info → VI_Flag info = VALID →
  o ∈ DbOperations (DEnv_Payload env) →
  Exist db (DbName o) = true ∧ IsSystemDB (DbName o) = false ∧
  (∃ u, signer db env u ∧ HasReadWriteAccess db u (DbName o) = Ok true) ∧
  ∀ k acl, k ∈ modified_keys o → GetACL db (DbName o) k = Ok (Some acl) →
    ReadWriteUsers acl ≠ ∅ ∧
    match SignPolicyForWrite acl with
    | AccessControl_ANY =>
      ∃ u, signer db env u ∧ HasReadWriteAccess db u (DbName o) = Ok true ∧ mget (ReadWriteUsers acl) u = true
    | AccessControl_ALL =>
      ∀ u, is_Some (ReadWriteUsers acl !! u) →
           signer db env u ∧ HasReadWriteAccess db u (DbName o) = Ok true
    | AccessControl_Unknown _ => True
    end.
Proof.
  intros H Hn Hp Hj Hi Hv Ho. destruct (ValidateBlock_data _ _ _ _ H Hn Hp) as [_ Hall].
  apply (Hall j env info Hj Hi) in Hv as (_ & us & Hus & [_ Hops]).
  destruct (Hops o Ho) as ([_ He Hs] & acc & Hne & [_ _ _ _ Hw _ _] & Hacc & _).
  assert (Hau : ∀ u, u ∈ acc ↔ signer db env u ∧ HasReadWriteAccess db u (DbName o) = Ok true)
    by (intros u; by rewrite Hacc, Hus).
  split_and!; [done..| |].
  - destruct acc as [|u acc]; [done|]. exists u. apply Hau. set_solver.
  - intros k acl Hk Hacl. destruct (Hw k Hk) as (acl' & Hacl' & Hcase).
    rewrite Hacl in Hacl'. injection Hacl' as <-. cbn in Hcase. destruct Hcase as [Hemp Hpol].
    split; [done|]. destruct (SignPolicyForWrite acl); [| |done].
    + destruct Hpol as (u & Hu%Hau & Hm). naive_solver.
    + intros u Hu. by apply Hau, Hpol.
Qed.

End Isolation.

(** ** Witnesses: a block on the state of [Instances] *)

Module IsolationExample.
Import Toy.

Definition envs4 : list DataTxEnvelope :=
  [data_tx "alice" 1 "tx0" (data_op [("k1", version 3 0)] ["k1"] []);
   data_tx "bob" 2 "tx1" (data_op [("k2", None)] ["k2"] []);
   data_tx "alice" 1 "tx2" (data_op [("k1", version 3 0)] ["k3"] []);
   data_tx "bob" 2 "tx3" (data_op [] [] ["k1"])].

Definition block4 : Block := mkBlock (header 4) (Some (Block_DataTxEnvelopes envs4)) None.

Definition infos4 : list ValidationInfo :=
  [valid; valid;
   invalid INVALID_MVCC_CONFLICT_WITHIN_BLOCK
     "mvcc conflict has occurred within the block for the key [k1] in database [db1]";
   invalid INVALID_MVCC_CONFLICT_WITHIN_BLOCK
     "mvcc conflict has occurred within the block for the key [k1] in database [db1]. Within a block, a key can be modified only once"].

Lemma block4_validates : ValidateBlock state3 block4 = Ok infos4.
Proof. vm_compute. reflexivity. Qed.

Lemma data_block_valid_iff_witness :
  (VI_Flag valid = VALID ↔
   data_tx_valid state3 (data_tx "bob" 2 "tx1" (data_op [("k2", None)] ["k2"] []))
     (valid_before envs4 infos4 1)).
Proof. by apply (data_block_valid_iff state3 block4 envs4 infos4 1 _ valid block4_validates). Defined.

Lemma data_block_serializable_witness :
  version_in (execute_serially 4 0 (take 1 (zip envs4 infos4)) (committed state3)) "db1" "k2" = None.
Proof.
  apply (data_block_serializable state3 block4 envs4 infos4 1
           (data_tx "bob" 2 "tx1" (data_op [("k2", None)] ["k2"] [])) valid
           (data_op [("k2", None)] ["k2"] []) (mkDataRead "k2" None) block4_validates);
    try done; by left.
Defined.

Lemma data_block_no_lost_update_witness :
  ¬ modifies_key (data_tx "bob" 2 "tx1" (data_op [("k2", None)] ["k2"] [])) "db1" "k1".
Proof.
  apply (data_block_no_lost_update state3 block4 envs4 infos4 0 1
           (data_tx "alice" 1 "tx0" (data_op [("k1", version 3 0)] ["k1"] [])) _ valid valid
           "db1" "k1" block4_validates); try done.
  left. exists (data_op [("k1", version 3 0)] ["k1"] []). split; [by left|]. split; [done|]. by left.
Defined.

Lemma data_tx_authorised_witness :
  Exist state3 "db1" = true ∧ IsSystemDB "db1" = false.
Proof.
  pose proof (data_tx_authorised state3 block4 envs4 infos4 0
           (data_tx "alice" 1 "tx0" (data_op [("k1", version 3 0)] ["k1"] [])) valid
           (data_op [("k1", version 3 0)] ["k1"] []) block4_validates
           ltac:(done) eq_refl eq_refl eq_refl eq_refl ltac:(by left)) as (H1 & H2 & _).
  exact (conj H1 H2).
Defined.

End IsolationExample.
