(* ===== verification/AdminTx.v ===== *)
(** * Administration blocks

    What [ValidateBlock] guarantees of the blocks that hold one user
    administration, database administration or configuration transaction, and
    of the genesis block. *)

From S2P Require Import Prelude Types WorldState LevelDB Identity Validation.
From S2P Require Import DataTxValidator DataTxProofs UserTxValidator DbTxValidator ReConfig ConfigTxValidator.
From S2P Require Import Instances Validator BlockIsolation.

Section AdminTx.
Context `{!WorldState D, !Codec User, !TxMarshal DataTx, !TxMarshal UserAdministrationTx,
  !TxMarshal DBAdministrationTx, !TxMarshal ConfigTx} {x509 : X509} {mr : MapRange} {nt : NetTime}.
Implicit Types (db : D).

Definition not_genesis (block : Block) : Prop := Number (BaseHeader (Header block)) ≠ 1%Z.

(** A block with one administration transaction gets one verdict, that of its validator. *)
Lemma single_tx_verdict (m : res ValidationInfo) msg infos :
  (valRes ← wrap_err msg m; Ok [valRes]) = Ok infos →
  ∃ info, infos = [info] ∧ (VI_Flag info = VALID ↔ passes m).
Proof.
  intros H. inv_res. subst. exists x. split; [done|]. symmetry. apply passes_ok.
Qed.

Lemma ValidateBlock_user db block env infos :
  ValidateBlock db block = Ok infos → not_genesis block →
  Payload block = Some (Block_UserAdministrationTxEnvelope env) →
  ∃ info, infos = [info] ∧ (VI_Flag info = VALID ↔ user_tx_ok db env).
Proof.
  unfold ValidateBlock. intros H Hn Hp. rewrite bool_decide_eq_false_2, Hp in H by done.
  apply single_tx_verdict in H as (info & -> & Hi). rewrite passes_userTx_validate in Hi. eauto.
Qed.

Lemma ValidateBlock_db db block env infos :
  ValidateBlock db block = Ok infos → not_genesis block →
  Payload block = Some (Block_DbAdministrationTxEnvelope env) →
  ∃ info, infos = [info] ∧ (VI_Flag info = VALID ↔ db_tx_ok db env).
Proof.
  unfold ValidateBlock. intros H Hn Hp. rewrite bool_decide_eq_false_2, Hp in H by done.
  apply single_tx_verdict in H as (info & -> & Hi). rewrite passes_dbTx_validate in Hi. eauto.
Qed.

Lemma ValidateBlock_config db block env infos :
  ValidateBlock db block = Ok infos → not_genesis block →
  Payload block = Some (Block_ConfigTxEnvelope env) →
  ∃ info, infos = [info] ∧ (VI_Flag info = VALID ↔ config_tx_with transition_passes db env).
Proof.
  unfold ValidateBlock. intros H Hn Hp. rewrite bool_decide_eq_false_2, Hp in H by done.
  apply single_tx_verdict in H as (info & -> & Hi). rewrite passes_configTx_Validate in Hi. eauto.
Qed.

(** A user administration transaction is marked valid exactly when it is
    signed by an administrator, its entries are well formed and unique, its
    reads are current, and it may change every user it writes or deletes. *)
Theorem user_block_valid_iff db block env infos :
  ValidateBlock db block = Ok infos → not_genesis block →
  Payload block = Some (Block_UserAdministrationTxEnvelope env) →
  ∃ info, infos = [info] ∧ (VI_Flag info = VALID ↔ user_tx_ok db env).
Proof. apply ValidateBlock_user. Qed.

(** C38: administrators are changed only by configuration transactions: a valid
    user administration transaction is submitted by an administrator, and
    neither writes an entry with the administrator privilege nor writes or
    deletes a user that is an administrator. *)
Theorem user_tx_keeps_admins db block env infos :
  ValidateBlock db block = Ok infos → not_genesis block →
  Payload block = Some (Block_UserAdministrationTxEnvelope env) → is_valid <$> infos = [true] →
  HasAdministrationPrivilege db (UTx_UserId (UEnv_Payload env)) = Ok true ∧
  (∀ w u p, Some w ∈ UserWrites (UEnv_Payload env) → UW_User w = Some u →
     User_Privilege u = Some p → Admin_priv p = false) ∧
  (∀ id, id ∈ written_ids (UserWrites (UEnv_Payload env)) ∨ id ∈ deleted_ids (UserDeletes (UEnv_Payload env)) →
     HasAdministrationPrivilege db id ≠ Ok true).
Proof.
  intros H Hn Hp Hv. destruct (ValidateBlock_user _ _ _ _ H Hn Hp) as (info & -> & Hi).
  injection Hv as Hv. apply is_valid_spec, Hi in Hv as [_ Ha (ca & _ & He) Hw Hd _ _].
  split; [done|]. split.
  - intros w u p Hin Hu Hpriv. destruct (He _ Hin) as (u' & acl & [= ->] & [_ Hna _ _]).
    cbn in Hu. simplify_eq. eauto.
  - intros id [Hid|Hid].
    + destruct (Hw id Hid) as [[id' ->]|[-> _]]; done.
    + unfold deleted_ids in Hid. apply list_elem_of_fmap in Hid as (d & -> & Hdel%elem_of_omap_id).
      destruct (Hd _ Hdel) as (? & [= <-] & _ & [-> _]). done.
Qed.

(** A database administration transaction is marked valid exactly when it is
    signed by an administrator, creates only new and deletes only existing user
    databases (never a system or the default one), each once, and defines indexes
    only for databases it creates, with known attribute types. *)
Theorem db_block_valid_iff db block env infos :
  ValidateBlock db block = Ok infos → not_genesis block →
  Payload block = Some (Block_DbAdministrationTxEnvelope env) →
  ∃ info, infos = [info] ∧ (VI_Flag info = VALID ↔ db_tx_ok db env).
Proof. apply ValidateBlock_db. Qed.


(** C37: the genesis block is accepted exactly when its configuration is well
    formed: then its one verdict is valid; a malformed configuration is an
    error, never an invalid transaction. *)
Theorem genesis_wf db block env config :
  Number (BaseHeader (Header block)) = 1%Z → Payload block = Some (Block_ConfigTxEnvelope env) →
  NewConfig (CEnv_Payload env) = Some config →
  (ValidateBlock db block = Ok [valid] ↔ wf_config config) ∧
  (∀ infos, ValidateBlock db block = Ok infos → infos = [valid]).
Proof.
  intros Hn Hp Hc. unfold ValidateBlock, validateGenesis.
  rewrite bool_decide_eq_true_2, Hp, Hc by done. unfold wf_config.
  rewrite <- passes_validateConfig.
  destruct (validateConfig (Some config)) as [vi|e|w]; cbn.
  - rewrite passes_ok, <- is_valid_spec. destruct (is_valid vi); naive_solver.
  - split; [split; [done|by intros ?%passes_err]|done].
  - split; [split; [done|by intros ?%passes_panic]|done].
Qed.

(** A valid configuration transaction changes the membership of a well-formed
    configuration safely: at most one member is added or removed, remaining
    members keep their Raft ID, and a new member's Raft ID is above the maximum
    ever used. *)
Theorem config_tx_membership db block env infos cur meta ccur new cnew :
  ValidateBlock db block = Ok infos → not_genesis block →
  Payload block = Some (Block_ConfigTxEnvelope env) → is_valid <$> infos = [true] →
  GetConfig db = Ok (cur, meta) → wf_config cur → Consensus cur = Some ccur →
  NewConfig (CEnv_Payload env) = Some new → Consensus new = Some cnew →
  size (member_ids cnew ∖ member_ids ccur) + size (member_ids ccur ∖ member_ids cnew) ≤ 1 ∧
  (∀ p q, has_member cnew p → has_member ccur q → NodeId p = NodeId q → RaftId p = RaftId q) ∧
  (∀ p, has_member cnew p → NodeId p ∉ member_ids ccur →
     ∃ c, CC_RaftConfig ccur = Some c ∧ (MaxRaftId c < RaftId p)%Z).
Proof.
  intros H Hn Hp Hv Hg Hwf Hcc Hnew Hcn. destruct (ValidateBlock_config _ _ _ _ H Hn Hp) as (info & -> & Hi).
  injection Hv as Hv. apply is_valid_spec, Hi in Hv as [_ _ (new' & cur' & meta' & H1 & Hwf' & H2 & _ & Ht)].
  rewrite Hg in H2. rewrite Hnew in H1. simplify_eq.
  by destruct (transition_reconfig _ _ _ _ Ht Hwf Hwf' Hcc Hcn).
Qed.

End AdminTx.

(** ** Witnesses *)

Module AdminExample.
Import Toy.

Definition carol : User := user "carol" 3 false {["db1" := 0%Z]}.
Definition user_tx : UserAdministrationTx :=
  mkUserAdministrationTx "admin" "utx" [mkUserRead "carol" None]
    [Some (mkUserWrite (Some carol) None)] [Some (mkUserDelete "bob")].
Definition user_env : UserAdministrationTxEnvelope := mkUserAdministrationTxEnvelope user_tx (sign 0 user_tx).
Definition user_block : Block := mkBlock (header 4) (Some (Block_UserAdministrationTxEnvelope user_env)) None.

Lemma user_block_validates : ValidateBlock state3 user_block = Ok [valid].
Proof. vm_compute. reflexivity. Qed.

Lemma user_block_valid_iff_witness :
  ∃ info, [valid] = [info] ∧ (VI_Flag info = VALID ↔ user_tx_ok state3 user_env).
Proof. by apply (user_block_valid_iff state3 user_block user_env [valid] user_block_validates). Defined.

Lemma user_tx_keeps_admins_witness : HasAdministrationPrivilege state3 "admin" = Ok true.
Proof.
  exact (proj1 (user_tx_keeps_admins state3 user_block user_env [valid] user_block_validates
                  ltac:(done) eq_refl eq_refl)).
Defined.

Definition db_tx : DBAdministrationTx :=
  mkDBAdministrationTx "admin" "dtx" ["db2"] ["db1"]
    {["db2" := Some (mkDBIndex {["age" := IndexAttributeType_NUMBER]})]}.
Definition db_env : DBAdministrationTxEnvelope := mkDBAdministrationTxEnvelope db_tx (sign 0 db_tx).
Definition db_block : Block := mkBlock (header 4) (Some (Block_DbAdministrationTxEnvelope db_env)) None.

Lemma db_block_validates : ValidateBlock state3 db_block = Ok [valid].
Proof. vm_compute. reflexivity. Qed.

Lemma db_block_valid_iff_witness :
  ∃ info, [valid] = [info] ∧ (VI_Flag info = VALID ↔ db_tx_ok state3 db_env).
Proof. by apply (db_block_valid_iff state3 db_block db_env [valid] db_block_validates). Defined.

(** A second node joins. *)
Definition config2 : ClusterConfig :=
  cluster [node_config; mkNodeConfig "node2" "node" 6002 (cert 8)]
    [peer_config; mkPeerConfig "node2" 2 "node" 7002] 1.
Definition config_tx : ConfigTx := mkConfigTx "admin" "ctx" (version 1 0) (Some config2).
Definition config_env : ConfigTxEnvelope := mkConfigTxEnvelope config_tx (sign 0 config_tx).
Definition config_block : Block := mkBlock (header 4) (Some (Block_ConfigTxEnvelope config_env)) None.

Lemma config_block_validates : ValidateBlock state3 config_block = Ok [valid].
Proof. vm_compute. reflexivity. Qed.

Definition genesis_env : ConfigTxEnvelope :=
  mkConfigTxEnvelope (mkConfigTx "" "genesis" None (Some config1)) [].
Definition genesis_block : Block := mkBlock (header 1) (Some (Block_ConfigTxEnvelope genesis_env)) None.

Lemma genesis_wf_witness :
  ValidateBlock LDB.openNewLevelDBInstance genesis_block = Ok [valid] ↔ wf_config config1.
Proof. by apply (genesis_wf LDB.openNewLevelDBInstance genesis_block genesis_env config1). Defined.

Lemma config1_wf : wf_config config1.
Proof.
  apply passes_validateConfig.
  assert (H : validateConfig (Some config1) = Ok valid) by (vm_compute; reflexivity).
  rewrite H. apply passes_valid.
Qed.



Lemma state3_config : GetConfig state3 = Ok (config1, meta 1 0).
Proof. vm_compute. reflexivity. Qed.

Lemma config_tx_membership_witness :
  size (member_ids (consensus [peer_config; mkPeerConfig "node2" 2 "node" 7002] 1)
          ∖ member_ids (consensus [peer_config] 1)) +
  size (member_ids (consensus [peer_config] 1)
          ∖ member_ids (consensus [peer_config; mkPeerConfig "node2" 2 "node" 7002] 1)) ≤ 1.
Proof.
  exact (proj1 (config_tx_membership state3 config_block config_env [valid] config1 (meta 1 0) _ config2 _
                  config_block_validates ltac:(done) eq_refl eq_refl state3_config config1_wf
                  eq_refl eq_refl eq_refl)).
Defined.

End AdminExample.
