(* ===== verification/DbEntries.v ===== *)
(** * Entries of identities

    [internal/identity/db_entries.go]: the world state and provenance entries of
    user administration and configuration transactions. *)

From S2P Require Import Prelude Types WorldState Identity UserTxValidator.
From Stdlib Require Import Ascii.

(** [provenance.KeyWithVersion] and [provenance.TxDataForProvenance]. *)
Record KeyWithVersion := mkKeyWithVersion { KWV_Key : string; KWV_Version : option Version }.

Record TxDataForProvenance := mkTxDataForProvenance {
  PD_IsValid : bool;
  PD_DBName : string;
  PD_UserID : string;
  PD_TxID : string;
  PD_Reads : list KeyWithVersion;
  PD_Writes : list KVWithMetadata;
  PD_Deletes : gmap string (option Version);
  PD_OldVersionOfWrites : gmap string (option Version);
}.

(** The record of an invalid transaction. *)
Definition invalidTxData (txID : string) : TxDataForProvenance :=
  mkTxDataForProvenance false "" "" txID [] [] ∅ ∅.

Section DbEntries.
Context `{!WorldState D, !Codec User, !Codec NodeConfig} {mr : MapRange}.
Implicit Types (db : D).

(** ** Users *)

Definition userWriteEntry (version : Version) (w : option UserWrite) : res KVWithMetadata :=
  w ← deref w; u ← deref (UW_User w);
  userSerialized ← wrap_err "error while marshaling user" (Marshal u);
  Ok (mkKVWithMetadata (UserNamespace +:+ User_Id u) userSerialized
        (Some (mkMetadata (Some version) (UW_Acl w)))).

Definition ConstructDBEntriesForUserAdminTx (tx : UserAdministrationTx) (version : Version) : res DBUpdates :=
  userWrites ← res_mapM (userWriteEntry version) (UserWrites tx);
  userDeletes ← res_mapM (fun d => d ← deref d; Ok (UserNamespace +:+ UD_UserId d)) (UserDeletes tx);
  Ok (mkDBUpdates userWrites userDeletes).

Definition provUserWrite db (version : Version) (txData : TxDataForProvenance) (w : option UserWrite)
    : res TxDataForProvenance :=
  w ← deref w; u ← deref (UW_User w);
  userSerialized ← wrap_err "error while marshaling user" (Marshal u);
  let kv := mkKVWithMetadata (User_Id u) userSerialized (Some (mkMetadata (Some version) (UW_Acl w))) in
  let txData := mkTxDataForProvenance (PD_IsValid txData) (PD_DBName txData) (PD_UserID txData) (PD_TxID txData)
                  (PD_Reads txData) (PD_Writes txData ++ [kv]) (PD_Deletes txData) (PD_OldVersionOfWrites txData) in
  match GetUserVersion db (User_Id u) with
  | Err (UserNotFoundErr _) => Ok txData
  | Err e => Err e
  | Panic s => Panic s
  | Ok v =>
    Ok (mkTxDataForProvenance (PD_IsValid txData) (PD_DBName txData) (PD_UserID txData) (PD_TxID txData)
          (PD_Reads txData) (PD_Writes txData) (PD_Deletes txData)
          (<[User_Id u := v]> (PD_OldVersionOfWrites txData)))
  end.

(** [txData.Deletes[id] = version] *)
Definition addProvDelete (txData : TxDataForProvenance) (id : string) (v : option Version) : TxDataForProvenance :=
  mkTxDataForProvenance (PD_IsValid txData) (PD_DBName txData) (PD_UserID txData) (PD_TxID txData)
    (PD_Reads txData) (PD_Writes txData) (<[id := v]> (PD_Deletes txData)) (PD_OldVersionOfWrites txData).

Definition ConstructProvenanceEntriesForUserAdminTx (tx : UserAdministrationTx) (version : Version) db
    : res TxDataForProvenance :=
  let txData := mkTxDataForProvenance true UsersDBName (UTx_UserId tx) (UTx_TxId tx)
                  ((fun r => mkKeyWithVersion (UR_UserId r) (UR_Version r)) <$> UserReads tx) [] ∅ ∅ in
  txData ← res_foldM (provUserWrite db version) txData (UserWrites tx);
  res_foldM (fun txData d =>
    d ← deref d; v ← GetUserVersion db (UD_UserId d);
    Ok (addProvDelete txData (UD_UserId d) v)) txData (UserDeletes tx).

(** ** Administrators *)

Fixpoint adminsByID (admins : list (option Admin)) (acc : gmap string Admin) : res (gmap string Admin) :=
  match admins with
  | [] => Ok acc
  | a :: admins => a ← deref a; adminsByID admins (<[Admin_Id a := a]> acc)
  end.

(** The loop over the old administrators: unchanged ones need no write, missing
    ones are deleted. *)
Fixpoint oldAdmins_loop (oldAdmins : list (option Admin)) (newAdms : gmap string Admin) (deletes : list string)
    : res (gmap string Admin * list string) :=
  match oldAdmins with
  | [] => Ok (newAdms, deletes)
  | oldAdm :: oldAdmins =>
    oldAdm ← deref oldAdm;
    match newAdms !! Admin_Id oldAdm with
    | Some a =>
      oldAdmins_loop oldAdmins (if bool_decide (oldAdm = a) then delete (Admin_Id oldAdm) newAdms else newAdms) deletes
    | None => oldAdmins_loop oldAdmins newAdms (deletes ++ [UserNamespace +:+ Admin_Id oldAdm])
    end
  end.

(** The user entry of an administrator. *)
Definition adminUser (a : Admin) : User :=
  mkUser (Admin_Id a) (Admin_Certificate a) (Some (mkPrivilege ∅ true)).

Definition adminWriteEntry (version : Version) (a : Admin) : res KVWithMetadata :=
  match Marshal (adminUser a) with
  | Ok value => Ok (mkKVWithMetadata (UserNamespace +:+ Admin_Id a) value (Some (mkMetadata (Some version) None)))
  | Err _ => Err (PlainErr "error marshaling admin user")
  | Panic w => Panic w
  end.

Definition someUpdates (kvWrites : list KVWithMetadata) (deletes : list string) : option DBUpdates :=
  if bool_decide (length kvWrites = 0) && bool_decide (length deletes = 0) then None
  else Some (mkDBUpdates kvWrites deletes).

Definition ConstructDBEntriesForClusterAdmins (oldAdmins newAdmins : list (option Admin)) (version : Version)
    : res (option DBUpdates) :=
  newAdms ← adminsByID newAdmins ∅;
  '(newAdms, deletes) ← oldAdmins_loop oldAdmins newAdms [];
  kvWrites ← res_mapM (adminWriteEntry version) (range newAdms).*2;
  Ok (someUpdates kvWrites deletes).

(** [strings.Split(ckey, string(UserNamespace))[1]] *)
Definition getUserIDFromCompositeUserKey (ckey : string) : res string :=
  match strings_split "000"%char ckey !! 1 with
  | Some s => Ok s
  | None => Panic "index out of range [1] with length 1"
  end.

Definition getNodeIDFromCompositeUserKey : string → res string := getUserIDFromCompositeUserKey.

(** The provenance entry of identity updates, with the lookup of the current
    version of an identity and the wrapping of its errors. *)
Definition provIdentityUpdates (getVersion : string → res (option Version))
    (wrap : res (option Version) → res (option Version)) (txData : TxDataForProvenance)
    (updates : option DBUpdates) : res TxDataForProvenance :=
  match updates with
  | None => Ok txData
  | Some updates =>
    txData ← res_foldM (fun txData w =>
      id ← getUserIDFromCompositeUserKey (KV_Key w);
      let kv := mkKVWithMetadata id (KV_Value w) (KV_Metadata w) in
      old ← match getVersion id with
            | Err (UserNotFoundErr _) => Ok (PD_OldVersionOfWrites txData)
            | r => v ← wrap r; Ok (<[id := v]> (PD_OldVersionOfWrites txData))
            end;
      Ok (mkTxDataForProvenance (PD_IsValid txData) (PD_DBName txData) (PD_UserID txData) (PD_TxID txData)
            (PD_Reads txData) (PD_Writes txData ++ [kv]) (PD_Deletes txData) old)) txData (Writes updates);
    res_foldM (fun txData d =>
      id ← getUserIDFromCompositeUserKey d; v ← wrap (getVersion id);
      Ok (addProvDelete txData id v)) txData (Deletes updates)
  end.

Definition ConstructProvenanceEntriesForClusterAdmins (userID txID : string) (adminUpdates : option DBUpdates) db
    : res TxDataForProvenance :=
  provIdentityUpdates (GetUserVersion db) id (mkTxDataForProvenance true UsersDBName userID txID [] [] ∅ ∅) adminUpdates.

(** ** Nodes *)

Fixpoint nodeMap (nodes : list (option NodeConfig)) (acc : gmap string NodeConfig) : res (gmap string NodeConfig) :=
  match nodes with
  | [] => Ok acc
  | n :: nodes => n ← deref n; nodeMap nodes (<[Node_Id n := n]> acc)
  end.

Fixpoint oldNodes_loop (oldNodes : list (option NodeConfig)) (nodes : gmap string NodeConfig) (deletes : list string)
    : res (gmap string NodeConfig * list string) :=
  match oldNodes with
  | [] => Ok (nodes, deletes)
  | oldNode :: oldNodes =>
    oldNode ← deref oldNode;
    match nodes !! Node_Id oldNode with
    | Some n =>
      oldNodes_loop oldNodes (if bool_decide (oldNode = n) then delete (Node_Id oldNode) nodes else nodes) deletes
    | None => oldNodes_loop oldNodes nodes (deletes ++ [NodeNamespace +:+ Node_Id oldNode])
    end
  end.

Definition nodeWriteEntry (version : Version) (n : NodeConfig) : res KVWithMetadata :=
  value ← Marshal n;
  Ok (mkKVWithMetadata (NodeNamespace +:+ Node_Id n) value (Some (mkMetadata (Some version) None))).

Definition ConstructDBEntriesForNodes (oldNodes newNodes : list (option NodeConfig)) (version : Version)
    : res (option DBUpdates) :=
  nodes ← nodeMap newNodes ∅;
  '(nodes, deletes) ← oldNodes_loop oldNodes nodes [];
  kvWrites ← res_mapM (nodeWriteEntry version) (range nodes).*2;
  Ok (someUpdates kvWrites deletes).

Definition ConstructProvenanceEntriesForNodes (userID txID : string) (nodeUpdates : option DBUpdates) db
    : res TxDataForProvenance :=
  provIdentityUpdates (GetNodeVersion db) (wrap_err "error while fetching a node version")
    (mkTxDataForProvenance true ConfigDBName userID txID [] [] ∅ ∅) nodeUpdates.

End DbEntries.
