(* ===== verification/Provenance.v ===== *)
(** * The provenance store

    [internal/provenance/commit_and_query.go]: the graph that records who read,
    wrote and deleted which version of a key, and the queries on it.  The graph database
    is an interface: a batch of quads that is written and closed, and the values of a
    path. *)

From S2P Require Import Prelude Types JSONPrint WorldState ProvenanceJSON DbEntries.
From Stdlib Require Import Ascii.
Open Scope Z_scope.

(** ** The graph database *)

(** An edge; its object is nil when a nil vertex was given. *)
Record Quad := mkQuad { Subject : string; Predicate : string; Object : option string }.

#[export] Instance Quad_eq_dec : EqDecision Quad.
Proof. solve_decision. Defined.

(** Paths through the graph, as the queries build them. *)
Inductive Path :=
  | StartPath (v : string)
  | OutAll (p : Path)
  | Out (p : Path) (predicate : string)
  | In (p : Path) (predicate : string)
  | Tag (p : Path) (name : string)
  | Back (p : Path) (name : string).

(** What the store uses of the graph database: a batch writer on a graph, which may
    write a part of the batch before it is closed; the values at the end of a path, the
    first of them, and the values reached from a vertex by repeated steps along a
    predicate, [-1] steps meaning any number. *)
Class Graph (G : Type) := {
  Writer : Type;
  NewWriter : G → Writer;
  WriteQuad : Writer → Quad → Writer * res unit;
  CloseWriter : Writer → G * res unit;
  graph_of : Writer → G;
  AllValues : G → Path → res (list string);
  FirstValue : G → Path → res (option string);
  FollowRecursive : G → option string → string → Z → res (list string);
}.

(** The end of a path, with the vertices that were tagged on the way. *)
Inductive reaches (has : Quad → Prop) : Path → list (string * string) → string → Prop :=
  | reach_start v : reaches has (StartPath v) [] v
  | reach_out_all p tags x pred y :
    reaches has p tags x → has (mkQuad x pred (Some y)) → reaches has (OutAll p) tags y
  | reach_out p tags x pred y :
    reaches has p tags x → has (mkQuad x pred (Some y)) → reaches has (Out p pred) tags y
  | reach_in p tags x pred y :
    reaches has p tags x → has (mkQuad y pred (Some x)) → reaches has (In p pred) tags y
  | reach_tag p tags x name :
    reaches has p tags x → reaches has (Tag p name) ((name, x) :: tags) x
  | reach_back p tags x name y :
    reaches has p tags x → (name, y) ∈ tags → reaches has (Back p name) tags y.

(** [n] steps along a predicate. *)
Fixpoint steps (has : Quad → Prop) (pred : string) (n : nat) (x y : string) : Prop :=
  match n with
  | O => x = y
  | S n => ∃ z, has (mkQuad x pred (Some z)) ∧ steps has pred n z y
  end.

(** At most [limit] steps, at least one. *)
Definition within (limit : Z) (n : nat) : Prop := (1 ≤ n)%nat ∧ (limit = -1 ∨ Z.of_nat n ≤ limit).

(** How the graph database behaves when it does not fail. *)
Class GraphLaws (G : Type) `{!Graph G} := {
  has_quad : G → Quad → Prop;
  all_values g p :
    ∃ l, AllValues g p = Ok l ∧ ∀ x, x ∈ l ↔ ∃ tags, reaches (has_quad g) p tags x;
  first_value g p :
    ∃ o, FirstValue g p = Ok o ∧
      match o with
      | Some x => ∃ tags, reaches (has_quad g) p tags x
      | None => ∀ x tags, ¬ reaches (has_quad g) p tags x
      end;
  (** Loops are ignored: the start may or may not be among the values. *)
  follow_recursive g v pred limit : limit ≠ 0 →
    ∃ l, FollowRecursive g (Some v) pred limit = Ok l ∧
      (∀ x, x ∈ l → ∃ n, within limit n ∧ steps (has_quad g) pred n v x) ∧
      (∀ x n, x ≠ v → within limit n → steps (has_quad g) pred n v x → x ∈ l);
  (** A graph shows at least what it held before, and nothing that was not written. *)
  open_batch g qs q : let w := foldl (fun w q => (WriteQuad w q).1) (NewWriter g) qs in
    (has_quad g q → has_quad (graph_of w) q) ∧ (has_quad (graph_of w) q → has_quad g q ∨ q ∈ qs);
  closed_batch g qs g' q : CloseWriter (foldl (fun w q => (WriteQuad w q).1) (NewWriter g) qs) = (g', Ok tt) →
    has_quad g' q ↔ has_quad g q ∨ q ∈ qs;
}.

(** ** Keys *)

Definition separator : string := "$".

Definition constructCompositeKey (dbName key : string) : string := dbName +:+ separator +:+ key.

Definition splitCompositeKey (dbNameKey : string) : res (string * string) :=
  match strings_split "$" dbNameKey with
  | dbName :: key :: _ => Ok (dbName, key)
  | _ => Panic "index out of range [1] with length 1"
  end.

Definition SUBMITTED : string := "s".
Definition INCLUDES : string := "i".
Definition WRITES : string := "w".
Definition READS : string := "r".
Definition DELETES : string := "d".
Definition NEXT : string := "n".
Definition PREVIOUS : string := "p".

Section Store.
Context {G : Type} `{!Graph G} {mr : MapRange}.
Implicit Types (s : G).

(** ** Vertices *)

Definition vertexToValue (qv : string) : res ValueWithMetadata :=
  kv ← UnmarshalKV qv; Ok (mkValueWithMetadata (KV_Value kv) (KV_Metadata kv)).

Definition verticesToValues (qvs : list string) : res (list ValueWithMetadata) := res_mapM vertexToValue qvs.

Definition verticesToKVs (qvs : list string) : res (gmap string (list KVWithMetadata)) :=
  res_foldM (fun DBsKV qv =>
    kv ← UnmarshalKV qv;
    '(dbName, key) ← splitCompositeKey (KV_Key kv);
    Ok (<[dbName := default [] (DBsKV !! dbName) ++ [mkKVWithMetadata key (KV_Value kv) (KV_Metadata kv)]]> DBsKV))
    ∅ qvs.

Definition vertexToTxIDLocation (qv : string) : res TxIDLocation := UnmarshalLocation qv.

Definition getValueVertex s (dbName key : string) (version : option Version) : res (option string) :=
  FirstValue s (Out (StartPath (constructCompositeKey dbName key)) (MarshalVersion version)).

Definition getDeletedValuesWithoutLock s (dbName key : string) : res (list ValueWithMetadata) :=
  valueVertices ← AllValues s (Back (In (Tag (OutAll (StartPath (constructCompositeKey dbName key)))
                                        "deleted_value") DELETES) "deleted_value");
  verticesToValues valueVertices.

(** [val.Metadata.Version] *)
Definition versionOf (v : ValueWithMetadata) : res Version :=
  m ← deref (VWM_Metadata v); deref (Metadata_Version m).

Definition laterVersion (lastVer : Version) (val : ValueWithMetadata) : res Version :=
  v ← versionOf val; Ok (if BlockNum lastVer >? BlockNum v then lastVer else v).

Definition getLastDeletedVersion s (dbName key : string) : res (option Version) :=
  valuesWithMetadata ← wrap_err "error finding the last deleted version" (getDeletedValuesWithoutLock s dbName key);
  lastVer ← res_foldM laterVersion (mkVersion 0 0) valuesWithMetadata;
  Ok (if BlockNum lastVer =? 0 then None else Some lastVer).

(** ** Commit

    The error of [WriteQuad] is not looked at. *)

Definition writeQuad (q : Quad) : prog Writer unit := fun batch => ((WriteQuad batch q).1, Ok tt).

(** A query while the batch is open. *)
Definition query {A} (f : G → res A) : prog Writer A := fun batch => (batch, f (graph_of batch)).

Fixpoint for_each {A} (f : A → prog Writer unit) (l : list A) : prog Writer unit :=
  match l with
  | [] => mret tt
  | x :: l => f x;; for_each f l
  end.

Definition addReads (tx : TxDataForProvenance) : prog Writer unit :=
  for_each (fun read =>
    value ← query (fun s => getValueVertex s (PD_DBName tx) (KWV_Key read) (KWV_Version read));
    writeQuad (mkQuad (PD_TxID tx) READS value)) (PD_Reads tx).

(** The edges between a value and the one before it. *)
Definition linkOldValue (tx : TxDataForProvenance) (actualKey newValue : string) : prog Writer unit :=
  oldVersion ← match PD_OldVersionOfWrites tx !! actualKey with
               | Some v => mret (Some v)
               | None =>
                 lastVer ← query (fun s => getLastDeletedVersion s (PD_DBName tx) actualKey);
                 mret (Some <$> lastVer)
               end;
  match oldVersion with
  | None => mret tt
  | Some oldVersion =>
    oldValue ← query (fun s => getValueVertex s (PD_DBName tx) actualKey oldVersion);
    match oldValue with
    | None =>
      _ ← lift (deref oldVersion);
      lift (Err (PlainErr ("error while finding the previous version of the key[" +:+
                           constructCompositeKey (PD_DBName tx) actualKey +:+ "]")))
    | Some oldValue =>
      writeQuad (mkQuad newValue PREVIOUS (Some oldValue));; writeQuad (mkQuad oldValue NEXT (Some newValue))
    end
  end.

Definition addWrite (tx : TxDataForProvenance) (write : KVWithMetadata) : prog Writer unit :=
  let actualKey := KV_Key write in
  let key := constructCompositeKey (PD_DBName tx) actualKey in
  let newValue := MarshalKV (mkKVWithMetadata key (KV_Value write) (KV_Metadata write)) in
  metadata ← lift (deref (KV_Metadata write));
  let newVersion := MarshalVersion (Metadata_Version metadata) in
  writeQuad (mkQuad key newVersion (Some newValue));;
  writeQuad (mkQuad (PD_TxID tx) WRITES (Some newValue));;
  linkOldValue tx actualKey newValue.

Definition addWrites (tx : TxDataForProvenance) : prog Writer unit := for_each (addWrite tx) (PD_Writes tx).

Definition addDelete (tx : TxDataForProvenance) (delete : string * option Version) : prog Writer unit :=
  let '(k, v) := delete in
  _ ← lift (deref v);
  value ← query (fun s => getValueVertex s (PD_DBName tx) k v);
  match value with
  | None => mret tt
  | Some _ => writeQuad (mkQuad (PD_TxID tx) DELETES value)
  end.

Definition addDeletes (tx : TxDataForProvenance) : prog Writer unit := for_each (addDelete tx) (range (PD_Deletes tx)).

Definition addTx (blockNum : Z) (tx : TxDataForProvenance) (txNum : Z) : prog Writer unit :=
  writeQuad (mkQuad (MarshalLocation (mkTxIDLocation blockNum txNum)) INCLUDES (Some (PD_TxID tx)));;
  if PD_IsValid tx then
    writeQuad (mkQuad (PD_UserID tx) SUBMITTED (Some (PD_TxID tx)));;
    addReads tx;; addWrites tx;; addDeletes tx
  else mret tt.

Fixpoint addTxs (blockNum : Z) (txNum : Z) (txsData : list TxDataForProvenance) : prog Writer unit :=
  match txsData with
  | [] => mret tt
  | tx :: txsData => addTx blockNum tx txNum;; addTxs blockNum (txNum + 1) txsData
  end.

Definition Commit (blockNum : Z) (txsData : list TxDataForProvenance) : prog G unit := fun s =>
  match addTxs blockNum 0 txsData (NewWriter s) with
  | (batch, Ok _) => CloseWriter batch
  | (batch, Err e) => (graph_of batch, Err e)
  | (batch, Panic p) => (graph_of batch, Panic p)
  end.

(** ** Queries *)

Definition GetValues s (dbName key : string) : res (list ValueWithMetadata) :=
  valueVertices ← AllValues s (OutAll (StartPath (constructCompositeKey dbName key)));
  verticesToValues valueVertices.

Definition getValuesRecursively s (dbName key : string) (version : option Version) (predicate : string)
    (limit : Z) : res (list ValueWithMetadata) :=
  valueVertex ← getValueVertex s dbName key version;
  valueVertices ← FollowRecursive s valueVertex predicate limit;
  verticesToValues valueVertices.

Definition GetPreviousValues s (dbName key : string) (version : option Version) (limit : Z) :=
  getValuesRecursively s dbName key version PREVIOUS limit.

Definition GetNextValues s (dbName key : string) (version : option Version) (limit : Z) :=
  getValuesRecursively s dbName key version NEXT limit.

Definition GetValueAt s (dbName key : string) (version : option Version) : res (option ValueWithMetadata) :=
  _ ← deref version;
  valueVertex ← getValueVertex s dbName key version;
  match valueVertex with
  | None => Ok None
  | Some v => Some <$> vertexToValue v
  end.

Definition GetDeletedValues s (dbName key : string) := getDeletedValuesWithoutLock s dbName key.

(** Users with the number of values at the end of a path. *)
Definition count_users (vertices : list string) : gmap string Z :=
  foldl (fun userIDs qv => <[qv := (default 0 (userIDs !! qv) + 1) mod 2 ^ 32]> userIDs) ∅ vertices.

Definition GetReaders s (dbName key : string) : res (gmap string Z) :=
  vertices ← AllValues s (In (In (OutAll (StartPath (constructCompositeKey dbName key))) READS) SUBMITTED);
  Ok (count_users vertices).

Definition GetWriters s (dbName key : string) : res (gmap string Z) :=
  vertices ← AllValues s (In (In (OutAll (StartPath (constructCompositeKey dbName key))) WRITES) SUBMITTED);
  Ok (count_users vertices).

Definition GetTxIDsSubmittedByUser s (userID : string) : res (list string) :=
  AllValues s (Out (StartPath userID) SUBMITTED).

Definition GetTxIDLocation s (txID : string) : res TxIDLocation :=
  vertex ← wrap_err "cayley iteration" (FirstValue s (In (StartPath txID) INCLUDES));
  match vertex with
  | None => Err (NotFoundErr ("TxID not found: " +:+ txID))
  | Some v => wrap_err "vertex to TxID translation" (vertexToTxIDLocation v)
  end.

Definition outEdgesFrom s (verticies : list string) (predicate : string) : res (gmap string (list KVWithMetadata)) :=
  res_foldM (fun values vertex =>
    vertices ← AllValues s (Out (StartPath vertex) predicate);
    DBsKV ← verticesToKVs vertices;
    Ok (foldl (fun values '(db, KVs) => <[db := default [] (values !! db) ++ KVs]> values) values (range DBsKV)))
    ∅ verticies.

Definition GetValuesReadByUser s (userID : string) :=
  txIDs ← GetTxIDsSubmittedByUser s userID; outEdgesFrom s txIDs READS.

Definition GetValuesWrittenByUser s (userID : string) :=
  txIDs ← GetTxIDsSubmittedByUser s userID; outEdgesFrom s txIDs WRITES.

Definition GetValuesDeletedByUser s (userID : string) :=
  txIDs ← GetTxIDsSubmittedByUser s userID; outEdgesFrom s txIDs DELETES.

(** The order of versions, latest first. *)
Definition version_after (v w : Version) : bool :=
  (BlockNum v >? BlockNum w) || ((BlockNum v =? BlockNum w) && (TxNum v >? TxNum w)).

Definition at_or_after (x y : ValueWithMetadata * Version) : Prop := version_after y.2 x.2 = false.

#[local] Instance at_or_after_dec : RelDecision at_or_after := fun x y => decide (version_after y.2 x.2 = false).

(** The loop over the sorted values. *)
Definition at_or_below (version v : Version) : bool :=
  ((BlockNum v =? BlockNum version) && (TxNum v <=? TxNum version)) || (BlockNum v <? BlockNum version).

Definition GetMostRecentValueAtOrBelow s (dbName key : string) (version : option Version)
    : res (option ValueWithMetadata) :=
  values ← GetValues s dbName key;
  match values with
  | [] => Ok None
  | _ =>
    versions ← res_mapM versionOf values;
    version ← deref version;
    Ok (fst <$> List.find (fun x => at_or_below version x.2) (merge_sort at_or_after (zip values versions)))
  end.

End Store.
