(* ===== verification/QuadList.v ===== *)
(** * A graph as a list of quads

    An instance of the graph database on which paths are evaluated: the batch is
    written when it is closed.  It satisfies the laws of the interface. *)

From S2P Require Import Prelude Provenance.
Open Scope Z_scope.

Section Eval.
Context (g : list Quad).

(** The objects of the quads with a subject, and the subjects of those with an object. *)
Definition objects (keep : string → bool) (x : string) : list string :=
  omap (fun q => if bool_decide (Subject q = x) && keep (Predicate q) then Object q else None) g.

Definition subjects (pred : string) (x : string) : list string :=
  omap (fun q => if bool_decide (Object q = Some x) && bool_decide (Predicate q = pred) then Some (Subject q) else None) g.

(** The ends of a path, with the tagged vertices. *)
Fixpoint eval (p : Path) : list (list (string * string) * string) :=
  match p with
  | StartPath v => [([], v)]
  | OutAll p => eval p ≫= fun '(tags, x) => pair tags <$> objects (fun _ => true) x
  | Out p pred => eval p ≫= fun '(tags, x) => pair tags <$> objects (fun e => bool_decide (e = pred)) x
  | In p pred => eval p ≫= fun '(tags, x) => pair tags <$> subjects pred x
  | Tag p name => (fun '(tags, x) => ((name, x) :: tags, x)) <$> eval p
  | Back p name =>
    eval p ≫= fun '(tags, _) => omap (fun '(n, y) => if bool_decide (n = name) then Some (tags, y) else None) tags
  end.

(** The vertices at a number of steps. *)
Fixpoint level (pred : string) (n : nat) (x : string) : list string :=
  match n with
  | O => [x]
  | S n => objects (fun e => bool_decide (e = pred)) x ≫= level pred n
  end.

Definition follow (pred : string) (depth : nat) (x : string) : list string :=
  seq 1 depth ≫= fun n => level pred n x.

End Eval.

#[export] Instance quad_list : Graph (list Quad) := {
  Writer := list Quad * list Quad;
  NewWriter g := (g, []);
  WriteQuad w q := ((w.1, w.2 ++ [q]), Ok tt);
  CloseWriter w := (w.1 ++ w.2, Ok tt);
  graph_of w := w.1;
  AllValues g p := Ok (eval g p).*2;
  FirstValue g p := Ok (head (eval g p).*2);
  FollowRecursive g v pred limit :=
    Ok (match v with
        | None => []
        | Some x => follow g pred (if limit =? -1 then length g else Z.to_nat limit) x
        end);
}.

(** ** Paths *)

Section Laws.
Context (g : list Quad).
Implicit Types (x y : string).
Let has (q : Quad) : Prop := q ∈ g.

Lemma elem_of_objects keep x y :
  y ∈ objects g keep x ↔ ∃ pred, keep pred = true ∧ mkQuad x pred (Some y) ∈ g.
Proof.
  unfold objects. rewrite list_elem_of_omap. split.
  - intros ([s p o] & Hq & Hf). cbn in Hf. case_bool_decide; [|done]. cbn in Hf. destruct (keep p) eqn:E; [|done].
    subst. by exists p.
  - intros (p & Hk & Hq). eexists. split; [done|]. cbn. by rewrite bool_decide_eq_true_2, Hk by done.
Qed.

Lemma elem_of_subjects pred x y : y ∈ subjects g pred x ↔ mkQuad y pred (Some x) ∈ g.
Proof.
  unfold subjects. rewrite list_elem_of_omap. split.
  - intros ([s p o] & Hq & Hf). cbn in Hf. case_bool_decide; [|done]. case_bool_decide; [|done]. cbn in Hf. by simplify_eq.
  - intros Hq. eexists. split; [done|]. cbn. by rewrite !bool_decide_eq_true_2 by done.
Qed.

Lemma eval_reaches p tags x : (tags, x) ∈ eval g p ↔ reaches has p tags x.
Proof.
  revert tags x. induction p as [v|p IH|p IH pred|p IH pred|p IH name|p IH name]; intros tags x; cbn [eval].
  - rewrite list_elem_of_singleton. split; [intros [= -> ->]; constructor|by inversion 1].
  - rewrite list_elem_of_bind. split.
    + intros ([tags' y] & (z & [= -> ->] & (pred & _ & Hz)%elem_of_objects)%list_elem_of_fmap & Hy%IH). by econstructor.
    + inversion 1 as [|p' tags' y pred z Hr Hq| | | |]; subst. exists (tags, y). split; [|by apply IH].
      apply list_elem_of_fmap. exists x. split; [done|]. apply elem_of_objects. by exists pred.
  - rewrite list_elem_of_bind. split.
    + intros ([tags' y] & (z & [= -> ->] & (pr & ->%bool_decide_eq_true & Hz)%elem_of_objects)%list_elem_of_fmap & Hy%IH).
      by econstructor.
    + inversion 1 as [| |p' tags' y pr z Hr Hq| | |]; subst. exists (tags, y). split; [|by apply IH].
      apply list_elem_of_fmap. exists x. split; [done|]. apply elem_of_objects. exists pred. by rewrite bool_decide_eq_true_2.
  - rewrite list_elem_of_bind. split.
    + intros ([tags' y] & (z & [= -> ->] & Hz%elem_of_subjects)%list_elem_of_fmap & Hy%IH). by econstructor.
    + inversion 1 as [| | |p' tags' y pr z Hr Hq| |]; subst. exists (tags, y). split; [|by apply IH].
      apply list_elem_of_fmap. exists x. split; [done|]. by apply elem_of_subjects.
  - rewrite list_elem_of_fmap. split.
    + intros ([tags' y] & [= -> ->] & Hy%IH). by constructor.
    + inversion 1 as [| | | |p' tags' y nm Hr|]; subst. exists (tags', x). split; [done|]. by apply IH.
  - rewrite list_elem_of_bind. split.
    + intros ([tags' y] & ([n z] & Hz & Hf)%list_elem_of_omap & Hy%IH). case_bool_decide; [|done]. simplify_eq. by econstructor.
    + inversion 1 as [| | | | |p' tags' y nm z Hr Htag]; subst. exists (tags, y). split; [|by apply IH].
      apply list_elem_of_omap. exists (name, x). split; [done|]. by rewrite bool_decide_eq_true_2.
Qed.

(** ** Repeated steps *)

Lemma elem_of_level pred n x y : y ∈ level g pred n x ↔ steps has pred n x y.
Proof.
  revert x. induction n as [|n IH]; intros x; cbn [level steps].
  - rewrite list_elem_of_singleton. split; congruence.
  - rewrite list_elem_of_bind. split.
    + intros (z & Hz%IH & (pr & ->%bool_decide_eq_true & Hq)%elem_of_objects). by exists z.
    + intros (z & Hq & Hz%IH). exists z. split; [done|]. apply elem_of_objects. exists pred. by rewrite bool_decide_eq_true_2.
Qed.

Lemma elem_of_follow pred depth x y :
  y ∈ follow g pred depth x ↔ ∃ n, (1 ≤ n ≤ depth)%nat ∧ steps has pred n x y.
Proof.
  unfold follow. rewrite list_elem_of_bind. setoid_rewrite elem_of_level. setoid_rewrite elem_of_seq.
  split; intros (n & H); exists n; intuition lia.
Qed.

(** A walk through vertices that are all different. *)
Fixpoint walk (pred : string) (x : string) (l : list string) (y : string) : Prop :=
  match l with
  | [] => x = y
  | z :: l => mkQuad x pred (Some z) ∈ g ∧ walk pred z l y
  end.

Lemma walk_steps pred x l y : walk pred x l y → steps has pred (length l) x y.
Proof. revert x. induction l as [|z l IH]; intros x; cbn; [done|]. intros [Hq Hw]. exists z. auto. Qed.

Lemma walk_snoc pred x l y z : walk pred x l y → mkQuad y pred (Some z) ∈ g → walk pred x (l ++ [z]) z.
Proof. revert x. induction l as [|w l IH]; intros x; cbn; [by intros ->|]. intros [? ?] ?. auto. Qed.

Lemma walk_prefix pred x l1 z l2 y : walk pred x (l1 ++ z :: l2) y → walk pred x (l1 ++ [z]) z.
Proof. revert x. induction l1 as [|w l1 IH]; intros x; cbn; [by intros [? _]|]. intros [? ?]. auto. Qed.

Lemma walk_objects pred x l y : walk pred x l y → ∀ z, z ∈ l → Some z ∈ Object <$> g.
Proof.
  revert x. induction l as [|w l IH]; intros x Hw z Hz; [by inversion Hz|]. cbn in Hw. destruct Hw as [Hq Hw].
  apply elem_of_cons in Hz as [->|Hz]; [|by eapply IH]. apply list_elem_of_fmap. by exists (mkQuad x pred (Some w)).
Qed.

Lemma steps_last pred n x y : steps has pred (S n) x y → ∃ z, steps has pred n x z ∧ mkQuad z pred (Some y) ∈ g.
Proof.
  revert x. induction n as [|n IH]; intros x (z & Hq & Hs).
  - cbn in Hs. subst. by exists x.
  - destruct (IH z Hs) as (w & ? & ?). exists w. split; [|done]. by exists z.
Qed.

Lemma steps_walk pred n x y : (1 ≤ n)%nat → steps has pred n x y → ∃ l, l ≠ [] ∧ NoDup l ∧ walk pred x l y.
Proof.
  revert y. induction n as [|n IH]; intros y Hn Hs; [lia|]. apply steps_last in Hs as (z & Hs & Hq).
  destruct n as [|n].
  - cbn in Hs. subst z. exists [y]. split_and!; [done|apply NoDup_singleton|done].
  - destruct (IH z) as (l & Hne & Hnd & Hw); [lia|done|]. destruct (decide (y ∈ l)) as [Hin|Hin].
    + apply list_elem_of_split in Hin as (l1 & l2 & ->). exists (l1 ++ [y]). split_and!; [by destruct l1| |by eapply walk_prefix].
      rewrite cons_middle, app_assoc in Hnd. by apply NoDup_app in Hnd as [? _].
    + exists (l ++ [y]). split_and!; [by destruct l| |by eapply walk_snoc].
      apply NoDup_app. split_and!; [done| |apply NoDup_singleton]. set_solver.
Qed.

Lemma steps_bound pred n x y : (1 ≤ n)%nat → steps has pred n x y →
  ∃ m, (1 ≤ m ≤ length g)%nat ∧ steps has pred m x y.
Proof.
  intros Hn Hs. destruct (steps_walk _ _ _ _ Hn Hs) as (l & Hne & Hnd & Hw). exists (length l). split; [|by apply walk_steps].
  split; [by destruct l; cbn; [|lia]|].
  rewrite <- (length_fmap Some l), <- (length_fmap Object g). apply submseteq_length, NoDup_submseteq.
  - by apply NoDup_fmap_2; [apply _|].
  - intros o (z & -> & Hz)%list_elem_of_fmap. by eapply walk_objects.
Qed.

End Laws.

Lemma quad_batch g qs b : foldl (fun w q => (WriteQuad (G := list Quad) w q).1) (g, b) qs = (g, b ++ qs).
Proof.
  revert b. induction qs as [|q qs IH]; intros b; cbn [foldl]; [by rewrite app_nil_r|].
  cbn [WriteQuad quad_list fst snd]. by rewrite IH, <- app_assoc.
Qed.

#[export] Program Instance quad_list_laws : GraphLaws (list Quad) := {
  has_quad g q := q ∈ g;
}.
Next Obligation.
  intros g p. eexists. split; [reflexivity|]. intros x. rewrite list_elem_of_fmap. split.
  - intros ([tags y] & -> & Hy%eval_reaches). by exists tags.
  - intros [tags Hr%eval_reaches]. by exists (tags, x).
Qed.
Next Obligation.
  intros g p. eexists. split; [reflexivity|]. destruct (eval g p) as [|[tags y] l] eqn:E; cbn.
  - intros x tags Hr%eval_reaches. rewrite E in Hr. by inversion Hr.
  - exists tags. apply eval_reaches. rewrite E. by left.
Qed.
Next Obligation.
  intros g v pred limit Hl. eexists. split; [reflexivity|]. setoid_rewrite elem_of_follow.
  destruct (limit =? -1) eqn:El; (split; [intros x (n & Hn & Hs); exists n; split; [split; [lia|]|done]; lia|]);
    intros x n _ [Hn Hw] Hs.
  - destruct (steps_bound g pred n v x Hn Hs) as (m & ? & ?). by exists m.
  - exists n. split; [lia|done].
Qed.
Next Obligation.
  intros g qs q. cbn [NewWriter quad_list]. rewrite quad_batch. cbn. auto.
Qed.
Next Obligation.
  intros g qs g' q. cbn [NewWriter quad_list]. rewrite quad_batch. cbn. intros [= <-]. by rewrite elem_of_app.
Qed.
