(* ===== verification/ProvenanceProofs.v ===== *)
(** * What the provenance graph records

    The history of a sequence of commits, the quads it stands for, and that the graph
    holds exactly these quads. *)

From S2P Require Import Prelude StringOrder Types JSON JSONPrint WorldState ProvenanceJSON DbEntries Provenance.
From Stdlib Require Import Ascii.
Open Scope Z_scope.

#[local] Arguments String.append !_ _ /.

(** ** Histories *)

(** Block numbers with the data committed for them. *)
Definition history : Type := list (Z * list TxDataForProvenance).

Definition version_of (kv : KVWithMetadata) : option Version := KV_Metadata kv ≫= Metadata_Version.
Definition block_of (kv : KVWithMetadata) : Z := match version_of kv with Some v => BlockNum v | None => 0 end.
Definition value_of (kv : KVWithMetadata) : ValueWithMetadata := mkValueWithMetadata (KV_Value kv) (KV_Metadata kv).

Definition valid_in (H : history) (b : Z) (tx : TxDataForProvenance) : Prop :=
  ∃ txs, (b, txs) ∈ H ∧ tx ∈ txs ∧ PD_IsValid tx = true.

Definition wrote (H : history) (db : string) (kv : KVWithMetadata) : Prop :=
  ∃ b tx, valid_in H b tx ∧ PD_DBName tx = db ∧ kv ∈ PD_Writes tx.

Definition deleted (H : history) (db : string) (kv : KVWithMetadata) : Prop :=
  ∃ b tx, valid_in H b tx ∧ PD_DBName tx = db ∧ PD_Deletes tx !! KV_Key kv = Some (version_of kv).

(** The last value of a key, and the value of a key before another one. *)
Definition latest (H : history) (db key : string) (kv : KVWithMetadata) : Prop :=
  wrote H db kv ∧ KV_Key kv = key ∧ ∀ kv', wrote H db kv' → KV_Key kv' = key → block_of kv' ≤ block_of kv.

Definition precedes (H : history) (db : string) (old new : KVWithMetadata) : Prop :=
  wrote H db old ∧ wrote H db new ∧ KV_Key old = KV_Key new ∧ block_of old < block_of new ∧
  ∀ kv, wrote H db kv → KV_Key kv = KV_Key new → block_of kv < block_of new → block_of kv ≤ block_of old.

(** The vertex of a value. *)
Definition vertex (db : string) (kv : KVWithMetadata) : string :=
  MarshalKV (mkKVWithMetadata (constructCompositeKey db (KV_Key kv)) (KV_Value kv) (KV_Metadata kv)).

(** The quads of a history. *)
Inductive recorded (H : history) : Quad → Prop :=
  | rec_includes b txs i tx : (b, txs) ∈ H → txs !! i = Some tx →
    recorded H (mkQuad (MarshalLocation (mkTxIDLocation b (Z.of_nat i))) INCLUDES (Some (PD_TxID tx)))
  | rec_submitted b tx : valid_in H b tx → recorded H (mkQuad (PD_UserID tx) SUBMITTED (Some (PD_TxID tx)))
  | rec_read_absent b tx r : valid_in H b tx → r ∈ PD_Reads tx → KWV_Version r = None →
    recorded H (mkQuad (PD_TxID tx) READS None)
  | rec_read b tx r kv : valid_in H b tx → r ∈ PD_Reads tx → wrote H (PD_DBName tx) kv →
    KV_Key kv = KWV_Key r → version_of kv = KWV_Version r →
    recorded H (mkQuad (PD_TxID tx) READS (Some (vertex (PD_DBName tx) kv)))
  | rec_value db kv : wrote H db kv →
    recorded H (mkQuad (constructCompositeKey db (KV_Key kv)) (MarshalVersion (version_of kv)) (Some (vertex db kv)))
  | rec_write b tx kv : valid_in H b tx → kv ∈ PD_Writes tx →
    recorded H (mkQuad (PD_TxID tx) WRITES (Some (vertex (PD_DBName tx) kv)))
  | rec_previous db old new : precedes H db old new →
    recorded H (mkQuad (vertex db new) PREVIOUS (Some (vertex db old)))
  | rec_next db old new : precedes H db old new →
    recorded H (mkQuad (vertex db old) NEXT (Some (vertex db new)))
  | rec_delete b tx kv : valid_in H b tx → wrote H (PD_DBName tx) kv →
    PD_Deletes tx !! KV_Key kv = Some (version_of kv) →
    recorded H (mkQuad (PD_TxID tx) DELETES (Some (vertex (PD_DBName tx) kv))).

(** ** Well-formed histories *)

Definition no_separator (s : string) : Prop := string_forallb (fun x => bool_decide (x ≠ "$"%char)) s = true.

Definition name_wf (s : string) : Prop := no_separator s ∧ utf8_valid s = true ∧ ∀ r, s ≠ String "{" r.

(** What a block adds to a history: values have the number of the block in their
    version and are written once, reads and deletes are of recorded values, and the old
    version of a written key is the last recorded one, unless it was deleted.  The
    separator of composite keys does not occur in names of databases, transactions and
    users. *)
Record block_wf (H : history) (b : Z) (txs : list TxDataForProvenance) : Prop := {
  bw_number : 0 < b < 2 ^ 64;
  bw_later b' txs' : (b', txs') ∈ H → b' < b;
  bw_names tx : tx ∈ txs → PD_IsValid tx = true →
    name_wf (PD_DBName tx) ∧ no_separator (PD_TxID tx) ∧ no_separator (PD_UserID tx);
  bw_write tx kv : tx ∈ txs → PD_IsValid tx = true → kv ∈ PD_Writes tx →
    kv_wf kv ∧ ∃ t acl, KV_Metadata kv = Some (mkMetadata (Some (mkVersion b t)) acl);
  bw_once tx tx' kv kv' : tx ∈ txs → tx' ∈ txs → PD_IsValid tx = true → PD_IsValid tx' = true →
    kv ∈ PD_Writes tx → kv' ∈ PD_Writes tx' → PD_DBName tx = PD_DBName tx' → KV_Key kv = KV_Key kv' → kv = kv';
  bw_read tx r : tx ∈ txs → PD_IsValid tx = true → r ∈ PD_Reads tx → KWV_Version r ≠ None →
    ∃ kv, wrote H (PD_DBName tx) kv ∧ KV_Key kv = KWV_Key r ∧ version_of kv = KWV_Version r;
  bw_delete tx k v : tx ∈ txs → PD_IsValid tx = true → PD_Deletes tx !! k = Some v →
    ∃ kv, wrote H (PD_DBName tx) kv ∧ KV_Key kv = k ∧ version_of kv = v;
  bw_old tx kv : tx ∈ txs → PD_IsValid tx = true → kv ∈ PD_Writes tx →
    match PD_OldVersionOfWrites tx !! KV_Key kv with
    | Some v => ∃ old, latest H (PD_DBName tx) (KV_Key kv) old ∧ version_of old = v
    | None => (∀ old, wrote H (PD_DBName tx) old → KV_Key old ≠ KV_Key kv) ∨
              ∃ old, latest H (PD_DBName tx) (KV_Key kv) old ∧ deleted H (PD_DBName tx) old
    end;
}.

Inductive history_wf : history → Prop :=
  | hw_nil : history_wf []
  | hw_snoc H b txs : history_wf H → block_wf H b txs → history_wf (H ++ [(b, txs)]).

(** ** Facts on histories *)

Lemma valid_in_snoc H b txs b' tx :
  valid_in (H ++ [(b, txs)]) b' tx ↔ valid_in H b' tx ∨ b' = b ∧ tx ∈ txs ∧ PD_IsValid tx = true.
Proof.
  unfold valid_in. split.
  - intros (txs' & [Hin|Hin%list_elem_of_singleton]%elem_of_app & Htx & Hv); [by left; exists txs'|].
    injection Hin as -> ->. by right.
  - intros [(txs' & Hin & Htx & Hv)|(-> & Htx & Hv)]; eexists _; (split; [apply elem_of_app|done]);
      [by left|by right; left].
Qed.

Lemma wrote_snoc H b txs db kv :
  wrote (H ++ [(b, txs)]) db kv ↔
  wrote H db kv ∨ ∃ tx, tx ∈ txs ∧ PD_IsValid tx = true ∧ PD_DBName tx = db ∧ kv ∈ PD_Writes tx.
Proof. unfold wrote. setoid_rewrite valid_in_snoc. naive_solver. Qed.

Lemma deleted_snoc H b txs db kv :
  deleted (H ++ [(b, txs)]) db kv ↔
  deleted H db kv ∨
  ∃ tx, tx ∈ txs ∧ PD_IsValid tx = true ∧ PD_DBName tx = db ∧ PD_Deletes tx !! KV_Key kv = Some (version_of kv).
Proof. unfold deleted. setoid_rewrite valid_in_snoc. naive_solver. Qed.

(** The shape of a written value. *)
Lemma wrote_wf H db kv : history_wf H → wrote H db kv →
  name_wf db ∧ kv_wf kv ∧
  ∃ b t acl, KV_Metadata kv = Some (mkMetadata (Some (mkVersion b t)) acl) ∧ 0 < b ∧ ∃ txs, (b, txs) ∈ H.
Proof.
  induction 1 as [|H b txs HH IH Hb]; [by intros (? & ? & (? & H & _) & _); inversion H|].
  rewrite wrote_snoc. intros [Hw|(tx & Htx & Hv & <- & Hkv)].
  - destruct (IH Hw) as (? & ? & b' & t & acl & ? & ? & txs' & ?). split_and!; [done..|]. exists b', t, acl.
    split_and!; [done..|]. exists txs'. apply elem_of_app. by left.
  - destruct (bw_write _ _ _ Hb _ _ Htx Hv Hkv) as (? & t & acl & ?). destruct (bw_names _ _ _ Hb _ Htx Hv) as (? & _).
    split_and!; [done..|]. exists b, t, acl. split_and!; [done|apply (bw_number _ _ _ Hb)|].
    exists txs. apply elem_of_app. by right; left.
Qed.

Lemma block_of_version kv b t acl : KV_Metadata kv = Some (mkMetadata (Some (mkVersion b t)) acl) →
  version_of kv = Some (mkVersion b t) ∧ block_of kv = b.
Proof. unfold block_of, version_of. by intros ->. Qed.

Lemma wrote_block_earlier H b txs db kv : history_wf H → block_wf H b txs → wrote H db kv → block_of kv < b.
Proof.
  intros HH Hb Hw. destruct (wrote_wf _ _ _ HH Hw) as (_ & _ & b' & t & acl & Hm & _ & txs' & Hin).
  apply block_of_version in Hm as [_ ->]. by eapply bw_later.
Qed.

Lemma wrote_block_new H b txs tx kv : block_wf H b txs → tx ∈ txs → PD_IsValid tx = true → kv ∈ PD_Writes tx →
  block_of kv = b.
Proof. intros Hb Htx Hv Hkv. destruct (bw_write _ _ _ Hb _ _ Htx Hv Hkv) as (_ & t & acl & Hm). by apply block_of_version in Hm as [_ ->]. Qed.

(** A key has one value in a block. *)
Lemma wrote_unique H db kv kv' : history_wf H → wrote H db kv → wrote H db kv' →
  KV_Key kv = KV_Key kv' → block_of kv = block_of kv' → kv = kv'.
Proof.
  induction 1 as [|H b txs HH IH Hb]; [by intros (? & ? & (? & H & _) & _); inversion H|].
  rewrite !wrote_snoc. intros [Hw|(tx & Htx & Hv & Hdb & Hkv)] [Hw'|(tx' & Htx' & Hv' & Hdb' & Hkv')] Hk Hbl.
  - by apply IH.
  - apply (wrote_block_earlier _ _ _ _ _ HH Hb) in Hw. apply (wrote_block_new _ _ _ _ _ Hb) in Hkv'; [lia|done..].
  - apply (wrote_block_earlier _ _ _ _ _ HH Hb) in Hw'. apply (wrote_block_new _ _ _ _ _ Hb) in Hkv; [lia|done..].
  - eapply (bw_once _ _ _ Hb tx tx'); [done..|by rewrite Hdb|done].
Qed.

Lemma latest_precedes H b txs db kv old tx : history_wf H → block_wf H b txs →
  tx ∈ txs → PD_IsValid tx = true → PD_DBName tx = db → kv ∈ PD_Writes tx →
  latest H db (KV_Key kv) old ↔ precedes (H ++ [(b, txs)]) db old kv.
Proof.
  intros HH Hb Htx Hv Hdb Hkv. pose proof (wrote_block_new _ _ _ _ _ Hb Htx Hv Hkv) as Hbk. split.
  - intros (Hw & Hk & Hmax). pose proof (wrote_block_earlier _ _ _ _ _ HH Hb Hw). split_and!; [|..|done|lia|].
    + apply wrote_snoc. by left.
    + apply wrote_snoc. right. by exists tx.
    + intros kv' [Hw'|(tx' & Htx' & Hv' & _ & Hkv')]%wrote_snoc Hk' Hlt; [by apply Hmax|].
      pose proof (wrote_block_new _ _ _ _ _ Hb Htx' Hv' Hkv'). lia.
  - intros (Hw & _ & Hk & Hlt & Hmax). apply wrote_snoc in Hw as [Hw|(tx' & Htx' & Hv' & _ & Hkv')].
    + split_and!; [done..|]. intros kv' Hw' Hk'. apply Hmax; [apply wrote_snoc; by left|done|].
      pose proof (wrote_block_earlier _ _ _ _ _ HH Hb Hw'). lia.
    + pose proof (wrote_block_new _ _ _ _ _ Hb Htx' Hv' Hkv'). lia.
Qed.

(** A block does not change the order of the values before it. *)
Lemma precedes_snoc_old H b txs db old new : history_wf H → block_wf H b txs → wrote H db new →
  precedes (H ++ [(b, txs)]) db old new ↔ precedes H db old new.
Proof.
  intros HH Hb Hn. pose proof (wrote_block_earlier _ _ _ _ _ HH Hb Hn) as Hnb. unfold precedes.
  setoid_rewrite wrote_snoc. split.
  - intros ([Ho|(tx & Htx & Hv & _ & Hkv)] & _ & Hk & Hlt & Hmax).
    + split_and!; [done..|]. intros kv Hw. apply Hmax. by left.
    + pose proof (wrote_block_new _ _ _ _ _ Hb Htx Hv Hkv). lia.
  - intros (Ho & _ & Hk & Hlt & Hmax). split_and!; [by left|by left|done..|].
    intros kv [Hw|(tx & Htx & Hv & _ & Hkv)]; [by apply Hmax|].
    pose proof (wrote_block_new _ _ _ _ _ Hb Htx Hv Hkv). lia.
Qed.

(** Reads and deletes in a history are of values of the history. *)
Lemma read_wrote H b tx r : history_wf H → valid_in H b tx → r ∈ PD_Reads tx → KWV_Version r ≠ None →
  ∃ kv, wrote H (PD_DBName tx) kv ∧ KV_Key kv = KWV_Key r ∧ version_of kv = KWV_Version r.
Proof.
  induction 1 as [|H b' txs HH IH Hb]; [by intros (? & H & _); inversion H|]. setoid_rewrite wrote_snoc.
  intros [Hv|(-> & Htx & Hv)]%valid_in_snoc Hr Hn.
  - destruct (IH Hv Hr Hn) as (kv & ? & ?). exists kv. auto.
  - destruct (bw_read _ _ _ Hb _ _ Htx Hv Hr Hn) as (kv & ? & ?). exists kv. auto.
Qed.

Lemma delete_wrote H b tx k v : history_wf H → valid_in H b tx → PD_Deletes tx !! k = Some v →
  ∃ kv, wrote H (PD_DBName tx) kv ∧ KV_Key kv = k ∧ version_of kv = v.
Proof.
  induction 1 as [|H b' txs HH IH Hb]; [by intros (? & H & _); inversion H|]. setoid_rewrite wrote_snoc.
  intros [Hv|(-> & Htx & Hv)]%valid_in_snoc Hd.
  - destruct (IH Hv Hd) as (kv & ? & ?). exists kv. auto.
  - destruct (bw_delete _ _ _ Hb _ _ _ Htx Hv Hd) as (kv & ? & ?). exists kv. auto.
Qed.

Lemma deleted_old H b txs db kv : history_wf H → block_wf H b txs → deleted (H ++ [(b, txs)]) db kv →
  ∃ old, wrote H db old ∧ version_of old = version_of kv.
Proof.
  intros HH Hb [(b' & tx & Hv & <- & Hdel)|(tx & Htx & Hv & <- & Hdel)]%deleted_snoc.
  - destruct (delete_wrote _ _ _ _ _ HH Hv Hdel) as (old & ? & _ & ?). by exists old.
  - destruct (bw_delete _ _ _ Hb _ _ _ Htx Hv Hdel) as (old & ? & _ & ?). by exists old.
Qed.

(** ** The texts of vertices and edges *)

Lemma version_text v : ∃ s, MarshalVersion (Some v) = String "{" s.
Proof. by eexists. Qed.

Lemma vertex_text db kv : ∃ s, vertex db kv = String "{" s.
Proof. by eexists. Qed.

Lemma location_text l : ∃ s, MarshalLocation l = String "{" s.
Proof. by eexists. Qed.

Lemma composite_key_inj db k db' k' : no_separator db → no_separator db' →
  constructCompositeKey db k = constructCompositeKey db' k' → db = db' ∧ k = k'.
Proof. intros Hd Hd' H. by apply append_sep_inj in H. Qed.

Lemma composite_key_brace db k s : name_wf db → constructCompositeKey db k ≠ String "{" s.
Proof.
  intros (_ & _ & Hb) H. destruct db as [|c db]; [done|]. injection H as -> _. by apply (Hb db).
Qed.

Lemma no_separator_key s db k : no_separator s → s ≠ constructCompositeKey db k.
Proof.
  intros Hs ->. unfold no_separator, constructCompositeKey, separator in Hs.
  induction db as [|c db IH]; cbn in Hs; [done|]. apply andb_true_iff in Hs as [_ Hs]. by apply IH.
Qed.

Lemma split_composite_key db k : no_separator db → no_separator k →
  splitCompositeKey (constructCompositeKey db k) = Ok (db, k).
Proof.
  intros Hd Hk. unfold splitCompositeKey, constructCompositeKey, separator.
  change ("$" +:+ k) with (String "$" k).
  assert (strings_split "$" (db +:+ String "$" k) = [db; k]) as ->; [|done].
  revert Hd. induction db as [|c db IH]; intros Hd; cbn [strings_split String.append].
  - rewrite bool_decide_eq_true_2 by done. by rewrite strings_split_no_sep.
  - unfold no_separator in Hd. cbn in Hd. apply andb_true_iff in Hd as [Hc%bool_decide_eq_true Hd].
    rewrite bool_decide_eq_false_2 by done. by rewrite IH.
Qed.

Lemma vertex_wf db kv : name_wf db → kv_wf kv →
  kv_wf (mkKVWithMetadata (constructCompositeKey db (KV_Key kv)) (KV_Value kv) (KV_Metadata kv)).
Proof.
  intros (_ & Hu & _) (Hk & Hv & Hm). split_and!; [|done..]. cbn.
  unfold constructCompositeKey, separator. by repeat apply utf8_valid_app.
Qed.

Lemma vertex_value db kv : name_wf db → kv_wf kv → vertexToValue (vertex db kv) = Ok (value_of kv).
Proof. intros Hd Hk. unfold vertexToValue, vertex. by rewrite UnmarshalKV_MarshalKV by (by apply vertex_wf). Qed.

Lemma vertex_inj db kv db' kv' : name_wf db → name_wf db' → kv_wf kv → kv_wf kv' →
  vertex db kv = vertex db' kv' → db = db' ∧ kv = kv'.
Proof.
  intros Hd Hd' Hk Hk' H. apply MarshalKV_inj in H; [|by apply vertex_wf..]. injection H as Hc Hv Hm.
  apply composite_key_inj in Hc as [-> Hc]; [|by apply Hd|by apply Hd'].
  split; [done|]. destruct kv, kv'. cbn in *. by subst.
Qed.

Lemma wrote_vertex_inj H db kv db' kv' : history_wf H → wrote H db kv → wrote H db' kv' →
  vertex db kv = vertex db' kv' → db = db' ∧ kv = kv'.
Proof.
  intros HH Hw Hw'. apply (wrote_wf _ _ _ HH) in Hw as (? & ? & _). apply (wrote_wf _ _ _ HH) in Hw' as (? & ? & _).
  by apply vertex_inj.
Qed.

Lemma wrote_version_wf H db kv : history_wf H → wrote H db kv →
  ∃ v, version_of kv = Some v ∧ version_wf v ∧ 0 < BlockNum v ∧ block_of kv = BlockNum v.
Proof.
  intros HH Hw. destruct (wrote_wf _ _ _ HH Hw) as (_ & (_ & _ & Hm) & b & t & acl & Hmeta & Hb & _).
  destruct (block_of_version _ _ _ _ Hmeta) as [-> ->]. eexists. split_and!; [done| |done|done].
  by apply (Hm _ Hmeta).
Qed.

(** A value is determined by its key and version. *)
Lemma wrote_version_unique H db kv kv' : history_wf H → wrote H db kv → wrote H db kv' →
  KV_Key kv = KV_Key kv' → version_of kv = version_of kv' → kv = kv'.
Proof.
  intros HH Hw Hw' Hk Hv. apply (wrote_unique _ _ _ _ HH Hw Hw' Hk). unfold block_of. by rewrite Hv.
Qed.

(** ** Edges out of a key *)

(** The text of a version is none of the other predicates. *)
Lemma version_predicate v : MarshalVersion v ∉ [INCLUDES; SUBMITTED; READS; WRITES; PREVIOUS; NEXT; DELETES].
Proof. destruct v as [v|]; [destruct (version_text v) as [s ->]|]; set_solver. Qed.

Ltac not_version :=
  match goal with
  | H : MarshalVersion _ = _ |- _ => exfalso; eapply version_predicate; rewrite H; set_solver
  | H : _ = MarshalVersion _ |- _ => exfalso; eapply version_predicate; rewrite <- H; set_solver
  end.

Lemma recorded_version H ckey v o : recorded H (mkQuad ckey (MarshalVersion v) (Some o)) →
  ∃ db kv, wrote H db kv ∧ ckey = constructCompositeKey db (KV_Key kv) ∧
    MarshalVersion v = MarshalVersion (version_of kv) ∧ o = vertex db kv.
Proof. intros Hr. inversion Hr as [| | | |db kv Hw| | | |]; subst; try not_version. by eexists _, _. Qed.

Lemma recorded_delete H y x : recorded H (mkQuad y DELETES (Some x)) →
  ∃ b tx kv, valid_in H b tx ∧ wrote H (PD_DBName tx) kv ∧ PD_Deletes tx !! KV_Key kv = Some (version_of kv) ∧
    y = PD_TxID tx ∧ x = vertex (PD_DBName tx) kv.
Proof. intros Hr. inversion Hr; subst; try not_version. by eexists _, _, _. Qed.

Lemma recorded_write H y x : recorded H (mkQuad y WRITES (Some x)) →
  ∃ b tx kv, valid_in H b tx ∧ kv ∈ PD_Writes tx ∧ y = PD_TxID tx ∧ x = vertex (PD_DBName tx) kv.
Proof. intros Hr. inversion Hr; subst; try not_version. by eexists _, _, _. Qed.

Lemma recorded_read H y x : recorded H (mkQuad y READS (Some x)) →
  ∃ b tx r kv, valid_in H b tx ∧ r ∈ PD_Reads tx ∧ wrote H (PD_DBName tx) kv ∧ KV_Key kv = KWV_Key r ∧
    version_of kv = KWV_Version r ∧ y = PD_TxID tx ∧ x = vertex (PD_DBName tx) kv.
Proof. intros Hr. inversion Hr; subst; try not_version. eexists _, _, _, _. by split_and!. Qed.

Lemma recorded_submitted H y x : recorded H (mkQuad y SUBMITTED (Some x)) →
  ∃ b tx, valid_in H b tx ∧ y = PD_UserID tx ∧ x = PD_TxID tx.
Proof. intros Hr. inversion Hr; subst; try not_version. by eexists _, _. Qed.

Lemma recorded_includes H y x : recorded H (mkQuad y INCLUDES (Some x)) →
  ∃ b txs i tx, (b, txs) ∈ H ∧ txs !! i = Some tx ∧ y = MarshalLocation (mkTxIDLocation b (Z.of_nat i)) ∧ x = PD_TxID tx.
Proof. intros Hr. inversion Hr; subst; try not_version. by eexists _, _, _, _. Qed.

Lemma recorded_previous H y x : recorded H (mkQuad y PREVIOUS (Some x)) →
  ∃ db old new, precedes H db old new ∧ y = vertex db new ∧ x = vertex db old.
Proof. intros Hr. inversion Hr; subst; try not_version. by eexists _, _, _. Qed.

Lemma recorded_next H y x : recorded H (mkQuad y NEXT (Some x)) →
  ∃ db old new, precedes H db old new ∧ y = vertex db old ∧ x = vertex db new.
Proof. intros Hr. inversion Hr; subst; try not_version. by eexists _, _, _. Qed.

(** Any predicate. *)
Lemma recorded_out H db key p o : history_wf H → name_wf db →
  recorded H (mkQuad (constructCompositeKey db key) p (Some o)) →
  ∃ kv, wrote H db kv ∧ KV_Key kv = key ∧ p = MarshalVersion (version_of kv) ∧ o = vertex db kv.
Proof.
  intros HH Hdb Hr.
  assert (Htx : ∀ b tx, valid_in H b tx → constructCompositeKey db key ≠ PD_TxID tx ∧ constructCompositeKey db key ≠ PD_UserID tx).
  { clear Hr. intros b tx Htx. assert (no_separator (PD_TxID tx) ∧ no_separator (PD_UserID tx)) as [Ht Hu].
    { revert Htx. induction HH as [|H b' txs HH IH Hb]; [by intros (? & H & _); inversion H|].
      intros [Hin|(-> & Hin & Hv)]%valid_in_snoc; [by apply IH|]. apply (bw_names _ _ _ Hb _ Hin Hv). }
    by split; apply not_eq_sym, no_separator_key. }
  inversion Hr as [b txs i tx Hin Hi E1|b tx Hv E1|b tx r Hv Hrd Hn E1|b tx r kv Hv Hrd Hw Hk Hve E1|db' kv Hw E1
    |b tx kv Hv Hkv E1|db' old new Hpre E1|db' old new Hpre E1|b tx kv Hv Hw Hdel E1].
  - destruct (location_text (mkTxIDLocation b (Z.of_nat i))) as [s Hs]. rewrite Hs in E1. symmetry in E1.
    by apply composite_key_brace in E1.
  - by destruct (Htx _ _ Hv) as [_ []].
  - by destruct (Htx _ _ Hv) as [[] _].
  - apply composite_key_inj in E1 as [-> <-]; [by eexists| |by apply Hdb].
    by apply (wrote_wf _ _ _ HH) in Hw as [[? _] _].
  - by destruct (Htx _ _ Hv) as [[] _].
  - destruct (vertex_text db' new) as [s Hs]. rewrite Hs in E1. symmetry in E1. by apply composite_key_brace in E1.
  - destruct (vertex_text db' old) as [s Hs]. rewrite Hs in E1. symmetry in E1. by apply composite_key_brace in E1.
  - by destruct (Htx _ _ Hv) as [[] _].
Qed.

(** ** The quads a block adds *)

Section Block.
Context (H : history) (b : Z) (txs : list TxDataForProvenance).

Definition read_quads (tx : TxDataForProvenance) (r : KeyWithVersion) (q : Quad) : Prop :=
  (KWV_Version r = None ∧ q = mkQuad (PD_TxID tx) READS None) ∨
  ∃ kv, wrote H (PD_DBName tx) kv ∧ KV_Key kv = KWV_Key r ∧ version_of kv = KWV_Version r ∧
    q = mkQuad (PD_TxID tx) READS (Some (vertex (PD_DBName tx) kv)).

Definition link_quads (tx : TxDataForProvenance) (kv : KVWithMetadata) (q : Quad) : Prop :=
  ∃ old, latest H (PD_DBName tx) (KV_Key kv) old ∧
    (q = mkQuad (vertex (PD_DBName tx) kv) PREVIOUS (Some (vertex (PD_DBName tx) old)) ∨
     q = mkQuad (vertex (PD_DBName tx) old) NEXT (Some (vertex (PD_DBName tx) kv))).

Definition write_quads (tx : TxDataForProvenance) (kv : KVWithMetadata) (q : Quad) : Prop :=
  q = mkQuad (constructCompositeKey (PD_DBName tx) (KV_Key kv)) (MarshalVersion (version_of kv))
        (Some (vertex (PD_DBName tx) kv)) ∨
  q = mkQuad (PD_TxID tx) WRITES (Some (vertex (PD_DBName tx) kv)) ∨ link_quads tx kv q.

Definition delete_quads (tx : TxDataForProvenance) (d : string * option Version) (q : Quad) : Prop :=
  ∃ kv, wrote H (PD_DBName tx) kv ∧ KV_Key kv = d.1 ∧ version_of kv = d.2 ∧
    q = mkQuad (PD_TxID tx) DELETES (Some (vertex (PD_DBName tx) kv)).

Definition valid_tx_quads (tx : TxDataForProvenance) (q : Quad) : Prop :=
  q = mkQuad (PD_UserID tx) SUBMITTED (Some (PD_TxID tx)) ∨
  (∃ r, r ∈ PD_Reads tx ∧ read_quads tx r q) ∨ (∃ kv, kv ∈ PD_Writes tx ∧ write_quads tx kv q) ∨
  (∃ k v, PD_Deletes tx !! k = Some v ∧ delete_quads tx (k, v) q).

Definition tx_quads (i : Z) (tx : TxDataForProvenance) (q : Quad) : Prop :=
  q = mkQuad (MarshalLocation (mkTxIDLocation b i)) INCLUDES (Some (PD_TxID tx)) ∨
  PD_IsValid tx = true ∧ valid_tx_quads tx q.

Definition block_quads (q : Quad) : Prop := ∃ i tx, txs !! i = Some tx ∧ tx_quads (Z.of_nat i) tx q.

Hypothesis (HH : history_wf H) (Hb : block_wf H b txs).
Let H' := H ++ [(b, txs)].
Let HH' : history_wf H' := hw_snoc _ _ _ HH Hb.

Lemma recorded_mono q : recorded H q → recorded H' q.
Proof using HH Hb.
  assert (Hv : ∀ b' tx, valid_in H b' tx → valid_in H' b' tx) by (intros; apply valid_in_snoc; by left).
  assert (Hw : ∀ db kv, wrote H db kv → wrote H' db kv) by (intros; apply wrote_snoc; by left).
  assert (Hp : ∀ db old new, precedes H db old new → precedes H' db old new).
  { intros db old new Hp. apply precedes_snoc_old; [done..|apply Hp|done]. }
  destruct 1; econstructor; eauto. apply elem_of_app. by left.
Qed.

Lemma block_quads_recorded q : block_quads q → recorded H' q.
Proof using HH Hb.
  intros (i & tx & Hi & Hq). assert (Htx : tx ∈ txs) by (by eapply list_elem_of_lookup_2).
  destruct Hq as [->|[Hv Hq]].
  { eapply rec_includes; [|done]. apply elem_of_app. right. by left. }
  assert (Hvi : valid_in H' b tx) by (apply valid_in_snoc; by right).
  assert (Hw : ∀ db kv, wrote H db kv → wrote H' db kv) by (intros; apply wrote_snoc; by left).
  destruct Hq as [->|[(r & Hr & [[Hn ->]|(kv & ? & ? & ? & ->)])|[(kv & Hkv & Hq)|(k & v & Hd & kv & ? & Hk & Hve & ->)]]].
  - by eapply rec_submitted.
  - by eapply rec_read_absent.
  - eapply rec_read; eauto.
  - assert (Hwk : wrote H' (PD_DBName tx) kv) by (apply wrote_snoc; right; by exists tx).
    destruct Hq as [->|[->|(old & Hl & Hq)]].
    + by apply rec_value.
    + by eapply rec_write.
    + apply (latest_precedes _ _ _ _ _ _ _ HH Hb Htx Hv eq_refl Hkv) in Hl.
      destruct Hq as [->| ->]; [by eapply rec_previous|by eapply rec_next].
  - eapply rec_delete; eauto. cbn in *. by rewrite Hk, Hve.
Qed.

(** A value of the longer history with the version of an old one is the old one. *)
Lemma old_value db kv kv0 : wrote H' db kv → wrote H db kv0 → KV_Key kv0 = KV_Key kv → version_of kv0 = version_of kv →
  wrote H db kv.
Proof using HH Hb.
  intros Hw Hw0 Hk Hv. rewrite <- (wrote_version_unique H' db kv0 kv HH'); [done| |done..].
  apply wrote_snoc. by left.
Qed.

Lemma recorded_new q : recorded H' q → recorded H q ∨ block_quads q.
Proof using HH Hb.
  assert (Hnew : ∀ tx q, tx ∈ txs → PD_IsValid tx = true → valid_tx_quads tx q → block_quads q).
  { intros tx q' [i Hi]%list_elem_of_lookup_1 Hv Hq. exists i, tx. split; [done|]. by right. }
  destruct 1 as [b' txs' i tx Hin Hi|b' tx Hv|b' tx r Hv Hr Hn|b' tx r kv Hv Hr Hw Hk Hve|db kv Hw|b' tx kv Hv Hkv
    |db old new Hp|db old new Hp|b' tx kv Hv Hw Hdel].
  - apply elem_of_app in Hin as [Hin|Hin%list_elem_of_singleton]; [left; by eapply rec_includes|].
    injection Hin as -> ->. right. exists i, tx. split; [done|]. by left.
  - apply valid_in_snoc in Hv as [Hv|(-> & Htx & Hv)]; [left; by eapply rec_submitted|].
    right. apply (Hnew tx); [done..|]. by left.
  - apply valid_in_snoc in Hv as [Hv|(-> & Htx & Hv)]; [left; by eapply rec_read_absent|].
    right. apply (Hnew tx); [done..|]. right. left. exists r. split; [done|]. by left.
  - destruct (wrote_version_wf _ _ _ HH' Hw) as (v & Ev & _).
    assert (Hn : KWV_Version r ≠ None) by (rewrite <- Hve, Ev; done).
    apply valid_in_snoc in Hv as [Hv|(-> & Htx & Hv)].
    + destruct (read_wrote _ _ _ _ HH Hv Hr Hn) as (kv0 & Hw0 & ? & ?).
      left. eapply rec_read; eauto. eapply old_value; [done..|congruence|congruence].
    + destruct (bw_read _ _ _ Hb _ _ Htx Hv Hr Hn) as (kv0 & Hw0 & ? & ?).
      right. apply (Hnew tx); [done..|]. right. left. exists r. split; [done|]. right. exists kv.
      split_and!; [|done..]. eapply old_value; [done..|congruence|congruence].
  - apply wrote_snoc in Hw as [Hw|(tx & Htx & Hv & <- & Hkv)]; [left; by eapply rec_value|].
    right. apply (Hnew tx); [done..|]. right. right. left. exists kv. split; [done|]. by left.
  - apply valid_in_snoc in Hv as [Hv|(-> & Htx & Hv)]; [left; by eapply rec_write|].
    right. apply (Hnew tx); [done..|]. right. right. left. exists kv. split; [done|]. by right; left.
  - destruct (Hp) as (_ & Hw & _). apply wrote_snoc in Hw as [Hw|(tx & Htx & Hv & <- & Hkv)].
    + left. eapply rec_previous. by apply precedes_snoc_old in Hp.
    + right. apply (Hnew tx); [done..|]. right. right. left. exists new. split; [done|]. right. right. exists old.
      split; [by eapply latest_precedes|by left].
  - destruct (Hp) as (_ & Hw & _). apply wrote_snoc in Hw as [Hw|(tx & Htx & Hv & <- & Hkv)].
    + left. eapply rec_next. by apply precedes_snoc_old in Hp.
    + right. apply (Hnew tx); [done..|]. right. right. left. exists new. split; [done|]. right. right. exists old.
      split; [by eapply latest_precedes|by right].
  - apply valid_in_snoc in Hv as [Hv|(-> & Htx & Hv)].
    + destruct (delete_wrote _ _ _ _ _ HH Hv Hdel) as (kv0 & Hw0 & ? & ?).
      left. eapply rec_delete; eauto. by eapply old_value.
    + destruct (bw_delete _ _ _ Hb _ _ _ Htx Hv Hdel) as (kv0 & Hw0 & ? & ?).
      right. apply (Hnew tx); [done..|]. right. right. right. exists (KV_Key kv), (version_of kv). split; [done|].
      exists kv. split_and!; [|done..]. by eapply old_value.
Qed.

Lemma recorded_snoc q : recorded H' q ↔ recorded H q ∨ block_quads q.
Proof using HH Hb. split; [apply recorded_new|]. intros [?|?]; [by apply recorded_mono|by apply block_quads_recorded]. Qed.

End Block.

(** ** Queries while a block is committed *)

Section Graph.
Context {G : Type} `{!Graph G, !GraphLaws G} {mr : MapRange}.
Implicit Types (g : G).

(** A graph that holds the quads of [H], and none that are not of [H']. *)
Definition between (H H' : history) g : Prop :=
  (∀ q, recorded H q → has_quad g q) ∧ (∀ q, has_quad g q → recorded H' q).

Lemma value_vertex H H' g db kv : history_wf H' → between H H' g → wrote H db kv → wrote H' db kv →
  getValueVertex g db (KV_Key kv) (version_of kv) = Ok (Some (vertex db kv)).
Proof.
  intros HH' [Hlo Hhi] Hw Hw'. unfold getValueVertex.
  destruct (first_value g (Out (StartPath (constructCompositeKey db (KV_Key kv))) (MarshalVersion (version_of kv))))
    as (o & -> & Ho). destruct o as [x|].
  - destruct Ho as [tags Hr]. inversion Hr as [| |p tags' x' pred y Hs Hq| | |]; subst. inversion Hs; subst.
    apply Hhi, recorded_version in Hq as (db' & kv' & Hwk & Hc & Hv & ->).
    destruct (wrote_wf _ _ _ HH' Hw') as ([Hd _] & _). destruct (wrote_wf _ _ _ HH' Hwk) as ([Hd' _] & _).
    apply composite_key_inj in Hc as [<- Hk]; [|done..].
    destruct (wrote_version_wf _ _ _ HH' Hw') as (v & Ev & Hvw & _).
    destruct (wrote_version_wf _ _ _ HH' Hwk) as (v' & Ev' & Hvw' & _).
    apply MarshalVersion_inj in Hv; [|naive_solver..].
    by rewrite (wrote_version_unique _ _ _ _ HH' Hw' Hwk Hk Hv).
  - exfalso. eapply Ho. eapply reach_out; [apply reach_start|]. by apply Hlo, rec_value.
Qed.

Lemma value_vertex_none H H' g db key v : history_wf H' → between H H' g → name_wf db →
  (∀ x, v = Some x → version_wf x) → (∀ kv, wrote H' db kv → KV_Key kv = key → version_of kv ≠ v) →
  getValueVertex g db key v = Ok None.
Proof.
  intros HH' [Hlo Hhi] Hdb Hv Hno. unfold getValueVertex.
  destruct (first_value g (Out (StartPath (constructCompositeKey db key)) (MarshalVersion v))) as (o & -> & Ho).
  destruct o as [x|]; [exfalso|done].
  destruct Ho as [tags Hr]. inversion Hr as [| |p tags' x' pred y Hs Hq| | |]; subst. inversion Hs; subst.
  apply Hhi, recorded_version in Hq as (db' & kv' & Hwk & Hc & Hve & ->).
  destruct (wrote_wf _ _ _ HH' Hwk) as ([Hd' _] & _).
  apply composite_key_inj in Hc as [<- Hk]; [|by apply Hdb|done].
  destruct (wrote_version_wf _ _ _ HH' Hwk) as (v' & Ev' & Hvw' & _).
  apply MarshalVersion_inj in Hve; [|naive_solver..]. by eapply Hno.
Qed.

(** Vertices that stand for values are read. *)
Lemma vertices_values H db l : history_wf H → (∀ x, x ∈ l → ∃ kv, wrote H db kv ∧ x = vertex db kv) →
  ∃ vs, verticesToValues l = Ok vs ∧ ∀ v, v ∈ vs ↔ ∃ kv, wrote H db kv ∧ vertex db kv ∈ l ∧ v = value_of kv.
Proof.
  intros HH Hl. assert (∃ vs, verticesToValues l = Ok vs) as [vs Hvs].
  { unfold verticesToValues. induction l as [|x l IH]; [by eexists|].
    destruct (Hl x) as (kv & Hw & ->); [by left|]. destruct (wrote_wf _ _ _ HH Hw) as (? & ? & _).
    destruct IH as [vs IH]; [intros y Hy; apply Hl; by right|]. exists (value_of kv :: vs).
    cbn [res_mapM]. rewrite vertex_value by done. cbn [mbind res_bind]. by rewrite IH. }
  exists vs. split; [done|]. intros v. unfold verticesToValues in Hvs. rewrite (res_mapM_elem _ _ _ _ Hvs). split.
  - intros (x & Hx & Hv). destruct (Hl x Hx) as (kv & Hw & ->). destruct (wrote_wf _ _ _ HH Hw) as (? & ? & _).
    rewrite vertex_value in Hv by done. injection Hv as <-. by exists kv.
  - intros (kv & Hw & Hx & ->). destruct (wrote_wf _ _ _ HH Hw) as (? & ? & _).
    exists (vertex db kv). by rewrite vertex_value.
Qed.

Lemma deleted_values H H' g db key : history_wf H' → between H H' g → name_wf db →
  ∃ l, getDeletedValuesWithoutLock g db key = Ok l ∧
    (∀ x, x ∈ l → ∃ kv, wrote H' db kv ∧ KV_Key kv = key ∧ deleted H' db kv ∧ x = value_of kv) ∧
    (∀ kv, wrote H db kv → wrote H' db kv → KV_Key kv = key → deleted H db kv → value_of kv ∈ l).
Proof.
  intros HH' [Hlo Hhi] Hdb. unfold getDeletedValuesWithoutLock.
  destruct (all_values g (Back (In (Tag (OutAll (StartPath (constructCompositeKey db key))) "deleted_value") DELETES)
    "deleted_value")) as (l & -> & Hl). cbn [mbind res_bind].
  assert (Hsound : ∀ x, x ∈ l → ∃ kv, wrote H' db kv ∧ KV_Key kv = key ∧ deleted H' db kv ∧ x = vertex db kv).
  { intros x [tags Hx]%Hl. inversion Hx as [| | | | |p tags' y nm x' Hr Htag]; subst.
    inversion Hr as [| | |p tags'' z pred y' Hr' Hq| |]; subst. inversion Hr' as [| | | |p tags3 z' nm Hr2|]; subst.
    inversion Hr2 as [|p tags4 z2 pred y2 Hs Hq2| | | |]; subst. inversion Hs; subst.
    apply list_elem_of_singleton in Htag. injection Htag as ->.
    apply Hhi, recorded_out in Hq2 as (kv & Hw & Hk & _ & ->); [|done..].
    apply Hhi, recorded_delete in Hq as (b & tx & kv' & Hv & Hw' & Hdel & -> & E).
    apply (wrote_vertex_inj _ _ _ _ _ HH' Hw Hw') in E as [-> ->].
    exists kv'. split_and!; [done..| |done]. by exists b, tx. }
  destruct (vertices_values H' db l HH') as (vs & -> & Hvs).
  { intros x (kv & Hw & _ & _ & ->)%Hsound. by exists kv. }
  exists vs. split_and!; [done|..].
  - intros v (kv & Hw & Hin & ->)%Hvs. destruct (Hsound _ Hin) as (kv' & Hw' & Hk & Hd & E).
    apply (wrote_vertex_inj _ _ _ _ _ HH' Hw Hw') in E as [_ ->]. by exists kv'.
  - intros kv Hw Hw' Hk (b & tx & Hv & Hdbn & Hdel). apply Hvs. exists kv. split_and!; [done| |done].
    apply Hl. eexists. eapply reach_back; [|by left]. eapply reach_in; [eapply reach_tag, reach_out_all; [apply reach_start|]|].
    + rewrite <- Hk. by apply Hlo, rec_value.
    + rewrite <- Hdbn in *. by apply Hlo, (rec_delete _ b).
Qed.

Lemma later_version_fold l v0 : (∀ x, x ∈ l → ∃ w, versionOf x = Ok w) →
  ∃ v, res_foldM laterVersion v0 l = Ok v ∧ (v = v0 ∨ ∃ x, x ∈ l ∧ versionOf x = Ok v) ∧
    BlockNum v0 ≤ BlockNum v ∧ ∀ x w, x ∈ l → versionOf x = Ok w → BlockNum w ≤ BlockNum v.
Proof.
  revert v0. induction l as [|y l IH]; intros v0 Hl.
  { exists v0. split_and!; [done|by left|lia|]. intros x w H. by inversion H. }
  destruct (Hl y) as [w Hw]; [by left|]. cbn [res_foldM].
  assert (laterVersion v0 y = Ok (if BlockNum v0 >? BlockNum w then v0 else w)) as -> by (unfold laterVersion; by rewrite Hw).
  cbn [mbind res_bind].
  destruct (IH (if BlockNum v0 >? BlockNum w then v0 else w)) as (v & -> & Hv & Hle & Hmax); [intros x Hx; apply Hl; by right|].
  exists v. split_and!; [done|..].
  - destruct Hv as [->|(x & Hx & Hvx)]; [|right; exists x; split; [by right|done]].
    destruct (BlockNum v0 >? BlockNum w); [by left|]. right. exists y. split; [by left|done].
  - destruct (BlockNum v0 >? BlockNum w) eqn:E; lia.
  - intros x w' [->|Hx]%elem_of_cons Hw'; [|by eapply Hmax]. rewrite Hw in Hw'. injection Hw' as <-.
    destruct (BlockNum v0 >? BlockNum w) eqn:E; lia.
Qed.

(** The version a key had when it was deleted last, if it was written at all. *)
Lemma last_deleted H b txs g db key : history_wf H → block_wf H b txs → between H (H ++ [(b, txs)]) g → name_wf db →
  ((∀ old, wrote H db old → KV_Key old ≠ key) → getLastDeletedVersion g db key = Ok None) ∧
  (∀ old, latest H db key old → deleted H db old → getLastDeletedVersion g db key = Ok (version_of old)).
Proof.
  intros HH Hb Hg Hdb. pose proof (hw_snoc _ _ _ HH Hb) as HH'.
  destruct (deleted_values _ _ g db key HH' Hg Hdb) as (l & Hl & Hsound & Hcomplete).
  assert (Hold : ∀ x, x ∈ l → ∃ kv v, wrote H db kv ∧ KV_Key kv = key ∧ versionOf x = Ok v ∧ version_of kv = Some v ∧
    block_of kv = BlockNum v).
  { intros x (kv & Hw & Hk & Hd & ->)%Hsound. destruct (wrote_version_wf _ _ _ HH' Hw) as (v & Ev & _ & _ & Eb).
    assert (Hvo : versionOf (value_of kv) = Ok v).
    { unfold versionOf, value_of, version_of in *. cbn. destruct (KV_Metadata kv) as [m|]; [|done]. cbn in *. by rewrite Ev. }
    exists kv, v. split_and!; [|done..]. apply wrote_snoc in Hw as [Hw|(tx & Htx & Hv & Hdn & Hkv)]; [done|].
    exfalso. pose proof (wrote_block_new _ _ _ _ _ Hb Htx Hv Hkv) as Hbk.
    destruct (deleted_old _ _ _ _ _ HH Hb Hd) as (old & Hwo & Hvo').
    pose proof (wrote_block_earlier _ _ _ _ _ HH Hb Hwo) as Hlt. unfold block_of in Hlt, Hbk. rewrite Hvo' in Hlt. lia. }
  destruct (later_version_fold l (mkVersion 0 0)) as (v & Hfold & Hv & Hge & Hmax).
  { intros x (kv & v & _ & _ & Hv & _)%Hold. by exists v. }
  unfold getLastDeletedVersion. rewrite Hl. cbn [wrap_err mbind res_bind]. rewrite Hfold. cbn [mbind res_bind]. split.
  - intros Hno. destruct Hv as [->|(x & Hx & _)]; [done|]. destruct (Hold x Hx) as (kv & _ & Hw & Hk & _). by destruct (Hno kv).
  - intros old (Hw & Hk & Hlat) Hd. destruct (wrote_version_wf _ _ _ HH Hw) as (vo & Evo & _ & Hpos & Ebo).
    assert (Hin : value_of old ∈ l).
    { apply Hcomplete; [done| |done..]. apply wrote_snoc. by left. }
    destruct (Hold _ Hin) as (kv1 & v1 & _ & _ & Hv1 & _).
    assert (v1 = vo) as ->.
    { unfold versionOf, value_of, version_of in *. cbn in Hv1. destruct (KV_Metadata old) as [m|]; [|done].
      cbn in *. rewrite Evo in Hv1. by injection Hv1. }
    pose proof (Hmax _ _ Hin Hv1) as Hge1. destruct Hv as [->|(x & Hx & Hvx)]; [cbn in Hge1; lia|].
    destruct (Hold x Hx) as (kv & v' & Hwk & Hkk & Hv' & Ev & Eb). rewrite Hvx in Hv'. injection Hv' as <-.
    pose proof (Hlat kv Hwk Hkk) as Hle.
    assert (kv = old) as -> by (apply (wrote_unique _ _ _ _ HH Hwk Hw); [by rewrite Hkk|lia]).
    rewrite Ev in Evo. injection Evo as ->. assert ((BlockNum vo =? 0) = false) as -> by lia. by rewrite Ev.
Qed.

(** ** Committing a block *)

Section Commit.
Context (H : history) (b : Z) (txs : list TxDataForProvenance) (g : G).
Hypothesis (HH : history_wf H) (Hb : block_wf H b txs) (Hg : between H (H ++ [(b, txs)]) g).
Let H' := H ++ [(b, txs)].

Definition written (qs : list Quad) : Writer := foldl (fun w q => (WriteQuad w q).1) (NewWriter g) qs.

(** The step writes the quads of [Q], which belong to the block. *)
Definition runs (m : prog Writer unit) (Q : Quad → Prop) : Prop :=
  (∀ q, Q q → recorded H' q) ∧
  ∀ qs, (∀ q, q ∈ qs → recorded H' q) →
    ∃ qs', m (written qs) = (written (qs ++ qs'), Ok tt) ∧ ∀ q, q ∈ qs' ↔ Q q.

Lemma runs_proper m (Q Q' : Quad → Prop) : runs m Q → (∀ q, Q q ↔ Q' q) → runs m Q'.
Proof.
  intros [Hr Hm] E. split; [intros q Hq; apply Hr; by apply E|]. intros qs Hqs.
  destruct (Hm qs Hqs) as (qs' & ? & Hq). exists qs'. split; [done|]. intros q. by rewrite Hq.
Qed.

Lemma runs_ret : runs (mret tt) (fun _ => False).
Proof. split; [done|]. intros qs _. exists []. rewrite app_nil_r. split; [done|]. set_solver. Qed.

Lemma runs_write q0 : recorded H' q0 → runs (writeQuad q0) (fun q => q = q0).
Proof.
  intros Hq. split; [by intros q ->|]. intros qs _. exists [q0]. split; [|set_solver].
  unfold writeQuad, written. by rewrite foldl_app.
Qed.

Lemma runs_seq m1 m2 Q1 Q2 : runs m1 Q1 → runs m2 Q2 → runs (m1;; m2) (fun q => Q1 q ∨ Q2 q).
Proof.
  intros [Hr1 H1] [Hr2 H2]. split; [naive_solver|]. intros qs Hqs.
  destruct (H1 qs Hqs) as (qs1 & E1 & Hq1). destruct (H2 (qs ++ qs1)) as (qs2 & E2 & Hq2); [set_solver|].
  exists (qs1 ++ qs2). rewrite (bind_step _ _ _ _ _ E1), E2, <- app_assoc. split; [done|]. set_solver.
Qed.

Lemma runs_for_each {A} (f : A → prog Writer unit) (Q : A → Quad → Prop) l :
  (∀ x, x ∈ l → runs (f x) (Q x)) → runs (for_each f l) (fun q => ∃ x, x ∈ l ∧ Q x q).
Proof.
  induction l as [|x l IH]; intros Hl; cbn [for_each].
  - eapply runs_proper; [apply runs_ret|]. set_solver.
  - eapply runs_proper; [apply runs_seq; [apply Hl; by left|apply IH; intros y Hy; apply Hl; by right]|].
    intros q. cbn. split; [intros [?|(y & ? & ?)]; [exists x|exists y]; (split; [|done]); by constructor|].
    intros (y & [->|?]%elem_of_cons & ?); [by left|right; by exists y].
Qed.

(** The graph that queries see while the batch is open. *)
Lemma runs_query {A} (f : G → res A) a (k : A → prog Writer unit) Q :
  (∀ s, between H H' s → f s = Ok a) → runs (k a) Q → runs (query f ≫= k) Q.
Proof using HH Hb Hg.
  intros Hf [Hr Hk]. split; [done|]. intros qs Hqs. destruct (Hk qs Hqs) as (qs' & E & Hq).
  exists qs'. split; [|done]. rewrite <- E. apply bind_step. unfold query. f_equal. apply Hf.
  unfold written. split; intros q Hq'.
  - apply (open_batch g qs q). by apply Hg.
  - apply (open_batch g qs q) in Hq' as [Hq'|Hq']; [|by apply Hqs]. by apply Hg.
Qed.

Lemma runs_lift {A} (m : res A) a (k : A → prog Writer unit) Q : m = Ok a → runs (k a) Q → runs (lift m ≫= k) Q.
Proof.
  intros -> [Hr Hk]. split; [done|]. intros qs Hqs. destruct (Hk qs Hqs) as (qs' & E & Hq).
  exists qs'. split; [|done]. rewrite <- E. by apply bind_step.
Qed.

Lemma runs_ext m m' Q : (∀ w, m' w = m w) → runs m Q → runs m' Q.
Proof. intros E [Hr Hm]. split; [done|]. intros qs Hqs. rewrite E. by apply Hm. Qed.

Lemma runs_ret_bind {A} (a : A) (k : A → prog Writer unit) Q : runs (k a) Q → runs (mret a ≫= k) Q.
Proof. by apply runs_ext. Qed.

(** The vertex of a value of the history before the block. *)
Lemma query_vertex db kv s : wrote H db kv → between H H' s →
  getValueVertex s db (KV_Key kv) (version_of kv) = Ok (Some (vertex db kv)).
Proof using HH Hb.
  intros Hw Hs. eapply value_vertex; [apply (hw_snoc _ _ _ HH Hb)|done|done|]. apply wrote_snoc. by left.
Qed.

Section Tx.
Context (i : nat) (tx : TxDataForProvenance).
Hypothesis (Hi : txs !! i = Some tx) (Hv : PD_IsValid tx = true).
Let Htx : tx ∈ txs := list_elem_of_lookup_2 _ _ _ Hi.

Lemma quads_recorded q : valid_tx_quads H tx q → recorded H' q.
Proof using HH Hb Hi Hv. intros Hq. apply block_quads_recorded; [done..|]. exists i, tx. split; [done|]. by right. Qed.

Lemma runs_reads : runs (addReads tx) (fun q => ∃ r, r ∈ PD_Reads tx ∧ read_quads H tx r q).
Proof using HH Hb Hg Hi Hv.
  apply runs_for_each. intros r Hr.
  assert (Hrec : ∀ q, read_quads H tx r q → recorded H' q).
  { intros q Hq. apply quads_recorded. right. left. by exists r. }
  destruct (bw_names _ _ _ Hb _ Htx Hv) as (Hdb & _). destruct (KWV_Version r) as [v|] eqn:E.
  - destruct (bw_read _ _ _ Hb _ _ Htx Hv Hr) as (kv & Hw & Hk & Hve); [by rewrite E|]. rewrite E in Hve.
    eapply runs_query; [intros s Hs; rewrite <- Hk, <- Hve; by apply query_vertex|].
    eapply runs_proper; [apply runs_write, Hrec; right; exists kv; by rewrite E|].
    intros q. split; [intros ->; right; exists kv; by rewrite E|].
    intros [[? _]|(kv' & Hw' & Hk' & Hve' & ->)]; [congruence|].
    by rewrite (wrote_version_unique H (PD_DBName tx) kv' kv HH) by (done || congruence).
  - eapply runs_query; [intros s Hs|].
    { eapply value_vertex_none; [apply (hw_snoc _ _ _ HH Hb)|done|done|done|].
      intros kv Hw _. destruct (wrote_version_wf _ _ _ (hw_snoc _ _ _ HH Hb) Hw) as (v & -> & _). done. }
    eapply runs_proper; [apply runs_write, Hrec; by left|].
    intros q. split; [intros ->; by left|]. intros [[_ ->]|(kv' & Hw' & Hk' & Hve' & ->)]; [done|].
    destruct (wrote_version_wf _ _ _ HH Hw') as (v & Ev & _). congruence.
Qed.

Lemma latest_unique db key x y : latest H db key x → latest H db key y → x = y.
Proof using HH.
  intros (Hw & Hk & Hm) (Hw' & Hk' & Hm'). apply (wrote_unique _ _ _ _ HH Hw Hw'); [congruence|].
  specialize (Hm y Hw' Hk'). specialize (Hm' x Hw Hk). lia.
Qed.

Lemma runs_link kv : kv ∈ PD_Writes tx → runs (linkOldValue tx (KV_Key kv) (vertex (PD_DBName tx) kv)) (link_quads H tx kv).
Proof using HH Hb Hg Hi Hv.
  intros Hkv. destruct (bw_names _ _ _ Hb _ Htx Hv) as (Hdb & _).
  assert (Hrec : ∀ q, link_quads H tx kv q → recorded H' q).
  { intros q Hq. apply quads_recorded. right. right. left. exists kv. split; [done|]. by right; right. }
  assert (Hlink : ∀ old, latest H (PD_DBName tx) (KV_Key kv) old →
    runs (oldValue ← query (fun s => getValueVertex s (PD_DBName tx) (KV_Key kv) (version_of old));
          match oldValue with
          | None =>
            _ ← lift (deref (version_of old));
            lift (Err (PlainErr ("error while finding the previous version of the key[" +:+
                                 constructCompositeKey (PD_DBName tx) (KV_Key kv) +:+ "]")))
          | Some oldValue =>
            writeQuad (mkQuad (vertex (PD_DBName tx) kv) PREVIOUS (Some oldValue));;
            writeQuad (mkQuad oldValue NEXT (Some (vertex (PD_DBName tx) kv)))
          end) (link_quads H tx kv)).
  { intros old Hl. eapply runs_query.
    { intros s Hs. destruct Hl as (Hw & <- & _). by apply query_vertex. }
    eapply runs_proper; [apply runs_seq; apply runs_write, Hrec; exists old; (split; [done|]); auto|].
    intros q. cbn. split; [intros [->| ->]; exists old; auto|].
    intros (old' & Hl' & Hq). by rewrite (latest_unique _ _ _ _ Hl Hl'). }
  unfold linkOldValue. pose proof (bw_old _ _ _ Hb _ _ Htx Hv Hkv) as Hold.
  destruct (PD_OldVersionOfWrites tx !! KV_Key kv) as [v|].
  - destruct Hold as (old & Hl & <-). apply runs_ret_bind. by apply Hlink.
  - assert (Hlast : ∀ s, between H H' s → _) by exact (fun s Hs => last_deleted H b txs s (PD_DBName tx) (KV_Key kv) HH Hb Hs Hdb).
    destruct Hold as [Hno|(old & Hl & Hd)].
    + eapply runs_proper; [|intros q; split; [intros Hf; exact (False_ind _ Hf)|intros (old & (Hw & Hk & _) & _); by destruct (Hno old)]].
      eapply runs_ext; [intros w; apply prog_bind_assoc|].
      apply (runs_query _ None); [intros s Hs; by apply Hlast|]. apply runs_ret_bind. apply runs_ret.
    + eapply runs_ext; [intros w; apply prog_bind_assoc|].
      apply (runs_query _ (version_of old)); [intros s Hs; by apply Hlast|]. apply runs_ret_bind.
      destruct Hl as (Hw & Hk & Hmax). destruct (wrote_version_wf _ _ _ HH Hw) as (v & Ev & _).
      specialize (Hlink old (conj Hw (conj Hk Hmax))). rewrite Ev in *. apply Hlink.
Qed.

Lemma runs_addWrite kv : kv ∈ PD_Writes tx → runs (addWrite tx kv) (write_quads H tx kv).
Proof using HH Hb Hg Hi Hv.
  intros Hkv. destruct (bw_write _ _ _ Hb _ _ Htx Hv Hkv) as (_ & t & acl & Hm).
  assert (Hrec : ∀ q, write_quads H tx kv q → recorded H' q).
  { intros q Hq. apply quads_recorded. right. right. left. by exists kv. }
  unfold addWrite. eapply runs_lift; [by rewrite Hm|].
  assert (Metadata_Version {| Metadata_Version := Some (mkVersion b t); Metadata_AccessControl := acl |} = version_of kv) as ->.
  { unfold version_of. by rewrite Hm. }
  fold (vertex (PD_DBName tx) kv).
  apply runs_seq; [apply runs_write, Hrec; by left|]. apply runs_seq; [apply runs_write, Hrec; by right; left|].
  by apply runs_link.
Qed.

Lemma runs_deletes : runs (addDeletes tx) (fun q => ∃ k v, PD_Deletes tx !! k = Some v ∧ delete_quads H tx (k, v) q).
Proof using HH Hb Hg Hi Hv.
  eapply runs_proper; [apply (runs_for_each _ (delete_quads H tx))|].
  - intros [k v] Hkv%elem_of_range. destruct (bw_delete _ _ _ Hb _ _ _ Htx Hv Hkv) as (kv & Hw & <- & <-).
    destruct (wrote_version_wf _ _ _ HH Hw) as (v & Ev & _).
    unfold addDelete. eapply runs_lift; [by rewrite Ev|]. eapply runs_query; [intros s Hs; by apply query_vertex|].
    eapply runs_proper; [apply runs_write, quads_recorded|].
    + right. right. right. exists (KV_Key kv), (version_of kv). split; [done|]. by exists kv.
    + intros q. split; [intros ->; by exists kv|]. intros (kv' & Hw' & Hk' & Hve' & ->). cbn in *.
      by rewrite (wrote_version_unique H (PD_DBName tx) kv' kv HH).
  - intros q. cbn. split.
    + intros ([k v] & Hin%elem_of_range & Hq). by exists k, v.
    + intros (k & v & Hin & Hq). exists (k, v). by rewrite elem_of_range.
Qed.

End Tx.

Lemma runs_addTx i tx : txs !! i = Some tx → runs (addTx b tx (Z.of_nat i)) (tx_quads H b (Z.of_nat i) tx).
Proof using HH Hb Hg.
  intros Hi. assert (Hrec : ∀ q, tx_quads H b (Z.of_nat i) tx q → recorded H' q).
  { intros q Hq. apply block_quads_recorded; [done..|]. by exists i, tx. }
  unfold addTx. destruct (PD_IsValid tx) eqn:Hv.
  - eapply runs_proper; [apply runs_seq; [apply runs_write, Hrec; by left|apply runs_seq; [apply runs_write, Hrec|]]|].
    + right. split; [done|]. by left.
    + apply runs_seq; [by eapply runs_reads|]. apply runs_seq; [|by eapply runs_deletes].
      apply runs_for_each. intros kv. by eapply runs_addWrite.
    + intros q. unfold tx_quads, valid_tx_quads. naive_solver.
  - eapply runs_proper; [apply runs_seq; [apply runs_write, Hrec; by left|apply runs_ret]|].
    intros q. unfold tx_quads. rewrite Hv. cbv beta. clear. intuition congruence.
Qed.

Lemma runs_addTxs l i : (∀ j tx, l !! j = Some tx → txs !! (i + j)%nat = Some tx) →
  runs (addTxs b (Z.of_nat i) l) (fun q => ∃ j tx, l !! j = Some tx ∧ tx_quads H b (Z.of_nat (i + j)) tx q).
Proof using HH Hb Hg.
  revert i. induction l as [|tx l IH]; intros i Hl; cbn [addTxs].
  - eapply runs_proper; [apply runs_ret|]. intros q. split; [done|]. intros (j & tx & Hj & _). by rewrite lookup_nil in Hj.
  - replace (Z.of_nat i + 1) with (Z.of_nat (S i)) by lia. eapply runs_proper; [apply runs_seq; [apply runs_addTx|apply IH]|].
    + rewrite <- (Nat.add_0_r i). by apply Hl.
    + intros j tx' Hj. rewrite Nat.add_succ_comm. by apply Hl.
    + intros q. split.
      * intros [Hq|(j & tx' & Hj & Hq)]; [exists 0%nat, tx; by rewrite Nat.add_0_r|].
        exists (S j), tx'. by rewrite <- Nat.add_succ_comm.
      * intros ([|j] & tx' & Hj & Hq); [left|right; exists j, tx'; by rewrite Nat.add_succ_comm].
        injection Hj as ->. by rewrite Nat.add_0_r in Hq.
Qed.

(** A block is committed without an error of its own, by writing its quads, and the graph
    then holds the quads of the longer history. *)
Lemma commit_records : ∃ qs, Commit b txs g = CloseWriter (written qs) ∧
  (∀ q, q ∈ qs → recorded H' q) ∧
  ∀ g', Commit b txs g = (g', Ok tt) → ∀ q, has_quad g' q ↔ recorded H' q.
Proof using HH Hb Hg.
  destruct (runs_addTxs txs 0) as [_ Hrun]; [done|].
  destruct (Hrun []) as (qs & E & Hq); [intros q Hq; by inversion Hq|]. exists qs.
  assert (HC : Commit b txs g = CloseWriter (written qs)) by (unfold Commit; change 0 with (Z.of_nat 0); change (NewWriter g) with (written []); by rewrite E).
  assert (Hnew : ∀ q, q ∈ qs → recorded H' q) by (intros q ?%Hq; unfold H'; apply recorded_snoc; try done; by right).
  split_and!; [done..|]. rewrite HC. intros g' Hclose q. rewrite (closed_batch _ _ _ q Hclose). split.
  - intros [?|?]; [by apply Hg|by apply Hnew].
  - unfold H'. rewrite recorded_snoc by done. intros [?|?]; [left; by apply Hg|right; by apply Hq].
Qed.

End Commit.

End Graph.
