(* ===== verification/ProvenanceHistory.v ===== *)
(** * The queries of the provenance store

    What the queries return after a sequence of commits, in terms of the history of
    the commits. *)

From stdpp Require Import sorting.
From Stdlib Require Import Ascii.
From S2P Require Import Prelude StringOrder Types JSON JSONPrint WorldState ProvenanceJSON DbEntries Provenance ProvenanceProofs.
Open Scope Z_scope.

Section History.
Context {G : Type} `{!Graph G, !GraphLaws G} {mr : MapRange}.
Implicit Types (g : G).

(** A graph that was empty once, with the history of its commits. *)
Inductive committed : history → G → Prop :=
  | committed_empty g : (∀ q, ¬ has_quad g q) → committed [] g
  | committed_block H g b txs g' :
    committed H g → block_wf H b txs → Commit b txs g = (g', Ok tt) → committed (H ++ [(b, txs)]) g'.

Lemma committed_recorded H g : committed H g → history_wf H ∧ ∀ q, has_quad g q ↔ recorded H q.
Proof.
  induction 1 as [g Hg|H g b txs g' Hc [HH Hg] Hb HC].
  - split; [constructor|]. intros q. split; [intros Hq; by destruct (Hg q)|].
    assert (Hv : ∀ b tx, ¬ valid_in [] b tx) by (intros b tx (? & Hin & _); by inversion Hin).
    assert (Hw : ∀ db kv, ¬ wrote [] db kv) by (intros db kv (? & ? & Hin & _); by eapply Hv).
    destruct 1; try (by exfalso; eapply Hv); try (by exfalso; eapply Hw); try by match goal with H : _ ∈ [] |- _ => inversion H end.
    all: match goal with H : precedes _ _ _ _ |- _ => destruct H as (? & _); exfalso; by eapply Hw end.
  - split; [by apply hw_snoc|]. destruct (commit_records H b txs g HH Hb) as (_ & _ & _ & Hrec); [|by apply Hrec].
    split; intros q Hq; [by apply Hg|]. eapply recorded_mono; [done..|]. by apply Hg.
Qed.

Lemma recorded_between H g : (∀ q, has_quad g q ↔ recorded H q) → between H H g.
Proof. intros Hg. split; intros q; by apply Hg. Qed.

Lemma committed_last H b txs g : committed (H ++ [(b, txs)]) g → block_wf H b txs.
Proof.
  intros HC. inversion HC as [|H0 g0 b0 txs0 g' _ Hb _ E]; subst; [by destruct H|].
  by apply app_inj_2 in E as [-> [= -> ->]].
Qed.

(** C40: committing the records of the last block once more, as a node does that stopped
    before the block was in the world state, is harmless: the commit computes only edges
    that the graph has, it can fail only where the graph database fails to write them, and
    it leaves the edges of the graph as they are. *)
Theorem commit_again_changes_nothing H g b txs g' :
  committed H g → block_wf H b txs → Commit b txs g = (g', Ok tt) →
  (∃ qs, Commit b txs g' = CloseWriter (foldl (fun w q => (WriteQuad w q).1) (NewWriter g') qs) ∧
     ∀ q, q ∈ qs → has_quad g' q) ∧
  ∀ g'', Commit b txs g' = (g'', Ok tt) → ∀ q, has_quad g'' q ↔ has_quad g' q.
Proof.
  intros HC Hb Hcom. destruct (committed_recorded _ _ HC) as [HH _].
  destruct (committed_recorded _ _ (committed_block _ _ _ _ _ HC Hb Hcom)) as [_ Hg'].
  destruct (commit_records H b txs g' HH Hb) as (qs & Hqs & Hnew & Hrec).
  { split; intros q Hq; [apply Hg'; by eapply recorded_mono|by apply Hg']. }
  split; [exists qs; split; [exact Hqs|]; intros q Hq; by apply Hg', Hnew|].
  intros g'' Hc q. by rewrite (Hrec g'' Hc q), Hg'.
Qed.

(** ** Values of a key *)

Lemma values_of_key H g db key : history_wf H → (∀ q, has_quad g q ↔ recorded H q) → name_wf db →
  ∃ l, GetValues g db key = Ok l ∧ ∀ x, x ∈ l ↔ ∃ kv, wrote H db kv ∧ KV_Key kv = key ∧ x = value_of kv.
Proof.
  intros HH Hg Hdb. unfold GetValues.
  destruct (all_values g (OutAll (StartPath (constructCompositeKey db key)))) as (l & -> & Hl). cbn [mbind res_bind].
  assert (Hin : ∀ x, x ∈ l ↔ ∃ kv, wrote H db kv ∧ KV_Key kv = key ∧ x = vertex db kv).
  { intros x. rewrite Hl. split.
    - intros [tags Hr]. inversion Hr as [|p tags' y pred z Hs Hq| | | |]; subst. inversion Hs; subst.
      apply Hg, recorded_out in Hq as (kv & ? & ? & _ & ->); [by exists kv|done..].
    - intros (kv & Hw & <- & ->). eexists. eapply reach_out_all; [apply reach_start|]. by apply Hg, rec_value. }
  destruct (vertices_values H db l HH) as (vs & Hvs & Hv).
  { intros x (kv & ? & _ & ->)%Hin. by exists kv. }
  exists vs. split; [done|]. intros x. rewrite Hv. split.
  - intros (kv & Hw & (kv' & Hw' & Hk & E)%Hin & ->). apply (wrote_vertex_inj _ _ _ _ _ HH Hw Hw') in E as [_ ->]. by exists kv'.
  - intros (kv & Hw & Hk & ->). exists kv. split_and!; [done| |done]. apply Hin. by exists kv.
Qed.

Lemma value_at H g db key v : history_wf H → (∀ q, has_quad g q ↔ recorded H q) → name_wf db → version_wf v →
  ∃ o, GetValueAt g db key (Some v) = Ok o ∧
    ∀ x, o = Some x ↔ ∃ kv, wrote H db kv ∧ KV_Key kv = key ∧ version_of kv = Some v ∧ x = value_of kv.
Proof.
  intros HH Hg Hdb Hv. pose proof (recorded_between _ _ Hg) as Hbt. unfold GetValueAt. cbn [deref mbind res_bind].
  destruct (first_value g (Out (StartPath (constructCompositeKey db key)) (MarshalVersion (Some v)))) as (o & Ho & Hfirst).
  fold (getValueVertex g db key (Some v)) in Ho. rewrite Ho. cbn [mbind res_bind]. destruct o as [x|].
  - destruct Hfirst as [tags Hr]. inversion Hr as [| |p tags' x' pred y Hs Hq| | |]; subst. inversion Hs; subst.
    apply Hg, recorded_out in Hq as (kv & Hw & <- & Hve & ->); [|done..].
    destruct (wrote_version_wf _ _ _ HH Hw) as (v' & Ev & Hvw & _).
    change (MarshalVersion (Some v) = MarshalVersion (version_of kv)) in Hve.
    apply MarshalVersion_inj in Hve; [|naive_solver..]. destruct (wrote_wf _ _ _ HH Hw) as (_ & Hkv & _).
    rewrite vertex_value by done. exists (Some (value_of kv)). split; [done|]. intros x. split.
    + intros [= <-]. by exists kv.
    + intros (kv' & Hw' & Hk' & Hv' & ->). by rewrite (wrote_version_unique _ _ _ _ HH Hw' Hw Hk') by congruence.
  - exists None. split; [done|]. intros x. split; [done|]. intros (kv & Hw & <- & Hve & _). exfalso.
    eapply Hfirst. eapply reach_out; [apply reach_start|]. rewrite <- Hve. by apply Hg, rec_value.
Qed.

(** ** The most recent value *)

#[local] Instance at_or_after_total : Total at_or_after.
Proof. intros [x v] [y w]. unfold at_or_after, version_after. cbn. lia. Qed.

#[local] Instance at_or_after_trans : Transitive at_or_after.
Proof. intros [x v] [y w] [z u]. unfold at_or_after, version_after. cbn. lia. Qed.

#[local] Existing Instance at_or_after_dec.

Lemma find_sorted {A} (R : A → A → Prop) (f : A → bool) l x : StronglySorted R l → List.find f l = Some x →
  x ∈ l ∧ f x = true ∧ ∀ y, y ∈ l → f y = true → y = x ∨ R x y.
Proof.
  induction 1 as [|y l Hs IH Hy]; [done|]. cbn. destruct (f y) eqn:E.
  - intros [= ->]. split_and!; [by left|done|]. intros z [->|Hz]%elem_of_cons _; [by left|]. right.
    by eapply Forall_forall in Hy.
  - intros H. destruct (IH H) as (? & ? & Hmax). split_and!; [by right|done|].
    intros z [->|Hz]%elem_of_cons Hf; [congruence|]. by apply Hmax.
Qed.

Lemma most_recent H g db key v : history_wf H → (∀ q, has_quad g q ↔ recorded H q) → name_wf db →
  ∃ o, GetMostRecentValueAtOrBelow g db key (Some v) = Ok o ∧
    match o with
    | Some x => ∃ kv w, wrote H db kv ∧ KV_Key kv = key ∧ version_of kv = Some w ∧ x = value_of kv ∧
        at_or_below v w = true ∧
        ∀ kv' w', wrote H db kv' → KV_Key kv' = key → version_of kv' = Some w' → at_or_below v w' = true →
          version_after w' w = false
    | None => ∀ kv w, wrote H db kv → KV_Key kv = key → version_of kv = Some w → at_or_below v w = false
    end.
Proof.
  intros HH Hg Hdb. destruct (values_of_key H g db key HH Hg Hdb) as (l & Hl & Hin).
  unfold GetMostRecentValueAtOrBelow. rewrite Hl. cbn [mbind res_bind].
  assert (Hver : ∀ kv w, version_of kv = Some w ↔ versionOf (value_of kv) = Ok w).
  { intros kv w. unfold versionOf, value_of, version_of. cbn. destruct (KV_Metadata kv) as [m|]; [|done]. cbn.
    destruct (Metadata_Version m); cbn; split; congruence. }
  assert (∃ vs, res_mapM versionOf l = Ok vs) as [vs Hvs].
  { assert (Hall : ∀ x, x ∈ l → ∃ w, versionOf x = Ok w).
    { intros x (kv & Hw & _ & ->)%Hin. destruct (wrote_version_wf _ _ _ HH Hw) as (w & Ev & _). exists w. by apply Hver. }
    clear -Hall. induction l as [|x l IH]; [by eexists|]. destruct (Hall x) as [w Hw]; [by left|].
    destruct IH as [vs IH]; [intros y Hy; apply Hall; by right|]. exists (w :: vs). cbn. by rewrite Hw, IH. }
  assert (Hzip : ∀ x w, (x, w) ∈ zip l vs ↔ x ∈ l ∧ versionOf x = Ok w).
  { clear -Hvs. revert vs Hvs. induction l as [|y l IH]; intros vs Hvs.
    - injection Hvs as <-. intros x w. split; [intros H; by inversion H|intros [H _]; by inversion H].
    - apply res_mapM_cons_inv in Hvs as (w' & ws & -> & Hw' & Hws). intros x w. cbn.
      rewrite !elem_of_cons, (IH _ Hws). split.
      + intros [[= -> ->]|[? ?]]; auto.
      + intros [[->|?] ?]; [left; congruence|auto]. }
  destruct l as [|x0 l0] eqn:El.
  { exists None. split; [done|]. intros kv w Hw Hk _. assert (value_of kv ∈ []) as H'; [apply Hin; by exists kv|by inversion H']. }
  rewrite <- El in *. rewrite Hvs. cbn [mbind res_bind deref].
  set (sorted := merge_sort at_or_after (zip l vs)).
  assert (Hs : ∀ x w, (x, w) ∈ sorted ↔ x ∈ l ∧ versionOf x = Ok w).
  { intros x w. unfold sorted. by rewrite merge_sort_Permutation, Hzip. }
  eexists. split; [reflexivity|]. destruct (List.find _ sorted) as [[x w]|] eqn:Hf; cbn.
  - eapply find_sorted in Hf as (Hx & Hle & Hmax); [|apply StronglySorted_merge_sort; typeclasses eauto].
    apply Hs in Hx as [(kv & Hw & Hk & ->)%Hin Hv]. exists kv, w. split_and!; [done|done|by apply Hver|done|done|].
    intros kv' w' Hw' Hk' Hv' Hle'. destruct (Hmax (value_of kv', w')) as [E|Hr]; [|done|..|exact Hr].
    + apply Hs. split; [apply Hin; by exists kv'|by apply Hver].
    + apply (f_equal snd) in E. cbn in E. subst w'. unfold version_after. lia.
  - intros kv w Hw Hk Hv. destruct (at_or_below v w) eqn:E; [|done].
    pose proof (List.find_none _ _ Hf (value_of kv, w)) as Hno. cbn in Hno. rewrite E in Hno. apply Hno.
    apply list_elem_of_In, Hs. split; [apply Hin; by exists kv|by apply Hver].
Qed.

(** ** The chain of the values of a key *)

Lemma precedes_exists H db kv kv' : history_wf H → wrote H db kv → wrote H db kv' → KV_Key kv' = KV_Key kv →
  block_of kv' < block_of kv → ∃ old, precedes H db old kv ∧ block_of kv' ≤ block_of old.
Proof.
  induction 1 as [|H b txs HH IH Hb]; [by intros (? & ? & (? & H & _) & _); inversion H|].
  intros Hw Hw' Hk Hlt. assert (Hb' : ∀ x, wrote (H ++ [(b, txs)]) db x → block_of x ≤ b).
  { intros x [Hx|(tx & Htx & Hv & _ & Hx)]%wrote_snoc.
    - pose proof (wrote_block_earlier _ _ _ _ _ HH Hb Hx). lia.
    - by rewrite (wrote_block_new _ _ _ _ _ Hb Htx Hv Hx). }
  pose proof (Hb' _ Hw) as Hbk. apply wrote_snoc in Hw' as [Hw'|(tx & Htx & Hv & _ & Hkv)].
  2: { pose proof (wrote_block_new _ _ _ _ _ Hb Htx Hv Hkv). lia. }
  apply wrote_snoc in Hw as [Hw|(tx & Htx & Hv & Hdb & Hkv)].
  - destruct (IH Hw Hw' Hk Hlt) as (old & Hp & Hle). exists old. split; [|done]. by apply precedes_snoc_old.
  - assert (∃ old, latest H db (KV_Key kv) old) as [old Hl].
    { pose proof (bw_old _ _ _ Hb _ _ Htx Hv Hkv) as Hold. rewrite Hdb in Hold.
      destruct (PD_OldVersionOfWrites tx !! KV_Key kv); [naive_solver|]. destruct Hold as [Hno|(old & ? & _)]; [|by exists old].
      by destruct (Hno kv'). }
    exists old. split; [by eapply latest_precedes|]. by apply Hl.
Qed.

(** Steps along the edges of the chain. *)
Lemma previous_steps H g db n kv x : history_wf H → (∀ q, has_quad g q ↔ recorded H q) → wrote H db kv → (1 ≤ n)%nat →
  steps (has_quad g) PREVIOUS n (vertex db kv) x →
  ∃ kv', wrote H db kv' ∧ KV_Key kv' = KV_Key kv ∧ block_of kv' < block_of kv ∧ x = vertex db kv'.
Proof.
  intros HH Hg. revert kv. induction n as [|n IH]; intros kv Hw Hn; [lia|].
  intros (z & (db' & old & new & Hp & E & ->)%Hg%recorded_previous & Hs).
  destruct (Hp) as (Hwo & Hwn & Hk & Hlt & _). apply (wrote_vertex_inj _ _ _ _ _ HH Hw Hwn) in E as [<- ->].
  destruct n as [|n].
  - exists old. cbn in Hs. by subst x.
  - destruct (IH old Hwo ltac:(lia) Hs) as (kv' & ? & ? & ? & ->). exists kv'. split_and!; [done|congruence|lia|done].
Qed.

Lemma next_steps H g db n kv x : history_wf H → (∀ q, has_quad g q ↔ recorded H q) → wrote H db kv → (1 ≤ n)%nat →
  steps (has_quad g) NEXT n (vertex db kv) x →
  ∃ kv', wrote H db kv' ∧ KV_Key kv' = KV_Key kv ∧ block_of kv < block_of kv' ∧ x = vertex db kv'.
Proof.
  intros HH Hg. revert kv. induction n as [|n IH]; intros kv Hw Hn; [lia|].
  intros (z & (db' & old & new & Hp & E & ->)%Hg%recorded_next & Hs).
  destruct (Hp) as (Hwo & Hwn & Hk & Hlt & _). apply (wrote_vertex_inj _ _ _ _ _ HH Hw Hwo) in E as [<- ->].
  destruct n as [|n].
  - exists new. cbn in Hs. by subst x.
  - destruct (IH new Hwn ltac:(lia) Hs) as (kv' & ? & ? & ? & ->). exists kv'. split_and!; [done|congruence|lia|done].
Qed.

Lemma steps_snoc has pred n x y z : steps has pred n x y → has (mkQuad y pred (Some z)) → steps has pred (S n) x z.
Proof.
  revert x. induction n as [|n IH]; intros x; cbn [steps].
  - intros -> Hq. by exists z.
  - intros (w & Hw & Hs) Hq. exists w. split; [done|]. by apply IH.
Qed.

(** Every earlier value is reached backwards, and every later one forwards. *)
Lemma chain_complete H g db kv kv' : history_wf H → (∀ q, has_quad g q ↔ recorded H q) →
  wrote H db kv → wrote H db kv' → KV_Key kv' = KV_Key kv → block_of kv' < block_of kv →
  ∃ n, (1 ≤ n)%nat ∧ steps (has_quad g) PREVIOUS n (vertex db kv) (vertex db kv') ∧
    steps (has_quad g) NEXT n (vertex db kv') (vertex db kv).
Proof.
  intros HH Hg Hw Hw' Hk. remember (Z.to_nat (block_of kv - block_of kv')) as d eqn:Ed.
  revert kv Hw Hk Ed. induction d as [d IH] using lt_wf_ind. intros kv Hw Hk Ed Hlt.
  destruct (precedes_exists H db kv kv' HH Hw Hw' Hk Hlt) as (old & Hp & Hle).
  pose proof (Hp) as (Hwo & _ & Hko & Hlto & _).
  assert (Hq1 : has_quad g (mkQuad (vertex db kv) PREVIOUS (Some (vertex db old)))) by (by apply Hg, rec_previous).
  assert (Hq2 : has_quad g (mkQuad (vertex db old) NEXT (Some (vertex db kv)))) by (by apply Hg, rec_next).
  destruct (decide (block_of kv' = block_of old)) as [E|E].
  - assert (kv' = old) as -> by (apply (wrote_unique _ _ _ _ HH Hw' Hwo); congruence).
    exists 1%nat. split_and!; [lia|..]; cbn; by eexists.
  - destruct (IH (Z.to_nat (block_of old - block_of kv'))) with (kv := old) as (n & Hn & Hs & Hs'); [lia|done|congruence|done|lia|].
    exists (S n). split_and!; [lia| |].
    + cbn. by exists (vertex db old).
    + by eapply steps_snoc.
Qed.

Lemma follow_values H g db kv pred (P : KVWithMetadata → Prop) :
  history_wf H → (∀ q, has_quad g q ↔ recorded H q) → wrote H db kv →
  (∀ n x, (1 ≤ n)%nat → steps (has_quad g) pred n (vertex db kv) x → ∃ kv', wrote H db kv' ∧ P kv' ∧ x = vertex db kv') →
  (∀ kv', wrote H db kv' → P kv' → kv' ≠ kv ∧ ∃ n, (1 ≤ n)%nat ∧ steps (has_quad g) pred n (vertex db kv) (vertex db kv')) →
  ∃ l, getValuesRecursively g db (KV_Key kv) (version_of kv) pred (-1) = Ok l ∧
    ∀ x, x ∈ l ↔ ∃ kv', wrote H db kv' ∧ P kv' ∧ x = value_of kv'.
Proof.
  intros HH Hg Hw Hsound Hcomplete. unfold getValuesRecursively.
  rewrite (value_vertex H H g db kv HH (recorded_between _ _ Hg) Hw Hw). cbn [mbind res_bind].
  destruct (follow_recursive g (vertex db kv) pred (-1)) as (l & -> & Hl1 & Hl2); [done|]. cbn [mbind res_bind].
  assert (Hin : ∀ x, x ∈ l ↔ ∃ kv', wrote H db kv' ∧ P kv' ∧ x = vertex db kv').
  { intros x. split.
    - intros (n & [Hn _] & Hs)%Hl1. by eapply Hsound.
    - intros (kv' & Hw' & HP & ->). destruct (Hcomplete _ Hw' HP) as (Hne & n & Hn & Hs). eapply Hl2; [|split; [done|by left]|done].
      intros E. apply (wrote_vertex_inj _ _ _ _ _ HH Hw' Hw) in E as [_ ?]. done. }
  destruct (vertices_values H db l HH) as (vs & -> & Hv).
  { intros x (kv' & ? & _ & ->)%Hin. by exists kv'. }
  exists vs. split; [done|]. intros x. rewrite Hv. split.
  - intros (kv1 & Hw1 & (kv2 & Hw2 & HP & E)%Hin & ->). apply (wrote_vertex_inj _ _ _ _ _ HH Hw1 Hw2) in E as [_ ->]. by exists kv2.
  - intros (kv' & Hw' & HP & ->). exists kv'. split_and!; [done| |done]. apply Hin. by exists kv'.
Qed.

(** ** Users *)

Lemma default_insert_app {A} (m : gmap string (list A)) k l k' (x : A) :
  x ∈ default [] (<[k := default [] (m !! k) ++ l]> m !! k') ↔ x ∈ default [] (m !! k') ∨ k' = k ∧ x ∈ l.
Proof.
  destruct (decide (k' = k)) as [->|Hne].
  - rewrite lookup_insert_eq. cbn. rewrite elem_of_app. naive_solver.
  - rewrite lookup_insert_ne by done. naive_solver.
Qed.

Lemma vertices_kvs H l : history_wf H → (∀ db kv, wrote H db kv → no_separator (KV_Key kv)) →
  (∀ x, x ∈ l → ∃ db kv, wrote H db kv ∧ x = vertex db kv) →
  ∃ m, verticesToKVs l = Ok m ∧ ∀ db kv, kv ∈ default [] (m !! db) ↔ wrote H db kv ∧ vertex db kv ∈ l.
Proof.
  intros HH Hkeys. unfold verticesToKVs.
  assert (Hgen : ∀ m0 : gmap string (list KVWithMetadata), (∀ x, x ∈ l → ∃ db kv, wrote H db kv ∧ x = vertex db kv) →
    ∃ m, res_foldM (fun DBsKV qv =>
      kv ← UnmarshalKV qv; '(dbName, key) ← splitCompositeKey (KV_Key kv);
      Ok (<[dbName := default [] (DBsKV !! dbName) ++ [mkKVWithMetadata key (KV_Value kv) (KV_Metadata kv)]]> DBsKV)) m0 l = Ok m ∧
    ∀ db kv, kv ∈ default [] (m !! db) ↔ kv ∈ default [] (m0 !! db) ∨ wrote H db kv ∧ vertex db kv ∈ l).
  { induction l as [|x l IH]; intros m0 Hl; cbn [res_foldM].
    - exists m0. split; [done|]. intros db kv. split; [by left|]. intros [?|[_ Hin]]; [done|by inversion Hin].
    - destruct (Hl x) as (db & kv & Hw & ->); [by left|]. destruct (wrote_wf _ _ _ HH Hw) as (Hdb & Hkv & _).
      unfold vertex at 1. rewrite UnmarshalKV_MarshalKV by (by apply vertex_wf). cbn [mbind res_bind KV_Key KV_Value KV_Metadata].
      rewrite split_composite_key by (first [apply Hdb|by eapply Hkeys]). cbn [mbind res_bind].
      destruct (IH (<[db := default [] (m0 !! db) ++ [mkKVWithMetadata (KV_Key kv) (KV_Value kv) (KV_Metadata kv)]]> m0))
        as (m & -> & Hm); [intros y Hy; apply Hl; by right|].
      exists m. split; [done|]. intros db' kv'. rewrite Hm, default_insert_app, list_elem_of_singleton, elem_of_cons.
      assert (mkKVWithMetadata (KV_Key kv) (KV_Value kv) (KV_Metadata kv) = kv) as -> by (by destruct kv). split.
      + intros [[?|[-> ->]]|[? ?]]; auto.
      + intros [?|[Hw' [E|?]]]; auto. apply (wrote_vertex_inj _ _ _ _ _ HH Hw' Hw) in E as [-> ->]. auto. }
  intros Hl. destruct (Hgen ∅ Hl) as (m & Hm & Hin). exists m. split; [done|]. intros db kv.
  rewrite Hin, lookup_empty. cbn. split; [intros [Hn|?]; [by inversion Hn|done]|by right].
Qed.

Lemma merge_kvs (m0 m : gmap string (list KVWithMetadata)) db kv :
  kv ∈ default [] (foldl (fun values '(db, KVs) => <[db := default [] (values !! db) ++ KVs]> values) m0 (range m) !! db) ↔
  kv ∈ default [] (m0 !! db) ∨ kv ∈ default [] (m !! db).
Proof.
  assert (Hgen : ∀ l (m0 : gmap string (list KVWithMetadata)), kv ∈ default [] (foldl (fun values '(db, KVs) =>
      <[db := default [] (values !! db) ++ KVs]> values) m0 l !! db) ↔
    kv ∈ default [] (m0 !! db) ∨ ∃ KVs, (db, KVs) ∈ l ∧ kv ∈ KVs).
  { induction l as [|[k KVs] l IH]; intros m1; cbn [foldl].
    - split; [by left|]. intros [?|(? & Hin & _)]; [done|by inversion Hin].
    - rewrite IH, default_insert_app. setoid_rewrite elem_of_cons. naive_solver. }
  rewrite Hgen. setoid_rewrite elem_of_range. destruct (m !! db) as [KVs|]; cbn; split; try naive_solver.
  intros [?|?]; [by left|set_solver].
Qed.

(** The values at the ends of the edges of transactions. *)
Lemma out_edges H g ts pred : history_wf H → (∀ q, has_quad g q ↔ recorded H q) →
  (∀ db kv, wrote H db kv → no_separator (KV_Key kv)) →
  (∀ t x, recorded H (mkQuad t pred (Some x)) → ∃ db kv, wrote H db kv ∧ x = vertex db kv) →
  ∃ m, outEdgesFrom g ts pred = Ok m ∧
    ∀ db kv, kv ∈ default [] (m !! db) ↔
      wrote H db kv ∧ ∃ t, t ∈ ts ∧ recorded H (mkQuad t pred (Some (vertex db kv))).
Proof.
  intros HH Hg Hkeys Hpred. unfold outEdgesFrom.
  assert (Hgen : ∀ m0 : gmap string (list KVWithMetadata), ∃ m, res_foldM (fun values vertex =>
      vertices ← AllValues g (Out (StartPath vertex) pred); DBsKV ← verticesToKVs vertices;
      Ok (foldl (fun values '(db, KVs) => <[db := default [] (values !! db) ++ KVs]> values) values (range DBsKV))) m0 ts = Ok m ∧
    ∀ db kv, kv ∈ default [] (m !! db) ↔ kv ∈ default [] (m0 !! db) ∨
      wrote H db kv ∧ ∃ t, t ∈ ts ∧ recorded H (mkQuad t pred (Some (vertex db kv)))).
  { induction ts as [|t ts IH]; intros m0; cbn [res_foldM].
    - exists m0. split; [done|]. intros db kv. split; [by left|]. intros [?|(_ & t & Hin & _)]; [done|by inversion Hin].
    - destruct (all_values g (Out (StartPath t) pred)) as (l & -> & Hl). cbn [mbind res_bind].
      assert (Hin : ∀ x, x ∈ l ↔ recorded H (mkQuad t pred (Some x))).
      { intros x. rewrite Hl, <- Hg. split.
        - intros [tags Hr]. inversion Hr as [| |p tags' y pr z Hs Hq| | |]; subst. by inversion Hs; subst.
        - intros Hq. eexists. eapply reach_out; [apply reach_start|done]. }
      destruct (vertices_kvs H l HH Hkeys) as (mv & -> & Hmv); [intros x Hx%Hin; by eapply Hpred|]. cbn [mbind res_bind].
      destruct (IH (foldl (fun values '(db, KVs) => <[db := default [] (values !! db) ++ KVs]> values) m0 (range mv))) as (m & -> & Hm).
      exists m. split; [done|]. intros db kv. rewrite Hm, merge_kvs, Hmv, Hin. setoid_rewrite elem_of_cons. naive_solver. }
  destruct (Hgen ∅) as (m & Hm & Hin). exists m. split; [done|]. intros db kv.
  rewrite Hin, lookup_empty. cbn. split; [intros [Hn|?]; [by inversion Hn|done]|by right].
Qed.

Lemma submitted_by H g u : (∀ q, has_quad g q ↔ recorded H q) →
  ∃ l, GetTxIDsSubmittedByUser g u = Ok l ∧ ∀ t, t ∈ l ↔ ∃ b tx, valid_in H b tx ∧ PD_UserID tx = u ∧ PD_TxID tx = t.
Proof.
  intros Hg. unfold GetTxIDsSubmittedByUser.
  destruct (all_values g (Out (StartPath u) SUBMITTED)) as (l & -> & Hl). exists l. split; [done|].
  intros t. rewrite Hl. split.
  - intros [tags Hr]. inversion Hr as [| |p tags' y pr z Hs Hq| | |]; subst. inversion Hs; subst.
    apply Hg, recorded_submitted in Hq as (b & tx & Hv & -> & ->). by exists b, tx.
  - intros (b & tx & Hv & <- & <-). eexists. eapply reach_out; [apply reach_start|]. apply Hg. by eapply rec_submitted.
Qed.

Lemma count_users_dom l u : is_Some (count_users l !! u) ↔ u ∈ l.
Proof.
  unfold count_users. assert (Hgen : ∀ m : gmap string Z,
    is_Some (foldl (fun userIDs qv => <[qv := (default 0 (userIDs !! qv) + 1) mod 2 ^ 32]> userIDs) m l !! u) ↔
    is_Some (m !! u) ∨ u ∈ l).
  { induction l as [|v l IH]; intros m; cbn [foldl]; [set_solver|]. rewrite IH, elem_of_cons, lookup_insert_is_Some. 
    destruct (decide (u = v)); naive_solver. }
  rewrite Hgen, lookup_empty. split; [intros [[? ?]|?]; done|by right].
Qed.

(** ** The theorems *)

(** After any sequence of commits the provenance store has the whole history of
    every key: its values are exactly the values that valid transactions wrote, each
    is found under its version, and the most recent value at or below a version is the
    one with the greatest such version. *)
Theorem provenance_values_exact H g db key : committed H g → name_wf db →
  (∃ l, GetValues g db key = Ok l ∧
     ∀ x, x ∈ l ↔ ∃ kv, wrote H db kv ∧ KV_Key kv = key ∧ x = value_of kv) ∧
  (∀ v, version_wf v → ∃ o, GetValueAt g db key (Some v) = Ok o ∧
     ∀ x, o = Some x ↔ ∃ kv, wrote H db kv ∧ KV_Key kv = key ∧ version_of kv = Some v ∧ x = value_of kv) ∧
  (∀ v, ∃ o, GetMostRecentValueAtOrBelow g db key (Some v) = Ok o ∧
     match o with
     | Some x => ∃ kv w, wrote H db kv ∧ KV_Key kv = key ∧ version_of kv = Some w ∧ x = value_of kv ∧
         at_or_below v w = true ∧
         ∀ kv' w', wrote H db kv' → KV_Key kv' = key → version_of kv' = Some w' → at_or_below v w' = true →
           version_after w' w = false
     | None => ∀ kv w, wrote H db kv → KV_Key kv = key → version_of kv = Some w → at_or_below v w = false
     end).
Proof.
  intros [HH Hg]%committed_recorded Hdb. split_and!.
  - by apply values_of_key.
  - intros v Hv. by apply value_at.
  - intros v. by apply most_recent.
Qed.

(** C11: the previous values of a value are exactly the values its key had in earlier
    blocks, and the next values those of later blocks, across deletions and new
    creations of the key. *)
Theorem provenance_chain_exact H g db kv : committed H g → wrote H db kv →
  (∃ l, GetPreviousValues g db (KV_Key kv) (version_of kv) (-1) = Ok l ∧
     ∀ x, x ∈ l ↔ ∃ kv', wrote H db kv' ∧ (KV_Key kv' = KV_Key kv ∧ block_of kv' < block_of kv) ∧ x = value_of kv') ∧
  (∃ l, GetNextValues g db (KV_Key kv) (version_of kv) (-1) = Ok l ∧
     ∀ x, x ∈ l ↔ ∃ kv', wrote H db kv' ∧ (KV_Key kv' = KV_Key kv ∧ block_of kv < block_of kv') ∧ x = value_of kv').
Proof.
  intros [HH Hg]%committed_recorded Hw. split.
  - apply (follow_values H g db kv PREVIOUS); [done..| |].
    + intros n x Hn Hs. destruct (previous_steps _ _ _ _ _ _ HH Hg Hw Hn Hs) as (kv' & ? & ? & ? & ->). by exists kv'.
    + intros kv' Hw' [Hk Hlt]. split; [intros ->; lia|].
      destruct (chain_complete H g db kv kv' HH Hg Hw Hw' Hk Hlt) as (n & ? & ? & _). by exists n.
  - apply (follow_values H g db kv NEXT); [done..| |].
    + intros n x Hn Hs. destruct (next_steps _ _ _ _ _ _ HH Hg Hw Hn Hs) as (kv' & ? & ? & ? & ->). by exists kv'.
    + intros kv' Hw' [Hk Hlt]. split; [intros ->; lia|].
      destruct (chain_complete H g db kv' kv HH Hg Hw' Hw (eq_sym Hk) Hlt) as (n & ? & _ & ?). by exists n.
Qed.

Lemma users_of_key H g db key pred (P : TxDataForProvenance → KVWithMetadata → Prop) :
  history_wf H → (∀ q, has_quad g q ↔ recorded H q) → name_wf db →
  (∀ t x, recorded H (mkQuad t pred (Some x)) ↔
     ∃ b tx kv, valid_in H b tx ∧ wrote H (PD_DBName tx) kv ∧ P tx kv ∧ t = PD_TxID tx ∧ x = vertex (PD_DBName tx) kv) →
  (∀ b tx b' tx', valid_in H b tx → valid_in H b' tx' → PD_TxID tx = PD_TxID tx' → PD_UserID tx = PD_UserID tx') →
  ∃ l, AllValues g (In (In (OutAll (StartPath (constructCompositeKey db key))) pred) SUBMITTED) = Ok l ∧
    ∀ u, u ∈ l ↔ ∃ b tx kv, valid_in H b tx ∧ PD_UserID tx = u ∧ PD_DBName tx = db ∧ P tx kv ∧ wrote H db kv ∧ KV_Key kv = key.
Proof.
  intros HH Hg Hdb Hpred Hids.
  destruct (all_values g (In (In (OutAll (StartPath (constructCompositeKey db key))) pred) SUBMITTED)) as (l & -> & Hl).
  exists l. split; [done|]. intros u. rewrite Hl. split.
  - intros [tags Hr]. inversion Hr as [| | |p tags' t pr z Hr1 Hq| |]; subst.
    inversion Hr1 as [| | |p tags' x pr z Hr2 Hq1| |]; subst. inversion Hr2 as [|p tags' y pr z Hs Hq2| | | |]; subst.
    inversion Hs; subst. apply Hg, recorded_submitted in Hq as (b & tx & Hv & -> & ->).
    apply Hg, Hpred in Hq1 as (b' & tx' & kv & Hv' & Hw & HP & Et & ->).
    apply Hg, recorded_out in Hq2 as (kv' & Hw' & Hk & _ & E); [|done..].
    apply (wrote_vertex_inj _ _ _ _ _ HH Hw Hw') in E as [E ->].
    exists b', tx', kv'. split_and!; [done| |done..]. by eapply Hids.
  - intros (b & tx & kv & Hv & <- & <- & HP & Hw & <-). exists []. eapply reach_in; [eapply reach_in; [eapply reach_out_all; [apply reach_start|]|]|].
    + by apply Hg, rec_value.
    + apply Hg, Hpred. by exists b, tx, kv.
    + apply Hg. by eapply rec_submitted.
Qed.

(** The edges of transactions, by what they stand for. *)
Lemma write_edges H t x : recorded H (mkQuad t WRITES (Some x)) ↔
  ∃ b tx kv, valid_in H b tx ∧ wrote H (PD_DBName tx) kv ∧ kv ∈ PD_Writes tx ∧
    t = PD_TxID tx ∧ x = vertex (PD_DBName tx) kv.
Proof.
  split.
  - intros (b & tx & kv & Hv & Hkv & -> & ->)%recorded_write. exists b, tx, kv. split_and!; [done| |done..]. by exists b, tx.
  - intros (b & tx & kv & Hv & _ & Hkv & -> & ->). by eapply rec_write.
Qed.

Lemma read_edges H t x : recorded H (mkQuad t READS (Some x)) ↔
  ∃ b tx kv, valid_in H b tx ∧ wrote H (PD_DBName tx) kv ∧
    (∃ r, r ∈ PD_Reads tx ∧ KV_Key kv = KWV_Key r ∧ version_of kv = KWV_Version r) ∧
    t = PD_TxID tx ∧ x = vertex (PD_DBName tx) kv.
Proof.
  split.
  - intros (b & tx & r & kv & Hv & Hr & Hw & Hk & Hve & -> & ->)%recorded_read. exists b, tx, kv. split_and!; [done..| |done|done].
    by exists r.
  - intros (b & tx & kv & Hv & Hw & (r & Hr & Hk & Hve) & -> & ->). by eapply rec_read.
Qed.

Lemma delete_edges H t x : recorded H (mkQuad t DELETES (Some x)) ↔
  ∃ b tx kv, valid_in H b tx ∧ wrote H (PD_DBName tx) kv ∧ PD_Deletes tx !! KV_Key kv = Some (version_of kv) ∧
    t = PD_TxID tx ∧ x = vertex (PD_DBName tx) kv.
Proof. split; [apply recorded_delete|]. intros (b & tx & kv & Hv & Hw & Hd & -> & ->). by eapply rec_delete. Qed.

Lemma values_of_user H g u pred (P : TxDataForProvenance → KVWithMetadata → Prop) :
  history_wf H → (∀ q, has_quad g q ↔ recorded H q) → (∀ db kv, wrote H db kv → no_separator (KV_Key kv)) →
  (∀ b tx b' tx', valid_in H b tx → valid_in H b' tx' → PD_TxID tx = PD_TxID tx' → PD_UserID tx = PD_UserID tx') →
  (∀ t x, recorded H (mkQuad t pred (Some x)) ↔
     ∃ b tx kv, valid_in H b tx ∧ wrote H (PD_DBName tx) kv ∧ P tx kv ∧ t = PD_TxID tx ∧ x = vertex (PD_DBName tx) kv) →
  ∃ m, (txIDs ← GetTxIDsSubmittedByUser g u; outEdgesFrom g txIDs pred) = Ok m ∧
    ∀ db kv, kv ∈ default [] (m !! db) ↔
      ∃ b tx, valid_in H b tx ∧ PD_UserID tx = u ∧ PD_DBName tx = db ∧ wrote H db kv ∧ P tx kv.
Proof.
  intros HH Hg Hkeys Hids HP. destruct (submitted_by H g u Hg) as (ts & -> & Hts). cbn [mbind res_bind].
  destruct (out_edges H g ts pred HH Hg Hkeys) as (m & -> & Hm).
  { intros t x (b & tx & kv & _ & Hw & _ & _ & ->)%HP. by eexists _, _. }
  exists m. split; [done|]. intros db kv. rewrite Hm. setoid_rewrite Hts. setoid_rewrite HP. split.
  - intros (Hw & t & (b & tx & Hv & <- & <-) & b' & tx' & kv' & Hv' & Hw' & HPk & Et & E).
    apply (wrote_vertex_inj _ _ _ _ _ HH Hw Hw') in E as [-> ->]. exists b', tx'. split_and!; [done| |done..].
    symmetry. by eapply Hids.
  - intros (b & tx & Hv & <- & <- & Hw & HPk). split; [done|]. exists (PD_TxID tx). split; [by exists b, tx|].
    by exists b, tx, kv.
Qed.

(** The store knows what every user did: the transactions a user submitted, the
    values that they read, wrote and deleted, and for every key its readers and its
    writers, provided transaction identifiers are not shared between users and keys do
    not contain the separator. *)
Theorem provenance_users_exact H g : committed H g →
  (∀ db kv, wrote H db kv → no_separator (KV_Key kv)) →
  (∀ b tx b' tx', valid_in H b tx → valid_in H b' tx' → PD_TxID tx = PD_TxID tx' → PD_UserID tx = PD_UserID tx') →
  (∀ u, ∃ l, GetTxIDsSubmittedByUser g u = Ok l ∧
     ∀ t, t ∈ l ↔ ∃ b tx, valid_in H b tx ∧ PD_UserID tx = u ∧ PD_TxID tx = t) ∧
  (∀ u, ∃ m, GetValuesWrittenByUser g u = Ok m ∧
     ∀ db kv, kv ∈ default [] (m !! db) ↔
       ∃ b tx, valid_in H b tx ∧ PD_UserID tx = u ∧ PD_DBName tx = db ∧ kv ∈ PD_Writes tx) ∧
  (∀ u, ∃ m, GetValuesReadByUser g u = Ok m ∧
     ∀ db kv, kv ∈ default [] (m !! db) ↔
       ∃ b tx r, valid_in H b tx ∧ PD_UserID tx = u ∧ PD_DBName tx = db ∧ r ∈ PD_Reads tx ∧
         wrote H db kv ∧ KV_Key kv = KWV_Key r ∧ version_of kv = KWV_Version r) ∧
  (∀ u, ∃ m, GetValuesDeletedByUser g u = Ok m ∧
     ∀ db kv, kv ∈ default [] (m !! db) ↔
       ∃ b tx, valid_in H b tx ∧ PD_UserID tx = u ∧ PD_DBName tx = db ∧ wrote H db kv ∧
         PD_Deletes tx !! KV_Key kv = Some (version_of kv)) ∧
  (∀ db key, name_wf db → ∃ m, GetReaders g db key = Ok m ∧
     ∀ u, is_Some (m !! u) ↔ ∃ b tx kv, valid_in H b tx ∧ PD_UserID tx = u ∧ PD_DBName tx = db ∧
       (∃ r, r ∈ PD_Reads tx ∧ KV_Key kv = KWV_Key r ∧ version_of kv = KWV_Version r) ∧ wrote H db kv ∧ KV_Key kv = key) ∧
  (∀ db key, name_wf db → ∃ m, GetWriters g db key = Ok m ∧
     ∀ u, is_Some (m !! u) ↔ ∃ b tx kv, valid_in H b tx ∧ PD_UserID tx = u ∧ PD_DBName tx = db ∧
       kv ∈ PD_Writes tx ∧ wrote H db kv ∧ KV_Key kv = key).
Proof.
  intros [HH Hg]%committed_recorded Hkeys Hids.
  split_and!.
  - intros u. by apply submitted_by.
  - intros u. destruct (values_of_user H g u _ _ HH Hg Hkeys Hids (write_edges H)) as (m & Hm & Hin). exists m. split; [done|]. intros db kv. rewrite Hin. split.
    + intros (b & tx & ? & ? & ? & _ & ?). by exists b, tx.
    + intros (b & tx & ? & ? & ? & ?). exists b, tx. split_and!; try done. by exists b, tx.
  - intros u. destruct (values_of_user H g u _ _ HH Hg Hkeys Hids (read_edges H)) as (m & Hm & Hin). exists m. split; [done|]. intros db kv. rewrite Hin. naive_solver.
  - intros u. by apply (values_of_user H g u _ _ HH Hg Hkeys Hids (delete_edges H)).
  - intros db key Hdb. destruct (users_of_key H g db key _ _ HH Hg Hdb (read_edges H) Hids) as (l & Hl & Hin).
    unfold GetReaders. rewrite Hl. cbn [mbind res_bind]. eexists. split; [done|]. intros u. by rewrite count_users_dom, Hin.
  - intros db key Hdb. destruct (users_of_key H g db key _ _ HH Hg Hdb (write_edges H) Hids) as (l & Hl & Hin).
    unfold GetWriters. rewrite Hl. cbn [mbind res_bind]. eexists. split; [done|]. intros u. by rewrite count_users_dom, Hin.
Qed.

End History.
