(* ===== verification/ProvenanceQueries.v ===== *)
(** * Provenance queries

    [internal/bcdb/provenance_query_processor.go]: the queries of the provenance store
    with their access checks; a server without a provenance store refuses them. *)

From S2P Require Import Prelude Types WorldState Identity ProvenanceJSON DbEntries Provenance.
Open Scope Z_scope.

Module ProvenanceQuery.
Section Queries.
Context `{!WorldState D, !Codec User} {G : Type} `{!Graph G} {mr : MapRange}.
Implicit Types (db : D) (store : option G).

(** The guard at the start of every query. *)
Definition withStore {A} store (query : G → res A) : res A :=
  match store with
  | None => Err (ServerRestrictionErr "provenance store is disabled on this server")
  | Some s => query s
  end.

Definition aclCheckForUserOperation db (querierUserID targetUserID : string) : res unit :=
  isAdmin ← HasAdministrationPrivilege db querierUserID;
  if negb isAdmin && bool_decide (querierUserID ≠ targetUserID) then
    Err (PermissionErr ("The querier [" +:+ querierUserID +:+ "] is neither an admin nor requesting operations performed by ["
      +:+ querierUserID +:+ "]. Only an admin can query operations performed by other users."))
  else Ok tt.

Definition aclCheckForData db (querierUserID : string) : res unit :=
  isAdmin ← HasAdministrationPrivilege db querierUserID;
  if negb isAdmin then
    Err (PermissionErr ("The querier [" +:+ querierUserID +:+ "] is not an admin. Only an admin can query historical data"))
  else Ok tt.

Definition composeHistoricalDataResponse (values : list ValueWithMetadata) : res (list ValueWithMetadata) := Ok values.

(** A value that may be nil, as a response. *)
Definition composeValue (value : option ValueWithMetadata) : res (list ValueWithMetadata) :=
  match value with
  | None => composeHistoricalDataResponse []
  | Some v => composeHistoricalDataResponse [v]
  end.

Definition GetValues db store (userID dbName key : string) : res (list ValueWithMetadata) :=
  withStore store (fun s =>
    aclCheckForData db userID;; values ← Provenance.GetValues s dbName key; composeHistoricalDataResponse values).

Definition GetValueAt db store (userID dbName key : string) (version : option Version) : res (list ValueWithMetadata) :=
  withStore store (fun s =>
    aclCheckForData db userID;; value ← Provenance.GetValueAt s dbName key version; composeValue value).

Definition GetMostRecentValueAtOrBelow db store (userID dbName key : string) (version : option Version)
    : res (list ValueWithMetadata) :=
  withStore store (fun s =>
    aclCheckForData db userID;; value ← Provenance.GetMostRecentValueAtOrBelow s dbName key version; composeValue value).

Definition GetPreviousValues db store (userID dbName key : string) (version : option Version) : res (list ValueWithMetadata) :=
  withStore store (fun s =>
    aclCheckForData db userID;; values ← Provenance.GetPreviousValues s dbName key version (-1);
    composeHistoricalDataResponse values).

Definition GetNextValues db store (userID dbName key : string) (version : option Version) : res (list ValueWithMetadata) :=
  withStore store (fun s =>
    aclCheckForData db userID;; values ← Provenance.GetNextValues s dbName key version (-1);
    composeHistoricalDataResponse values).

Definition GetDeletedValues db store (userID dbName key : string) : res (list ValueWithMetadata) :=
  withStore store (fun s =>
    aclCheckForData db userID;; values ← Provenance.GetDeletedValues s dbName key; composeHistoricalDataResponse values).

Definition GetValuesReadByUser db store (querierUserID targetUserID : string) : res (gmap string (list KVWithMetadata)) :=
  withStore store (fun s =>
    aclCheckForUserOperation db querierUserID targetUserID;; Provenance.GetValuesReadByUser s targetUserID).

Definition GetValuesWrittenByUser db store (querierUserID targetUserID : string) : res (gmap string (list KVWithMetadata)) :=
  withStore store (fun s =>
    aclCheckForUserOperation db querierUserID targetUserID;; Provenance.GetValuesWrittenByUser s targetUserID).

Definition GetValuesDeletedByUser db store (querierUserID targetUserID : string) : res (gmap string (list KVWithMetadata)) :=
  withStore store (fun s =>
    aclCheckForUserOperation db querierUserID targetUserID;; Provenance.GetValuesDeletedByUser s targetUserID).

Definition GetReaders db store (userID dbName key : string) : res (gmap string Z) :=
  withStore store (fun s => aclCheckForData db userID;; Provenance.GetReaders s dbName key).

Definition GetWriters db store (userID dbName key : string) : res (gmap string Z) :=
  withStore store (fun s => aclCheckForData db userID;; Provenance.GetWriters s dbName key).

Definition GetTxIDsSubmittedByUser db store (querierUserID targetUserID : string) : res (list string) :=
  withStore store (fun s =>
    aclCheckForUserOperation db querierUserID targetUserID;; Provenance.GetTxIDsSubmittedByUser s targetUserID).

End Queries.
End ProvenanceQuery.
