(* ===== verification/IndexEncoding.v ===== *)
(** * The encoding of numbers in indexes

    [internal/stateindex/encoding.go]: signed 64-bit integers as hexadecimal
    strings whose lexicographic order is the order of the numbers. *)

From S2P Require Import Prelude StringOrder Varint.
From Stdlib Require Import Ascii.
Local Open Scope Z_scope.

Definition reverseOrder : ascii := "0"%char.
Definition normalOrder : ascii := "1"%char.

(** [hextable[b]] *)
Definition hexchar (b : Z) : ascii :=
  ascii_of_N (Z.to_N (if b <? 10 then 48 + b else 87 + b)).

(** [byte(n >> (56-(r*8)))] *)
Definition byte_at (n : Z) (r : nat) : Z := Z.land (Z.shiftr n (56 - Z.of_nat r * 8)) 255.

(** The loop [for bytePosition = 0; bytePosition <= 7; bytePosition++] that stops at
    the first byte different from [skip]. *)
Fixpoint find_byte (n skip : Z) (steps : nat) (bytePosition : nat) : nat :=
  match steps with
  | O => bytePosition
  | S steps => if byte_at n bytePosition =? skip then find_byte n skip steps (S bytePosition) else bytePosition
  end.

(** The two characters of a byte. *)
Definition hex_byte (b : Z) (s : string) : string :=
  String (hexchar (Z.shiftr b 4)) (String (hexchar (Z.land b 15)) s).

(** The bytes of [n] from [bytePosition] to 7. *)
Definition bytes_from (n : Z) (bytePosition : nat) : list Z :=
  byte_at n <$> seq bytePosition (8 - bytePosition).

Definition hex_bytes (bs : list Z) : string := foldr hex_byte "" bs.

Definition encodeOrderPreservingVarUint64 (n : Z) : string :=
  let bytePosition := find_byte n 0 8 0 in
  let size := 8 - Z.of_nat bytePosition in
  String normalOrder (String (hexchar size) (hex_bytes (bytes_from n bytePosition))).

Definition encodeReverseOrderVarUint64 (n : Z) : string :=
  let n := u64 (2 ^ 64 - 1 - n) in
  let bytePosition := find_byte n 255 8 0 in
  String reverseOrder (String (hexchar (Z.of_nat bytePosition)) (hex_bytes (bytes_from n bytePosition))).

(** [n] is an [int64]; [-uint64(n)] is its absolute value when it is negative. *)
Definition EncodeInt64 (n : Z) : string :=
  if n <? 0 then encodeReverseOrderVarUint64 (u64 (- u64 n)) else encodeOrderPreservingVarUint64 (u64 n).

Definition fromHexChar (c : ascii) : res Z :=
  let n := Z.of_N (N_of_ascii c) in
  if (48 <=? n) && (n <=? 57) then Ok (n - 48)
  else if (97 <=? n) && (n <=? 102) then Ok (n - 97 + 10)
  else if (65 <=? n) && (n <=? 70) then Ok (n - 65 + 10)
  else Err (PlainErr ("invalid hex character [" +:+ String c "" +:+ "]")).

Definition char_at (b : list ascii) (i : nat) : res ascii :=
  match b !! i with
  | Some c => Ok c
  | None => Panic "index out of range"
  end.

Definition convertHexAtLocationToBinary (b : list ascii) (location : nat) : res Z :=
  c1 ← char_at b location;
  firstChar ← fromHexChar c1;
  c2 ← char_at b (S location);
  secondChar ← fromHexChar c2;
  Ok (Z.lor (Z.land (Z.shiftl firstChar 4) 255) secondChar).

(** [for i := 7; i >= 8-size; i--]: the byte at [(size-(7-i))*2] is put at [56-(i*8)];
    the loop variable is [t = 7-i]. *)
Definition decode_bytes (bs : list ascii) (size : nat) : res Z :=
  res_foldM (fun v t =>
    b ← convertHexAtLocationToBinary bs ((size - t) * 2);
    Ok (Z.lor v (u64 (Z.shiftl b (Z.of_nat t * 8))))) 0 (seq 0 size).

Definition decodeOrderPreservingVarUint64 (bs : list ascii) : res Z :=
  sizeByte ← convertHexAtLocationToBinary bs 0;
  decode_bytes bs (Z.to_nat sizeByte).

(** The bytes above the decoded ones are [0xff]: [for j := i; j >= 0; j--]. *)
Definition decodeReverseOrderVarUint64 (bs : list ascii) : res Z :=
  bytePosition ← convertHexAtLocationToBinary bs 0;
  let size := Z.to_nat (8 - bytePosition) in
  v ← decode_bytes bs size;
  let v := foldl (fun v j => Z.lor v (u64 (Z.shiftl 255 (56 - Z.of_nat j * 8)))) v
             (reverse (seq 0 (8 - size))) in
  Ok (u64 (2 ^ 64 - 1 - v)).

Definition decodeVarUint64 (s : string) : res (Z * ascii) :=
  match String.list_ascii_of_string s with
  | [] => Panic "index out of range [0] with length 0"
  | encodingType :: bs =>
    if bool_decide (encodingType = normalOrder) then
      n ← decodeOrderPreservingVarUint64 ("0"%char :: bs); Ok (n, normalOrder)
    else if bool_decide (encodingType = reverseOrder) then
      n ← decodeReverseOrderVarUint64 ("0"%char :: bs); Ok (n, reverseOrder)
    else Err (PlainErr ("unexpected prefix [" +:+ String encodingType "" +:+ "]"))
  end.

(** Conversion of a [uint64] to [int64]. *)
Definition to_int64 (n : Z) : Z := if n <? 2 ^ 63 then n else n - 2 ^ 64.

Definition decodeInt64 (s : string) : res Z :=
  '(n, o) ← decodeVarUint64 s;
  Ok (if bool_decide (o = normalOrder) then to_int64 n else to_int64 (u64 (- to_int64 n))).

(** ** Bytes *)

Lemma byte_at_eq n r : (r ≤ 7)%nat → byte_at n r = (n / 256 ^ (7 - Z.of_nat r)) mod 256.
Proof.
  intros Hr. unfold byte_at. change 255 with (Z.ones 8). rewrite Z.land_ones, Z.shiftr_div_pow2 by lia.
  replace (256 ^ (7 - Z.of_nat r)) with (2 ^ (56 - Z.of_nat r * 8)); [done|].
  change 256 with (2 ^ 8). rewrite <- Z.pow_mul_r by lia. f_equal. lia.
Qed.

Lemma byte_at_range n r : 0 ≤ byte_at n r < 256.
Proof.
  unfold byte_at. change 255 with (Z.ones 8). rewrite Z.land_ones by lia. apply Z.mod_pos_bound. lia.
Qed.

(** The number big-endian bytes stand for. *)
Definition be_value (bs : list Z) : Z := foldl (fun v b => v * 256 + b) 0 bs.

Lemma be_value_acc bs v : foldl (fun v b => v * 256 + b) v bs = v * 256 ^ Z.of_nat (length bs) + be_value bs.
Proof.
  unfold be_value. revert v. induction bs as [|b bs IH]; intros v; cbn [foldl length].
  - cbn. lia.
  - rewrite IH, (IH (0 * 256 + b)). rewrite Nat2Z.inj_succ, Z.pow_succ_r by lia. lia.
Qed.

Lemma be_value_cons b bs : be_value (b :: bs) = b * 256 ^ Z.of_nat (length bs) + be_value bs.
Proof. unfold be_value at 1. cbn [foldl]. rewrite be_value_acc. lia. Qed.

Lemma be_value_range bs :
  Forall (fun b => 0 ≤ b < 256) bs → 0 ≤ be_value bs < 256 ^ Z.of_nat (length bs).
Proof.
  induction bs as [|b bs IH]; intros Hbs; [cbn; lia|].
  apply Forall_cons in Hbs as [Hb Hbs]. specialize (IH Hbs). rewrite be_value_cons. cbn [length].
  rewrite Nat2Z.inj_succ, Z.pow_succ_r by lia.
  assert (0 < 256 ^ Z.of_nat (length bs)) by (apply Z.pow_pos_nonneg; lia). nia.
Qed.

Lemma bytes_from_range n p : Forall (fun b => 0 ≤ b < 256) (bytes_from n p).
Proof. apply Forall_fmap, Forall_true. intros r. apply byte_at_range. Qed.

Lemma length_bytes_from n p : length (bytes_from n p) = (8 - p)%nat.
Proof. unfold bytes_from. by rewrite length_fmap, length_seq. Qed.

Lemma bytes_from_step n p : (p ≤ 7)%nat → bytes_from n p = byte_at n p :: bytes_from n (S p).
Proof.
  intros Hp. unfold bytes_from. replace (8 - p)%nat with (S (8 - S p)) by lia. done.
Qed.

Lemma be_value_bytes_from n p :
  (p ≤ 8)%nat → be_value (bytes_from n p) = n mod 256 ^ (8 - Z.of_nat p).
Proof.
  intros Hp. remember (8 - p)%nat as k eqn:Hk. revert p Hp Hk. induction k as [|k IH]; intros p Hp Hk.
  - assert (p = 8%nat) as -> by lia. cbn. by rewrite Z.mod_1_r.
  - rewrite bytes_from_step, be_value_cons, length_bytes_from, IH, byte_at_eq by lia.
    replace (Z.of_nat (8 - S p)) with (7 - Z.of_nat p) by lia.
    replace (8 - Z.of_nat (S p)) with (7 - Z.of_nat p) by lia.
    replace (8 - Z.of_nat p) with (Z.succ (7 - Z.of_nat p)) by lia.
    rewrite Z.pow_succ_r, (Z.mul_comm 256), Z.rem_mul_r by lia. lia.
Qed.

(** ** The position of the first byte that is not skipped *)

Lemma find_byte_spec n skip steps p q :
  find_byte n skip steps p = q →
  (p ≤ q ≤ p + steps)%nat ∧ (∀ r, (p ≤ r < q)%nat → byte_at n r = skip) ∧
  ((q < p + steps)%nat → byte_at n q ≠ skip).
Proof.
  revert p. induction steps as [|k IH]; intros p; cbn; intros Hq.
  - subst. split_and!; [lia|lia|lia|]. intros ?. lia.
  - destruct (byte_at n p =? skip) eqn:E.
    + apply Z.eqb_eq in E. destruct (IH _ Hq) as (H1 & H2 & H3). split_and!; [lia|lia| |].
      * intros r Hr. destruct (decide (r = p)) as [->|]; [done|]. apply H2. lia.
      * intros ?. apply H3. lia.
    + apply Z.eqb_neq in E. subst. split_and!; [lia|lia| |done]. intros r Hr. lia.
Qed.

(** Bytes skipped as zero are leading zeros: the number fits in the rest. *)
Lemma skip_zero_value n q :
  0 ≤ n < 2 ^ 64 → (q ≤ 8)%nat → (∀ r, (r < q)%nat → byte_at n r = 0) → 0 ≤ n < 256 ^ (8 - Z.of_nat q).
Proof.
  intros Hn. induction q as [|q IH]; intros Hq Hz; [change (256 ^ (8 - Z.of_nat 0)) with (2 ^ 64); lia|].
  destruct IH as [_ IH]; [lia|intros; apply Hz; lia|]. split; [lia|].
  specialize (Hz q ltac:(lia)). rewrite byte_at_eq in Hz by lia.
  replace (8 - Z.of_nat q) with (Z.succ (7 - Z.of_nat q)) in IH by lia.
  replace (8 - Z.of_nat (S q)) with (7 - Z.of_nat q) by lia.
  rewrite Z.pow_succ_r in IH by lia.
  assert (Hpos : 0 < 256 ^ (7 - Z.of_nat q)) by (apply Z.pow_pos_nonneg; lia).
  rewrite Z.mod_small in Hz.
  - apply Z.div_small_iff in Hz; [|lia]. destruct Hz; lia.
  - split; [apply Z.div_pos; lia|]. apply Z.div_lt_upper_bound; lia.
Qed.

(** A byte that stopped the loop bounds the number from below. *)
Lemma stop_zero_value n q :
  0 ≤ n < 2 ^ 64 → (q < 8)%nat → (∀ r, (r < q)%nat → byte_at n r = 0) → byte_at n q ≠ 0 →
  256 ^ (7 - Z.of_nat q) ≤ n.
Proof.
  intros Hn Hq Hz Hne. destruct (Z.le_gt_cases (256 ^ (7 - Z.of_nat q)) n) as [|Hlt]; [done|].
  rewrite byte_at_eq in Hne by lia. rewrite Z.div_small in Hne by lia. done.
Qed.

(** ** The order of the strings *)

Lemma hexchar_code x : 0 ≤ x < 16 → N_of_ascii (hexchar x) = Z.to_N (if x <? 10 then 48 + x else 87 + x).
Proof.
  intros Hx. unfold hexchar. apply N_ascii_embedding. destruct (x <? 10) eqn:E; lia.
Qed.

Lemma hexchar_compare x y : 0 ≤ x < 16 → 0 ≤ y < 16 → Ascii.compare (hexchar x) (hexchar y) = (x ?= y).
Proof.
  intros Hx Hy. unfold Ascii.compare. rewrite !hexchar_code by done.
  destruct (x <? 10) eqn:Ex, (y <? 10) eqn:Ey;
    (destruct (Z.compare_spec x y) as [->|?|?];
     [apply N.compare_eq_iff|apply N.compare_lt_iff|apply N.compare_gt_iff]; lia).
Qed.

Lemma compare_hexchar x y s t :
  0 ≤ x < 16 → 0 ≤ y < 16 →
  String.compare (String (hexchar x) s) (String (hexchar y) t) =
  match x ?= y with Eq => String.compare s t | c => c end.
Proof. intros Hx Hy. cbn [String.compare]. rewrite hexchar_compare by done. done. Qed.

Lemma compare_hex_byte x y s t :
  0 ≤ x < 256 → 0 ≤ y < 256 →
  String.compare (hex_byte x s) (hex_byte y t) = match x ?= y with Eq => String.compare s t | c => c end.
Proof.
  intros Hx Hy. unfold hex_byte. change 15 with (Z.ones 4).
  rewrite !Z.shiftr_div_pow2, !Z.land_ones by lia. change (2 ^ 4) with 16.
  rewrite !compare_hexchar by
    first [split; [apply Z.div_pos; lia|apply Z.div_lt_upper_bound; lia]|apply Z.mod_pos_bound; lia].
  pose proof (Z.div_mod x 16 ltac:(lia)) as Hxd. pose proof (Z.div_mod y 16 ltac:(lia)) as Hyd.
  pose proof (Z.mod_pos_bound x 16 ltac:(lia)). pose proof (Z.mod_pos_bound y 16 ltac:(lia)).
  destruct (Z.compare_spec (x / 16) (y / 16)) as [E|E|E].
  - destruct (Z.compare_spec (x mod 16) (y mod 16)) as [E'|E'|E'].
    + assert (x = y) as -> by lia. by rewrite Z.compare_refl.
    + symmetry. assert (x < y) as ->%Z.compare_lt_iff by lia. done.
    + symmetry. assert (y < x) as ->%Z.compare_gt_iff by lia. done.
  - assert (x < y) as ->%Z.compare_lt_iff by lia. done.
  - assert (y < x) as ->%Z.compare_gt_iff by lia. done.
Qed.

(** Equally long byte strings are ordered as the numbers they stand for. *)
Lemma hex_bytes_compare xs ys :
  length xs = length ys → Forall (fun b => 0 ≤ b < 256) xs → Forall (fun b => 0 ≤ b < 256) ys →
  String.compare (hex_bytes xs) (hex_bytes ys) = (be_value xs ?= be_value ys).
Proof.
  revert ys. induction xs as [|x xs IH]; intros [|y ys] Hl Hxs Hys; try done.
  apply Forall_cons in Hxs as [Hx Hxs], Hys as [Hy Hys]. injection Hl as Hl.
  cbn [hex_bytes foldr]. rewrite compare_hex_byte by done. rewrite !be_value_cons, <- Hl.
  pose proof (be_value_range _ Hxs) as Rx. pose proof (be_value_range _ Hys) as Ry. rewrite <- Hl in Ry.
  set (P := 256 ^ Z.of_nat (length xs)) in *. change (foldr hex_byte "" xs) with (hex_bytes xs).
  change (foldr hex_byte "" ys) with (hex_bytes ys). rewrite IH by done.
  destruct (Z.compare_spec x y) as [->|E|E].
  - destruct (Z.compare_spec (be_value xs) (be_value ys)) as [->|E'|E'].
    + by rewrite Z.compare_refl.
    + symmetry. apply Z.compare_lt_iff. lia.
    + symmetry. apply Z.compare_gt_iff. lia.
  - symmetry. apply Z.compare_lt_iff. nia.
  - symmetry. apply Z.compare_gt_iff. nia.
Qed.

(** The number of leading zero bytes of a [uint64]. *)
Definition lead (n : Z) : nat := find_byte n 0 8 0.

Lemma lead_spec n :
  0 ≤ n < 2 ^ 64 → (lead n ≤ 8)%nat ∧ n < 256 ^ (8 - Z.of_nat (lead n)) ∧
  ((lead n < 8)%nat → 256 ^ (7 - Z.of_nat (lead n)) ≤ n).
Proof.
  intros Hn. destruct (find_byte_spec n 0 8 0 (lead n) eq_refl) as (H1 & H2 & H3).
  split_and!; [lia| |].
  - apply skip_zero_value; [done|lia|]. intros. apply H2. lia.
  - intros Hq. apply stop_zero_value; try done; [|by apply H3]. intros. apply H2. lia.
Qed.

Lemma lead_mono a b : 0 ≤ a → a ≤ b → b < 2 ^ 64 → (lead b ≤ lead a)%nat.
Proof.
  intros Ha Hab Hb. destruct (lead_spec a ltac:(lia)) as (Ha1 & Ha2 & Ha3).
  destruct (lead_spec b ltac:(lia)) as (Hb1 & Hb2 & Hb3).
  destruct (le_lt_dec (lead b) (lead a)) as [|Hlt]; [done|].
  specialize (Ha3 ltac:(lia)).
  assert (256 ^ (8 - Z.of_nat (lead b)) ≤ 256 ^ (7 - Z.of_nat (lead a))) by (apply Z.pow_le_mono_r; lia). lia.
Qed.

Lemma encodeOrderPreserving_lt a b :
  0 ≤ a → a < b → b < 2 ^ 64 →
  String.compare (encodeOrderPreservingVarUint64 a) (encodeOrderPreservingVarUint64 b) = Lt.
Proof.
  intros Ha Hab Hb. unfold encodeOrderPreservingVarUint64. fold (lead a) (lead b).
  destruct (lead_spec a ltac:(lia)) as (Ha1 & Ha2 & _). destruct (lead_spec b ltac:(lia)) as (Hb1 & Hb2 & _).
  pose proof (lead_mono a b ltac:(lia) ltac:(lia) ltac:(lia)) as Hm.
  change (String.compare (String normalOrder ?s) (String normalOrder ?t)) with (String.compare s t).
  rewrite compare_hexchar by lia.
  destruct (Z.compare_spec (8 - Z.of_nat (lead a)) (8 - Z.of_nat (lead b))) as [E|E|E]; [|done|lia].
  assert (lead a = lead b) as Heq by lia. rewrite Heq in *.
  rewrite hex_bytes_compare; [|by rewrite !length_bytes_from|apply bytes_from_range..].
  rewrite !be_value_bytes_from, !Z.mod_small by lia. by apply Z.compare_lt_iff.
Qed.

(** ** Complemented numbers *)

Lemma byte_at_complement n r :
  0 ≤ n < 2 ^ 64 → (r ≤ 7)%nat → byte_at (2 ^ 64 - 1 - n) r = 255 - byte_at n r.
Proof.
  intros Hn Hr. rewrite !byte_at_eq by done. set (P := 256 ^ (7 - Z.of_nat r)).
  assert (HP : 0 < P) by (apply Z.pow_pos_nonneg; lia).
  assert (HQ : 2 ^ 64 = 256 ^ Z.of_nat r * 256 * P).
  { unfold P. change (2 ^ 64) with (256 ^ 8). rewrite <- Z.mul_assoc, <- Z.pow_succ_r, <- Z.pow_add_r by lia.
    f_equal. lia. }
  pose proof (Z.div_mod n P ltac:(lia)) as Hd. pose proof (Z.mod_pos_bound n P HP) as Hm.
  assert (Hdiv : (2 ^ 64 - 1 - n) / P = 256 ^ Z.of_nat r * 256 - 1 - n / P).
  { symmetry. apply (Z.div_unique_pos _ _ _ (P - 1 - n mod P)); [lia|]. rewrite HQ. nia. }
  rewrite Hdiv. pose proof (Z.div_mod (n / P) 256 ltac:(lia)) as Hd2.
  pose proof (Z.mod_pos_bound (n / P) 256 ltac:(lia)) as Hm2.
  symmetry. apply (Z.mod_unique_pos _ _ (256 ^ Z.of_nat r - 1 - n / P / 256)); lia.
Qed.

Lemma find_byte_complement n steps p :
  0 ≤ n < 2 ^ 64 → (p + steps ≤ 8)%nat → find_byte (2 ^ 64 - 1 - n) 255 steps p = find_byte n 0 steps p.
Proof.
  intros Hn. revert p. induction steps as [|k IH]; intros p Hp; cbn [find_byte]; [done|].
  rewrite byte_at_complement by lia. rewrite IH by lia.
  destruct (Z.eqb_spec (255 - byte_at n p) 255), (Z.eqb_spec (byte_at n p) 0); (done || lia).
Qed.

Lemma complement_mod n q :
  0 ≤ n < 256 ^ (8 - Z.of_nat q) → (q ≤ 8)%nat →
  (2 ^ 64 - 1 - n) mod 256 ^ (8 - Z.of_nat q) = 256 ^ (8 - Z.of_nat q) - 1 - n.
Proof.
  intros Hn Hq. symmetry. apply (Z.mod_unique_pos _ _ (256 ^ Z.of_nat q - 1)); [lia|].
  change (2 ^ 64) with (256 ^ 8). replace (256 ^ 8) with (256 ^ (8 - Z.of_nat q) * 256 ^ Z.of_nat q); [lia|].
  rewrite <- Z.pow_add_r by lia. f_equal. lia.
Qed.

Lemma encodeReverseOrder_lt a b :
  0 ≤ a → a < b → b < 2 ^ 64 →
  String.compare (encodeReverseOrderVarUint64 b) (encodeReverseOrderVarUint64 a) = Lt.
Proof.
  intros Ha Hab Hb. unfold encodeReverseOrderVarUint64.
  rewrite !(u64_small (2 ^ 64 - 1 - _)) by lia. rewrite !find_byte_complement by lia. fold (lead a) (lead b).
  destruct (lead_spec a ltac:(lia)) as (Ha1 & Ha2 & _). destruct (lead_spec b ltac:(lia)) as (Hb1 & Hb2 & _).
  pose proof (lead_mono a b ltac:(lia) ltac:(lia) ltac:(lia)) as Hm.
  change (String.compare (String reverseOrder ?s) (String reverseOrder ?t)) with (String.compare s t).
  rewrite compare_hexchar by lia.
  destruct (Z.compare_spec (Z.of_nat (lead b)) (Z.of_nat (lead a))) as [E|E|E]; [|done|lia].
  assert (lead a = lead b) as Heq by lia. rewrite Heq in *.
  rewrite hex_bytes_compare; [|by rewrite !length_bytes_from|apply bytes_from_range..].
  rewrite !be_value_bytes_from, !complement_mod by lia. apply Z.compare_lt_iff. lia.
Qed.

(** The absolute value of a negative [int64], as the code computes it. *)
Lemma neg_u64 n : - 2 ^ 63 ≤ n < 0 → u64 (- u64 n) = - n.
Proof.
  intros Hn. assert (u64 n = n + 2 ^ 64) as ->.
  { unfold u64. symmetry. apply (Z.mod_unique_pos _ _ (-1)); lia. }
  unfold u64. symmetry. apply (Z.mod_unique_pos _ _ (-1)); lia.
Qed.

Definition int64 (n : Z) : Prop := - 2 ^ 63 ≤ n < 2 ^ 63.

Lemma EncodeInt64_lt a b : int64 a → int64 b → a < b → String.compare (EncodeInt64 a) (EncodeInt64 b) = Lt.
Proof.
  unfold int64, EncodeInt64. intros Ha Hb Hab.
  destruct (Z.ltb_spec a 0), (Z.ltb_spec b 0).
  - rewrite !neg_u64 by lia. apply encodeReverseOrder_lt; lia.
  - done.
  - lia.
  - rewrite !u64_small by lia. apply encodeOrderPreserving_lt; lia.
Qed.

(** ** Decoding *)

Definition hex_chars (bs : list Z) : list ascii :=
  bs ≫= fun b => [hexchar (Z.shiftr b 4); hexchar (Z.land b 15)].

Lemma chars_of_hex_bytes bs : String.list_ascii_of_string (hex_bytes bs) = hex_chars bs.
Proof. induction bs as [|b bs IH]; [done|]. cbn. by do 2 f_equal. Qed.

Lemma fromHexChar_hexchar x : 0 ≤ x < 16 → fromHexChar (hexchar x) = Ok x.
Proof.
  intros Hx. unfold fromHexChar. rewrite hexchar_code by done.
  destruct (x <? 10) eqn:E; rewrite Z2N.id by lia.
  - rewrite (proj2 (Z.leb_le 48 (48 + x))), (proj2 (Z.leb_le (48 + x) 57)) by lia. cbn. f_equal. lia.
  - rewrite (proj2 (Z.leb_gt (87 + x) 57)), andb_false_r by lia.
    rewrite (proj2 (Z.leb_le 97 (87 + x))), (proj2 (Z.leb_le (87 + x) 102)) by lia. cbn. f_equal. lia.
Qed.

Lemma hex_chars_lookup bs j b :
  bs !! j = Some b →
  hex_chars bs !! (j * 2)%nat = Some (hexchar (Z.shiftr b 4)) ∧
  hex_chars bs !! S (j * 2)%nat = Some (hexchar (Z.land b 15)).
Proof.
  revert j. induction bs as [|c bs IH]; intros [|j]; cbn; intros Hj; [done..|by simplify_eq|]. by apply IH.
Qed.

Lemma convertHex_hex_chars bs j b :
  bs !! j = Some b → 0 ≤ b < 256 → convertHexAtLocationToBinary (hex_chars bs) (j * 2) = Ok b.
Proof.
  intros Hj Hb. destruct (hex_chars_lookup _ _ _ Hj) as [H1 H2].
  unfold convertHexAtLocationToBinary, char_at. rewrite H1, H2. cbn [mbind res_bind].
  change 15 with (Z.ones 4). change 255 with (Z.ones 8).
  rewrite !Z.shiftr_div_pow2, !Z.land_ones by lia. change (2 ^ 4) with 16.
  pose proof (Z.mod_pos_bound b 16 ltac:(lia)). pose proof (Z.div_mod b 16 ltac:(lia)).
  assert (0 ≤ b / 16 < 16) by (split; [apply Z.div_pos; lia|apply Z.div_lt_upper_bound; lia]).
  rewrite !fromHexChar_hexchar by done. cbn [mbind res_bind].
  rewrite Z.shiftl_mul_pow2, Z.land_ones, Z.mod_small by lia. rewrite <- Z.shiftl_mul_pow2 by lia.
  rewrite Z.lor_comm, lor_shiftl_add by lia. f_equal. lia.
Qed.

Lemma decode_bytes_prefix sz bs t :
  Forall (fun b => 0 ≤ b < 256) bs → (length bs ≤ 8)%nat → (t ≤ length bs)%nat →
  res_foldM (fun v t =>
    b ← convertHexAtLocationToBinary (hex_chars (sz :: bs)) ((length bs - t) * 2);
    Ok (Z.lor v (u64 (Z.shiftl b (Z.of_nat t * 8))))) 0 (seq 0 t) =
  Ok (be_value (drop (length bs - t) bs)).
Proof.
  intros Hbs H8. induction t as [|t IH]; intros Ht.
  - rewrite Nat.sub_0_r, drop_all. done.
  - rewrite seq_S, res_foldM_app, IH by lia. cbn [mbind res_bind res_foldM Nat.add].
    destruct (lookup_lt_is_Some_2 bs (length bs - S t)) as [b Hb]; [lia|].
    rewrite (convertHex_hex_chars (sz :: bs) (length bs - t) b).
    2:{ replace (length bs - t)%nat with (S (length bs - S t)) by lia. done. }
    2:{ eapply Forall_lookup_1 in Hbs; [|done]. done. }
    cbn [mbind res_bind]. rewrite (drop_S bs b (length bs - S t)) by done.
    replace (S (length bs - S t)) with (length bs - t)%nat by lia.
    set (rest := drop (length bs - t) bs).
    assert (Hrest : length rest = t) by (unfold rest; rewrite length_drop; lia).
    pose proof (be_value_range rest (Forall_drop _ _ _ Hbs)) as Hr. rewrite Hrest in Hr.
    eapply Forall_lookup_1 in Hbs; [|done].
    assert (Hp : 256 ^ Z.of_nat t = 2 ^ (Z.of_nat t * 8))
      by (change 256 with (2 ^ 8); rewrite <- Z.pow_mul_r by lia; f_equal; lia).
    assert (H56 : 2 ^ (Z.of_nat t * 8) ≤ 2 ^ 56) by (apply Z.pow_le_mono_r; lia).
    rewrite u64_small.
    2:{ rewrite Z.shiftl_mul_pow2 by lia. split; [apply Z.mul_nonneg_nonneg; lia|]. nia. }
    rewrite lor_shiftl_add by lia. rewrite be_value_cons, Hrest. f_equal. lia.
Qed.

Lemma decode_bytes_hex sz bs :
  Forall (fun b => 0 ≤ b < 256) bs → (length bs ≤ 8)%nat →
  decode_bytes (hex_chars (sz :: bs)) (length bs) = Ok (be_value bs).
Proof.
  intros Hbs H8. unfold decode_bytes. rewrite decode_bytes_prefix by (done || lia).
  by rewrite Nat.sub_diag.
Qed.

Lemma size_chars sz bs : 0 ≤ sz < 16 → "0"%char :: hexchar sz :: hex_chars bs = hex_chars (sz :: bs).
Proof.
  intros Hs. cbn [hex_chars mbind list_bind app]. change 15 with (Z.ones 4).
  rewrite Z.shiftr_div_pow2, Z.land_ones, Z.div_small, Z.mod_small by lia. done.
Qed.

Lemma decodeOrderPreserving_encode n :
  0 ≤ n < 2 ^ 64 → decodeVarUint64 (encodeOrderPreservingVarUint64 n) = Ok (n, normalOrder).
Proof.
  intros Hn. unfold encodeOrderPreservingVarUint64. fold (lead n). destruct (lead_spec n Hn) as (H1 & H2 & _).
  unfold decodeVarUint64. cbn [String.list_ascii_of_string].
  rewrite chars_of_hex_bytes, bool_decide_eq_true_2, size_chars by (done || lia).
  unfold decodeOrderPreservingVarUint64.
  rewrite (convertHex_hex_chars _ 0 (8 - Z.of_nat (lead n))) by (done || lia). cbn [mbind res_bind].
  pose proof (length_bytes_from n (lead n)) as Hl.
  replace (Z.to_nat (8 - Z.of_nat (lead n))) with (length (bytes_from n (lead n))) by lia.
  rewrite decode_bytes_hex by (apply bytes_from_range || lia). cbn [mbind res_bind].
  rewrite be_value_bytes_from, Z.mod_small by lia. done.
Qed.

Lemma fill_ff v k :
  (k ≤ 8)%nat → 0 ≤ v < 256 ^ (8 - Z.of_nat k) →
  foldl (fun v j => Z.lor v (u64 (Z.shiftl 255 (56 - Z.of_nat j * 8)))) v (reverse (seq 0 k)) =
  v + 2 ^ 64 - 256 ^ (8 - Z.of_nat k).
Proof.
  revert v. induction k as [|k IH]; intros v Hk Hv.
  - cbn. lia.
  - rewrite seq_S, reverse_app. cbn [Nat.add reverse rev_append foldl app].
    replace (8 - Z.of_nat (S k)) with (7 - Z.of_nat k) in * by lia.
    assert (Hp : 256 ^ (7 - Z.of_nat k) = 2 ^ (56 - Z.of_nat k * 8))
      by (change 256 with (2 ^ 8); rewrite <- Z.pow_mul_r by lia; f_equal; lia).
    assert (H56 : 2 ^ (56 - Z.of_nat k * 8) ≤ 2 ^ 56) by (apply Z.pow_le_mono_r; lia).
    assert (Hs : 256 ^ (8 - Z.of_nat k) = 256 * 256 ^ (7 - Z.of_nat k))
      by (rewrite <- Z.pow_succ_r by lia; f_equal; lia).
    rewrite u64_small by (rewrite Z.shiftl_mul_pow2 by lia; lia).
    rewrite lor_shiftl_add by lia. rewrite IH by lia. lia.
Qed.

Lemma decodeReverseOrder_encode n :
  0 ≤ n < 2 ^ 64 → decodeVarUint64 (encodeReverseOrderVarUint64 n) = Ok (n, reverseOrder).
Proof.
  intros Hn. unfold encodeReverseOrderVarUint64. rewrite u64_small, find_byte_complement by lia.
  fold (lead n). destruct (lead_spec n Hn) as (H1 & H2 & _). set (c := 2 ^ 64 - 1 - n).
  unfold decodeVarUint64. cbn [String.list_ascii_of_string].
  rewrite chars_of_hex_bytes, bool_decide_eq_false_2, bool_decide_eq_true_2, size_chars by (done || lia).
  unfold decodeReverseOrderVarUint64.
  rewrite (convertHex_hex_chars _ 0 (Z.of_nat (lead n))) by (done || lia). cbn [mbind res_bind].
  pose proof (length_bytes_from c (lead n)) as Hl.
  replace (Z.to_nat (8 - Z.of_nat (lead n))) with (length (bytes_from c (lead n))) by lia.
  rewrite decode_bytes_hex by (apply bytes_from_range || lia). cbn [mbind res_bind].
  rewrite be_value_bytes_from by lia. unfold c. rewrite complement_mod by lia.
  rewrite length_bytes_from. replace (8 - (8 - lead n))%nat with (lead n) by lia.
  rewrite fill_ff by lia. rewrite u64_small by lia. do 2 f_equal. lia.
Qed.

(** The encoding of indexed numbers preserves their order: comparing the encoded
    strings byte by byte is comparing the signed 64-bit numbers. *)
Lemma EncodeInt64_compare a b :
  int64 a → int64 b → String.compare (EncodeInt64 a) (EncodeInt64 b) = (a ?= b).
Proof.
  intros Ha Hb. destruct (Z.compare_spec a b) as [->|H|H].
  - apply string_compare_refl.
  - by apply EncodeInt64_lt.
  - rewrite String.compare_antisym, EncodeInt64_lt by done. done.
Qed.

Lemma decodeInt64_encode n : int64 n → decodeInt64 (EncodeInt64 n) = Ok n.
Proof.
  unfold int64, decodeInt64, EncodeInt64, to_int64. intros Hn. destruct (Z.ltb_spec n 0).
  - rewrite neg_u64, decodeReverseOrder_encode by lia. cbn [mbind res_bind].
    rewrite bool_decide_eq_false_2 by done. f_equal.
    destruct (Z.ltb_spec (- n) (2 ^ 63)).
    + rewrite Z.opp_involutive. unfold u64.
      replace (n mod 2 ^ 64) with (n + 2 ^ 64) by (apply (Z.mod_unique_pos _ _ (-1)); lia).
      destruct (Z.ltb_spec (n + 2 ^ 64) (2 ^ 63)); lia.
    + assert (n = - 2 ^ 63) as -> by lia. done.
  - rewrite u64_small, decodeOrderPreserving_encode by lia. cbn [mbind res_bind].
    rewrite bool_decide_eq_true_2 by done. f_equal. destruct (Z.ltb_spec n (2 ^ 63)); lia.
Qed.

(** Decoding an encoded number gives it back, for every signed 64-bit number. *)
Theorem decodeInt64_EncodeInt64 n : int64 n → decodeInt64 (EncodeInt64 n) = Ok n.
Proof. apply decodeInt64_encode. Qed.

Lemma decodeInt64_EncodeInt64_witness : decodeInt64 (EncodeInt64 (- 2 ^ 63)) = Ok (- 2 ^ 63).
Proof. apply (decodeInt64_EncodeInt64 (- 2 ^ 63)). unfold int64. lia. Defined.

(** ** The characters of an encoded number *)

Definition hex_code (c : ascii) : bool :=
  let n := Z.of_N (N_of_ascii c) in ((48 <=? n) && (n <=? 57)) || ((97 <=? n) && (n <=? 102)).

Lemma hexchar_hex x : 0 ≤ x < 16 → hex_code (hexchar x) = true.
Proof. intros H. unfold hex_code. rewrite hexchar_code by done. destruct (x <? 10) eqn:E; rewrite Z2N.id by lia; lia. Qed.

Lemma hex_bytes_hex bs : Forall (fun b => 0 ≤ b < 256) bs → string_forallb hex_code (hex_bytes bs) = true.
Proof.
  induction 1 as [|b bs Hb _ IH]; [done|]. cbn [hex_bytes foldr]. unfold hex_byte. change 15 with (Z.ones 4).
  rewrite Z.shiftr_div_pow2, Z.land_ones by lia. change (2 ^ 4) with 16. cbn [string_forallb].
  rewrite !hexchar_hex by
    first [split; [apply Z.div_pos; lia|apply Z.div_lt_upper_bound; lia]|apply Z.mod_pos_bound; lia].
  apply IH.
Qed.

Lemma find_byte_le n skip steps p : (p ≤ find_byte n skip steps p ≤ p + steps)%nat.
Proof.
  revert p. induction steps as [|k IH]; intros p; cbn; [lia|]. case_match; [|lia]. specialize (IH (S p)). lia.
Qed.

Lemma EncodeInt64_hex n : string_forallb hex_code (EncodeInt64 n) = true.
Proof.
  unfold EncodeInt64, encodeReverseOrderVarUint64, encodeOrderPreservingVarUint64. case_match; cbn [string_forallb];
    (rewrite hexchar_hex, hex_bytes_hex; [done|apply bytes_from_range|]);
    match goal with |- context [find_byte ?n ?k 8 0] => pose proof (find_byte_le n k 8 0) end; lia.
Qed.
