(* ===== verification/StateIndex.v ===== *)
(** * Secondary indexes

    [internal/stateindex/index_entries.go]: the index entries of JSON values and
    the updates of the index database that accompany the updates of a block. *)

From S2P Require Import Prelude StringOrder Types JSON JSONPrint WorldState IndexEncoding.
From Stdlib Require Import Ascii.

(** [interface{}] values an index entry can hold. *)
Inductive IndexValue :=
  | IVNumber (encoded : string)
  | IVString (s : string)
  | IVBool (b : bool)
  | IVNil.

#[export] Instance IndexValue_eq_dec : EqDecision IndexValue.
Proof. solve_decision. Defined.

Definition Beginning : Z := 1.
Definition Existing : Z := 2.
Definition Ending : Z := 3.

Record IndexEntry := mkIndexEntry {
  Attribute : string;
  IE_Type : IndexAttributeType;
  ValuePosition : Z;
  IE_Value : IndexValue;
  KeyPosition : Z;
  IE_Key : string;
}.

#[export] Instance IndexEntry_eq_dec : EqDecision IndexEntry.
Proof. solve_decision. Defined.

(** *** The text of an entry

    [json.Marshal] writes the fields in the order of the struct. *)

(** The number of an attribute type on the wire. *)
Definition type_number (t : IndexAttributeType) : Z :=
  match t with
  | IndexAttributeType_NUMBER => 0
  | IndexAttributeType_STRING => 1
  | IndexAttributeType_BOOLEAN => 2
  | IndexAttributeType_Unknown n => n
  end.

Definition type_of_number (n : Z) : IndexAttributeType :=
  if (n =? 0)%Z then IndexAttributeType_NUMBER
  else if (n =? 1)%Z then IndexAttributeType_STRING
  else if (n =? 2)%Z then IndexAttributeType_BOOLEAN
  else IndexAttributeType_Unknown n.

Definition value_text (v : IndexValue) : string :=
  match v with
  | IVNumber s | IVString s => json_string s
  | IVBool true => "true"
  | IVBool false => "false"
  | IVNil => "null"
  end.

(** The part of the text that is the same for all entries of an attribute. *)
Definition entry_head (attr : string) (t : IndexAttributeType) : string :=
  "{" +:+ field "a" +:+ json_string attr +:+ "," +:+ field "t" +:+ pretty (type_number t) +:+ "," +:+ field "vp".

Definition entry_string (e : IndexEntry) : string :=
  entry_head (Attribute e) (IE_Type e) +:+ pretty (ValuePosition e) +:+ "," +:+
  field "v" +:+ value_text (IE_Value e) +:+ "," +:+
  field "kp" +:+ pretty (KeyPosition e) +:+ "," +:+
  field "k" +:+ json_string (IE_Key e) +:+ "}".

(** [IndexEntry.String()] *)
Definition EntryString (e : IndexEntry) : res string := Ok (entry_string e).

Lemma EntryString_ok e s : EntryString e = Ok s → s = entry_string e.
Proof. unfold EntryString. generalize (entry_string e). by intros ? [= ->]. Qed.

(** Values are told apart by their first character. *)
Definition is_value_text (s : string) : Prop := ∃ v, s = value_text v.

#[export] Instance value_text_code : PrefixCode is_value_text.
Proof.
  assert (Hq : ∀ x r, json_string x +:+ r = String (char 34) (escape x +:+ quote +:+ r)).
  { intros x r. unfold json_string. by rewrite <- !string_app_assoc. }
  intros a b r r' [v ->] [w ->] H.
  destruct v as [x|x|[]|], w as [y|y|[]|]; cbn [value_text] in *; try done;
    try (apply (prefix_code (A := is_json_string) _ _ r r'); [by eexists..|done]);
    rewrite ?Hq in H; done.
Qed.

(** A number of an entry, with the comma after it. *)
Definition num (z : Z) : string := pretty z +:+ ",".

Lemma num_eq z z' : String.compare (num z) (num z') = Eq ↔ z = z'.
Proof.
  rewrite string_compare_eq. split; [|by intros ->]. unfold num. intros H.
  apply (inj pretty).
  by destruct (append_sep_inj _ _ _ _ _ (pretty_no_comma z) (pretty_no_comma z') H).
Qed.

(** Entries compare field by field. *)
Lemma entry_compare e e' :
  String.compare (entry_string e) (entry_string e') =
  lex (String.compare (json_string (Attribute e)) (json_string (Attribute e')))
    (lex (String.compare (num (type_number (IE_Type e))) (num (type_number (IE_Type e'))))
      (lex (String.compare (num (ValuePosition e)) (num (ValuePosition e')))
        (lex (String.compare (value_text (IE_Value e)) (value_text (IE_Value e')))
          (lex (String.compare (num (KeyPosition e)) (num (KeyPosition e')))
            (String.compare (json_string (IE_Key e)) (json_string (IE_Key e'))))))).
Proof.
  assert (Hnum : ∀ z z' r r', String.compare (pretty z +:+ "," +:+ r) (pretty z' +:+ "," +:+ r') =
    lex (String.compare (num z) (num z')) (String.compare r r')).
  { intros z z' r r'. rewrite !string_app_assoc. apply (compare_code (A := number_comma)); by eexists. }
  assert (Hstr : ∀ s s' r r', String.compare (json_string s +:+ r) (json_string s' +:+ r') =
    lex (String.compare (json_string s) (json_string s')) (String.compare r r')).
  { intros s s' r r'. apply (compare_code (A := is_json_string)); by eexists. }
  assert (Hval : ∀ v v' r r', String.compare (value_text v +:+ r) (value_text v' +:+ r') =
    lex (String.compare (value_text v) (value_text v')) (String.compare r r')).
  { intros v v' r r'. apply (compare_code (A := is_value_text)); by eexists. }
  unfold entry_string, entry_head, field. rewrite <- !string_app_assoc.
  rewrite !compare_same, Hstr, !compare_same, Hnum, !compare_same, Hnum, !compare_same, Hval, !compare_same, Hnum,
    !compare_same, Hstr. by rewrite lex_eq_r.
Qed.

(** The key of an entry can be told from its text. *)
Lemma entry_string_key e e' : utf8_valid (IE_Key e) = true → utf8_valid (IE_Key e') = true →
  entry_string e = entry_string e' → IE_Key e = IE_Key e'.
Proof.
  intros Hk Hk' H. apply string_compare_eq in H. rewrite entry_compare, !lex_eq in H.
  destruct H as (_ & _ & _ & _ & _ & H%string_compare_eq). by apply json_string_inj.
Qed.

(** *** The text of an index definition *)

(** [json.Marshal] of a [map[string]IndexAttributeType], keys sorted. *)
Definition MarshalIndexDef (d : gmap string IndexAttributeType) : res bytes :=
  let member k := field k +:+ pretty (match d !! k with Some t => type_number t | None => 0%Z end) in
  Ok (bytes_of_string
    (if bool_decide (d = ∅) then "null"
     else "{" +:+ strings_join (member <$> sort_strings (map_to_list d).*1) "," +:+ "}")).

Definition UnmarshalIndexDef {mr : MapRange} (b : bytes) : res (gmap string IndexAttributeType) :=
  match parse_text (string_of_bytes b) with
  | Some JNull => Ok ∅
  | Some (JObject fields) =>
    res_foldM (fun m '(k, v) => n ← decode_int 32 0 v; Ok (<[k := type_of_number n]> m)) ∅ fields
  | Some _ => Err (PlainErr "json: cannot unmarshal value into Go value of type map[string]types.IndexAttributeType")
  | None => Err (PlainErr "invalid JSON")
  end.

(** *** Reading an entry

    The value of an entry read from its text is any JSON value; the literal of a
    number stands for the float it is decoded to. *)
Record LoadedEntry := mkLoadedEntry {
  LE_Attribute : string;
  LE_Type : Z;
  LE_ValuePosition : Z;
  LE_Value : json;
  LE_KeyPosition : Z;
  LE_Key : string;
}.

Definition new_entry : LoadedEntry := mkLoadedEntry "" 0 0 JNull 0 "".

Definition load_field (e : LoadedEntry) (name : string) (x : json) : res LoadedEntry :=
  let '(mkLoadedEntry a t vp v kp k) := e in
  let name := fold_name name in
  if bool_decide (name = "a") then a ← decode_string a x; Ok (mkLoadedEntry a t vp v kp k)
  else if bool_decide (name = "t") then t ← decode_int 32 t x; Ok (mkLoadedEntry a t vp v kp k)
  else if bool_decide (name = "vp") then vp ← decode_int 8 vp x; Ok (mkLoadedEntry a t vp v kp k)
  else if bool_decide (name = "v") then Ok (mkLoadedEntry a t vp x kp k)
  else if bool_decide (name = "kp") then kp ← decode_int 8 kp x; Ok (mkLoadedEntry a t vp v kp k)
  else if bool_decide (name = "k") then k ← decode_string k x; Ok (mkLoadedEntry a t vp v kp k)
  else Ok e.

(** [IndexEntry.Load] into a new entry *)
Definition Load {mr : MapRange} (entry : string) : res LoadedEntry :=
  match parse_fields entry with
  | None => Err (PlainErr "json: invalid index entry")
  | Some fields => res_foldM (fun e '(name, x) => load_field e name x) new_entry fields
  end.

(** [GetValue] on a value of the right type: numbers are encoded. *)
Definition isTypeSame (v : json) (t : IndexAttributeType) : option IndexValue :=
  match v, t with
  | JNumber lit, IndexAttributeType_NUMBER => n ← ParseInt64 lit; Some (IVNumber (EncodeInt64 n))
  | JString s, IndexAttributeType_STRING => Some (IVString s)
  | JBool b, IndexAttributeType_BOOLEAN => Some (IVBool b)
  | _, _ => None
  end.

Definition entryForAttribute (index : gmap string IndexAttributeType) (attr : string) (v : json) : list IndexEntry :=
  match index !! attr with
  | None => []
  | Some valueType =>
    match isTypeSame v valueType with
    | Some value => [mkIndexEntry attr valueType Existing value Existing ""]
    | None => []
    end
  end.

(** Attributes are looked for in nested objects too, arrays excepted. *)
Fixpoint partialIndexEntriesForValue (index : gmap string IndexAttributeType) (v : json) : list IndexEntry :=
  match v with
  | JObject fields =>
    (fix go (fields : list (string * json)) : list IndexEntry :=
       match fields with
       | [] => []
       | (attr, x) :: fields =>
         match x with
         | JString _ | JNumber _ | JBool _ => entryForAttribute index attr x
         | _ => partialIndexEntriesForValue index x
         end ++ go fields
       end) fields
  | _ => []
  end.

Section StateIndex.
Context `{!WorldState D} {mr : MapRange}.
Implicit Types (db : D).

Definition decodeJSONAndConstructIndexEntries (key : string) (value : bytes)
    (index : gmap string IndexAttributeType) : list IndexEntry :=
  match DecodeObject value with
  | None => []
  | Some val =>
    (fun e => mkIndexEntry (Attribute e) (IE_Type e) (ValuePosition e) (IE_Value e) (KeyPosition e) key)
      <$> partialIndexEntriesForValue index (JObject val)
  end.

Definition indexEntriesForNewValues (kvs : list KVWithMetadata) (index : gmap string IndexAttributeType)
    : list IndexEntry :=
  kvs ≫= fun kv => decodeJSONAndConstructIndexEntries (KV_Key kv) (KV_Value kv) index.

Definition indexEntriesOfExistingValue (keys : list string) (index : gmap string IndexAttributeType)
    db (dbName : string) : res (list IndexEntry) :=
  es ← res_mapM (fun k =>
    '(v, _) ← Get db dbName k;
    Ok (decodeJSONAndConstructIndexEntries k v index)) keys;
  Ok (List.concat es).

Definition toStrings (indexEntries : list IndexEntry) : res (list string) := res_mapM EntryString indexEntries.

(** The keys of a [map[string]bool] used as a set, in the order of a range. *)
Definition range_set (X : gset string) : list string := range_keys (gset_to_gmap true X).

Definition removeDuplicateIndexEntries (indexOfNewValues indexOfExistingValues : list string)
    : list string * list string :=
  let newIndexEntries : gset string := list_to_set indexOfNewValues ∖ list_to_set indexOfExistingValues in
  let existingIndexEntries : gset string := list_to_set indexOfExistingValues ∖ list_to_set indexOfNewValues in
  if bool_decide (length indexOfNewValues = size newIndexEntries) then
    (indexOfNewValues, indexOfExistingValues)
  else (range_set newIndexEntries, range_set existingIndexEntries).

Definition indexEntriesForWrites (writes : list KVWithMetadata) (index : gmap string IndexAttributeType)
    db (dbName : string) : res (list string * list string) :=
  let newIndexEntries := indexEntriesForNewValues writes index in
  let keysUpdated := KV_Key <$> writes in
  existingIndexEntries ← indexEntriesOfExistingValue keysUpdated index db dbName;
  newEntries ← toStrings newIndexEntries;
  existingEntries ← toStrings existingIndexEntries;
  Ok (removeDuplicateIndexEntries newEntries existingEntries).

Definition indexEntriesForDeletes (deletes : list string) (index : gmap string IndexAttributeType)
    db (dbName : string) : res (list string) :=
  es ← indexEntriesOfExistingValue deletes index db dbName;
  toStrings es.

Definition IndexDB (dbName : string) : string := "_index_" +:+ dbName.

(** The index updates of one database; [None] when it has no index or nothing changes. *)
Definition indexUpdatesFor db (dbName : string) (update : DBUpdates) : res (option DBUpdates) :=
  '(indexDef, _) ← GetIndexDefinition db dbName;
  if bool_decide (indexDef = []) then Ok None
  else
    index ← UnmarshalIndexDef indexDef;
    '(newIndexToBeCreated, oldIndexToBeDeleted) ← indexEntriesForWrites (Writes update) index db dbName;
    toBeDeletedIndexEntries ← indexEntriesForDeletes (Deletes update) index db dbName;
    let oldIndexToBeDeleted := oldIndexToBeDeleted ++ toBeDeletedIndexEntries in
    if bool_decide (0 < length newIndexToBeCreated) || bool_decide (0 < length oldIndexToBeDeleted) then
      Ok (Some (mkDBUpdates ((fun ind => mkKVWithMetadata ind [] None) <$> newIndexToBeCreated) oldIndexToBeDeleted))
    else Ok None.

Definition ConstructIndexEntries (updates : gmap string DBUpdates) db : res (gmap string DBUpdates) :=
  res_foldM (fun (indexEntries : gmap string DBUpdates) '(dbName, update) =>
    u ← indexUpdatesFor db dbName update;
    Ok (match u with
        | Some dbUpdates => <[IndexDB dbName := dbUpdates]> indexEntries
        | None => indexEntries
        end)) ∅ (range updates).

(** ** Exactness of the index *)

(** The value of key [k] gives rise to the index entry [s]. *)
Definition indexes (index : gmap string IndexAttributeType) (k : string) (v : bytes) (s : string) : Prop :=
  ∃ e, e ∈ decodeJSONAndConstructIndexEntries k v index ∧ EntryString e = Ok s.

(** The index database holds the entries of the current values, and no other. *)
Definition index_exact db (dbName : string) (index : gmap string IndexAttributeType) : Prop :=
  ∀ s, Has db (IndexDB dbName) s = Ok true ↔
       ∃ k v m, Get db dbName k = Ok (v, m) ∧ indexes index k v s.

Lemma decode_key k v index e : e ∈ decodeJSONAndConstructIndexEntries k v index → IE_Key e = k.
Proof.
  unfold decodeJSONAndConstructIndexEntries. destruct (DecodeObject v); [|set_solver].
  intros (e' & -> & _)%list_elem_of_fmap. done.
Qed.

Lemma new_entries_elem kvs index ss s :
  toStrings (indexEntriesForNewValues kvs index) = Ok ss →
  s ∈ ss ↔ ∃ kv, kv ∈ kvs ∧ indexes index (KV_Key kv) (KV_Value kv) s.
Proof.
  intros H. rewrite (res_mapM_elem _ _ _ _ H). unfold indexEntriesForNewValues, indexes.
  setoid_rewrite list_elem_of_bind. naive_solver.
Qed.

Lemma existing_entries_elem keys index db n es ss s :
  indexEntriesOfExistingValue keys index db n = Ok es → toStrings es = Ok ss →
  s ∈ ss ↔ ∃ k v m, k ∈ keys ∧ Get db n k = Ok (v, m) ∧ indexes index k v s.
Proof.
  unfold indexEntriesOfExistingValue. intros H1 H2. inv_res. subst es.
  rewrite (res_mapM_elem _ _ _ _ H2). unfold indexes. split.
  - intros (e & He & Hs). apply list_elem_of_In, in_concat in He as (l & Hl & He).
    apply list_elem_of_In in Hl, He. apply (res_mapM_elem _ _ _ _ H) in Hl as (k & Hk & Hl).
    inv_res. destruct x0 as [v m]. inv_res. subst. eauto 10.
  - intros (k & v & m & Hk & Hg & e & He & Hs). exists e. split; [|done].
    apply list_elem_of_In, in_concat. eexists. split; [|by apply list_elem_of_In].
    apply list_elem_of_In, (res_mapM_elem _ _ _ _ H). exists k. split; [done|]. by rewrite Hg.
Qed.

Lemma size_list_to_set_le (l : list string) : size (list_to_set l : gset string) ≤ length l.
Proof.
  induction l as [|x l IH]; cbn; [done|]. rewrite size_union_alt, size_singleton.
  pose proof (subseteq_size (list_to_set l ∖ {[x]} : gset string) (list_to_set l) ltac:(set_solver)). lia.
Qed.

(** What is created and deleted, as sets. *)
Lemma removeDuplicate_elem new old s :
  (s ∈ (removeDuplicateIndexEntries new old).1 ↔ s ∈ new ∧ s ∉ old) ∧
  (s ∈ (removeDuplicateIndexEntries new old).2 ↔ s ∈ old ∧ s ∉ new).
Proof.
  unfold removeDuplicateIndexEntries. case_bool_decide as Hlen; cbn.
  - assert (Hdis : ∀ x, x ∈ new → x ∉ old).
    { intros x Hn Ho.
      assert (size (list_to_set new ∖ list_to_set old : gset string) < size (list_to_set new : gset string)).
      { apply subset_size. split; [set_solver|]. set_solver. }
      pose proof (size_list_to_set_le new). lia. }
    set_solver.
  - unfold range_set. rewrite !elem_of_range_keys, <- !elem_of_dom, !dom_gset_to_gmap. set_solver.
Qed.

(** The keys an optional update writes and deletes. *)
Definition opt_writes (o : option DBUpdates) : list string :=
  match o with Some u => KV_Key <$> Writes u | None => [] end.
Definition opt_deletes (o : option DBUpdates) : list string :=
  match o with Some u => Deletes u | None => [] end.

(** The index updates of one database, as sets: an entry is created when a new
    value has it and the old values of the written keys do not, and deleted when
    only the old values have it, or the value of a deleted key. *)
Lemma indexUpdatesFor_elem db n u o def meta index :
  GetIndexDefinition db n = Ok (def, meta) → def ≠ [] → UnmarshalIndexDef def = Ok index →
  indexUpdatesFor db n u = Ok o →
  ∃ new old del : list string,
    (∀ s, s ∈ new ↔ ∃ kv, kv ∈ Writes u ∧ indexes index (KV_Key kv) (KV_Value kv) s) ∧
    (∀ s, s ∈ old ↔ ∃ k v m, k ∈ KV_Key <$> Writes u ∧ Get db n k = Ok (v, m) ∧ indexes index k v s) ∧
    (∀ s, s ∈ del ↔ ∃ k v m, k ∈ Deletes u ∧ Get db n k = Ok (v, m) ∧ indexes index k v s) ∧
    (∀ s, s ∈ opt_writes o ↔ s ∈ new ∧ s ∉ old) ∧
    (∀ s, s ∈ opt_deletes o ↔ (s ∈ old ∧ s ∉ new) ∨ s ∈ del).
Proof.
  intros Hdef Hne Hidx H. unfold indexUpdatesFor in H. rewrite Hdef in H. cbn in H.
  rewrite bool_decide_eq_false_2, Hidx in H by done. cbn in H.
  apply bind_ok_inv in H as ([ws ds] & Hw & H). apply bind_ok_inv in H as (del & Hd & H).
  unfold indexEntriesForWrites in Hw. apply bind_ok_inv in Hw as (es & He & Hw).
  apply bind_ok_inv in Hw as (new & Hnew & Hw). apply bind_ok_inv in Hw as (old & Hold & Hw).
  unfold indexEntriesForDeletes in Hd. apply bind_ok_inv in Hd as (eds & Hed & Hd).
  injection Hw as Hw. exists new, old, del. split_and!.
  - intros s. by apply new_entries_elem.
  - intros s. by eapply existing_entries_elem.
  - intros s. by eapply existing_entries_elem.
  - intros s. destruct (removeDuplicate_elem new old s) as [H1 _]. rewrite Hw in H1. cbn in H1. rewrite <- H1.
    rewrite <- bool_decide_or in H. case_bool_decide as Hl; inv_res; subst o; cbn.
    + rewrite <- list_fmap_compose. cbn. unfold compose. cbn. by rewrite list_fmap_id.
    + destruct ws; [done|]. cbn in Hl. lia.
  - intros s. destruct (removeDuplicate_elem new old s) as [_ H2]. rewrite Hw in H2. cbn in H2. rewrite <- H2.
    rewrite <- elem_of_app. rewrite <- bool_decide_or in H. case_bool_decide as Hl; inv_res; subst o; cbn; [done|].
    destruct (ds ++ del); [done|]. cbn in Hl. lia.
Qed.

Lemma IndexDB_inj n n' : IndexDB n = IndexDB n' → n = n'.
Proof. apply (inj (String.append "_index_")). Qed.

(** The updates [ConstructIndexEntries] collects, by index database. *)
Lemma ConstructIndexEntries_lookup ups db idx :
  ConstructIndexEntries ups db = Ok idx →
  (∀ n u, ups !! n = Some u → ∃ o, indexUpdatesFor db n u = Ok o ∧ idx !! IndexDB n = o) ∧
  (∀ x u, idx !! x = Some u → ∃ n, x = IndexDB n ∧ is_Some (ups !! n)).
Proof.
  unfold ConstructIndexEntries. intros H.
  assert (Hgen : ∀ l acc idx, NoDup l.*1 →
    res_foldM (fun (indexEntries : gmap string DBUpdates) '(dbName, update) =>
      u ← indexUpdatesFor db dbName update;
      Ok (match u with
          | Some dbUpdates => <[IndexDB dbName := dbUpdates]> indexEntries
          | None => indexEntries
          end)) acc l = Ok idx →
    (∀ x, x ∉ (IndexDB ∘ fst <$> l) → idx !! x = acc !! x) ∧
    (∀ n u, (n, u) ∈ l → acc !! IndexDB n = None → ∃ o, indexUpdatesFor db n u = Ok o ∧ idx !! IndexDB n = o)).
  { clear. intros l. induction l as [|[n u] l IH]; intros acc idx Hnd H; cbn in H.
    - simplify_eq. split; [done|set_solver].
    - cbn in Hnd. apply NoDup_cons in Hnd as [Hn Hnd]. apply bind_ok_inv in H as (acc' & Hacc & H).
      apply bind_ok_inv in Hacc as (o & Ho & Hacc). injection Hacc as <-.
      destruct (IH _ _ Hnd H) as [H1 H2].
      assert (Hfresh : IndexDB n ∉ (IndexDB ∘ fst <$> l)).
      { intros ([n' u'] & Heq%IndexDB_inj & Hin)%list_elem_of_fmap. cbn in Heq. subst. apply Hn.
        apply list_elem_of_fmap. by exists (n', u'). }
      split.
      + intros x [Hx Hxl]%not_elem_of_cons. rewrite H1 by done.
        destruct o; [|done]. by rewrite lookup_insert_ne.
      + intros n' u' [[= -> ->]|Hin]%elem_of_cons Hacc.
        * exists o. split; [done|]. rewrite H1 by done. destruct o; [by rewrite lookup_insert_eq|done].
        * apply H2; [done|]. destruct o; [|done]. rewrite lookup_insert_ne; [done|].
          intros Heq%IndexDB_inj. subst. apply Hn, list_elem_of_fmap. by exists (n', u'). }
  destruct (Hgen _ _ _ (range_keys_NoDup ups) H) as [H1 H2]. split.
  - intros n u Hu. apply H2; [by apply elem_of_range|done].
  - intros x u Hx. destruct (decide (x ∈ (IndexDB ∘ fst <$> range ups))) as [Hin|Hni].
    + apply list_elem_of_fmap in Hin as ([n u'] & -> & Hin%elem_of_range). eauto.
    + rewrite H1 in Hx by done. done.
Qed.

End StateIndex.

Section IndexExact.
Context `{!WorldState D, !Codec ClusterConfig, !WorldStateLaws D} {mr : MapRange}.
Implicit Types (db : D).

(** The keys that hold a value are UTF-8 text, as the keys of a decoded message are. *)
Definition keys_utf8 db (dbName : string) : Prop :=
  ∀ k v m, Get db dbName k = Ok (v, m) → v ≠ [] → utf8_valid k = true.

Lemma indexes_empty index k s : ¬ indexes index k [] s.
Proof. intros (e & He & _). cbn in He. set_solver. Qed.

Lemma indexes_key index k k' v v' s :
  utf8_valid k = true → utf8_valid k' = true → indexes index k v s → indexes index k' v' s → k = k'.
Proof.
  intros Hk Hk' (e & He & Hs%EntryString_ok) (e' & He' & Hs'%EntryString_ok).
  apply decode_key in He, He'. subst k k'. apply entry_string_key; congruence.
Qed.

Lemma has_after_true old u k :
  is_ok old = true →
  has_after old u k = Ok true ↔ k ∉ Deletes u ∧ (k ∈ KV_Key <$> Writes u ∨ old = Ok true).
Proof.
  destruct old as [b| |]; try done. intros _. unfold has_after. cbn.
  repeat case_bool_decide; destruct b; naive_solver.
Qed.

Lemma last_write_elem k ws :
  match last_write k ws with
  | Some kv => kv ∈ ws ∧ KV_Key kv = k
  | None => ∀ kv, kv ∈ ws → KV_Key kv ≠ k
  end.
Proof.
  unfold last_write. destruct (last (filter _ ws)) as [kv|] eqn:E.
  - apply last_Some_elem_of, list_elem_of_filter in E as [? ?]. done.
  - apply last_None in E. intros kv Hin Hk. eapply (elem_of_nil kv). rewrite <- E. by apply list_elem_of_filter.
Qed.

(** A batch that gives each key at most one outcome. *)
Record functional_updates (u : DBUpdates) : Prop := {
  fu_writes : ∀ kv kv', kv ∈ Writes u → kv' ∈ Writes u → KV_Key kv = KV_Key kv' → kv = kv';
  fu_deletes : ∀ kv, kv ∈ Writes u → KV_Key kv ∉ Deletes u;
}.

(** The values of a database after such a batch. *)
Lemma get_after_unique old u k :
  functional_updates u →
  (k ∈ Deletes u → get_after old u k = Ok ([], None)) ∧
  (∀ kv, kv ∈ Writes u → KV_Key kv = k → get_after old u k = Ok (KV_Value kv, KV_Metadata kv)) ∧
  (k ∉ KV_Key <$> Writes u → k ∉ Deletes u → get_after old u k = old).
Proof.
  intros [Hw Hdis]. unfold get_after. pose proof (last_write_elem k (Writes u)) as Hl. split_and!.
  - intros Hk. by rewrite bool_decide_eq_true_2.
  - intros kv Hin <-. rewrite bool_decide_eq_false_2 by auto.
    destruct (last_write (KV_Key kv) (Writes u)) as [kv'|]; [|by destruct (Hl kv)].
    destruct Hl as [Hin' Hk']. by rewrite (Hw kv' kv).
  - intros Hk Hd. rewrite bool_decide_eq_false_2 by done.
    destruct (last_write k (Writes u)) as [kv|]; [|done]. destruct Hl as [Hin <-].
    destruct Hk. by apply list_elem_of_fmap_2.
Qed.

(** The entries kept and created are the entries of the new values. *)
Lemma index_sets db n u index (new old del : list string) s :
  functional_updates u → keys_utf8 db n → (∀ kv, kv ∈ Writes u → utf8_valid (KV_Key kv) = true) →
  (s ∈ new ↔ ∃ kv, kv ∈ Writes u ∧ indexes index (KV_Key kv) (KV_Value kv) s) →
  (s ∈ old ↔ ∃ k v m, k ∈ KV_Key <$> Writes u ∧ Get db n k = Ok (v, m) ∧ indexes index k v s) →
  (s ∈ del ↔ ∃ k v m, k ∈ Deletes u ∧ Get db n k = Ok (v, m) ∧ indexes index k v s) →
  ¬ ((s ∈ old ∧ s ∉ new) ∨ s ∈ del) ∧
  ((s ∈ new ∧ s ∉ old) ∨ ∃ k v m, Get db n k = Ok (v, m) ∧ indexes index k v s) ↔
  ∃ k v m, get_after (Get db n k) u k = Ok (v, m) ∧ indexes index k v s.
Proof.
  intros Hnd Hku Hwu Hnew Hold Hdel.
  assert (Hiu : ∀ k v m, Get db n k = Ok (v, m) → indexes index k v s → utf8_valid k = true).
  { intros k v m Hg Hi. apply (Hku k v m Hg). intros ->. by apply indexes_empty in Hi. }
  assert (Hga : ∀ k, _) by (intros k; exact (get_after_unique (Get db n k) u k Hnd)).
  assert (Hfromnew : s ∈ new → ∃ k v m, get_after (Get db n k) u k = Ok (v, m) ∧ indexes index k v s).
  { intros (kv & Hin & Hi)%Hnew. destruct (Hga (KV_Key kv)) as (_ & Hw & _).
    exists (KV_Key kv), (KV_Value kv), (KV_Metadata kv). eauto. }
  split.
  - intros [Hno [[Hn _]|(k & v & m & Hg & Hi)]]; [by apply Hfromnew|].
    destruct (Hga k) as (_ & _ & Hsame).
    destruct (decide (k ∈ Deletes u)) as [Hkd|Hkd].
    { destruct Hno. right. apply Hdel. eauto 10. }
    destruct (decide (k ∈ KV_Key <$> Writes u)) as [Hkw|Hkw].
    { apply Hfromnew. destruct (decide (s ∈ new)) as [|Hnn]; [done|].
      destruct Hno. left. split; [|done]. apply Hold. eauto 10. }
    exists k, v, m. by rewrite Hsame.
  - intros (k & v & m & Hg & Hi). destruct (Hga k) as (Hd & Hw & Hsame).
    destruct (decide (k ∈ Deletes u)) as [Hkd|Hkd].
    { rewrite (Hd Hkd) in Hg. injection Hg as <- <-. by apply indexes_empty in Hi. }
    assert (Hk : utf8_valid k = true).
    { destruct (decide (k ∈ KV_Key <$> Writes u)) as [Hkw|Hkw]; [|rewrite Hsame in Hg by done; by eapply Hiu].
      apply list_elem_of_fmap in Hkw as (kv & -> & Hin). by apply Hwu. }
    assert (Hsamekey : ∀ k' v' m', Get db n k' = Ok (v', m') → indexes index k' v' s → k' = k).
    { intros k' v' m' Hg' Hi'. eapply indexes_key; [by eapply Hiu|done..]. }
    assert (Hnodel : s ∉ del).
    { intros (k' & v' & m' & Hk' & Hg' & Hi')%Hdel. by rewrite (Hsamekey _ _ _ Hg' Hi') in Hk'. }
    destruct (decide (k ∈ KV_Key <$> Writes u)) as [Hkw|Hkw].
    + apply list_elem_of_fmap in Hkw as (kv & -> & Hin). rewrite (Hw kv Hin eq_refl) in Hg. injection Hg as <- <-.
      assert (Hs : s ∈ new) by (apply Hnew; eauto). split; [naive_solver|].
      destruct (decide (s ∈ old)) as [Ho|]; [|by left]. right. apply Hold in Ho. naive_solver.
    + rewrite Hsame in Hg by done. split; [|by eauto 10]. intros [[Ho _]|?]; [|done].
      apply Hold in Ho as (k' & v' & m' & Hk' & Hg' & Hi'). by rewrite (Hsamekey _ _ _ Hg' Hi') in Hk'.
Qed.

Lemma keys_utf8_after db n u k v m :
  functional_updates u → keys_utf8 db n → (∀ kv, kv ∈ Writes u → utf8_valid (KV_Key kv) = true) →
  get_after (Get db n k) u k = Ok (v, m) → v ≠ [] → utf8_valid k = true.
Proof.
  intros Hnd Hku Hwu Hg Hv. destruct (get_after_unique (Get db n k) u k Hnd) as (Hd & Hw & Hsame).
  destruct (decide (k ∈ Deletes u)) as [Hkd|Hkd]; [rewrite (Hd Hkd) in Hg; congruence|].
  destruct (decide (k ∈ KV_Key <$> Writes u)) as [Hkw|Hkw].
  - apply list_elem_of_fmap in Hkw as (kv & -> & Hin). by apply Hwu.
  - rewrite Hsame in Hg by done. by eapply Hku.
Qed.

(** Committing a block with its index updates keeps the index exact. *)
Lemma index_exact_commit db db' ups idx n blk u def meta index :
  ConstructIndexEntries ups db = Ok idx → Commit db (idx ∪ ups) blk = (db', Ok tt) →
  ups !! DatabasesDBName = None → ups !! n = Some u → ups !! IndexDB n = None →
  (∀ n', n ≠ IndexDB n') → n ≠ MetadataDBName → functional_updates u →
  GetIndexDefinition db n = Ok (def, meta) → def ≠ [] → UnmarshalIndexDef def = Ok index →
  (∀ s, is_ok (Has db (IndexDB n) s) = true) →
  keys_utf8 db n → (∀ kv, kv ∈ Writes u → utf8_valid (KV_Key kv) = true) →
  index_exact db n index → index_exact db' n index ∧ keys_utf8 db' n.
Proof.
  intros Hidx Hc Hdbs Hu Hui Hnot Hmeta Hnd Hdef Hne Hun Hok Hku Hwu Hex.
  destruct (ConstructIndexEntries_lookup _ _ _ Hidx) as [Hl Hinv].
  destruct (Hl n u Hu) as (o & Ho & Hio).
  assert (Hnodbs : (idx ∪ ups) !! DatabasesDBName = None).
  { apply lookup_union_None. split; [|done]. destruct (idx !! DatabasesDBName) eqn:E; [|done].
    apply Hinv in E as (? & ? & _). done. }
  assert (Hupd : (idx ∪ ups) !! n = Some u).
  { rewrite lookup_union_r; [done|]. destruct (idx !! n) eqn:E; [|done].
    apply Hinv in E as (n' & ? & _). by destruct (Hnot n'). }
  assert (Hupi : (idx ∪ ups) !! IndexDB n = o).
  { destruct o; [by apply lookup_union_Some_l|]. by apply lookup_union_None. }
  destruct (indexUpdatesFor_elem _ _ _ _ _ _ _ Hdef Hne Hun Ho) as (new & old & del & Hnew & Hold & Hdel & Hw & Hd).
  assert (Hhas : ∀ s, Has db' (IndexDB n) s = Ok true ↔
    s ∉ opt_deletes o ∧ (s ∈ opt_writes o ∨ Has db (IndexDB n) s = Ok true)).
  { intros s. rewrite (commit_has _ _ _ _ _ _ Hc Hnodbs) by done. rewrite Hupi.
    destruct o as [u'|]; cbn; [apply has_after_true, Hok|set_solver]. }
  assert (Hget : ∀ k, Get db' n k = get_after (Get db n k) u k).
  { intros k. rewrite (commit_get _ _ _ _ _ _ Hc Hnodbs Hmeta). by rewrite Hupd. }
  split; [|intros k v m Hg Hv; rewrite Hget in Hg; by eapply keys_utf8_after].
  intros s. rewrite Hhas, Hw, Hd, (Hex s). setoid_rewrite Hget. by apply index_sets.
Qed.

End IndexExact.
