(* ===== verification/Committer.v ===== *)
(** * Committing a block to the world state

    [internal/blockprocessor/committer.go]: the world state updates and the
    provenance records of a validated block, and their commit together with the
    index updates. *)

From S2P Require Import Prelude Types WorldState Identity UserTxValidator DbEntries StateIndex.

(** ** Data transactions *)

Definition dataWriteEntry (version : Version) (w : option DataWrite) : res KVWithMetadata :=
  w ← deref w;
  Ok (mkKVWithMetadata (DW_Key w) (DW_Value w) (Some (mkMetadata (Some version) (DW_Acl w)))).

Definition AddDBEntriesForDataTx (tx : DataTx) (version : Version) (dbsUpdates : gmap string DBUpdates)
    : res (gmap string DBUpdates) :=
  res_foldM (fun (dbsUpdates : gmap string DBUpdates) ops =>
    let updates := default (mkDBUpdates [] []) (dbsUpdates !! DbName ops) in
    writes ← res_mapM (dataWriteEntry version) (DataWrites ops);
    deletes ← res_mapM (fun d => d ← deref d; Ok (DD_Key d)) (DataDeletes ops);
    Ok (<[DbName ops := mkDBUpdates (Writes updates ++ writes) (Deletes updates ++ deletes)]> dbsUpdates))
    dbsUpdates (DbOperations tx).

Section Committer.
Context `{!WorldState D, !Codec User, !Codec NodeConfig, !Codec ClusterConfig} {mr : MapRange}.
Implicit Types (db : D).

(** Old versions of the written keys; a key that does not exist has none. *)
Definition provDataWrite db (dbName : string) (version : Version) (pData : TxDataForProvenance)
    (w : option DataWrite) : res TxDataForProvenance :=
  w ← deref w;
  let kv := mkKVWithMetadata (DW_Key w) (DW_Value w) (Some (mkMetadata (Some version) (DW_Acl w))) in
  v ← GetVersion db dbName (DW_Key w);
  let old := match v with
             | None => PD_OldVersionOfWrites pData
             | Some _ => <[DW_Key w := v]> (PD_OldVersionOfWrites pData)
             end in
  Ok (mkTxDataForProvenance (PD_IsValid pData) (PD_DBName pData) (PD_UserID pData) (PD_TxID pData)
        (PD_Reads pData) (PD_Writes pData ++ [kv]) (PD_Deletes pData) old).

Definition constructProvenanceEntriesForDataTx db (tx : DataTx) (version : Version)
    : res (list TxDataForProvenance) :=
  res_mapM (fun ops =>
    userID ← match MustSignUserIds tx with
             | [] => Panic "index out of range [0] with length 0"
             | u :: _ => Ok u
             end;
    let pData := mkTxDataForProvenance true (DbName ops) userID (DTx_TxId tx)
                   ((fun r => mkKeyWithVersion (DR_Key r) (DR_Version r)) <$> DataReads ops) [] ∅ ∅ in
    pData ← res_foldM (provDataWrite db (DbName ops) version) pData (DataWrites ops);
    res_foldM (fun pData d =>
      d ← deref d; v ← GetVersion db (DbName ops) (DD_Key d);
      Ok (addProvDelete pData (DD_Key d) v)) pData (DataDeletes ops)) (DbOperations tx).

(** ** Database administration transactions *)

Definition dbEntry (key : string) (value : bytes) (version : Version) : KVWithMetadata :=
  mkKVWithMetadata key value (Some (mkMetadata (Some version) None)).

(** [dbIndex.GetAttributeAndType()] *)
Definition GetAttributeAndType (d : option DBIndex) : gmap string IndexAttributeType :=
  match d with Some d => AttributeAndType d | None => ∅ end.

(** The processed index is deleted from the transaction's own map, which the caller
    and the block share: the map that is left is returned with the entries. *)
Fixpoint createEntriesForNewDBs (newDBs : list string) (dbsIndex : gmap string (option DBIndex)) (version : Version)
    : res (list KVWithMetadata * gmap string (option DBIndex)) :=
  match newDBs with
  | [] => Ok ([], dbsIndex)
  | dbName :: newDBs =>
    match dbsIndex !! dbName with
    | None =>
      '(rest, dbsIndex) ← createEntriesForNewDBs newDBs dbsIndex version;
      Ok (dbEntry dbName [] version :: rest, dbsIndex)
    | Some dbIndex =>
      value ← wrap_err ("error while marshaling index for database [" +:+ dbName +:+ "]")
                (MarshalIndexDef (GetAttributeAndType dbIndex));
      '(rest, dbsIndex) ← createEntriesForNewDBs newDBs (delete dbName dbsIndex) version;
      Ok (dbEntry dbName value version :: dbEntry (IndexDB dbName) [] version :: rest, dbsIndex)
    end
  end.

Definition createEntriesForIndexUpdates (dbsIndex : gmap string (option DBIndex)) db (version : Version)
    : res (list KVWithMetadata * list string) :=
  res_foldM (fun '(indexForExistingDBs, toDeleteDBs) '(dbName, dbIndex) =>
    let indexExist := Exist db (IndexDB dbName) in
    let deleteExistingIndex := bool_decide (GetAttributeAndType dbIndex = ∅) in
    let value := wrap_err ("error while marshaling index for database [" +:+ dbName +:+ "]")
                   (MarshalIndexDef (GetAttributeAndType dbIndex)) in
    if negb indexExist && deleteExistingIndex then Ok (indexForExistingDBs, toDeleteDBs)
    else if indexExist && deleteExistingIndex then
      Ok (indexForExistingDBs ++ [dbEntry dbName [] version], toDeleteDBs ++ [IndexDB dbName])
    else if indexExist then
      v ← value; Ok (indexForExistingDBs ++ [dbEntry dbName v version], toDeleteDBs)
    else
      v ← value;
      Ok (indexForExistingDBs ++ [dbEntry (IndexDB dbName) [] version; dbEntry dbName v version], toDeleteDBs))
    ([], []) (range dbsIndex).

(** The updates, and what is left of the transaction's index map. *)
Definition constructDBEntriesForDBAdminTx (tx : DBAdministrationTx) (version : Version) db
    : res (DBUpdates * gmap string (option DBIndex)) :=
  '(toCreateDBs, dbsIndex) ← createEntriesForNewDBs (CreateDbs tx) (DbsIndex tx) version;
  '(indexForExistingDBs, toDeleteIndexDBs) ← createEntriesForIndexUpdates dbsIndex db version;
  Ok (mkDBUpdates (toCreateDBs ++ indexForExistingDBs) (DeleteDbs tx ++ toDeleteIndexDBs), dbsIndex).

(** ** Configuration transactions *)

Record dbEntriesForConfigTx := mkDbEntriesForConfigTx {
  adminUpdates : option DBUpdates;
  nodeUpdates : option DBUpdates;
  configUpdates : DBUpdates;
}.

(** [m.GetRaftId()] *)
Definition GetRaftId (m : option PeerConfig) : Z := match m with Some m => RaftId m | None => 0 end.

(** [oldConfig.GetConsensusConfig().GetRaftConfig().GetMaxRaftId()] *)
Definition GetMaxRaftId (c : ClusterConfig) : Z :=
  match Consensus c with
  | Some cc => match CC_RaftConfig cc with Some rc => MaxRaftId rc | None => 0 end
  | None => 0
  end.

Definition newMaxRaftId (oldConfig newConfig : ClusterConfig) : Z :=
  foldl (fun maxID m => if Z.ltb maxID (GetRaftId m) then GetRaftId m else maxID) (GetMaxRaftId oldConfig)
    (match Consensus newConfig with Some cc => Members cc | None => [] end).

(** [newConfigClone.ConsensusConfig.RaftConfig.MaxRaftId = maxID] *)
Definition setMaxRaftId (c : ClusterConfig) (maxID : Z) : res ClusterConfig :=
  cc ← deref (Consensus c);
  rc ← deref (CC_RaftConfig cc);
  Ok (mkClusterConfig (Nodes c) (Admins c) (CertAuthConfig c)
        (Some (mkConsensusConfig (Algorithm cc) (Members cc) (Observers cc)
          (Some (mkRaftConfig (TickInterval rc) (ElectionTicks rc) (HeartbeatTicks rc) (MaxInflightBlocks rc)
                   (SnapshotIntervalSize rc) maxID)))) (Ledger c)).

Definition constructDBEntriesForConfigTx (tx : ConfigTx) (oldConfig : ClusterConfig) (version : Version)
    : res dbEntriesForConfigTx :=
  newConfig ← deref (NewConfig tx);
  adminUpdates ← ConstructDBEntriesForClusterAdmins (Admins oldConfig) (Admins newConfig) version;
  nodeUpdates ← ConstructDBEntriesForNodes (Nodes oldConfig) (Nodes newConfig) version;
  newConfigClone ← setMaxRaftId newConfig (newMaxRaftId oldConfig newConfig);
  newConfigSerialized ← wrap_err "error while marshaling new configuration" (Marshal newConfigClone);
  Ok (mkDbEntriesForConfigTx adminUpdates nodeUpdates
        (mkDBUpdates [dbEntry ConfigKey newConfigSerialized version] [])).

Definition constructProvenanceEntriesForConfigTx (tx : ConfigTx) (version : Version)
    (updates : dbEntriesForConfigTx) db : res (list TxDataForProvenance) :=
  newConfig ← deref (NewConfig tx);
  configSerialized ← wrap_err "error while marshaling new cluster configuration" (Marshal newConfig);
  let configTxPData := mkTxDataForProvenance true ConfigDBName (CTx_UserId tx) (CTx_TxId tx) []
        [dbEntry ConfigKey configSerialized version] ∅
        (match ReadOldConfigVersion tx with
         | None => ∅
         | Some v => {[ConfigKey := Some v]}
         end) in
  adminsPData ← wrap_err "error while constructing provenance entries for cluster admins"
    (ConstructProvenanceEntriesForClusterAdmins (CTx_UserId tx) (CTx_TxId tx) (adminUpdates updates) db);
  nodesPData ← wrap_err "error while constructing provenance entries for nodes"
    (ConstructProvenanceEntriesForNodes (CTx_UserId tx) (CTx_TxId tx) (nodeUpdates updates) db);
  Ok [configTxPData; adminsPData; nodesPData].

(** The updates of a configuration block, by database. *)
Definition configDBsUpdates (e : dbEntriesForConfigTx) : gmap string DBUpdates :=
  let config := match nodeUpdates e with
                | Some n => mkDBUpdates (Writes (configUpdates e) ++ Writes n) (Deletes (configUpdates e) ++ Deletes n)
                | None => configUpdates e
                end in
  let m := {[ConfigDBName := config]} in
  match adminUpdates e with
  | Some a => <[UsersDBName := a]> m
  | None => m
  end.

(** ** The block *)

(** The data transactions of a block, from number [txNum] on. *)
Fixpoint dataEntries db (provenance : bool) (blockNum : Z) (txNum : nat) (infos : list ValidationInfo)
    (envs : list DataTxEnvelope) (dbsUpdates : gmap string DBUpdates) (pData : list TxDataForProvenance)
    : res (gmap string DBUpdates * list TxDataForProvenance) :=
  match infos with
  | [] => Ok (dbsUpdates, pData)
  | info :: infos =>
    match envs with
    | [] =>
      if bool_decide (VI_Flag info ≠ VALID) && negb provenance then
        dataEntries db provenance blockNum (S txNum) infos [] dbsUpdates pData
      else Panic "index out of range"
    | env :: envs =>
      let tx := DEnv_Payload env in
      if bool_decide (VI_Flag info ≠ VALID) then
        dataEntries db provenance blockNum (S txNum) infos envs dbsUpdates
          (if provenance then pData ++ [invalidTxData (DTx_TxId tx)] else pData)
      else
        let version := mkVersion blockNum (Z.of_nat txNum) in
        newData ← (if provenance then constructProvenanceEntriesForDataTx db tx version else Ok []);
        dbsUpdates ← AddDBEntriesForDataTx tx version dbsUpdates;
        dataEntries db provenance blockNum (S txNum) infos envs dbsUpdates (pData ++ newData)
    end
  end.

Definition firstInfo (infos : list ValidationInfo) : res ValidationInfo :=
  match infos with
  | [] => Panic "index out of range [0] with length 0"
  | i :: _ => Ok i
  end.

(** The block with the index map of its database administration transaction replaced. *)
Definition with_dbs_index (block : Block) (env : DBAdministrationTxEnvelope)
    (dbsIndex : gmap string (option DBIndex)) : Block :=
  let tx := DBEnv_Payload env in
  mkBlock (Header block)
    (Some (Block_DbAdministrationTxEnvelope
      (mkDBAdministrationTxEnvelope
        (mkDBAdministrationTx (DBTx_UserId tx) (DBTx_TxId tx) (CreateDbs tx) (DeleteDbs tx) dbsIndex)
        (DBEnv_Signature env)))) (Block_ConsensusMetadata block).

(** The updates and provenance data of a block, and the block as it is left. *)
Definition constructDBAndProvenanceEntries db (provenance : bool) (block : Block)
    : res (gmap string DBUpdates * list TxDataForProvenance * Block) :=
  let infos := ValidationInfos (Header block) in
  let blockNum := Number (BaseHeader (Header block)) in
  let version := mkVersion blockNum 0 in
  match Payload block with
  | Some (Block_DataTxEnvelopes envs) =>
    '(ups, pData) ← dataEntries db provenance blockNum 0 infos envs ∅ [];
    Ok (ups, pData, block)
  | Some (Block_UserAdministrationTxEnvelope env) =>
    let tx := UEnv_Payload env in
    info ← firstInfo infos;
    if bool_decide (VI_Flag info ≠ VALID) then
      Ok (∅, if provenance then [invalidTxData (UTx_TxId tx)] else [], block)
    else
      entries ← wrap_err "error while creating entries for the user admin transaction"
                  (ConstructDBEntriesForUserAdminTx tx version);
      pData ← (if provenance then
                 p ← wrap_err "error while creating provenance entries for the user admin transaction"
                       (ConstructProvenanceEntriesForUserAdminTx tx version db);
                 Ok [p]
               else Ok []);
      Ok ({[UsersDBName := entries]}, pData, block)
  | Some (Block_DbAdministrationTxEnvelope env) =>
    info ← firstInfo infos;
    if bool_decide (VI_Flag info ≠ VALID) then Ok (∅, [], block)
    else
      '(entries, dbsIndex) ← wrap_err "error while creating entries for db admin transaction"
                               (constructDBEntriesForDBAdminTx (DBEnv_Payload env) version db);
      Ok ({[DatabasesDBName := entries]}, [], with_dbs_index block env dbsIndex)
  | Some (Block_ConfigTxEnvelope env) =>
    let tx := CEnv_Payload env in
    info ← firstInfo infos;
    if bool_decide (VI_Flag info ≠ VALID) then Ok (∅, [invalidTxData (CTx_TxId tx)], block)
    else
      '(committedConfig, _) ← wrap_err "error while fetching committed configuration" (GetConfig db);
      entries ← wrap_err "error while constructing entries for the config transaction"
                  (constructDBEntriesForConfigTx tx committedConfig version);
      pData ← (if provenance then
                 wrap_err "error while creating provenance entries for the config transaction"
                   (constructProvenanceEntriesForConfigTx tx version entries db)
               else Ok []);
      Ok (configDBsUpdates entries, pData, block)
  | None => Ok (∅, [], block)
  end.

(** The index updates override: [dbsUpdates[indexDB] = updates]. *)
Definition commitToStateDB db (blockNum : Z) (dbsUpdates : gmap string DBUpdates) : D * res unit :=
  match wrap_err "failed to create index updates" (ConstructIndexEntries dbsUpdates db) with
  | Ok indexUpdates =>
    let '(db', r) := Commit db (indexUpdates ∪ dbsUpdates) blockNum in
    (db', wrap_err ("failed to commit block " +:+ pretty blockNum +:+ " to state database") r)
  | Err e => (db, Err e)
  | Panic w => (db, Panic w)
  end.

End Committer.
