(* ===== verification/CommitProofs.v ===== *)
(** * What committing a block does to the world state

    The updates of a validated block are exactly the effect of executing its
    valid transactions one after the other; indexes stay exact; the Raft IDs of
    the committed configuration only grow. *)

From S2P Require Import Prelude Types JSON JSONPrint WorldState LevelDB Identity Validation.
From S2P Require Import DataTxValidator DataTxProofs UserTxValidator DbTxValidator ReConfig ConfigTxValidator.
From S2P Require Import Instances Validator BlockIsolation AdminTx DbEntries IndexEncoding StateIndex Committer.

(** ** The updates of data transactions *)

(** The entry of a write, and the updates of a database. *)
Definition entry_of (version : Version) (w : DataWrite) : KVWithMetadata :=
  mkKVWithMetadata (DW_Key w) (DW_Value w) (Some (mkMetadata (Some version) (DW_Acl w))).

Definition has_write (ups : gmap string DBUpdates) (n : string) (kv : KVWithMetadata) : Prop :=
  ∃ u, ups !! n = Some u ∧ kv ∈ Writes u.
Definition has_delete (ups : gmap string DBUpdates) (n k : string) : Prop :=
  ∃ u, ups !! n = Some u ∧ k ∈ Deletes u.

#[export] Instance has_delete_dec ups n k : Decision (has_delete ups n k).
Proof.
  refine (match ups !! n as x return ups !! n = x → _ with
          | Some u => fun E => cast_if (decide (k ∈ Deletes u))
          | None => fun E => right _
          end eq_refl); abstract (unfold has_delete; naive_solver).
Defined.

Lemma dataWriteEntries_ok version ws kvs :
  res_mapM (dataWriteEntry version) ws = Ok kvs → kvs = entry_of version <$> omap id ws.
Proof.
  revert kvs. induction ws as [|w ws IH]; intros kvs H; cbn in H.
  - by simplify_eq.
  - apply bind_ok_inv in H as (kv & Hkv & H). apply bind_ok_inv in H as (kvs' & H & [= <-]).
    unfold dataWriteEntry in Hkv. inv_res. subst. cbn. f_equal. by apply IH.
Qed.

Lemma dataDeletes_ok (ds : list (option DataDelete)) ks :
  res_mapM (fun d => d ← deref d; Ok (DD_Key d)) ds = Ok ks → ks = DD_Key <$> omap id ds.
Proof.
  revert ks. induction ds as [|d ds IH]; intros ks H; cbn in H.
  - by simplify_eq.
  - inv_res. subst. cbn. f_equal. by apply IH.
Qed.

(** Appending writes and deletes to the updates of a database. *)
Definition append_updates (ups : gmap string DBUpdates) (n : string) (ws : list KVWithMetadata) (ds : list string)
    : gmap string DBUpdates :=
  let u := default (mkDBUpdates [] []) (ups !! n) in
  <[n := mkDBUpdates (Writes u ++ ws) (Deletes u ++ ds)]> ups.

Lemma has_write_append ups m ws ds n kv :
  has_write (append_updates ups m ws ds) n kv ↔ has_write ups n kv ∨ (m = n ∧ kv ∈ ws).
Proof.
  unfold has_write, append_updates. destruct (decide (m = n)) as [<-|Hne].
  - rewrite lookup_insert_eq. split.
    + intros (u & [= <-] & [Hin|Hin]%elem_of_app); [|by auto].
      left. destruct (ups !! m) as [u|] eqn:E; [by eauto|by apply elem_of_nil in Hin].
    + intros [(u & -> & Hin)|(_ & Hin)]; eexists; (split; [done|]); cbn; apply elem_of_app; auto.
  - rewrite lookup_insert_ne by done. naive_solver.
Qed.

Lemma has_delete_append ups m ws ds n k :
  has_delete (append_updates ups m ws ds) n k ↔ has_delete ups n k ∨ (m = n ∧ k ∈ ds).
Proof.
  unfold has_delete, append_updates. destruct (decide (m = n)) as [<-|Hne].
  - rewrite lookup_insert_eq. split.
    + intros (u & [= <-] & [Hin|Hin]%elem_of_app); [|by auto].
      left. destruct (ups !! m) as [u|] eqn:E; [by eauto|by apply elem_of_nil in Hin].
    + intros [(u & -> & Hin)|(_ & Hin)]; eexists; (split; [done|]); cbn; apply elem_of_app; auto.
  - rewrite lookup_insert_ne by done. naive_solver.
Qed.

Lemma is_Some_append ups m ws ds n :
  is_Some (append_updates ups m ws ds !! n) ↔ is_Some (ups !! n) ∨ m = n.
Proof.
  unfold append_updates. destruct (decide (m = n)) as [<-|Hne].
  - rewrite lookup_insert_eq. split; eauto.
  - rewrite lookup_insert_ne by done. naive_solver.
Qed.

Lemma AddDBEntriesForDataTx_ok tx version ups ups' :
  AddDBEntriesForDataTx tx version ups = Ok ups' →
  (∀ n, is_Some (ups' !! n) ↔ is_Some (ups !! n) ∨ ∃ o, o ∈ DbOperations tx ∧ DbName o = n) ∧
  (∀ n kv, has_write ups' n kv ↔ has_write ups n kv ∨
     ∃ o w, o ∈ DbOperations tx ∧ DbName o = n ∧ Some w ∈ DataWrites o ∧ kv = entry_of version w) ∧
  (∀ n k, has_delete ups' n k ↔ has_delete ups n k ∨
     ∃ o, o ∈ DbOperations tx ∧ DbName o = n ∧ k ∈ delete_keys o).
Proof.
  unfold AddDBEntriesForDataTx. generalize (DbOperations tx). intros ops.
  revert ups. induction ops as [|o ops IH]; intros ups H; cbn in H.
  - simplify_eq. split_and!; set_solver.
  - apply bind_ok_inv in H as (ups1 & H1 & H). apply bind_ok_inv in H1 as (ws & Hw & H1).
    apply bind_ok_inv in H1 as (ds & Hd & H1). injection H1 as <-.
    apply dataWriteEntries_ok in Hw as ->. apply dataDeletes_ok in Hd as ->.
    change (<[DbName o := ?u]> ups) with (append_updates ups (DbName o) (entry_of version <$> omap id (DataWrites o))
      (DD_Key <$> omap id (DataDeletes o))) in H.
    apply IH in H as (IHs & IHw & IHd). clear IH. setoid_rewrite elem_of_cons. split_and!.
    + intros n. rewrite IHs, is_Some_append. naive_solver.
    + intros n kv. rewrite IHw, has_write_append, list_elem_of_fmap. setoid_rewrite elem_of_omap_id. naive_solver.
    + intros n k. rewrite IHd, has_delete_append. unfold delete_keys. naive_solver.
Qed.

(** Transaction [j] of the list is valid and is [env]. *)
Definition valid_at (envs : list DataTxEnvelope) (infos : list ValidationInfo) (j : nat) (env : DataTxEnvelope) : Prop :=
  envs !! j = Some env ∧ ∃ info, infos !! j = Some info ∧ VI_Flag info = VALID.

Lemma valid_at_cons env0 envs info0 infos j env :
  valid_at (env0 :: envs) (info0 :: infos) j env ↔
  (j = 0 ∧ env = env0 ∧ VI_Flag info0 = VALID) ∨ ∃ j', j = S j' ∧ valid_at envs infos j' env.
Proof. unfold valid_at. destruct j as [|j]; cbn; naive_solver. Qed.

Section CommitProofs.
Context `{!WorldState D, !Codec ClusterConfig, !WorldStateLaws D, !Codec User, !Codec NodeConfig,
  !TxMarshal DataTx, !TxMarshal UserAdministrationTx, !TxMarshal DBAdministrationTx, !TxMarshal ConfigTx}
  {x509 : X509} {mr : MapRange} {nt : NetTime}.
Implicit Types (db : D).

(** The updates hold the writes and deletes of the valid transactions, each with
    the version of its transaction. *)
Lemma dataEntries_ok db prov b i infos envs ups pd ups' pd' :
  dataEntries db prov b i infos envs ups pd = Ok (ups', pd') →
  (∀ n, is_Some (ups' !! n) ↔ is_Some (ups !! n) ∨
     ∃ j env o, valid_at envs infos j env ∧ o ∈ DbOperations (DEnv_Payload env) ∧ DbName o = n) ∧
  (∀ n kv, has_write ups' n kv ↔ has_write ups n kv ∨
     ∃ j env o w, valid_at envs infos j env ∧ o ∈ DbOperations (DEnv_Payload env) ∧ DbName o = n ∧
       Some w ∈ DataWrites o ∧ kv = entry_of (mkVersion b (Z.of_nat (i + j))) w) ∧
  (∀ n k, has_delete ups' n k ↔ has_delete ups n k ∨
     ∃ j env, valid_at envs infos j env ∧ deletes_key env n k).
Proof.
  revert i envs ups pd. induction infos as [|info infos IH]; intros i envs ups pd H; cbn in H.
  - simplify_eq. unfold valid_at. split_and!; naive_solver.
  - destruct envs as [|env envs].
    { destruct (_ && _); [|done]. apply IH in H as (H1 & H2 & H3). clear IH.
      unfold valid_at in *. split_and!; [setoid_rewrite H1|setoid_rewrite H2|setoid_rewrite H3]; naive_solver. }
    setoid_rewrite valid_at_cons. case_bool_decide as Hv.
    + apply IH in H as (H1 & H2 & H3). clear IH. split_and!.
      * intros n. rewrite H1. clear H1 H2 H3. naive_solver.
      * intros n kv. setoid_rewrite Nat.add_succ_comm in H2. rewrite H2. clear H1 H2 H3. naive_solver.
      * intros n k. rewrite H3. clear H1 H2 H3. naive_solver.
    + apply bind_ok_inv in H as (nd & _ & H). apply bind_ok_inv in H as (ups1 & Ha & H).
      apply AddDBEntriesForDataTx_ok in Ha as (A1 & A2 & A3). apply IH in H as (H1 & H2 & H3). clear IH.
      unfold deletes_key in *. split_and!.
      * intros n. rewrite H1, A1. clear - Hv. naive_solver.
      * intros n kv. setoid_rewrite Nat.add_succ_comm in H2. rewrite H2, A2. clear - Hv. split.
        -- intros [[?|(o & w & ?)]|(j & e & o & w & ?)]; [by left| |naive_solver].
           right. exists 0, env, o, w. rewrite Nat.add_0_r. naive_solver.
        -- intros [?|(j & e & o & w & [(-> & -> & _)|(j' & -> & ?)] & ?)]; [naive_solver| |naive_solver].
           rewrite Nat.add_0_r in *. naive_solver.
      * intros n k. rewrite H3, A3. clear - Hv. naive_solver.
Qed.

(** ** Serial execution of a key *)

Lemma execute_serially_at b i txs st n k j env info :
  txs !! j = Some (env, info) → is_valid info = true →
  (∀ j' env' info', j' ≠ j → txs !! j' = Some (env', info') → is_valid info' = true → ¬ modifies_key env' n k) →
  ∃ st', execute_serially b i txs st n k = execute b (i + j) env st' n k.
Proof.
  revert i st j. induction txs as [|[e inf] txs IH]; intros i st j Hj Hv Hoth; [done|].
  cbn. destruct j as [|j].
  - cbn in Hj. simplify_eq. rewrite Hv, execute_serially_other, Nat.add_0_r; [by eauto|].
    intros e' inf' [j' Hj']%list_elem_of_lookup Hv'. eapply (Hoth (S j')); eauto.
  - destruct (IH (S i) (if is_valid inf then execute b i e st else st) j Hj Hv) as [st' Hst'].
    + intros j' e' inf' Hne Hj'. apply (Hoth (S j')); [congruence|done].
    + exists st'. rewrite Hst'. by replace (S i + j) with (i + S j) by lia.
Qed.

(** A write of a valid transaction is the only one of its key in the transaction. *)
Lemma valid_write_unique db env prior n k o w w' :
  data_tx_valid db env prior → find_write env n k = Some w' →
  o ∈ DbOperations (DEnv_Payload env) → DbName o = n → Some w ∈ DataWrites o → DW_Key w = k → w = w'.
Proof.
  intros (_ & us & _ & [Hdbs Hops]) Hf Ho Hn Hw Hk.
  apply find_write_some in Hf as (o' & Ho' & Hn' & Hw' & Hk').
  assert (o' = o) as -> by (eapply (NoDup_fmap_elem DbName); [done..|congruence]).
  destruct (Hops o Ho) as (_ & acc & _ & [_ _ Hu _ _ _ _] & _).
  unfold modified_keys, write_keys in Hu. apply NoDup_app in Hu as [Hu _].
  rewrite <- elem_of_omap_id in Hw, Hw'. eapply (NoDup_fmap_elem DW_Key); [done..|congruence].
Qed.

(** A key that a valid transaction writes is not one it deletes. *)
Lemma valid_write_not_delete db env prior n k :
  data_tx_valid db env prior → writes_key env n k → ¬ deletes_key env n k.
Proof.
  intros (_ & us & _ & [Hdbs Hops]) (o & Ho & Hn & Hk) (o' & Ho' & Hn' & Hk').
  assert (o' = o) as -> by (eapply (NoDup_fmap_elem DbName); [done..|congruence]).
  destruct (Hops o Ho) as (_ & acc & _ & [_ _ Hu _ _ _ _] & _).
  unfold modified_keys in Hu. apply NoDup_app in Hu as (_ & Hdis & _). by eapply Hdis.
Qed.

(** ** The updates of a validated data block *)

Section DataBlock.
Context (db : D) (block : Block) (envs : list DataTxEnvelope) (infos : list ValidationInfo).
Context (Hval : ValidateBlock db block = Ok infos) (Hng : not_genesis block).
Context (Hpay : Payload block = Some (Block_DataTxEnvelopes envs)).

Lemma valid_at_spec j env :
  valid_at envs infos j env → data_tx_valid db env (valid_before envs infos j).
Proof.
  intros (He & info & Hi & Hv). destruct (ValidateBlock_data _ _ _ _ Hval Hng Hpay) as [_ Hall].
  by apply (Hall j env info He Hi).
Qed.

Lemma valid_at_unique j j' env env' n k :
  valid_at envs infos j env → valid_at envs infos j' env' → modifies_key env n k → modifies_key env' n k →
  j = j'.
Proof.
  intros H H' Hm Hm'. destruct (Nat.lt_trichotomy j j') as [Hlt|[?|Hlt]]; [|done|]; exfalso.
  - apply (data_tx_valid_modifies _ _ _ _ _ (valid_at_spec _ _ H') Hm'). exists env. split; [|done].
    destruct H as (? & info & ? & ?). apply elem_of_valid_before. eauto 10.
  - apply (data_tx_valid_modifies _ _ _ _ _ (valid_at_spec _ _ H) Hm). exists env'. split; [|done].
    destruct H' as (? & info & ? & ?). apply elem_of_valid_before. eauto 10.
Qed.

Lemma zip_valid_at j env info :
  zip envs infos !! j = Some (env, info) → is_valid info = true → valid_at envs infos j env.
Proof.
  intros (? & ? & [= <- <-] & ? & ?)%lookup_zip_with_Some Hv%is_valid_spec. split; eauto.
Qed.

(** The content of a key after its database's updates are applied. *)
Definition after (ups : gmap string DBUpdates) (old : contents) : contents :=
  fun n k => match ups !! n with
             | Some u => if bool_decide (k ∈ Deletes u) then ([], None)
                         else match last_write k (Writes u) with
                              | Some kv => (KV_Value kv, KV_Metadata kv)
                              | None => old n k
                              end
             | None => old n k
             end.

(** Applying the updates is executing the valid transactions in order. *)
Lemma updates_serial prov ups pd st n k :
  dataEntries db prov (Number (BaseHeader (Header block))) 0 infos envs ∅ [] = Ok (ups, pd) →
  after ups st n k = execute_serially (Number (BaseHeader (Header block))) 0 (zip envs infos) st n k.
Proof.
  intros (_ & Hw & Hd)%dataEntries_ok. set (b := Number _) in *.
  assert (Hno : ∀ P Q : Prop, ¬ P → (P ∨ Q ↔ Q)) by tauto.
  setoid_rewrite Hno in Hw; [|by intros (u & ? & _)]. setoid_rewrite Hno in Hd; [|by intros (u & ? & _)].
  specialize (Hd n k). specialize (Hw n). unfold after.
  assert (Hser : ∀ j env, valid_at envs infos j env → modifies_key env n k →
    ∃ st', execute_serially b 0 (zip envs infos) st n k = execute b j env st' n k).
  { intros j env Hv Hm. destruct Hv as (He & info & Hi & Hvi) eqn:E. clear E.
    apply (execute_serially_at b 0 _ st n k j env info).
    - apply lookup_zip_with_Some. eauto.
    - by apply is_valid_spec.
    - intros j' env' info' Hne Hz Hv' Hm'. apply Hne. eapply valid_at_unique; [|split; eauto|done..].
      by eapply zip_valid_at. }
  assert (Hnone : ¬ has_delete ups n k → (∀ kv, has_write ups n kv → KV_Key kv ≠ k) →
    execute_serially b 0 (zip envs infos) st n k = st n k).
  { intros Hnd Hnw. apply execute_serially_other. intros env info [j Hj]%list_elem_of_lookup Hv.
    pose proof (zip_valid_at _ _ _ Hj Hv) as Hva. intros [(o & Ho & Hn & Hk)|Hk].
    - unfold write_keys in Hk. apply list_elem_of_fmap in Hk as (w & -> & Hin%elem_of_omap_id).
      eapply (Hnw (entry_of (mkVersion b (Z.of_nat (0 + j))) w)); [|done]. apply Hw. eauto 10.
    - apply Hnd, Hd. eauto. }
  destruct (decide (has_delete ups n k)) as [Hdel|Hnodel].
  - pose proof Hdel as (u & Hu & Hk). apply Hd in Hdel as (j & env & Hv & Hdk).
    destruct (Hser j env Hv) as [st' ->]; [by right|]. rewrite Hu, bool_decide_eq_true_2 by done.
    unfold execute. by rewrite (proj2 (deletesb_spec env n k)).
  - destruct (ups !! n) as [u|] eqn:Hu.
    2:{ symmetry. apply Hnone; [done|]. intros kv (u & ? & _). congruence. }
    rewrite bool_decide_eq_false_2 by (intros ?; apply Hnodel; by exists u).
    pose proof (last_write_elem k (Writes u)) as Hlast. destruct (last_write k (Writes u)) as [kv|].
    + destruct Hlast as [Hin Hk]. assert (Hhw : has_write ups n kv) by (by exists u).
      apply Hw in Hhw as (j & env & o & w & Hv & Ho & Hn & Hw' & ->). cbn in Hk.
      assert (Hwk : writes_key env n k).
      { exists o. split_and!; [done..|]. unfold write_keys. rewrite <- Hk.
        by apply list_elem_of_fmap_2, elem_of_omap_id. }
      destruct (Hser j env Hv) as [st' ->]; [by left|]. unfold execute.
      destruct (deletesb env n k) eqn:Ed.
      { apply deletesb_spec in Ed. by destruct (valid_write_not_delete _ _ _ _ _ (valid_at_spec _ _ Hv) Hwk). }
      destruct (find_write env n k) as [w'|] eqn:Ef; [|by apply find_write_none in Ef].
      by rewrite (valid_write_unique _ _ _ _ _ _ _ _ (valid_at_spec _ _ Hv) Ef Ho Hn Hw' Hk).
    + symmetry. apply Hnone; [done|]. intros kv (u' & Hu' & Hin). rewrite Hu in Hu'. injection Hu' as <-. auto.
Qed.

(** A validated data block updates no system database. *)
Lemma updates_not_system prov ups pd n :
  dataEntries db prov (Number (BaseHeader (Header block))) 0 infos envs ∅ [] = Ok (ups, pd) →
  IsSystemDB n = true → ups !! n = None.
Proof.
  intros (Hs & _)%dataEntries_ok Hn. apply eq_None_not_Some. intros Hi. apply Hs in Hi as [[? ?]|Hi]; [done|].
  destruct Hi as (j & env & o & Hv & Ho & <-). apply valid_at_spec in Hv as (_ & us & _ & [_ Hops]).
  destruct (Hops o Ho) as ([_ _ Hsys] & _). congruence.
Qed.

(** Each key gets one outcome from a validated data block. *)
Lemma updates_functional prov ups pd n u :
  dataEntries db prov (Number (BaseHeader (Header block))) 0 infos envs ∅ [] = Ok (ups, pd) →
  ups !! n = Some u → functional_updates u.
Proof.
  intros (_ & Hw & Hd)%dataEntries_ok Hu.
  assert (Hno : ∀ P Q : Prop, ¬ P → (P ∨ Q ↔ Q)) by tauto.
  setoid_rewrite Hno in Hw; [|by intros (u' & ? & _)]. setoid_rewrite Hno in Hd; [|by intros (u' & ? & _)].
  assert (Hwr : ∀ j env o w, valid_at envs infos j env → o ∈ DbOperations (DEnv_Payload env) → DbName o = n →
    Some w ∈ DataWrites o → writes_key env n (DW_Key w)).
  { intros j env o w _ Ho Hn Hin. exists o. split_and!; [done..|].
    by apply list_elem_of_fmap_2, elem_of_omap_id. }
  split.
  - intros kv kv' Hin Hin' Hk.
    assert (H1 : has_write ups n kv) by (by exists u). assert (H2 : has_write ups n kv') by (by exists u).
    apply Hw in H1 as (j & env & o & w & Hv & Ho & Hn & Hi & ->).
    apply Hw in H2 as (j' & env' & o' & w' & Hv' & Ho' & Hn' & Hi' & ->). cbn in Hk.
    pose proof (Hwr _ _ _ _ Hv Ho Hn Hi) as Hwk. pose proof (Hwr _ _ _ _ Hv' Ho' Hn' Hi') as Hwk'.
    assert (j = j') as <- by (eapply valid_at_unique; [done..|by left|rewrite Hk; by left]).
    assert (env = env') as <- by (destruct Hv as [? _], Hv' as [? _]; congruence).
    destruct (find_write env n (DW_Key w)) as [w0|] eqn:Ef; [|by apply find_write_none in Ef].
    rewrite (valid_write_unique _ _ _ _ _ _ _ _ (valid_at_spec _ _ Hv) Ef Ho Hn Hi eq_refl).
    by rewrite (valid_write_unique _ _ _ _ _ _ _ _ (valid_at_spec _ _ Hv) Ef Ho' Hn' Hi' (eq_sym Hk)).
  - intros kv Hin Hk. assert (H1 : has_write ups n kv) by (by exists u).
    assert (H2 : has_delete ups n (KV_Key kv)) by (by exists u).
    apply Hw in H1 as (j & env & o & w & Hv & Ho & Hn & Hi & ->). cbn in *.
    apply Hd in H2 as (j' & env' & Hv' & Hdk). pose proof (Hwr _ _ _ _ Hv Ho Hn Hi) as Hwk.
    assert (j = j') as <- by (eapply valid_at_unique; [done..|by left|by right]).
    assert (env = env') as <- by (destruct Hv as [? _], Hv' as [? _]; congruence).
    by eapply valid_write_not_delete; [by eapply valid_at_spec|..].
Qed.

End DataBlock.

(** ** The committed state *)

(** [block.Header.ValidationInfo = infos] *)
Definition with_infos (block : Block) (infos : list ValidationInfo) : Block :=
  let h := Header block in
  mkBlock (mkBlockHeader (BaseHeader h) (SkipchainHashes h) (TxMerkelTreeRootHash h)
             (StateMerkelTreeRootHash h) infos) (Payload block) (Block_ConsensusMetadata block).

Lemma commitToStateDB_ok db num ups db' :
  commitToStateDB db num ups = (db', Ok tt) →
  ∃ idx, ConstructIndexEntries ups db = Ok idx ∧ Commit db (idx ∪ ups) num = (db', Ok tt).
Proof.
  unfold commitToStateDB. intros H. destruct (ConstructIndexEntries ups db) as [idx| |]; cbn in H; simplify_eq.
  exists idx. split; [done|]. destruct (Commit db (idx ∪ ups) num) as [db1 [[]| |]]; cbn in H; by simplify_eq.
Qed.

Lemma index_no_databases ups db idx : ConstructIndexEntries ups db = Ok idx →
  ups !! DatabasesDBName = None → (idx ∪ ups) !! DatabasesDBName = None.
Proof.
  intros [_ Hinv]%ConstructIndexEntries_lookup Hd. apply lookup_union_None. split; [|done].
  destruct (idx !! DatabasesDBName) eqn:E; [|done]. apply Hinv in E as (? & ? & _). done.
Qed.

Lemma index_not_user ups db idx n : ConstructIndexEntries ups db = Ok idx →
  (∀ m, n ≠ IndexDB m) → (idx ∪ ups) !! n = ups !! n.
Proof.
  intros [_ Hinv]%ConstructIndexEntries_lookup Hn. apply lookup_union_r.
  destruct (idx !! n) eqn:E; [|done]. apply Hinv in E as (m & ? & _). by destruct (Hn m).
Qed.

Lemma data_block_entries db prov block infos envs ups pd block' :
  Payload block = Some (Block_DataTxEnvelopes envs) →
  constructDBAndProvenanceEntries db prov (with_infos block infos) = Ok (ups, pd, block') →
  dataEntries db prov (Number (BaseHeader (Header block))) 0 infos envs ∅ [] = Ok (ups, pd).
Proof.
  intros Hp H. unfold constructDBAndProvenanceEntries, with_infos in H. cbn in H. rewrite Hp in H.
  apply bind_ok_inv in H as ([ups' pd'] & -> & H). by injection H as -> -> _.
Qed.

(** The committed state is the result of serial execution. *)
Lemma committed_serially db prov block infos envs ups pd block' db' n k :
  ValidateBlock db block = Ok infos → not_genesis block →
  Payload block = Some (Block_DataTxEnvelopes envs) →
  constructDBAndProvenanceEntries db prov (with_infos block infos) = Ok (ups, pd, block') →
  commitToStateDB db (Number (BaseHeader (Header block))) ups = (db', Ok tt) →
  n ≠ MetadataDBName → (∀ m, n ≠ IndexDB m) →
  committed db' n k =
    execute_serially (Number (BaseHeader (Header block))) 0 (zip envs infos) (committed db) n k.
Proof.
  intros Hv Hng Hp Hc Hcom Hm Hn. apply (data_block_entries _ _ _ _ _ _ _ _ Hp) in Hc.
  rewrite <- (updates_serial db block envs infos Hv Hng Hp _ _ _ _ _ _ Hc).
  apply commitToStateDB_ok in Hcom as (idx & Hidx & Hcom).
  pose proof (index_no_databases _ _ _ Hidx
    (updates_not_system db block envs infos Hv Hng Hp _ _ _ DatabasesDBName Hc eq_refl)) as Hnodb.
  unfold committed at 1, after. rewrite (commit_get _ _ _ _ _ _ Hcom Hnodb Hm).
  rewrite (index_not_user _ _ _ _ Hidx Hn). destruct (ups !! n) as [u|]; [|done].
  unfold get_after. case_bool_decide; [done|]. by destruct (last_write k (Writes u)).
Qed.

(** C3: the world state after a validated data block is committed is the state a
    serial execution of its valid transactions, in block order, leaves: every key
    of every user database has the value, version and access control that
    execution gives it.  (Index databases and the height marker are excluded.) *)
Theorem commit_is_serial_execution db prov block infos envs ups pd block' db' n k :
  ValidateBlock db block = Ok infos → not_genesis block →
  Payload block = Some (Block_DataTxEnvelopes envs) →
  constructDBAndProvenanceEntries db prov (with_infos block infos) = Ok (ups, pd, block') →
  commitToStateDB db (Number (BaseHeader (Header block))) ups = (db', Ok tt) →
  n ≠ MetadataDBName → (∀ m, n ≠ IndexDB m) →
  committed db' n k =
    execute_serially (Number (BaseHeader (Header block))) 0 (zip envs infos) (committed db) n k.
Proof. apply committed_serially. Qed.

(** C14: the secondary index of a database stays exact: if it holds exactly the
    entries of the values of the database, it still does after a validated data
    block whose transactions do not write to the index database directly, when
    the keys are UTF-8 text, as those of a decoded message are. *)
Theorem commit_keeps_index_exact db prov block infos envs ups pd block' db' n def meta index :
  ValidateBlock db block = Ok infos → not_genesis block →
  Payload block = Some (Block_DataTxEnvelopes envs) →
  constructDBAndProvenanceEntries db prov (with_infos block infos) = Ok (ups, pd, block') →
  commitToStateDB db (Number (BaseHeader (Header block))) ups = (db', Ok tt) →
  n ≠ MetadataDBName → (∀ m, n ≠ IndexDB m) → ups !! IndexDB n = None →
  GetIndexDefinition db n = Ok (def, meta) → def ≠ [] → UnmarshalIndexDef def = Ok index →
  (∀ s, is_ok (Has db (IndexDB n) s) = true) →
  keys_utf8 db n → (∀ u kv, ups !! n = Some u → kv ∈ Writes u → utf8_valid (KV_Key kv) = true) →
  index_exact db n index → index_exact db' n index ∧ keys_utf8 db' n.
Proof.
  intros Hv Hng Hp Hc Hcom Hm Hn Hui Hdef Hne Hun Hok Hku Hwu Hex.
  apply (data_block_entries _ _ _ _ _ _ _ _ Hp) in Hc.
  apply commitToStateDB_ok in Hcom as (idx & Hidx & Hcom).
  pose proof (updates_not_system db block envs infos Hv Hng Hp _ _ _ DatabasesDBName Hc eq_refl) as Hnodb.
  destruct (ups !! n) as [u|] eqn:Hu.
  - eapply (index_exact_commit db db' ups idx n _ u); try done; [eapply updates_functional; done|].
    intros kv. by apply Hwu.
  - destruct (ConstructIndexEntries_lookup _ _ _ Hidx) as [_ Hinv].
    assert (Hin : (idx ∪ ups) !! IndexDB n = None).
    { apply lookup_union_None. split; [|done]. destruct (idx !! IndexDB n) eqn:E; [|done].
      apply Hinv in E as (m & Heq%IndexDB_inj & [? ?]). congruence. }
    pose proof (index_no_databases _ _ _ Hidx Hnodb) as Hnodb'.
    assert (Hget : ∀ k, Get db' n k = Get db n k).
    { intros k. rewrite (commit_get _ _ _ _ _ _ Hcom Hnodb' Hm). by rewrite (index_not_user _ _ _ _ Hidx Hn), Hu. }
    split; [|intros k v m Hg; rewrite Hget in Hg; by eapply Hku].
    intros s. rewrite (commit_has _ _ _ _ _ _ Hcom Hnodb'), Hin by done. rewrite (Hex s). by setoid_rewrite Hget.
Qed.

End CommitProofs.

(** ** An example *)

Module CommitExample.
Import Toy IsolationExample.

(** The object with the number n as its age. *)
Definition aged (n : Z) : bytes := bytes_of_string ("{" +:+ field "age" +:+ pretty n +:+ "}").

Definition age_index : gmap string IndexAttributeType := {["age" := IndexAttributeType_NUMBER]}.

Definition age_def : bytes := match MarshalIndexDef age_index with Ok b => b | _ => [] end.

(** db1 has an index on age, and one key with an age. *)
Definition age_entry (k : string) (n : Z) : list string :=
  match toStrings (decodeJSONAndConstructIndexEntries k (aged n) age_index) with Ok l => l | _ => [] end.

Definition state4 : LevelDB :=
  commit state1 {[DatabasesDBName :=
    mkDBUpdates [mkKVWithMetadata "db1" age_def (meta 2 0);
                 mkKVWithMetadata (IndexDB "db1") [] (meta 2 0)] []]} 2.
Definition state5 : LevelDB :=
  commit state4
    {["db1" := mkDBUpdates [mkKVWithMetadata "k1" (aged 40) (meta 3 0)] [];
      IndexDB "db1" := mkDBUpdates ((fun s => mkKVWithMetadata s [] None) <$> age_entry "k1" 40) []]} 3.

Definition age_write (k : string) (n : Z) : option DataWrite := Some (mkDataWrite k (aged n) None).
Definition envs5 : list DataTxEnvelope :=
  [data_tx "alice" 1 "tx0" (mkDBOperation "db1" [mkDataRead "k1" (version 3 0)] [age_write "k2" 41] []);
   data_tx "bob" 2 "tx1" (mkDBOperation "db1" [mkDataRead "k2" None] [age_write "k3" 42] []);
   data_tx "bob" 2 "tx2" (mkDBOperation "db1" [] [age_write "k4" 43] [Some (mkDataDelete "k1")])].
Definition block5 : Block := mkBlock (header 4) (Some (Block_DataTxEnvelopes envs5)) None.
Definition infos5 : list ValidationInfo :=
  [valid;
   invalid INVALID_MVCC_CONFLICT_WITHIN_BLOCK
     "mvcc conflict has occurred within the block for the key [k2] in database [db1]";
   valid].

Lemma block5_validates : ValidateBlock state5 block5 = Ok infos5.
Proof. vm_compute. reflexivity. Qed.

Definition entries5 := constructDBAndProvenanceEntries state5 true (with_infos block5 infos5).
Definition ups5 : gmap string DBUpdates := match entries5 with Ok (ups, _, _) => ups | _ => ∅ end.
Definition pd5 : list TxDataForProvenance := match entries5 with Ok (_, pd, _) => pd | _ => [] end.
Definition state6 : LevelDB := (commitToStateDB state5 4 ups5).1.

Lemma entries5_ok : constructDBAndProvenanceEntries state5 true (with_infos block5 infos5) =
  Ok (ups5, pd5, with_infos block5 infos5).
Proof. vm_compute. reflexivity. Qed.

Lemma commit5_ok : commitToStateDB state5 4 ups5 = (state6, Ok tt).
Proof.
  assert (H : (commitToStateDB state5 4 ups5).2 = Ok tt) by (vm_compute; reflexivity).
  unfold state6. rewrite <- H. apply surjective_pairing.
Qed.

Lemma commit_is_serial_execution_witness :
  committed state6 "db1" "k2" =
    execute_serially 4 0 (zip envs5 infos5) (committed state5) "db1" "k2".
Proof.
  exact (commit_is_serial_execution state5 true block5 infos5 envs5 ups5 pd5 _ state6 "db1" "k2"
           block5_validates ltac:(done) eq_refl entries5_ok commit5_ok ltac:(done) ltac:(done)).
Defined.

(** The stored form of the one value, and its index entry. *)
Definition stored5 : bytes := positive_bits (encode (mkValueWithMetadata (aged 40) (meta 3 0))).
Definition entry5 : string :=
  entry_string (mkIndexEntry "age" IndexAttributeType_NUMBER Existing (IVNumber (EncodeInt64 40)) Existing "k1").

Lemma state5_db1 : dbs state5 !! "db1" = Some {["k1" := stored5]}.
Proof. refine (bool_decide_unpack _ _). vm_compute. exact I. Qed.

Lemma state5_index :
  dbs state5 !! IndexDB "db1" = Some {[entry5 := positive_bits (encode (mkValueWithMetadata [] None))]}.
Proof. refine (bool_decide_unpack _ _). vm_compute. exact I. Qed.

Lemma stored5_unmarshal : Unmarshal stored5 = Ok (mkValueWithMetadata (aged 40) (meta 3 0)).
Proof. vm_compute. reflexivity. Qed.

Lemma entry5_only s : indexes age_index "k1" (aged 40) s ↔ s = entry5.
Proof.
  assert (Hd : decodeJSONAndConstructIndexEntries "k1" (aged 40) age_index =
    [mkIndexEntry "age" IndexAttributeType_NUMBER Existing (IVNumber (EncodeInt64 40)) Existing "k1"])
    by (vm_compute; reflexivity).
  unfold indexes. rewrite Hd. split.
  - intros (e & ->%list_elem_of_singleton & Hs%EntryString_ok). done.
  - intros ->. eexists. split; [by left|done].
Qed.

Lemma state5_has s : Has state5 (IndexDB "db1") s = Ok (bool_decide (s = entry5)).
Proof.
  cbn. unfold LDB.Has. rewrite state5_index. cbn. f_equal.
  apply bool_decide_ext. rewrite lookup_singleton_is_Some. naive_solver.
Qed.

Lemma state5_get k : Get state5 "db1" k =
  Ok (if bool_decide (k = "k1") then ((aged 40), meta 3 0) else ([], None)).
Proof.
  cbn. unfold LDB.Get. rewrite state5_db1. case_bool_decide as Hk.
  - subst k. rewrite lookup_singleton_eq, stored5_unmarshal. done.
  - by rewrite lookup_singleton_ne.
Qed.

Lemma state5_exact : index_exact state5 "db1" age_index.
Proof.
  intros s. rewrite state5_has. split.
  - intros [= ->%bool_decide_eq_true]. exists "k1". rewrite state5_get.
    eexists _, _. split; [done|]. by apply entry5_only.
  - intros (k & v & m & Hg & Hi). rewrite state5_get in Hg. case_bool_decide; simplify_eq.
    + apply entry5_only in Hi as ->. by rewrite bool_decide_eq_true_2.
    + destruct Hi as (e & He & _). cbn in He. set_solver.
Qed.

Lemma state5_indexdef : ∃ m,
  GetIndexDefinition state5 "db1" = Ok (age_def, m).
Proof. eexists. vm_compute. reflexivity. Qed.

Lemma age_index_unmarshal : UnmarshalIndexDef age_def = Ok age_index.
Proof. vm_compute. reflexivity. Qed.

Lemma ups5_no_index : ups5 !! IndexDB "db1" = None.
Proof. vm_compute. reflexivity. Qed.

Lemma age_index_nonempty : age_def ≠ [].
Proof. vm_compute. discriminate. Qed.

Lemma state5_has_ok s : is_ok (Has state5 (IndexDB "db1") s) = true.
Proof. by rewrite state5_has. Qed.

Lemma state5_utf8 : keys_utf8 state5 "db1".
Proof. intros k v m. rewrite state5_get. case_bool_decide; [by subst|]. by intros [= <- _]. Qed.

Lemma ups5_utf8 u kv : ups5 !! "db1" = Some u → kv ∈ Writes u → utf8_valid (KV_Key kv) = true.
Proof.
  intros Hu Hin.
  assert (Hall : forallb (fun kv => utf8_valid (KV_Key kv))
    (match ups5 !! "db1" with Some u => Writes u | None => [] end) = true) by (vm_compute; reflexivity).
  rewrite Hu, forallb_forall in Hall. apply Hall. by apply list_elem_of_In.
Qed.

Lemma commit_keeps_index_exact_witness : index_exact state6 "db1" age_index ∧ keys_utf8 state6 "db1".
Proof.
  destruct state5_indexdef as [m Hm].
  exact (commit_keeps_index_exact state5 true block5 infos5 envs5 ups5 pd5 _ state6 "db1" _ m age_index
           block5_validates ltac:(done) eq_refl entries5_ok commit5_ok
           ltac:(done) ltac:(done) ups5_no_index Hm age_index_nonempty age_index_unmarshal
           state5_has_ok state5_utf8 ups5_utf8 state5_exact).
Defined.

End CommitExample.
