(* ===== verification/ConfigHistory.v ===== *)
(** * The history of the cluster configuration

    Configurations change only by valid configuration blocks.  The committed
    configuration stays well formed, and a Raft ID is never given to another
    node, however often members leave and join. *)

From S2P Require Import Prelude Types WorldState LevelDB Identity Validation.
From S2P Require Import DataTxValidator DataTxProofs UserTxValidator DbTxValidator ReConfig ConfigTxValidator.
From S2P Require Import Instances Validator BlockIsolation AdminTx DbEntries StateIndex Committer CommitProofs.
From stdpp Require Import relations.

Section ConfigHistory.
Context {x509 : X509} {mr : MapRange} {nt : NetTime}.

(** The members of a configuration. *)
Definition members_of (c : ClusterConfig) : list PeerConfig :=
  match Consensus c with Some cc => omap id (Members cc) | None => [] end.

(** What a valid configuration transaction makes of the committed configuration. *)
Definition config_step (cur cur' : ClusterConfig) : Prop :=
  ∃ new, wf_config new ∧ transition_passes cur new ∧ setMaxRaftId new (newMaxRaftId cur new) = Ok cur'.

Lemma setMaxRaftId_ok c z c' :
  setMaxRaftId c z = Ok c' →
  ∃ cc rc, Consensus c = Some cc ∧ CC_RaftConfig cc = Some rc ∧
    c' = mkClusterConfig (Nodes c) (Admins c) (CertAuthConfig c)
           (Some (mkConsensusConfig (Algorithm cc) (Members cc) (Observers cc)
             (Some (mkRaftConfig (TickInterval rc) (ElectionTicks rc) (HeartbeatTicks rc)
                      (MaxInflightBlocks rc) (SnapshotIntervalSize rc) z)))) (Ledger c).
Proof. unfold setMaxRaftId. intros H. inv_res. subst. eauto. Qed.

(** Setting the maximal Raft ID keeps a configuration well formed. *)
Lemma setMaxRaftId_wf c z c' : wf_config c → setMaxRaftId c z = Ok c' → wf_config c'.
Proof.
  intros (ca & ns & ads & cc & ms & os & [Hca Hns Hads [Hc Hco] Hm]) (cc' & rc & Hcc & Hrc & ->)%setMaxRaftId_ok.
  rewrite Hc in Hcc. injection Hcc as <-.
  eexists ca, ns, ads, _, ms, os. split; [done..| |done]. split; [done|].
  destruct Hco as [Ha Hms Hos Hne He Hr Hu Hi Hp (rc' & Hrc' & [Ht1 Ht2])].
  rewrite Hrc in Hrc'. injection Hrc' as <-. split; try done. eexists. split; [done|]. split; done.
Qed.

Lemma members_of_setMax c z c' : setMaxRaftId c z = Ok c' → members_of c' = members_of c ∧ GetMaxRaftId c' = z.
Proof. intros (cc & rc & Hc & _ & ->)%setMaxRaftId_ok. unfold members_of. by rewrite Hc. Qed.

Lemma foldl_max_ge (l : list (option PeerConfig)) z :
  (z ≤ foldl (fun maxID m => if Z.ltb maxID (GetRaftId m) then GetRaftId m else maxID) z l)%Z ∧
  ∀ m, m ∈ l → (GetRaftId m ≤ foldl (fun maxID m => if Z.ltb maxID (GetRaftId m) then GetRaftId m else maxID) z l)%Z.
Proof.
  revert z. induction l as [|m l IH]; intros z; cbn; [split; [lia|set_solver]|].
  destruct (IH (if Z.ltb z (GetRaftId m) then GetRaftId m else z)) as [H1 H2].
  destruct (Z.ltb_spec z (GetRaftId m)); (split; [lia|]); intros m' [->|?]%elem_of_cons; auto; lia.
Qed.

(** The new maximum bounds the old one and every member. *)
Lemma newMaxRaftId_ge cur new :
  (GetMaxRaftId cur ≤ newMaxRaftId cur new)%Z ∧
  ∀ p, p ∈ members_of new → (RaftId p ≤ newMaxRaftId cur new)%Z.
Proof.
  unfold newMaxRaftId, members_of. destruct (Consensus new) as [cc|]; [|split; [cbn; lia|set_solver]].
  destruct (foldl_max_ge (Members cc) (GetMaxRaftId cur)) as [H1 H2]. split; [done|].
  intros p Hp%elem_of_omap_id. apply (H2 _ Hp).
Qed.

Lemma wf_unique_raft_ids c p q :
  wf_config c → p ∈ members_of c → q ∈ members_of c → RaftId p = RaftId q → p = q.
Proof.
  intros (ca & ns & ads & cc & ms & os & [_ _ _ [Hc Hco] _]). unfold members_of. rewrite Hc.
  destruct Hco as [_ Hms _ _ _ _ Hr _ _ _]. rewrite Hms.
  assert (Hom : omap id (Some <$> ms) = ms) by (clear; induction ms; cbn; congruence).
  rewrite Hom. by apply NoDup_fmap_elem.
Qed.

(** A member after a step keeps the Raft ID it had, or gets one above the maximum. *)
Lemma config_step_members cur cur' p :
  wf_config cur → config_step cur cur' → p ∈ members_of cur' →
  (∃ q, q ∈ members_of cur ∧ NodeId q = NodeId p ∧ RaftId q = RaftId p) ∨
  (GetMaxRaftId cur < RaftId p)%Z.
Proof.
  intros Hwf (new & Hwfn & Ht & Hset) Hp.
  destruct (members_of_setMax _ _ _ Hset) as [Hmem _]. rewrite Hmem in Hp. clear Hset Hmem.
  destruct (wf_config_unique_ids _ Hwf) as (ccur & Hccur & Hu & _).
  destruct (wf_config_unique_ids _ Hwfn) as (cnew & Hcnew & _ & _).
  unfold members_of in *. rewrite Hccur, Hcnew in *.
  destruct (transition_reconfig _ _ _ _ Ht Hwf Hwfn Hccur Hcnew) as [_ Hr Hn _ _].
  destruct (decide (NodeId p ∈ member_ids ccur)) as [Hin|Hni].
  - left. unfold member_ids in Hin. apply elem_of_list_to_set, list_elem_of_fmap in Hin as (q & Hq & Hqin).
    exists q. split_and!; [done..|]. symmetry. eapply Hr; [|by apply elem_of_omap_id|done]. by apply elem_of_omap_id.
  - right. destruct (Hn p) as (c & Hc & Hlt); [by apply elem_of_omap_id|done|].
    unfold GetMaxRaftId. by rewrite Hccur, Hc.
Qed.

(** A state of the history: the members of all earlier configurations, and the
    configuration that is committed. *)
Definition history : Type := list PeerConfig * ClusterConfig.

Inductive history_step : history → history → Prop :=
  | history_config h cur cur' :
      config_step cur cur' → history_step (h, cur) (members_of cur ++ h, cur').

(** The members ever seen. *)
Definition ever (s : history) : list PeerConfig := members_of s.2 ++ s.1.

Record history_ok (s : history) : Prop := {
  ho_wf : wf_config s.2;
  ho_max : ∀ p, p ∈ ever s → (RaftId p ≤ GetMaxRaftId s.2)%Z;
  ho_ids : ∀ p q, p ∈ ever s → q ∈ ever s → RaftId p = RaftId q → NodeId p = NodeId q;
}.

Lemma history_step_ok s s' : history_ok s → history_step s s' → history_ok s'.
Proof.
  intros [Hwf Hmax Hids] Hstep. destruct Hstep as [h cur cur' Hstep]. cbn [fst snd] in *.
  pose proof Hstep as (new & Hwfn & Ht & Hset).
  destruct (members_of_setMax _ _ _ Hset) as [Hmem Hm].
  destruct (newMaxRaftId_ge cur new) as [Hge1 Hge2].
  assert (Hwf' : wf_config cur') by (by eapply setMaxRaftId_wf).
  split; unfold ever in *; cbn [fst snd] in *; [done|..].
  - intros p [Hp|Hp]%elem_of_app; rewrite Hm.
    + rewrite Hmem in Hp. auto.
    + specialize (Hmax p Hp). lia.
  - assert (Hmix : ∀ p q, p ∈ members_of cur' → q ∈ members_of cur ++ h → RaftId p = RaftId q → NodeId p = NodeId q).
    { intros p q Hp Hq Heq. destruct (config_step_members _ _ _ Hwf Hstep Hp) as [(p' & Hp' & Hn & Hr)|Hlt].
      - rewrite <- Hn. apply Hids; [by apply elem_of_app; left|done|congruence].
      - specialize (Hmax q Hq). lia. }
    intros p q [Hp|Hp]%elem_of_app [Hq|Hq]%elem_of_app Heq.
    + by rewrite (wf_unique_raft_ids _ _ _ Hwf' Hp Hq Heq).
    + by apply Hmix.
    + symmetry. by apply Hmix.
    + by apply Hids.
Qed.

Lemma history_run_ok s s' : rtc history_step s s' → history_ok s → history_ok s'.
Proof. induction 1; eauto using history_step_ok. Qed.

(** The history starts at the genesis configuration, committed over an empty one. *)
Definition genesis_history (genesis : ClusterConfig) : history := ([], genesis).

Lemma genesis_history_ok old genesis c :
  wf_config genesis → setMaxRaftId genesis (newMaxRaftId old genesis) = Ok c → history_ok (genesis_history c).
Proof.
  intros Hwf Hset. pose proof (setMaxRaftId_wf _ _ _ Hwf Hset) as Hwf'.
  destruct (members_of_setMax _ _ _ Hset) as [Hmem Hm]. destruct (newMaxRaftId_ge old genesis) as [_ Hge].
  split; unfold ever; cbn [fst snd genesis_history]; rewrite ?app_nil_r; [done| |].
  - intros p Hp. rewrite Hm. rewrite Hmem in Hp. auto.
  - intros p q Hp Hq Heq. by rewrite (wf_unique_raft_ids _ _ _ Hwf' Hp Hq Heq).
Qed.

(** C5: along any sequence of valid configuration transactions from a well-formed
    genesis configuration, the committed configuration stays well formed and a
    Raft ID is never reused: two members, of any two configurations of the
    sequence, that have the same Raft ID are the same node. *)
Theorem raft_ids_never_reused old genesis c s :
  wf_config genesis → setMaxRaftId genesis (newMaxRaftId old genesis) = Ok c →
  rtc history_step (genesis_history c) s →
  wf_config s.2 ∧ ∀ p q, p ∈ ever s → q ∈ ever s → RaftId p = RaftId q → NodeId p = NodeId q.
Proof.
  intros Hwf Hset Hrun.
  by destruct (history_run_ok _ _ Hrun (genesis_history_ok _ _ _ Hwf Hset)).
Qed.

End ConfigHistory.

(** ** Configuration blocks take these steps *)

Section ConfigBlocks.
Context `{!WorldState D, !Codec ClusterConfig, !WorldStateLaws D, !Codec User, !Codec NodeConfig,
  !TxMarshal DataTx, !TxMarshal UserAdministrationTx, !TxMarshal DBAdministrationTx, !TxMarshal ConfigTx}
  {x509 : X509} {mr : MapRange} {nt : NetTime}.
Implicit Types (db : D).

Lemma oldNodes_loop_deletes olds ns ds ns' ds' :
  oldNodes_loop olds ns ds = Ok (ns', ds') →
  (∀ k, k ∈ ds → ∃ id, k = NodeNamespace +:+ id) → ∀ k, k ∈ ds' → ∃ id, k = NodeNamespace +:+ id.
Proof.
  revert ns ds. induction olds as [|o olds IH]; intros ns ds H Hds; cbn in H.
  - by simplify_eq.
  - inv_res. destruct (ns !! Node_Id x); (eapply IH; [done|]); [done|].
    intros k [?|Hk]%elem_of_app; [by eauto|]. apply list_elem_of_singleton in Hk. eauto.
Qed.

(** The node entries live under the node namespace, away from the configuration key. *)
Lemma node_updates_keys olds news version u :
  ConstructDBEntriesForNodes olds news version = Ok (Some u) →
  (∀ kv, kv ∈ Writes u → KV_Key kv ≠ ConfigKey) ∧ ConfigKey ∉ Deletes u.
Proof.
  unfold ConstructDBEntriesForNodes, someUpdates. intros H. inv_res. destruct x0 as [ns ds]. inv_res.
  destruct (_ && _); [done|]. injection H as <-. cbn. split.
  - intros kv Hin Hk. apply (res_mapM_elem _ _ _ _ H2) in Hin as (n & _ & Hn).
    unfold nodeWriteEntry in Hn. inv_res. subst kv. done.
  - intros Hin. destruct (oldNodes_loop_deletes _ _ _ _ _ H1 ltac:(set_solver) _ Hin) as [id ?]. done.
Qed.

(** The updates of a configuration block: the configuration first, then node
    entries under other keys, and nothing for the databases' database. *)
Lemma configDBsUpdates_shape olds news version au nu kv :
  ConstructDBEntriesForNodes olds news version = Ok nu → KV_Key kv = ConfigKey →
  let ups := configDBsUpdates (mkDbEntriesForConfigTx au nu (mkDBUpdates [kv] [])) in
  ups !! DatabasesDBName = None ∧
  ∃ u, ups !! ConfigDBName = Some u ∧ ConfigKey ∉ Deletes u ∧ last_write ConfigKey (Writes u) = Some kv.
Proof.
  intros Hnu Hkv ups. subst ups. unfold configDBsUpdates. cbn. split.
  { destruct au; by rewrite ?lookup_insert_ne. }
  eexists. split; [destruct au; rewrite ?lookup_insert_ne by done; apply lookup_insert_eq|].
  destruct nu as [u|]; [|cbn; split; [set_solver|]; unfold last_write; by rewrite filter_cons, decide_True].
  destruct (node_updates_keys _ _ _ _ Hnu) as [H1 H2]. cbn. split; [done|].
  unfold last_write. rewrite filter_cons, decide_True by done.
  assert (filter (fun kv => KV_Key kv = ConfigKey) (Writes u) = []) as ->; [|done].
  apply elem_of_nil_inv. intros kv' [Hk Hin]%list_elem_of_filter. by eapply H1.
Qed.

(** The entries that a valid configuration transaction is turned into. *)
Lemma constructDBEntriesForConfigTx_ok tx cur version new e :
  constructDBEntriesForConfigTx tx cur version = Ok e → NewConfig tx = Some new →
  ∃ au nu cur' ser, e = mkDbEntriesForConfigTx au nu (mkDBUpdates [dbEntry ConfigKey ser version] []) ∧
    ConstructDBEntriesForNodes (Nodes cur) (Nodes new) version = Ok nu ∧
    setMaxRaftId new (newMaxRaftId cur new) = Ok cur' ∧ Marshal cur' = Ok ser.
Proof.
  unfold constructDBEntriesForConfigTx. intros He Hnew. rewrite Hnew in He. cbn in He.
  apply bind_ok_inv in He as (au & _ & He). apply bind_ok_inv in He as (nu & Hnu & He).
  apply bind_ok_inv in He as (cur' & Hset & He). apply bind_ok_inv in He as (ser & Hser & He).
  rewrite wrap_err_ok in Hser. injection He as <-. by eexists _, _, _, _.
Qed.

(** Committing a validated configuration block replaces the committed
    configuration by the one of the transaction with its maximal Raft ID brought
    up to date, and that is a step of the configuration history. *)
Theorem config_block_step db prov block env ups pd block' db' cur meta :
  ValidateBlock db block = Ok [valid] → not_genesis block →
  Payload block = Some (Block_ConfigTxEnvelope env) → GetConfig db = Ok (cur, meta) →
  constructDBAndProvenanceEntries db prov (with_infos block [valid]) = Ok (ups, pd, block') →
  commitToStateDB db (Number (BaseHeader (Header block))) ups = (db', Ok tt) →
  ∃ cur', config_step cur cur' ∧
    GetConfig db' = Ok (cur', Some (mkMetadata (Some (mkVersion (Number (BaseHeader (Header block))) 0)) None)).
Proof.
  intros Hv Hng Hp Hcur Hc Hcom.
  destruct (ValidateBlock_config _ _ _ _ Hv Hng Hp) as (info & [= <-] & Hiff).
  destruct (proj1 Hiff eq_refl) as [_ _ (new & cur0 & meta0 & Hnew & Hwf & Hg & _ & Ht)].
  rewrite Hcur in Hg. injection Hg as <- <-.
  unfold constructDBAndProvenanceEntries, with_infos in Hc. cbn in Hc. rewrite Hp, Hcur in Hc. cbn in Hc.
  rewrite bool_decide_eq_false_2 in Hc by tauto.
  apply bind_ok_inv in Hc as (e & He & Hc). rewrite wrap_err_ok in He. apply bind_ok_inv in Hc as (pd' & _ & Hc).
  injection Hc as <- _ _.
  destruct (constructDBEntriesForConfigTx_ok _ _ _ _ _ He Hnew) as (au & nu & cur' & ser & -> & Hnu & Hset & Hser).
  exists cur'. split; [by exists new|].
  apply commitToStateDB_ok in Hcom as (idx & Hidx & Hcom).
  destruct (configDBsUpdates_shape _ _ _ au _ (dbEntry ConfigKey ser (mkVersion (Number (BaseHeader (Header block))) 0))
    Hnu eq_refl) as (Hnodb & u & Hu & Hdel & Hlast).
  rewrite get_config_get, (commit_get _ _ _ _ _ _ Hcom (index_no_databases _ _ _ Hidx Hnodb)) by done.
  rewrite (index_not_user _ _ _ _ Hidx) by done. rewrite Hu. unfold get_after.
  rewrite bool_decide_eq_false_2 by done. rewrite Hlast.
  cbn. by rewrite (unmarshal_marshal _ _ Hser).
Qed.

End ConfigBlocks.

(** ** An example: a second node joins *)

Module ConfigExample.
Import Toy AdminExample CommitExample.

(** The configuration as it is committed, with its maximal Raft ID. *)
Definition config2' : ClusterConfig :=
  cluster [node_config; mkNodeConfig "node2" "node" 6002 (cert 8)]
    [peer_config; mkPeerConfig "node2" 2 "node" 7002] 2.

Lemma config1_config2 : config_step config1 config2'.
Proof.
  destruct (ValidateBlock_config _ _ _ _ config_block_validates ltac:(done) eq_refl) as (info & [= <-] & Hiff).
  destruct (proj1 Hiff eq_refl) as [_ _ (new & cur & meta & [= <-] & Hwf & Hg & _ & Ht)].
  rewrite state3_config in Hg. injection Hg as <- <-. by exists config2.
Qed.

Lemma history2 : rtc history_step (genesis_history config1) (members_of config1 ++ [], config2').
Proof. eapply rtc_l; [constructor; apply config1_config2|constructor]. Qed.

Definition no_config : ClusterConfig := mkClusterConfig [] [] None None None.

Lemma raft_ids_never_reused_witness : wf_config config2'.
Proof.
  exact (proj1 (raft_ids_never_reused no_config config1 config1 (members_of config1 ++ [], config2')
                  config1_wf eq_refl history2)).
Defined.

Definition config_entries := constructDBAndProvenanceEntries state3 true (with_infos config_block [valid]).
Definition config_ups : gmap string DBUpdates := match config_entries with Ok (ups, _, _) => ups | _ => ∅ end.
Definition config_pd : list TxDataForProvenance := match config_entries with Ok (_, pd, _) => pd | _ => [] end.
Definition config_block' : Block := match config_entries with Ok (_, _, b) => b | _ => config_block end.
Definition state4' : LevelDB := (commitToStateDB state3 4 config_ups).1.

Lemma config_entries_ok : config_entries = Ok (config_ups, config_pd, config_block').
Proof.
  assert (H : is_ok config_entries = true) by (vm_compute; reflexivity).
  unfold config_ups, config_pd, config_block'. by destruct config_entries as [[[? ?] ?]| |].
Qed.

Lemma config_commit_ok : commitToStateDB state3 4 config_ups = (state4', Ok tt).
Proof.
  assert (H : (commitToStateDB state3 4 config_ups).2 = Ok tt) by (vm_compute; reflexivity).
  unfold state4'. rewrite <- H. apply surjective_pairing.
Qed.

Lemma config_block_step_witness :
  ∃ cur', config_step config1 cur' ∧ GetConfig state4' = Ok (cur', meta 4 0).
Proof.
  exact (config_block_step state3 true config_block config_env config_ups config_pd _ state4' config1 (meta 1 0)
           config_block_validates ltac:(done) eq_refl state3_config config_entries_ok config_commit_ok).
Defined.

End ConfigExample.
