(* ===== verification/MerkleTree.v ===== *)
(** * The Merkle tree of the transactions of a block

    [internal/mtree]: leaf hashes, construction of the tree, membership proofs;
    every proof the server returns is accepted, and an accepted proof shows that
    the transaction is in the block. *)

From S2P Require Import Prelude Crypto Types WorldState Validation.

(** ** Leaf hashes *)

Section Hashes.
Context `{!TxMarshal DataTxEnvelope, !TxMarshal UserAdministrationTxEnvelope,
  !TxMarshal DBAdministrationTxEnvelope, !TxMarshal ConfigTxEnvelope, !TxMarshal ValidationInfo}.

(** The bytes that are hashed for a transaction: its envelope and its verdict. *)
Definition txHashInput `{!TxMarshal A} (msg : A) (valInfo : ValidationInfo) : res bytes :=
  payloadBytes ← wrap_err "can't serialize msg to json" (marshalTx msg);
  valBytes ← wrap_err "can't validationInfo msg to json" (marshalTx valInfo);
  Ok (payloadBytes ++ valBytes).

Definition calculateTxHash `{!TxMarshal A} (msg : A) (valInfo : ValidationInfo) : res bytes :=
  finalBytes ← txHashInput msg valInfo; Ok (ComputeSHA256Hash finalBytes).

(** [ValidationInfo()[i]] *)
Definition info_at (block : Block) (i : nat) : res ValidationInfo :=
  match ValidationInfos (Header block) !! i with
  | Some v => Ok v
  | None => Panic "index out of range"
  end.

Fixpoint dataTxHashes (block : Block) (i : nat) (envs : list DataTxEnvelope) : res (list bytes) :=
  match envs with
  | [] => Ok []
  | tx :: envs =>
    info ← info_at block i;
    h ← wrap_err "can't calculate msg hash" (calculateTxHash tx info);
    hashes ← dataTxHashes block (S i) envs;
    Ok (h :: hashes)
  end.

Definition singleTxHash `{!TxMarshal A} (block : Block) (tx : A) : res (list bytes) :=
  info ← info_at block 0;
  h ← wrap_err "can't calculate msg hash" (calculateTxHash tx info);
  Ok [h].

Definition calculateBlockTxHashes (block : Block) : res (list bytes) :=
  match Payload block with
  | Some (Block_DataTxEnvelopes envs) => dataTxHashes block 0 envs
  | Some (Block_UserAdministrationTxEnvelope userTx) => singleTxHash block userTx
  | Some (Block_DbAdministrationTxEnvelope dbTx) => singleTxHash block dbTx
  | Some (Block_ConfigTxEnvelope configTx) => singleTxHash block configTx
  | None => Err (PlainErr "unexpected transaction envelope in the block")
  end.
End Hashes.

(** ** The tree

    A node without a left child is a leaf.  The sibling pointer of a node, set
    when its parent is built, is the other child of its parent. *)

Inductive Node := mkNode {
  left : option Node;
  right : option Node;
  hash : bytes;
  startIndex : Z;
  endIndex : Z;
}.

Definition Hash (n : option Node) : bytes :=
  match n with None => [] | Some n => hash n end.

Definition calcHash (l r : option Node) : bytes := ConcatenateHashes (Hash l) (Hash r).

(** The node over one or two nodes of the level below. *)
Definition parent (l : Node) (r : option Node) : Node :=
  mkNode (Some l) r (calcHash (Some l) r) (startIndex l)
    (match r with Some r => endIndex r | None => endIndex l end).

Fixpoint nextLevel (srcNodes : list Node) : list Node :=
  match srcNodes with
  | a :: b :: rest => parent a (Some b) :: nextLevel rest
  | [a] => [parent a None]
  | [] => []
  end.

(** The number of nodes bounds the number of levels. *)
Fixpoint buildLevels (fuel : nat) (srcNodes : list Node) : option Node :=
  match fuel with
  | O => None
  | S fuel =>
    match nextLevel srcNodes with
    | [root] => Some root
    | [] => None
    | dstNodes => buildLevels fuel dstNodes
    end
  end.

Definition buildNextTreeLevel (srcNodes : list Node) : option Node :=
  buildLevels (length srcNodes) srcNodes.

Definition leafNode (i : nat) (h : bytes) : Node := mkNode None None h (Z.of_nat i) (Z.of_nat i).

Definition prepareAndBuildTree (hashes : list bytes) : option Node :=
  buildNextTreeLevel (imap leafNode hashes).

Definition BuildTreeForBlockTx `{!TxMarshal DataTxEnvelope, !TxMarshal UserAdministrationTxEnvelope,
    !TxMarshal DBAdministrationTxEnvelope, !TxMarshal ConfigTxEnvelope, !TxMarshal ValidationInfo}
    (block : Block) : res (option Node) :=
  h ← calculateBlockTxHashes block; Ok (prepareAndBuildTree h).

(** ** Proofs *)

Definition notPart {A} (leafIndex : Z) (n : Node) : res A :=
  Err (NotFoundErr ("node with index " +:+ pretty leafIndex +:+ " is not part of merkle tree (" +:+
    pretty (startIndex n) +:+ ", " +:+ pretty (endIndex n) +:+ ")")).

(** A path holds each node with its sibling. *)
Fixpoint findPath (sibling : option Node) (n : Node) (leafIndex : Z) : res (list (Node * option Node)) :=
  match left n with
  | None =>
    if Z.eqb (endIndex n) (startIndex n) && Z.eqb (endIndex n) leafIndex then Ok [(n, sibling)]
    else notPart leafIndex n
  | Some l =>
    if Z.ltb leafIndex (startIndex n) || Z.ltb (endIndex n) leafIndex then notPart leafIndex n
    else
      subPath ← (if Z.leb leafIndex (endIndex l) then findPath (right n) l leafIndex
                 else match right n with
                      | Some r => findPath (Some l) r leafIndex
                      | None => Err (PlainErr "no paths exist in nil tree")
                      end);
      Ok (subPath ++ [(n, sibling)])
  end.

Definition siblingHashes (path : list (Node * option Node)) : list bytes :=
  omap (fun '(_, s) => hash <$> s) path.

Definition computeProofFromPath (path : list (Node * option Node)) : list bytes :=
  match path with
  | [] => []
  | (n, _) :: _ => hash n :: siblingHashes (removelast path)
  end.

Definition Node_Proof (n : option Node) (leafIndex : Z) : res (list bytes) :=
  match n with
  | None => Err (PlainErr "no paths exist in nil tree")
  | Some n => path ← findPath None n leafIndex; Ok (computeProofFromPath path)
  end.

(** What a client does with a proof: fold the hashes and compare with the root. *)
Definition verifyProof (root : bytes) (proof : list bytes) : bool :=
  match proof with
  | [] => false
  | h :: siblings => bool_decide (foldl ConcatenateHashes h siblings = root)
  end.

(** ** Well-formed trees *)

Inductive tree_ok : nat → Node → Prop :=
  | tree_leaf i h : tree_ok 0 (mkNode None None h i i)
  | tree_one k l : tree_ok k l → tree_ok (S k) (parent l None)
  | tree_two k l r :
      tree_ok k l → tree_ok k r → startIndex r = (endIndex l + 1)%Z → tree_ok (S k) (parent l (Some r)).

Fixpoint leaves (n : Node) : list bytes :=
  match left n with
  | None => [hash n]
  | Some l => leaves l ++ match right n with Some r => leaves r | None => [] end
  end.

Lemma tree_ok_range k n :
  tree_ok k n → 0 < length (leaves n) ∧ endIndex n = (startIndex n + Z.of_nat (length (leaves n)) - 1)%Z.
Proof.
  induction 1 as [i h|k l _ IH|k l r _ IHl _ IHr Hs]; cbn; rewrite ?length_app; cbn; lia.
Qed.

(** Nodes of one level, covering adjacent ranges. *)
Fixpoint level_ok (k : nat) (s : Z) (l : list Node) : Prop :=
  match l with
  | [] => True
  | n :: l => tree_ok k n ∧ startIndex n = s ∧ level_ok k (endIndex n + 1) l
  end.

Lemma nextLevel_ok k s l :
  level_ok k s l →
  level_ok (S k) s (nextLevel l) ∧ List.concat (leaves <$> nextLevel l) = List.concat (leaves <$> l) ∧
  length (nextLevel l) = Nat.div2 (S (length l)).
Proof.
  revert s. induction l as [l IH] using (induction_ltof1 _ length); intros s.
  destruct l as [|a [|b l]]; cbn [level_ok nextLevel].
  - done.
  - intros (Ha & Hs & _). split_and!; [by constructor|done|done| |done]. cbn. by rewrite !app_nil_r.
  - intros (Ha & Hs & Hb & Hbs & Hl). destruct (IH l ltac:(unfold ltof; cbn; lia) _ Hl) as (H1 & H2 & H3).
    split_and!; [by constructor|done|done| |].
    + cbn [fmap list_fmap List.concat]. rewrite H2. cbn. by rewrite <- app_assoc.
    + cbn. by rewrite H3.
Qed.

Lemma div2_half n : 2 * Nat.div2 (S n) ≤ S n.
Proof. pose proof (Nat.div2_odd (S n)) as H. destruct (Nat.odd (S n)); cbn [Nat.b2n] in H; lia. Qed.

(** The tree over a level: as many levels above it as halvings, at least one. *)
Lemma buildLevels_ok fuel k s l :
  level_ok k s l → l ≠ [] → length l ≤ fuel →
  ∃ root j, buildLevels fuel l = Some root ∧ tree_ok (k + j) root ∧ startIndex root = s ∧
    leaves root = List.concat (leaves <$> l) ∧ ∀ e, length l ≤ 2 ^ e → j ≤ Nat.max 1 e.
Proof.
  revert k s l. induction fuel as [|fuel IH]; intros k s l Hl Hne Hf; [destruct l; [done|cbn in *; lia]|].
  destruct (nextLevel_ok _ _ _ Hl) as (Hn & Hc & Hlen). cbn [buildLevels].
  pose proof (div2_half (length l)) as Hhalf.
  destruct (nextLevel l) as [|a [|b l']] eqn:E; [by destruct l as [|? [|? ?]]|..].
  - exists a, 1. rewrite <- Hc. cbn in *. destruct Hn as (H1 & H2 & _).
    rewrite Nat.add_1_r, app_nil_r. split_and!; try done. intros; lia.
  - destruct (IH (S k) s (a :: b :: l') Hn ltac:(done)) as (root & j & Hr & Hok & Hs & Hle & Hj).
    { cbn in *. lia. }
    exists root, (S j). rewrite Hr, Hle, Hc. rewrite <- Nat.add_succ_comm in *. split_and!; try done.
    intros [|[|e]] He; cbn [length] in *; [cbn in He; lia..|].
    enough (j ≤ Nat.max 1 (S e)) by lia. apply Hj. cbn in *. lia.
Qed.

Lemma leaf_level_ok (hashes : list bytes) i :
  level_ok 0 (Z.of_nat i) (imap (fun j => leafNode (i + j)) hashes) ∧
  List.concat (leaves <$> imap (fun j => leafNode (i + j)) hashes) = hashes.
Proof.
  revert i. induction hashes as [|h hashes IH]; intros i; [done|].
  destruct (IH (S i)) as [H1 H2]. cbn [imap].
  assert (Heq : imap ((fun j => leafNode (i + j)) ∘ S) hashes = imap (fun j => leafNode (S i + j)) hashes).
  { apply imap_ext. intros j x _. cbn. by rewrite Nat.add_succ_r. }
  rewrite Heq. rewrite Nat.add_0_r. split.
  - split_and!; [constructor|done|]. cbn. by replace (Z.of_nat i + 1)%Z with (Z.of_nat (S i)) by lia.
  - rewrite fmap_cons. cbn [List.concat]. by rewrite H2.
Qed.

Lemma prepareAndBuildTree_ok hashes :
  hashes ≠ [] →
  ∃ root k, prepareAndBuildTree hashes = Some root ∧ tree_ok k root ∧ startIndex root = 0%Z ∧
    leaves root = hashes ∧ k ≤ Nat.max 1 (Nat.log2_up (length hashes)).
Proof.
  intros Hne. destruct (leaf_level_ok hashes 0) as [H1 H2]. cbn [Nat.add] in *.
  change (imap (fun j => leafNode j) hashes) with (imap leafNode hashes) in *.
  destruct (buildLevels_ok (length (imap leafNode hashes)) 0 0 (imap leafNode hashes))
    as (root & k & Hr & Hok & Hs & Hl & Hk); [done|by destruct hashes|done|].
  exists root, k. unfold prepareAndBuildTree, buildNextTreeLevel. split_and!; [done..|congruence|].
  apply Hk. rewrite length_imap. destruct (Nat.eq_dec (length hashes) 0) as [->|]; [cbn; lia|].
  destruct (Nat.eq_dec (length hashes) 1) as [->|]; [cbn; lia|]. apply Nat.log2_up_spec. lia.
Qed.

(** ** Completeness of proofs *)

Definition head_hash (path : list (Node * option Node)) : option bytes := hash ∘ fst <$> head path.

Lemma head_hash_app p x : p ≠ [] → head_hash (p ++ x) = head_hash p.
Proof. by destruct p. Qed.

Lemma siblingHashes_app p1 p2 : siblingHashes (p1 ++ p2) = siblingHashes p1 ++ siblingHashes p2.
Proof. apply omap_app. Qed.

(** The path to leaf [j] of a tree: its hashes fold to the hash of the tree. *)
Lemma findPath_ok k n sib j h :
  tree_ok k n → leaves n !! j = Some h →
  ∃ path, findPath sib n (startIndex n + Z.of_nat j) = Ok (path ++ [(n, sib)]) ∧
    head_hash (path ++ [(n, sib)]) = Some h ∧ length path = k ∧
    foldl ConcatenateHashes h (siblingHashes path) = hash n.
Proof.
  intros Hok. revert sib j. induction Hok as [i h'|k l Hl IH|k l r Hl IHl Hr IHr Hs]; intros sib j Hj.
  - destruct j as [|j]; [|done]. injection Hj as ->. exists []. cbn.
    by rewrite Z.add_0_r, !Z.eqb_refl.
  - pose proof (tree_ok_range _ _ Hl) as [Hpos Hend].
    cbn in Hj. rewrite app_nil_r in Hj. pose proof (lookup_lt_Some _ _ _ Hj) as Hlt.
    destruct (IH None j Hj) as (path & Hp & Hh & Hlen & Hf). exists (path ++ [(l, None)]).
    cbn [findPath parent left right startIndex endIndex]. cbn in *.
    rewrite (proj2 (Z.ltb_ge _ _)), (proj2 (Z.ltb_ge _ _)), (proj2 (Z.leb_le _ _)) by lia. cbn. rewrite Hp.
    rewrite head_hash_app, length_app, siblingHashes_app, foldl_app, Hf by (by destruct path).
    cbn. rewrite Hlen, Nat.add_1_r. split_and!; try done. unfold calcHash. cbn. by rewrite ConcatenateHashes_nil_r.
  - pose proof (tree_ok_range _ _ Hl) as [Hpl Hel]. pose proof (tree_ok_range _ _ Hr) as [Hpr Her].
    cbn in Hj. pose proof (lookup_lt_Some _ _ _ Hj) as Hlt. rewrite length_app in Hlt.
    cbn [findPath parent left right startIndex endIndex]. cbn.
    rewrite (proj2 (Z.ltb_ge _ _)), (proj2 (Z.ltb_ge _ _)) by lia. cbn.
    apply lookup_app_Some in Hj as [Hj|[Hge Hj]].
    + pose proof (lookup_lt_Some _ _ _ Hj). rewrite (proj2 (Z.leb_le _ _)) by lia.
      destruct (IHl (Some r) j Hj) as (path & Hp & Hh & Hlen & Hf). exists (path ++ [(l, Some r)]). rewrite Hp.
      rewrite head_hash_app, length_app, siblingHashes_app, foldl_app, Hf by (by destruct path).
      cbn. rewrite Hlen, Nat.add_1_r. done.
    + rewrite (proj2 (Z.leb_gt _ _)) by lia.
      destruct (IHr (Some l) _ Hj) as (path & Hp & Hh & Hlen & Hf). exists (path ++ [(r, Some l)]).
      replace (startIndex l + Z.of_nat j)%Z with (startIndex r + Z.of_nat (j - length (leaves l)))%Z by lia. rewrite Hp.
      rewrite head_hash_app, length_app, siblingHashes_app, foldl_app, Hf by (by destruct path).
      cbn. rewrite Hlen, Nat.add_1_r. split_and!; try done. apply ConcatenateHashes_comm.
Qed.

(** Outside the range of a tree there is no path. *)
Lemma findPath_outside k n sib i :
  tree_ok k n → (i < startIndex n ∨ endIndex n < i)%Z → findPath sib n i = notPart i n.
Proof.
  intros Hok Hi. destruct Hok as [i' h'|k l Hl|k l r Hl Hr Hs]; cbn in *.
  - destruct (Z.eqb_spec i' i); [lia|]. by rewrite andb_false_r.
  - destruct (Z.ltb_spec i (startIndex l)), (Z.ltb_spec (endIndex l) i); try done. lia.
  - destruct (Z.ltb_spec i (startIndex l)), (Z.ltb_spec (endIndex r) i); try done. lia.
Qed.

Lemma siblingHashes_length p : length (siblingHashes p) ≤ length p.
Proof. unfold siblingHashes. induction p as [|[n [s|]] p IH]; cbn; lia. Qed.

(** For every transaction of a block the tree has a proof; it starts with
    the hash of the transaction, is accepted against the root of the tree, and
    is logarithmic in the number of transactions. *)
Theorem tx_proof_complete hashes i h :
  hashes !! i = Some h →
  ∃ siblings, Node_Proof (prepareAndBuildTree hashes) (Z.of_nat i) = Ok (h :: siblings) ∧
    verifyProof (Hash (prepareAndBuildTree hashes)) (h :: siblings) = true ∧
    length siblings ≤ Nat.max 1 (Nat.log2_up (length hashes)).
Proof.
  intros Hi. destruct (prepareAndBuildTree_ok hashes) as (root & k & Hr & Hok & Hs & Hl & Hk); [by destruct hashes|].
  rewrite <- Hl in Hi. destruct (findPath_ok _ _ None _ _ Hok Hi) as (path & Hp & Hh & Hlen & Hf).
  exists (siblingHashes path). rewrite Hr. cbn [Node_Proof Hash]. rewrite Hs, Z.add_0_l in Hp. rewrite Hp. split_and!.
  - cbn. f_equal. unfold computeProofFromPath. destruct (path ++ [(root, None)]) as [|[n s] q] eqn:E.
    + by destruct path.
    + rewrite <- E, removelast_last. cbn in Hh. by injection Hh as ->.
  - cbn. by apply bool_decide_eq_true.
  - pose proof (siblingHashes_length path). lia.
Qed.

(** An index outside the block has no proof: the request fails with a
    not-found error that names the range of the tree. *)
Theorem tx_proof_out_of_range hashes i :
  hashes ≠ [] → (i < 0 ∨ Z.of_nat (length hashes) ≤ i)%Z →
  Node_Proof (prepareAndBuildTree hashes) i =
    Err (NotFoundErr ("node with index " +:+ pretty i +:+ " is not part of merkle tree (0, " +:+
      pretty (Z.of_nat (length hashes) - 1)%Z +:+ ")")).
Proof.
  intros Hne Hi. destruct (prepareAndBuildTree_ok hashes Hne) as (root & k & Hr & Hok & Hs & Hl & _).
  pose proof (tree_ok_range _ _ Hok) as [_ He]. rewrite Hr. cbn [Node_Proof].
  rewrite Hl, Hs in He. rewrite (findPath_outside _ _ _ _ Hok) by lia.
  unfold notPart. cbn. rewrite Hs, He. done.
Qed.

(** ** Soundness of proofs *)

(** The messages hashed for the inner nodes of a tree. *)
Fixpoint tree_messages (n : Node) : list bytes :=
  match left n, right n with
  | Some l, Some r => sorted_pair (hash l) (hash r) :: tree_messages l ++ tree_messages r
  | Some l, None => tree_messages l
  | None, _ => []
  end.

(** The messages hashed when a proof is verified. *)
Fixpoint proof_messages (h : bytes) (siblings : list bytes) : list bytes :=
  match siblings with
  | [] => []
  | s :: siblings => sorted_pair h s :: proof_messages (ConcatenateHashes h s) siblings
  end.

Lemma proof_messages_app h p s :
  proof_messages h (p ++ [s]) = proof_messages h p ++ [sorted_pair (foldl ConcatenateHashes h p) s].
Proof. revert h. induction p as [|x p IH]; intros h; cbn; [done|]. by rewrite IH. Qed.

Lemma length_32_not_nil {A} (l : list A) : length l = 32 → l ≠ [].
Proof. by destruct l. Qed.

Lemma ConcatenateHashes_length a b :
  length a = 32 → length b = 32 → length (ConcatenateHashes a b) = 32.
Proof.
  intros Ha Hb. rewrite ConcatenateHashes_eq by (by apply length_32_not_nil). apply ComputeSHA256Hash_length.
Qed.

Lemma fold_length h p :
  length h = 32 → Forall (fun s => length s = 32) p → length (foldl ConcatenateHashes h p) = 32.
Proof.
  intros Hh Hp. revert h Hh. induction Hp as [|s p Hs _ IH]; intros h Hh; cbn; [done|].
  apply IH. by apply ConcatenateHashes_length.
Qed.

Lemma sorted_pair_length a b : length a = 32 → length b = 32 → length (sorted_pair a b) = 64.
Proof. intros Ha Hb. unfold sorted_pair. destruct (bytes_ltb a b); rewrite length_app; lia. Qed.

Section Soundness.
(** The messages behind the leaves, and all messages that play a part. *)
Context (inputs msgs : list bytes).
Context (Hfree : collision_free msgs) (Hin : inputs ⊆ msgs).
Context (H64 : ∀ d, d ∈ inputs → length d ≠ 64).

Definition leaves_from (n : Node) : Prop :=
  ∀ h, h ∈ leaves n → ∃ d, d ∈ inputs ∧ h = ComputeSHA256Hash d.

Lemma leaves_from_left l r : leaves_from (parent l r) → leaves_from l.
Proof. intros H h Hh. apply H. cbn. apply elem_of_app. by left. Qed.

Lemma leaves_from_right l r : leaves_from (parent l (Some r)) → leaves_from r.
Proof. intros H h Hh. apply H. cbn. apply elem_of_app. by right. Qed.

Lemma tree_hash_length k n : tree_ok k n → leaves_from n → length (hash n) = 32.
Proof.
  induction 1 as [i h|k l Hl IH|k l r Hl IHl Hr IHr Hs]; intros Hf; cbn.
  - destruct (Hf h) as (d & _ & ->); [by left|]. apply ComputeSHA256Hash_length.
  - unfold calcHash. cbn. rewrite ConcatenateHashes_nil_r. eauto using leaves_from_left.
  - apply ConcatenateHashes_length; eauto using leaves_from_left, leaves_from_right.
Qed.

(** The hash of a tree comes from a leaf message, or from a pair of digests. *)
Lemma tree_hash_input k n :
  tree_ok k n → leaves_from n → tree_messages n ⊆ msgs →
  (∃ d, d ∈ inputs ∧ hash n = ComputeSHA256Hash d) ∨
  (∃ k' l r, k' < k ∧ tree_ok k' l ∧ tree_ok k' r ∧ leaves_from l ∧ leaves_from r ∧
     tree_messages l ⊆ msgs ∧ tree_messages r ⊆ msgs ∧ sorted_pair (hash l) (hash r) ∈ msgs ∧
     hash n = ComputeSHA256Hash (sorted_pair (hash l) (hash r))).
Proof.
  induction 1 as [i h|k l Hl IH|k l r Hl IHl Hr IHr Hs]; intros Hf Hm.
  - left. apply Hf. by left.
  - assert (hash (parent l None) = hash l) as -> by (cbn; unfold calcHash; cbn; apply ConcatenateHashes_nil_r).
    destruct IH as [?|(k' & l' & r' & ? & ?)]; [by eapply leaves_from_left|done|by left|].
    right. exists k', l', r'. split; [lia|done].
  - right. cbn [tree_messages parent left right] in Hm. exists k, l, r.
    assert (Hll : length (hash l) = 32) by (eapply tree_hash_length; eauto using leaves_from_left).
    assert (Hlr : length (hash r) = 32) by (eapply tree_hash_length; eauto using leaves_from_right).
    split_and!; [lia|done|done|by eapply leaves_from_left|by eapply leaves_from_right|set_solver|set_solver|set_solver|].
    cbn. unfold calcHash. cbn. by apply ConcatenateHashes_eq; apply length_32_not_nil.
Qed.

(** A hash that folds to the hash of a tree is the digest of a leaf message or of
    a pair of digests of the tree. *)
Lemma fold_sound h p k n :
  length h = 32 → Forall (fun s => length s = 32) p → proof_messages h p ⊆ msgs →
  tree_ok k n → leaves_from n → tree_messages n ⊆ msgs →
  foldl ConcatenateHashes h p = hash n →
  ∃ d, d ∈ msgs ∧ h = ComputeSHA256Hash d ∧ (d ∈ inputs ∨ length d = 64).
Proof.
  intros Hh. revert k n. induction p as [|s p IH] using rev_ind; intros k n Hp Hpm Hok Hf Hm Heq.
  - cbn in Heq. subst h. destruct (tree_hash_input _ _ Hok Hf Hm) as [(d & Hd & He)|(k' & l & r & ? & ? & ? & ? & ? & ? & ? & Hpair & He)].
    + exists d. auto.
    + exists (sorted_pair (hash l) (hash r)). split_and!; [done..|]. right.
      apply sorted_pair_length; by eapply tree_hash_length.
  - apply Forall_app in Hp as [Hp Hs]. apply Forall_cons in Hs as [Hs _]. rewrite foldl_app in Heq. cbn in Heq.
    rewrite proof_messages_app in Hpm. pose proof (fold_length _ _ Hh Hp) as Hg.
    rewrite ConcatenateHashes_eq in Heq by (by apply length_32_not_nil).
    assert (Hgs : sorted_pair (foldl ConcatenateHashes h p) s ∈ msgs) by set_solver.
    destruct (tree_hash_input _ _ Hok Hf Hm) as [(d & Hd & He)|(k' & l & r & ? & ? & ? & ? & ? & ? & ? & Hpair & He)].
    + rewrite He in Heq. apply Hfree in Heq; [|done|by apply Hin].
      destruct (H64 d Hd). rewrite <- Heq. by apply sorted_pair_length.
    + rewrite He in Heq. apply Hfree in Heq; [|done..].
      assert (Hll : length (hash l) = 32) by (by eapply tree_hash_length).
      assert (Hlr : length (hash r) = 32) by (by eapply tree_hash_length).
      destruct (sorted_pair_inj _ _ _ _ Hg Hs Hll Hlr Heq) as [[Hl _]|[Hr _]].
      * eapply (IH k' l); try done. set_solver.
      * eapply (IH k' r); try done. set_solver.
Qed.
End Soundness.

Section BlockProofs.
Context `{!TxMarshal DataTxEnvelope, !TxMarshal UserAdministrationTxEnvelope,
  !TxMarshal DBAdministrationTxEnvelope, !TxMarshal ConfigTxEnvelope, !TxMarshal ValidationInfo}.

(** The messages hashed for the transactions of a data block. *)
Definition txInputs (block : Block) (i : nat) (envs : list DataTxEnvelope) : list bytes :=
  omap (fun r => match r with Ok d => Some d | _ => None end)
    (imap (fun j env => info ← info_at block (i + j); txHashInput env info) envs).

Lemma dataTxHashes_ok block i envs hashes :
  dataTxHashes block i envs = Ok hashes → hashes = ComputeSHA256Hash <$> txInputs block i envs.
Proof.
  revert i hashes. induction envs as [|env envs IH]; intros i hashes H; cbn in H; [by simplify_eq|].
  apply bind_ok_inv in H as (info & Hinfo & H). apply bind_ok_inv in H as (h & Hh & H).
  apply bind_ok_inv in H as (hs & Hhs & H). injection H as <-. apply IH in Hhs as ->.
  rewrite wrap_err_ok in Hh. apply bind_ok_inv in Hh as (d & Hd & Hh). injection Hh as <-.
  unfold txInputs at 2. cbn. rewrite Nat.add_0_r, Hinfo. cbn. rewrite Hd. cbn. f_equal. unfold txInputs. do 2 f_equal.
  apply imap_ext. intros j x _. cbn. by rewrite Nat.add_succ_r.
Qed.

Lemma elem_of_txInputs block envs d :
  d ∈ txInputs block 0 envs →
  ∃ j env info, envs !! j = Some env ∧ ValidationInfos (Header block) !! j = Some info ∧ txHashInput env info = Ok d.
Proof.
  unfold txInputs. intros (r & Hr & Hd)%list_elem_of_omap. destruct r as [d'| |]; [|done..]. injection Hd as ->.
  apply list_elem_of_lookup in Hr as (j & Hj). rewrite list_lookup_imap in Hj.
  apply fmap_Some in Hj as (env & He & Hj). symmetry in Hj. apply bind_ok_inv in Hj as (info & Hi & Ht).
  unfold info_at in Hi. cbn in Hi. destruct (ValidationInfos (Header block) !! j) eqn:E; [|done].
  injection Hi as ->. eauto 6.
Qed.

Lemma txHashInput_ok `{!TxMarshal A} (msg : A) info d :
  txHashInput msg info = Ok d → ∃ pb vb, marshalTx msg = Ok pb ∧ marshalTx info = Ok vb ∧ d = pb ++ vb.
Proof. unfold txHashInput. intros H. inv_res. subst. eauto. Qed.

(** C13: an accepted proof is sound: if the hash of a message folds, with sibling
    digests of any origin, to the root of the tree of a data block, then the
    message is a transaction of the block followed by the verdict that the header
    records for it.  The hypotheses: no two different messages
    among those hashed on either side collide, and no transaction message has
    the length of a pair of digests. *)
Theorem tx_proof_sound block envs root d siblings :
  Payload block = Some (Block_DataTxEnvelopes envs) → BuildTreeForBlockTx block = Ok (Some root) →
  collision_free (d :: txInputs block 0 envs ++ tree_messages root ++ proof_messages (ComputeSHA256Hash d) siblings) →
  (∀ m, m ∈ d :: txInputs block 0 envs → length m ≠ 64) →
  Forall (fun s => length s = 32) siblings →
  verifyProof (hash root) (ComputeSHA256Hash d :: siblings) = true →
  ∃ j env info pb vb, envs !! j = Some env ∧ ValidationInfos (Header block) !! j = Some info ∧
    marshalTx env = Ok pb ∧ marshalTx info = Ok vb ∧ d = pb ++ vb.
Proof.
  intros Hp Hb Hfree H64 Hs Hv. enough (Hd : d ∈ txInputs block 0 envs).
  { apply elem_of_txInputs in Hd as (j & env & info & He & Hi & (pb & vb & H)%txHashInput_ok). by exists j, env, info, pb, vb. }
  unfold BuildTreeForBlockTx, calculateBlockTxHashes in Hb. rewrite Hp in Hb. inv_res.
  apply dataTxHashes_ok in H. subst x.
  destruct (prepareAndBuildTree_ok (ComputeSHA256Hash <$> txInputs block 0 envs)) as (root' & k & Hr & Hok & _ & Hl & _).
  { intros E. by rewrite E in Hb. }
  rewrite Hb in Hr. injection Hr as <-. apply bool_decide_eq_true in Hv.
  destruct (fold_sound (txInputs block 0 envs) _ Hfree ltac:(set_solver) ltac:(set_solver)
    (ComputeSHA256Hash d) siblings k root (ComputeSHA256Hash_length d) Hs ltac:(set_solver) Hok) as (d' & Hd' & Heq & Hor).
  { intros h. rewrite Hl. intros (m & -> & Hm)%list_elem_of_fmap. eauto. }
  { set_solver. }
  { done. }
  apply Hfree in Heq; [|by left|done]. subst d'.
  destruct Hor as [?|Hlen]; [done|]. destruct (H64 d); [by left|done].
Qed.
End BlockProofs.

(** ** What the root does not fix *)

Lemma nextLevel_hashes l1 l2 :
  hash <$> l1 = hash <$> l2 → hash <$> nextLevel l1 = hash <$> nextLevel l2.
Proof.
  revert l2. induction l1 as [l1 IH] using (induction_ltof1 _ length); intros l2 H.
  destruct l1 as [|a [|b l1]], l2 as [|a' [|b' l2]]; try done; cbn in *; injection H as Ha.
  - unfold calcHash. cbn. congruence.
  - f_equal; [unfold calcHash; cbn; congruence|]. apply IH; [unfold ltof; cbn; lia|done].
Qed.

Lemma buildLevels_hashes fuel l1 l2 :
  hash <$> nextLevel l1 = hash <$> nextLevel l2 →
  Hash (buildLevels (S fuel) l1) = Hash (buildLevels (S fuel) l2).
Proof.
  revert l1 l2. induction fuel as [|fuel IH]; intros l1 l2 H;
    cbn -[nextLevel]; set (m1 := nextLevel l1) in *; set (m2 := nextLevel l2) in *; clearbody m1 m2;
    destruct m1 as [|a [|b m1]], m2 as [|a' [|b' m2]]; try done; cbn in H; try (cbn; congruence).
  by apply IH, nextLevel_hashes.
Qed.

Lemma nextLevel_app l1 l2 : Nat.Even (length l1) → nextLevel (l1 ++ l2) = nextLevel l1 ++ nextLevel l2.
Proof.
  induction l1 as [l1 IH] using (induction_ltof1 _ length). intros [m Hm].
  destruct l1 as [|a [|b l1]]; cbn in *; [done|lia|]. f_equal. apply IH; [unfold ltof; cbn; lia|].
  exists (pred m). lia.
Qed.

(** The root does not fix the order of the transactions: exchanging two
    sibling transactions, each with its verdict, leaves it unchanged. *)
Theorem tx_root_order_blind pre a b post :
  Nat.Even (length pre) →
  Hash (prepareAndBuildTree (pre ++ a :: b :: post)) = Hash (prepareAndBuildTree (pre ++ b :: a :: post)).
Proof.
  intros He. unfold prepareAndBuildTree, buildNextTreeLevel. rewrite !length_imap, !length_app. cbn [length].
  rewrite !imap_app. cbn [imap]. generalize (length pre + S (S (length post))) as fuel.
  intros [|fuel]; [done|].
  set (P := imap leafNode pre). set (Q := imap _ post).
  assert (HP : Nat.Even (length P)) by (unfold P; by rewrite length_imap).
  assert (Hn : hash <$> nextLevel (P ++ leafNode (length pre + 0) a :: leafNode (length pre + 1) b :: Q) =
    hash <$> nextLevel (P ++ leafNode (length pre + 0) b :: leafNode (length pre + 1) a :: Q)).
  { rewrite !nextLevel_app, !fmap_app by done. f_equal. cbn. f_equal. apply ConcatenateHashes_comm. }
  by apply buildLevels_hashes.
Qed.

(** ** An example *)

Module MerkleExample.

(** Envelopes and verdicts in a toy wire format. *)
#[local] Instance marshal `{Countable A} : TxMarshal A | 100 := fun a => Ok (positive_bits (encode a)).

Definition envs : list DataTxEnvelope :=
  (fun id => mkDataTxEnvelope (mkDataTx ["alice"] id []) ∅) <$> ["tx0"; "tx1"; "tx2"].
Definition block : Block :=
  mkBlock (mkBlockHeader (mkBlockHeaderBase 2 [] [] 1) [] [] []
    [mkValidationInfo VALID ""; mkValidationInfo VALID ""; mkValidationInfo INVALID_NO_PERMISSION "denied"])
    (Some (Block_DataTxEnvelopes envs)) None.
Definition hashes : list bytes := match calculateBlockTxHashes block with Ok h => h | _ => [] end.

Lemma tx_proof_complete_witness :
  ∃ siblings, Node_Proof (prepareAndBuildTree hashes) 1 = Ok (nth 1 hashes [] :: siblings) ∧
    verifyProof (Hash (prepareAndBuildTree hashes)) (nth 1 hashes [] :: siblings) = true ∧
    length siblings ≤ Nat.max 1 (Nat.log2_up (length hashes)).
Proof. exact (tx_proof_complete hashes 1 (nth 1 hashes []) ltac:(vm_compute; reflexivity)). Defined.

Lemma tx_proof_out_of_range_witness :
  Node_Proof (prepareAndBuildTree [[1%Z]; [2%Z]]) 2 =
    Err (NotFoundErr "node with index 2 is not part of merkle tree (0, 1)").
Proof. exact (tx_proof_out_of_range [[1%Z]; [2%Z]] 2 ltac:(done) ltac:(cbn; lia)). Defined.

Definition root : Node := default (leafNode 0 []) (prepareAndBuildTree hashes).
Definition message : bytes := nth 1 (txInputs block 0 envs) [].
Definition siblings : list bytes :=
  match Node_Proof (prepareAndBuildTree hashes) 1 with Ok p => tail p | _ => [] end.

Lemma root_built : BuildTreeForBlockTx block = Ok (Some root).
Proof. vm_compute. reflexivity. Qed.

Lemma messages_distinct : collision_free (message :: txInputs block 0 envs ++ tree_messages root ++
  proof_messages (ComputeSHA256Hash message) siblings).
Proof. apply collision_freeb_ok. vm_compute. reflexivity. Qed.

Lemma messages_long m : m ∈ message :: txInputs block 0 envs → length m ≠ 64.
Proof.
  revert m. apply Forall_forall.
  refine (bool_decide_unpack _ _). vm_compute. exact I.
Qed.

Lemma siblings_length : Forall (fun s => length s = 32) siblings.
Proof. refine (bool_decide_unpack _ _). vm_compute. exact I. Qed.

Lemma message_verifies : verifyProof (hash root) (ComputeSHA256Hash message :: siblings) = true.
Proof. vm_compute. reflexivity. Qed.

Lemma tx_proof_sound_witness :
  ∃ j env info pb vb, envs !! j = Some env ∧ ValidationInfos (Header block) !! j = Some info ∧
    marshalTx env = Ok pb ∧ marshalTx info = Ok vb ∧ message = pb ++ vb.
Proof.
  exact (tx_proof_sound block envs root message siblings eq_refl root_built messages_distinct messages_long
           siblings_length message_verifies).
Defined.

Lemma tx_root_order_blind_witness :
  Hash (prepareAndBuildTree ([[1%Z]; [2%Z]] ++ [3%Z] :: [4%Z] :: [])) =
  Hash (prepareAndBuildTree ([[1%Z]; [2%Z]] ++ [4%Z] :: [3%Z] :: [])).
Proof. exact (tx_root_order_blind [[1%Z]; [2%Z]] [3%Z] [4%Z] [] (ex_intro _ 1 eq_refl)). Defined.

End MerkleExample.
