(* ===== verification/BlockEncoding.v ===== *)
(** * Keys of the block store

    [internal/blockstore/encoding.go]: block numbers as byte strings whose
    lexicographic order is the order of the numbers, and the varints of
    [github.com/golang/protobuf]. *)

From S2P Require Import Prelude Crypto Varint.
Local Open Scope Z_scope.

(** [proto.EncodeVarint] and [proto.DecodeVarint]: the same format as
    [binary.PutUvarint]; decoding returns the number of bytes it consumed, zero
    if the input ends too early. *)
Class ProtoVarint := {
  EncodeVarint : Z → bytes;
  DecodeVarint : bytes → Z * Z;
  encode_varint : ∀ x, 0 ≤ x < 2 ^ 64 → EncodeVarint x = PutUvarint x;
  decode_encode_varint : ∀ x rest, 0 ≤ x < 2 ^ 64 →
    DecodeVarint (PutUvarint x ++ rest) = (x, Z.of_nat (length (PutUvarint x)));
  decode_varint_short : ∀ x p q, 0 ≤ x < 2 ^ 64 → PutUvarint x = p ++ q → q ≠ [] →
    DecodeVarint p = (0, 0);
}.

(** ** Big-endian bytes *)

(** [binary.BigEndian.PutUint64] for [n = 8]. *)
Fixpoint be (n : nat) (x : Z) : bytes :=
  match n with
  | O => []
  | S n => (x / 256 ^ Z.of_nat n) mod 256 :: be n x
  end.

(** [binary.BigEndian.Uint64] *)
Definition of_be (b : bytes) : Z := foldl (fun acc c => acc * 256 + c) 0 b.

Lemma be_length n x : length (be n x) = n.
Proof. induction n; cbn; auto. Qed.

Lemma pow256_succ (n : nat) : 256 ^ Z.of_nat (S n) = 256 * 256 ^ Z.of_nat n.
Proof. rewrite Nat2Z.inj_succ, Z.pow_succ_r by lia. done. Qed.

Lemma pow256_pos (n : nat) : 0 < 256 ^ Z.of_nat n.
Proof. apply Z.pow_pos_nonneg; lia. Qed.

Lemma be_mod n x : be n (x mod 256 ^ Z.of_nat n) = be n x.
Proof.
  assert (H : ∀ m, (n ≤ m)%nat → be n (x mod 256 ^ Z.of_nat m) = be n x); [|by apply H].
  induction n as [|n IH]; intros m Hm; cbn; [done|]. rewrite IH by lia. f_equal.
  replace (Z.of_nat m) with (Z.of_nat n + (1 + Z.of_nat (m - S n))) by lia.
  rewrite !Z.pow_add_r by lia. change (256 ^ 1) with 256.
  pose proof (pow256_pos n). pose proof (pow256_pos (m - S n)).
  rewrite Z.rem_mul_r, (Z.add_comm (x mod _)), (Z.mul_comm (256 ^ Z.of_nat n) (_ mod _)), Z.div_add_l by lia.
  rewrite (Z.div_small (x mod _)), Z.add_0_r by (apply Z.mod_pos_bound; lia).
  by rewrite Z.rem_mul_r, Z.mul_comm, Z.mod_add, Z.mod_mod by lia.
Qed.

Lemma of_be_be_acc n x acc :
  0 ≤ x < 256 ^ Z.of_nat n →
  foldl (fun acc c => acc * 256 + c) acc (be n x) = acc * 256 ^ Z.of_nat n + x.
Proof.
  revert x acc. induction n as [|n IH]; intros x acc Hx; cbn [be foldl]; [change (256 ^ Z.of_nat 0) with 1 in *; lia|].
  rewrite pow256_succ in *. pose proof (pow256_pos n).
  rewrite <- be_mod, IH by (apply Z.mod_pos_bound; lia).
  rewrite (Z.mod_small (x / _)) by (split; [apply Z.div_pos; lia|apply Z.div_lt_upper_bound; lia]).
  pose proof (Z.div_mod x (256 ^ Z.of_nat n) ltac:(lia)). lia.
Qed.

Lemma of_be_be n x : 0 ≤ x < 256 ^ Z.of_nat n → of_be (be n x) = x.
Proof. intros H. unfold of_be. rewrite of_be_be_acc by done. lia. Qed.

Lemma of_be_zeros n b : of_be (replicate n 0 ++ b) = of_be b.
Proof. unfold of_be. rewrite foldl_app. f_equal. by induction n. Qed.

(** The order of numbers of one width is the order of their bytes. *)
Lemma be_order n x y :
  0 ≤ x < 256 ^ Z.of_nat n → 0 ≤ y < 256 ^ Z.of_nat n → x < y → bytes_ltb (be n x) (be n y) = true.
Proof.
  revert x y. induction n as [|n IH]; intros x y Hx Hy Hlt; cbn [be bytes_ltb]; [change (256 ^ Z.of_nat 0) with 1 in *; lia|].
  rewrite pow256_succ in *. pose proof (pow256_pos n).
  rewrite !(Z.mod_small (_ / _)) by (split; [apply Z.div_pos; lia|apply Z.div_lt_upper_bound; lia]).
  pose proof (Z.div_mod x (256 ^ Z.of_nat n) ltac:(lia)). pose proof (Z.div_mod y (256 ^ Z.of_nat n) ltac:(lia)).
  pose proof (Z.mod_pos_bound x (256 ^ Z.of_nat n) ltac:(lia)). pose proof (Z.mod_pos_bound y (256 ^ Z.of_nat n) ltac:(lia)).
  destruct (Z.ltb_spec (x / 256 ^ Z.of_nat n) (y / 256 ^ Z.of_nat n)) as [|Hge]; [done|].
  assert (Heq : x / 256 ^ Z.of_nat n = y / 256 ^ Z.of_nat n) by nia.
  rewrite (proj2 (Z.ltb_ge (y / _) (x / _))) by lia.
  rewrite <- (be_mod n x), <- (be_mod n y). apply IH; [done..|]. nia.
Qed.

(** ** Order-preserving numbers *)

(** The number without its leading zero bytes. *)
Fixpoint strip_zeros (b : bytes) : bytes :=
  match b with
  | c :: rest => if Z.eqb c 0 then strip_zeros rest else b
  | [] => []
  end.

Definition encodeOrderPreservingVarUint64 `{!ProtoVarint} (number : Z) : res bytes :=
  let digits := strip_zeros (be 8 number) in
  match EncodeVarint (Z.of_nat (length digits)) with
  | [size] => Ok (size :: digits)
  | [] => Panic "index out of range"
  | _ => Panic "[]sizeBytes should not be more than one byte because the max number it needs to hold is 8"
  end.

(** The number and how many bytes it took. *)
Definition decodeOrderPreservingVarUint64 `{!ProtoVarint} (b : bytes) : res (Z * Z) :=
  let '(s, numBytes) := DecodeVarint b in
  if negb (Z.eqb numBytes 1) then
    Err (PlainErr ("number of consumed bytes from DecodeVarint is invalid, expected 1, but got " +:+ pretty numBytes))
  else if Z.ltb 8 s then
    Err (PlainErr ("decoded size from DecodeVarint is invalid, expected <=8, but got " +:+ pretty s))
  else if Z.ltb (Z.of_nat (length b) - 1) s then
    Err (PlainErr ("decoded size (" +:+ pretty s +:+ ") from DecodeVarint is more than available bytes (" +:+
      pretty (Z.of_nat (length b) - 1) +:+ ")"))
  else
    let size := Z.to_nat s in
    Ok (of_be (replicate (8 - size) 0 ++ take size (drop 1 b)), s + 1).

Lemma strip_be n x :
  0 ≤ x < 256 ^ Z.of_nat n →
  ∃ k, (k ≤ n)%nat ∧ strip_zeros (be n x) = be k x ∧ x < 256 ^ Z.of_nat k ∧
    (k = 0%nat ∨ 256 ^ Z.of_nat (pred k) ≤ x).
Proof.
  induction n as [|n IH]; intros Hx; [exists 0%nat; cbn; auto with lia|].
  cbn [be strip_zeros]. rewrite pow256_succ in Hx. pose proof (pow256_pos n).
  rewrite Z.mod_small by (split; [apply Z.div_pos; lia|apply Z.div_lt_upper_bound; lia]).
  destruct (Z.eqb_spec (x / 256 ^ Z.of_nat n) 0) as [E|E].
  - apply Z.div_small_iff in E; [|lia]. destruct IH as (k & Hk & ?); [lia|]. exists k. split; [lia|done].
  - exists (S n). split_and!; [lia| |rewrite pow256_succ; lia|].
    + cbn [be]. by rewrite Z.mod_small by (split; [apply Z.div_pos; lia|apply Z.div_lt_upper_bound; lia]).
    + right. cbn [pred]. rewrite Z.div_small_iff in E by lia. lia.
Qed.

Section Encoding.
Context {pv : ProtoVarint}.

(** The encoding: a length byte and that many big-endian bytes, no more than needed. *)
Lemma encode_spec x :
  0 ≤ x < 2 ^ 64 →
  ∃ k, (k ≤ 8)%nat ∧ encodeOrderPreservingVarUint64 x = Ok (Z.of_nat k :: be k x) ∧ x < 256 ^ Z.of_nat k ∧
    (k = 0%nat ∨ 256 ^ Z.of_nat (pred k) ≤ x).
Proof.
  intros Hx. destruct (strip_be 8 x Hx) as (k & Hk & Hs & Hlt & Hor). exists k. split_and!; try done.
  unfold encodeOrderPreservingVarUint64. rewrite Hs, be_length, encode_varint by lia.
  unfold PutUvarint. cbn [put_uvarint]. by rewrite (proj2 (Z.ltb_lt _ _)) by lia.
Qed.

Lemma decode_encode_key x rest :
  0 ≤ x < 2 ^ 64 →
  ∃ key, encodeOrderPreservingVarUint64 x = Ok key ∧
    decodeOrderPreservingVarUint64 (key ++ rest) = Ok (x, Z.of_nat (length key)).
Proof.
  intros Hx. destruct (encode_spec x Hx) as (k & Hk & He & Hlt & _). eexists. split; [done|].
  unfold decodeOrderPreservingVarUint64.
  assert (Hp : PutUvarint (Z.of_nat k) = [Z.of_nat k])
    by (unfold PutUvarint; cbn [put_uvarint]; by rewrite (proj2 (Z.ltb_lt _ _)) by lia).
  pose proof (decode_encode_varint (Z.of_nat k) (be k x ++ rest) ltac:(lia)) as Hd.
  rewrite Hp in Hd. cbn [app] in *. rewrite Hd. cbn [length].
  change (drop 1 (Z.of_nat k :: be k x ++ rest)) with (be k x ++ rest).
  rewrite length_app, be_length. change (Z.of_nat 1 =? 1) with true. cbn [negb].
  rewrite (proj2 (Z.ltb_ge 8 _)), (proj2 (Z.ltb_ge _ (Z.of_nat k))) by lia.
  rewrite Nat2Z.id, take_app_length', of_be_zeros, of_be_be by (rewrite ?be_length; lia).
  do 2 f_equal. lia.
Qed.

Lemma encode_key_order x y kx ky :
  0 ≤ x < y → y < 2 ^ 64 →
  encodeOrderPreservingVarUint64 x = Ok kx → encodeOrderPreservingVarUint64 y = Ok ky →
  bytes_ltb kx ky = true ∧ bytes_ltb ky kx = false.
Proof.
  intros Hx Hy Ekx Eky. enough (bytes_ltb kx ky = true) by eauto using bytes_ltb_asym.
  destruct (encode_spec x ltac:(lia)) as (k & Hk & He & Hlt & Hor).
  destruct (encode_spec y ltac:(lia)) as (k' & Hk' & He' & Hlt' & Hor').
  rewrite He in Ekx. rewrite He' in Eky. injection Ekx as <-. injection Eky as <-. cbn.
  assert (Hle : (k ≤ k')%nat).
  { destruct Hor as [->|Hge]; [lia|]. apply Nat.nlt_ge. intros Hkk.
    pose proof (Z.pow_le_mono_r 256 (Z.of_nat k') (Z.of_nat (pred k)) ltac:(lia) ltac:(lia)). lia. }
  destruct (Z.ltb_spec (Z.of_nat k) (Z.of_nat k')); [done|].
  rewrite (proj2 (Z.ltb_ge (Z.of_nat k') _)) by lia. replace k' with k in * by lia.
  apply be_order; lia.
Qed.

(** The key of a block number decodes to that number, whatever follows it in
    a longer key, and reports how long the key was. *)
Theorem decode_encodeOrderPreserving x rest :
  0 ≤ x < 2 ^ 64 →
  ∃ key, encodeOrderPreservingVarUint64 x = Ok key ∧
    decodeOrderPreservingVarUint64 (key ++ rest) = Ok (x, Z.of_nat (length key)).
Proof. apply decode_encode_key. Qed.

(** The keys of block numbers are ordered, byte by byte, as the numbers are:
    the last key of the index is that of the last block. *)
Theorem encodeOrderPreserving_order x y kx ky :
  0 ≤ x < y → y < 2 ^ 64 →
  encodeOrderPreservingVarUint64 x = Ok kx → encodeOrderPreservingVarUint64 y = Ok ky →
  bytes_ltb kx ky = true ∧ bytes_ltb ky kx = false.
Proof. apply encode_key_order. Qed.

Lemma encodeOrderPreserving_inj x y k :
  0 ≤ x < 2 ^ 64 → 0 ≤ y < 2 ^ 64 →
  encodeOrderPreservingVarUint64 x = Ok k → encodeOrderPreservingVarUint64 y = Ok k → x = y.
Proof.
  intros Hx Hy Ex Ey.
  destruct (encode_spec x Hx) as (a & Ha & Ea & Hlta & _). destruct (encode_spec y Hy) as (b & Hb & Eb & Hltb & _).
  rewrite Ex in Ea. rewrite Ey in Eb. injection Ea as ->. injection Eb as Hab%Nat2Z.inj Hbe. subst b.
  rewrite <- (of_be_be a x), <- (of_be_be a y) by lia. by f_equal.
Qed.
End Encoding.

(** ** An instance *)

Module VarintExample.

(** [proto.DecodeVarint] on the reader of [encoding/binary]. *)
Definition decode_varint (b : bytes) : Z * Z :=
  match ReadUvarint b with
  | Ok (x, rest) => (x, Z.of_nat (length b - length rest))
  | _ => (0, 0)
  end.

Lemma read_uvarint_short fuel acc s fuel' x p q :
  put_uvarint fuel' x = p ++ q → q ≠ [] → 0 ≤ x → ∃ e, read_uvarint fuel acc s p = Err e.
Proof.
  revert fuel acc s x p. induction fuel' as [|fuel' IH]; intros [|fuel] acc s x p Hp Hq Hx; cbn in *; eauto.
  - destruct p as [|c p]; [eauto|]. injection Hp as <- Hp. by destruct p, q.
  - destruct p as [|c p]; [eauto|]. destruct (Z.ltb_spec x 128).
    + injection Hp as <- Hp. by destruct p, q.
    + injection Hp as <- Hp. pose proof (Z.mod_pos_bound x 128 ltac:(lia)).
      rewrite (proj2 (Z.ltb_ge _ _)) by lia. eapply IH; [done..|]. apply Z.div_pos; lia.
Qed.

#[export] Program Instance proto_varint : ProtoVarint := {|
  EncodeVarint := PutUvarint;
  DecodeVarint := decode_varint;
|}.
Next Obligation. done. Qed.
Next Obligation.
  intros x rest Hx. unfold decode_varint. rewrite ReadUvarint_PutUvarint, length_app by done.
  do 2 f_equal. lia.
Qed.
Next Obligation.
  intros x p q Hx Hp Hq. unfold decode_varint.
  destruct (read_uvarint_short MaxVarintLen64 0 0 9 x p q Hp Hq ltac:(lia)) as [e He].
  unfold ReadUvarint. by rewrite He.
Qed.

Lemma decode_encodeOrderPreserving_witness :
  ∃ key, encodeOrderPreservingVarUint64 300 = Ok key ∧
    decodeOrderPreservingVarUint64 (key ++ [7]) = Ok (300, Z.of_nat (length key)).
Proof. exact (decode_encodeOrderPreserving 300 [7] ltac:(lia)). Defined.

Lemma encodeOrderPreserving_order_witness :
  bytes_ltb [1; 255] [2; 1; 0] = true ∧ bytes_ltb [2; 1; 0] [1; 255] = false.
Proof. exact (encodeOrderPreserving_order 255 256 [1; 255] [2; 1; 0] ltac:(lia) ltac:(lia) eq_refl eq_refl). Defined.

End VarintExample.
