(* ===== verification/BlockStore.v ===== *)
(** * The block store

    [internal/blockstore]: blocks are appended to chunk files; three databases
    hold the location of each block, its header and hashes, and the verdict of
    each transaction.  The state includes the position of the descriptor of the
    current chunk, which appends and reads share. *)

From S2P Require Import Prelude Crypto Types Varint BlockEncoding.
Local Open Scope Z_scope.

Record BlockLocation := mkBlockLocation {
  FileChunkNum : Z;
  Offset : Z;
  Length : Z;
}.

Record TxInfo := mkTxInfo {
  TI_BlockNumber : Z;
  TI_TxIndex : Z;
  TI_Validation : ValidationInfo;
}.

Record BlockTxIDs := mkBlockTxIDs { TxIds : list string }.

Record AugmentedBlockHeader := mkAugmentedBlockHeader {
  ABH_Header : BlockHeader;
  ABH_TxIds : list string;
}.

#[export] Instance BlockLocation_eq_dec : EqDecision BlockLocation.
Proof. solve_decision. Defined.
#[export] Instance BlockLocation_countable : Countable BlockLocation.
Proof.
  refine (inj_countable' (fun r => (FileChunkNum r, Offset r, Length r))
    (fun '(a, b, c) => mkBlockLocation a b c) _); by intros [].
Defined.
#[export] Instance TxInfo_eq_dec : EqDecision TxInfo.
Proof. solve_decision. Defined.
#[export] Instance TxInfo_countable : Countable TxInfo.
Proof.
  refine (inj_countable' (fun r => (TI_BlockNumber r, TI_TxIndex r, TI_Validation r))
    (fun '(a, b, c) => mkTxInfo a b c) _); by intros [].
Defined.
#[export] Instance BlockTxIDs_eq_dec : EqDecision BlockTxIDs.
Proof. solve_decision. Defined.
#[export] Instance BlockTxIDs_countable : Countable BlockTxIDs.
Proof. refine (inj_countable' TxIds mkBlockTxIDs _); by intros []. Defined.

(** [github.com/golang/snappy] *)
Class Snappy := {
  SnappyEncode : bytes → bytes;
  SnappyDecode : bytes → res bytes;
  snappy_decode_encode : ∀ b, SnappyDecode (SnappyEncode b) = Ok b;
}.

Record Store := mkStore {
  fileChunks : gmap Z bytes;
  ioOffset : Z;
  currentOffset : Z;
  currentChunkNum : Z;
  lastCommittedBlockNum : Z;
  blockIndexDB : gmap bytes bytes;
  blockHeaderDB : gmap bytes bytes;
  txValidationInfoDB : gmap bytes bytes;
}.

#[export] Instance Store_eq_dec : EqDecision Store.
Proof. solve_decision. Defined.

Definition file_at (s : Store) (n : Z) : bytes := default [] (fileChunks s !! n).

Definition set_files (s : Store) (files : gmap Z bytes) (io : Z) : Store :=
  mkStore files io (currentOffset s) (currentChunkNum s) (lastCommittedBlockNum s)
    (blockIndexDB s) (blockHeaderDB s) (txValidationInfoDB s).
Definition set_io (s : Store) (io : Z) : Store := set_files s (fileChunks s) io.
Definition set_current (s : Store) (offset chunk last : Z) : Store :=
  mkStore (fileChunks s) (ioOffset s) offset chunk last
    (blockIndexDB s) (blockHeaderDB s) (txValidationInfoDB s).
Definition set_dbs (s : Store) (index headers infos : gmap bytes bytes) : Store :=
  mkStore (fileChunks s) (ioOffset s) (currentOffset s) (currentChunkNum s) (lastCommittedBlockNum s)
    index headers infos.

(** ** Files *)

(** [f.Write] at position [pos]: a hole before it reads as zeros. *)
Definition write_at (f : bytes) (pos : Z) (content : bytes) : bytes :=
  take (Z.to_nat pos) f ++ replicate (Z.to_nat pos - length f) 0 ++ content ++
  drop (Z.to_nat pos + length content) f.

(** [f.Truncate] *)
Definition truncate (f : bytes) (size : Z) : bytes :=
  take (Z.to_nat size) f ++ replicate (Z.to_nat size - length f) 0.

(** One [read] system call of at most [n] bytes. *)
Definition os_read (f : bytes) (pos : Z) (n : nat) : bytes := take n (drop (Z.to_nat pos) f).

(** [bufio.Reader] with its default buffer. *)
Definition bufioSize : nat := 4096.

Lemma bufioSize_big : (10 ≤ bufioSize)%nat.
Proof. apply Nat.leb_le. reflexivity. Qed.

#[global] Opaque bufioSize.

Record Reader := mkReader { rd_pos : Z; rd_buf : bytes }.

Definition bufio_fill (f : bytes) (r : Reader) : Reader :=
  let b := os_read f (rd_pos r) bufioSize in
  mkReader (rd_pos r + Z.of_nat (length b)) (rd_buf r ++ b).

(** [io.ReadFull] of [n] bytes: the buffer first; what is still missing is read
    directly if it is at least as long as the buffer, and through the buffer
    otherwise.  A short read means the end of the file. *)
Definition bufio_readFull (f : bytes) (r : Reader) (n : nat) : Reader * res bytes :=
  let a := take n (rd_buf r) in
  let need := (n - length a)%nat in
  if bool_decide (need = 0%nat) then (mkReader (rd_pos r) (drop n (rd_buf r)), Ok a)
  else
    let b := os_read f (rd_pos r) (if bool_decide (bufioSize ≤ need)%nat then need else bufioSize) in
    let r' := mkReader (rd_pos r + Z.of_nat (length b)) (drop need b) in
    if bool_decide (need ≤ length b)%nat then (r', Ok (a ++ take need b))
    else (r', Err (PlainErr (if bool_decide (a ++ b = []) then "EOF" else "unexpected EOF"))).

(** ** Operations *)

Section Store.
Context `{!Codec Block, !Codec BlockHeader, !Codec BlockHeaderBase, !Codec BlockLocation,
  !Codec TxInfo, !Codec BlockTxIDs} {sn : Snappy} {pv : ProtoVarint}.
(** The size at which a chunk is full: 64 MiB, a variable of the package. *)
Context (chunkSizeLimit : Z).

Definition openNewStore : Store := mkStore {[0 := []]} 0 0 0 0 ∅ ∅ ∅.

Definition block_number (b : Block) : Z := Number (BaseHeader (Header b)).

(** *** Commit *)

Definition canCurrentFileChunkHold (s : Store) (toBeAddedBytesLength : Z) : bool :=
  currentOffset s + toBeAddedBytesLength <? chunkSizeLimit.

(** Opening creates a missing file. *)
Definition openFileChunk (n : Z) : prog Store bytes := fun s =>
  let f := file_at s n in (set_files s (<[n := f]> (fileChunks s)) (ioOffset s), Ok f).

Definition moveToNextFileChunk : prog Store unit := fun s =>
  let '(s1, _) := openFileChunk (currentChunkNum s + 1) s in
  (set_current (set_io s1 0) 0 (currentChunkNum s + 1) (lastCommittedBlockNum s), Ok tt).

(** [w] is what the system does with the write: all of it, or an error after some bytes. *)
Definition appendBlock (w : option nat) (number : Z) (content : bytes) : prog Store BlockLocation := fun s =>
  let offsetBeforeWrite := currentOffset s in
  let f := file_at s (currentChunkNum s) in
  match w with
  | None =>
    let s1 := set_files s (<[currentChunkNum s := write_at f (ioOffset s) content]> (fileChunks s))
                (ioOffset s + Z.of_nat (length content)) in
    (set_current s1 (currentOffset s + Z.of_nat (length content)) (currentChunkNum s) number,
     Ok (mkBlockLocation (currentChunkNum s) offsetBeforeWrite (Z.of_nat (length content))))
  | Some n =>
    let f1 := write_at f (ioOffset s) (take n content) in
    let s1 := if bool_decide (n = 0%nat) then s
              else set_files s (<[currentChunkNum s := truncate f1 offsetBeforeWrite]> (fileChunks s))
                     offsetBeforeWrite in
    (s1, Err (PlainErr "error while writing the block to currentFileChunk"))
  end.

Definition storeIndexForBlock (number : Z) (location : BlockLocation) : prog Store unit :=
  value ← lift (wrap_err "error while marshaling BlockLocation" (Marshal location));
  key ← lift (encodeOrderPreservingVarUint64 number);
  modify (fun s => set_dbs s (<[key := value]> (blockIndexDB s)) (blockHeaderDB s) (txValidationInfoDB s)).

Definition info_of (block : Block) (i : nat) : res ValidationInfo :=
  match ValidationInfos (Header block) !! i with
  | Some v => Ok v
  | None => Panic "index out of range"
  end.

(** The batch of entries of the data transactions, in order. *)
Fixpoint txInfoBatch (block : Block) (txNum : nat) (envs : list DataTxEnvelope) : res (list (bytes * bytes)) :=
  match envs with
  | [] => Ok []
  | tx :: envs =>
    info ← info_of block txNum;
    value ← wrap_err "error while marshaling TxInfo info of transaction"
              (Marshal (mkTxInfo (block_number block) (Z.of_nat txNum) info));
    rest ← txInfoBatch block (S txNum) envs;
    Ok ((bytes_of_string (DTx_TxId (DEnv_Payload tx)), value) :: rest)
  end.

Definition singleTxInfo (block : Block) (txID : string) : res (list (bytes * bytes)) :=
  info ← info_of block 0;
  value ← wrap_err "error while marshaling validation info of non-data transaction"
            (Marshal (mkTxInfo (block_number block) 0 info));
  Ok [(bytes_of_string txID, value)].

Definition put_all (m : gmap bytes bytes) (batch : list (bytes * bytes)) : gmap bytes bytes :=
  foldl (fun m kv => <[kv.1 := kv.2]> m) m batch.

Definition validationBatch (block : Block) : res (list (bytes * bytes)) :=
  match Payload block with
  | Some (Block_DataTxEnvelopes envs) => txInfoBatch block 0 envs
  | Some (Block_ConfigTxEnvelope env) => singleTxInfo block (CTx_TxId (CEnv_Payload env))
  | Some (Block_DbAdministrationTxEnvelope env) => singleTxInfo block (DBTx_TxId (DBEnv_Payload env))
  | Some (Block_UserAdministrationTxEnvelope env) => singleTxInfo block (UTx_TxId (UEnv_Payload env))
  | None => Err (PlainErr "unknown block payload")
  end.

Definition storeBlockValidationInfo (block : Block) : prog Store unit :=
  batch ← lift (validationBatch block);
  modify (fun s => set_dbs s (blockIndexDB s) (blockHeaderDB s) (put_all (txValidationInfoDB s) batch)).

(** [utils.BlockPayloadToTxIDs] *)
Fixpoint dataTxIDs (envs : list DataTxEnvelope) : res (list string) :=
  match envs with
  | [] => Ok []
  | env :: envs =>
    let id := DTx_TxId (DEnv_Payload env) in
    if bool_decide (id = "") then Err (PlainErr "missing TxId in index") else
    ids ← dataTxIDs envs; Ok (id :: ids)
  end.

Definition singleTxID (id : string) : res (list string) :=
  if bool_decide (id = "") then Err (PlainErr "missing TxId in") else Ok [id].

Definition BlockPayloadToTxIDs (payload : option BlockPayload) : res (list string) :=
  match payload with
  | Some (Block_DataTxEnvelopes envs) =>
    ids ← dataTxIDs envs;
    if bool_decide (length ids = 0%nat) then Err (PlainErr "empty payload in") else Ok ids
  | Some (Block_UserAdministrationTxEnvelope env) => singleTxID (UTx_TxId (UEnv_Payload env))
  | Some (Block_ConfigTxEnvelope env) => singleTxID (CTx_TxId (CEnv_Payload env))
  | Some (Block_DbAdministrationTxEnvelope env) => singleTxID (DBTx_TxId (DBEnv_Payload env))
  | None => Err (PlainErr "unexpected envelope type")
  end.

Definition headerBytesNs : Z := 0.
Definition headerHashNs : Z := 1.
Definition headerHashToBlockNumNs : Z := 2.
Definition headerBaseHashNs : Z := 3.
Definition blockTxsIDNs : Z := 4.

(** [constructHeader...Key]: a name space byte and the number. *)
Definition numberKey (ns number : Z) : res bytes :=
  k ← encodeOrderPreservingVarUint64 number; Ok (ns :: k).

Definition constructHeaderHashIndexKey (blockHash : bytes) : bytes := headerHashToBlockNumNs :: blockHash.

Definition ComputeBlockHash (header : BlockHeader) : res bytes :=
  headerBytes ← Marshal header; Ok (ComputeSHA256Hash headerBytes).

Definition ComputeBlockBaseHash (header : BlockHeader) : res bytes :=
  headerBytes ← Marshal (BaseHeader header); Ok (ComputeSHA256Hash headerBytes).

Definition headerBatch (block : Block) : res (list (bytes * bytes)) :=
  let header := Header block in
  let number := block_number block in
  blockHeaderBaseBytes ← wrap_err "can't marshal block base header" (Marshal (BaseHeader header));
  blockHeaderBytes ← wrap_err "can't marshal block header" (Marshal header);
  txsID ← wrap_err "can't access block tx ids" (BlockPayloadToTxIDs (Payload block));
  txsIdBytes ← wrap_err "can't marshal block txs ids" (Marshal (mkBlockTxIDs txsID));
  let blockHash := ComputeSHA256Hash blockHeaderBytes in
  baseHashKey ← numberKey headerBaseHashNs number;
  hashKey ← numberKey headerHashNs number;
  bytesKey ← numberKey headerBytesNs number;
  numberBytes ← encodeOrderPreservingVarUint64 number;
  txsKey ← numberKey blockTxsIDNs number;
  Ok [(baseHashKey, ComputeSHA256Hash blockHeaderBaseBytes); (hashKey, blockHash); (bytesKey, blockHeaderBytes);
      (constructHeaderHashIndexKey blockHash, numberBytes); (txsKey, txsIdBytes)].

Definition storeBlockHeaders (block : Block) : prog Store unit :=
  batch ← lift (headerBatch block);
  modify (fun s => set_dbs s (blockIndexDB s) (put_all (blockHeaderDB s) batch) (txValidationInfoDB s)).

(** Three goroutines, one per database: all run, and one error is returned. *)
Definition storeMetadataInDB (block : Block) (location : BlockLocation) : prog Store unit := fun s =>
  let '(s1, r1) := storeIndexForBlock (block_number block) location s in
  let '(s2, r2) := storeBlockValidationInfo block s1 in
  let '(s3, r3) := storeBlockHeaders block s2 in
  (s3, r1 ≫= fun _ => r2 ≫= fun _ => r3).

(** The bytes of a block in a chunk: its length and its compressed form. *)
Definition block_content (block : Block) : res bytes :=
  b ← wrap_err "error while marshaling block" (Marshal block);
  let encodedBlock := SnappyEncode b in
  Ok (PutUvarint (Z.of_nat (length encodedBlock)) ++ encodedBlock).

Definition Commit (w : option nat) (block : option Block) : prog Store unit :=
  match block with
  | None => lift (Err (PlainErr "block cannot be nil"))
  | Some block =>
    expected ← gets (fun s => u64 (lastCommittedBlockNum s + 1));
    if negb (block_number block =? expected) then
      lift (Err (PlainErr ("expected block number [" +:+ pretty expected +:+ "] but received [" +:+
        pretty (block_number block) +:+ "]")))
    else
      content ← lift (block_content block);
      fits ← gets (fun s => canCurrentFileChunkHold s (Z.of_nat (length content)));
      (if fits : bool then mret tt else moveToNextFileChunk);;
      blockLocation ← appendBlock w (block_number block) content;
      storeMetadataInDB block blockLocation
  end.

(** *** Reads *)

Definition Height (s : Store) : res Z := Ok (lastCommittedBlockNum s).

Definition getLocation (s : Store) (blockNumber : Z) : res BlockLocation :=
  key ← encodeOrderPreservingVarUint64 blockNumber;
  match blockIndexDB s !! key with
  | None => Err (NotFoundErr ("block not found: " +:+ pretty blockNumber))
  | Some val => wrap_err "error while unmarshalling block location" (Unmarshal val)
  end.

(** The largest slice that can be allocated. *)
Definition maxAlloc : Z := 2 ^ 48.

(** The position of the descriptor after the read, and the block.  The length is
    at most ten bytes, so that one fill of the buffer holds it. *)
Definition readBlockFromFile (f : bytes) (offset : Z) : Z * res Block :=
  let r := bufio_fill f (mkReader offset []) in
  match wrap_err "error while reading the length of the stored block" (ReadUvarint (rd_buf r)) with
  | Ok (blockSize, buffered) =>
    if maxAlloc <? blockSize then (rd_pos r, Panic "makeslice: len out of range") else
    let '(r', buf) := bufio_readFull f (mkReader (rd_pos r) buffered) (Z.to_nat blockSize) in
    (rd_pos r',
     buf ← wrap_err "error while reading block from the file" buf;
     marshaledBlock ← wrap_err "error while decoding the block using snappy compression" (SnappyDecode buf);
     wrap_err "error while unmarshalling the block" (Unmarshal marshaledBlock))
  | Err e => (rd_pos r, Err e)
  | Panic w => (rd_pos r, Panic w)
  end.

Definition Get (blockNumber : Z) : prog Store Block := fun s =>
  if lastCommittedBlockNum s <? blockNumber then
    (s, Err (NotFoundErr
      (if lastCommittedBlockNum s =? 0 then "block store is empty"
       else "requested block number [" +:+ pretty blockNumber +:+
            "] cannot be greater than the last committed block number [" +:+
            pretty (lastCommittedBlockNum s) +:+ "]")))
  else
    match getLocation s blockNumber with
    | Ok location =>
      if currentChunkNum s =? FileChunkNum location then
        let '(pos, r) := readBlockFromFile (file_at s (currentChunkNum s)) (Offset location) in
        (set_io s pos, r)
      else
        let '(s1, _) := openFileChunk (FileChunkNum location) s in
        (s1, (readBlockFromFile (file_at s1 (FileChunkNum location)) (Offset location)).2)
    | Err e => (s, Err e)
    | Panic w => (s, Panic w)
    end.

(** An entry of the header database. *)
Definition headerEntry (s : Store) (ns number : Z) (missing : string) : res bytes :=
  key ← numberKey ns number;
  match blockHeaderDB s !! key with
  | None => Err (NotFoundErr (missing +:+ pretty number))
  | Some val => Ok val
  end.

Definition GetHeader (s : Store) (blockNumber : Z) : res BlockHeader :=
  val ← headerEntry s headerBytesNs blockNumber "block not found: ";
  wrap_err "error while unmarshalling block header" (Unmarshal val).

Definition GetAugmentedHeader (s : Store) (blockNumber : Z) : res AugmentedBlockHeader :=
  val ← headerEntry s headerBytesNs blockNumber "block not found: ";
  txsBytes ← headerEntry s blockTxsIDNs blockNumber "block tx slice not found: ";
  blockHeader ← wrap_err "error while unmarshalling block header" (Unmarshal val);
  txIds ← wrap_err "error while unmarshalling block tx ids slice" (Unmarshal txsBytes);
  Ok (mkAugmentedBlockHeader blockHeader (TxIds txIds)).

Definition GetHash (s : Store) (blockNumber : Z) : res bytes :=
  headerEntry s headerHashNs blockNumber "block hash not found: ".

Definition GetBaseHeaderHash (s : Store) (blockNumber : Z) : res bytes :=
  if blockNumber =? 0 then Ok [] else
  headerEntry s headerBaseHashNs blockNumber "block header base hash not found: ".

Definition GetHeaderByHash (s : Store) (blockHash : bytes) : res BlockHeader :=
  match blockHeaderDB s !! constructHeaderHashIndexKey blockHash with
  | None => Err (NotFoundErr ("block number by hash not found: " +:+ Sha256.hex blockHash))
  | Some blockNumBytes =>
    match blockHeaderDB s !! (headerBytesNs :: blockNumBytes) with
    | None => Err (NotFoundErr ("block not found: " +:+
        pretty (match decodeOrderPreservingVarUint64 blockNumBytes with Ok (n, _) => n | _ => 0 end) +:+
        ", encoded: " +:+ Sha256.hex blockNumBytes))
    | Some headerVal => wrap_err "error while unmarshalling block header" (Unmarshal headerVal)
    end
  end.

Definition DoesTxIDExist (s : Store) (txID : string) : res bool :=
  Ok (bool_decide (is_Some (txValidationInfoDB s !! bytes_of_string txID))).

Definition GetTxInfo (s : Store) (txID : string) : res TxInfo :=
  match txValidationInfoDB s !! bytes_of_string txID with
  | None => Err (NotFoundErr ("txID not found: " +:+ txID))
  | Some valInfoSerialized =>
    wrap_err "error while unmarshalling stored validation info of txID" (Unmarshal valInfoSerialized)
  end.

Definition GetValidationInfo (s : Store) (txID : string) : res ValidationInfo :=
  txInfo ← GetTxInfo s txID; Ok (TI_Validation txInfo).

(** *** The skip list *)

Definition SkipListBase : Z := 2.

(** A [uint64] other than zero is halved at most 63 times before it is odd. *)
Fixpoint skipListHeight_loop (fuel : nat) (blockNum : Z) : Z :=
  match fuel with
  | O => 1
  | S fuel =>
    if negb (blockNum mod SkipListBase =? 0) then 1
    else 1 + skipListHeight_loop fuel (blockNum / SkipListBase)
  end.

Definition skipListHeight (blockNum : Z) : Z := skipListHeight_loop 64 blockNum.

Fixpoint links_loop (n : nat) (blockNum distance : Z) : list Z :=
  match n with
  | O => []
  | S n => u64 (blockNum - distance) :: links_loop n blockNum (u64 (distance * SkipListBase))
  end.

Definition CalculateSkipListLinks (blockNum : Z) : list Z :=
  if 1 <? blockNum then links_loop (Z.to_nat (skipListHeight (blockNum - 1))) blockNum 1 else [].

Definition AddSkipListLinks (s : Store) (block : Block) : res Block :=
  skipListHashes ← res_mapM (GetHash s) (CalculateSkipListLinks (block_number block));
  let h := Header block in
  Ok (mkBlock (mkBlockHeader (BaseHeader h) skipListHashes (TxMerkelTreeRootHash h)
                 (StateMerkelTreeRootHash h) (ValidationInfos h)) (Payload block) (Block_ConsensusMetadata block)).

(** *** Recovery *)

(** [block_file_stream.go]: a descriptor of its own, read from [stm_offset] on. *)
Record blockfileStream := mkStream {
  stm_chunk : Z;
  stm_offset : Z;
  stm_remaining : Z;
}.

Record blockAndLocation := mkBlockAndLocation {
  bal_block : Block;
  bal_chunk : Z;
  bal_start : Z;
  bal_end : Z;
}.

Definition ErrUnexpectedEndOfBlockfile : goerr := PlainErr "unexpected end of blockfile".

Definition i64 (x : Z) : Z := if x <? 2 ^ 63 then x else x - 2 ^ 64.

Definition newBlockfileStream (s : Store) (startLocation : BlockLocation) : res blockfileStream :=
  match fileChunks s !! FileChunkNum startLocation with
  | None => Err (PlainErr "error opening block file")
  | Some f =>
    Ok (mkStream (FileChunkNum startLocation) (Offset startLocation)
          (Z.of_nat (length f) - Offset startLocation))
  end.

Definition moveToNextFileChunkIfExist (s : Store) (st : blockfileStream) : option blockfileStream :=
  match fileChunks s !! (stm_chunk st + 1) with
  | None | Some [] => None
  | Some f => Some (mkStream (stm_chunk st + 1) 0 (Z.of_nat (length f)))
  end.

Definition readNextBlockSize (s : Store) : prog blockfileStream Z := fun st =>
  let moreContentAvailable := Z.of_nat MaxVarintLen64 <=? stm_remaining st in
  let peekBytes := if moreContentAvailable then Z.of_nat MaxVarintLen64 else stm_remaining st in
  if peekBytes <? 0 then (st, Err (PlainErr "error peeking bytes from block file: bufio: negative count")) else
  let lenBytes := os_read (file_at s (stm_chunk st)) (stm_offset st) (Z.to_nat peekBytes) in
  let '(length, n) := DecodeVarint lenBytes in
  if n =? 0 then
    (st, Err (if moreContentAvailable
              then PlainErr "error in decoding varint bytes representing the block length"
              else ErrUnexpectedEndOfBlockfile))
  else (mkStream (stm_chunk st) (stm_offset st + n) (stm_remaining st - n), Ok (i64 length)).

Definition readNextBlock (s : Store) (st : blockfileStream) : blockfileStream * res (option blockAndLocation) :=
  let startOffsetOfNextBlock := stm_offset st in
  match readNextBlockSize s st with
  | (st1, Ok blockSize) =>
    if stm_remaining st1 <? blockSize then (st1, Err ErrUnexpectedEndOfBlockfile)
    else if blockSize <? 0 then (st1, Panic "makeslice: len out of range")
    else
      let blockBytes := os_read (file_at s (stm_chunk st1)) (stm_offset st1) (Z.to_nat blockSize) in
      let st2 := mkStream (stm_chunk st1) (stm_offset st1 + blockSize) (stm_remaining st1 - blockSize) in
      (st2,
       marshaledBlock ← wrap_err "error while decoding the block using snappy compression" (SnappyDecode blockBytes);
       block ← wrap_err "error while unmarshalling the block" (Unmarshal marshaledBlock);
       Ok (Some (mkBlockAndLocation block (stm_chunk st2) startOffsetOfNextBlock (stm_offset st2))))
  | (st1, Err e) => (st1, Err e)
  | (st1, Panic w) => (st1, Panic w)
  end.

Definition nextBlockWithLocation (s : Store) (st : blockfileStream) : blockfileStream * res (option blockAndLocation) :=
  if stm_remaining st =? 0 then
    match moveToNextFileChunkIfExist s st with
    | None => (st, Ok None)
    | Some st1 => readNextBlock s st1
    end
  else readNextBlock s st.

(** The iterator of the index database, positioned at its last key. *)
Definition last_entry (m : gmap bytes bytes) : option (bytes * bytes) :=
  foldr (fun kv acc => match acc with
                       | Some kv' => if bytes_ltb kv'.1 kv.1 then Some kv else acc
                       | None => Some kv
                       end) None (map_to_list m).

Definition getLastBlockLocationInIndex (s : Store) : res (Z * option BlockLocation) :=
  match last_entry (blockIndexDB s) with
  | None => Ok (0, None)
  | Some (key, val) =>
    '(blockNumber, _) ← wrap_err "error while decoding the last block index key" (decodeOrderPreservingVarUint64 key);
    blockLocation ← wrap_err "error while unmarshaling block location" (Unmarshal val);
    Ok (blockNumber, Some blockLocation)
  end.

Definition moveToChunk (chunkNum : Z) : prog Store unit := fun s =>
  let '(s1, _) := openFileChunk chunkNum s in
  (set_current (set_io s1 0) 0 chunkNum (lastCommittedBlockNum s1), Ok tt).

Definition removeChunk (chunkNum : Z) : prog Store unit :=
  modify (fun s => set_files s (delete chunkNum (fileChunks s)) (ioOffset s)).

(** Scenario 1: every block of the files is in the index. *)
Definition recover_synced (lastBlockNumberInIndex : Z) (lastBlockLocation : option BlockLocation) : prog Store unit :=
  if lastBlockNumberInIndex =? 0 then mret tt else
  modify (fun s => set_current s (currentOffset s) (currentChunkNum s) lastBlockNumberInIndex);;
  loc ← lift (deref lastBlockLocation);
  newChunk ← gets currentChunkNum;
  if u64 (newChunk - 1) =? FileChunkNum loc then
    moveToChunk (FileChunkNum loc);; removeChunk newChunk
  else
    modify (fun s => set_current s (Offset loc + Length loc) (currentChunkNum s) (lastCommittedBlockNum s));;
    block ← Get lastBlockNumberInIndex;
    storeMetadataInDB block loc.

(** Scenario 2: one block is in the files but not in the index. *)
Definition recover_unindexed (st : blockfileStream) (next : blockAndLocation) : prog Store unit :=
  second ← (fun s => (s, (nextBlockWithLocation s st).2));
  match second with
  | Some _ => lift (Err (PlainErr "the block store can have exactly one fully committed block which is not indexed or exaclty one partially written block. Any other case is an unexpected behavior"))
  | None =>
    storeMetadataInDB (bal_block next)
      (mkBlockLocation (bal_chunk next) (bal_start next) (bal_end next - bal_start next));;
    modify (fun s => set_current s (bal_end next) (currentChunkNum s) (block_number (bal_block next)))
  end.

(** Scenario 3: a block was written in part. *)
Definition recover_partial (lastBlockNumberInIndex : Z) (lastBlockLocation : option BlockLocation) : prog Store unit :=
  modify (fun s => set_current s (currentOffset s) (currentChunkNum s) lastBlockNumberInIndex);;
  loc ← lift (deref lastBlockLocation);
  modify (fun s => set_current s (Offset loc + Length loc) (currentChunkNum s) (lastCommittedBlockNum s));;
  newChunk ← gets currentChunkNum;
  if u64 (newChunk - 1) =? FileChunkNum loc then
    moveToChunk (FileChunkNum loc);; removeChunk newChunk
  else
    modify (fun s =>
      set_files s (<[currentChunkNum s := truncate (file_at s (currentChunkNum s)) (currentOffset s)]> (fileChunks s))
        (currentOffset s)).

Definition recover : prog Store unit :=
  '(lastBlockNumberInIndex, lastBlockLocation) ← (fun s => (s, getLastBlockLocationInIndex s));
  startBlockLocation ← gets (fun s =>
    match lastBlockLocation with
    | None => mkBlockLocation (currentChunkNum s) 0 0
    | Some l => mkBlockLocation (FileChunkNum l) (Offset l + Length l) 0
    end);
  stream ← (fun s => (s, newBlockfileStream s startBlockLocation));
  next ← gets (fun s => nextBlockWithLocation s stream);
  match next with
  | (_, Ok None) => recover_synced lastBlockNumberInIndex lastBlockLocation
  | (stream', Ok (Some b)) => recover_unindexed stream' b
  | (_, Err e) =>
    if bool_decide (e = ErrUnexpectedEndOfBlockfile)
    then recover_partial lastBlockNumberInIndex lastBlockLocation
    else lift (Err (WrappedErr "error while recovering block store" e))
  | (_, Panic w) => lift (Panic w)
  end.

(** Opening the files and databases that a stopped node left. *)
Definition openExistingStore (files : gmap Z bytes) (index headers infos : gmap bytes bytes) : Store * res unit :=
  let lastChunkNum := Z.of_nat (size files) - 1 in
  recover (mkStore (<[lastChunkNum := default [] (files !! lastChunkNum)]> files) 0
             (Z.of_nat (length (default [] (files !! lastChunkNum)))) lastChunkNum 0 index headers infos).

End Store.
