(* ===== verification/BlockStoreProofs.v ===== *)
(** * Correctness of the block store

    The blocks, headers, hashes and transaction identifiers that were committed
    are the ones that are read back; what the recovery restores after a stop at
    each point of a commit; and where the shared file position breaks this. *)

From S2P Require Import Prelude Crypto Types Varint BlockEncoding BlockStore.
Local Open Scope Z_scope.

(** ** Files *)

(** The file [f] has [content] at [off]. *)
Definition stored (f : bytes) (off : Z) (content : bytes) : Prop :=
  ∃ pre post, f = pre ++ content ++ post ∧ off = Z.of_nat (length pre).

Lemma stored_app f off c tail : stored f off c → stored (f ++ tail) off c.
Proof. intros (pre & post & -> & ->). exists pre, (post ++ tail). by rewrite <- !app_assoc. Qed.

Lemma stored_end f c : stored (f ++ c) (Z.of_nat (length f)) c.
Proof. exists f, []. by rewrite app_nil_r. Qed.

Lemma write_at_end f c : write_at f (Z.of_nat (length f)) c = f ++ c.
Proof.
  unfold write_at. rewrite Nat2Z.id, take_ge, Nat.sub_diag, drop_ge, app_nil_r by lia. done.
Qed.

Lemma bufio_fill_stream f r :
  0 ≤ rd_pos r →
  rd_buf (bufio_fill f r) ++ drop (Z.to_nat (rd_pos (bufio_fill f r))) f =
  rd_buf r ++ drop (Z.to_nat (rd_pos r)) f ∧ rd_pos r ≤ rd_pos (bufio_fill f r).
Proof.
  intros Hp. unfold bufio_fill, os_read. cbn -[take drop]. split; [|lia].
  rewrite <- app_assoc. f_equal. rewrite Z2Nat.inj_add, Nat2Z.id, <- drop_drop by lia.
  rewrite length_take. destruct (Nat.le_ge_cases bufioSize (length (drop (Z.to_nat (rd_pos r)) f))).
  - rewrite Nat.min_l by lia. apply take_drop.
  - rewrite Nat.min_r, drop_all, take_ge, app_nil_r by lia. done.
Qed.

(** [io.ReadFull] returns the next bytes of the stream. *)
Lemma bufio_readFull_ok f r n :
  (n ≤ length (rd_buf r ++ drop (Z.to_nat (rd_pos r)) f))%nat →
  (bufio_readFull f r n).2 = Ok (take n (rd_buf r ++ drop (Z.to_nat (rd_pos r)) f)).
Proof.
  rewrite length_app. intros Hn. unfold bufio_readFull. rewrite take_app, length_take.
  case_bool_decide as H0; cbn -[take drop].
  - replace (n - length (rd_buf r))%nat with 0%nat by lia. by rewrite take_0, app_nil_r.
  - replace (n - Nat.min n (length (rd_buf r)))%nat with (n - length (rd_buf r))%nat in * by lia.
    set (need := (n - length (rd_buf r))%nat) in *. unfold os_read. rewrite length_take.
    rewrite bool_decide_eq_true_2 by (case_bool_decide; pose proof bufioSize_big; lia). cbn -[take].
    do 2 f_equal. rewrite take_take. f_equal. case_bool_decide; pose proof bufioSize_big; lia.
Qed.

Lemma put_uvarint_length fuel x : (1 ≤ length (put_uvarint fuel x) ≤ S fuel)%nat.
Proof. revert x. induction fuel as [|fuel IH]; intros x; cbn; [lia|]. destruct (x <? 128); cbn; [lia|]. specialize (IH (x / 128)). lia. Qed.

(** ** Batches *)

Lemma put_all_notin m batch k : k ∉ batch.*1 → put_all m batch !! k = m !! k.
Proof.
  unfold put_all. revert m. induction batch as [|[k' v'] batch IH]; intros m Hk; cbn in *; [done|].
  rewrite IH, lookup_insert_ne by set_solver. done.
Qed.

Lemma put_all_in m batch k v : NoDup batch.*1 → (k, v) ∈ batch → put_all m batch !! k = Some v.
Proof.
  unfold put_all. revert m. induction batch as [|[k' v'] batch IH]; intros m Hnd Hin; cbn in *; [set_solver|].
  apply NoDup_cons in Hnd as [Hk' Hnd]. apply elem_of_cons in Hin as [[= -> ->]|Hin]; [|by apply IH].
  fold (put_all (<[k' := v']> m) batch). by rewrite put_all_notin, lookup_insert_eq.
Qed.

(** Writing a batch again changes nothing. *)
Lemma put_all_fixed batch k :
  (∃ v, ∀ m, put_all m batch !! k = Some v) ∨ (∀ m, put_all m batch !! k = m !! k).
Proof.
  unfold put_all. induction batch as [|[k' v'] batch IH] using rev_ind; [by right|].
  setoid_rewrite foldl_app. cbn. destruct (decide (k' = k)) as [->|Hne].
  - left. exists v'. intros m. apply lookup_insert_eq.
  - destruct IH as [[v IH]|IH]; [left; exists v|right]; intros m; by rewrite lookup_insert_ne.
Qed.

Lemma put_all_twice m batch : put_all (put_all m batch) batch = put_all m batch.
Proof.
  apply map_eq. intros k. destruct (put_all_fixed batch k) as [[v H]|H]; by rewrite !H.
Qed.

Lemma put_all_dom m batch k : is_Some (put_all m batch !! k) ↔ k ∈ batch.*1 ∨ is_Some (m !! k).
Proof.
  unfold put_all. revert m. induction batch as [|[k' v'] batch IH]; intros m; cbn; [set_solver|].
  rewrite IH, lookup_insert_is_Some, elem_of_cons. destruct (decide (k' = k)); naive_solver.
Qed.

#[export] Instance bytes_of_string_inj : Inj (=) (=) bytes_of_string.
Proof.
  intros a b H. unfold bytes_of_string in H. apply list_fmap_eq_inj in H.
  - rewrite <- (String.string_of_list_ascii_of_string a), <- (String.string_of_list_ascii_of_string b). by f_equal.
  - intros x y Hxy%N2Z.inj%(f_equal Ascii.ascii_of_N). by rewrite !Ascii.ascii_N_embedding in Hxy.
Qed.

Section Proofs.
Context `{!Codec Block, !Codec BlockHeader, !Codec BlockHeaderBase, !Codec BlockLocation,
  !Codec TxInfo, !Codec BlockTxIDs} {sn : Snappy} {pv : ProtoVarint}.
Context (chunkSizeLimit : Z).
Implicit Types (s : Store) (b : Block) (chain : list Block).

(** The content of a block, small enough to be allocated. *)
Definition content_ok b (content : bytes) : Prop :=
  ∃ m, Marshal b = Ok m ∧ content = PutUvarint (Z.of_nat (length (SnappyEncode m))) ++ SnappyEncode m ∧
    Z.of_nat (length (SnappyEncode m)) ≤ maxAlloc.

Lemma content_ok_content b c : content_ok b c → block_content b = Ok c.
Proof. intros (m & Hm & -> & _). unfold block_content. by rewrite Hm. Qed.

Lemma content_ok_unique b c c' : content_ok b c → content_ok b c' → c = c'.
Proof. intros H1%content_ok_content H2%content_ok_content. congruence. Qed.

(** One fill of the buffer holds the length that starts at its position. *)
Lemma bufio_fill_varint pre v rest :
  (length v ≤ 10)%nat →
  ∃ r buffered, bufio_fill (pre ++ v ++ rest) (mkReader (Z.of_nat (length pre)) []) = r ∧
    rd_buf r = v ++ buffered ∧ rd_pos r = Z.of_nat (length pre + length v + length buffered) ∧
    buffered ++ drop (Z.to_nat (rd_pos r)) (pre ++ v ++ rest) = rest.
Proof.
  intros Hv. eexists _, (take (bufioSize - length v) rest). split; [done|].
  assert (Hb : rd_buf (bufio_fill (pre ++ v ++ rest) (mkReader (Z.of_nat (length pre)) [])) =
    v ++ take (bufioSize - length v) rest).
  { unfold bufio_fill, os_read. cbn [rd_buf rd_pos app]. rewrite Nat2Z.id, drop_app_length, take_app. f_equal.
    apply take_ge. pose proof bufioSize_big. lia. }
  split_and!; [done| |].
  - unfold bufio_fill in *. cbn [rd_buf rd_pos app] in *. rewrite Hb, length_app. lia.
  - destruct (bufio_fill_stream (pre ++ v ++ rest) (mkReader (Z.of_nat (length pre)) [])) as [Hs _]; [cbn; lia|].
    rewrite Hb in Hs. cbn [rd_buf rd_pos app] in Hs. rewrite Nat2Z.id, drop_app_length, <- app_assoc in Hs.
    by apply app_inv_head in Hs.
Qed.

(** Reading a stored block: the rest of the block is the head of the stream. *)
Lemma readBlockFromFile_shape pre c post b :
  content_ok b c →
  ∃ r n, 0 ≤ rd_pos r ≤ Z.of_nat (length (pre ++ c ++ post)) ∧
    length (rd_buf r ++ drop (Z.to_nat (rd_pos r)) (pre ++ c ++ post)) = (n + length post)%nat ∧
    readBlockFromFile (pre ++ c ++ post) (Z.of_nat (length pre)) =
      (rd_pos (bufio_readFull (pre ++ c ++ post) r n).1, Ok b).
Proof.
  intros (m & Hm & -> & Hmax). rewrite <- app_assoc. set (e := SnappyEncode m) in *.
  destruct (bufio_fill_varint pre (PutUvarint (Z.of_nat (length e))) (e ++ post)) as (r & buffered & Hr & Hbuf & Hpos & Hs).
  { apply (put_uvarint_length 9). }
  set (f := pre ++ PutUvarint (Z.of_nat (length e)) ++ e ++ post) in *.
  assert (Hlen : length f = (length pre + length (PutUvarint (Z.of_nat (length e))) + length (e ++ post))%nat)
    by (unfold f; rewrite !length_app; lia).
  assert (Hb : (length buffered ≤ length (e ++ post))%nat) by (rewrite <- Hs, length_app; lia).
  exists (mkReader (rd_pos r) buffered), (length e). cbn [rd_pos rd_buf].
  split_and!; [lia|lia|by rewrite Hs, length_app|].
  unfold readBlockFromFile. rewrite Hr, Hbuf. unfold maxAlloc in Hmax.
  rewrite ReadUvarint_PutUvarint by lia. cbn [wrap_err].
  rewrite (proj2 (Z.ltb_ge _ _)) by (unfold maxAlloc; lia). rewrite Nat2Z.id.
  pose proof (bufio_readFull_ok f (mkReader (rd_pos r) buffered) (length e)) as Hfull.
  cbn [rd_pos rd_buf] in Hfull. rewrite Hs, length_app, take_app_length in Hfull. specialize (Hfull ltac:(lia)).
  destruct (bufio_readFull _ _ _) as [r' buf]. cbn [snd] in Hfull. subst buf. f_equal.
  cbn [wrap_err mbind res_bind]. unfold e. rewrite snappy_decode_encode. cbn.
  by rewrite (unmarshal_marshal _ _ Hm).
Qed.

(** A stored block is read back. *)
Lemma readBlockFromFile_ok f off b c :
  stored f off c → content_ok b c → (readBlockFromFile f off).2 = Ok b.
Proof.
  intros (pre & post & -> & ->) Hc.
  by destruct (readBlockFromFile_shape pre c post b Hc) as (r & n & _ & _ & ->).
Qed.

(** ** Transaction identifiers *)

Definition tx_ids b : list string :=
  match Payload b with
  | Some (Block_DataTxEnvelopes envs) => (fun e => DTx_TxId (DEnv_Payload e)) <$> envs
  | Some (Block_ConfigTxEnvelope env) => [CTx_TxId (CEnv_Payload env)]
  | Some (Block_DbAdministrationTxEnvelope env) => [DBTx_TxId (DBEnv_Payload env)]
  | Some (Block_UserAdministrationTxEnvelope env) => [UTx_TxId (UEnv_Payload env)]
  | None => []
  end.

Lemma txInfoBatch_ok b i envs tb :
  txInfoBatch b i envs = Ok tb →
  tb.*1 = bytes_of_string <$> ((fun e => DTx_TxId (DEnv_Payload e)) <$> envs) ∧
  ∀ j kv, tb !! j = Some kv → ∃ info, ValidationInfos (Header b) !! (i + j)%nat = Some info ∧
    Marshal (mkTxInfo (block_number b) (Z.of_nat (i + j)) info) = Ok kv.2.
Proof.
  revert i tb. induction envs as [|e envs IH]; intros i tb H; cbn in H; [by simplify_eq|].
  apply bind_ok_inv in H as (info & Hi & H). apply bind_ok_inv in H as (v & Hv & H). rewrite wrap_err_ok in Hv.
  apply bind_ok_inv in H as (rest & Hr & H). injection H as <-. destruct (IH _ _ Hr) as [H1 H2]. split.
  - cbn. by rewrite H1.
  - intros [|j] kv Hj; cbn in Hj.
    + injection Hj as <-. exists info. rewrite Nat.add_0_r. split; [|done].
      unfold info_of in Hi. by destruct (_ !! i); simplify_eq.
    + rewrite Nat.add_succ_r. apply (H2 j kv Hj).
Qed.

Lemma singleTxInfo_ok b id tb :
  singleTxInfo b id = Ok tb →
  tb.*1 = [bytes_of_string id] ∧
  ∀ j kv, tb !! j = Some kv → ∃ info, ValidationInfos (Header b) !! j = Some info ∧
    Marshal (mkTxInfo (block_number b) (Z.of_nat j) info) = Ok kv.2.
Proof.
  unfold singleTxInfo. intros H. apply bind_ok_inv in H as (info & Hi & H). apply bind_ok_inv in H as (v & Hv & H).
  rewrite wrap_err_ok in Hv. injection H as <-. split; [done|]. intros [|j] kv Hj; [|done]. injection Hj as <-.
  exists info. split; [|done]. unfold info_of in Hi. by destruct (_ !! 0%nat); simplify_eq.
Qed.

(** The verdicts stored for a block: under each identifier its number and index. *)
Lemma validationBatch_ok b tb :
  validationBatch b = Ok tb →
  tb.*1 = bytes_of_string <$> tx_ids b ∧
  ∀ j kv, tb !! j = Some kv → ∃ info, ValidationInfos (Header b) !! j = Some info ∧
    Marshal (mkTxInfo (block_number b) (Z.of_nat j) info) = Ok kv.2.
Proof.
  unfold validationBatch, tx_ids.
  destruct (Payload b) as [[]|]; intros H; try done; [by apply txInfoBatch_ok in H|by apply singleTxInfo_ok in H..].
Qed.

(** ** The invariant *)

(** What the store holds of block [b] with number [n]. *)
Record holds_block s (n : Z) b : Prop := {
  hb_block : ∃ key val loc c, encodeOrderPreservingVarUint64 n = Ok key ∧ blockIndexDB s !! key = Some val ∧
    Unmarshal val = Ok loc ∧ content_ok b c ∧ is_Some (fileChunks s !! FileChunkNum loc) ∧
    stored (file_at s (FileChunkNum loc)) (Offset loc) c ∧ Length loc = Z.of_nat (length c);
  hb_header : ∃ key base hdr ids txs, encodeOrderPreservingVarUint64 n = Ok key ∧
    Marshal (BaseHeader (Header b)) = Ok base ∧ Marshal (Header b) = Ok hdr ∧
    BlockPayloadToTxIDs (Payload b) = Ok ids ∧ Marshal (mkBlockTxIDs ids) = Ok txs ∧
    blockHeaderDB s !! (headerBaseHashNs :: key) = Some (ComputeSHA256Hash base) ∧
    blockHeaderDB s !! (headerHashNs :: key) = Some (ComputeSHA256Hash hdr) ∧
    blockHeaderDB s !! (headerBytesNs :: key) = Some hdr ∧
    blockHeaderDB s !! (blockTxsIDNs :: key) = Some txs;
}.

Record readable s chain : Prop := {
  rd_num : ∀ i b, chain !! i = Some b → block_number b = Z.of_nat i + 1;
  rd_small : Z.of_nat (length chain) < 2 ^ 64;
  rd_block : ∀ i b, chain !! i = Some b → holds_block s (Z.of_nat i + 1) b;
  rd_tx : ∀ k, is_Some (txValidationInfoDB s !! k) ↔
    ∃ i b id, chain !! i = Some b ∧ id ∈ tx_ids b ∧ k = bytes_of_string id;
  rd_info : NoDup (List.concat (tx_ids <$> chain)) →
    ∀ i b j id, chain !! i = Some b → tx_ids b !! j = Some id →
    ∃ info v, ValidationInfos (Header b) !! j = Some info ∧
      Marshal (mkTxInfo (Z.of_nat i + 1) (Z.of_nat j) info) = Ok v ∧
      txValidationInfoDB s !! bytes_of_string id = Some v;
}.

(** The next append goes to the end of the last chunk. *)
Record at_end s : Prop := {
  ae_io : ioOffset s = currentOffset s;
  ae_off : currentOffset s = Z.of_nat (length (file_at s (currentChunkNum s)));
  ae_chunk : is_Some (fileChunks s !! currentChunkNum s);
  ae_last : ∀ n, is_Some (fileChunks s !! n) → n ≤ currentChunkNum s;
}.

(** The blocks 1 to [length chain] are stored. *)
Definition store_ok s chain : Prop := readable s chain ∧ lastCommittedBlockNum s = Z.of_nat (length chain).

(** A block that can be written: every message marshals and has its parts. *)
Record storable b : Prop := {
  so_content : ∃ c, content_ok b c;
  so_header : is_ok (headerBatch b) = true;
  so_infos : is_ok (validationBatch b) = true;
}.

Lemma new_store_ok : store_ok openNewStore [] ∧ at_end openNewStore.
Proof.
  split; [split; [split|done]|split]; cbn; try done.
  - intros k. split; [intros [v Hv]; by rewrite lookup_empty in Hv|naive_solver].
  - intros n [v Hv]. by apply lookup_singleton_Some in Hv as [<- _].
Qed.

(** Files only grow. *)
Definition extends s s' : Prop :=
  ∀ n, is_Some (fileChunks s !! n) →
    is_Some (fileChunks s' !! n) ∧ ∃ tail, file_at s' n = file_at s n ++ tail.

Definition same_dbs s s' : Prop :=
  blockIndexDB s' = blockIndexDB s ∧ blockHeaderDB s' = blockHeaderDB s ∧ txValidationInfoDB s' = txValidationInfoDB s.

Lemma readable_extends s s' chain : extends s s' → same_dbs s s' → readable s chain → readable s' chain.
Proof.
  intros He (H1 & H2 & H3) [Hn Hs Hb Ht Hi]. split; rewrite ?H3; [done..| |done|done].
  intros i b Hib. destruct (Hb i b Hib) as [(key & val & loc & c & Hk & Hv & Hu & Hc & Hf & Hst & Hl) Hh].
  split; [|by rewrite H2]. destruct (He _ Hf) as [Hf' [tail Htail]].
  exists key, val, loc, c. rewrite H1, Htail. split_and!; try done. by apply stored_app.
Qed.

Lemma extends_refl s io : extends s (set_io s io).
Proof. intros n Hn. split; [done|]. exists []. by rewrite app_nil_r. Qed.

(** ** Commit *)

Context (location_marshals : ∀ l : BlockLocation, is_ok (Marshal l) = true).

Lemma headerBatch_ok b hb :
  headerBatch b = Ok hb →
  ∃ key base hdr ids txs, encodeOrderPreservingVarUint64 (block_number b) = Ok key ∧
    Marshal (BaseHeader (Header b)) = Ok base ∧ Marshal (Header b) = Ok hdr ∧
    BlockPayloadToTxIDs (Payload b) = Ok ids ∧ Marshal (mkBlockTxIDs ids) = Ok txs ∧
    hb = [(headerBaseHashNs :: key, ComputeSHA256Hash base); (headerHashNs :: key, ComputeSHA256Hash hdr);
          (headerBytesNs :: key, hdr); (constructHeaderHashIndexKey (ComputeSHA256Hash hdr), key);
          (blockTxsIDNs :: key, txs)].
Proof.
  unfold headerBatch, numberKey. intros H. inv_res.
  repeat match goal with
  | H1 : encodeOrderPreservingVarUint64 _ = Ok ?a, H2 : encodeOrderPreservingVarUint64 _ = Ok ?b |- _ =>
    rewrite H1 in H2; injection H2 as <-
  end. subst. do 5 eexists. split_and!; done.
Qed.

Lemma is_ok_inv {A} (m : res A) : is_ok m = true → ∃ a, m = Ok a.
Proof. destruct m; naive_solver. Qed.

(** The metadata of a storable block reach all three databases. *)
Lemma storeMetadataInDB_ok b loc s key hb tb :
  encodeOrderPreservingVarUint64 (block_number b) = Ok key → headerBatch b = Ok hb → validationBatch b = Ok tb →
  ∃ val, Marshal loc = Ok val ∧
    storeMetadataInDB b loc s =
      (set_dbs s (<[key := val]> (blockIndexDB s)) (put_all (blockHeaderDB s) hb)
         (put_all (txValidationInfoDB s) tb), Ok tt).
Proof.
  intros Hk Hh Ht. destruct (is_ok_inv _ (location_marshals loc)) as [val Hval].
  exists val. split; [done|].
  unfold storeMetadataInDB, storeIndexForBlock, storeBlockValidationInfo, storeBlockHeaders.
  unfold mbind at 1, prog_bind at 1, lift at 1. rewrite Hval. cbn [wrap_err].
  unfold mbind at 1, prog_bind at 1, lift at 1. rewrite Hk. unfold modify at 1.
  unfold mbind at 1, prog_bind at 1, lift at 1. rewrite Ht. unfold modify at 1.
  unfold mbind at 1, prog_bind at 1, lift at 1. rewrite Hh. done.
Qed.

Lemma number_range chain b :
  Z.of_nat (length chain) + 1 < 2 ^ 64 → ∀ i (b' : Block), (chain ++ [b]) !! i = Some b' → 0 ≤ Z.of_nat i + 1 < 2 ^ 64.
Proof. intros Hs i b' Hi%lookup_lt_Some. rewrite length_app in Hi. cbn in Hi. lia. Qed.

(** Writing the metadata of the next block: the blocks before it are still held. *)
Lemma holds_block_metadata s idx hdrs txs n b key val b' hb n' :
  holds_block s n b → 0 ≤ n < 2 ^ 64 → 0 ≤ n' < 2 ^ 64 → n ≠ n' →
  encodeOrderPreservingVarUint64 n' = Ok key → headerBatch b' = Ok hb → block_number b' = n' →
  idx = <[key := val]> (blockIndexDB s) → hdrs = put_all (blockHeaderDB s) hb →
  holds_block (set_dbs s idx hdrs txs) n b.
Proof.
  intros [(k & v & loc & c & Hk & Hv & Hr) (k2 & base & hdr & ids & tx & Hk2 & Hb & Hh & Hi & Ht & G1 & G2 & G3 & G4)]
    Hn Hn' Hne Hkey Hhb Hnum -> ->.
  rewrite Hk in Hk2. injection Hk2 as <-.
  assert (Hkk : k ≠ key) by (intros ->; apply Hne; by apply (encodeOrderPreserving_inj n n' key)).
  destruct (headerBatch_ok _ _ Hhb) as (key' & base' & hdr' & ids' & tx' & Hkey' & _ & _ & _ & _ & ->).
  rewrite Hnum, Hkey in Hkey'. injection Hkey' as <-.
  split; cbn [set_dbs blockIndexDB blockHeaderDB fileChunks].
  - exists k, v, loc, c. rewrite lookup_insert_ne by congruence. done.
  - exists k, base, hdr, ids, tx. split_and!; try done; rewrite put_all_notin; try done;
      cbn; unfold constructHeaderHashIndexKey; intros Hin;
      repeat (apply elem_of_cons in Hin as [[=]|Hin]); try done; by apply not_elem_of_nil in Hin.
Qed.

(** ... and the new block is held. *)
Lemma holds_new_block s idx hdrs txs b key val hb loc c :
  encodeOrderPreservingVarUint64 (block_number b) = Ok key → headerBatch b = Ok hb → Unmarshal val = Ok loc →
  content_ok b c → is_Some (fileChunks s !! FileChunkNum loc) →
  stored (file_at s (FileChunkNum loc)) (Offset loc) c → Length loc = Z.of_nat (length c) →
  idx = <[key := val]> (blockIndexDB s) → hdrs = put_all (blockHeaderDB s) hb →
  holds_block (set_dbs s idx hdrs txs) (block_number b) b.
Proof.
  intros Hk Hhb Hu Hc Hf Hst Hl -> ->.
  destruct (headerBatch_ok _ _ Hhb) as (key' & base & hdr & ids & tx & Hk' & Hb & Hh & Hi & Ht & ->).
  rewrite Hk in Hk'. injection Hk' as <-.
  split; cbn [set_dbs blockIndexDB blockHeaderDB fileChunks].
  - exists key, val, loc, c. rewrite lookup_insert_eq. done.
  - exists key, base, hdr, ids, tx. split_and!; try done; apply put_all_in; try (set_solver by fail);
      repeat (apply NoDup_cons; split; [set_unfold; unfold constructHeaderHashIndexKey; naive_solver|]); apply NoDup_nil_2.
Qed.

Lemma lookup_snoc_cases {A} (l : list A) x i y :
  (l ++ [x]) !! i = Some y → l !! i = Some y ∨ (i = length l ∧ y = x).
Proof.
  intros [H|[Hge H]]%lookup_app_Some; [by left|]. right.
  destruct (i - length l)%nat eqn:E; cbn in H; [|done]. split; [lia|by injection H].
Qed.

Lemma tx_info_snoc txdb chain b tb :
  block_number b = Z.of_nat (length chain) + 1 → validationBatch b = Ok tb →
  NoDup (List.concat (tx_ids <$> chain ++ [b])) →
  (∀ i b' j id, chain !! i = Some b' → tx_ids b' !! j = Some id →
     ∃ info v, ValidationInfos (Header b') !! j = Some info ∧
       Marshal (mkTxInfo (Z.of_nat i + 1) (Z.of_nat j) info) = Ok v ∧ txdb !! bytes_of_string id = Some v) →
  ∀ i b' j id, (chain ++ [b]) !! i = Some b' → tx_ids b' !! j = Some id →
     ∃ info v, ValidationInfos (Header b') !! j = Some info ∧
       Marshal (mkTxInfo (Z.of_nat i + 1) (Z.of_nat j) info) = Ok v ∧
       put_all txdb tb !! bytes_of_string id = Some v.
Proof.
  intros Hnum Htb Hnd Hold i b' j id Hi Hj. destruct (validationBatch_ok _ _ Htb) as [Hkeys Hvals].
  rewrite fmap_app, concat_app in Hnd. cbn in Hnd. rewrite app_nil_r in Hnd.
  apply NoDup_app in Hnd as (_ & Hdisj & Hndb).
  apply lookup_snoc_cases in Hi as [Hi|[-> ->]].
  - destruct (Hold i b' j id Hi Hj) as (info & v & H1 & H2 & H3). exists info, v. split_and!; try done.
    rewrite put_all_notin; [done|]. rewrite Hkeys. intros (id' & Heq & Hin)%list_elem_of_fmap.
    apply (inj bytes_of_string) in Heq as <-. apply (Hdisj id); [|done].
    apply list_elem_of_In, in_concat. exists (tx_ids b'). rewrite <- !list_elem_of_In. split.
    + apply list_elem_of_fmap. exists b'. split; [done|]. by eapply list_elem_of_lookup_2.
    + by eapply list_elem_of_lookup_2.
  - destruct (lookup_lt_is_Some_2 tb j) as [kv Hkv].
    { rewrite <- (length_fmap fst), Hkeys, length_fmap. by eapply lookup_lt_Some. }
    destruct (Hvals j kv Hkv) as (info & Hinfo & Hm). exists info, kv.2. rewrite <- Hnum. split_and!; try done.
    apply put_all_in; [rewrite Hkeys; by apply NoDup_fmap_2; [apply _|]|].
    assert (Hk : tb.*1 !! j = Some (bytes_of_string id)) by (rewrite Hkeys, list_lookup_fmap, Hj; done).
    rewrite list_lookup_fmap, Hkv in Hk. injection Hk as <-. rewrite <- surjective_pairing. by eapply list_elem_of_lookup_2.
Qed.

(** The invariant after the metadata of the next block are written. *)
Lemma readable_snoc s chain b key val hb tb loc c :
  readable s chain → block_number b = Z.of_nat (length chain) + 1 → block_number b < 2 ^ 64 →
  encodeOrderPreservingVarUint64 (block_number b) = Ok key → headerBatch b = Ok hb → validationBatch b = Ok tb →
  Unmarshal val = Ok loc → content_ok b c → is_Some (fileChunks s !! FileChunkNum loc) →
  stored (file_at s (FileChunkNum loc)) (Offset loc) c → Length loc = Z.of_nat (length c) →
  readable (set_dbs s (<[key := val]> (blockIndexDB s)) (put_all (blockHeaderDB s) hb)
              (put_all (txValidationInfoDB s) tb)) (chain ++ [b]).
Proof.
  intros [Hn Hs Hb Ht Hi] Hnum Hlt Hk Hhb Htb Hu Hc Hf Hst Hl. split.
  - intros i b' [Hib|[-> ->]]%lookup_snoc_cases; [by apply Hn|done].
  - rewrite length_app. cbn. lia.
  - intros i b' Hib. pose proof (number_range chain b ltac:(lia) _ _ Hib) as Hr.
    apply lookup_snoc_cases in Hib as [Hib|[-> ->]].
    + eapply holds_block_metadata; [by apply Hb|done|..|done|done|done|done|done]; [lia|].
      apply lookup_lt_Some in Hib. lia.
    + rewrite <- Hnum. by eapply holds_new_block.
  - intros k. cbn [set_dbs txValidationInfoDB]. rewrite put_all_dom, Ht.
    rewrite (proj1 (validationBatch_ok _ _ Htb)), list_elem_of_fmap. split.
    + intros [(id & -> & Hid)|(i & b' & id & Hib & Hid & ->)].
      * exists (length chain), b, id. by rewrite list_lookup_middle.
      * exists i, b', id. rewrite lookup_app_l by (by eapply lookup_lt_Some). done.
    + intros (i & b' & id & [Hib|[-> ->]]%lookup_snoc_cases & Hid & ->); [right; eauto 8|left; eauto].
  - intros Hnd. cbn [set_dbs txValidationInfoDB]. apply tx_info_snoc; [done..|]. apply Hi.
    rewrite fmap_app, concat_app in Hnd. by apply NoDup_app in Hnd as [? _].
Qed.

Lemma move_ok s chain :
  readable s chain → at_end s →
  ∃ s', moveToNextFileChunk s = (s', Ok tt) ∧ readable s' chain ∧ at_end s' ∧
    lastCommittedBlockNum s' = lastCommittedBlockNum s.
Proof.
  intros Hr [H1 H2 H3 H4]. eexists. split; [done|].
  assert (Hnew : fileChunks s !! (currentChunkNum s + 1) = None).
  { destruct (fileChunks s !! (currentChunkNum s + 1)) eqn:E; [|done].
    pose proof (H4 (currentChunkNum s + 1)). rewrite E in *. specialize (H ltac:(eauto)). lia. }
  split_and!; [|split|done]; cbn [set_current set_io set_files fileChunks ioOffset currentOffset currentChunkNum].
  - eapply (readable_extends s); [|done|done]. intros n Hn. cbn [set_current set_io set_files fileChunks].
    rewrite lookup_insert_ne by (intros <-; rewrite Hnew in Hn; by destruct Hn). split; [done|].
    exists []. unfold file_at. cbn [set_current set_io set_files fileChunks]. rewrite app_nil_r.
    rewrite lookup_insert_ne by (intros <-; rewrite Hnew in Hn; by destruct Hn). done.
  - done.
  - unfold file_at. cbn [set_current set_io set_files fileChunks]. rewrite lookup_insert_eq. unfold file_at. by rewrite Hnew.
  - rewrite lookup_insert_eq. eauto.
  - intros n [->|[? Hn]]%lookup_insert_is_Some; [lia|]. specialize (H4 n Hn). lia.
Qed.

Lemma append_ok s chain number c :
  readable s chain → at_end s →
  ∃ s', appendBlock None number c s =
      (s', Ok (mkBlockLocation (currentChunkNum s) (currentOffset s) (Z.of_nat (length c)))) ∧
    readable s' chain ∧ at_end s' ∧ lastCommittedBlockNum s' = number ∧
    is_Some (fileChunks s' !! currentChunkNum s) ∧ stored (file_at s' (currentChunkNum s)) (currentOffset s) c.
Proof.
  intros Hr [H1 H2 H3 H4]. eexists. split; [done|].
  set (f := file_at s (currentChunkNum s)) in *. rewrite H1, H2. rewrite write_at_end.
  unfold file_at at 1. cbn [set_current set_files fileChunks currentChunkNum currentOffset ioOffset lastCommittedBlockNum].
  rewrite lookup_insert_eq. cbn [default]. split_and!; [| |done|eauto|apply stored_end].
  - eapply (readable_extends s); [|done|done]. intros n Hn. unfold file_at.
    cbn [set_current set_files fileChunks]. destruct (decide (n = currentChunkNum s)) as [->|Hne].
    + rewrite lookup_insert_eq. split; [eauto|]. exists c. done.
    + rewrite lookup_insert_ne by done. split; [done|]. exists []. by rewrite app_nil_r.
  - split; cbn [set_current set_files fileChunks currentChunkNum currentOffset ioOffset].
    + done.
    + unfold file_at. cbn [set_current set_files fileChunks]. rewrite lookup_insert_eq. cbn [default].
      unfold id. rewrite length_app. lia.
    + rewrite lookup_insert_eq. eauto.
    + intros n [->|[? Hn]]%lookup_insert_is_Some; [lia|auto].
Qed.

Lemma at_end_set_dbs s idx hdrs txs : at_end s → at_end (set_dbs s idx hdrs txs).
Proof. intros [? ? ? ?]. by split. Qed.

(** The steps of a successful commit: the chunk, the append, the metadata. *)
Lemma Commit_shape s b :
  lastCommittedBlockNum s = block_number b - 1 → 0 < block_number b < 2 ^ 64 → storable b →
  ∃ s1 s2 key val hb tb c,
    (s1 = s ∨ moveToNextFileChunk s = (s1, Ok tt)) ∧
    (let loc := mkBlockLocation (currentChunkNum s1) (currentOffset s1) (Z.of_nat (length c)) in
     appendBlock None (block_number b) c s1 = (s2, Ok loc) ∧ Marshal loc = Ok val) ∧
    encodeOrderPreservingVarUint64 (block_number b) = Ok key ∧ content_ok b c ∧
    headerBatch b = Ok hb ∧ validationBatch b = Ok tb ∧
    Commit chunkSizeLimit None (Some b) s =
      (set_dbs s2 (<[key := val]> (blockIndexDB s2)) (put_all (blockHeaderDB s2) hb)
         (put_all (txValidationInfoDB s2) tb), Ok tt).
Proof.
  intros Hlast Hnum [[c Hc] Hh Hv]. apply is_ok_inv in Hh as [hb Hhb]. apply is_ok_inv in Hv as [tb Htb].
  destruct (encode_spec (block_number b)) as (k & _ & Hkey & _); [lia|].
  set (s1 := if canCurrentFileChunkHold chunkSizeLimit s (Z.of_nat (length c)) then s else (moveToNextFileChunk s).1).
  set (loc := mkBlockLocation (currentChunkNum s1) (currentOffset s1) (Z.of_nat (length c))).
  set (s2 := (appendBlock None (block_number b) c s1).1).
  destruct (storeMetadataInDB_ok b loc s2 _ hb tb Hkey Hhb Htb) as (val & Hval & Hmeta).
  exists s1, s2, (Z.of_nat k :: be k (block_number b)), val, hb, tb, c. split_and!; try done.
  { unfold s1. destruct (canCurrentFileChunkHold _ _ _); [by left|by right]. }
  unfold Commit. unfold mbind at 1, prog_bind at 1, gets at 1. rewrite Hlast, Z.sub_add, u64_small by lia.
  rewrite Z.eqb_refl. cbn [negb].
  unfold mbind at 1, prog_bind at 1, lift at 1. rewrite (content_ok_content _ _ Hc).
  unfold mbind at 1, prog_bind at 1, gets at 1. unfold mbind at 1, prog_bind at 1.
  assert (Hs1 : (if canCurrentFileChunkHold chunkSizeLimit s (Z.of_nat (length c)) then mret tt else moveToNextFileChunk) s
    = (s1, Ok tt)) by (unfold s1; by destruct (canCurrentFileChunkHold _ _ _)).
  rewrite Hs1. unfold mbind at 1, prog_bind at 1. done.
Qed.

(** Committing the next block succeeds and keeps the invariant. *)
Lemma store_Commit_ok s chain b :
  store_ok s chain → at_end s → storable b →
  block_number b = Z.of_nat (length chain) + 1 → block_number b < 2 ^ 64 →
  ∃ s', Commit chunkSizeLimit None (Some b) s = (s', Ok tt) ∧ store_ok s' (chain ++ [b]) ∧ at_end s'.
Proof.
  intros [Hr Hlast] Hend Hso Hnum Hlt.
  destruct (Commit_shape s b ltac:(lia) ltac:(lia) Hso)
    as (s1 & s2 & key & val & hb & tb & c & Hs1 & [Happ Hval] & Hkey & Hc & Hhb & Htb & Hcom).
  eexists. split; [done|].
  assert (H1 : readable s1 chain ∧ at_end s1).
  { destruct Hs1 as [->|Hm]; [done|]. destruct (move_ok s chain Hr Hend) as (s1' & Hm' & ? & ? & _). rewrite Hm in Hm'. by injection Hm' as <-. }
  destruct H1 as [Hr1 Hend1].
  destruct (append_ok s1 chain (block_number b) c Hr1 Hend1) as (s2' & Happ' & Hr2 & Hend2 & Hlast2 & Hf & Hst).
  rewrite Happ in Happ'. injection Happ' as <-. split; [split|by apply at_end_set_dbs].
  - apply unmarshal_marshal in Hval. eapply readable_snoc; done.
  - cbn [set_dbs lastCommittedBlockNum]. rewrite Hlast2, Hnum, length_app. cbn. lia.
Qed.

(** ** Reads *)

Lemma getLocation_ok s chain i b :
  readable s chain → chain !! i = Some b →
  ∃ loc c, getLocation s (Z.of_nat i + 1) = Ok loc ∧ content_ok b c ∧ is_Some (fileChunks s !! FileChunkNum loc) ∧
    stored (file_at s (FileChunkNum loc)) (Offset loc) c ∧ Length loc = Z.of_nat (length c).
Proof.
  intros Hr Hi. destruct (rd_block _ _ Hr _ _ Hi) as [(key & val & loc & c & Hk & Hv & Hu & Hrest) _].
  exists loc, c. split; [|done]. unfold getLocation. rewrite Hk. cbn. rewrite Hv. by rewrite Hu.
Qed.

(** A read returns the committed block and moves nothing but the file position. *)
Lemma Get_ok s chain i b :
  store_ok s chain → chain !! i = Some b →
  ∃ io, Get (Z.of_nat i + 1) s = (set_io s io, Ok b).
Proof.
  intros [Hr Hlast] Hi. destruct (getLocation_ok _ _ _ _ Hr Hi) as (loc & c & Hl & Hc & Hf & Hst & _).
  pose proof (lookup_lt_Some _ _ _ Hi) as Hlt. unfold Get.
  rewrite (proj2 (Z.ltb_ge _ _)) by lia. rewrite Hl.
  pose proof (readBlockFromFile_ok _ _ _ _ Hst Hc) as Hread.
  destruct (Z.eqb_spec (currentChunkNum s) (FileChunkNum loc)) as [->|Hne].
  - destruct (readBlockFromFile _ _) as [pos r]. cbn in Hread. subst r. by exists pos.
  - destruct Hf as [f Hf]. unfold openFileChunk. cbn beta iota. exists (ioOffset s).
    unfold file_at in *. rewrite Hf in *. cbn [default set_files fileChunks] in *.
    rewrite lookup_insert_eq. unfold id in *. cbn [default]. unfold id. rewrite Hread.
    unfold set_io, set_files. by rewrite insert_id.
Qed.

Lemma GetHeader_ok s chain i b :
  readable s chain → chain !! i = Some b →
  GetHeader s (Z.of_nat i + 1) = Ok (Header b) ∧
  (∃ h, ComputeBlockHash (Header b) = Ok h ∧ GetHash s (Z.of_nat i + 1) = Ok h) ∧
  (∃ h, ComputeBlockBaseHash (Header b) = Ok h ∧ GetBaseHeaderHash s (Z.of_nat i + 1) = Ok h) ∧
  (∃ ids, BlockPayloadToTxIDs (Payload b) = Ok ids ∧
     GetAugmentedHeader s (Z.of_nat i + 1) = Ok (mkAugmentedBlockHeader (Header b) ids)).
Proof.
  intros Hr Hi. destruct (rd_block _ _ Hr _ _ Hi) as [_ (key & base & hdr & ids & txs & Hk & Hb & Hh & Hids & Ht & G1 & G2 & G3 & G4)].
  unfold GetHeader, GetHash, GetBaseHeaderHash, GetAugmentedHeader, ComputeBlockHash, ComputeBlockBaseHash, headerEntry, numberKey.
  rewrite Hk, Hb, Hh. cbn. rewrite G1, G2, G3, G4. cbn. rewrite (unmarshal_marshal _ _ Hh), (unmarshal_marshal _ _ Ht).
  rewrite (proj2 (Z.eqb_neq _ _)) by lia. cbn. split_and!; eauto.
Qed.

(** ** The store as a sequence of blocks *)

Fixpoint commit_all chain : prog Store unit :=
  match chain with
  | [] => mret tt
  | b :: chain => Commit chunkSizeLimit None (Some b);; commit_all chain
  end.

(** A chain that can be stored: consecutive numbers from 1. *)
Record chain_ok chain : Prop := {
  ch_storable : Forall storable chain;
  ch_number : ∀ i b, chain !! i = Some b → block_number b = Z.of_nat i + 1;
  ch_small : Z.of_nat (length chain) < 2 ^ 64;
}.

Lemma commit_all_ok pre post s :
  chain_ok (pre ++ post) → store_ok s pre → at_end s →
  ∃ s', commit_all post s = (s', Ok tt) ∧ store_ok s' (pre ++ post) ∧ at_end s'.
Proof.
  revert pre s. induction post as [|b post IH]; intros pre s Hch Hs He.
  { exists s. by rewrite app_nil_r. }
  destruct Hch as [Hso Hnum Hsm]. rewrite length_app in Hsm. cbn in Hsm.
  pose proof (Hnum (length pre) b ltac:(by rewrite list_lookup_middle)) as Hb.
  destruct (store_Commit_ok s pre b Hs He) as (s1 & Hc & Hs1 & He1); [|lia|lia|].
  { apply Forall_app in Hso as [_ Hso]. by apply Forall_cons in Hso as [? _]. }
  replace (pre ++ b :: post) with ((pre ++ [b]) ++ post) in * by (by rewrite <- app_assoc).
  destruct (IH (pre ++ [b]) s1) as (s' & Hall & Hs' & He'); [split; try done|done|done|].
  { rewrite !length_app. cbn. lia. }
  exists s'. cbn [commit_all]. unfold mbind, prog_bind. rewrite Hc. done.
Qed.

Lemma commit_new_ok chain :
  chain_ok chain →
  ∃ s, commit_all chain openNewStore = (s, Ok tt) ∧ store_ok s chain ∧ at_end s.
Proof. intros Hch. destruct new_store_ok as [H1 H2]. by apply (commit_all_ok [] chain openNewStore). Qed.

(** C6: committing a chain of blocks succeeds, and afterwards every block and
    every header is read back as it was committed, while a number beyond the
    chain is reported as not found. *)
Theorem committed_blocks_read_back chain :
  chain_ok chain →
  ∃ s, commit_all chain openNewStore = (s, Ok tt) ∧
    (∀ i b, chain !! i = Some b →
       (Get (Z.of_nat i + 1) s).2 = Ok b ∧ GetHeader s (Z.of_nat i + 1) = Ok (Header b)) ∧
    (∀ n, Z.of_nat (length chain) < n → ∃ msg, (Get n s).2 = Err (NotFoundErr msg)).
Proof.
  intros Hch. destruct (commit_new_ok chain Hch) as (s & Hs & Hok & _). exists s. split_and!; [done| |].
  - intros i b Hi. destruct (Get_ok s chain i b Hok Hi) as [io ->]. split; [done|].
    destruct Hok as [Hr _]. by apply (GetHeader_ok s chain i b Hr Hi).
  - intros n Hn. destruct Hok as [_ Hlast]. unfold Get. rewrite Hlast, (proj2 (Z.ltb_lt _ _)) by lia. eauto.
Qed.

(** The store answers for the transactions of the chain: an identifier is
    known exactly if it occurs in a committed block, the stored hash of a block
    is the hash of its header, and, where identifiers are unique, the receipt
    of a transaction names its block, its index and its verdict. *)
Theorem committed_transactions_known chain s :
  chain_ok chain → commit_all chain openNewStore = (s, Ok tt) →
  (∀ id, DoesTxIDExist s id = Ok true ↔ ∃ i b, chain !! i = Some b ∧ id ∈ tx_ids b) ∧
  (∀ i b, chain !! i = Some b →
     ∃ h, ComputeBlockHash (Header b) = Ok h ∧ GetHash s (Z.of_nat i + 1) = Ok h) ∧
  (NoDup (List.concat (tx_ids <$> chain)) → ∀ i b j id, chain !! i = Some b → tx_ids b !! j = Some id →
     ∃ info, ValidationInfos (Header b) !! j = Some info ∧
       GetTxInfo s id = Ok (mkTxInfo (Z.of_nat i + 1) (Z.of_nat j) info)).
Proof.
  intros Hch Hs. destruct (commit_new_ok chain Hch) as (s' & Hs' & [Hr _] & _).
  rewrite Hs in Hs'. injection Hs' as <-. split_and!.
  - intros id. unfold DoesTxIDExist.
    assert (Heq : is_Some (txValidationInfoDB s !! bytes_of_string id) ↔ ∃ i b, chain !! i = Some b ∧ id ∈ tx_ids b).
    { rewrite (rd_tx _ _ Hr). split; [|naive_solver]. intros (i & b & id' & ? & ? & ->%(inj bytes_of_string)). eauto. }
    rewrite <- Heq. case_bool_decide; naive_solver.
  - intros i b Hi. by apply (GetHeader_ok s chain i b Hr Hi).
  - intros Hnd i b j id Hi Hj. destruct (rd_info _ _ Hr Hnd _ _ _ _ Hi Hj) as (info & v & Hinfo & Hm & Hv).
    exists info. split; [done|]. unfold GetTxInfo. rewrite Hv. by rewrite (unmarshal_marshal _ _ Hm).
Qed.
End Proofs.

(** [storable] is decided by running the encoders. *)
Section Storable.
Context `{!Codec Block, !Codec BlockHeader, !Codec BlockHeaderBase, !Codec TxInfo, !Codec BlockTxIDs} {sn : Snappy} {pv : ProtoVarint}.

Definition storableb (b : Block) : bool :=
  match Marshal b with Ok m => Z.of_nat (length (SnappyEncode m)) <=? maxAlloc | _ => false end &&
  is_ok (headerBatch b) && is_ok (validationBatch b).

Lemma storableb_ok b : storableb b = true → storable b.
Proof.
  unfold storableb. intros [[H1 H2]%andb_true_iff H3]%andb_true_iff. split; [|done..].
  destruct (Marshal b) as [m| |] eqn:Hm; try done. eexists _, m. split_and!; [done..|by apply Z.leb_le].
Qed.

Lemma forallb_storable l : forallb storableb l = true → Forall storable l.
Proof.
  intros H. rewrite forallb_forall in H. apply Forall_forall. intros b Hb.
  apply storableb_ok, (H b), (proj1 (list_elem_of_In _ _) Hb).
Qed.
End Storable.

(** ** A small chain *)

Module StoreExample.

(** A wire format for the messages of a table: the position in the table, padded. *)
Program Definition table_codec `{EqDecision A} (table : list A) (pad : nat) : Codec A := {|
  Marshal a := match list_find (a =.) table with
               | Some (i, _) => Ok (Z.of_nat i :: replicate pad 0)
               | None => Err (PlainErr "not in the table")
               end;
  Unmarshal b := match b with
                 | i :: rest =>
                   if bool_decide (rest = replicate pad 0) then
                     match table !! Z.to_nat i with Some a => Ok a | None => Err (PlainErr "unknown position") end
                   else Err (PlainErr "malformed padding")
                 | [] => Err (PlainErr "no position")
                 end;
|}.
Next Obligation.
  intros A ? table pad a b H. cbn in *. destruct (list_find (a =.) table) as [[i a']|] eqn:E; [|done].
  injection H as <-. apply list_find_Some in E as (E & -> & _).
  by rewrite bool_decide_eq_true_2, Nat2Z.id, E.
Qed.

(** A block with one transaction. *)
Definition block (n : nat) : Block :=
  mkBlock (mkBlockHeader (mkBlockHeaderBase (Z.of_nat n) [] [] 0) [] [] [] [mkValidationInfo VALID ""])
    (Some (Block_DataTxEnvelopes [mkDataTxEnvelope (mkDataTx ["alice"] ("tx" +:+ pretty n) []) ∅])) None.
Definition chain : list Block := block <$> [1; 2; 3]%nat.
Definition table : list Block := chain ++ [block 4].

#[export] Instance block_codec : Codec Block := table_codec table 5000.
#[export] Instance header_codec : Codec BlockHeader := table_codec (Header <$> table) 0.
#[export] Instance base_codec : Codec BlockHeaderBase := table_codec (BaseHeader <$> (Header <$> table)) 0.
#[export] Instance location_codec : Codec BlockLocation := countable_codec.
#[export] Instance tx_info_codec : Codec TxInfo :=
  table_codec ((fun n => mkTxInfo n 0 (mkValidationInfo VALID "")) <$> [1; 2; 3; 4]) 0.
#[export] Instance tx_ids_codec : Codec BlockTxIDs := table_codec ((fun b => mkBlockTxIDs (tx_ids b)) <$> table) 0.
#[export] Instance snappy : Snappy := {| SnappyEncode b := b; SnappyDecode b := Ok b; snappy_decode_encode _ := eq_refl |}.
#[export] Existing Instance VarintExample.proto_varint.

(** Chunks of 64 KB. *)
Definition limit : Z := 65536.

Lemma locations_marshal (l : BlockLocation) : is_ok (Marshal l) = true.
Proof. done. Qed.

Lemma table_ok : chain_ok table.
Proof.
  split; [repeat constructor; apply storableb_ok; vm_compute; reflexivity| |done].
  intros i b Hi. do 4 (destruct i as [|i]; [by injection Hi as <-|]). done.
Qed.

Lemma chain_is_ok : chain_ok chain.
Proof.
  destruct table_ok as [H1 H2 _]. split; [by apply Forall_app in H1 as [? _]| |done].
  intros i b Hi. apply H2. by apply lookup_app_l_Some.
Qed.

Definition store : Store := (commit_all limit chain openNewStore).1.

Lemma store_committed : commit_all limit chain openNewStore = (store, Ok tt).
Proof.
  destruct (commit_new_ok limit locations_marshal chain chain_is_ok) as (s & Hs & _).
  unfold store. by rewrite Hs.
Qed.

Lemma committed_blocks_read_back_witness :
  ∃ s, commit_all limit chain openNewStore = (s, Ok tt) ∧
    (∀ i b, chain !! i = Some b →
       (Get (Z.of_nat i + 1) s).2 = Ok b ∧ GetHeader s (Z.of_nat i + 1) = Ok (Header b)) ∧
    (∀ n, Z.of_nat (length chain) < n → ∃ msg, (Get n s).2 = Err (NotFoundErr msg)).
Proof. exact (committed_blocks_read_back limit locations_marshal chain chain_is_ok). Defined.

Lemma committed_transactions_known_witness :
  (DoesTxIDExist store "tx2" = Ok true ↔ ∃ i b, chain !! i = Some b ∧ "tx2" ∈ tx_ids b) ∧
  ∃ h, ComputeBlockHash (Header (block 3)) = Ok h ∧ GetHash store 3 = Ok h.
Proof.
  destruct (committed_transactions_known limit locations_marshal chain store chain_is_ok store_committed)
    as (Hids & Hhash & _).
  exact (conj (Hids "tx2") (Hhash 2%nat (block 3) eq_refl)).
Defined.

End StoreExample.
