(* ===== verification/BlockRecovery.v ===== *)
(** * Recovery of the block store

    What [recover] of [internal/blockstore/open.go] makes of the files and
    databases that a node leaves when it stops during a commit. *)

From S2P Require Import Prelude Crypto Types Varint BlockEncoding BlockStore BlockStoreProofs.
Local Open Scope Z_scope.

(** ** The last key of the index *)

Lemma last_entry_ok (m : gmap bytes bytes) k v :
  m !! k = Some v → (∀ k' v', m !! k' = Some v' → k' ≠ k → bytes_ltb k' k = true) →
  last_entry m = Some (k, v).
Proof.
  intros Hk Hmax. unfold last_entry.
  assert (Hin : (k, v) ∈ map_to_list m) by (by apply elem_of_map_to_list).
  assert (Hall : ∀ kv, kv ∈ map_to_list m → kv = (k, v) ∨ bytes_ltb kv.1 k = true).
  { intros [k' v'] Hkv%elem_of_map_to_list. destruct (decide (k' = k)) as [->|Hne]; [left; congruence|right; eauto]. }
  clear Hk Hmax. induction (map_to_list m) as [|kv l IH]; [set_solver|]. cbn [foldr].
  assert (Hl : ∀ kv', kv' ∈ l → kv' = (k, v) ∨ bytes_ltb kv'.1 k = true) by set_solver.
  destruct (decide ((k, v) ∈ l)) as [Hkl|Hkl].
  - rewrite (IH Hkl Hl). cbn. destruct (Hall kv) as [->|Hlt]; [by left|by destruct (bytes_ltb _ _)|].
    by rewrite (bytes_ltb_asym _ _ Hlt).
  - assert (kv = (k, v)) as -> by set_solver. clear IH Hall Hin.
    assert (Hf : ∀ kv, foldr (fun kv acc => match acc with
        | Some kv' => if bytes_ltb kv'.1 kv.1 then Some kv else acc | None => Some kv end) None l = Some kv → kv ∈ l).
    { clear. induction l as [|x l IH]; intros kv; cbn; [done|].
      destruct (foldr _ None l) as [kv'|]; [destruct (bytes_ltb _ _)|]; intros [= <-]; [by left|right; by apply IH|by left]. }
    destruct (foldr _ None l) as [kv'|] eqn:E; [|done]. specialize (Hf _ eq_refl).
    destruct (Hl kv' Hf) as [->|Hlt]; [done|]. cbn. by rewrite Hlt.
Qed.

(** ** Reading to the end of a file *)

Lemma bufio_readFull_pos f r n :
  0 ≤ rd_pos r ≤ Z.of_nat (length f) → n = length (rd_buf r ++ drop (Z.to_nat (rd_pos r)) f) →
  rd_pos (bufio_readFull f r n).1 = Z.of_nat (length f).
Proof.
  intros Hp ->. rewrite length_app. set (d := drop (Z.to_nat (rd_pos r)) f).
  assert (Hd : length d = (length f - Z.to_nat (rd_pos r))%nat) by (unfold d; apply length_drop).
  unfold bufio_readFull. rewrite length_take. case_bool_decide as H0; cbn [fst rd_pos]; [lia|].
  assert (Hb : ∀ m, (length d ≤ m)%nat → rd_pos r + Z.of_nat (length (os_read f (rd_pos r) m)) = Z.of_nat (length f)).
  { intros m Hm. unfold os_read. fold d. rewrite length_take. lia. }
  destruct (bool_decide (_ ≤ length (os_read _ _ _))%nat); cbn [fst rd_pos]; apply Hb; case_bool_decide; pose proof bufioSize_big; lia.
Qed.

Section Recovery.
Context `{!Codec Block, !Codec BlockHeader, !Codec BlockHeaderBase, !Codec BlockLocation,
  !Codec TxInfo, !Codec BlockTxIDs} {sn : Snappy} {pv : ProtoVarint}.
Context (chunkSizeLimit : Z).
Context (location_marshals : ∀ l : BlockLocation, is_ok (Marshal l) = true).
Implicit Types (s : Store) (b : Block) (chain : list Block).

(** Reading the last block of a file leaves the position at its end. *)
Lemma readBlockFromFile_end pre b c :
  content_ok b c → readBlockFromFile (pre ++ c) (Z.of_nat (length pre)) = (Z.of_nat (length (pre ++ c)), Ok b).
Proof.
  intros Hc. destruct (readBlockFromFile_shape pre c [] b Hc) as (r & n & Hr & Hn & He).
  rewrite app_nil_r in *. rewrite He, bufio_readFull_pos; [done|done|]. cbn in Hn. lia.
Qed.

(** ** The state between commits *)

Record synced s chain : Prop := {
  sy_ok : store_ok s chain;
  sy_end : at_end s;
  sy_index : ∀ k, is_Some (blockIndexDB s !! k) →
    ∃ i, (i < length chain)%nat ∧ encodeOrderPreservingVarUint64 (Z.of_nat i + 1) = Ok k;
  sy_dense : ∀ n, is_Some (fileChunks s !! n) ↔ 0 ≤ n ≤ currentChunkNum s;
  sy_last : ∀ b, last chain = Some b → ∃ pre c, content_ok b c ∧ file_at s (currentChunkNum s) = pre ++ c ∧
    getLocation s (Z.of_nat (length chain)) =
      Ok (mkBlockLocation (currentChunkNum s) (Z.of_nat (length pre)) (Z.of_nat (length c)));
  sy_empty : chain = [] → file_at s (currentChunkNum s) = [];
}.

Lemma new_store_synced : synced openNewStore [].
Proof.
  destruct new_store_ok as [H1 H2]. split; try done.
  - intros k [v Hv]. change ((∅ : gmap bytes bytes) !! k = Some v) in Hv. by rewrite lookup_empty in Hv.
  - intros n. cbn. rewrite lookup_singleton_is_Some. lia.
Qed.

(** The chunk that the next block goes to. *)
Definition ready s1 s chain : Prop :=
  readable s1 chain ∧ at_end s1 ∧ same_dbs s s1 ∧ lastCommittedBlockNum s1 = lastCommittedBlockNum s ∧
  (∀ n, is_Some (fileChunks s1 !! n) ↔ 0 ≤ n ≤ currentChunkNum s1) ∧
  ((currentChunkNum s1 = currentChunkNum s ∧ fileChunks s1 = fileChunks s) ∨
   (currentChunkNum s1 = currentChunkNum s + 1 ∧ fileChunks s1 = <[currentChunkNum s + 1 := []]> (fileChunks s))).

Lemma synced_ready s chain s1 :
  synced s chain → s1 = s ∨ moveToNextFileChunk s = (s1, Ok tt) → ready s1 s chain.
Proof.
  intros [[Hr Hl] He Hi Hd _ _] [->|Hm].
  - unfold ready. split_and!; try done. by left.
  - destruct (move_ok s chain Hr He) as (s1' & Hm' & Hr1 & He1 & Hl1). rewrite Hm in Hm'. injection Hm' as <-.
    assert (Hnew : fileChunks s !! (currentChunkNum s + 1) = None).
    { destruct (fileChunks s !! (currentChunkNum s + 1)) eqn:E; [|done].
      destruct (proj1 (Hd (currentChunkNum s + 1))) as [_ ?]; [rewrite E; eauto|lia]. }
    unfold moveToNextFileChunk, openFileChunk in Hm. injection Hm as Hm.
    assert (Hf : file_at s (currentChunkNum s + 1) = []) by (unfold file_at; by rewrite Hnew). rewrite Hf in Hm.
    unfold ready. split_and!; try done; subst s1; try done.
    + intros n. cbn [set_current set_io set_files fileChunks currentChunkNum]. rewrite lookup_insert_is_Some, Hd.
      pose proof (proj1 (Hd _) (ae_chunk _ He)). destruct (decide (currentChunkNum s + 1 = n)); lia.
    + right. done.
Qed.

(** After the append of the next block. *)
Lemma append_ready s1 s chain number c s2 loc :
  ready s1 s chain → appendBlock None number c s1 = (s2, Ok loc) →
  readable s2 chain ∧ at_end s2 ∧ same_dbs s s2 ∧ lastCommittedBlockNum s2 = number ∧
  currentChunkNum s2 = currentChunkNum s1 ∧
  (∀ n, is_Some (fileChunks s2 !! n) ↔ 0 ≤ n ≤ currentChunkNum s2) ∧
  fileChunks s2 = <[currentChunkNum s1 := file_at s1 (currentChunkNum s1) ++ c]> (fileChunks s1) ∧
  loc = mkBlockLocation (currentChunkNum s1) (Z.of_nat (length (file_at s1 (currentChunkNum s1)))) (Z.of_nat (length c)).
Proof.
  intros (Hr & He & Hdb & Hl & Hd & _) Happ.
  destruct (append_ok s1 chain number c Hr He) as (s2' & Happ' & Hr2 & He2 & Hl2 & _ & _).
  rewrite Happ in Happ'. injection Happ' as <- ->. pose proof He as [H1 H2 H3 _].
  unfold appendBlock in Happ. injection Happ as Happ. rewrite H1, H2, write_at_end in Happ.
  split_and!; try done; subst s2; try done; [|by rewrite H2].
  intros n. cbn [set_current set_files fileChunks currentChunkNum]. rewrite lookup_insert_is_Some, Hd.
  pose proof (proj1 (Hd _) H3). destruct (decide (currentChunkNum s1 = n)); lia.
Qed.

(** A commit takes a synced store to a synced store. *)
Lemma Commit_synced s chain b :
  synced s chain → storable b → block_number b = Z.of_nat (length chain) + 1 → block_number b < 2 ^ 64 →
  ∃ s1 key val hb tb c,
    ready s1 s chain ∧ content_ok b c ∧ encodeOrderPreservingVarUint64 (block_number b) = Ok key ∧
    headerBatch b = Ok hb ∧ validationBatch b = Ok tb ∧
    (let f := file_at s1 (currentChunkNum s1) in
     let loc := mkBlockLocation (currentChunkNum s1) (Z.of_nat (length f)) (Z.of_nat (length c)) in
     let sc := mkStore (<[currentChunkNum s1 := f ++ c]> (fileChunks s1)) (Z.of_nat (length (f ++ c)))
       (Z.of_nat (length (f ++ c))) (currentChunkNum s1) (block_number b)
       (<[key := val]> (blockIndexDB s)) (put_all (blockHeaderDB s) hb) (put_all (txValidationInfoDB s) tb) in
     Marshal loc = Ok val ∧ Commit chunkSizeLimit None (Some b) s = (sc, Ok tt) ∧ synced sc (chain ++ [b])).
Proof.
  intros Hsy Hso Hnum Hlt. pose proof Hsy as [[Hr Hlast] He Hidx Hd Hl Hemp].
  destruct (Commit_shape chunkSizeLimit location_marshals s b ltac:(lia) ltac:(lia) Hso)
    as (s1 & s2 & key & val & hb & tb & c & Hs1 & [Happ Hval] & Hkey & Hc & Hhb & Htb & Hcom).
  destruct (store_Commit_ok chunkSizeLimit location_marshals s chain b (conj Hr Hlast) He Hso Hnum Hlt)
    as (sc & Hcom' & Hok & Hend).
  pose proof (synced_ready s chain s1 Hsy Hs1) as Hready.
  destruct (append_ready _ _ _ _ _ _ _ Hready Happ) as (Hr2 & He2 & (D1 & D2 & D3) & Hl2 & Hcur2 & Hd2 & Hf2 & Hloc).
  rewrite Hcom in Hcom'. injection Hcom' as Hsc. rewrite <- Hsc in Hok, Hend. clear sc Hsc.
  set (f := file_at s1 (currentChunkNum s1)) in *.
  assert (Hlen : Z.of_nat (length (file_at s2 (currentChunkNum s2))) = Z.of_nat (length (f ++ c)))
    by (unfold file_at; by rewrite Hf2, Hcur2, lookup_insert_eq).
  assert (Hs2 : set_dbs s2 (<[key := val]> (blockIndexDB s2)) (put_all (blockHeaderDB s2) hb)
      (put_all (txValidationInfoDB s2) tb) =
    mkStore (<[currentChunkNum s1 := f ++ c]> (fileChunks s1)) (Z.of_nat (length (f ++ c)))
       (Z.of_nat (length (f ++ c))) (currentChunkNum s1) (block_number b)
       (<[key := val]> (blockIndexDB s)) (put_all (blockHeaderDB s) hb) (put_all (txValidationInfoDB s) tb)).
  { unfold set_dbs. rewrite D1, D2, D3, Hf2, Hl2, Hcur2, (ae_io _ He2), (ae_off _ He2), Hlen. done. }
  rewrite Hs2 in *. exists s1, key, val, hb, tb, c. rewrite Hloc in Hval.
  do 5 (split; [done|]). subst f. cbv zeta. do 2 (split; [done|]). split; try done; cbn [blockIndexDB fileChunks currentChunkNum].
  - intros k [->|[? Hk]]%lookup_insert_is_Some.
    + exists (length chain). rewrite length_app, <- Hnum. cbn. split; [lia|done].
    + destruct (Hidx k Hk) as (i & Hi & Hik). exists i. rewrite length_app. split; [lia|done].
  - intros n. rewrite <- Hf2. rewrite Hd2, Hcur2. done.
  - intros b' Hb'. rewrite last_snoc in Hb'. injection Hb' as <-. exists (file_at s1 (currentChunkNum s1)), c. split_and!; [done| |].
    + unfold file_at. cbn [fileChunks currentChunkNum]. by rewrite lookup_insert_eq.
    + unfold getLocation. cbn [blockIndexDB]. rewrite length_app, Nat2Z.inj_add.
      change (Z.of_nat (length [b])) with 1. rewrite <- Hnum, Hkey. cbn [mbind res_bind].
      rewrite lookup_insert_eq. by rewrite (unmarshal_marshal _ _ Hval).
  - by destruct chain.
Qed.

(** Chains are built by commits, so their stores are synced. *)
Lemma commit_all_synced pre post s :
  chain_ok (pre ++ post) → synced s pre →
  ∃ s', commit_all chunkSizeLimit post s = (s', Ok tt) ∧ synced s' (pre ++ post).
Proof.
  revert pre s. induction post as [|b post IH]; intros pre s Hch Hs.
  { exists s. by rewrite app_nil_r. }
  destruct Hch as [Hso Hnum Hsm]. rewrite length_app in Hsm. cbn in Hsm.
  pose proof (Hnum (length pre) b ltac:(by rewrite list_lookup_middle)) as Hb.
  destruct (Commit_synced s pre b Hs) as (s1 & key & val & hb & tb & c & _ & _ & _ & _ & _ & _ & Hc & Hs1);
    [|lia|lia|].
  { apply Forall_app in Hso as [_ Hso]. by apply Forall_cons in Hso as [? _]. }
  replace (pre ++ b :: post) with ((pre ++ [b]) ++ post) in * by (by rewrite <- app_assoc).
  destruct (IH (pre ++ [b]) _ ltac:(split; try done; rewrite !length_app; cbn; lia) Hs1) as (s' & Hall & Hs').
  exists s'. cbn [commit_all]. unfold mbind, prog_bind. rewrite Hc. done.
Qed.

(** ** Opening *)

Lemma size_dense (files : gmap Z bytes) n :
  0 ≤ n → (∀ k, is_Some (files !! k) ↔ 0 ≤ k ≤ n) → Z.of_nat (size files) - 1 = n.
Proof.
  intros Hn Hd. assert (Hdom : dom files = list_to_set (C := gset Z) (seqZ 0 (n + 1))).
  { apply set_eq. intros k. rewrite elem_of_dom, Hd, elem_of_list_to_set, elem_of_seqZ. lia. }
  rewrite <- size_dom, Hdom, size_list_to_set, length_seqZ by apply NoDup_seqZ. lia.
Qed.

Lemma openExistingStore_dense files cur f idx hdrs txs :
  (∀ k, is_Some (files !! k) ↔ 0 ≤ k ≤ cur) → files !! cur = Some f →
  openExistingStore files idx hdrs txs = recover (mkStore files 0 (Z.of_nat (length f)) cur 0 idx hdrs txs).
Proof.
  intros Hd Hf. assert (Hcur : 0 ≤ cur ≤ cur) by (apply Hd; rewrite Hf; eauto).
  unfold openExistingStore. rewrite (size_dense files cur) by (done || lia). rewrite Hf. cbn [default]. unfold id.
  by rewrite insert_id.
Qed.

Lemma index_last s0 s chain loc :
  synced s chain → chain ≠ [] → blockIndexDB s0 = blockIndexDB s →
  getLocation s (Z.of_nat (length chain)) = Ok loc →
  getLastBlockLocationInIndex s0 = Ok (Z.of_nat (length chain), Some loc).
Proof.
  intros [[Hr _] _ Hidx _ _ _] Hne Heq Hloc. pose proof (rd_small _ _ Hr) as Hs.
  unfold getLocation in Hloc. apply bind_ok_inv in Hloc as (key & Hkey & Hloc).
  destruct (blockIndexDB s !! key) as [val|] eqn:Hval; [|done]. rewrite wrap_err_ok in Hloc.
  assert (Hlen : (0 < length chain)%nat) by (destruct chain; cbn; [done|lia]).
  unfold getLastBlockLocationInIndex. rewrite Heq, (last_entry_ok _ key val Hval).
  - destruct (decode_encode_key (Z.of_nat (length chain)) [] ltac:(lia)) as (key' & Hkey' & Hdec).
    rewrite Hkey in Hkey'. injection Hkey' as <-. rewrite app_nil_r in Hdec. rewrite Hdec. cbn. by rewrite Hloc.
  - intros k' v' Hk' Hne'. destruct (Hidx k' ltac:(eauto)) as (i & Hi & Hik).
    destruct (decide (Z.of_nat i + 1 = Z.of_nat (length chain))) as [E|E]; [congruence|].
    by apply (encode_key_order (Z.of_nat i + 1) (Z.of_nat (length chain))); [lia|lia|..].
Qed.

(** Nothing follows the last chunk. *)
Lemma next_none s0 cur n :
  fileChunks s0 !! (cur + 1) = None →
  nextBlockWithLocation s0 (mkStream cur n 0) = (mkStream cur n 0, Ok None).
Proof. intros H. unfold nextBlockWithLocation, moveToNextFileChunkIfExist. cbn. by rewrite H. Qed.

(** The length of a block, from the bytes that are there. *)
Lemma peek_varint (v e : bytes) n :
  (length v ≤ 10)%nat → (length v ≤ n)%nat → take (Nat.min 10 n) (v ++ e) = v ++ take (Nat.min 10 n - length v) e.
Proof. intros H1 H2. rewrite take_app, take_ge by lia. done. Qed.

Lemma readNextBlock_ok s0 chunk pre c b :
  file_at s0 chunk = pre ++ c → content_ok b c →
  readNextBlock s0 (mkStream chunk (Z.of_nat (length pre)) (Z.of_nat (length c))) =
    (mkStream chunk (Z.of_nat (length (pre ++ c))) 0,
     Ok (Some (mkBlockAndLocation b chunk (Z.of_nat (length pre)) (Z.of_nat (length (pre ++ c)))))).
Proof.
  intros Hf (m & Hm & Hc & Hmax). set (e := SnappyEncode m) in *. set (v := PutUvarint (Z.of_nat (length e))) in *.
  assert (Hv : (1 ≤ length v ≤ 10)%nat) by (apply (put_uvarint_length 9)).
  assert (Hlen : length c = (length v + length e)%nat) by (rewrite Hc; apply length_app).
  assert (Hsize : readNextBlockSize s0 (mkStream chunk (Z.of_nat (length pre)) (Z.of_nat (length c))) =
    (mkStream chunk (Z.of_nat (length pre + length v)) (Z.of_nat (length e)), Ok (Z.of_nat (length e)))).
  { unfold readNextBlockSize, os_read. cbn [stm_remaining stm_chunk stm_offset].
    set (more := Z.of_nat MaxVarintLen64 <=? Z.of_nat (length c)).
    assert (Hpeek : (if more then Z.of_nat MaxVarintLen64 else Z.of_nat (length c)) = Z.of_nat (Nat.min 10 (length c))).
    { unfold more, MaxVarintLen64. destruct (Z.leb_spec (Z.of_nat 10) (Z.of_nat (length c))); lia. }
    rewrite Hpeek, (proj2 (Z.ltb_ge _ _)) by lia. rewrite Hf, !Nat2Z.id, drop_app_length, Hc.
    rewrite peek_varint by (rewrite ?length_app; lia). unfold maxAlloc in Hmax. unfold v at 1.
    rewrite decode_encode_varint by lia. fold v. rewrite (proj2 (Z.eqb_neq _ _)) by lia.
    rewrite length_app. f_equal; [f_equal; lia|]. unfold i64. by rewrite (proj2 (Z.ltb_lt _ _)) by lia. }
  unfold readNextBlock. rewrite Hsize. cbn [stm_remaining stm_chunk stm_offset].
  rewrite (proj2 (Z.ltb_ge _ _)), (proj2 (Z.ltb_ge _ _)) by lia. unfold os_read.
  rewrite Hf, Hc, app_assoc, !Nat2Z.id, drop_app_length' by (rewrite length_app; lia).
  rewrite take_ge by lia.
  rewrite (snappy_decode_encode m : SnappyDecode e = Ok m). cbn [wrap_err mbind res_bind].
  rewrite (unmarshal_marshal _ _ Hm). cbn [wrap_err mbind res_bind].
  rewrite !length_app. f_equal; [f_equal; lia|]. do 3 f_equal; lia.
Qed.

(** ** Recovery after the append *)

Lemma u64_pred n : u64 (n - 1) ≠ n.
Proof.
  unfold u64. intros H. pose proof (Z.mod_pos_bound (n - 1) (2 ^ 64) ltac:(lia)) as Hb. rewrite H in Hb.
  destruct (decide (n = 0)) as [->|Hn]; [done|]. rewrite Z.mod_small in H; lia.
Qed.

(** Reading the block at the end of the current chunk moves the position to the end. *)
Lemma Get_last s n pre c b :
  content_ok b c → file_at s (currentChunkNum s) = pre ++ c →
  getLocation s n = Ok (mkBlockLocation (currentChunkNum s) (Z.of_nat (length pre)) (Z.of_nat (length c))) →
  n ≤ lastCommittedBlockNum s →
  Get n s = (set_io s (Z.of_nat (length (pre ++ c))), Ok b).
Proof.
  intros Hc Hf Hl Hn. unfold Get. rewrite (proj2 (Z.ltb_ge _ _)) by lia. rewrite Hl.
  cbn [FileChunkNum Offset]. rewrite Z.eqb_refl, Hf. by rewrite (readBlockFromFile_end pre b c Hc).
Qed.

(** The block is in the index: its metadata are written again. *)
Lemma recover_indexed sc chain b pre c key val hb tb hdrs txs :
  synced sc chain → last chain = Some b → block_number b = Z.of_nat (length chain) →
  content_ok b c → file_at sc (currentChunkNum sc) = pre ++ c →
  encodeOrderPreservingVarUint64 (block_number b) = Ok key → blockIndexDB sc !! key = Some val →
  Marshal (mkBlockLocation (currentChunkNum sc) (Z.of_nat (length pre)) (Z.of_nat (length c))) = Ok val →
  headerBatch b = Ok hb → validationBatch b = Ok tb →
  put_all hdrs hb = blockHeaderDB sc → put_all txs tb = txValidationInfoDB sc →
  recover (mkStore (fileChunks sc) 0 (currentOffset sc) (currentChunkNum sc) 0 (blockIndexDB sc) hdrs txs) = (sc, Ok tt).
Proof.
  intros Hsy Hb Hnum Hc Hf Hkey Hval Hm Hhb Htb Hh Ht.
  pose proof Hsy as [[Hr Hlast] He Hidx Hd _ _].
  set (loc := mkBlockLocation (currentChunkNum sc) (Z.of_nat (length pre)) (Z.of_nat (length c))) in *.
  set (s0 := mkStore _ _ _ _ _ _ _ _).
  assert (Hne : chain ≠ []) by (by intros ->). assert (Hlen : (0 < length chain)%nat) by (destruct chain; cbn; [done|lia]).
  assert (Hend : Z.of_nat (length pre) + Z.of_nat (length c) = currentOffset sc)
    by (rewrite (ae_off _ He), Hf, length_app; lia).
  assert (Hnext : fileChunks sc !! (currentChunkNum sc + 1) = None).
  { destruct (fileChunks sc !! _) eqn:E; [|done]. destruct (proj1 (Hd (currentChunkNum sc + 1))); [rewrite E; eauto|lia]. }
  destruct (ae_chunk _ He) as [f Hcur]. assert (Hff : f = pre ++ c) by (unfold file_at in Hf; by rewrite Hcur in Hf).
  assert (Hgl : getLocation sc (Z.of_nat (length chain)) = Ok loc).
  { unfold getLocation. rewrite <- Hnum, Hkey. cbn [mbind res_bind]. rewrite Hval.
    by rewrite (unmarshal_marshal _ _ Hm). }
  unfold recover. rewrite (bind_step _ _ _ s0 (Z.of_nat (length chain), Some loc))
    by (by rewrite (index_last s0 sc chain loc Hsy Hne eq_refl Hgl)).
  rewrite (bind_step _ _ _ s0 (mkBlockLocation (currentChunkNum sc) (currentOffset sc) 0))
    by (unfold gets; cbn [FileChunkNum Offset Length loc]; by rewrite Hend).
  rewrite (bind_step _ _ _ s0 (mkStream (currentChunkNum sc) (currentOffset sc) 0)).
  2:{ unfold newBlockfileStream. cbn [FileChunkNum Offset fileChunks s0]. rewrite Hcur, Hff, length_app, <- Hend.
      do 3 f_equal. lia. }
  rewrite (bind_step _ _ _ s0 (mkStream (currentChunkNum sc) (currentOffset sc) 0, Ok None))
    by (unfold gets; by rewrite next_none).
  unfold recover_synced. rewrite (proj2 (Z.eqb_neq _ _)) by lia.
  erewrite bind_step by done. erewrite bind_step by done. erewrite bind_step by done.
  cbn [currentChunkNum set_current s0 FileChunkNum loc]. rewrite (proj2 (Z.eqb_neq _ _)) by apply u64_pred.
  erewrite bind_step by done. cbn [Offset Length loc].
  set (s1 := set_current _ _ _ _).
  rewrite (bind_step _ _ s1 (set_io s1 (currentOffset sc)) b).
  2:{ rewrite (Get_last s1 (Z.of_nat (length chain)) pre c b Hc Hf Hgl) by (cbn; lia).
      by rewrite length_app, Nat2Z.inj_add, Hend. }
  destruct (storeMetadataInDB_ok location_marshals b loc (set_io s1 (currentOffset sc)) key hb tb Hkey Hhb Htb)
    as (val' & Hval' & ->). rewrite Hm in Hval'. injection Hval' as <-.
  unfold set_dbs, set_io, set_files, s1, set_current, s0. cbn. rewrite Hh, Ht, insert_id, Hend by done.
  f_equal. destruct sc as [files io off cur lst idx hd tx]. cbn in *. f_equal; [|lia].
  pose proof (ae_io _ He). cbn in *. lia.
Qed.

Lemma content_not_nil b c : content_ok b c → c ≠ [].
Proof.
  intros (m & _ & -> & _) E. apply (f_equal length) in E. rewrite length_app in E.
  pose proof (put_uvarint_length 9 (Z.of_nat (length (SnappyEncode m)))). unfold PutUvarint in E. cbn [length] in E. lia.
Qed.

(** Where the search for a block that is not in the index starts, and that it
    finds the bytes after the last indexed block. *)
Lemma first_unindexed s s1 chain s0 tail :
  synced s chain → ready s1 s chain → tail ≠ [] →
  blockIndexDB s0 = blockIndexDB s → currentChunkNum s0 = currentChunkNum s1 →
  fileChunks s0 = <[currentChunkNum s1 := file_at s1 (currentChunkNum s1) ++ tail]> (fileChunks s1) →
  ∃ last start stream, getLastBlockLocationInIndex s0 = Ok (Z.of_nat (length chain), last) ∧
    start = match last with
            | None => mkBlockLocation (currentChunkNum s0) 0 0
            | Some l => mkBlockLocation (FileChunkNum l) (Offset l + Length l) 0
            end ∧
    (chain = [] → last = None) ∧
    (chain ≠ [] → ∃ l, last = Some l ∧ FileChunkNum l = currentChunkNum s ∧ Offset l + Length l = currentOffset s) ∧
    newBlockfileStream s0 start = Ok stream ∧
    nextBlockWithLocation s0 stream =
      readNextBlock s0 (mkStream (currentChunkNum s1) (Z.of_nat (length (file_at s1 (currentChunkNum s1))))
                          (Z.of_nat (length tail))).
Proof.
  intros Hsy (Hr1 & He1 & _ & _ & Hd1 & Hmove) Hc Hi Hcur Hf. set (f := file_at s1 (currentChunkNum s1)) in *.
  assert (Hlc : (0 < length tail)%nat) by (destruct tail; [done|cbn; lia]).
  assert (Hfcur : fileChunks s0 !! currentChunkNum s1 = Some (f ++ tail)) by (rewrite Hf; apply lookup_insert_eq).
  pose proof Hsy as [[Hr Hlast] He Hidx Hd Hl Hemp].
  destruct (ae_chunk _ He) as [f0 Hf0].
  assert (Hff : (currentChunkNum s1 = currentChunkNum s ∧ f = f0) ∨
    (currentChunkNum s1 = currentChunkNum s + 1 ∧ f = [] ∧ fileChunks s0 !! currentChunkNum s = Some f0)).
  { destruct Hmove as [[H1 H2]|[H1 H2]]; [left|right]; unfold f, file_at; rewrite H1, H2.
    - by rewrite Hf0.
    - rewrite lookup_insert_eq. split_and!; try done. rewrite Hf, H1, H2, !lookup_insert_ne by lia. done. }
  destruct (decide (chain = [])) as [->|Hne].
  - assert (Hempty : blockIndexDB s = ∅).
    { apply map_empty. intros k. destruct (blockIndexDB s !! k) eqn:E; [|done].
      destruct (Hidx k) as (i & Hi0 & _); [rewrite E; eauto|]. cbn in Hi0. lia. }
    assert (Hf0' : f0 = []) by (specialize (Hemp eq_refl); unfold file_at in Hemp; by rewrite Hf0 in Hemp).
    assert (f = []) as Hfn by (destruct Hff as [[_ ->]|[_ [-> _]]]; done).
    eexists None, _, (mkStream (currentChunkNum s1) 0 (Z.of_nat (length tail))). split_and!; try done.
    + unfold getLastBlockLocationInIndex. by rewrite Hi, Hempty.
    + unfold newBlockfileStream. cbn [FileChunkNum Offset]. rewrite Hcur, Hfcur, Hfn. cbn [app]. do 2 f_equal. lia.
    + unfold nextBlockWithLocation. cbn [stm_remaining]. rewrite (proj2 (Z.eqb_neq _ _)) by lia. by rewrite Hfn.
  - destruct (last chain) as [b0|] eqn:Hb0; [|by apply last_None in Hb0].
    destruct (Hl b0 eq_refl) as (pre0 & c0 & Hc0 & Hfile & Hloc).
    unfold file_at in Hfile. rewrite Hf0 in Hfile. cbn in Hfile. subst f0.
    assert (Hoff : currentOffset s = Z.of_nat (length pre0) + Z.of_nat (length c0))
      by (rewrite (ae_off _ He); unfold file_at; rewrite Hf0; cbn; unfold id; rewrite length_app; lia).
    destruct Hff as [[Hc1 ->]|(Hc1 & -> & Hprev)];
      (eexists (Some _), _, _; split_and!; [by apply (index_last s0 s chain)|done|done|by eexists|..];
       [unfold newBlockfileStream; cbn [FileChunkNum Offset Length]; by rewrite ?Hprev, <- ?Hc1, ?Hfcur|]);
      unfold nextBlockWithLocation; cbn [FileChunkNum Offset Length stm_remaining].
    + rewrite (proj2 (Z.eqb_neq _ _)) by (rewrite !length_app; lia). f_equal. rewrite Hc1. f_equal; rewrite !length_app; lia.
    + rewrite length_app, (proj2 (Z.eqb_eq _ _)) by lia.
      unfold moveToNextFileChunkIfExist. cbn [stm_chunk]. rewrite <- Hc1, Hfcur. cbn [app length].
      by destruct tail.
Qed.

(** The block is only in the files: it is indexed, and the position stays at zero. *)
Lemma recover_not_indexed s s1 chain b c key val hb tb hdrs txs s0 :
  synced s chain → ready s1 s chain → content_ok b c →
  block_number b = Z.of_nat (length chain) + 1 →
  encodeOrderPreservingVarUint64 (block_number b) = Ok key → headerBatch b = Ok hb → validationBatch b = Ok tb →
  let f := file_at s1 (currentChunkNum s1) in
  let loc := mkBlockLocation (currentChunkNum s1) (Z.of_nat (length f)) (Z.of_nat (length c)) in
  Marshal loc = Ok val →
  s0 = mkStore (<[currentChunkNum s1 := f ++ c]> (fileChunks s1)) 0 (Z.of_nat (length (f ++ c))) (currentChunkNum s1) 0
         (blockIndexDB s) hdrs txs →
  recover s0 =
    (mkStore (<[currentChunkNum s1 := f ++ c]> (fileChunks s1)) 0 (Z.of_nat (length (f ++ c))) (currentChunkNum s1)
       (block_number b) (<[key := val]> (blockIndexDB s)) (put_all hdrs hb) (put_all txs tb), Ok tt).
Proof.
  intros Hsy Hready Hc Hnum Hkey Hhb Htb f loc Hm Hs0.
  destruct (first_unindexed s s1 chain s0 c Hsy Hready (content_not_nil _ _ Hc))
    as (last & start & stream & Hlast & Hstart & _ & _ & Hstream & Hnext); [by rewrite Hs0..|].
  fold f in Hnext. rewrite (readNextBlock_ok s0 (currentChunkNum s1) f c b) in Hnext; [|rewrite Hs0; unfold file_at at 1; cbn; by rewrite lookup_insert_eq|done].
  destruct Hready as (_ & _ & _ & _ & Hd & _).
  unfold recover. erewrite bind_step by (by rewrite Hlast). cbn beta iota.
  erewrite bind_step by (unfold gets; by rewrite <- Hstart). erewrite bind_step by (by rewrite Hstream).
  erewrite bind_step by (unfold gets; by rewrite Hnext). cbn beta iota.
  unfold recover_unindexed. erewrite bind_step.
  2:{ rewrite next_none; [done|]. rewrite Hs0. cbn [fileChunks]. rewrite lookup_insert_ne by lia.
      destruct (fileChunks s1 !! _) eqn:E; [|done].
      destruct (proj1 (Hd (currentChunkNum s1 + 1))); [rewrite E; eauto|lia]. }
  cbn beta iota. cbn [bal_block bal_chunk bal_start bal_end].
  replace (Z.of_nat (length (f ++ c)) - Z.of_nat (length f)) with (Z.of_nat (length c)) by (rewrite length_app; lia).
  destruct (storeMetadataInDB_ok location_marshals b loc s0 key hb tb Hkey Hhb Htb) as (val' & Hval' & Hmeta).
  rewrite Hm in Hval'. injection Hval' as <-. erewrite bind_step by exact Hmeta. by rewrite Hs0.
Qed.

(** C7: a commit that is interrupted after the block was appended is completed
    by the recovery, whichever of the three databases had been written: the
    store is the one that the completed commit would have left, up to the
    position of the descriptor, which reading the last block brings there. *)
Theorem recovery_completes_commit s chain b sc idx hdrs txs :
  synced s chain → storable b → block_number b = Z.of_nat (length chain) + 1 → block_number b < 2 ^ 64 →
  Commit chunkSizeLimit None (Some b) s = (sc, Ok tt) →
  idx = blockIndexDB s ∨ idx = blockIndexDB sc → hdrs = blockHeaderDB s ∨ hdrs = blockHeaderDB sc →
  txs = txValidationInfoDB s ∨ txs = txValidationInfoDB sc →
  ∃ io, openExistingStore (fileChunks sc) idx hdrs txs = (set_io sc io, Ok tt) ∧
    (idx = blockIndexDB sc → io = ioOffset sc) ∧ Get (block_number b) (set_io sc io) = (sc, Ok b).
Proof.
  intros Hsy Hso Hnum Hlt Hcom Hidx Hhdrs Htxs.
  destruct (Commit_synced s chain b Hsy Hso Hnum Hlt)
    as (s1 & key & val & hb & tb & c & Hready & Hc & Hkey & Hhb & Htb & Hm & Hcom' & Hsc).
  set (f := file_at s1 (currentChunkNum s1)) in *. rewrite Hcom in Hcom'. injection Hcom' as Hsc'.
  rewrite <- Hsc' in Hsc. pose proof Hsc as [[_ Hlast] _ _ Hd _ _].
  assert (Hfile : fileChunks sc !! currentChunkNum sc = Some (f ++ c)) by (rewrite Hsc'; apply lookup_insert_eq).
  assert (Hh : put_all hdrs hb = blockHeaderDB sc) by (rewrite Hsc' in *; cbn in *; destruct Hhdrs as [->| ->]; rewrite ?put_all_twice; done).
  assert (Ht : put_all txs tb = txValidationInfoDB sc) by (rewrite Hsc' in *; cbn in *; destruct Htxs as [->| ->]; rewrite ?put_all_twice; done).
  assert (Hget : ∀ io, Get (block_number b) (set_io sc io) = (sc, Ok b)).
  { intros io. rewrite (Get_last (set_io sc io) (block_number b) f c b Hc).
    - f_equal. rewrite Hsc'. done.
    - unfold file_at. cbn [set_io set_files fileChunks currentChunkNum]. by rewrite Hfile.
    - unfold getLocation. rewrite Hkey. cbn [mbind res_bind set_io set_files blockIndexDB]. rewrite Hsc'. cbn [blockIndexDB].
      rewrite lookup_insert_eq. by rewrite (unmarshal_marshal _ _ Hm).
    - rewrite Hsc'. cbn. lia. }
  rewrite (openExistingStore_dense _ _ _ idx hdrs txs Hd Hfile).
  destruct (decide (idx = blockIndexDB sc)) as [->|Hne].
  - exists (ioOffset sc). split_and!; [|done|done].
    replace (set_io sc (ioOffset sc)) with sc by (by destruct sc).
    replace (Z.of_nat (length (f ++ c))) with (currentOffset sc) by (by rewrite Hsc').
    eapply (recover_indexed sc (chain ++ [b]) b f c key val hb tb); try done; [apply last_snoc|..].
    + rewrite length_app. cbn. lia.
    + unfold file_at. by rewrite Hfile.
    + rewrite Hsc'. apply lookup_insert_eq.
    + by rewrite Hsc'.
  - destruct Hidx as [->|?]; [|done]. exists 0. split_and!; [|done|done].
    rewrite (recover_not_indexed s s1 chain b c key val hb tb hdrs txs
      (mkStore (fileChunks sc) 0 (Z.of_nat (length (f ++ c))) (currentChunkNum sc) 0 (blockIndexDB s) hdrs txs)
      Hsy Hready Hc Hnum Hkey Hhb Htb Hm ltac:(by rewrite Hsc')).
    rewrite Hh, Ht. unfold set_io, set_files. by rewrite Hsc'.
Qed.

(** ** Recovery from a partial append *)

(** [p] is a proper, non-empty part of the content of a block. *)
Definition partial_content (p : bytes) : Prop :=
  ∃ b c q, content_ok b c ∧ c = p ++ q ∧ p ≠ [] ∧ q ≠ [].

Lemma readNextBlock_partial s0 chunk pre p :
  file_at s0 chunk = pre ++ p → partial_content p →
  (readNextBlock s0 (mkStream chunk (Z.of_nat (length pre)) (Z.of_nat (length p)))).2 =
    Err ErrUnexpectedEndOfBlockfile.
Proof.
  intros Hf (b & c & q & (m & _ & Hc & Hmax) & Hpq & Hp & Hq).
  set (e := SnappyEncode m) in *. set (v := PutUvarint (Z.of_nat (length e))) in *.
  assert (Hv : (1 ≤ length v ≤ 10)%nat) by (apply (put_uvarint_length 9)).
  assert (Hlp : (0 < length p)%nat) by (destruct p; [done|cbn; lia]).
  assert (Hlq : (0 < length q)%nat) by (destruct q; [done|cbn; lia]).
  rewrite Hpq in Hc. unfold maxAlloc in Hmax.
  unfold readNextBlock, readNextBlockSize, os_read. cbn [stm_remaining stm_chunk stm_offset].
  rewrite Hf, Nat2Z.id, drop_app_length. unfold MaxVarintLen64.
  destruct (Nat.le_gt_cases (length v) (length p)) as [Hle|Hgt].
  - assert (Hpv : p = v ++ drop (length v) p).
    { rewrite <- (take_drop (length v) p) at 1. f_equal. apply (f_equal (take (length v))) in Hc.
      rewrite take_app_le, take_app_length in Hc by lia. done. }
    set (p' := drop (length v) p) in *. rewrite Hpv in Hc. rewrite <- app_assoc in Hc. apply app_inv_head in Hc.
    assert (He : length e = (length p' + length q)%nat) by (rewrite <- Hc, length_app; done).
    assert (Hlen : length p = (length v + length p')%nat) by (rewrite Hpv at 1; apply length_app).
    set (peek := if (_ <=? _) then _ else _). assert (Hpeek : peek = Z.of_nat (Nat.min 10 (length p)))
      by (unfold peek; destruct (Z.leb_spec (Z.of_nat 10) (Z.of_nat (length p))); lia).
    rewrite Hpeek, (proj2 (Z.ltb_ge _ _)), Nat2Z.id by lia. rewrite Hpv at 2.
    rewrite peek_varint by lia. unfold v at 1. rewrite decode_encode_varint by lia. fold v.
    rewrite (proj2 (Z.eqb_neq _ _)) by lia. cbn [stm_remaining]. unfold i64.
    rewrite (proj2 (Z.ltb_lt (Z.of_nat (length e)) _)) by lia. by rewrite (proj2 (Z.ltb_lt _ _)) by lia.
  - assert (Hvp : v = p ++ drop (length p) v).
    { rewrite <- (take_drop (length p) v) at 1. f_equal. apply (f_equal (take (length p))) in Hc.
      rewrite take_app_length, take_app_le in Hc by lia. done. }
    rewrite (proj2 (Z.leb_gt _ _)), (proj2 (Z.ltb_ge _ _)), Nat2Z.id, take_ge by lia.
    assert (Hd : length (drop (length p) v) ≠ 0%nat) by (rewrite length_drop; lia).
    assert (Hd' : drop (length p) v ≠ []) by (intros E; by rewrite E in Hd).
    by rewrite (decode_varint_short (Z.of_nat (length e)) p (drop (length p) v) ltac:(lia) Hvp Hd').
Qed.

(** With a part of a block behind the indexed ones, the recovery is in its third scenario. *)
Lemma recover_reaches_partial s s1 chain s0 p :
  synced s chain → ready s1 s chain → partial_content p →
  blockIndexDB s0 = blockIndexDB s → currentChunkNum s0 = currentChunkNum s1 →
  fileChunks s0 = <[currentChunkNum s1 := file_at s1 (currentChunkNum s1) ++ p]> (fileChunks s1) →
  ∃ last, recover s0 = recover_partial (Z.of_nat (length chain)) last s0 ∧ (chain = [] → last = None) ∧
    (chain ≠ [] → ∃ l, last = Some l ∧ FileChunkNum l = currentChunkNum s ∧ Offset l + Length l = currentOffset s).
Proof.
  intros Hsy Hrd Hp Hi Hc Hf.
  destruct (first_unindexed s s1 chain s0 p Hsy Hrd) as
    (lst & start & stream & Hlst & Hstart & Hl0 & Hl & Hstream & Hnext); [by destruct Hp as (?&?&?&?&?&?&?)|done..|].
  exists lst. split_and!; [|done|done].
  assert (Hpart := readNextBlock_partial s0 (currentChunkNum s1) (file_at s1 (currentChunkNum s1)) p
    ltac:(unfold file_at at 1; by rewrite Hf, lookup_insert_eq) Hp).
  unfold recover. erewrite bind_step by (by rewrite Hlst). cbn beta iota.
  erewrite bind_step by (unfold gets; by rewrite <- Hstart). erewrite bind_step by (by rewrite Hstream).
  erewrite bind_step by (unfold gets; by rewrite Hnext).
  destruct (readNextBlock s0 _) as [st' r]. cbn in Hpart. subst r. cbn beta iota. by rewrite bool_decide_eq_true_2.
Qed.

(** C39: in a store that has a block already, a block that was appended only in part to
    the chunk of the blocks before it is discarded by the recovery: the reopened store is
    exactly the one before the commit.  (The other places where an append can stop are not
    recovered like this: [recovery_rewinds_last_chunk] is about the first block of a new
    chunk, [recovery_of_partial_first_block_panics] about the very first block.) *)
Theorem recovery_discards_partial_block s chain p :
  synced s chain → chain ≠ [] → partial_content p →
  openExistingStore (<[currentChunkNum s := file_at s (currentChunkNum s) ++ p]> (fileChunks s))
    (blockIndexDB s) (blockHeaderDB s) (txValidationInfoDB s) = (s, Ok tt).
Proof.
  intros Hsy Hne Hp. pose proof Hsy as [[Hr Hlast] He _ Hd _ _].
  assert (Hrd : ready s s chain) by (apply (synced_ready s chain s Hsy); by left).
  remember (file_at s (currentChunkNum s)) as f eqn:Hf.
  assert (Hd' : ∀ k, is_Some (<[currentChunkNum s := f ++ p]> (fileChunks s) !! k) ↔ 0 ≤ k ≤ currentChunkNum s).
  { intros k. rewrite lookup_insert_is_Some, Hd. pose proof (proj1 (Hd _) (ae_chunk _ He)).
    destruct (decide (currentChunkNum s = k)); lia. }
  rewrite (openExistingStore_dense _ _ (f ++ p) _ _ _ Hd') by apply lookup_insert_eq.
  match goal with |- recover ?x = _ => destruct (recover_reaches_partial s s chain x p Hsy Hrd Hp) as (lst & -> & _ & Hl) end;
    [done..|by rewrite <- Hf|].
  destruct (Hl Hne) as (l & -> & Hlc & Hlo).
  unfold recover_partial. do 4 (erewrite bind_step by done). cbn [currentChunkNum set_current]. rewrite Hlc.
  rewrite (proj2 (Z.eqb_neq _ _)) by apply u64_pred. unfold modify. f_equal.
  unfold set_files, set_current, truncate, file_at. cbn. rewrite lookup_insert_eq, insert_insert_eq. cbn. unfold id.
  rewrite Hlo, (ae_off _ He), <- Hf, Nat2Z.id, take_app_length, length_app.
  replace (length f - (length f + length p))%nat with 0%nat by lia. cbn [replicate]. rewrite app_nil_r.
  destruct (ae_chunk _ He) as [f' Hf']. assert (Hff : f = f') by (rewrite Hf; unfold file_at; by rewrite Hf').
  rewrite insert_id by congruence. transitivity (mkStore (fileChunks s) (ioOffset s) (currentOffset s) (currentChunkNum s)
    (lastCommittedBlockNum s) (blockIndexDB s) (blockHeaderDB s) (txValidationInfoDB s)); [|by destruct s].
  by rewrite (ae_io _ He), (ae_off _ He), Hlast, Hf.
Qed.

(** A partial write that had started a new chunk is discarded too, but the
    reopened store is not the one before the commit: its offset and its descriptor are at
    the start of the last full chunk, where the next append writes. *)
Theorem recovery_rewinds_last_chunk s chain p :
  synced s chain → chain ≠ [] → partial_content p → currentChunkNum s + 1 < 2 ^ 64 →
  openExistingStore (<[currentChunkNum s + 1 := p]> (fileChunks s))
    (blockIndexDB s) (blockHeaderDB s) (txValidationInfoDB s) =
    (set_current (set_io s 0) 0 (currentChunkNum s) (lastCommittedBlockNum s), Ok tt).
Proof.
  intros Hsy Hne Hp Hbound. pose proof Hsy as [[Hr Hlast] He _ Hd _ _].
  destruct (move_ok s chain Hr He) as (s1 & Hm & _).
  assert (Hrd : ready s1 s chain) by (apply (synced_ready s chain s1 Hsy); by right).
  pose proof Hrd as (_ & _ & _ & _ & _ & Hmove). pose proof (proj1 (Hd _) (ae_chunk _ He)) as Hpos.
  assert (Hmv : currentChunkNum s1 = currentChunkNum s + 1 ∧ fileChunks s1 = <[currentChunkNum s + 1 := []]> (fileChunks s)).
  { destruct Hmove as [[H1 _]|?]; [|done]. apply (f_equal fst) in Hm. cbn in Hm. rewrite <- Hm in H1. cbn in H1. lia. }
  destruct Hmv as [Hc1 Hf1].
  assert (Hd' : ∀ k, is_Some (<[currentChunkNum s + 1 := p]> (fileChunks s) !! k) ↔ 0 ≤ k ≤ currentChunkNum s + 1).
  { intros k. rewrite lookup_insert_is_Some, Hd. destruct (decide (currentChunkNum s + 1 = k)); lia. }
  rewrite (openExistingStore_dense _ _ p _ _ _ Hd') by apply lookup_insert_eq.
  match goal with |- recover ?x = _ => destruct (recover_reaches_partial s s1 chain x p Hsy Hrd Hp) as (lst & -> & _ & Hl) end;
    [done..| |].
  { cbn. unfold file_at. by rewrite Hc1, Hf1, lookup_insert_eq, insert_insert_eq. }
  destruct (Hl Hne) as (l & -> & Hlc & Hlo).
  unfold recover_partial. do 4 (erewrite bind_step by done). cbn [currentChunkNum set_current]. rewrite Hlc.
  replace (currentChunkNum s + 1 - 1) with (currentChunkNum s) by lia. unfold u64 at 1. rewrite Z.mod_small, Z.eqb_refl by lia.
  erewrite bind_step by done. unfold removeChunk, modify. f_equal.
  unfold set_files, set_current, set_io, file_at. cbn. destruct (ae_chunk _ He) as [f Hf].
  assert (Hnew : fileChunks s !! (currentChunkNum s + 1) = None).
  { apply eq_None_not_Some. intros H. apply Hd in H. lia. }
  rewrite lookup_insert_ne, Hf by lia. cbn. unfold id. rewrite delete_insert_ne, delete_insert_id, insert_id by (done || lia).
  by rewrite Hlast.
Qed.

(** A store whose very first block was written in part cannot be opened: the
    recovery dereferences the location of a last indexed block that does not exist. *)
Theorem recovery_of_partial_first_block_panics s p :
  synced s [] → partial_content p →
  ∃ w, (openExistingStore (<[currentChunkNum s := p]> (fileChunks s))
    (blockIndexDB s) (blockHeaderDB s) (txValidationInfoDB s)).2 = Panic w.
Proof.
  intros Hsy Hp. pose proof Hsy as [[Hr Hlast] He _ Hd _ Hemp].
  assert (Hrd : ready s s []) by (apply (synced_ready s [] s Hsy); by left).
  assert (Hd' : ∀ k, is_Some (<[currentChunkNum s := p]> (fileChunks s) !! k) ↔ 0 ≤ k ≤ currentChunkNum s).
  { intros k. rewrite lookup_insert_is_Some, Hd. pose proof (proj1 (Hd _) (ae_chunk _ He)).
    destruct (decide (currentChunkNum s = k)); lia. }
  rewrite (openExistingStore_dense _ _ p _ _ _ Hd') by apply lookup_insert_eq.
  match goal with |- context [recover ?x] => destruct (recover_reaches_partial s s [] x p Hsy Hrd Hp) as (lst & -> & Hl & _) end;
    [done..|by rewrite (Hemp eq_refl)|].
  rewrite (Hl eq_refl). by eexists.
Qed.
End Recovery.

(** ** The small chain, stopped and reopened *)

Module RecoveryExample.
Import StoreExample.

Lemma store_synced : synced store chain.
Proof.
  destruct (commit_all_synced limit locations_marshal [] chain openNewStore chain_is_ok new_store_synced)
    as (s & Hs & Hsy). unfold store. by rewrite Hs.
Qed.

Definition next_store : Store := (Commit limit None (Some (block 4)) store).1.

Lemma block4_storable : storable (block 4).
Proof. apply storableb_ok. vm_compute. reflexivity. Qed.

Lemma store_length : lastCommittedBlockNum store = 3.
Proof. apply (sy_ok _ _ store_synced). Qed.

Lemma next_committed : Commit limit None (Some (block 4)) store = (next_store, Ok tt).
Proof.
  destruct (Commit_synced limit locations_marshal store chain (block 4) store_synced block4_storable eq_refl eq_refl)
    as (? & ? & ? & ? & ? & ? & _ & _ & _ & _ & _ & _ & Hc & _).
  unfold next_store. by rewrite Hc.
Qed.

Lemma recovery_completes_commit_witness :
  ∃ io, openExistingStore (fileChunks next_store) (blockIndexDB store) (blockHeaderDB next_store)
      (txValidationInfoDB store) = (set_io next_store io, Ok tt) ∧
    (blockIndexDB store = blockIndexDB next_store → io = ioOffset next_store) ∧
    Get 4 (set_io next_store io) = (next_store, Ok (block 4)).
Proof.
  exact (recovery_completes_commit limit locations_marshal store chain (block 4) next_store _ _ _
    store_synced block4_storable eq_refl eq_refl next_committed (or_introl eq_refl) (or_intror eq_refl) (or_introl eq_refl)).
Defined.

(** The first three bytes of the fourth block. *)
Definition part : bytes := match block_content (block 4) with Ok c => take 3 c | _ => [] end.

Lemma part_partial : partial_content part.
Proof.
  destruct (so_content _ block4_storable) as [c Hc]. pose proof (content_ok_content _ _ Hc) as Hcc.
  exists (block 4), c, (drop 3 c). split_and!; [done| | |].
  - unfold part. rewrite Hcc. by rewrite take_drop.
  - vm_compute. done.
  - intros E. apply (f_equal length) in E. rewrite length_drop in E.
    assert (Hl : is_ok (c ← block_content (block 4); if (3 <? Z.of_nat (length c)) then Ok tt else Err (PlainErr "short")) = true)
      by (vm_compute; reflexivity).
    rewrite Hcc in Hl. cbn [mbind res_bind] in Hl. destruct (Z.ltb_spec 3 (Z.of_nat (length c))); [cbn in E; lia|done].
Qed.

Lemma recovery_discards_partial_block_witness :
  openExistingStore (<[currentChunkNum store := file_at store (currentChunkNum store) ++ part]> (fileChunks store))
    (blockIndexDB store) (blockHeaderDB store) (txValidationInfoDB store) = (store, Ok tt).
Proof. exact (recovery_discards_partial_block store chain part store_synced ltac:(done) part_partial). Defined.

Lemma store_chunk : currentChunkNum store + 1 < 2 ^ 64.
Proof. vm_compute. reflexivity. Qed.

Lemma recovery_rewinds_last_chunk_witness :
  openExistingStore (<[currentChunkNum store + 1 := part]> (fileChunks store))
    (blockIndexDB store) (blockHeaderDB store) (txValidationInfoDB store) =
    (set_current (set_io store 0) 0 (currentChunkNum store) (lastCommittedBlockNum store), Ok tt).
Proof. exact (recovery_rewinds_last_chunk store chain part store_synced ltac:(done) part_partial store_chunk). Defined.

Lemma recovery_of_partial_first_block_panics_witness :
  ∃ w, (openExistingStore {[0 := part]} ∅ ∅ ∅).2 = Panic w.
Proof. exact (recovery_of_partial_first_block_panics openNewStore part new_store_synced part_partial). Defined.

(** A read of a block in the current chunk moves the file position that
    appends use: a commit right after it succeeds and destroys a stored block,
    which is readable before. *)
Theorem read_then_commit_overwrites :
  ∃ s1 s2, Get 1 store = (s1, Ok (block 1)) ∧ (Get 2 s1).2 = Ok (block 2) ∧
    Commit limit None (Some (block 4)) s1 = (s2, Ok tt) ∧ is_ok (Get 2 s2).2 = false.
Proof.
  exists (Get 1 store).1, (Commit limit None (Some (block 4)) (Get 1 store).1).1.
  assert (Hb : (bool_decide ((Get 1 store).2 = Ok (block 1)) && bool_decide ((Get 2 (Get 1 store).1).2 = Ok (block 2)) &&
    bool_decide ((Commit limit None (Some (block 4)) (Get 1 store).1).2 = Ok tt) &&
    negb (is_ok (Get 2 (Commit limit None (Some (block 4)) (Get 1 store).1).1).2)) = true) by (vm_compute; reflexivity).
  apply andb_true_iff in Hb as [[[H1 H2]%andb_true_iff H3]%andb_true_iff H4%negb_true_iff].
  apply bool_decide_eq_true in H1, H2, H3. split_and!; [|done| |done].
  - rewrite <- H1. apply surjective_pairing.
  - rewrite <- H3. apply surjective_pairing.
Qed.

End RecoveryExample.
