(* ===== verification/MPTrie.v ===== *)
(** * The Merkle-Patricia trie of the world state

    [internal/mptrie] (nodes, [MPTrie], proofs) and [pkg/state/proof.go].  The trie
    holds no data of its own: nodes and values are in a store, found by the hash
    of their content.  The store is the interface [TrieStore]; TrieStore.v has the
    implementation of [internal/mptrie/store]. *)

From S2P Require Import Prelude Crypto.
Open Scope Z_scope.

(** ** [pkg/state] *)

Definition KeyDeleteMarkerBytes : bytes := [1].

(** Hashing never fails, so [CalcHash] and the two key functions return their value. *)
Definition CalcHash (bs : list bytes) : bytes := ComputeSHA256Hash (mjoin bs).

Definition ConstructCompositeKey (dbName key : string) : bytes :=
  ComputeSHA256Hash
    ((if bool_decide (dbName = "") then [] else ComputeSHA256Hash (bytes_of_string dbName)) ++
     (if bool_decide (key = "") then [] else ComputeSHA256Hash (bytes_of_string key))).

(** The message that a value pointer is the hash of. *)
Definition keyValueMessage (key value : bytes) : bytes :=
  key ++ (if bool_decide (value = []) then [] else ComputeSHA256Hash value).

Definition CalculateKeyValueHash (key value : bytes) : bytes :=
  ComputeSHA256Hash (keyValueMessage key value).

Definition bytes_eqb (a b : bytes) : bool := bool_decide (a = b).

(** The loop of [Verify] over the path, from the node of the value to the root. *)
Fixpoint verifyPath (path : list (list bytes)) (hashToFind : bytes) : option bytes :=
  match path with
  | [] => Some hashToFind
  | hashes :: path => if existsb (bytes_eqb hashToFind) hashes then verifyPath path (CalcHash hashes) else None
  end.

Definition Verify (path : list (list bytes)) (valueHash rootHash : bytes) (isDeleted : bool) : res bool :=
  match path with
  | [] => Err (PlainErr "proof can't be empty")
  | first :: _ =>
    if isDeleted && negb (existsb (bytes_eqb KeyDeleteMarkerBytes) first) then Ok false else
    match verifyPath path valueHash with
    | None => Ok false
    | Some h => Ok (bytes_eqb rootHash h)
    end
  end.

(** ** Nodes *)

Record BranchNode := mkBranchNode { BN_Children : list bytes; BN_ValuePtr : bytes; BN_Deleted : bool }.
Record ExtensionNode := mkExtensionNode { EN_Key : bytes; EN_Child : bytes }.
Record ValueNode := mkValueNode { VN_Key : bytes; VN_ValuePtr : bytes; VN_Deleted : bool }.

(** A nil pointer is the empty list. *)
Inductive TrieNode :=
  | Branch (n : BranchNode)
  | Extension (n : ExtensionNode)
  | Value (n : ValueNode)
  | Empty.

#[export] Instance BranchNode_eq_dec : EqDecision BranchNode.
Proof. solve_decision. Defined.
#[export] Instance ExtensionNode_eq_dec : EqDecision ExtensionNode.
Proof. solve_decision. Defined.
#[export] Instance ValueNode_eq_dec : EqDecision ValueNode.
Proof. solve_decision. Defined.
#[export] Instance TrieNode_eq_dec : EqDecision TrieNode.
Proof. solve_decision. Defined.

Definition nonempty_bytes (b : bytes) : list bytes := if bool_decide (b = []) then [] else [b].
Definition delete_marker (deleted : bool) : list bytes := if deleted then [KeyDeleteMarkerBytes] else [].

(** The methods [bytes] of the three nodes; an empty node has none. *)
Definition node_bytes (node : TrieNode) : list bytes :=
  match node with
  | Branch n => BN_Children n ++ nonempty_bytes (BN_ValuePtr n) ++ delete_marker (BN_Deleted n)
  | Extension n => nonempty_bytes (EN_Key n) ++ nonempty_bytes (EN_Child n)
  | Value n => nonempty_bytes (VN_Key n) ++ nonempty_bytes (VN_ValuePtr n) ++ delete_marker (VN_Deleted n)
  | Empty => []
  end.

Definition hash (node : TrieNode) : res bytes :=
  match node with
  | Empty => Panic "can't Hash empty node"
  | _ => Ok (CalcHash (node_bytes node))
  end.

Definition getValuePtr (node : TrieNode) : bytes :=
  match node with
  | Branch n => BN_ValuePtr n
  | Value n => VN_ValuePtr n
  | _ => []
  end.

Definition isDeleted (node : TrieNode) : bool :=
  match node with
  | Branch n => BN_Deleted n
  | Value n => VN_Deleted n
  | _ => false
  end.

(** ** The store *)

Class TrieStore (S : Type) := {
  GetNode : S → bytes → res TrieNode;
  GetValue : S → bytes → res bytes;
  PutNode : bytes → TrieNode → prog S unit;
  PutValue : bytes → bytes → prog S unit;
  PersistNode : bytes → prog S bool;
  PersistValue : bytes → prog S bool;
  TrieHeight : S → res Z;
  CommitChanges : Z → prog S unit;
  RollbackChanges : prog S unit;
  IsDisabled : S → bool;
  SetDisabled : bool → prog S unit;
}.

(** What the trie relies on: a node that is put is found under its pointer, and
    nothing else changes; likewise for a value. *)
Class TrieStoreLaws (S : Type) `{!TrieStore S} := {
  PutNode_law : ∀ s p n, n ≠ Empty → ∃ s', PutNode p n s = (s', Ok tt) ∧ GetNode s' p = Ok n ∧
    (∀ q, q ≠ p → GetNode s' q = GetNode s q) ∧ (∀ q, GetValue s' q = GetValue s q);
  PutValue_law : ∀ s p v, ∃ s', PutValue p v s = (s', Ok tt) ∧ GetValue s' p = Ok v ∧
    (∀ q, q ≠ p → GetValue s' q = GetValue s q) ∧ (∀ q, GetNode s' q = GetNode s q);
}.

(** ** Keys *)

(** Two nibbles per byte. *)
Definition convertByteToHex (b : bytes) : bytes := b ≫= fun v => [Z.shiftr v 4; Z.land v 0x0f].

Fixpoint findCommonPrefix (hexKey1 hexKey2 : bytes) : bytes :=
  match hexKey1, hexKey2 with
  | a :: hexKey1, b :: hexKey2 => if a =? b then a :: findCommonPrefix hexKey1 hexKey2 else []
  | _, _ => []
  end.

Definition noChildren : list bytes := replicate 16 [].

(** An index into [Children]; beyond its length it panics. *)
Definition child_at (cs : list bytes) (i : Z) : res bytes :=
  match cs !! Z.to_nat i with
  | Some c => Ok c
  | None => Panic "index out of range"
  end.

Definition set_child (cs : list bytes) (i : Z) (ptr : bytes) : res (list bytes) :=
  if bool_decide (is_Some (cs !! Z.to_nat i)) then Ok (<[Z.to_nat i := ptr]> cs) else Panic "index out of range".

(** A call whose error the caller drops: the pointer is nil then. *)
Definition drop_error {S} (m : prog S (TrieNode * bytes)) : prog S bytes := fun s =>
  match m s with
  | (s', Ok (_, ptr)) => (s', Ok ptr)
  | (s', Err _) => (s', Ok [])
  | (s', Panic w) => (s', Panic w)
  end.

(** The first nibble and the others, of a key known to be non-empty. *)
Definition uncons_key (key : bytes) : res (Z * bytes) :=
  match key with
  | i :: rest => Ok (i, rest)
  | [] => Panic "index out of range"
  end.

(** ** The trie *)

Record MPTrie (S : Type) := mkMPTrie { root : option TrieNode; store : S }.
Arguments mkMPTrie {S} _ _.
Arguments root {S} _.
Arguments store {S} _.

Section Trie.
Context {St : Type} `{!TrieStore St}.

Definition saveNode (node : TrieNode) : prog St bytes :=
  nodePtr ← lift (hash node);
  PutNode nodePtr node;;
  mret nodePtr.

(** The end of the update methods: the node is saved and returned with its pointer. *)
Definition save_and_return (node : TrieNode) : prog St (TrieNode * bytes) :=
  nodePtr ← saveNode node; mret (node, nodePtr).

Definition updateEmptyNode (hexKey valuePtr : bytes) : prog St (TrieNode * bytes) :=
  save_and_return (Value (mkValueNode hexKey valuePtr false)).

(** A branch, below an extension if there is a common prefix. *)
Definition withPrefix (commonPrefix : bytes) (branch : TrieNode) : prog St TrieNode :=
  if bool_decide (commonPrefix = []) then mret branch else
  branchPtr ← saveNode branch;
  mret (Extension (mkExtensionNode commonPrefix branchPtr)).

Definition splitPathToValueNode (keyLeft newValuePtr orgValuePtr commonPrefix : bytes) : prog St TrieNode :=
  '(i, rest) ← lift (uncons_key keyLeft);
  newValueNodePtr ← saveNode (Value (mkValueNode rest orgValuePtr false));
  cs ← lift (set_child noChildren i newValueNodePtr);
  withPrefix commonPrefix (Branch (mkBranchNode cs newValuePtr false)).

Definition updateValueNode (node : ValueNode) (hexKey valuePtr : bytes) (isDeleted : bool) : prog St (TrieNode * bytes) :=
  let commonPrefix := findCommonPrefix hexKey (VN_Key node) in
  let nodeKeyLeft := drop (length commonPrefix) (VN_Key node) in
  let valueKeyLeft := drop (length commonPrefix) hexKey in
  newNode ←
    match valueKeyLeft, nodeKeyLeft with
    | [], [] => mret (Value (mkValueNode (VN_Key node) valuePtr isDeleted))
    | _, _ =>
      if isDeleted then lift (Err (PlainErr "can't delete non existing node")) else
      match valueKeyLeft, nodeKeyLeft with
      | [], _ => splitPathToValueNode nodeKeyLeft valuePtr (VN_ValuePtr node) commonPrefix
      | _, [] => splitPathToValueNode valueKeyLeft (VN_ValuePtr node) valuePtr commonPrefix
      | iv :: restv, ino :: restn =>
        newValueNodePtr1 ← saveNode (Value (mkValueNode restn (VN_ValuePtr node) false));
        newValueNodePtr2 ← saveNode (Value (mkValueNode restv valuePtr false));
        cs1 ← lift (set_child noChildren ino newValueNodePtr1);
        cs2 ← lift (set_child cs1 iv newValueNodePtr2);
        withPrefix commonPrefix (Branch (mkBranchNode cs2 [] false))
      end
    end;
  save_and_return newNode.

Section Update.
Variable update : TrieNode → bytes → bytes → bool → prog St (TrieNode * bytes).

Definition updateBranchNode (node : BranchNode) (hexKey valuePtr : bytes) (isDeleted : bool) : prog St (TrieNode * bytes) :=
  match hexKey with
  | [] => save_and_return (Branch (mkBranchNode (BN_Children node) valuePtr isDeleted))
  | i :: rest =>
    childPtr ← lift (child_at (BN_Children node) i);
    childNode ← (if bool_decide (childPtr = []) then mret Empty else fun s => (s, GetNode s childPtr));
    '(_, updateChildNodePtr) ← update childNode rest valuePtr isDeleted;
    save_and_return (Branch (mkBranchNode (<[Z.to_nat i := updateChildNodePtr]> (BN_Children node))
                               (BN_ValuePtr node) (BN_Deleted node)))
  end.

Definition updateExtensionNode (node : ExtensionNode) (hexKey valuePtr : bytes) (isDeleted : bool) : prog St (TrieNode * bytes) :=
  let commonPrefix := findCommonPrefix hexKey (EN_Key node) in
  let nodeKeyLeft := drop (length commonPrefix) (EN_Key node) in
  let valueKeyLeft := drop (length commonPrefix) hexKey in
  newNode ←
    match valueKeyLeft, nodeKeyLeft with
    | [], [] =>
      branchNode ← (fun s => (s, GetNode s (EN_Child node)));
      '(_, childPtr) ← update branchNode valueKeyLeft valuePtr isDeleted;
      mret (Extension (mkExtensionNode (EN_Key node) childPtr))
    | [], i :: rest =>
      second ← (if bool_decide (rest = []) then mret (EN_Child node)
                else saveNode (Extension (mkExtensionNode rest (EN_Child node))));
      cs ← lift (set_child noChildren i second);
      withPrefix commonPrefix (Branch (mkBranchNode cs valuePtr false))
    | _, [] =>
      childNode ← (fun s => (s, GetNode s (EN_Child node)));
      newChildPtr ← drop_error (update childNode valueKeyLeft valuePtr isDeleted);
      mret (Extension (mkExtensionNode (EN_Key node) newChildPtr))
    | iv :: restv, ino :: restn =>
      newValueNodePtr ← saveNode (Value (mkValueNode restv valuePtr false));
      cs1 ← lift (set_child noChildren iv newValueNodePtr);
      secondChildPtr ← (if bool_decide (restn = []) then mret (EN_Child node)
                        else saveNode (Extension (mkExtensionNode restn (EN_Child node))));
      cs2 ← lift (set_child cs1 ino secondChildPtr);
      withPrefix commonPrefix (Branch (mkBranchNode cs2 [] false))
    end;
  save_and_return newNode.
End Update.

(** The recursion descends by at least one nibble every two calls. *)
Fixpoint update (fuel : nat) (node : TrieNode) (hexKey valuePtr : bytes) (isDeleted : bool) : prog St (TrieNode * bytes) :=
  match fuel with
  | O => lift (Panic "out of fuel")
  | S fuel =>
    match node with
    | Branch n => updateBranchNode (update fuel) n hexKey valuePtr isDeleted
    | Extension n => updateExtensionNode (update fuel) n hexKey valuePtr isDeleted
    | Value n => updateValueNode n hexKey valuePtr isDeleted
    | Empty => updateEmptyNode hexKey valuePtr
    end
  end.

Definition key_fuel (hexKey : bytes) : nat := 2 * length hexKey + 2.

(** The loop of [getPath]; [path] are the nodes seen so far. *)
Fixpoint getPath_loop (fuel : nat) (s : St) (path : list TrieNode) (node : TrieNode) (hexKey : bytes) :
    res (list TrieNode * option TrieNode) :=
  match fuel with
  | O => Panic "out of fuel"
  | S fuel =>
    let path := path ++ [node] in
    match hexKey with
    | [] =>
      match node with
      | Extension _ => Err (PlainErr "impossible state - path can't end at extension node, it means extension node with nil key")
      | Empty => Panic "interface conversion"
      | _ => Ok (path, Some node)
      end
    | i :: rest =>
      match node with
      | Branch n =>
        childPtr ← child_at (BN_Children n) i;
        if bool_decide (childPtr = []) then Ok (path, None) else
        child ← GetNode s childPtr; getPath_loop fuel s path child rest
      | Extension n =>
        if bool_decide (length hexKey < length (EN_Key n))%nat then Ok (path, None) else
        let commonKey := findCommonPrefix hexKey (EN_Key n) in
        if bool_decide (length commonKey < length (EN_Key n))%nat then Ok (path, None) else
        if bool_decide (EN_Child n = []) then
          Err (PlainErr "impossible state - extension node can't exist without following branch node")
        else
        child ← GetNode s (EN_Child n); getPath_loop fuel s path child (drop (length commonKey) hexKey)
      | Value n => if bytes_eqb hexKey (VN_Key n) then Ok (path, Some node) else Ok (path, None)
      | Empty => Err (PlainErr "Unknown trie node type")
      end
    end
  end.

Definition getPath (t : MPTrie St) (hexKey : bytes) : res (list TrieNode * option TrieNode) :=
  node ← deref (root t);
  getPath_loop (key_fuel hexKey) (store t) [] node hexKey.

Definition getNode (t : MPTrie St) (hexKey : bytes) : res (option TrieNode) :=
  '(_, node) ← getPath t hexKey; Ok node.

(** *** Operations *)

Definition NewTrie (rootHash : bytes) : prog St TrieNode :=
  if bool_decide (rootHash = []) then
    let node := Branch (mkBranchNode noChildren [] false) in
    saveNode node;; mret node
  else fun s => (s, GetNode s rootHash).

Definition Hash (t : MPTrie St) : res bytes := node ← deref (root t); hash node.

Definition Get (t : MPTrie St) (key : bytes) : res (option bytes) :=
  node ← getNode t (convertByteToHex key);
  match node with
  | None => Ok None
  | Some node => if isDeleted node then Ok None else v ← GetValue (store t) (getValuePtr node); Ok (Some v)
  end.

(** [t.root, _, err = t.updateBranchNode(...)]: an error leaves a nil root. *)
Definition updateRoot (hexKey valuePtr : bytes) (isDeleted : bool) : prog (MPTrie St) unit := fun t =>
  match root t with
  | Some (Branch n) =>
    match updateBranchNode (update (key_fuel hexKey)) n hexKey valuePtr isDeleted (store t) with
    | (s, Ok (node, _)) => (mkMPTrie (Some node) s, Ok tt)
    | (s, Err e) => (mkMPTrie None s, Err e)
    | (s, Panic w) => (mkMPTrie (root t) s, Panic w)
    end
  | _ => (t, Panic "interface conversion")
  end.

(** A call of the store by the trie. *)
Definition on_store {A} (m : prog St A) : prog (MPTrie St) A := fun t =>
  let '(s, r) := m (store t) in (mkMPTrie (root t) s, r).

Definition Update (key value : bytes) : prog (MPTrie St) unit :=
  if bool_decide (key = []) then lift (Err (PlainErr "can't update element with empty key")) else
  let valuePtr := CalculateKeyValueHash key value in
  updateRoot (convertByteToHex key) valuePtr false;;
  on_store (PutValue valuePtr value).

Definition Delete (key : bytes) : prog (MPTrie St) (option bytes) :=
  if bool_decide (key = []) then lift (Err (PlainErr "can't delete element with empty key")) else
  let hexKey := convertByteToHex key in
  node ← (fun t => (t, getNode t hexKey));
  match node with
  | None => mret None
  | Some node =>
    let valuePtr := getValuePtr node in
    value ← (fun t => (t, GetValue (store t) valuePtr));
    updateRoot hexKey valuePtr true;;
    mret (Some value)
  end.

(** [persistSubtrie] on the children of a branch. *)
Fixpoint persistAll (persist : bytes → prog St unit) (ptrs : list bytes) : prog St unit :=
  match ptrs with
  | [] => mret tt
  | ptr :: ptrs =>
    (if bool_decide (ptr = []) then mret tt else persist ptr);;
    persistAll persist ptrs
  end.

(** [fuel] bounds the depth of the trie. *)
Fixpoint persistSubtrie (fuel : nat) (nodePtr : bytes) : prog St unit :=
  match fuel with
  | O => lift (Panic "out of fuel")
  | S fuel =>
    wasChanged ← PersistNode nodePtr;
    if negb wasChanged then mret tt else
    node ← (fun s => (s, GetNode s nodePtr));
    match node with
    | Branch n =>
      persistAll (persistSubtrie fuel) (BN_Children n);;
      (if bool_decide (BN_ValuePtr n = []) then mret tt else PersistValue (BN_ValuePtr n);; mret tt)
    | Extension n => persistSubtrie fuel (EN_Child n)
    | Value n => PersistValue (VN_ValuePtr n);; mret tt
    | Empty => lift (Err (PlainErr "unrecognized node type in trie"))
    end
  end.

Definition Commit (depth : nat) (blockNum : Z) : prog (MPTrie St) unit :=
  rootHash ← (fun t => (t, Hash t));
  on_store (persistSubtrie depth rootHash);;
  on_store (CommitChanges blockNum).

Definition GetProof (t : MPTrie St) (key : bytes) (deleted : bool) : res (option (list (list bytes))) :=
  '(path, node) ← getPath t (convertByteToHex key);
  match node with
  | None => Ok None
  | Some node =>
    if negb (Bool.eqb (isDeleted node) deleted) then Ok None else Ok (Some (node_bytes <$> reverse path))
  end.

End Trie.
