(* ===== verification/TrieTree.v ===== *)
(** * The trie as a tree

    The nodes of a Merkle-Patricia trie as a value of an inductive type, with
    lookup and update as plain functions.  Keys are lists of nibbles of one
    length, as the composite keys of the world state are.  A well-formed tree is
    canonical: it is determined by what it maps its keys to. *)

From S2P Require Import Prelude Crypto MPTrie.
Open Scope Z_scope.

(** A leaf, or a branch below a prefix: an extension node if that is not empty. *)
Inductive tree :=
  | TLeaf (key valuePtr : bytes) (deleted : bool)
  | TNode (prefix : bytes) (children : list (option tree)).

(** ** Lookup and update *)

Fixpoint strip (p key : bytes) : option bytes :=
  match p, key with
  | [], _ => Some key
  | a :: p, b :: key => if a =? b then strip p key else None
  | _ :: _, [] => None
  end.

Fixpoint tget (t : tree) (key : bytes) : option (bytes * bool) :=
  match t with
  | TLeaf k vp d => if bool_decide (key = k) then Some (vp, d) else None
  | TNode p cs =>
    match strip p key with
    | Some (i :: rest) =>
      match ((fun o rest => match o with Some c => tget c rest | None => None end) <$> cs) !! Z.to_nat i with
      | Some get => get rest
      | None => None
      end
    | _ => None
    end
  end.

Definition no_trees : list (option tree) := replicate 16 None.

(** The update of a key; a leaf that is split off is written without its mark. *)
Fixpoint tput (t : tree) (key vp : bytes) (d : bool) : tree :=
  match t with
  | TLeaf k vp' _ =>
    let cp := findCommonPrefix key k in
    match drop (length cp) key, drop (length cp) k with
    | iv :: restv, ino :: restn =>
      TNode cp (<[Z.to_nat iv := Some (TLeaf restv vp false)]>
                 (<[Z.to_nat ino := Some (TLeaf restn vp' false)]> no_trees))
    | _, _ => TLeaf k vp d
    end
  | TNode p cs =>
    let cp := findCommonPrefix key p in
    match drop (length cp) key, drop (length cp) p with
    | i :: rest, [] =>
      match ((fun o => match o with Some c => tput c rest vp d | None => TLeaf rest vp false end) <$> cs) !! Z.to_nat i with
      | Some c => TNode p (<[Z.to_nat i := Some c]> cs)
      | None => t
      end
    | iv :: restv, ino :: restn =>
      TNode cp (<[Z.to_nat ino := Some (TNode restn cs)]>
                 (<[Z.to_nat iv := Some (TLeaf restv vp false)]> no_trees))
    | _, _ => t
    end
  end.

(** ** Well-formed trees *)

Definition nibbles (key : bytes) : Prop := Forall (fun i => 0 ≤ i < 16) key.

Definition two_children (cs : list (option tree)) : Prop :=
  ∃ i j c d, i ≠ j ∧ cs !! i = Some (Some c) ∧ cs !! j = Some (Some d).

Inductive wf : nat → tree → Prop :=
  | wf_leaf k vp d : nibbles k → vp ≠ [] → wf (length k) (TLeaf k vp d)
  | wf_node n p cs : nibbles p → length cs = 16%nat → (∀ i c, cs !! i = Some (Some c) → wf n c) →
      two_children cs → wf (length p + S n) (TNode p cs).

(** The root is a branch with any number of children. *)
Definition root_wf (n : nat) (cs : list (option tree)) : Prop :=
  length cs = 16%nat ∧ ∀ i c, cs !! i = Some (Some c) → wf n c.

Lemma wf_node_inv m p cs :
  wf m (TNode p cs) → ∃ n, m = (length p + S n)%nat ∧ nibbles p ∧ length cs = 16%nat ∧
    (∀ i c, cs !! i = Some (Some c) → wf n c) ∧ two_children cs.
Proof. intros H. inversion H; subst. eauto 10. Qed.

(** *** Keys *)

Lemma strip_app p key : strip p (p ++ key) = Some key.
Proof. induction p as [|a p IH]; [by destruct key|]. cbn. by rewrite Z.eqb_refl. Qed.

Lemma strip_some p key r : strip p key = Some r ↔ key = p ++ r.
Proof.
  split; [|intros ->; apply strip_app].
  revert key. induction p as [|a p IH]; intros key H; [by destruct key; injection H as <-|].
  destruct key as [|b key]; [done|]. cbn in H. destruct (Z.eqb_spec a b) as [->|]; [|done]. cbn. by rewrite <- (IH key H).
Qed.

(** Two keys are a common prefix and rests that differ at once. *)
Lemma common_prefix k1 k2 :
  ∃ r1 r2, k1 = findCommonPrefix k1 k2 ++ r1 ∧ k2 = findCommonPrefix k1 k2 ++ r2 ∧
    drop (length (findCommonPrefix k1 k2)) k1 = r1 ∧ drop (length (findCommonPrefix k1 k2)) k2 = r2 ∧
    (∀ a b r1' r2', r1 = a :: r1' → r2 = b :: r2' → a ≠ b).
Proof.
  revert k2. induction k1 as [|a k1 IH]; intros [|b k2]; cbn; try (eexists _, _; split_and!; [done..|naive_solver]).
  destruct (Z.eqb_spec a b) as [->|Hne].
  - destruct (IH k2) as (r1 & r2 & H1 & H2 & H3 & H4 & H5). exists r1, r2. cbn. rewrite <- H1, <- H2. done.
  - exists (a :: k1), (b :: k2). split_and!; try done. naive_solver.
Qed.

Lemma nibbles_app p r : nibbles (p ++ r) ↔ nibbles p ∧ nibbles r.
Proof. unfold nibbles. by rewrite Forall_app. Qed.

Lemma nibbles_cons i r : nibbles (i :: r) ↔ 0 ≤ i < 16 ∧ nibbles r.
Proof. unfold nibbles. by rewrite Forall_cons. Qed.

Lemma nibble_inj i j : 0 ≤ i < 16 → 0 ≤ j < 16 → Z.to_nat i = Z.to_nat j → i = j.
Proof. lia. Qed.

Lemma nibble_index i (cs : list (option tree)) : length cs = 16%nat → 0 ≤ i < 16 → ∃ o, cs !! Z.to_nat i = Some o.
Proof. intros Hl Hi. apply lookup_lt_is_Some. lia. Qed.

(** *** Lookup *)

Lemma tget_node p cs key :
  tget (TNode p cs) key =
    match strip p key with
    | Some (i :: rest) => match cs !! Z.to_nat i with Some (Some c) => tget c rest | _ => None end
    | _ => None
    end.
Proof.
  cbn. destruct (strip p key) as [[|i rest]|]; try done. rewrite list_lookup_fmap.
  by destruct (cs !! Z.to_nat i) as [[c|]|].
Qed.

Lemma tget_node_app p cs i rest :
  tget (TNode p cs) (p ++ i :: rest) = match cs !! Z.to_nat i with Some (Some c) => tget c rest | _ => None end.
Proof. by rewrite tget_node, strip_app. Qed.

Lemma tget_some n t key v : wf n t → tget t key = Some v → length key = n.
Proof.
  intros Ht. revert key. induction Ht as [k vp d _ _|n p cs _ _ _ IH _]; intros key H.
  - cbn in H. by case_bool_decide; subst.
  - rewrite tget_node in H. destruct (strip p key) as [[|i rest]|] eqn:E; try done.
    apply strip_some in E as ->. destruct (cs !! Z.to_nat i) as [[c|]|] eqn:Ec; try done.
    rewrite length_app. cbn. by rewrite (IH _ _ Ec _ H).
Qed.

(** A well-formed tree has a key. *)
Lemma wf_key n t : wf n t → ∃ key v, nibbles key ∧ length key = n ∧ tget t key = Some v.
Proof.
  induction 1 as [k vp d Hk _|n p cs Hp Hl _ IH (i & j & c & d & _ & Hi & _)].
  - exists k, (vp, d). cbn. by rewrite bool_decide_eq_true_2.
  - destruct (IH _ _ Hi) as (key & v & Hk & Hlen & Hv).
    assert (Hi16 : (i < 16)%nat) by (rewrite <- Hl; apply lookup_lt_is_Some; eauto).
    exists (p ++ Z.of_nat i :: key), v. rewrite tget_node_app, Nat2Z.id, Hi. split_and!; [|rewrite length_app; cbn; lia|done].
    apply nibbles_app. split; [done|]. apply nibbles_cons. split; [lia|done].
Qed.

(** A branch has keys that part right after its prefix. *)
Lemma wf_two_keys n p cs :
  wf n (TNode p cs) → ∃ i j r1 r2 v1 v2, i ≠ j ∧ nibbles (p ++ i :: r1) ∧ nibbles (p ++ j :: r2) ∧
    tget (TNode p cs) (p ++ i :: r1) = Some v1 ∧ tget (TNode p cs) (p ++ j :: r2) = Some v2.
Proof.
  intros H. destruct (wf_node_inv _ _ _ H) as (n' & -> & Hp & Hl & Hc & i & j & c & d & Hne & Hi & Hj).
  destruct (wf_key _ _ (Hc _ _ Hi)) as (k1 & v1 & Hk1 & _ & Hv1). destruct (wf_key _ _ (Hc _ _ Hj)) as (k2 & v2 & Hk2 & _ & Hv2).
  assert (Hi16 : (i < 16)%nat) by (rewrite <- Hl; apply lookup_lt_is_Some; eauto).
  assert (Hj16 : (j < 16)%nat) by (rewrite <- Hl; apply lookup_lt_is_Some; eauto).
  exists (Z.of_nat i), (Z.of_nat j), k1, k2, v1, v2. rewrite !tget_node_app, !Nat2Z.id, Hi, Hj, !nibbles_app, !nibbles_cons.
  split_and!; (done || lia).
Qed.

(** ** Canonicity *)

Definition same_map (t t' : tree) : Prop := ∀ key, nibbles key → tget t key = tget t' key.

(** The prefix of a branch is a prefix of all keys, so of two that part after [p]. *)
Lemma prefix_of_two p' (p : bytes) i j r1 r2 k1 k2 :
  i ≠ j → p ++ i :: r1 = p' ++ k1 → p ++ j :: r2 = p' ++ k2 → (length p' ≤ length p)%nat.
Proof.
  intros Hij H1 H2. destruct (Nat.le_gt_cases (length p') (length p)) as [|Hgt]; [done|]. exfalso. apply Hij.
  apply (f_equal (.!! length p)) in H1, H2.
  rewrite (list_lookup_middle p r1), lookup_app_l in H1 by done. rewrite (list_lookup_middle p r2), lookup_app_l in H2 by done.
  congruence.
Qed.

Lemma node_prefix_le n p cs n' p' cs' :
  wf n (TNode p cs) → wf n' (TNode p' cs') → same_map (TNode p cs) (TNode p' cs') →
  (length p' ≤ length p)%nat ∧ ∃ k, (length p' ≤ length p → p = p' ++ k)%nat.
Proof.
  intros H H' Hs. destruct (wf_two_keys _ _ _ H) as (i & j & r1 & r2 & v1 & v2 & Hij & Hn1 & Hn2 & H1 & H2).
  rewrite (Hs _ Hn1), tget_node in H1. rewrite (Hs _ Hn2), tget_node in H2.
  destruct (strip p' (p ++ i :: r1)) as [k1|] eqn:E1; [|done]. destruct (strip p' (p ++ j :: r2)) as [k2|] eqn:E2; [|done].
  apply strip_some in E1, E2. assert (Hle := prefix_of_two _ _ _ _ _ _ _ _ Hij E1 E2). split; [done|].
  exists (drop (length p') p). intros _. apply (f_equal (take (length p'))) in E1.
  rewrite take_app_length, take_app_le in E1 by lia. rewrite <- (take_drop (length p') p) at 1. by rewrite E1.
Qed.

Lemma leaf_not_node n k vp d p cs :
  wf n (TNode p cs) → same_map (TLeaf k vp d) (TNode p cs) → False.
Proof.
  intros H Hs. destruct (wf_two_keys _ _ _ H) as (i & j & r1 & r2 & v1 & v2 & Hij & Hn1 & Hn2 & H1 & H2).
  rewrite <- (Hs _ Hn1) in H1. rewrite <- (Hs _ Hn2) in H2. cbn in H1, H2. do 2 case_bool_decide; try done.
  subst k. by simplify_list_eq.
Qed.

(** A well-formed tree is determined by its map. *)
Lemma wf_canonical n t t' : wf n t → wf n t' → same_map t t' → t = t'.
Proof.
  intros Ht. revert t'. induction Ht as [k vp d Hk _|n p cs Hp Hl Hc IH Htwo]; intros t' Ht' Hs.
  - destruct t' as [k' vp' d'|p' cs']; [|by destruct (leaf_not_node _ _ _ _ _ _ Ht' Hs)].
    specialize (Hs k Hk). cbn in Hs. rewrite bool_decide_eq_true_2 in Hs by done. case_bool_decide; [congruence|done].
  - assert (Ht : wf (length p + S n) (TNode p cs)) by (by constructor).
    destruct t' as [k' vp' d'|p' cs']; [destruct (leaf_not_node _ k' vp' d' _ _ Ht); intros k Hk; by rewrite Hs|].
    destruct (node_prefix_le _ _ _ _ _ _ Ht Ht' Hs) as [Hle [k Hk]].
    destruct (node_prefix_le _ _ _ _ _ _ Ht' Ht ltac:(intros ? ?; by rewrite Hs)) as [Hle' _].
    assert (p' = p) as ->.
    { specialize (Hk Hle). rewrite Hk in Hle'. rewrite length_app in Hle'. destruct k; [by rewrite app_nil_r in Hk|cbn in Hle'; lia]. }
    destruct (wf_node_inv _ _ _ Ht') as (n' & Hn' & _ & Hl' & Hc' & _). assert (n' = n) as -> by lia.
    f_equal. apply list_eq_same_length with 16%nat; [done..|]. intros i o o' Hi16 Ho Ho'.
    assert (Hget : ∀ key, nibbles key →
      match o with Some c => tget c key | None => None end = match o' with Some c => tget c key | None => None end).
    { intros key Hkey. specialize (Hs (p ++ Z.of_nat i :: key)). rewrite !tget_node_app, !Nat2Z.id, Ho, Ho' in Hs.
      apply Hs. apply nibbles_app. split; [done|]. apply nibbles_cons. split; [lia|done]. }
    destruct o as [c|], o' as [c'|].
    + f_equal. apply (IH i c Ho); [by apply (Hc' i)|done].
    + destruct (wf_key _ _ (Hc _ _ Ho)) as (key & v & Hk1 & _ & Hv). rewrite (Hget key Hk1) in Hv. done.
    + destruct (wf_key _ _ (Hc' _ _ Ho')) as (key & v & Hk1 & _ & Hv). rewrite <- (Hget key Hk1) in Hv. done.
    + done.
Qed.

(** ** Updates *)

(** How a key and a key that is not longer are related. *)
Lemma split_keys key k :
  (length k ≤ length key)%nat →
  (∃ r, key = k ++ r ∧ findCommonPrefix key k = k ∧ drop (length k) key = r ∧ drop (length k) k = []) ∨
  (∃ cp iv restv ino restn, key = cp ++ iv :: restv ∧ k = cp ++ ino :: restn ∧ iv ≠ ino ∧
     findCommonPrefix key k = cp ∧ drop (length cp) key = iv :: restv ∧ drop (length cp) k = ino :: restn).
Proof.
  intros Hl. destruct (common_prefix key k) as (r1 & r2 & H1 & H2 & D1 & D2 & Hne).
  set (cp := findCommonPrefix key k) in *. destruct r2 as [|ino restn].
  - left. exists r1. assert (k = cp) as Hk by (by rewrite app_nil_r in H2).
    rewrite <- Hk in H1, D1, D2. split_and!; done.
  - right. destruct r1 as [|iv restv].
    { rewrite H1, H2, !length_app in Hl. cbn in Hl. lia. }
    exists cp, iv, restv, ino, restn. split_and!; try done. by apply (Hne iv ino restv restn).
Qed.

Lemma common_split cp iv ino restv restn :
  iv ≠ ino → findCommonPrefix (cp ++ iv :: restv) (cp ++ ino :: restn) = cp.
Proof.
  intros Hne. induction cp as [|a cp IH]; cbn; [by rewrite (proj2 (Z.eqb_neq _ _))|]. by rewrite Z.eqb_refl, IH.
Qed.

Lemma common_whole p r : findCommonPrefix (p ++ r) p = p.
Proof. induction p as [|a p IH]; cbn; [by destruct r|]. by rewrite Z.eqb_refl, IH. Qed.

Lemma common_self p : findCommonPrefix p p = p.
Proof. rewrite <- (app_nil_r p) at 1. apply common_whole. Qed.

Definition put_child (o : option tree) (rest vp : bytes) (d : bool) : tree :=
  match o with Some c => tput c rest vp d | None => TLeaf rest vp false end.

Definition split_leaf (cp : bytes) (iv ino : Z) (restv vp restn vp' : bytes) : tree :=
  TNode cp (<[Z.to_nat iv := Some (TLeaf restv vp false)]> (<[Z.to_nat ino := Some (TLeaf restn vp' false)]> no_trees)).

Definition split_node (cp : bytes) (iv ino : Z) (restv vp restn : bytes) (cs : list (option tree)) : tree :=
  TNode cp (<[Z.to_nat ino := Some (TNode restn cs)]> (<[Z.to_nat iv := Some (TLeaf restv vp false)]> no_trees)).

Lemma tput_leaf_same k vp' d' vp d : tput (TLeaf k vp' d') k vp d = TLeaf k vp d.
Proof. cbn. by rewrite common_self, drop_all. Qed.

Lemma tput_leaf_split cp iv ino restv restn vp' d' vp d :
  iv ≠ ino → tput (TLeaf (cp ++ ino :: restn) vp' d') (cp ++ iv :: restv) vp d = split_leaf cp iv ino restv vp restn vp'.
Proof.
  intros Hne. cbn. by rewrite common_split, !drop_app_length.
Qed.

Lemma tput_node_in p cs i rest vp d o :
  cs !! Z.to_nat i = Some o →
  tput (TNode p cs) (p ++ i :: rest) vp d = TNode p (<[Z.to_nat i := Some (put_child o rest vp d)]> cs).
Proof.
  intros Ho. cbn. rewrite common_whole, drop_app_length, drop_all, list_lookup_fmap, Ho. done.
Qed.

Lemma tput_node_split cp iv ino restv restn cs vp d :
  iv ≠ ino → tput (TNode (cp ++ ino :: restn) cs) (cp ++ iv :: restv) vp d = split_node cp iv ino restv vp restn cs.
Proof.
  intros Hne. cbn. by rewrite common_split, !drop_app_length.
Qed.

(** The three ways an update goes: at the node, at a child, or splitting it. *)
Inductive put_case (vp : bytes) (d : bool) : tree → bytes → tree → Prop :=
  | put_same k vp' d' : put_case vp d (TLeaf k vp' d') k (TLeaf k vp d)
  | put_split_leaf cp iv ino restv restn vp' d' : iv ≠ ino → length restv = length restn →
      put_case vp d (TLeaf (cp ++ ino :: restn) vp' d') (cp ++ iv :: restv) (split_leaf cp iv ino restv vp restn vp')
  | put_in p cs i rest o : cs !! Z.to_nat i = Some o →
      put_case vp d (TNode p cs) (p ++ i :: rest) (TNode p (<[Z.to_nat i := Some (put_child o rest vp d)]> cs))
  | put_split_node cp iv ino restv restn cs n : iv ≠ ino → (length restv = length restn + S n)%nat →
      (∀ i c, cs !! i = Some (Some c) → wf n c) →
      put_case vp d (TNode (cp ++ ino :: restn) cs) (cp ++ iv :: restv) (split_node cp iv ino restv vp restn cs).

Lemma tput_cases n t key vp d :
  wf n t → nibbles key → length key = n → put_case vp d t key (tput t key vp d).
Proof.
  intros Ht Hk Hn. destruct t as [k vp' d'|p cs].
  - inversion Ht as [k0 vp0 d0 Hk' _|]; subst. destruct (split_keys key k ltac:(lia)) as
      [(r & -> & _)|(cp & iv & rv & ino & rn & -> & -> & Hne & _)].
    + rewrite length_app in Hn. destruct r; [|cbn in Hn; lia]. rewrite app_nil_r, tput_leaf_same. constructor.
    + rewrite tput_leaf_split by done. constructor; [done|]. rewrite !length_app in Hn. cbn in Hn. lia.
  - destruct (wf_node_inv _ _ _ Ht) as (n' & Hn' & Hp & Hl & Hc & _).
    destruct (split_keys key p ltac:(lia)) as [(r & -> & _)|(cp & iv & rv & ino & rn & -> & -> & Hne & _)].
    + rewrite length_app in Hn. destruct r as [|i rest]; [cbn in Hn; lia|].
      apply nibbles_app in Hk as [_ [Hi _]%nibbles_cons]. destruct (nibble_index i cs Hl Hi) as [o Ho].
      rewrite (tput_node_in _ _ _ _ _ _ o) by done. by constructor.
    + rewrite tput_node_split by done. apply (put_split_node _ _ _ _ _ _ _ _ n'); [done| |done].
      rewrite !length_app in *. cbn in *. lia.
Qed.

(** Case analysis on an update of a well-formed tree, for a goal about its result. *)
Ltac put_cases Ht Hkey Hlen vp d :=
  let Hcase := fresh "Hcase" in
  pose proof (tput_cases _ _ _ vp d Ht Hkey Hlen) as Hcase;
  match type of Hcase with
  | put_case _ _ ?t ?key ?r => generalize dependent r; let t' := fresh "t'" in intros t' Hcase
  end;
  inversion Hcase as [k0 vp0 d0|cp iv ino restv restn vp0 d0 Hne Hlr|p0 cs0 i rest o Ho|cp iv ino restv restn cs0 n0 Hne Hlr Hw];
  subst; clear Hcase.

Lemma length_no_trees : length no_trees = 16%nat.
Proof. done. Qed.

(** The two children of a split. *)
Lemma two_inserted a b (x y : tree) i c :
  (a < 16)%nat → (b < 16)%nat → a ≠ b →
  (<[a := Some x]> (<[b := Some y]> no_trees)) !! i = Some (Some c) ↔ (i = a ∧ c = x) ∨ (i = b ∧ c = y).
Proof.
  intros Ha Hb Hab. destruct (decide (i = a)) as [->|Hia]; [|destruct (decide (i = b)) as [->|Hib]].
  - rewrite list_lookup_insert_eq by (by rewrite length_insert). naive_solver.
  - rewrite list_lookup_insert_ne, list_lookup_insert_eq by done. naive_solver.
  - rewrite !list_lookup_insert_ne by done. unfold no_trees. rewrite lookup_replicate. naive_solver.
Qed.

Lemma split_wf n cp a b x y :
  nibbles cp → (a < 16)%nat → (b < 16)%nat → a ≠ b → wf n x → wf n y →
  wf (length cp + S n) (TNode cp (<[a := Some x]> (<[b := Some y]> no_trees))).
Proof.
  intros Hcp Ha Hb Hab Hx Hy. constructor; [done|by rewrite !length_insert| |].
  - intros i c [[_ ->]|[_ ->]]%two_inserted; done.
  - exists a, b, x, y. split_and!; [done|apply two_inserted; auto..].
Qed.

Lemma two_children_insert cs i c : two_children cs → two_children (<[i := Some c]> cs).
Proof.
  intros (a & b & x & y & Hab & Ha & Hb).
  assert (Hkeep : ∀ k z, cs !! k = Some (Some z) → ∃ z', (<[i := Some c]> cs) !! k = Some (Some z')).
  { intros k z Hz. destruct (decide (i = k)) as [->|].
    - exists c. apply list_lookup_insert_eq. apply lookup_lt_is_Some. eauto.
    - exists z. by rewrite list_lookup_insert_ne. }
  destruct (Hkeep _ _ Ha) as [x' Hx], (Hkeep _ _ Hb) as [y' Hy]. exists a, b, x', y'. done.
Qed.

Lemma insert_child_wf n (cs : list (option tree)) (i : nat) c :
  (∀ j c, cs !! j = Some (Some c) → wf n c) → wf n c →
  ∀ j c', (<[i := Some c]> cs) !! j = Some (Some c') → wf n c'.
Proof.
  intros Hc Hw j c' Hj. apply list_lookup_insert_Some in Hj as [(-> & [= <-] & _)|[_ Hj]]; [done|by apply (Hc j)].
Qed.

Lemma tput_wf n t key vp d : wf n t → nibbles key → length key = n → vp ≠ [] → wf n (tput t key vp d).
Proof.
  intros Ht. revert key. induction Ht as [k vp' d' Hk Hvp'|n p cs Hp Hl Hc IH Htwo]; intros key Hkey Hlen Hvp.
  - assert (Ht : wf (length k) (TLeaf k vp' d')) by (by constructor).
    put_cases Ht Hkey Hlen vp d; [by constructor|].
    apply nibbles_app in Hk as [Hcp [Hino Hrn]%nibbles_cons], Hkey as [_ [Hiv Hrv]%nibbles_cons].
    rewrite length_app. cbn [length]. apply split_wf; try lia; [done|rewrite <- Hlr; by constructor|by constructor].
  - assert (Ht : wf (length p + S n) (TNode p cs)) by (by constructor).
    put_cases Ht Hkey Hlen vp d.
    + apply nibbles_app in Hkey as [_ [Hi Hr]%nibbles_cons]. rewrite length_app in Hlen. cbn in Hlen.
      constructor; [done|by rewrite length_insert| |by apply two_children_insert].
      apply insert_child_wf; [done|]. destruct o as [c|]; cbn.
      * apply (IH _ _ Ho); [done|lia|done].
      * replace n with (length rest) by lia. by constructor.
    + rewrite !length_app in *. cbn in *. assert (n0 = n) as -> by lia.
      apply nibbles_app in Hp as [Hcp [Hino Hrn]%nibbles_cons], Hkey as [_ [Hiv Hrv]%nibbles_cons].
      replace (length cp + S (length restn) + S n)%nat with (length cp + S (length restn + S n))%nat by lia.
      apply split_wf; try lia; [done|by constructor|rewrite <- Hlr; by constructor].
Qed.

(** *** What an update does to the map *)

Lemma tget_two cp a b x y i rest :
  0 ≤ a < 16 → 0 ≤ b < 16 → a ≠ b → 0 ≤ i < 16 →
  tget (TNode cp (<[Z.to_nat a := Some x]> (<[Z.to_nat b := Some y]> no_trees))) (cp ++ i :: rest) =
    if i =? a then tget x rest else if i =? b then tget y rest else None.
Proof.
  intros Ha Hb Hab Hi. rewrite tget_node_app. destruct (Z.eqb_spec i a) as [->|Hia]; [|destruct (Z.eqb_spec i b) as [->|Hib]].
  - by rewrite list_lookup_insert_eq by (rewrite length_insert, length_no_trees; lia).
  - rewrite list_lookup_insert_ne by lia. by rewrite list_lookup_insert_eq by (rewrite length_no_trees; lia).
  - rewrite !list_lookup_insert_ne by lia. unfold no_trees. by rewrite lookup_replicate_2 by lia.
Qed.

Lemma tget_put_same n t key vp d :
  wf n t → nibbles key → length key = n → d = false ∨ is_Some (tget t key) →
  tget (tput t key vp d) key = Some (vp, d).
Proof.
  intros Ht. revert key. induction Ht as [k vp' d' Hk Hvp'|n p cs Hp Hl Hc IH Htwo]; intros key Hkey Hlen Hd.
  - assert (Ht : wf (length k) (TLeaf k vp' d')) by (by constructor). put_cases Ht Hkey Hlen vp d.
    + cbn. by rewrite bool_decide_eq_true_2.
    + apply nibbles_app in Hk as [Hcp [Hino Hrn]%nibbles_cons], Hkey as [_ [Hiv Hrv]%nibbles_cons].
      unfold split_leaf. rewrite tget_two, Z.eqb_refl by done. cbn. rewrite bool_decide_eq_true_2 by done.
      destruct Hd as [->|[v Hv]]; [done|]. cbn in Hv. case_bool_decide; [by simplify_list_eq|done].
  - assert (Ht : wf (length p + S n) (TNode p cs)) by (by constructor). put_cases Ht Hkey Hlen vp d.
    + apply nibbles_app in Hkey as [_ [Hi Hr]%nibbles_cons]. rewrite length_app in Hlen. cbn in Hlen.
      rewrite tget_node_app, list_lookup_insert_eq by lia. rewrite tget_node_app, Ho in Hd.
      destruct o as [c|]; cbn.
      * apply (IH _ _ Ho); [done|lia|done].
      * rewrite bool_decide_eq_true_2 by done. by destruct Hd as [->|[v ?]].
    + apply nibbles_app in Hp as [Hcp [Hino Hrn]%nibbles_cons], Hkey as [_ [Hiv Hrv]%nibbles_cons].
      unfold split_node. rewrite tget_two by done. rewrite (proj2 (Z.eqb_neq _ _)), Z.eqb_refl by done.
      cbn [tget]. rewrite bool_decide_eq_true_2 by done. destruct Hd as [->|[v Hv]]; [done|].
      rewrite tget_node in Hv. destruct (strip _ _) as [r|] eqn:E; [|done]. apply strip_some in E. by simplify_list_eq.
Qed.

(** The entry of another key: the same, or it has lost the mark of its deletion. *)
Definition kept (before after : option (bytes * bool)) : Prop :=
  after = before ∨ ∃ vp, before = Some (vp, true) ∧ after = Some (vp, false).

(** Keys that do not pass the prefix of a branch have no entry. *)
Lemma tget_node_cases p cs key :
  (∃ i rest, key = p ++ i :: rest) ∨ (tget (TNode p cs) key = None ∧ ∀ i rest, key ≠ p ++ i :: rest).
Proof.
  rewrite tget_node. destruct (strip p key) as [[|i rest]|] eqn:E.
  - right. split; [done|]. intros i rest ->. by rewrite strip_app in E.
  - left. apply strip_some in E. eauto.
  - right. split; [done|]. intros i rest ->. by rewrite strip_app in E.
Qed.

Lemma tget_split_leaf cp iv ino restv restn vp vp' d' key' :
  0 ≤ iv < 16 → 0 ≤ ino < 16 → iv ≠ ino → nibbles key' → key' ≠ cp ++ iv :: restv →
  kept (tget (TLeaf (cp ++ ino :: restn) vp' d') key') (tget (split_leaf cp iv ino restv vp restn vp') key').
Proof.
  intros Hiv Hino Hne Hk Hneq. unfold split_leaf.
  match goal with |- kept _ (tget (TNode _ ?cs) _) => destruct (tget_node_cases cp cs key') as [(i & rest & ->)|[-> Hno]] end.
  - apply nibbles_app in Hk as [_ [Hi _]%nibbles_cons]. rewrite tget_two by done. cbn [tget].
    destruct (Z.eqb_spec i iv) as [->|Hi1]; [|destruct (Z.eqb_spec i ino) as [->|Hi2]].
    + rewrite !bool_decide_eq_false_2; [by left|naive_solver|intros H; by simplify_list_eq].
    + destruct (decide (rest = restn)) as [->|Hr].
      * rewrite !bool_decide_eq_true_2 by done. destruct d'; [right; eauto|by left].
      * rewrite !bool_decide_eq_false_2; [by left|done|intros H; by simplify_list_eq].
    + rewrite bool_decide_eq_false_2; [by left|intros H; by simplify_list_eq].
  - cbn [tget]. rewrite bool_decide_eq_false_2; [by left|apply Hno].
Qed.

Lemma tget_split_node cp iv ino restv restn vp cs key' :
  0 ≤ iv < 16 → 0 ≤ ino < 16 → iv ≠ ino → nibbles key' → key' ≠ cp ++ iv :: restv →
  tget (split_node cp iv ino restv vp restn cs) key' = tget (TNode (cp ++ ino :: restn) cs) key'.
Proof.
  intros Hiv Hino Hne Hk Hneq. unfold split_node. symmetry.
  destruct (tget_node_cases (cp ++ ino :: restn) cs key') as [(i & rest & ->)|[-> Hno]].
  - rewrite tget_node_app, <- app_assoc. cbn [app]. by rewrite tget_two, Z.eqb_refl, tget_node_app.
  - match goal with |- _ = tget (TNode _ ?cs') _ => destruct (tget_node_cases cp cs' key') as [(i & rest & ->)|[-> _]]; [|done] end.
    apply nibbles_app in Hk as [_ [Hi _]%nibbles_cons]. rewrite tget_two by done.
    destruct (Z.eqb_spec i ino) as [->|Hi1]; [|destruct (Z.eqb_spec i iv) as [->|Hi2]; [|done]].
    + destruct (tget_node_cases restn cs rest) as [(j & r & ->)|[-> _]]; [|done].
      destruct (Hno j r). by rewrite <- app_assoc.
    + cbn [tget]. rewrite bool_decide_eq_false_2; [done|naive_solver].
Qed.

Lemma tget_put_other n t key vp d key' :
  wf n t → nibbles key → length key = n → nibbles key' → key' ≠ key →
  kept (tget t key') (tget (tput t key vp d) key').
Proof.
  intros Ht. revert key key'. induction Ht as [k vp' d' Hk Hvp'|n p cs Hp Hl Hc IH Htwo]; intros key key' Hkey Hlen Hkey' Hneq.
  - assert (Ht : wf (length k) (TLeaf k vp' d')) by (by constructor). put_cases Ht Hkey Hlen vp d.
    + cbn. rewrite !bool_decide_eq_false_2 by done. by left.
    + apply nibbles_app in Hk as [Hcp [Hino Hrn]%nibbles_cons], Hkey as [_ [Hiv Hrv]%nibbles_cons].
      by apply tget_split_leaf.
  - assert (Ht : wf (length p + S n) (TNode p cs)) by (by constructor). put_cases Ht Hkey Hlen vp d.
    + apply nibbles_app in Hkey as [_ [Hi Hr]%nibbles_cons]. rewrite length_app in Hlen. cbn in Hlen.
      destruct (tget_node_cases p cs key') as [(j & r & ->)|[Hnone Hno]].
      * apply nibbles_app in Hkey' as [_ [Hj Hr']%nibbles_cons]. rewrite !tget_node_app.
        destruct (decide (j = i)) as [->|Hji].
        -- rewrite list_lookup_insert_eq, Ho by lia. destruct o as [c|]; cbn.
           ++ apply (IH _ _ Ho); [done|lia|done|naive_solver].
           ++ rewrite bool_decide_eq_false_2 by naive_solver. by left.
        -- rewrite list_lookup_insert_ne by lia. by left.
      * rewrite Hnone. match goal with |- kept _ (tget (TNode _ ?cs') _) => destruct (tget_node_cases p cs' key') as [(j & r & ->)|[-> _]] end.
        -- by destruct (Hno j r).
        -- by left.
    + apply nibbles_app in Hp as [Hcp [Hino Hrn]%nibbles_cons], Hkey as [_ [Hiv Hrv]%nibbles_cons].
      left. by apply tget_split_node.
Qed.

(** An update of a key that is there changes nothing else. *)
Lemma tget_put_existing n t key vp d key' :
  wf n t → nibbles key → length key = n → is_Some (tget t key) → nibbles key' → key' ≠ key →
  tget (tput t key vp d) key' = tget t key'.
Proof.
  intros Ht. revert key key'. induction Ht as [k vp' d' Hk Hvp'|n p cs Hp Hl Hc IH Htwo]; intros key key' Hkey Hlen Hin Hkey' Hneq.
  - assert (Ht : wf (length k) (TLeaf k vp' d')) by (by constructor). put_cases Ht Hkey Hlen vp d.
    + cbn. by rewrite !bool_decide_eq_false_2.
    + destruct Hin as [v Hv]. cbn in Hv. case_bool_decide; [by simplify_list_eq|done].
  - assert (Ht : wf (length p + S n) (TNode p cs)) by (by constructor). put_cases Ht Hkey Hlen vp d.
    + apply nibbles_app in Hkey as [_ [Hi Hr]%nibbles_cons]. rewrite length_app in Hlen. cbn in Hlen.
      rewrite tget_node_app, Ho in Hin. destruct o as [c|]; [|by destruct Hin].
      destruct (tget_node_cases p cs key') as [(j & r & ->)|[Hnone Hno]].
      * apply nibbles_app in Hkey' as [_ [Hj Hr']%nibbles_cons]. rewrite !tget_node_app.
        destruct (decide (j = i)) as [->|Hji]; [|by rewrite list_lookup_insert_ne by lia].
        rewrite list_lookup_insert_eq, Ho by lia. apply (IH _ _ Ho); [done|lia|done|done|naive_solver].
      * rewrite Hnone. match goal with |- tget (TNode _ ?cs') _ = _ => destruct (tget_node_cases p cs' key') as [(j & r & ->)|[-> _]]; [|done] end.
        by destruct (Hno j r).
    + destruct Hin as [v Hv]. destruct (tget_node_cases (cp ++ ino :: restn) cs (cp ++ iv :: restv)) as [(j & r & E)|[E _]];
        [|congruence]. rewrite <- app_assoc in E. by simplify_list_eq.
Qed.

(** ** The root *)

Definition rget (cs : list (option tree)) (key : bytes) : option (bytes * bool) := tget (TNode [] cs) key.

Definition rput (cs : list (option tree)) (key vp : bytes) (d : bool) : list (option tree) :=
  match key with
  | [] => cs
  | i :: rest =>
    match cs !! Z.to_nat i with
    | Some o => <[Z.to_nat i := Some (put_child o rest vp d)]> cs
    | None => cs
    end
  end.

Lemma rget_cons cs i rest :
  rget cs (i :: rest) = match cs !! Z.to_nat i with Some (Some c) => tget c rest | _ => None end.
Proof. apply (tget_node_app []). Qed.

Section Root.
Context (n : nat) (cs : list (option tree)) (key vp : bytes) (d : bool).
Hypothesis (Hwf : root_wf n cs) (Hkey : nibbles key) (Hlen : length key = S n).

Lemma rput_shape :
  ∃ i rest o, key = i :: rest ∧ 0 ≤ i < 16 ∧ nibbles rest ∧ length rest = n ∧ cs !! Z.to_nat i = Some o ∧
    rput cs key vp d = <[Z.to_nat i := Some (put_child o rest vp d)]> cs.
Proof using Hwf Hkey Hlen.
  destruct Hwf as [Hl Hc]. destruct key as [|i rest]; [done|]. apply nibbles_cons in Hkey as [Hi Hr].
  destruct (nibble_index i cs Hl Hi) as [o Ho]. exists i, rest, o. cbn in *. rewrite Ho. split_and!; try done; lia.
Qed.

Lemma rput_wf : vp ≠ [] → root_wf n (rput cs key vp d).
Proof using Hwf Hkey Hlen.
  intros Hvp. destruct rput_shape as (i & rest & o & -> & Hi & Hr & Hlr & Ho & ->). destruct Hwf as [Hl Hc].
  split; [by rewrite length_insert|]. apply insert_child_wf; [done|].
  destruct o as [c|]; cbn; [apply tput_wf; naive_solver|]. rewrite <- Hlr. by constructor.
Qed.

Lemma rget_put_same : d = false ∨ is_Some (rget cs key) → rget (rput cs key vp d) key = Some (vp, d).
Proof using Hwf Hkey Hlen.
  destruct rput_shape as (i & rest & o & -> & Hi & Hr & Hlr & Ho & ->). destruct Hwf as [Hl Hc]. rewrite !rget_cons.
  rewrite Ho, list_lookup_insert_eq by lia. intros Hd. destruct o as [c|]; cbn.
  - apply (tget_put_same n); naive_solver.
  - rewrite bool_decide_eq_true_2 by done. by destruct Hd as [->|[? ?]].
Qed.

Lemma rget_put_other key' : nibbles key' → key' ≠ key → kept (rget cs key') (rget (rput cs key vp d) key').
Proof using Hwf Hkey Hlen.
  destruct rput_shape as (i & rest & o & -> & Hi & Hr & Hlr & Ho & ->). destruct Hwf as [Hl Hc].
  intros Hk' Hne. destruct key' as [|j r]; [by left|]. rewrite !rget_cons. apply nibbles_cons in Hk' as [Hj Hr'].
  destruct (decide (j = i)) as [->|]; [|rewrite list_lookup_insert_ne by lia; by left].
  rewrite Ho, list_lookup_insert_eq by lia. destruct o as [c|]; cbn.
  - apply (tget_put_other n); naive_solver.
  - rewrite bool_decide_eq_false_2 by naive_solver. by left.
Qed.

Lemma rget_put_existing key' :
  is_Some (rget cs key) → nibbles key' → key' ≠ key → rget (rput cs key vp d) key' = rget cs key'.
Proof using Hwf Hkey Hlen.
  destruct rput_shape as (i & rest & o & -> & Hi & Hr & Hlr & Ho & ->). destruct Hwf as [Hl Hc].
  intros Hin Hk' Hne. destruct key' as [|j r]; [done|]. rewrite !rget_cons in *. apply nibbles_cons in Hk' as [Hj Hr'].
  destruct (decide (j = i)) as [->|]; [|by rewrite list_lookup_insert_ne by lia].
  rewrite Ho in *. rewrite list_lookup_insert_eq by lia. destruct o as [c|]; cbn; [|by destruct Hin].
  apply (tget_put_existing n); naive_solver.
Qed.
End Root.

Lemma root_canonical n cs cs' :
  root_wf n cs → root_wf n cs' → (∀ key, nibbles key → length key = S n → rget cs key = rget cs' key) → cs = cs'.
Proof.
  intros [Hl Hc] [Hl' Hc'] Hs. apply list_eq_same_length with 16%nat; [done..|]. intros i o o' Hi16 Ho Ho'.
  assert (Hget : ∀ key, nibbles key → length key = n →
    match o with Some c => tget c key | None => None end = match o' with Some c => tget c key | None => None end).
  { intros key Hkey Hlen. specialize (Hs (Z.of_nat i :: key)). rewrite !rget_cons, !Nat2Z.id, Ho, Ho' in Hs.
    apply Hs; [|cbn; lia]. apply nibbles_cons. split; [lia|done]. }
  destruct o as [c|], o' as [c'|]; try done.
  - f_equal. apply (wf_canonical n); [by apply (Hc i)|by apply (Hc' i)|]. intros key Hkey.
    destruct (decide (length key = n)) as [|Hlen]; [by apply Hget|].
    destruct (tget c key) eqn:E; [by apply (tget_some n) in E; [|apply (Hc i)]|].
    destruct (tget c' key) eqn:E'; [by apply (tget_some n) in E'; [|apply (Hc' i)]|done].
  - destruct (wf_key _ _ (Hc _ _ Ho)) as (key & v & Hk1 & Hlen & Hv). by rewrite (Hget key Hk1 Hlen) in Hv.
  - destruct (wf_key _ _ (Hc' _ _ Ho')) as (key & v & Hk1 & Hlen & Hv). by rewrite <- (Hget key Hk1 Hlen) in Hv.
Qed.

Lemma empty_root_wf n : root_wf n no_trees.
Proof. split; [done|]. intros i c [? _]%lookup_replicate. done. Qed.

Lemma rget_empty key : rget no_trees key = None.
Proof.
  destruct key as [|i rest]; [done|]. rewrite rget_cons. destruct (no_trees !! Z.to_nat i) as [[c|]|] eqn:E; [|done..].
  by apply lookup_replicate in E as [? _].
Qed.
