(* ===== verification/TrieRefinement.v ===== *)
(** * The trie in its store implements the tree

    The nodes of a tree in the store, and the operations of MPTrie.v on them: an
    update is the update of the tree, a lookup is the lookup in the tree, and a
    proof is the path to the leaf.  Pointers are hashes, so this holds as long as
    no two different nodes that meet in the store have the same hash: that is the
    hypothesis [hash_inj], on the nodes in question only. *)

From S2P Require Import Prelude Crypto MPTrie TrieTree.
Open Scope Z_scope.

(** ** The nodes of a tree *)

Definition nhash (node : TrieNode) : bytes := CalcHash (node_bytes node).

Fixpoint tnode (t : tree) : TrieNode :=
  match t with
  | TLeaf k vp d => Value (mkValueNode k vp d)
  | TNode p cs =>
    let b := Branch (mkBranchNode ((fun o => match o with Some c => nhash (tnode c) | None => [] end) <$> cs) [] false) in
    if bool_decide (p = []) then b else Extension (mkExtensionNode p (nhash b))
  end.

Definition child_ptr (o : option tree) : bytes := match o with Some c => nhash (tnode c) | None => [] end.
Definition branch_of (cs : list (option tree)) : TrieNode := Branch (mkBranchNode (child_ptr <$> cs) [] false).

Fixpoint tnodes (t : tree) : list TrieNode :=
  match t with
  | TLeaf _ _ _ => [tnode t]
  | TNode _ cs => tnode t :: branch_of cs :: mjoin ((fun o => match o with Some c => tnodes c | None => [] end) <$> cs)
  end.

Definition rnodes (cs : list (option tree)) : list TrieNode := tnodes (TNode [] cs).

Lemma tnode_node p cs :
  tnode (TNode p cs) = if bool_decide (p = []) then branch_of cs else Extension (mkExtensionNode p (nhash (branch_of cs))).
Proof. done. Qed.

Lemma elem_of_tnodes p cs m :
  m ∈ tnodes (TNode p cs) ↔ m = tnode (TNode p cs) ∨ m = branch_of cs ∨ ∃ i c, cs !! i = Some (Some c) ∧ m ∈ tnodes c.
Proof.
  change (tnodes (TNode p cs)) with (tnode (TNode p cs) :: branch_of cs :: mjoin ((fun o => match o with Some c => tnodes c | None => [] end) <$> cs)).
  rewrite !elem_of_cons, list_elem_of_join. split; (intros [?|[?|H]]; [auto|auto|]); right; right.
  - destruct H as (l & Hm & Hl). apply list_elem_of_fmap in Hl as (o & -> & Ho). destruct o as [c|]; [|set_solver].
    apply list_elem_of_lookup in Ho as [i Hi]. eauto.
  - destruct H as (i & c & Hi & Hm). exists (tnodes c). split; [done|]. apply list_elem_of_fmap.
    exists (Some c). split; [done|]. by apply list_elem_of_lookup_2 in Hi.
Qed.

Lemma tnode_in t : tnode t ∈ tnodes t.
Proof. destruct t; cbn [tnodes]; set_solver. Qed.

Lemma nhash_not_nil node : nhash node ≠ [].
Proof. apply ComputeSHA256Hash_not_nil. Qed.

Lemma tnode_not_empty t : tnode t ≠ Empty.
Proof. destruct t as [|p cs]; [done|]. rewrite tnode_node. by case_bool_decide. Qed.

Lemma hash_nhash node : node ≠ Empty → hash node = Ok (nhash node).
Proof. by destruct node. Qed.

Section Refinement.
Context {St : Type} `{!TrieStore St} `{!TrieStoreLaws St}.

(** The nodes that may occur. *)
Context (U : TrieNode → Prop).
Hypothesis hash_inj : ∀ m m', U m → U m' → nhash m = nhash m' → m = m'.

Definition consistent (s : St) : Prop := ∀ p m, GetNode s p = Ok m → U m ∧ p = nhash m.
Definition stored (s : St) (nodes : list TrieNode) : Prop := ∀ m, m ∈ nodes → GetNode s (nhash m) = Ok m.
Definition grows (s s' : St) : Prop :=
  (∀ p m, GetNode s p = Ok m → GetNode s' p = Ok m) ∧ (∀ p, GetValue s' p = GetValue s p).

Lemma grows_refl s : grows s s.
Proof. done. Qed.

Lemma grows_trans s1 s2 s3 : grows s1 s2 → grows s2 s3 → grows s1 s3.
Proof. intros [H1 H2] [H3 H4]. split; [auto|]. intros p. by rewrite H4. Qed.

Lemma stored_grows s s' nodes : stored s nodes → grows s s' → stored s' nodes.
Proof. intros H [Hg _] m Hm. auto. Qed.

Lemma saveNode_ok s m :
  consistent s → U m → m ≠ Empty →
  ∃ s', saveNode m s = (s', Ok (nhash m)) ∧ grows s s' ∧ consistent s' ∧ GetNode s' (nhash m) = Ok m.
Proof using hash_inj TrieStoreLaws0.
  intros Hs Hm Hne. destruct (PutNode_law s (nhash m) m Hne) as (s' & Hput & Hget & Hother & Hval).
  exists s'. split_and!; [| | |done].
  - unfold saveNode. rewrite hash_nhash by done. erewrite bind_step by done. by erewrite bind_step by done.
  - split; [|done]. intros p m' Hm'. destruct (decide (p = nhash m)) as [->|]; [|by rewrite Hother].
    destruct (Hs _ _ Hm') as [Hu Heq]. by rewrite Hget, (hash_inj m m').
  - intros p m' Hm'. destruct (decide (p = nhash m)) as [->|Hp]; [|rewrite Hother in Hm' by done; by apply Hs].
    rewrite Hget in Hm'. by injection Hm' as <-.
Qed.

(** A step of a method that saves a node. *)
Lemma saved_step {A} s m (k : bytes → prog St A) :
  consistent s → U m → m ≠ Empty →
  ∃ s', (saveNode m ≫= k) s = k (nhash m) s' ∧ grows s s' ∧ consistent s' ∧ GetNode s' (nhash m) = Ok m.
Proof using hash_inj TrieStoreLaws0.
  intros Hs Hm Hne. destruct (saveNode_ok s m Hs Hm Hne) as (s' & Hsave & Hg & Hc & Hget). exists s'.
  split_and!; [|done..]. by apply bind_step.
Qed.

Lemma save_and_return_ok s m :
  consistent s → U m → m ≠ Empty →
  ∃ s', save_and_return m s = (s', Ok (m, nhash m)) ∧ grows s s' ∧ consistent s' ∧ GetNode s' (nhash m) = Ok m.
Proof using hash_inj TrieStoreLaws0.
  intros Hs Hm Hne. destruct (saved_step s m (fun ptr => mret (m, ptr)) Hs Hm Hne) as (s' & Heq & H). by exists s'.
Qed.

(** A branch with its prefix, both saved. *)
Lemma withPrefix_ok s p cs :
  consistent s → U (tnode (TNode p cs)) → U (branch_of cs) →
  ∃ s', (withPrefix p (branch_of cs) ≫= save_and_return) s = (s', Ok (tnode (TNode p cs), nhash (tnode (TNode p cs)))) ∧
    grows s s' ∧ consistent s' ∧ GetNode s' (nhash (tnode (TNode p cs))) = Ok (tnode (TNode p cs)) ∧
    GetNode s' (nhash (branch_of cs)) = Ok (branch_of cs).
Proof using hash_inj TrieStoreLaws0.
  intros Hs Ht Hb. rewrite tnode_node in *. unfold withPrefix. case_bool_decide.
  - destruct (save_and_return_ok s _ Hs Hb ltac:(done)) as (s' & Heq & Hg & Hc & Hget). exists s'.
    split_and!; done.
  - destruct (saveNode_ok s _ Hs Hb ltac:(done)) as (s1 & Heq & Hg & Hc & Hget).
    destruct (save_and_return_ok s1 _ Hc Ht ltac:(done)) as (s2 & Heq2 & Hg2 & Hc2 & Hget2).
    exists s2. split_and!; [|by eapply grows_trans|done|done|by apply Hg2].
    erewrite bind_step; [exact Heq2|]. by erewrite bind_step by done.
Qed.

(** *** Updates *)

Lemma set_child_ok (cs : list bytes) i ptr :
  length cs = 16%nat → 0 ≤ i < 16 → set_child cs i ptr = Ok (<[Z.to_nat i := ptr]> cs).
Proof. intros Hl Hi. unfold set_child. rewrite bool_decide_eq_true_2; [done|]. apply lookup_lt_is_Some. lia. Qed.

Lemma child_ptrs_two a b x y :
  child_ptr <$> <[a := Some x]> (<[b := Some y]> no_trees) =
    <[a := nhash (tnode x)]> (<[b := nhash (tnode y)]> noChildren).
Proof. by rewrite !list_fmap_insert. Qed.

(** The nodes of a tree that was built from a branch. *)
Lemma stored_node s p cs :
  GetNode s (nhash (tnode (TNode p cs))) = Ok (tnode (TNode p cs)) → GetNode s (nhash (branch_of cs)) = Ok (branch_of cs) →
  (∀ i c, cs !! i = Some (Some c) → stored s (tnodes c)) → stored s (tnodes (TNode p cs)).
Proof. intros H1 H2 H3 m [->|[->|(i & c & Hi & Hm)]]%elem_of_tnodes; [done..|by apply (H3 i c)]. Qed.

Lemma stored_child s p cs i c : stored s (tnodes (TNode p cs)) → cs !! i = Some (Some c) → stored s (tnodes c).
Proof. intros H Hi m Hm. apply H. apply elem_of_tnodes. right; right. eauto. Qed.

Lemma stored_branch s p cs : stored s (tnodes (TNode p cs)) → GetNode s (nhash (branch_of cs)) = Ok (branch_of cs).
Proof. intros H. apply H. apply elem_of_tnodes. auto. Qed.

Lemma stored_leaf s k vp d :
  GetNode s (nhash (tnode (TLeaf k vp d))) = Ok (tnode (TLeaf k vp d)) → stored s (tnodes (TLeaf k vp d)).
Proof. by intros H m ->%list_elem_of_singleton. Qed.

(** What a call of [update] gives: the node of the new tree, with all its nodes stored. *)
Definition gives (m : prog St (TrieNode * bytes)) (s : St) (t : tree) : Prop :=
  ∃ s', m s = (s', Ok (tnode t, nhash (tnode t))) ∧ grows s s' ∧ consistent s' ∧ stored s' (tnodes t).

(** A branch whose child is updated. *)
Lemma updateBranchNode_ok rec cs i rest vp d o s :
  consistent s → 0 ≤ i < 16 → cs !! Z.to_nat i = Some o →
  stored s (tnodes (TNode [] cs)) →
  (∀ m, m ∈ tnodes (TNode [] (<[Z.to_nat i := Some (put_child o rest vp d)]> cs)) → U m) →
  gives (rec (match o with Some c => tnode c | None => Empty end) rest vp d) s (put_child o rest vp d) →
  gives (updateBranchNode rec (mkBranchNode (child_ptr <$> cs) [] false) (i :: rest) vp d) s
    (TNode [] (<[Z.to_nat i := Some (put_child o rest vp d)]> cs)).
Proof using hash_inj TrieStoreLaws0.
  intros Hs Hi Ho Hst HU (s1 & Hrec & Hg1 & Hc1 & Hst1). set (c' := put_child o rest vp d) in *.
  set (cs' := <[Z.to_nat i := Some c']> cs) in *.
  assert (Hbr : tnode (TNode [] cs') = branch_of cs') by done.
  destruct (save_and_return_ok s1 (branch_of cs') Hc1) as (s2 & Hsave & Hg2 & Hc2 & Hget2); [|done|].
  { apply HU. apply elem_of_tnodes. auto. }
  exists s2. split_and!; [|by eapply grows_trans|done|].
  - unfold updateBranchNode. unfold child_at. cbn [BN_Children]. rewrite list_lookup_fmap, Ho. cbn [fmap option_fmap option_map].
    erewrite bind_step by done. destruct o as [c|]; cbn [child_ptr].
    + rewrite bool_decide_eq_false_2 by apply nhash_not_nil.
      erewrite bind_step by (by rewrite (stored_child s [] cs _ c Hst Ho _ (tnode_in c))).
      erewrite bind_step by done. cbn [BN_Children BN_ValuePtr BN_Deleted]. rewrite <- (list_fmap_insert child_ptr _ _ (Some c')). done.
    + rewrite bool_decide_eq_true_2 by done. erewrite bind_step by done. erewrite bind_step by done.
      cbn [BN_Children BN_ValuePtr BN_Deleted]. rewrite <- (list_fmap_insert child_ptr _ _ (Some c')). done.
  - apply stored_node; [by rewrite Hbr|done|]. intros j c Hj. unfold cs' in Hj.
    apply list_lookup_insert_Some in Hj as [(_ & [= <-] & _)|[_ Hj]].
    + by eapply stored_grows.
    + apply (stored_grows s); [by apply (stored_child s [] cs j)|by eapply grows_trans].
Qed.

(** A leaf that is split. *)
Lemma updateValueNode_split cp iv ino restv restn vp vp' d' s :
  consistent s → 0 ≤ iv < 16 → 0 ≤ ino < 16 → iv ≠ ino →
  (∀ m, m ∈ tnodes (split_leaf cp iv ino restv vp restn vp') → U m) →
  gives (updateValueNode (mkValueNode (cp ++ ino :: restn) vp' d') (cp ++ iv :: restv) vp false) s
    (split_leaf cp iv ino restv vp restn vp').
Proof using hash_inj TrieStoreLaws0.
  intros Hs Hiv Hino Hne HU. unfold split_leaf in *. set (cs := <[_ := _]> (<[_ := _]> no_trees)) in *.
  assert (Hin : ∀ i c, cs !! i = Some (Some c) ↔ (i = Z.to_nat iv ∧ c = TLeaf restv vp false) ∨ (i = Z.to_nat ino ∧ c = TLeaf restn vp' false))
    by (intros i c; apply two_inserted; lia).
  assert (HUc : ∀ i c, cs !! i = Some (Some c) → U (tnode c)).
  { intros i c Hc. apply HU. apply elem_of_tnodes. right; right. exists i, c. split; [done|apply tnode_in]. }
  destruct (saveNode_ok s (tnode (TLeaf restn vp' false)) Hs) as (s1 & Hs1 & Hg1 & Hc1 & Hget1);
    [eapply HUc, Hin; eauto|done|].
  destruct (saveNode_ok s1 (tnode (TLeaf restv vp false)) Hc1) as (s2 & Hs2 & Hg2 & Hc2 & Hget2);
    [eapply HUc, Hin; eauto|done|].
  destruct (withPrefix_ok s2 cp cs Hc2) as (s3 & Hs3 & Hg3 & Hc3 & Hget3 & Hget4); [apply HU; apply elem_of_tnodes; auto..|].
  exists s3. split_and!; [|by eapply grows_trans; [|eapply grows_trans]|done|].
  - unfold updateValueNode. cbn [VN_Key].
    rewrite common_split, !drop_app_length by done. rewrite <- Hs3. unfold branch_of, cs. rewrite child_ptrs_two.
    rewrite prog_bind_assoc. erewrite bind_step by exact Hs1. rewrite prog_bind_assoc. erewrite bind_step by exact Hs2.
    rewrite prog_bind_assoc, set_child_ok by done. erewrite bind_step by done.
    rewrite prog_bind_assoc, set_child_ok by (done || by rewrite length_insert). by erewrite bind_step by done.
  - apply stored_node; [done..|]. intros i c [[_ ->]|[_ ->]]%Hin; apply stored_leaf; [by apply Hg3|by apply Hg3, Hg2].
Qed.

(** An extension that is split: what is left of its key is an extension of its own,
    or nothing. *)
Lemma updateExtensionNode_split rec cp iv ino restv restn vp d cs s :
  consistent s → 0 ≤ iv < 16 → 0 ≤ ino < 16 → iv ≠ ino →
  stored s (tnodes (TNode (cp ++ ino :: restn) cs)) →
  (∀ m, m ∈ tnodes (split_node cp iv ino restv vp restn cs) → U m) →
  gives (updateExtensionNode rec (mkExtensionNode (cp ++ ino :: restn) (nhash (branch_of cs))) (cp ++ iv :: restv) vp d) s
    (split_node cp iv ino restv vp restn cs).
Proof using hash_inj TrieStoreLaws0.
  intros Hs Hiv Hino Hne Hst HU. unfold split_node in *. set (cs' := <[_ := _]> (<[_ := _]> no_trees)) in *.
  assert (Hin : ∀ i c, cs' !! i = Some (Some c) ↔ (i = Z.to_nat ino ∧ c = TNode restn cs) ∨ (i = Z.to_nat iv ∧ c = TLeaf restv vp false))
    by (intros i c; apply two_inserted; lia).
  assert (HUc : ∀ i c, cs' !! i = Some (Some c) → U (tnode c)).
  { intros i c Hc. apply HU. apply elem_of_tnodes. right; right. exists i, c. split; [done|apply tnode_in]. }
  destruct (saveNode_ok s (tnode (TLeaf restv vp false)) Hs) as (s1 & Hs1 & Hg1 & Hc1 & Hget1);
    [eapply HUc, Hin; eauto|done|].
  assert (Hsecond : ∃ s2, (if bool_decide (restn = []) then mret (nhash (branch_of cs))
      else saveNode (Extension (mkExtensionNode restn (nhash (branch_of cs))))) s1 = (s2, Ok (nhash (tnode (TNode restn cs)))) ∧
    grows s1 s2 ∧ consistent s2 ∧ GetNode s2 (nhash (tnode (TNode restn cs))) = Ok (tnode (TNode restn cs))).
  { assert (HUn : U (tnode (TNode restn cs))) by (eapply HUc, Hin; eauto). rewrite tnode_node in *. case_bool_decide.
    - exists s1. split_and!; [done|done|done|]. apply Hg1. by apply stored_branch in Hst.
    - by apply saveNode_ok. }
  destruct Hsecond as (s2 & Hs2 & Hg2 & Hc2 & Hget2).
  destruct (withPrefix_ok s2 cp cs' Hc2) as (s3 & Hs3 & Hg3 & Hc3 & Hget3 & Hget4); [apply HU; apply elem_of_tnodes; auto..|].
  exists s3. split_and!; [|by eapply grows_trans; [|eapply grows_trans]|done|].
  - unfold updateExtensionNode. cbn [EN_Key EN_Child]. rewrite common_split, !drop_app_length by done. rewrite <- Hs3.
    unfold branch_of at 3, cs'. rewrite child_ptrs_two. rewrite prog_bind_assoc. erewrite bind_step by exact Hs1.
    rewrite prog_bind_assoc, set_child_ok by done. erewrite bind_step by done.
    rewrite prog_bind_assoc. erewrite bind_step by exact Hs2.
    rewrite prog_bind_assoc, set_child_ok by (done || by rewrite length_insert). by erewrite bind_step by done.
  - apply stored_node; [done..|]. intros i c [[_ ->]|[_ ->]]%Hin; [|by apply stored_leaf, Hg3, Hg2].
    assert (Hg : grows s s3) by (by eapply grows_trans; [|eapply grows_trans]).
    apply stored_node; [by apply Hg3|by apply Hg; apply stored_branch in Hst|].
    intros j c Hj. apply (stored_grows s); [by apply (stored_child s (cp ++ ino :: restn) cs j)|done].
Qed.

(** An extension whose branch is updated. *)
Lemma updateExtensionNode_in rec p cs i rest vp d cs' s :
  consistent s → stored s (tnodes (TNode p cs)) → p ≠ [] → U (tnode (TNode p cs')) →
  gives (rec (branch_of cs) (i :: rest) vp d) s (TNode [] cs') →
  gives (updateExtensionNode rec (mkExtensionNode p (nhash (branch_of cs))) (p ++ i :: rest) vp d) s (TNode p cs').
Proof using hash_inj TrieStoreLaws0.
  intros Hs Hst Hp HU (s1 & Hrec & Hg1 & Hc1 & Hst1).
  destruct (save_and_return_ok s1 (tnode (TNode p cs')) Hc1 HU (tnode_not_empty _)) as (s2 & Hsave & Hg2 & Hc2 & Hget2).
  exists s2. split_and!; [|by eapply grows_trans|done|].
  - unfold updateExtensionNode. cbn [EN_Key EN_Child]. rewrite common_whole, drop_app_length, drop_all.
    rewrite prog_bind_assoc. erewrite bind_step by (by rewrite (stored_branch s p cs Hst)).
    rewrite prog_bind_assoc. erewrite bind_step by (unfold drop_error; by rewrite Hrec).
    erewrite bind_step by done. rewrite <- Hsave, (tnode_node p). by rewrite bool_decide_eq_false_2.
  - apply stored_node; [done|by apply Hg2; apply stored_branch in Hst1|].
    intros j c Hj. apply (stored_grows s1); [by apply (stored_child s1 [] cs' j)|done].
Qed.

Lemma nodes_child p cs i c m : cs !! i = Some (Some c) → m ∈ tnodes c → m ∈ tnodes (TNode p cs).
Proof. intros Hi Hm. apply elem_of_tnodes. right; right. eauto. Qed.

(** The update of a node is the update of its tree. *)
Lemma update_ok n t key vp d : wf n t → ∀ fuel s,
  nibbles key → length key = n → d = false ∨ is_Some (tget t key) → (2 * n + 1 ≤ fuel)%nat →
  consistent s → stored s (tnodes t) → (∀ m, m ∈ tnodes (tput t key vp d) → U m) →
  gives (update fuel (tnode t) key vp d) s (tput t key vp d).
Proof using hash_inj TrieStoreLaws0.
  intros Ht. revert key. induction Ht as [k vp' d' Hk Hvp'|n p cs Hp Hl Hc IH Htwo]; intros key fuel s Hkey Hlen Hd Hfuel Hs Hst HU;
    (destruct fuel as [|fuel]; [lia|]).
  - assert (Ht : wf (length k) (TLeaf k vp' d')) by (by constructor). revert HU. put_cases Ht Hkey Hlen vp d; intros HU.
    + destruct (save_and_return_ok s (tnode (TLeaf key vp d)) Hs) as (s' & Hsave & Hg & Hc' & Hget);
        [apply HU, tnode_in|done|]. exists s'. split_and!; [|done|done|by apply stored_leaf].
      cbn [update tnode]. unfold updateValueNode. cbn [VN_Key].
      rewrite common_self, drop_all. by erewrite bind_step by done.
    + apply nibbles_app in Hk as [Hcp [Hino Hrn]%nibbles_cons], Hkey as [_ [Hiv Hrv]%nibbles_cons].
      assert (d = false) as ->.
      { destruct Hd as [->|[v Hv]]; [done|]. cbn in Hv. case_bool_decide; [by simplify_list_eq|done]. }
      by apply updateValueNode_split.
  - assert (Ht : wf (length p + S n) (TNode p cs)) by (by constructor). revert HU. put_cases Ht Hkey Hlen vp d; intros HU.
    + apply nibbles_app in Hkey as [_ [Hi Hr]%nibbles_cons]. rewrite length_app in Hlen. cbn in Hlen.
      set (cs' := <[Z.to_nat i := Some (put_child o rest vp d)]> cs) in *.
      assert (Hnew : cs' !! Z.to_nat i = Some (Some (put_child o rest vp d))) by (apply list_lookup_insert_eq; lia).
      assert (Hbranch : ∀ fuel', (2 * n + 2 ≤ fuel')%nat → stored s (tnodes (TNode [] cs)) →
        (∀ m, m ∈ tnodes (TNode [] cs') → U m) → gives (update fuel' (branch_of cs) (i :: rest) vp d) s (TNode [] cs')).
      { intros [|fuel'] Hf Hst' HU'; [lia|]. apply updateBranchNode_ok; try done.
        rewrite tget_node_app, Ho in Hd. destruct o as [c|]; cbn [put_child] in *.
        - apply (IH _ _ Ho); try done; [lia|lia|by apply (stored_child s p cs (Z.to_nat i))|].
          intros m Hm. apply HU'. by apply (nodes_child _ _ _ _ _ Hnew).
        - destruct fuel' as [|fuel']; [lia|].
          destruct (save_and_return_ok s (tnode (TLeaf rest vp false)) Hs) as (s' & Hsave & Hg & Hc' & Hget);
            [apply HU'; apply (nodes_child _ _ _ _ _ Hnew), tnode_in|done|].
          exists s'. split_and!; try done. by apply stored_leaf. }
      rewrite tnode_node. case_bool_decide as Hpn.
      * subst p. apply (Hbranch (S fuel)); [cbn in *; lia|done|done].
      * cbn [update]. apply (updateExtensionNode_in _ p cs i rest vp d cs'); try done; [apply HU, tnode_in|].
        apply Hbranch; [destruct p; cbn in *; [done|lia]| |].
        -- apply stored_node; [by apply stored_branch in Hst..|]. intros j c Hj. by apply (stored_child s p cs j).
        -- intros m [->|[->|(j & c & Hj & Hm)]]%elem_of_tnodes; [apply HU; apply elem_of_tnodes; auto..|].
           apply HU. by apply (nodes_child _ _ _ _ _ Hj).
    + apply nibbles_app in Hp as [Hcp [Hino Hrn]%nibbles_cons], Hkey as [_ [Hiv Hrv]%nibbles_cons].
      rewrite tnode_node, bool_decide_eq_false_2 by (by destruct cp). by apply updateExtensionNode_split.
Qed.

(** The update of the root. *)
Lemma updateRoot_ok n cs key vp d s :
  root_wf n cs → nibbles key → length key = S n → d = false ∨ is_Some (rget cs key) →
  consistent s → stored s (rnodes cs) → (∀ m, m ∈ rnodes (rput cs key vp d) → U m) →
  ∃ s', updateRoot key vp d (mkMPTrie (Some (branch_of cs)) s) = (mkMPTrie (Some (branch_of (rput cs key vp d))) s', Ok tt) ∧
    grows s s' ∧ consistent s' ∧ stored s' (rnodes (rput cs key vp d)).
Proof using hash_inj TrieStoreLaws0.
  intros Hwf Hkey Hlen Hd Hs Hst HU.
  destruct (rput_shape n cs key vp d Hwf Hkey Hlen) as (i & rest & o & -> & Hi & Hr & Hlr & Ho & Heq). destruct Hwf as [Hl Hc].
  rewrite Heq in *. set (cs' := <[_ := _]> cs) in *.
  assert (Hnew : cs' !! Z.to_nat i = Some (Some (put_child o rest vp d))) by (apply list_lookup_insert_eq; lia).
  assert (Hgives : gives (updateBranchNode (update (key_fuel (i :: rest))) (mkBranchNode (child_ptr <$> cs) [] false) (i :: rest) vp d) s (TNode [] cs')).
  { apply updateBranchNode_ok; try done. rewrite rget_cons, Ho in Hd.
    unfold key_fuel. cbn [length]. replace (2 * S (length rest) + 2)%nat with (S (2 * n + 3)) by lia.
    destruct o as [c|]; cbn [put_child] in *.
    - apply (update_ok n); [by apply (Hc (Z.to_nat i))|done|lia|done|lia|done|by apply (stored_child s [] cs (Z.to_nat i))|].
      intros m Hm. apply HU. by apply (nodes_child _ _ _ _ _ Hnew).
    - destruct (save_and_return_ok s (tnode (TLeaf rest vp false)) Hs) as (s' & Hsave & Hg & Hc' & Hget);
        [apply HU; apply (nodes_child _ _ _ _ _ Hnew), tnode_in|done|].
      exists s'. split_and!; try done. by apply stored_leaf. }
  destruct Hgives as (s' & Hup & Hg & Hc' & Hst'). exists s'. split_and!; [|done..].
  unfold updateRoot, branch_of at 1. cbn [root store]. by rewrite Hup.
Qed.
End Refinement.

(** ** Lookups *)

Section Lookup.
Context {St : Type} `{!TrieStore St}.

(** A path from a node down to the last one, each pointing to the next. *)
Fixpoint path_down (path : list TrieNode) (last : TrieNode) : Prop :=
  match path with
  | [] => False
  | m :: rest =>
    match rest with
    | [] => m = last
    | m' :: _ => nhash m' ∈ node_bytes m ∧ path_down rest last
    end
  end.

(** The result of [getPath] for the entry of the key. *)
Definition found (top : TrieNode) (entry : option (bytes * bool)) (r : list TrieNode * option TrieNode) : Prop :=
  match entry with
  | Some (vp, d) => ∃ k, r.2 = Some (Value (mkValueNode k vp d)) ∧ path_down r.1 (Value (mkValueNode k vp d)) ∧ head r.1 = Some top
  | None => r.2 = None
  end.

Lemma found_cons top m entry path node :
  nhash m ∈ node_bytes top → found m entry (path, node) → found top entry (top :: path, node).
Proof.
  unfold found. cbn. destruct entry as [[vp d]|]; [|done]. intros Hin (k & Hn & Hp & Hh). exists k.
  destruct path as [|m' path]; [done|]. cbn in Hh. injection Hh as ->. done.
Qed.

Lemma branch_points cs i c : cs !! i = Some (Some c) → nhash (tnode c) ∈ node_bytes (branch_of cs).
Proof.
  intros Hi. cbn. apply elem_of_app. left. apply list_elem_of_fmap. exists (Some c). split; [done|].
  by apply list_elem_of_lookup_2 in Hi.
Qed.

Lemma extension_points p cs : p ≠ [] → nhash (branch_of cs) ∈ node_bytes (Extension (mkExtensionNode p (nhash (branch_of cs)))).
Proof.
  intros Hp. cbn [node_bytes EN_Key EN_Child]. apply elem_of_app. right. unfold nonempty_bytes.
  rewrite bool_decide_eq_false_2 by apply nhash_not_nil. set_solver.
Qed.

Lemma getPath_branch fuel s acc cs i rest o :
  cs !! Z.to_nat i = Some o → (∀ c, o = Some c → stored s (tnodes c)) →
  getPath_loop (S fuel) s acc (branch_of cs) (i :: rest) =
    match o with
    | Some c => getPath_loop fuel s (acc ++ [branch_of cs]) (tnode c) rest
    | None => Ok (acc ++ [branch_of cs], None)
    end.
Proof.
  intros Ho Hst. cbn [getPath_loop]. unfold branch_of at 1. unfold child_at. cbn [BN_Children].
  rewrite list_lookup_fmap, Ho. cbn. destruct o as [c|]; cbn [child_ptr]; [|done].
  rewrite bool_decide_eq_false_2 by apply nhash_not_nil. by rewrite (Hst c eq_refl _ (tnode_in c)).
Qed.

Lemma getPath_ok s n t : wf n t → ∀ key fuel acc,
  nibbles key → length key = n → (2 * n + 1 ≤ fuel)%nat → stored s (tnodes t) →
  ∃ path node, getPath_loop fuel s acc (tnode t) key = Ok (acc ++ path, node) ∧ found (tnode t) (tget t key) (path, node).
Proof.
  induction 1 as [k vp d Hk Hvp|n p cs Hp Hl Hc IH Htwo]; intros key fuel acc Hkey Hlen Hfuel Hst;
    (destruct fuel as [|fuel]; [lia|]).
  - exists [tnode (TLeaf k vp d)], (if bool_decide (key = k) then Some (tnode (TLeaf k vp d)) else None). cbn. split.
    + destruct key as [|i rest]; [by destruct k|]. unfold bytes_eqb. by case_bool_decide.
    + case_bool_decide; [by exists k|done].
  - assert (Hbr : ∀ i rest fuel' acc', key = p ++ i :: rest → (2 * n + 2 ≤ fuel')%nat →
      ∃ path node, getPath_loop fuel' s acc' (branch_of cs) (i :: rest) = Ok (acc' ++ path, node) ∧
        found (branch_of cs) (tget (TNode p cs) key) (path, node)).
    { intros i rest [|fuel'] acc' -> Hf; [lia|]. apply nibbles_app in Hkey as [_ [Hi Hr]%nibbles_cons].
      rewrite length_app in Hlen. cbn in Hlen. destruct (nibble_index i cs Hl Hi) as [o Ho].
      rewrite (getPath_branch _ _ _ _ _ _ o) by (try done; intros c ->; by apply (stored_child s p cs (Z.to_nat i))).
      rewrite tget_node_app, Ho. destruct o as [c|]; [|by exists [branch_of cs], None].
      destruct (IH _ _ Ho rest fuel' (acc' ++ [branch_of cs])) as (path & node & Heq & Hfound); [done|lia|lia|by apply (stored_child s p cs (Z.to_nat i))|].
      exists (branch_of cs :: path), node. rewrite Heq, <- app_assoc. split; [done|].
      apply (found_cons _ (tnode c)); [by apply (branch_points _ (Z.to_nat i))|done]. }
    rewrite tnode_node. case_bool_decide as Hpn.
    + subst p. destruct key as [|i rest]; [done|]. apply (Hbr i rest (S fuel) acc); [done|cbn in *; lia].
    + destruct key as [|a key']; [cbn in Hlen; lia|]. cbn [getPath_loop EN_Key EN_Child].
      set (key := a :: key') in *. rewrite bool_decide_eq_false_2 by lia.
      destruct (split_keys key p ltac:(lia)) as [(r & Hr & Hcp & _)|(cp & iv & rv & ino & rn & Hk1 & Hk2 & Hne & Hcp & _)].
      * rewrite Hcp, !bool_decide_eq_false_2 by (lia || apply nhash_not_nil).
        destruct r as [|i rest]; [rewrite Hr, app_nil_r in Hlen; lia|]. 
        replace (drop (length p) key) with (i :: rest) by (by rewrite Hr, drop_app_length).
        rewrite (stored_branch s p cs Hst). cbn [mbind res_bind].
        destruct (Hbr i rest fuel (acc ++ [Extension (mkExtensionNode p (nhash (branch_of cs)))])) as (path & node & Heq & Hfound);
          [done|destruct p; cbn in *; [done|lia]|].
        rewrite Heq, <- app_assoc. eexists _, node. split; [done|].
        apply (found_cons _ (branch_of cs)); [by apply extension_points|done].
      * rewrite Hcp. rewrite bool_decide_eq_true_2 by (rewrite Hk2, length_app; cbn; lia).
        eexists [_], None. split; [done|]. cbn [found].
        destruct (tget_node_cases p cs key) as [(j & r & E)|[-> _]]; [|done].
        rewrite Hk1, Hk2, <- app_assoc in E. by simplify_list_eq.
Qed.

(** The same from the root. *)
Lemma getPath_root s n cs key :
  root_wf n cs → nibbles key → length key = S n → stored s (rnodes cs) →
  ∃ path node, getPath (mkMPTrie (Some (branch_of cs)) s) key = Ok (path, node) ∧
    found (branch_of cs) (rget cs key) (path, node).
Proof.
  intros [Hl Hc] Hkey Hlen Hst. destruct key as [|i rest]; [done|]. cbn in Hlen.
  apply nibbles_cons in Hkey as [Hi Hr]. destruct (nibble_index i cs Hl Hi) as [o Ho].
  unfold getPath, key_fuel. cbn [root store deref mbind res_bind length].
  replace (2 * S (length rest) + 2)%nat with (S (2 * n + 3)) by lia.
  rewrite (getPath_branch _ _ _ _ _ _ o) by (try done; intros c ->; by apply (stored_child s [] cs (Z.to_nat i))).
  rewrite rget_cons, Ho. destruct o as [c|]; [|by exists [branch_of cs], None].
  destruct (getPath_ok s n c (Hc _ _ Ho) rest (2 * n + 3) ([] ++ [branch_of cs])) as (path & node & Heq & Hfound);
    [done|lia|lia|by apply (stored_child s [] cs (Z.to_nat i))|].
  rewrite Heq. eexists _, node. split; [done|]. apply (found_cons _ (tnode c)); [by apply (branch_points _ (Z.to_nat i))|done].
Qed.

End Lookup.
