(* ===== verification/TrieProofs.v ===== *)
(** * The state trie over sequences of operations

    What a client of the trie sees after any sequence of updates and deletions:
    lookups, the root hash and proofs. *)

From S2P Require Import Prelude Crypto MPTrie TrieTree TrieRefinement.
Open Scope Z_scope.

(** ** Keys as nibbles *)

Definition byte_list (b : bytes) : Prop := Forall (fun v => 0 ≤ v < 256) b.

Lemma convertByteToHex_cons v b : convertByteToHex (v :: b) = v / 16 :: v mod 16 :: convertByteToHex b.
Proof.
  unfold convertByteToHex. cbn. rewrite Z.shiftr_div_pow2 by lia. change 15 with (Z.ones 4). by rewrite Z.land_ones by lia.
Qed.

Lemma convertByteToHex_length b : length (convertByteToHex b) = (2 * length b)%nat.
Proof. induction b as [|v b IH]; [done|]. rewrite convertByteToHex_cons. cbn [length]. lia. Qed.

Lemma convertByteToHex_nibbles b : byte_list b → nibbles (convertByteToHex b).
Proof.
  induction 1 as [|v b Hv _ IH]; [constructor|]. rewrite convertByteToHex_cons. repeat constructor; [|..|done].
  - apply Z.div_pos; lia.
  - apply Z.div_lt_upper_bound; lia.
  - apply Z.mod_pos_bound. lia.
  - apply Z.mod_pos_bound. lia.
Qed.

Lemma convertByteToHex_inj a b : convertByteToHex a = convertByteToHex b → a = b.
Proof.
  revert b. induction a as [|v a IH]; intros [|w b]; rewrite ?convertByteToHex_cons; try done.
  intros [= H1 H2 H3]. f_equal; [|by apply IH]. rewrite (Z.div_mod v 16), (Z.div_mod w 16) by lia. by rewrite H1, H2.
Qed.

Lemma convertByteToHex_surj n key :
  nibbles key → length key = (2 * n)%nat → ∃ b, byte_list b ∧ length b = n ∧ convertByteToHex b = key.
Proof.
  revert key. induction n as [|n IH]; intros key Hk Hl.
  - destruct key; [|done]. exists []. split_and!; [constructor|done|done].
  - destruct key as [|i [|j key]]; [done|cbn in Hl; lia|]. apply nibbles_cons in Hk as [Hi [Hj Hk]%nibbles_cons].
    destruct (IH key Hk ltac:(cbn in Hl; lia)) as (b & Hb & Hlb & <-). exists (16 * i + j :: b). split_and!; [|cbn; lia|].
    + constructor; [lia|done].
    + rewrite convertByteToHex_cons. f_equal; [|f_equal].
      * rewrite Z.mul_comm, Z.div_add_l, Z.div_small by lia. lia.
      * by rewrite Z.mul_comm, Z.add_comm, Z_mod_plus_full, Z.mod_small by lia.
Qed.

(** ** Operations *)

Inductive trie_op :=
  | OpUpdate (key value : bytes)
  | OpDelete (key : bytes).

Definition op_key (op : trie_op) : bytes := match op with OpUpdate k _ | OpDelete k => k end.

(** The value a key has after the operations. *)
Definition live_step (key : bytes) (acc : option bytes) (op : trie_op) : option bytes :=
  match op with
  | OpUpdate k v => if bool_decide (k = key) then Some v else acc
  | OpDelete k => if bool_decide (k = key) then None else acc
  end.
Definition live (ops : list trie_op) (key : bytes) : option bytes := foldl (live_step key) None ops.

Definition is_update (op : trie_op) : Prop := match op with OpUpdate _ _ => True | OpDelete _ => False end.
Definition is_delete (op : trie_op) : Prop := match op with OpUpdate _ _ => False | OpDelete _ => True end.

(** The operations on the tree. *)
Definition tree_op (cs : list (option tree)) (op : trie_op) : list (option tree) :=
  match op with
  | OpUpdate k v => rput cs (convertByteToHex k) (CalculateKeyValueHash k v) false
  | OpDelete k =>
    match rget cs (convertByteToHex k) with
    | Some (vp, _) => rput cs (convertByteToHex k) vp true
    | None => cs
    end
  end.
Definition tree_run (ops : list trie_op) : list (option tree) := foldl tree_op no_trees ops.

(** All nodes that are stored on the way, and all messages that value pointers are
    hashes of. *)
Fixpoint run_nodes (cs : list (option tree)) (ops : list trie_op) : list TrieNode :=
  rnodes cs ++ match ops with [] => [] | op :: ops => run_nodes (tree_op cs op) ops end.

Definition value_messages (ops : list trie_op) : list bytes :=
  ops ≫= fun op => match op with OpUpdate k v => [keyValueMessage k v; v] | OpDelete _ => [] end.

Definition nodes_distinct (nodes : list TrieNode) : Prop :=
  ∀ m m', m ∈ nodes → m' ∈ nodes → nhash m = nhash m' → m = m'.

Section Sequences.
Context {St : Type} `{!TrieStore St} `{!TrieStoreLaws St}.

Definition apply_op (op : trie_op) : prog (MPTrie St) unit :=
  match op with
  | OpUpdate k v => Update k v
  | OpDelete k => Delete k;; mret tt
  end.

Fixpoint apply_ops (ops : list trie_op) : prog (MPTrie St) unit :=
  match ops with
  | [] => mret tt
  | op :: ops => apply_op op;; apply_ops ops
  end.

(** A new trie and the operations on it. *)
Definition build (s : St) (ops : list trie_op) : MPTrie St * res unit :=
  match NewTrie [] s with
  | (s1, Ok r) => apply_ops ops (mkMPTrie (Some r) s1)
  | (s1, Err e) => (mkMPTrie None s1, Err e)
  | (s1, Panic w) => (mkMPTrie None s1, Panic w)
  end.

Definition empty_store (s : St) : Prop := ∀ p m, GetNode s p ≠ Ok m.

(** ** One operation *)

Context (L : nat) (ops : list trie_op) (U : TrieNode → Prop).
Hypothesis hash_inj : ∀ m m', U m → U m' → nhash m = nhash m' → m = m'.
Hypothesis values_distinct : collision_free (value_messages ops).
Hypothesis L_pos : (0 < L)%nat.

Definition key_ok (key : bytes) : Prop := byte_list key ∧ length key = L.
Hypothesis keys_ok : ∀ op, op ∈ ops → key_ok (op_key op).

(** The trie holds the tree, and the values of the updates done so far. *)
Record holds (t : MPTrie St) (cs : list (option tree)) (done : list trie_op) : Prop := {
  ho_root : root t = Some (branch_of cs);
  ho_wf : root_wf (2 * L - 1) cs;
  ho_consistent : consistent U (store t);
  ho_stored : stored (store t) (rnodes cs);
  ho_entries : ∀ key vp d, key_ok key → rget cs (convertByteToHex key) = Some (vp, d) →
    ∃ v, OpUpdate key v ∈ done ∧ vp = CalculateKeyValueHash key v ∧ GetValue (store t) vp = Ok v;
}.

Lemma hex_ok key : key_ok key → nibbles (convertByteToHex key) ∧ length (convertByteToHex key) = S (2 * L - 1).
Proof using L_pos.
  intros [Hb Hl]. split; [by apply convertByteToHex_nibbles|]. rewrite convertByteToHex_length. lia.
Qed.

Lemma key_ok_not_nil key : key_ok key → key ≠ [].
Proof using L_pos. intros [_ Hl] ->. cbn in Hl. lia. Qed.

Lemma value_ptr_not_nil key v : CalculateKeyValueHash key v ≠ [].
Proof. apply ComputeSHA256Hash_not_nil. Qed.

(** Value pointers determine the key and the value. *)
Lemma value_ptr_inj key v key' v' :
  OpUpdate key v ∈ ops → OpUpdate key' v' ∈ ops →
  CalculateKeyValueHash key v = CalculateKeyValueHash key' v' → key = key' ∧ v = v'.
Proof using values_distinct keys_ok.
  intros H H' Heq.
  assert (Hm : ∀ k w, OpUpdate k w ∈ ops → keyValueMessage k w ∈ value_messages ops ∧ w ∈ value_messages ops).
  { intros k w Hin. unfold value_messages. rewrite !list_elem_of_bind. split; exists (OpUpdate k w); clear -Hin; set_solver. }
  apply values_distinct in Heq; [|by apply Hm..]. unfold keyValueMessage in Heq.
  destruct (keys_ok _ H) as [_ Hl], (keys_ok _ H') as [_ Hl']. cbn in Hl, Hl'.
  apply app_inj_1 in Heq as [-> Heq]; [|by rewrite Hl]. split; [done|].
  case_bool_decide as Hv; case_bool_decide as Hv'.
  - by rewrite Hv, Hv'.
  - symmetry in Heq. by apply ComputeSHA256Hash_not_nil in Heq.
  - by apply ComputeSHA256Hash_not_nil in Heq.
  - apply values_distinct; [by eapply Hm..|done].
Qed.

Lemma Update_ok t cs done k v :
  holds t cs done → OpUpdate k v ∈ ops → (∀ op, op ∈ done → op ∈ ops) →
  (∀ m, m ∈ rnodes (tree_op cs (OpUpdate k v)) → U m) →
  ∃ t', Update k v t = (t', Ok tt) ∧ holds t' (tree_op cs (OpUpdate k v)) (done ++ [OpUpdate k v]).
Proof using TrieStoreLaws0 hash_inj values_distinct L_pos keys_ok.
  intros [Hroot Hwf Hcon Hst Hent] Hin Hdone HU. pose proof (keys_ok _ Hin) as Hk. cbn in Hk.
  destruct (hex_ok k Hk) as [Hnib Hlen]. set (vp := CalculateKeyValueHash k v) in *.
  destruct t as [r s]. cbn in Hroot. subst r. cbn [store] in *.
  destruct (updateRoot_ok U hash_inj (2 * L - 1) cs (convertByteToHex k) vp false s) as (s1 & Hup & Hg1 & Hc1 & Hst1); try done; [by left|].
  destruct (PutValue_law s1 vp v) as (s2 & Hput & Hget & Hother & Hnode).
  eexists. split.
  - unfold Update. rewrite bool_decide_eq_false_2 by (by apply key_ok_not_nil). erewrite bind_step by done.
    unfold on_store. cbn [store root]. fold vp. by rewrite Hput.
  - split; cbn [root store]; [done|apply rput_wf; try done; apply value_ptr_not_nil| | |].
    + intros p m. rewrite Hnode. apply Hc1.
    + intros m Hm. rewrite Hnode. by apply Hst1.
    + assert (Hold : ∀ key w, OpUpdate key w ∈ done → GetValue s (CalculateKeyValueHash key w) = Ok w →
        GetValue s2 (CalculateKeyValueHash key w) = Ok w).
      { intros key w Hw Hgw. destruct (decide (CalculateKeyValueHash key w = vp)) as [E|E].
        - destruct (value_ptr_inj key w k v (Hdone _ Hw) Hin E) as [-> ->]. done.
        - rewrite Hother by done. by destruct Hg1 as [_ ->]. }
      intros key vp' d Hkey Hget'. cbn [tree_op] in Hget'. destruct (decide (key = k)) as [->|Hne].
      * rewrite (rget_put_same (2 * L - 1)) in Hget' by (try done; by left).
        injection Hget' as <- <-. exists v. split; [set_solver|done].
      * destruct (hex_ok key Hkey) as [Hnib' Hlen'].
        assert (Hbefore : ∃ d', rget cs (convertByteToHex key) = Some (vp', d')).
        { destruct (rget_put_other (2 * L - 1) cs (convertByteToHex k) vp false Hwf Hnib Hlen (convertByteToHex key) Hnib') as [Hsame|(w & Hb & Ha)];
            [intros E; by apply convertByteToHex_inj in E|fold vp in Hget'..]; [rewrite Hsame in Hget'; eauto|].
          rewrite Ha in Hget'. injection Hget' as <- <-. eauto. }
        destruct Hbefore as [d' Hb]. destruct (Hent _ _ _ Hkey Hb) as (w & Hw & -> & Hgw). exists w. split_and!; [set_solver|done|by apply Hold].
Qed.

(** The node of a key. *)
Lemma getNode_ok t cs done key :
  holds t cs done → key_ok key →
  match rget cs (convertByteToHex key) with
  | Some (vp, d) => ∃ k, getNode t (convertByteToHex key) = Ok (Some (Value (mkValueNode k vp d)))
  | None => getNode t (convertByteToHex key) = Ok None
  end.
Proof using L_pos.
  intros [Hroot Hwf Hcon Hst Hent] Hk. destruct (hex_ok key Hk) as [Hnib Hlen]. destruct t as [r s]. cbn [root store] in *. subst r.
  destruct (getPath_root s (2 * L - 1) cs (convertByteToHex key)) as (path & node & Heq & Hf); try done.
  unfold getNode. rewrite Heq. unfold found in Hf. cbn [mbind res_bind fst snd] in *. destruct (rget cs _) as [[vp d]|]; [|by rewrite Hf].
  destruct Hf as (k & -> & _). by exists k.
Qed.

Lemma Delete_ok t cs done k :
  holds t cs done → OpDelete k ∈ ops →
  (∀ m, m ∈ rnodes (tree_op cs (OpDelete k)) → U m) →
  ∃ t' r, Delete k t = (t', Ok r) ∧ holds t' (tree_op cs (OpDelete k)) (done ++ [OpDelete k]).
Proof using TrieStoreLaws0 hash_inj values_distinct L_pos keys_ok.
  intros Hh Hin HU. pose proof (keys_ok _ Hin) as Hk. cbn in Hk. pose proof (getNode_ok _ _ _ k Hh Hk) as Hnode.
  destruct (hex_ok k Hk) as [Hnib Hlen]. destruct Hh as [Hroot Hwf Hcon Hst Hent].
  destruct t as [r s]. cbn in Hroot. subst r. cbn [store] in *. unfold Delete.
  rewrite bool_decide_eq_false_2 by (by apply key_ok_not_nil). cbn [tree_op] in *.
  destruct (rget cs (convertByteToHex k)) as [[vp d]|] eqn:Hget.
  - destruct Hnode as [nk Hnode]. erewrite bind_step by (by rewrite Hnode). cbn beta iota. cbn [getValuePtr VN_ValuePtr].
    destruct (Hent _ _ _ Hk Hget) as (v & Hv & Hvp & Hgv). erewrite bind_step by (cbn [store]; by rewrite Hgv).
    destruct (updateRoot_ok U hash_inj (2 * L - 1) cs (convertByteToHex k) vp true s) as (s1 & Hup & Hg1 & Hc1 & Hst1); try done; [by right|].
    eexists _, _. split; [by erewrite bind_step by done|]. split; cbn [root store]; try done.
    + apply rput_wf; try done. rewrite Hvp. apply value_ptr_not_nil.
    + intros key vp' d' Hkey Hget'. destruct (decide (key = k)) as [->|Hne].
      * rewrite (rget_put_same (2 * L - 1)) in Hget' by (try done; by right). injection Hget' as <- <-.
        exists v. split_and!; [set_solver|done|]. by destruct Hg1 as [_ ->].
      * destruct (hex_ok key Hkey) as [Hnib' Hlen']. rewrite (rget_put_existing (2 * L - 1)) in Hget';
          [|done..|intros E; by apply convertByteToHex_inj in E].
        destruct (Hent _ _ _ Hkey Hget') as (w & Hw & -> & Hgw). exists w. split_and!; [set_solver|done|]. by destruct Hg1 as [_ ->].
  - erewrite bind_step by (by rewrite Hnode). eexists _, None. split; [done|]. split; try done.
    intros key vp d Hkey Hget'. destruct (Hent _ _ _ Hkey Hget') as (w & Hw & -> & Hgw). exists w. split_and!; [set_solver|done|done].
Qed.

Lemma apply_ops_ok post : ∀ t cs done,
  holds t cs done → (∀ op, op ∈ done ++ post → op ∈ ops) → (∀ m, m ∈ run_nodes cs post → U m) →
  ∃ t', apply_ops post t = (t', Ok tt) ∧ holds t' (foldl tree_op cs post) (done ++ post).
Proof using TrieStoreLaws0 hash_inj values_distinct L_pos keys_ok.
  induction post as [|op post IH]; intros t cs done Hh Hsub HU.
  { exists t. by rewrite app_nil_r. }
  assert (Hop : op ∈ ops) by (apply Hsub, elem_of_app; right; left).
  assert (HU' : ∀ m, m ∈ run_nodes (tree_op cs op) post → U m) by (intros m Hm; apply HU; by apply elem_of_app; right).
  assert (HU1 : ∀ m, m ∈ rnodes (tree_op cs op) → U m) by (intros m Hm; apply HU'; destruct post; by apply elem_of_app; left).
  assert (Hstep : ∃ t1, apply_op op t = (t1, Ok tt) ∧ holds t1 (tree_op cs op) (done ++ [op])).
  { destruct op as [k v|k].
    - apply Update_ok; try done. intros o Ho. apply Hsub, elem_of_app. by left.
    - destruct (Delete_ok t cs done k Hh Hop HU1) as (t1 & r & Hd & Hh1). exists t1. split; [|done].
      cbn. by erewrite bind_step by done. }
  destruct Hstep as (t1 & Ht1 & Hh1).
  destruct (IH t1 (tree_op cs op) (done ++ [op]) Hh1) as (t' & Ht' & Hh'); [by rewrite <- app_assoc|done|].
  exists t'. rewrite <- app_assoc in Hh'. split; [|done]. cbn [apply_ops]. by erewrite bind_step by done.
Qed.

Lemma NewTrie_ok s :
  empty_store s → (∀ m, m ∈ rnodes no_trees → U m) →
  ∃ s1, NewTrie [] s = (s1, Ok (branch_of no_trees)) ∧ holds (mkMPTrie (Some (branch_of no_trees)) s1) no_trees [].
Proof using TrieStoreLaws0 hash_inj.
  intros Hs HU. assert (Hcon : consistent U s) by (intros p m Hm; by apply Hs in Hm).
  destruct (saveNode_ok U hash_inj s (branch_of no_trees) Hcon) as (s1 & Hsave & Hg & Hc1 & Hget);
    [apply HU, (tnode_in (TNode [] no_trees))|done|].
  exists s1. split; [unfold NewTrie; rewrite bool_decide_eq_true_2 by done; by erewrite bind_step by exact Hsave|].
  split; cbn [root store]; try done.
  - apply empty_root_wf.
  - intros m [->|[->|(i & c & Hi & _)]]%elem_of_tnodes; [done..|]. by apply lookup_replicate in Hi as [? _].
  - intros key vp d _. by rewrite rget_empty.
Qed.
End Sequences.

(** ** What the tree maps keys to *)

Section TreeRun.
Context (L : nat) (L_pos : (0 < L)%nat).

Definition ops_ok (ops : list trie_op) : Prop := ∀ op, op ∈ ops → key_ok L (op_key op).

Lemma ops_ok_snoc ops op : ops_ok (ops ++ [op]) → ops_ok ops ∧ key_ok L (op_key op).
Proof. intros H. split; [intros o Ho|]; apply H, elem_of_app; [by left|right; left]. Qed.

(** The pointer of an entry is not nil, so that a deletion keeps the tree well formed. *)
Definition entries_set (cs : list (option tree)) : Prop :=
  ∀ key vp d, key_ok L key → rget cs (convertByteToHex key) = Some (vp, d) → vp ≠ [].

Lemma tree_op_ok cs op :
  root_wf (2 * L - 1) cs → entries_set cs → key_ok L (op_key op) → root_wf (2 * L - 1) (tree_op cs op).
Proof using L_pos.
  intros Hwf Hset Hk. destruct (hex_ok L L_pos _ Hk) as [Hn Hl]. destruct op as [k v|k]; cbn [tree_op op_key is_delete] in *.
  - apply rput_wf; [done..|]. apply value_ptr_not_nil.
  - destruct (rget cs _) as [[vp d]|] eqn:E; [|done]. apply rput_wf; try done. by eapply Hset.
Qed.

Lemma tree_op_same cs op :
  root_wf (2 * L - 1) cs → key_ok L (op_key op) →
  rget (tree_op cs op) (convertByteToHex (op_key op)) =
    match op with
    | OpUpdate k v => Some (CalculateKeyValueHash k v, false)
    | OpDelete k => match rget cs (convertByteToHex k) with Some (vp, _) => Some (vp, true) | None => None end
    end.
Proof using L_pos.
  intros Hwf Hk. destruct (hex_ok L L_pos _ Hk) as [Hn Hl]. destruct op as [k v|k]; cbn [tree_op op_key is_delete] in *.
  - apply (rget_put_same (2 * L - 1)); try done. by left.
  - destruct (rget cs _) as [[vp d]|] eqn:E; [|done]. apply (rget_put_same (2 * L - 1)); try done. right. by rewrite E.
Qed.

(** Other keys keep their entry; only an update may drop a deletion mark. *)
Lemma tree_op_other cs op key :
  root_wf (2 * L - 1) cs → key_ok L (op_key op) → key_ok L key → op_key op ≠ key →
  kept (rget cs (convertByteToHex key)) (rget (tree_op cs op) (convertByteToHex key)) ∧
  (is_delete op → rget (tree_op cs op) (convertByteToHex key) = rget cs (convertByteToHex key)).
Proof using L_pos.
  intros Hwf Hk Hkey Hne. destruct (hex_ok L L_pos _ Hk) as [Hn Hl]. destruct (hex_ok L L_pos _ Hkey) as [Hn' Hl'].
  assert (Hhex : convertByteToHex key ≠ convertByteToHex (op_key op)) by (intros E; by apply convertByteToHex_inj in E).
  destruct op as [k v|k]; cbn [tree_op op_key is_delete] in *.
  - split; [by apply (rget_put_other (2 * L - 1))|done].
  - destruct (rget cs (convertByteToHex k)) as [[vp d]|] eqn:E; [|by split; [left|]].
    assert (Hsame : rget (rput cs (convertByteToHex k) vp true) (convertByteToHex key) = rget cs (convertByteToHex key))
      by (apply (rget_put_existing (2 * L - 1)); try done; by rewrite E).
    split; [by left|done].
Qed.

Lemma tree_op_entries cs op :
  root_wf (2 * L - 1) cs → entries_set cs → key_ok L (op_key op) → entries_set (tree_op cs op).
Proof using L_pos.
  intros Hwf Hset Hk key vp d Hkey Hget. destruct (decide (op_key op = key)) as [<-|Hne].
  - rewrite tree_op_same in Hget by done. destruct op as [k v|k].
    + injection Hget as <- _. apply value_ptr_not_nil.
    + destruct (rget cs _) as [[vp' d']|] eqn:E; [|done]. injection Hget as <- _. by eapply Hset.
  - destruct (tree_op_other cs op key Hwf Hk Hkey Hne) as [[Hs|(w & Hb & Ha)] _].
    + rewrite Hs in Hget. by eapply Hset.
    + rewrite Ha in Hget. injection Hget as <- <-. by eapply Hset.
Qed.

Lemma tree_run_snoc ops op : tree_run (ops ++ [op]) = tree_op (tree_run ops) op.
Proof. unfold tree_run. by rewrite foldl_app. Qed.

Lemma tree_run_wf ops : ops_ok ops → root_wf (2 * L - 1) (tree_run ops) ∧ entries_set (tree_run ops).
Proof using L_pos.
  induction ops as [|op ops IH] using rev_ind; intros Hok.
  - split; [apply empty_root_wf|]. intros key vp d _. unfold tree_run. cbn [foldl]. by rewrite rget_empty.
  - apply ops_ok_snoc in Hok as [Hops Hop]. destruct (IH Hops) as [Hwf Hset]. rewrite tree_run_snoc.
    split; [by apply tree_op_ok|by apply tree_op_entries].
Qed.

Lemma live_snoc ops op key : live (ops ++ [op]) key = live_step key (live ops key) op.
Proof. unfold live. by rewrite foldl_app. Qed.

Lemma live_step_other key acc op : op_key op ≠ key → live_step key acc op = acc.
Proof. destruct op; cbn; intros H; by rewrite bool_decide_eq_false_2. Qed.

Lemma live_in ops key v : live ops key = Some v → OpUpdate key v ∈ ops.
Proof.
  induction ops as [|op ops IH] using rev_ind; [done|]. rewrite live_snoc, elem_of_app. destruct op as [k w|k]; cbn.
  - case_bool_decide as E; [|by left; apply IH]. intros [= ->]. subst k. right. left.
  - case_bool_decide; [done|]. left. by apply IH.
Qed.

(** A live key has its value pointer. *)
Lemma run_live ops key v :
  ops_ok ops → key_ok L key → live ops key = Some v →
  rget (tree_run ops) (convertByteToHex key) = Some (CalculateKeyValueHash key v, false).
Proof using L_pos.
  intros Hok Hkey. revert v. induction ops as [|op ops IH] using rev_ind; intros v Hlive; [done|].
  apply ops_ok_snoc in Hok as [Hops Hop]. destruct (tree_run_wf ops Hops) as [Hwf _].
  rewrite tree_run_snoc. rewrite live_snoc in Hlive. destruct (decide (op_key op = key)) as [<-|Hne].
  - rewrite tree_op_same by done. destruct op as [k w|k]; cbn in Hlive; rewrite bool_decide_eq_true_2 in Hlive by done; [|done].
    by injection Hlive as ->.
  - rewrite live_step_other in Hlive by done. specialize (IH Hops _ Hlive).
    destruct (tree_op_other _ op key Hwf Hop Hkey Hne) as [[->|(w & Hb & _)] _]; [done|]. rewrite IH in Hb. done.
Qed.

(** A key that was never updated has no entry. *)
Lemma run_absent ops key :
  ops_ok ops → key_ok L key → (∀ v, OpUpdate key v ∉ ops) → rget (tree_run ops) (convertByteToHex key) = None.
Proof using L_pos.
  intros Hok Hkey. induction ops as [|op ops IH] using rev_ind; intros Hno; [apply rget_empty|].
  apply ops_ok_snoc in Hok as [Hops Hop]. destruct (tree_run_wf ops Hops) as [Hwf _]. rewrite tree_run_snoc.
  specialize (IH Hops ltac:(intros v Hv; apply (Hno v), elem_of_app; by left)).
  destruct (decide (op_key op = key)) as [<-|Hne].
  - rewrite tree_op_same by done. destruct op as [k w|k]; cbn [tree_op op_key] in *; [|by rewrite IH].
    destruct (Hno w). apply elem_of_app. right. left.
  - destruct (tree_op_other _ op key Hwf Hop Hkey Hne) as [[->|(w & Hb & _)] _]; [done|]. rewrite IH in Hb. done.
Qed.

Lemma updates_only_live ops key : Forall is_update ops → live ops key = None → ∀ v, OpUpdate key v ∉ ops.
Proof.
  induction ops as [|op ops IH] using rev_ind; intros Hup Hlive v Hin; [by apply not_elem_of_nil in Hin|].
  apply Forall_app in Hup as [Hup Hop%Forall_inv]. rewrite live_snoc in Hlive. destruct op as [k w|]; [|by destruct Hop]. cbn in Hlive.
  case_bool_decide as E; [done|]. apply elem_of_app in Hin as [Hin|Hin%list_elem_of_singleton]; [by eapply IH|congruence].
Qed.

(** After updates followed by deletions, a key that is not live has no entry or a deleted one. *)
Lemma run_deleted us ds key :
  ops_ok (us ++ ds) → key_ok L key → Forall is_update us → Forall is_delete ds → live (us ++ ds) key = None →
  rget (tree_run (us ++ ds)) (convertByteToHex key) = None ∨
  ∃ vp, rget (tree_run (us ++ ds)) (convertByteToHex key) = Some (vp, true).
Proof using L_pos.
  intros Hok Hkey Hus. induction ds as [|op ds IH] using rev_ind; intros Hds Hlive.
  - left. rewrite app_nil_r in *. apply run_absent; try done. by apply updates_only_live.
  - rewrite app_assoc in *. apply ops_ok_snoc in Hok as [Hops Hop]. apply Forall_app in Hds as [Hds Hd%Forall_inv].
    destruct (tree_run_wf _ Hops) as [Hwf _]. rewrite tree_run_snoc. rewrite live_snoc in Hlive.
    destruct (decide (op_key op = key)) as [<-|Hne].
    + rewrite tree_op_same by done. destruct op as [|k]; [by destruct Hd|]. destruct (rget _ _) as [[vp d]|]; eauto.
    + rewrite live_step_other in Hlive by done. destruct (tree_op_other _ op key Hwf Hop Hkey Hne) as [_ Hsame]. rewrite (Hsame Hd). by apply IH.
Qed.
End TreeRun.

(** ** Proofs from paths *)

(** The proof that [GetProof] makes from a path. *)
Lemma verifyPath_app a b h :
  verifyPath (a ++ b) h = match verifyPath a h with Some h' => verifyPath b h' | None => None end.
Proof. revert h. induction a as [|x a IH]; intros h; cbn; [done|]. by destruct (existsb _ x). Qed.

Lemma existsb_bytes h l : h ∈ l → existsb (bytes_eqb h) l = true.
Proof. intros H. apply existsb_elem. exists h. split; [done|]. by apply bool_decide_eq_true. Qed.

Lemma verifyPath_down path last vp :
  path_down path last → vp ∈ node_bytes last →
  verifyPath (node_bytes <$> reverse path) vp = nhash <$> head path.
Proof.
  intros Hp Hin. induction path as [|m [|m' rest] IH]; cbn [path_down] in Hp; [done| |].
  - subst m. rewrite reverse_singleton. cbn. by rewrite existsb_bytes.
  - destruct Hp as [Hm Hrest]. rewrite reverse_cons, fmap_app, verifyPath_app, (IH Hrest). cbn. by rewrite existsb_bytes.
Qed.

Lemma Verify_down path k vp d :
  path_down path (Value (mkValueNode k vp d)) → vp ≠ [] → ∃ top, head path = Some top ∧
    Verify (node_bytes <$> reverse path) vp (nhash top) d = Ok true.
Proof.
  intros Hp Hvp. destruct path as [|m rest] eqn:Epath; [done|]. rewrite <- Epath in *.
  assert (Hin : vp ∈ node_bytes (Value (mkValueNode k vp d))).
  { cbn [node_bytes VN_Key VN_ValuePtr VN_Deleted]. unfold nonempty_bytes at 2. rewrite (bool_decide_eq_false_2 (vp = [])) by done. set_solver. }
  assert (Hlast : ∃ pre, path = pre ++ [Value (mkValueNode k vp d)]).
  { clear -Hp. induction path as [|m [|m' rest] IH]; cbn [path_down] in Hp; [done| |].
    - subst. by exists [].
    - destruct Hp as [_ Hrest]. destruct (IH Hrest) as [pre ->]. by exists (m :: pre). }
  exists m. split; [by rewrite Epath|]. pose proof (verifyPath_down _ _ vp Hp Hin) as Hv. rewrite Epath in Hv at 2. cbn in Hv.
  destruct Hlast as [pre Hpre]. unfold Verify. rewrite Hv. rewrite Hpre, reverse_snoc. cbn [fmap list_fmap].
  destruct d; cbn [andb negb].
  - rewrite existsb_bytes.
    + unfold bytes_eqb. by rewrite bool_decide_eq_true_2.
    + cbn [node_bytes VN_Key VN_ValuePtr VN_Deleted delete_marker]. set_solver.
  - unfold bytes_eqb. by rewrite bool_decide_eq_true_2.
Qed.

(** ** What a client sees *)

Section Client.
Context {St : Type} `{!TrieStore St} `{!TrieStoreLaws St}.
Context (L : nat) (ops : list trie_op) (s : St).
Hypothesis (L_pos : (0 < L)%nat) (keys_ok : ops_ok L ops) (fresh : empty_store s).
Hypothesis hash_inj : nodes_distinct (run_nodes no_trees ops).
Hypothesis values_distinct : collision_free (value_messages ops).

Lemma build_ok :
  ∃ t, build s ops = (t, Ok tt) ∧ holds L (fun m => m ∈ run_nodes no_trees ops) t (tree_run ops) ops.
Proof using All.
  set (U := fun m => m ∈ run_nodes no_trees ops).
  assert (HU : ∀ m, m ∈ rnodes no_trees → U m) by (intros m Hm; unfold U; destruct ops; by apply elem_of_app; left).
  destruct (NewTrie_ok L U hash_inj s fresh HU) as (s1 & Hnew & Hh1).
  destruct (apply_ops_ok L ops U hash_inj values_distinct L_pos keys_ok ops _ no_trees [] Hh1) as (t & Ht & Hh); [done|done|].
  exists t. split; [|done]. unfold build. by rewrite Hnew.
Qed.

(** C24: after any sequence of updates and deletions of keys of one length, a lookup
    finds the last value of every key that has one, and nothing for a key that was
    never updated; if no update follows a deletion, deleted keys have no value either,
    so that the lookup is that of the map the operations describe. *)
Theorem trie_lookup :
  ∃ t, build s ops = (t, Ok tt) ∧ ∀ key, key_ok L key →
    (∀ v, live ops key = Some v → Get t key = Ok (Some v)) ∧
    ((∀ v, OpUpdate key v ∉ ops) → Get t key = Ok None) ∧
    (∀ us ds, ops = us ++ ds → Forall is_update us → Forall is_delete ds → Get t key = Ok (live ops key)).
Proof using All.
  destruct build_ok as (t & Ht & Hh). exists t. split; [done|]. intros key Hkey.
  pose proof (getNode_ok L _ L_pos _ _ _ key Hh Hkey) as Hnode.
  assert (Hlive : ∀ v, live ops key = Some v → Get t key = Ok (Some v)).
  { intros v Hv. rewrite (run_live L L_pos ops key v keys_ok Hkey Hv) in Hnode. destruct Hnode as [k Hnode].
    unfold Get. rewrite Hnode. cbn [mbind res_bind isDeleted VN_Deleted getValuePtr VN_ValuePtr].
    destruct (ho_entries _ _ _ _ _ Hh key _ _ Hkey (run_live L L_pos ops key v keys_ok Hkey Hv)) as (w & Hw & Heq & ->).
    by destruct (value_ptr_inj L ops values_distinct keys_ok key v key w (live_in _ _ _ Hv) Hw Heq) as [_ ->]. }
  split_and!; [done| |].
  - intros Hno. rewrite (run_absent L L_pos ops key keys_ok Hkey Hno) in Hnode. unfold Get. by rewrite Hnode.
  - intros us ds Heq Hus Hds. destruct (live ops key) as [v|] eqn:E; [by apply Hlive|]. unfold Get.
    destruct (run_deleted L L_pos us ds key) as [Hr|[vp Hr]]; [by rewrite <- Heq|done..|by rewrite <- Heq| |];
      rewrite <- Heq in Hr; rewrite Hr in Hnode.
    + by rewrite Hnode.
    + by destruct Hnode as [k ->].
Qed.

(** C26: the trie proves what it holds: there is a proof for every live key, and every
    proof that the trie gives, with either flag, is accepted against its root hash for a
    value that the key was given. *)
Theorem trie_proof_complete :
  ∃ t h, build s ops = (t, Ok tt) ∧ Hash t = Ok h ∧ ∀ key, key_ok L key →
    (∀ v, live ops key = Some v → ∃ path, GetProof t key false = Ok (Some path) ∧
       Verify path (CalculateKeyValueHash key v) h false = Ok true) ∧
    (∀ d path, GetProof t key d = Ok (Some path) →
       ∃ v, OpUpdate key v ∈ ops ∧ Verify path (CalculateKeyValueHash key v) h d = Ok true).
Proof using All.
  destruct build_ok as (t & Ht & Hh). exists t, (nhash (branch_of (tree_run ops))).
  destruct t as [r st]. pose proof Hh as [Hroot Hwf Hcon Hst Hent]. cbn [root store] in *. subst r.
  split_and!; [done|done|]. intros key Hkey. destruct (hex_ok L L_pos key Hkey) as [Hnib Hlen].
  destruct (getPath_root st (2 * L - 1) (tree_run ops) (convertByteToHex key)) as (path & node & Heq & Hf); try done.
  unfold found in Hf. cbn [fst snd] in Hf.
  assert (Hproof : ∀ vp d, rget (tree_run ops) (convertByteToHex key) = Some (vp, d) → vp ≠ [] →
    (∀ d', GetProof (mkMPTrie (Some (branch_of (tree_run ops))) st) key d' =
       Ok (if Bool.eqb d d' then Some (node_bytes <$> reverse path) else None)) ∧
    Verify (node_bytes <$> reverse path) vp (nhash (branch_of (tree_run ops))) d = Ok true).
  { intros vp d Hget Hvp. rewrite Hget in Hf. destruct Hf as (k & -> & Hdown & Hhead). split.
    - intros d'. unfold GetProof. rewrite Heq. cbn [mbind res_bind isDeleted VN_Deleted]. by destruct (Bool.eqb d d').
    - destruct (Verify_down path k vp d Hdown Hvp) as (top & Htop & Hv). rewrite Hhead in Htop. by injection Htop as <-. }
  split.
  - intros v Hv. destruct (Hproof _ _ (run_live L L_pos ops key v keys_ok Hkey Hv) (value_ptr_not_nil key v)) as [Hg Hver].
    eexists. split; [by rewrite Hg|done].
  - intros d p Hp. destruct (rget (tree_run ops) (convertByteToHex key)) as [[vp d']|] eqn:Hget.
    + destruct (Hent _ _ _ Hkey Hget) as (v & Hv & -> & _). destruct (Hproof _ _ eq_refl (value_ptr_not_nil key v)) as [Hg Hver].
      rewrite Hg in Hp. destruct (Bool.eqb_spec d' d) as [->|]; [|done]. injection Hp as <-. by exists v.
    + unfold GetProof in Hp. rewrite Heq in Hp. cbn [mbind res_bind] in Hp. by rewrite Hf in Hp.
Qed.
End Client.

(** C25: without deletions the root hash depends on the contents only: two sequences of
    updates that leave the same value of every key leave the same root hash, whatever
    their order and the values in between. *)
Theorem trie_root_canonical {St} `{!TrieStore St} `{!TrieStoreLaws St} L ops ops' (s s' : St) :
  (0 < L)%nat → ops_ok L ops → ops_ok L ops' → empty_store s → empty_store s' →
  nodes_distinct (run_nodes no_trees ops) → nodes_distinct (run_nodes no_trees ops') →
  collision_free (value_messages ops) → collision_free (value_messages ops') →
  Forall is_update ops → Forall is_update ops' → (∀ key, key_ok L key → live ops key = live ops' key) →
  ∃ t t' h, build s ops = (t, Ok tt) ∧ build s' ops' = (t', Ok tt) ∧ Hash t = Ok h ∧ Hash t' = Ok h.
Proof.
  intros HL Hok Hok' Hs Hs' Hd Hd' Hc Hc' Hu Hu' Hsame.
  destruct (build_ok L ops s HL Hok Hs Hd Hc) as (t & Ht & Hh). destruct (build_ok L ops' s' HL Hok' Hs' Hd' Hc') as (t' & Ht' & Hh').
  assert (Heq : tree_run ops = tree_run ops').
  { destruct (tree_run_wf L HL ops Hok) as [Hwf _], (tree_run_wf L HL ops' Hok') as [Hwf' _].
    apply (root_canonical (2 * L - 1)); [done..|]. intros hex Hn Hl.
    destruct (convertByteToHex_surj L hex Hn ltac:(lia)) as (key & Hb & Hlk & <-). assert (Hk : key_ok L key) by done.
    specialize (Hsame key Hk). destruct (live ops key) as [v|] eqn:E.
    - by rewrite (run_live L HL ops key v), (run_live L HL ops' key v).
    - by rewrite !(run_absent L HL) by (done || by apply updates_only_live). }
  exists t, t', (nhash (branch_of (tree_run ops))). unfold Hash.
  rewrite (ho_root _ _ _ _ _ Hh), (ho_root _ _ _ _ _ Hh'), <- Heq. done.
Qed.

(** A proof that a value was deleted can be forged from a proof that it is there:
    only the concatenation of the parts of a node is hashed, so a part that contains the
    byte of the deletion mark, such as a nibble 1 of the key, can be cut around it. *)
Theorem deletion_proof_forgeable pre a b post rest vp h :
  Verify ((pre ++ (a ++ KeyDeleteMarkerBytes ++ b) :: post) :: rest) vp h false = Ok true →
  vp ∈ pre ++ post →
  Verify ((pre ++ [a; KeyDeleteMarkerBytes; b] ++ post) :: rest) vp h true = Ok true.
Proof.
  intros Hv Hin. unfold Verify in *. cbn [andb] in Hv. rewrite existsb_bytes by set_solver. cbn [andb negb].
  cbn [verifyPath] in *. rewrite !existsb_bytes in * by set_solver.
  assert (CalcHash (pre ++ [a; KeyDeleteMarkerBytes; b] ++ post) = CalcHash (pre ++ (a ++ KeyDeleteMarkerBytes ++ b) :: post)) as ->; [|done].
  unfold CalcHash. f_equal. change ((a ++ KeyDeleteMarkerBytes ++ b) :: post) with ([a ++ KeyDeleteMarkerBytes ++ b] ++ post).
  rewrite !join_app. cbn. by rewrite <- !app_assoc, app_nil_r.
Qed.
