(* ===== verification/TrieStore.v ===== *)
(** * The store of the trie

    [internal/mptrie/store]: nodes and values in a LevelDB database, in maps in
    memory until a block is committed, and in maps of what the commit is to write.
    A pointer stands for its base64 text, which the code uses as the key of the maps. *)

From S2P Require Import Prelude Crypto Types MPTrie.
Open Scope Z_scope.

(** The tag in front of a marshaled node. *)
Definition BranchTag : Z := 1.
Definition ExtensionTag : Z := 2.
Definition ValueTag : Z := 3.

Definition trieNodesNs : Z := 0.
Definition trieValueNs : Z := 1.
Definition lastBlockNs : bytes := [2].

Record Store := mkTrieStore {
  disabled : bool;
  trieDataDB : gmap bytes bytes;
  inMemoryNodes : gmap bytes bytes;
  inMemoryValues : gmap bytes bytes;
  nodesToPersist : gmap bytes bytes;
  valuesToPersist : gmap bytes bytes;
}.

(** [binary.LittleEndian] on eight bytes. *)
Fixpoint PutUint64 (n : nat) (x : Z) : bytes :=
  match n with
  | O => []
  | S n => x mod 256 :: PutUint64 n (x / 256)
  end.

Fixpoint Uint64 (b : bytes) : Z :=
  match b with
  | [] => 0
  | x :: b => x + 256 * Uint64 b
  end.

Section Store.
Context `{!Codec BranchNode, !Codec ExtensionNode, !Codec ValueNode}.

(** Unmarshaling gives nil for an empty child: here both are the empty list. *)
Definition decodeNode (storedNodeBytes : bytes) : res TrieNode :=
  match storedNodeBytes with
  | [] => Panic "index out of range"
  | tag :: b =>
    if tag =? BranchTag then n ← Unmarshal b; Ok (Branch n)
    else if tag =? ExtensionTag then n ← Unmarshal b; Ok (Extension n)
    else if tag =? ValueTag then n ← Unmarshal b; Ok (Value n)
    else Err (PlainErr "unknown node type")
  end.

(** An empty node has no type of its own and is stored as no bytes at all. *)
Definition encodeNode (node : TrieNode) : res bytes :=
  match node with
  | Branch n => b ← Marshal n; Ok (BranchTag :: b)
  | Extension n => b ← Marshal n; Ok (ExtensionTag :: b)
  | Value n => b ← Marshal n; Ok (ValueTag :: b)
  | Empty => Ok []
  end.

(** Memory first, then what is to be persisted, then the database. *)
Definition lookup3 (memory toPersist db : gmap bytes bytes) (ns : Z) (ptr : bytes) : res bytes :=
  match memory !! ptr with
  | Some b => Ok b
  | None =>
    match toPersist !! ptr with
    | Some b => Ok b
    | None =>
      match db !! (ns :: ptr) with
      | Some b => Ok b
      | None => Err (PlainErr "leveldb: not found")
      end
    end
  end.

Definition store_GetNode (s : Store) (nodePtr : bytes) : res TrieNode :=
  b ← lookup3 (inMemoryNodes s) (nodesToPersist s) (trieDataDB s) trieNodesNs nodePtr; decodeNode b.

Definition store_GetValue (s : Store) (valuePtr : bytes) : res bytes :=
  lookup3 (inMemoryValues s) (valuesToPersist s) (trieDataDB s) trieValueNs valuePtr.

Definition store_PutNode (nodePtr : bytes) (node : TrieNode) : prog Store unit :=
  b ← lift (encodeNode node);
  modify (fun s => mkTrieStore (disabled s) (trieDataDB s) (<[nodePtr := b]> (inMemoryNodes s)) (inMemoryValues s)
                     (nodesToPersist s) (valuesToPersist s)).

Definition store_PutValue (valuePtr value : bytes) : prog Store unit :=
  modify (fun s => mkTrieStore (disabled s) (trieDataDB s) (inMemoryNodes s) (<[valuePtr := value]> (inMemoryValues s))
                     (nodesToPersist s) (valuesToPersist s)).

Definition store_PersistNode (nodePtr : bytes) : prog Store bool := fun s =>
  match inMemoryNodes s !! nodePtr with
  | Some b =>
    (mkTrieStore (disabled s) (trieDataDB s) (inMemoryNodes s) (inMemoryValues s)
       (<[nodePtr := b]> (nodesToPersist s)) (valuesToPersist s), Ok true)
  | None => (s, Ok false)
  end.

Definition store_PersistValue (valuePtr : bytes) : prog Store bool := fun s =>
  match inMemoryValues s !! valuePtr with
  | Some b =>
    (mkTrieStore (disabled s) (trieDataDB s) (inMemoryNodes s) (inMemoryValues s)
       (nodesToPersist s) (<[valuePtr := b]> (valuesToPersist s)), Ok true)
  | None => (s, Ok false)
  end.

Definition store_Height (s : Store) : res Z :=
  match trieDataDB s !! lastBlockNs with
  | Some b => if (length b <? 8)%nat then Panic "index out of range" else Ok (Uint64 (take 8 b))
  | None => Err (PlainErr "leveldb: not found")
  end.

(** The batch is written at once; its keys are distinct. *)
Definition store_CommitChanges (blockNum : Z) : prog Store unit :=
  modify (fun s =>
    mkTrieStore (disabled s)
      (<[lastBlockNs := PutUint64 8 blockNum]>
         (kmap (cons trieValueNs) (valuesToPersist s) ∪ (kmap (cons trieNodesNs) (nodesToPersist s) ∪ trieDataDB s)))
      ∅ ∅ ∅ ∅).

Definition store_RollbackChanges : prog Store unit :=
  modify (fun s => mkTrieStore (disabled s) (trieDataDB s) ∅ ∅ ∅ ∅).

Definition store_SetDisabled (b : bool) : prog Store unit :=
  modify (fun s => mkTrieStore b (trieDataDB s) (inMemoryNodes s) (inMemoryValues s) (nodesToPersist s) (valuesToPersist s)).

(** Opening a new store, or the database that a stopped node left. *)
Definition openTrieStore (db : gmap bytes bytes) : Store := mkTrieStore false db ∅ ∅ ∅ ∅.

#[export] Instance trie_store : TrieStore Store := {|
  GetNode := store_GetNode;
  GetValue := store_GetValue;
  PutNode := store_PutNode;
  PutValue := store_PutValue;
  PersistNode := store_PersistNode;
  PersistValue := store_PersistValue;
  TrieHeight := store_Height;
  CommitChanges := store_CommitChanges;
  RollbackChanges := store_RollbackChanges;
  IsDisabled := disabled;
  SetDisabled := store_SetDisabled;
|}.

(** Messages with bytes and booleans only can always be marshaled. *)
Class NodesMarshal : Prop := {
  branch_marshals : ∀ n : BranchNode, is_ok (Marshal n) = true;
  extension_marshals : ∀ n : ExtensionNode, is_ok (Marshal n) = true;
  value_marshals : ∀ n : ValueNode, is_ok (Marshal n) = true;
}.

Lemma decode_encodeNode `{!NodesMarshal} n : n ≠ Empty → ∃ b, encodeNode n = Ok b ∧ decodeNode b = Ok n.
Proof.
  intros Hn. destruct n as [n|n|n|]; [| | |done]; cbn.
  - pose proof (branch_marshals n). destruct (Marshal n) as [b| |] eqn:E; [|done..].
    exists (BranchTag :: b). split; [done|]. cbn. by rewrite (unmarshal_marshal _ _ E).
  - pose proof (extension_marshals n). destruct (Marshal n) as [b| |] eqn:E; [|done..].
    exists (ExtensionTag :: b). split; [done|]. cbn. by rewrite (unmarshal_marshal _ _ E).
  - pose proof (value_marshals n). destruct (Marshal n) as [b| |] eqn:E; [|done..].
    exists (ValueTag :: b). split; [done|]. cbn. by rewrite (unmarshal_marshal _ _ E).
Qed.

(** The store keeps what the trie relies on. *)
#[export] Instance trie_store_laws `{!NodesMarshal} : TrieStoreLaws Store.
Proof.
  split.
  - intros s p n Hn. destruct (decode_encodeNode n Hn) as (b & He & Hd). eexists. split_and!.
    + cbn. unfold store_PutNode. rewrite He. by erewrite bind_step by done.
    + cbn. unfold store_GetNode, lookup3. cbn. by rewrite lookup_insert_eq.
    + intros q Hq. cbn. unfold store_GetNode, lookup3. cbn. by rewrite lookup_insert_ne.
    + done.
  - intros s p v. eexists. split_and!.
    + done.
    + cbn. unfold store_GetValue, lookup3. cbn. by rewrite lookup_insert_eq.
    + intros q Hq. cbn. unfold store_GetValue, lookup3. cbn. by rewrite lookup_insert_ne.
    + done.
Qed.
End Store.
