(* ===== verification/TrieDurability.v ===== *)
(** * Commits of the trie are durable

    What [Commit] writes is enough to reopen the trie: after a commit the database
    alone holds every node and value of the trie, and so it does after any number
    of blocks, each ended by a commit, with restarts in between. *)

From S2P Require Import Prelude Crypto Types MPTrie TrieTree TrieRefinement TrieProofs TrieStore.
Open Scope Z_scope.

Section Durability.
Context `{!Codec BranchNode, !Codec ExtensionNode, !Codec ValueNode}.

(** ** Operations write to memory only *)

Definition frame (s s' : Store) : Prop :=
  trieDataDB s' = trieDataDB s ∧ nodesToPersist s' = nodesToPersist s ∧ valuesToPersist s' = valuesToPersist s.

Definition framed {A} (m : prog Store A) : Prop := ∀ s, frame s (m s).1.

Lemma frame_trans s1 s2 s3 : frame s1 s2 → frame s2 s3 → frame s1 s3.
Proof. unfold frame. intros (? & ? & ?) (? & ? & ?). split_and!; congruence. Qed.

Lemma framed_bind {A B} (m : prog Store A) (f : A → prog Store B) :
  framed m → (∀ a, framed (f a)) → framed (m ≫= f).
Proof.
  intros Hm Hf s. unfold mbind, prog_bind. specialize (Hm s). destruct (m s) as [s1 [a|e|w]]; cbn in *; [|done..].
  eapply frame_trans; [done|apply Hf].
Qed.

Lemma framed_ret {A} (a : A) : framed (mret a).
Proof. done. Qed.

Lemma framed_lift {A} (r : res A) : framed (lift r).
Proof. done. Qed.

Lemma framed_read {A} (f : Store → res A) : framed (fun s => (s, f s)).
Proof. done. Qed.

Lemma framed_PutNode p n : framed (PutNode p n).
Proof. apply framed_bind; done. Qed.

Lemma framed_saveNode n : framed (saveNode n).
Proof. apply framed_bind; [done|]. intros p. apply framed_bind; [apply framed_PutNode|done]. Qed.

Lemma framed_drop_error (m : prog Store (TrieNode * bytes)) : framed m → framed (drop_error m).
Proof. intros Hm s. specialize (Hm s). unfold drop_error. by destruct (m s) as [s1 [[? ?]|?|?]]. Qed.

Ltac framed :=
  repeat first
    [ done
    | apply framed_saveNode
    | apply framed_drop_error
    | apply framed_bind; [|intros ?]
    | match goal with
      | |- framed (if ?b then _ else _) => destruct b
      | |- framed (match ?x with _ => _ end) => destruct x
      | H : ∀ _, framed _ |- _ => apply H
      end
    | progress unfold save_and_return, withPrefix, splitPathToValueNode, updateEmptyNode ].

Lemma framed_updateValueNode n hexKey vp d : framed (updateValueNode n hexKey vp d).
Proof. unfold updateValueNode. framed. Qed.

Lemma framed_update fuel node hexKey vp d : framed (update fuel node hexKey vp d).
Proof.
  revert node hexKey. induction fuel as [|fuel IH]; intros node hexKey; [done|]. destruct node as [n|n|n|]; cbn [update].
  - unfold updateBranchNode. framed.
  - unfold updateExtensionNode. framed.
  - apply framed_updateValueNode.
  - unfold updateEmptyNode. framed.
Qed.

Lemma frame_updateRoot key vp d (t : MPTrie Store) : frame (store t) (store (updateRoot key vp d t).1).
Proof.
  unfold updateRoot. destruct (root t) as [[n|n|n|]|]; try done.
  assert (Hfr : framed (updateBranchNode (update (key_fuel key)) n key vp d)).
  { unfold updateBranchNode. framed. apply framed_update. }
  specialize (Hfr (store t)). by destruct (updateBranchNode _ n key vp d (store t)) as [s [[? ?]|?|?]].
Qed.

Lemma frame_apply_op op (t : MPTrie Store) : frame (store t) (store (apply_op op t).1).
Proof.
  destruct op as [k v|k]; cbn [apply_op].
  - unfold Update. case_bool_decide; [done|]. unfold mbind, prog_bind.
    pose proof (frame_updateRoot (convertByteToHex k) (CalculateKeyValueHash k v) false t) as Hfr.
    destruct (updateRoot _ _ false t) as [t1 [[]|?|?]]; done.
  - unfold mbind at 1, prog_bind at 1.
    assert (Hfr : frame (store t) (store (Delete k t).1)); [|by destruct (Delete k t) as [t1 [[]|?|?]]].
    unfold Delete. case_bool_decide; [done|]. unfold mbind, prog_bind.
    destruct (getNode t _) as [[n|]|?|?]; try done. destruct (GetValue _ _) as [v|?|?]; try done.
    pose proof (frame_updateRoot (convertByteToHex k) (getValuePtr n) true t) as Hfr.
    destruct (updateRoot _ _ true t) as [t1 [[]|?|?]]; done.
Qed.

Lemma frame_apply_ops ops (t : MPTrie Store) : frame (store t) (store (apply_ops ops t).1).
Proof.
  revert t. induction ops as [|op ops IH]; intros t; [done|]. cbn [apply_ops]. unfold mbind, prog_bind.
  pose proof (frame_apply_op op t) as Hfr. destruct (apply_op op t) as [t1 [[]|?|?]]; [|done..].
  eapply frame_trans; [done|apply IH].
Qed.

(** ** The database *)

Definition node_children (m : TrieNode) : list bytes :=
  match m with
  | Branch n => filter (.≠ []) (BN_Children n)
  | Extension n => [EN_Child n]
  | _ => []
  end.

Definition node_values (m : TrieNode) : list bytes :=
  match m with
  | Branch n => nonempty_bytes (BN_ValuePtr n)
  | Value n => [VN_ValuePtr n]
  | _ => []
  end.

Definition node_in (db : gmap bytes bytes) (m : TrieNode) : Prop :=
  ∃ b, db !! (trieNodesNs :: nhash m) = Some b ∧ decodeNode b = Ok m.

Definition in_db (db : gmap bytes bytes) (m : TrieNode) : Prop :=
  node_in db m ∧
  (∀ v, v ∈ node_values m → is_Some (db !! (trieValueNs :: v))).

(** Every node of the database is under its hash, with what it points to. *)
Definition db_ok (U : TrieNode → Prop) (db : gmap bytes bytes) : Prop :=
  ∀ p b, db !! (trieNodesNs :: p) = Some b →
    ∃ m, decodeNode b = Ok m ∧ U m ∧ p = nhash m ∧ in_db db m ∧
      (∀ c, c ∈ node_children m → is_Some (db !! (trieNodesNs :: c))).

(** What a commit makes of the database. *)
Definition committed (s : Store) : gmap bytes bytes :=
  kmap (cons trieValueNs) (valuesToPersist s) ∪ (kmap (cons trieNodesNs) (nodesToPersist s) ∪ trieDataDB s).

Lemma kmap_other (a b : Z) (m : gmap bytes bytes) p : a ≠ b → (kmap (cons a) m : gmap bytes bytes) !! (b :: p) = None.
Proof. intros Hne. apply lookup_kmap_None; [apply _|]. intros q Hq. by injection Hq as ->. Qed.

Lemma committed_node s p :
  committed s !! (trieNodesNs :: p) = match nodesToPersist s !! p with Some b => Some b | None => trieDataDB s !! (trieNodesNs :: p) end.
Proof.
  unfold committed. rewrite lookup_union_r by (by apply kmap_other). rewrite lookup_union, (lookup_kmap (cons trieNodesNs)).
  by destruct (nodesToPersist s !! p), (trieDataDB s !! _).
Qed.

Lemma committed_value s p :
  committed s !! (trieValueNs :: p) = match valuesToPersist s !! p with Some b => Some b | None => trieDataDB s !! (trieValueNs :: p) end.
Proof.
  unfold committed. rewrite lookup_union, (lookup_kmap (cons trieValueNs)), lookup_union_r by (by apply kmap_other).
  by destruct (valuesToPersist s !! p), (trieDataDB s !! _).
Qed.

Section Persist.
Context (U : TrieNode → Prop).
Hypothesis hash_inj : ∀ m m', U m → U m' → nhash m = nhash m' → m = m'.

(** A tree whose root is in the database is there as a whole. *)
Lemma db_node db m : db_ok U db → U m → is_Some (db !! (trieNodesNs :: nhash m)) →
  in_db db m ∧ ∀ c, c ∈ node_children m → is_Some (db !! (trieNodesNs :: c)).
Proof using hash_inj.
  intros Hdb Hm [b Hb]. destruct (Hdb _ _ Hb) as (m' & _ & Hm' & Heq & Hin & Hc).
  by rewrite (hash_inj m m' Hm Hm' Heq).
Qed.

Lemma branch_child cs i c : cs !! i = Some (Some c) → nhash (tnode c) ∈ node_children (branch_of cs).
Proof using.
  intros Hi. cbn. apply list_elem_of_filter. split; [apply nhash_not_nil|]. apply list_elem_of_fmap.
  exists (Some c). split; [done|]. by apply list_elem_of_lookup_2 in Hi.
Qed.

Lemma db_branch db cs :
  db_ok U db → U (branch_of cs) → is_Some (db !! (trieNodesNs :: nhash (branch_of cs))) →
  (∀ i c, cs !! i = Some (Some c) → is_Some (db !! (trieNodesNs :: nhash (tnode c))) → ∀ m, m ∈ tnodes c → in_db db m) →
  in_db db (branch_of cs) ∧ ∀ i c, cs !! i = Some (Some c) → ∀ m, m ∈ tnodes c → in_db db m.
Proof using hash_inj.
  intros Hdb HU Hin IH. destruct (db_node db _ Hdb HU Hin) as [H1 H2]. split; [done|].
  intros i c Hi. apply (IH i c Hi). apply H2. by apply (branch_child _ i).
Qed.

Lemma db_tree db n t :
  db_ok U db → wf n t → (∀ m, m ∈ tnodes t → U m) → is_Some (db !! (trieNodesNs :: nhash (tnode t))) →
  ∀ m, m ∈ tnodes t → in_db db m.
Proof using hash_inj.
  intros Hdb Ht. induction Ht as [k vp d Hk Hvp|n p cs Hp Hl Hc IH Htwo]; intros HU Hin.
  - intros m ->%list_elem_of_singleton. apply db_node; [done|apply HU, tnode_in|done].
  - assert (HUb : U (branch_of cs)) by (apply HU, elem_of_tnodes; auto).
    assert (HUc : ∀ i c, cs !! i = Some (Some c) → ∀ m, m ∈ tnodes c → U m) by (intros i c Hi m Hm; apply HU; by apply (nodes_child _ _ _ _ _ Hi)).
    destruct (db_node db _ Hdb (HU _ (tnode_in _)) Hin) as [Htop Hch].
    assert (Hb : is_Some (db !! (trieNodesNs :: nhash (branch_of cs)))).
    { rewrite tnode_node in Hin, Hch. case_bool_decide; [done|]. apply Hch. cbn. set_solver. }
    destruct (db_branch db cs Hdb HUb Hb) as [Hbr Hall].
    { intros i c Hi Hin' m Hm. by apply (IH i c Hi (HUc i c Hi) Hin'). }
    intros m [->|[->|(i & c & Hi & Hm)]]%elem_of_tnodes; [done|done|by apply (Hall i c)].
Qed.

(** ** Marking what is to be persisted *)

Record marks (nodes : list TrieNode) (s s' : Store) : Prop := {
  mk_db : trieDataDB s' = trieDataDB s;
  mk_mem : inMemoryNodes s' = inMemoryNodes s;
  mk_vals : inMemoryValues s' = inMemoryValues s;
  mk_nodes : ∀ p b, nodesToPersist s !! p = Some b → nodesToPersist s' !! p = Some b;
  mk_values : ∀ p b, valuesToPersist s !! p = Some b → valuesToPersist s' !! p = Some b;
  mk_nodes_from : ∀ p b, nodesToPersist s' !! p = Some b → nodesToPersist s !! p = Some b ∨
    (inMemoryNodes s !! p = Some b ∧ ∃ m, m ∈ nodes ∧ p = nhash m);
  mk_values_from : ∀ p b, valuesToPersist s' !! p = Some b → valuesToPersist s !! p = Some b ∨
    (inMemoryValues s !! p = Some b ∧ ∃ m, m ∈ nodes ∧ p ∈ node_values m);
}.

Lemma marks_refl nodes s : marks nodes s s.
Proof using. split; eauto. Qed.

Lemma marks_trans nodes s1 s2 s3 : marks nodes s1 s2 → marks nodes s2 s3 → marks nodes s1 s3.
Proof using.
  intros [A1 A2 A3 A4 A5 A6 A7] [B1 B2 B3 B4 B5 B6 B7]. split; try congruence; auto.
  - intros p b [H'|H']%B6; [by apply A6|]. rewrite A2 in H'. by right.
  - intros p b [H'|H']%B7; [by apply A7|]. rewrite A3 in H'. by right.
Qed.

Lemma marks_weaken nodes nodes' s s' : (∀ m, m ∈ nodes → m ∈ nodes') → marks nodes s s' → marks nodes' s s'.
Proof using.
  intros Hsub [A1 A2 A3 A4 A5 A6 A7]. split; try done.
  - intros p b [?|(? & m & ? & ?)]%A6; [by left|right]. split; [done|]. exists m. auto.
  - intros p b [?|(? & m & ? & ?)]%A7; [by left|right]. split; [done|]. exists m. auto.
Qed.

(** What is marked is in memory too, so that marks do not change what is read. *)
Definition marked_in_memory (s : Store) : Prop :=
  (∀ p b, nodesToPersist s !! p = Some b → inMemoryNodes s !! p = Some b) ∧
  (∀ p b, valuesToPersist s !! p = Some b → inMemoryValues s !! p = Some b).

Lemma marks_in_memory nodes s s' : marked_in_memory s → marks nodes s s' → marked_in_memory s'.
Proof using.
  intros [H1 H2] [A1 A2 A3 A4 A5 A6 A7]. split.
  - intros p b [H'|[H' _]]%A6; rewrite A2; auto.
  - intros p b [H'|[H' _]]%A7; rewrite A3; auto.
Qed.

Lemma GetNode_memory s p : marked_in_memory s →
  GetNode s p = match inMemoryNodes s !! p with
                | Some b => decodeNode b
                | None => match trieDataDB s !! (trieNodesNs :: p) with Some b => decodeNode b | None => Err (PlainErr "leveldb: not found") end
                end.
Proof using.
  intros [H1 _]. cbn. unfold store_GetNode, lookup3. destruct (inMemoryNodes s !! p) as [b|] eqn:E; [done|].
  destruct (nodesToPersist s !! p) as [b|] eqn:E'; [apply H1 in E'; congruence|].
  by destruct (trieDataDB s !! _).
Qed.

Lemma GetValue_memory s p : marked_in_memory s →
  GetValue s p = match inMemoryValues s !! p with
                 | Some b => Ok b
                 | None => match trieDataDB s !! (trieValueNs :: p) with Some b => Ok b | None => Err (PlainErr "leveldb: not found") end
                 end.
Proof using.
  intros [_ H2]. cbn. unfold store_GetValue, lookup3. destruct (inMemoryValues s !! p) as [b|] eqn:E; [done|].
  destruct (valuesToPersist s !! p) as [b|] eqn:E'; [apply H2 in E'; congruence|].
  by destruct (trieDataDB s !! _).
Qed.

Lemma marks_reads nodes s s' : marked_in_memory s → marks nodes s s' →
  (∀ p, GetNode s' p = GetNode s p) ∧ (∀ p, GetValue s' p = GetValue s p).
Proof using.
  intros Hm Hmarks. pose proof (marks_in_memory _ _ _ Hm Hmarks) as Hm'. destruct Hmarks as [A1 A2 A3 _ _ _ _].
  split; intros p; [rewrite !GetNode_memory by done; by rewrite A1, A2|rewrite !GetValue_memory by done; by rewrite A1, A3].
Qed.

Record persistable (s : Store) (nodes : list TrieNode) : Prop := {
  pe_marked : marked_in_memory s;
  pe_db : db_ok U (trieDataDB s);
  pe_stored : stored s nodes;
  pe_U : ∀ m, m ∈ nodes → U m;
  pe_values : ∀ m v, m ∈ nodes → v ∈ node_values m → is_ok (GetValue s v) = true;
}.

Lemma persistable_marks nodes nodes' s s' : persistable s nodes → marks nodes' s s' → persistable s' nodes.
Proof using.
  intros [H1 H2 H3 H4 H5] Hm. destruct (marks_reads _ _ _ H1 Hm) as [Hn Hv]. split.
  - by eapply marks_in_memory.
  - by rewrite (mk_db _ _ _ Hm).
  - intros m Hin. rewrite Hn. by apply H3.
  - done.
  - intros m v Hin Hval. rewrite Hv. by eapply H5.
Qed.

Lemma persistable_sub nodes nodes' s : (∀ m, m ∈ nodes' → m ∈ nodes) → persistable s nodes → persistable s nodes'.
Proof using. intros Hsub [H1 H2 H3 H4 H5]. split; try done; [intros m Hm; apply H3; auto|auto|eauto]. Qed.

(** The call marks the nodes so that a commit writes what is not in the database. *)
Definition persists (m : prog Store unit) (s : Store) (nodes : list TrieNode) : Prop :=
  ∃ s', m s = (s', Ok tt) ∧ marks nodes s s' ∧ ∀ x, x ∈ nodes → in_db (committed s') x.

Lemma node_in_marks nodes s s' x :
  marked_in_memory s → marks nodes s s' → GetNode s (nhash x) = Ok x → node_in (committed s) x → node_in (committed s') x.
Proof using.
  intros Hm [A1 A2 A3 A4 A5 A6 A7] Hget (b & Hb & Hd). unfold node_in. rewrite committed_node in *. rewrite A1.
  destruct (nodesToPersist s' !! nhash x) as [b'|] eqn:E.
  - exists b'. split; [done|]. destruct (A6 _ _ E) as [E'|[E' _]]; [rewrite E' in Hb; by injection Hb as ->|].
    rewrite (GetNode_memory s) in Hget by done. by rewrite E' in Hget.
  - destruct (nodesToPersist s !! nhash x) as [b'|] eqn:E'; [apply A4 in E'; congruence|]. by exists b.
Qed.

Lemma value_in_marks nodes s s' v :
  marks nodes s s' → is_Some (committed s !! (trieValueNs :: v)) → is_Some (committed s' !! (trieValueNs :: v)).
Proof using.
  intros [A1 A2 A3 A4 A5 A6 A7] Hv. rewrite committed_value in *. rewrite A1.
  destruct (valuesToPersist s !! v) as [b'|] eqn:E; [by rewrite (A5 _ _ E)|]. by destruct (valuesToPersist s' !! v).
Qed.

Lemma in_db_marks nodes s s' x :
  marked_in_memory s → marks nodes s s' → GetNode s (nhash x) = Ok x → in_db (committed s) x → in_db (committed s') x.
Proof using.
  intros Hm Hmarks Hget [Hn Hv]. split; [by eapply node_in_marks|].
  intros v Hin. eapply value_in_marks; [done|by apply Hv].
Qed.

(** A node that is in the database stays there. *)
Lemma db_committed s x :
  marked_in_memory s → GetNode s (nhash x) = Ok x → in_db (trieDataDB s) x → in_db (committed s) x.
Proof using.
  intros Hm Hget [(b & Hb & Hd) Hv]. split.
  - unfold node_in. rewrite committed_node. destruct (nodesToPersist s !! nhash x) as [b'|] eqn:E; [|by exists b].
    exists b'. split; [done|]. destruct Hm as [Hm1 Hm2]. rewrite (GetNode_memory s) in Hget by done. by rewrite (Hm1 _ _ E) in Hget.
  - intros v Hin. rewrite committed_value. destruct (valuesToPersist s !! v); [by eexists|by apply Hv].
Qed.

(** The two outcomes of marking a node. *)
Lemma PersistNode_cases s nodes x :
  persistable s nodes → x ∈ nodes →
  (PersistNode (nhash x) s = (s, Ok false) ∧ is_Some (trieDataDB s !! (trieNodesNs :: nhash x))) ∨
  (∃ s1, PersistNode (nhash x) s = (s1, Ok true) ∧ marks nodes s s1 ∧ node_in (committed s1) x).
Proof using.
  intros [H1 H2 H3 H4 H5] Hx. pose proof (H3 x Hx) as Hget. rewrite (GetNode_memory s _ H1) in Hget.
  cbn. unfold store_PersistNode. destruct (inMemoryNodes s !! nhash x) as [b|] eqn:E.
  - right. eexists. split; [done|]. split.
    + split; cbn; try done; [| |auto].
      * intros p b' Hp. destruct (decide (nhash x = p)) as [<-|]; [|by rewrite lookup_insert_ne].
        rewrite lookup_insert_eq. destruct H1 as [H1 _]. rewrite <- E. by apply H1.
      * intros p b' [[<- <-]|[_ Hp]]%lookup_insert_Some; [|by left]. right. split; [done|]. by exists x.
    + exists b. rewrite committed_node. cbn. rewrite lookup_insert_eq. done.
  - left. split; [done|]. destruct (trieDataDB s !! _); [by eexists|done].
Qed.

Lemma PersistValue_ok s nodes x v :
  persistable s nodes → x ∈ nodes → v ∈ node_values x →
  ∃ s1 r, PersistValue v s = (s1, Ok r) ∧ marks nodes s s1 ∧ is_Some (committed s1 !! (trieValueNs :: v)).
Proof using.
  intros [H1 H2 H3 H4 H5] Hx Hv. pose proof (H5 x v Hx Hv) as Hget. rewrite (GetValue_memory s _ H1) in Hget.
  cbn. unfold store_PersistValue. destruct (inMemoryValues s !! v) as [b|] eqn:E.
  - eexists _, true. split; [done|]. split.
    + split; cbn; try done; [|auto|].
      * intros p b' Hp. destruct (decide (v = p)) as [<-|]; [|by rewrite lookup_insert_ne].
        rewrite lookup_insert_eq. destruct H1 as [_ H1]. rewrite <- E. by apply H1.
      * intros p b' [[<- <-]|[_ Hp]]%lookup_insert_Some; [|by left]. right. split; [done|]. exists x. done.
    + rewrite committed_value. cbn. rewrite lookup_insert_eq. by eexists.
  - exists s, false. split; [done|]. split; [apply marks_refl|]. rewrite committed_value.
    destruct (valuesToPersist s !! v); [by eexists|]. destruct (trieDataDB s !! _); [by eexists|done].
Qed.

Lemma persistAll_ok persist nodes (l : list (option tree)) :
  (∀ c, Some c ∈ l → ∀ x, x ∈ tnodes c → x ∈ nodes) →
  (∀ c, Some c ∈ l → ∀ s, persistable s (tnodes c) → persists (persist (nhash (tnode c))) s (tnodes c)) →
  ∀ s, persistable s nodes → ∃ s', persistAll persist (child_ptr <$> l) s = (s', Ok tt) ∧ marks nodes s s' ∧
    ∀ c, Some c ∈ l → ∀ x, x ∈ tnodes c → in_db (committed s') x.
Proof using.
  induction l as [|o l IH]; intros Hsub Hper s Hs.
  { exists s. split; [done|]. split; [apply marks_refl|]. intros c Hc. by apply not_elem_of_nil in Hc. }
  assert (Hstep : ∃ s1, (if bool_decide (child_ptr o = []) then mret tt else persist (child_ptr o)) s = (s1, Ok tt) ∧
    marks nodes s s1 ∧ ∀ c, o = Some c → ∀ x, x ∈ tnodes c → in_db (committed s1) x).
  { destruct o as [c|]; cbn [child_ptr].
    - rewrite bool_decide_eq_false_2 by apply nhash_not_nil.
      destruct (Hper c ltac:(by left) s) as (s1 & Hs1 & Hm & Hin); [eapply persistable_sub; [|done]; apply Hsub; by left|].
      exists s1. split; [done|]. split; [eapply marks_weaken; [|done]; apply Hsub; by left|]. by intros c' [= <-].
    - rewrite bool_decide_eq_true_2 by done. exists s. split; [done|]. split; [apply marks_refl|done]. }
  destruct Hstep as (s1 & Hs1 & Hm1 & Hin1).
  destruct (IH ltac:(intros; eapply Hsub; [right|]; done) ltac:(intros; apply Hper; [by right|done]) s1) as (s2 & Hs2 & Hm2 & Hin2);
    [by eapply persistable_marks|].
  exists s2. split; [cbn [fmap list_fmap persistAll]; by erewrite bind_step by done|].
  split; [by eapply marks_trans|]. intros c [Hc|Hc]%elem_of_cons x Hx; [|by eapply Hin2].
  pose proof (persistable_marks _ _ _ _ Hs Hm1) as [P1 _ P3 _ _]. subst o.
  eapply in_db_marks; [done|done| |by eapply Hin1]. apply P3. eapply Hsub; [by left|done].
Qed.

(** A branch: itself and all its children. *)
Lemma persist_branch fuel cs nodes s :
  persistable s nodes → branch_of cs ∈ nodes →
  (∀ c, Some c ∈ cs → ∀ x, x ∈ tnodes c → x ∈ nodes) →
  (∀ c, Some c ∈ cs → is_Some (trieDataDB s !! (trieNodesNs :: nhash (tnode c))) → ∀ x, x ∈ tnodes c → in_db (trieDataDB s) x) →
  (∀ c, Some c ∈ cs → ∀ s, persistable s (tnodes c) → persists (persistSubtrie fuel (nhash (tnode c))) s (tnodes c)) →
  ∃ s', persistSubtrie (S fuel) (nhash (branch_of cs)) s = (s', Ok tt) ∧ marks nodes s s' ∧
    in_db (committed s') (branch_of cs) ∧ ∀ c, Some c ∈ cs → ∀ x, x ∈ tnodes c → in_db (committed s') x.
Proof using hash_inj.
  intros Hs Hb Hsub Hdb Hper. pose proof Hs as [P1 P2 P3 P4 P5].
  destruct (PersistNode_cases s nodes (branch_of cs) Hs Hb) as [[Hp Hin]|(s1 & Hp & Hm1 & Hn1)].
  - exists s. split; [cbn [persistSubtrie]; by erewrite bind_step by done|]. split; [apply marks_refl|].
    destruct (db_branch (trieDataDB s) cs P2 (P4 _ Hb) Hin) as [Hbr Hall].
    { intros i c Hi. apply Hdb. by apply list_elem_of_lookup_2 in Hi. }
    split; [apply db_committed; try done; by apply P3|]. intros c [i Hi]%list_elem_of_lookup x Hx.
    apply db_committed; [done| |by apply (Hall i c)]. apply P3. eapply Hsub; [by apply list_elem_of_lookup_2 in Hi|done].
  - assert (Hs1 : persistable s1 nodes) by (by eapply persistable_marks).
    destruct (persistAll_ok (persistSubtrie fuel) nodes cs Hsub Hper s1 Hs1) as (s2 & Hs2 & Hm2 & Hin2).
    assert (Hget1 : GetNode s1 (nhash (branch_of cs)) = Ok (branch_of cs)) by (by apply Hs1).
    exists s2. split_and!; [|by eapply marks_trans| |done].
    + cbn [persistSubtrie]. erewrite bind_step by done. cbn [negb]. erewrite bind_step by (by rewrite Hget1).
      unfold branch_of at 1. cbn [BN_Children BN_ValuePtr]. by erewrite bind_step by done.
    + eapply (in_db_marks nodes s1); [apply Hs1|done|done|]. split; [done|]. intros v Hv. by apply not_elem_of_nil in Hv.
Qed.

Lemma persistSubtrie_ok n t : wf n t → ∀ fuel s,
  (2 * n + 1 ≤ fuel)%nat → persistable s (tnodes t) →
  persists (persistSubtrie fuel (nhash (tnode t))) s (tnodes t).
Proof using hash_inj.
  intros Ht. pose proof Ht as Hwf. induction Ht as [k vp d Hk Hvp|n p cs Hp Hl Hc IH Htwo]; intros fuel s Hfuel Hs;
    (destruct fuel as [|fuel]; [lia|]); pose proof Hs as [P1 P2 P3 P4 P5].
  - assert (Hin : tnode (TLeaf k vp d) ∈ tnodes (TLeaf k vp d)) by apply tnode_in.
    destruct (PersistNode_cases s _ _ Hs Hin) as [[Hp Hdb]|(s1 & Hp & Hm1 & Hn1)].
    + exists s. split; [cbn [persistSubtrie]; by erewrite bind_step by done|]. split; [apply marks_refl|].
      intros x Hx. apply db_committed; [done|by apply P3|]. by eapply db_tree.
    + assert (Hs1 : persistable s1 (tnodes (TLeaf k vp d))) by (by eapply persistable_marks).
      destruct (PersistValue_ok s1 _ (tnode (TLeaf k vp d)) vp Hs1 Hin ltac:(by left)) as (s2 & r & Hpv & Hm2 & Hv2).
      exists s2. split; [|split; [by eapply marks_trans|]].
      * cbn [persistSubtrie]. erewrite bind_step by done. cbn [negb].
        erewrite bind_step by (by rewrite (pe_stored _ _ Hs1 _ Hin)). cbn [tnode VN_ValuePtr]. by erewrite bind_step by done.
      * intros x ->%list_elem_of_singleton. split; [|by intros v ->%list_elem_of_singleton].
        eapply (node_in_marks _ s1); [apply Hs1|done|by apply Hs1|done].
  - assert (Hbranch : ∀ fuel', (2 * n + 2 ≤ fuel')%nat → ∀ s, persistable s (tnodes (TNode p cs)) →
      ∃ s', persistSubtrie fuel' (nhash (branch_of cs)) s = (s', Ok tt) ∧ marks (tnodes (TNode p cs)) s s' ∧
        in_db (committed s') (branch_of cs) ∧ ∀ c, Some c ∈ cs → ∀ x, x ∈ tnodes c → in_db (committed s') x).
    { intros [|fuel'] Hf s0 Hs0; [lia|]. apply persist_branch; [done|apply elem_of_tnodes; auto| | |].
      - intros c [i Hi]%list_elem_of_lookup x Hx. by apply (nodes_child _ _ _ _ _ Hi).
      - intros c [i Hi]%list_elem_of_lookup Hin x Hx. eapply (db_tree _ n c); [apply Hs0|by apply (Hc i)| |done|done].
        intros m Hm. apply (pe_U _ _ Hs0). by apply (nodes_child _ _ _ _ _ Hi).
      - intros c [i Hi]%list_elem_of_lookup s1 Hs1. apply (IH i c Hi); [by apply (Hc i)|lia|done]. }
    assert (Hfinish : ∀ s', in_db (committed s') (tnode (TNode p cs)) → in_db (committed s') (branch_of cs) →
      (∀ c, Some c ∈ cs → ∀ x, x ∈ tnodes c → in_db (committed s') x) → ∀ x, x ∈ tnodes (TNode p cs) → in_db (committed s') x).
    { intros s' H1 H2 H3 x [->|[->|(i & c & Hi & Hx)]]%elem_of_tnodes; [done|done|].
      apply (H3 c); [by apply list_elem_of_lookup_2 in Hi|done]. }
    destruct (decide (p = [])) as [->|Hpn].
    + destruct (Hbranch (S fuel) ltac:(cbn in *; lia) s Hs) as (s' & Heq & Hm & Hb & Hcs). exists s'. split_and!; [done|done|].
      by apply Hfinish.
    + assert (Hin : tnode (TNode p cs) ∈ tnodes (TNode p cs)) by apply tnode_in.
      assert (Hext : tnode (TNode p cs) = Extension (mkExtensionNode p (nhash (branch_of cs)))) by (rewrite tnode_node; by rewrite bool_decide_eq_false_2).
      destruct (PersistNode_cases s _ _ Hs Hin) as [[Hpn' Hdb]|(s1 & Hpn' & Hm1 & Hn1)].
      * exists s. split; [cbn [persistSubtrie]; by erewrite bind_step by done|]. split; [apply marks_refl|].
        intros x Hx. apply db_committed; [done|by apply P3|]. by eapply db_tree.
      * assert (Hs1 : persistable s1 (tnodes (TNode p cs))) by (by eapply persistable_marks).
        destruct (Hbranch fuel ltac:(destruct p; cbn in *; [done|lia]) s1 Hs1) as (s2 & Heq & Hm2 & Hb & Hcs).
        exists s2. split; [|split; [by eapply marks_trans|]].
        -- cbn [persistSubtrie]. erewrite bind_step by done. cbn [negb].
           erewrite bind_step by (by rewrite (pe_stored _ _ Hs1 _ Hin)). by rewrite Hext.
        -- apply Hfinish; [|done|done]. split; [eapply (node_in_marks _ s1); [apply Hs1|done|by apply Hs1|done]|].
           rewrite Hext. intros v Hv. by apply not_elem_of_nil in Hv.
Qed.
End Persist.

(** ** Commit and restart *)

(** Reopening the database that the process left; the root hash is that of the header of
    the last block. *)
Definition reopen : prog (MPTrie Store) unit := fun t =>
  match Hash t with
  | Ok h =>
    match NewTrie h (openTrieStore (trieDataDB (store t))) with
    | (s, Ok r) => (mkMPTrie (Some r) s, Ok tt)
    | (s, Err e) => (mkMPTrie None s, Err e)
    | (s, Panic w) => (mkMPTrie None s, Panic w)
    end
  | Err e => (t, Err e)
  | Panic w => (t, Panic w)
  end.

(** Blocks of operations, each committed, with a restart after each. *)
Fixpoint run_blocks (depth : nat) (blockNum : Z) (blocks : list (list trie_op)) : prog (MPTrie Store) unit :=
  match blocks with
  | [] => mret tt
  | ops :: blocks => apply_ops ops;; Commit depth blockNum;; reopen;; run_blocks depth (blockNum + 1) blocks
  end.

(** The value pointers of the nodes of a tree are its entries. *)
Lemma node_value_entry n t m v :
  wf n t → m ∈ tnodes t → v ∈ node_values m → ∃ key d, nibbles key ∧ length key = n ∧ tget t key = Some (v, d).
Proof.
  intros Ht. induction Ht as [k vp d Hk Hvp|n p cs Hp Hl Hc IH Htwo]; intros Hm Hv.
  - apply list_elem_of_singleton in Hm as ->. apply list_elem_of_singleton in Hv as ->.
    exists k, d. cbn. by rewrite bool_decide_eq_true_2.
  - apply elem_of_tnodes in Hm as [->|[->|(i & c & Hi & Hm)]].
    + rewrite tnode_node in Hv. case_bool_decide; by apply not_elem_of_nil in Hv.
    + by apply not_elem_of_nil in Hv.
    + destruct (IH i c Hi Hm Hv) as (key & d & Hk & Hlk & Hget).
      assert (Hi16 : (i < 16)%nat) by (rewrite <- Hl; apply lookup_lt_is_Some; eauto).
      exists (p ++ Z.of_nat i :: key), d. rewrite tget_node_app, Nat2Z.id, Hi, length_app, nibbles_app, nibbles_cons. cbn. split_and!; (done || lia).
Qed.

Lemma root_value_entry n cs m v :
  root_wf n cs → m ∈ rnodes cs → v ∈ node_values m → ∃ key d, nibbles key ∧ length key = S n ∧ rget cs key = Some (v, d).
Proof.
  intros [Hl Hc] [->|[->|(i & c & Hi & Hm)]]%elem_of_tnodes Hv; [by apply not_elem_of_nil in Hv..|].
  destruct (node_value_entry n c m v (Hc _ _ Hi) Hm Hv) as (key & d & Hk & Hlk & Hget).
  assert (Hi16 : (i < 16)%nat) by (rewrite <- Hl; apply lookup_lt_is_Some; eauto).
  exists (Z.of_nat i :: key), d. rewrite rget_cons, Nat2Z.id, Hi, nibbles_cons. cbn. split_and!; (done || lia).
Qed.

Lemma entry_node n t key vp d : wf n t → tget t key = Some (vp, d) → ∃ m, m ∈ tnodes t ∧ vp ∈ node_values m.
Proof.
  intros Ht. revert key. induction Ht as [k vp' d' Hk Hvp|n p cs Hp Hl Hc IH Htwo]; intros key Hget.
  - cbn in Hget. case_bool_decide; [|done]. injection Hget as -> ->. eexists. split; [apply tnode_in|]. by left.
  - rewrite tget_node in Hget. destruct (strip p key) as [[|i rest]|]; try done.
    destruct (cs !! Z.to_nat i) as [[c|]|] eqn:Hi; try done. destruct (IH _ _ Hi _ Hget) as (m & Hm & Hv).
    exists m. split; [by apply (nodes_child _ _ _ _ _ Hi)|done].
Qed.

Lemma root_entry_node n cs key vp d : root_wf n cs → rget cs key = Some (vp, d) → ∃ m, m ∈ rnodes cs ∧ vp ∈ node_values m.
Proof.
  intros [_ Hc] Hget. destruct key as [|i rest]; [done|]. rewrite rget_cons in Hget.
  destruct (cs !! Z.to_nat i) as [[c|]|] eqn:Hi; try done. destruct (entry_node n c rest vp d (Hc _ _ Hi) Hget) as (m & Hm & Hv).
  exists m. split; [by apply (nodes_child _ _ _ _ _ Hi)|done].
Qed.

(** The pointers of a tree's nodes are nodes of the tree. *)
Lemma branch_child_inv cs c :
  c ∈ node_children (branch_of cs) → ∃ i t, cs !! i = Some (Some t) ∧ c = nhash (tnode t).
Proof.
  intros Hin. cbn in Hin. apply list_elem_of_filter in Hin as [Hne Hin]. apply list_elem_of_fmap in Hin as (o & -> & Ho).
  apply list_elem_of_lookup in Ho as [i Hi]. destruct o as [t|]; [by exists i, t|done].
Qed.

Lemma node_child_in p cs m c :
  (∀ i t, cs !! i = Some (Some t) → m ∈ tnodes t → ∃ m', m' ∈ tnodes t ∧ c = nhash m') →
  m ∈ tnodes (TNode p cs) → c ∈ node_children m → ∃ m', m' ∈ tnodes (TNode p cs) ∧ c = nhash m'.
Proof.
  intros IH Hm Hc.
  assert (Hbr : c ∈ node_children (branch_of cs) → ∃ m', m' ∈ tnodes (TNode p cs) ∧ c = nhash m').
  { intros (i & t & Hi & ->)%branch_child_inv. exists (tnode t). split; [|done]. apply (nodes_child _ _ _ _ _ Hi), tnode_in. }
  apply elem_of_tnodes in Hm as [->|[->|(i & t & Hi & Hm)]].
  - rewrite tnode_node in Hc. case_bool_decide; [by apply Hbr|]. apply list_elem_of_singleton in Hc as ->.
    exists (branch_of cs). split; [apply elem_of_tnodes; auto|done].
  - by apply Hbr.
  - destruct (IH i t Hi Hm) as (m' & Hm' & ->). exists m'. split; [by apply (nodes_child _ _ _ _ _ Hi)|done].
Qed.

Lemma tree_child_in n t m c : wf n t → m ∈ tnodes t → c ∈ node_children m → ∃ m', m' ∈ tnodes t ∧ c = nhash m'.
Proof.
  intros Ht. induction Ht as [k vp d Hk Hvp|n p cs Hp Hl Hc IH Htwo]; intros Hm Hin.
  - apply list_elem_of_singleton in Hm as ->. by apply not_elem_of_nil in Hin.
  - apply (node_child_in p cs m c); [|done..]. intros i t Hi Hm'. by apply (IH i t).
Qed.

Lemma root_child_in n cs m c : root_wf n cs → m ∈ rnodes cs → c ∈ node_children m → ∃ m', m' ∈ rnodes cs ∧ c = nhash m'.
Proof. intros [_ Hc] Hm Hin. apply (node_child_in [] cs m c); [|done..]. intros i t Hi Hm'. by apply (tree_child_in n t m c (Hc _ _ Hi)). Qed.

Section Blocks.
Context {nm : NodesMarshal}.
Context (L : nat) (ops : list trie_op) (U : TrieNode → Prop).
Hypothesis hash_inj : ∀ m m', U m → U m' → nhash m = nhash m' → m = m'.
Hypothesis values_distinct : collision_free (value_messages ops).
Hypothesis L_pos : (0 < L)%nat.
Hypothesis keys_ok : ops_ok L ops.

Record durable (t : MPTrie Store) (done : list trie_op) : Prop := {
  du_db : db_ok U (trieDataDB (store t));
  du_nodes : nodesToPersist (store t) = ∅;
  du_values : valuesToPersist (store t) = ∅;
  du_from : ∀ vp b, trieDataDB (store t) !! (trieValueNs :: vp) = Some b →
    ∃ key, OpUpdate key b ∈ done ∧ vp = CalculateKeyValueHash key b;
}.

Lemma holds_persistable t cs done :
  holds L U t cs done → durable t done → persistable U (store t) (rnodes cs).
Proof using L_pos.
  intros [Hroot Hwf Hcon Hst Hent] [Hdb Hn Hv _]. split; try done.
  - unfold marked_in_memory. rewrite Hn, Hv. split; intros p b Hp; by rewrite lookup_empty in Hp.
  - intros m Hm. by apply (Hcon (nhash m)), Hst.
  - intros m v Hm Hval. destruct (root_value_entry _ _ _ _ Hwf Hm Hval) as (hex & d & Hnib & Hlen & Hget).
    destruct (convertByteToHex_surj L hex Hnib ltac:(lia)) as (key & Hb & Hlk & <-).
    destruct (Hent key v d) as (w & _ & _ & ->); done.
Qed.

(** The value of an entry, from the nodes of the trie. *)
Lemma holds_value t cs done m v :
  holds L U t cs done → m ∈ rnodes cs → v ∈ node_values m →
  ∃ key w, OpUpdate key w ∈ done ∧ v = CalculateKeyValueHash key w ∧ GetValue (store t) v = Ok w.
Proof using L_pos.
  intros [Hroot Hwf Hcon Hst Hent] Hm Hval. destruct (root_value_entry _ _ _ _ Hwf Hm Hval) as (hex & d & Hnib & Hlen & Hget).
  destruct (convertByteToHex_surj L hex Hnib ltac:(lia)) as (key & Hb & Hlk & <-).
  destruct (Hent key v d) as (w & H1 & H2 & H3); [done|done|]. by exists key, w.
Qed.

(** Where the entries of the database after a commit come from. *)
Lemma committed_node_from s nodes s1 p b :
  persistable U s nodes → nodesToPersist s = ∅ → marks nodes s s1 → committed s1 !! (trieNodesNs :: p) = Some b →
  (∃ m, m ∈ nodes ∧ p = nhash m ∧ decodeNode b = Ok m) ∨
  (nodesToPersist s1 !! p = None ∧ trieDataDB s !! (trieNodesNs :: p) = Some b).
Proof using.
  intros [P1 P2 P3 P4 P5] Hn [A1 A2 A3 A4 A5 A6 A7] Hb. rewrite committed_node, A1 in Hb.
  destruct (nodesToPersist s1 !! p) as [b'|] eqn:E; [|by right]. injection Hb as ->. left.
  destruct (A6 _ _ E) as [E'|(Hmem & m & Hm & ->)]; [by rewrite Hn, lookup_empty in E'|].
  exists m. split_and!; [done..|]. specialize (P3 m Hm). rewrite (GetNode_memory s) in P3 by done. by rewrite Hmem in P3.
Qed.

Lemma committed_value_from s nodes s1 v b :
  persistable U s nodes → valuesToPersist s = ∅ → marks nodes s s1 → committed s1 !! (trieValueNs :: v) = Some b →
  (∃ m, m ∈ nodes ∧ v ∈ node_values m ∧ GetValue s v = Ok b) ∨ trieDataDB s !! (trieValueNs :: v) = Some b.
Proof using.
  intros [P1 P2 P3 P4 P5] Hn [A1 A2 A3 A4 A5 A6 A7] Hb. rewrite committed_value, A1 in Hb.
  destruct (valuesToPersist s1 !! v) as [b'|] eqn:E; [|by right]. injection Hb as ->. left.
  destruct (A7 _ _ E) as [E'|(Hmem & m & Hm & Hv)]; [by rewrite Hn, lookup_empty in E'|].
  exists m. split_and!; [done..|]. rewrite (GetValue_memory s) by done. by rewrite Hmem.
Qed.

Lemma committed_db_ok s s1 n cs :
  persistable U s (rnodes cs) → nodesToPersist s = ∅ → marks (rnodes cs) s s1 → root_wf n cs →
  (∀ x, x ∈ rnodes cs → in_db (committed s1) x) → db_ok U (committed s1).
Proof using.
  intros Hp Hn Hm Hwf Hall p b Hb. pose proof Hp as [P1 P2 P3 P4 P5].
  destruct (committed_node_from s _ s1 p b Hp Hn Hm Hb) as [(m & Hin & -> & Hd)|[Hnone Hold]].
  - exists m. split_and!; [done|by apply P4|done|by apply Hall|]. intros c Hc.
    destruct (root_child_in n cs m c Hwf Hin Hc) as (m' & Hm' & ->). destruct (Hall m' Hm') as [(b' & Hb' & _) _]. by exists b'.
  - destruct (P2 _ _ Hold) as (m & Hd & HU & -> & [_ Hv] & Hc). exists m. split_and!; try done.
    + split; [by exists b|]. intros v Hin. rewrite committed_value, (mk_db _ _ _ Hm).
      destruct (valuesToPersist s1 !! v); [by eexists|by apply Hv].
    + intros c Hin. rewrite committed_node, (mk_db _ _ _ Hm). destruct (nodesToPersist s1 !! c); [by eexists|by apply Hc].
Qed.

(** The marker of the last block is none of the entries. *)
Lemma in_db_marker db b x : in_db db x → in_db (<[lastBlockNs := b]> db) x.
Proof using.
  intros [(y & Hy & Hd) Hv]. split.
  - exists y. by rewrite lookup_insert_ne.
  - intros v Hin. rewrite lookup_insert_ne by done. by apply Hv.
Qed.

Lemma db_ok_marker db b : db_ok U db → db_ok U (<[lastBlockNs := b]> db).
Proof using.
  intros Hdb p y Hy. rewrite lookup_insert_ne in Hy by done. destruct (Hdb _ _ Hy) as (m & H1 & H2 & H3 & H4 & H5).
  exists m. split_and!; [done..|by apply in_db_marker|]. intros c Hc. rewrite lookup_insert_ne by done. by apply H5.
Qed.

(** A store that was just opened reads its database. *)
Lemma open_GetNode db p :
  GetNode (openTrieStore db) p = match db !! (trieNodesNs :: p) with Some b => decodeNode b | None => Err (PlainErr "leveldb: not found") end.
Proof using.
  rewrite GetNode_memory; [by cbn [inMemoryNodes trieDataDB openTrieStore]; rewrite lookup_empty|].
  split; intros q b Hq; cbn [nodesToPersist valuesToPersist openTrieStore] in Hq; by rewrite lookup_empty in Hq.
Qed.

Lemma open_GetValue db p :
  GetValue (openTrieStore db) p = match db !! (trieValueNs :: p) with Some b => Ok b | None => Err (PlainErr "leveldb: not found") end.
Proof using.
  rewrite GetValue_memory; [by cbn [inMemoryValues trieDataDB openTrieStore]; rewrite lookup_empty|].
  split; intros q b Hq; cbn [nodesToPersist valuesToPersist openTrieStore] in Hq; by rewrite lookup_empty in Hq.
Qed.

(** A commit puts the whole trie in the database and empties the memory. *)
Lemma Commit_durable t cs done depth blockNum :
  holds L U t cs done → durable t done → (4 * L ≤ depth)%nat → (∀ op, op ∈ done → op ∈ ops) →
  ∃ db dis, Commit depth blockNum t = (mkMPTrie (Some (branch_of cs)) (mkTrieStore dis db ∅ ∅ ∅ ∅), Ok tt) ∧
    holds L U (mkMPTrie (Some (branch_of cs)) (openTrieStore db)) cs done ∧
    durable (mkMPTrie (Some (branch_of cs)) (openTrieStore db)) done.
Proof using hash_inj values_distinct L_pos keys_ok.
  intros Hh Hdu Hdepth Hsub. pose proof (holds_persistable t cs done Hh Hdu) as Hp. pose proof Hh as Hh0.
  destruct Hh as [Hroot Hwf Hcon Hst Hent], Hdu as [Hdb Hn Hv Hfrom]. pose proof Hp as [P1 P2 P3 P4 P5].
  destruct depth as [|fuel]; [lia|]. pose proof Hwf as [Hl Hc].
  destruct (persist_branch U hash_inj fuel cs (rnodes cs) (store t) Hp) as (s1 & Hper & Hm & Hbr & Hcs).
  { apply elem_of_tnodes. auto. }
  { intros c [i Hi]%list_elem_of_lookup x Hx. by apply (nodes_child _ _ _ _ _ Hi). }
  { intros c [i Hi]%list_elem_of_lookup Hin x Hx. eapply (db_tree U hash_inj _ (2 * L - 1) c); [done|by apply (Hc i)| |done|done].
    intros m Hm. apply P4. by apply (nodes_child _ _ _ _ _ Hi). }
  { intros c [i Hi]%list_elem_of_lookup s0 Hs0. apply (persistSubtrie_ok U hash_inj (2 * L - 1)); [by apply (Hc i)|lia|done]. }
  assert (Hall : ∀ x, x ∈ rnodes cs → in_db (committed s1) x).
  { intros x [->|[->|(i & c & Hi & Hx)]]%elem_of_tnodes; [done..|]. apply (Hcs c); [by apply list_elem_of_lookup_2 in Hi|done]. }
  assert (Hfrom' : ∀ vp b, committed s1 !! (trieValueNs :: vp) = Some b → ∃ key, OpUpdate key b ∈ done ∧ vp = CalculateKeyValueHash key b).
  { intros vp b Hb. destruct (committed_value_from _ _ s1 vp b Hp Hv Hm Hb) as [(m & Hin & Hval & Hget)|Hold]; [|by apply Hfrom].
    destruct (holds_value t cs done m vp Hh0 Hin Hval) as (key & w & Hw & -> & Hget'). rewrite Hget in Hget'.
    injection Hget' as ->. by exists key. }
  pose proof (db_ok_marker _ (PutUint64 8 blockNum) (committed_db_ok _ s1 _ cs Hp Hn Hm Hwf Hall)) as Hok.
  set (db := <[lastBlockNs := PutUint64 8 blockNum]> (committed s1)) in *.
  assert (Hfrom2 : ∀ vp b, db !! (trieValueNs :: vp) = Some b → ∃ key, OpUpdate key b ∈ done ∧ vp = CalculateKeyValueHash key b).
  { intros vp b Hb. apply Hfrom'. unfold db in Hb. by rewrite lookup_insert_ne in Hb. }
  assert (Hhash : Hash t = Ok (nhash (branch_of cs))) by (unfold Hash; by rewrite Hroot).
  exists db, (disabled s1). split_and!.
  - unfold Commit. erewrite bind_step by (by rewrite Hhash). unfold on_store.
    erewrite bind_step by (by rewrite Hper). cbn [store root]. by rewrite Hroot.
  - split; cbn [root store]; [done|done| | |].
    + intros p m. rewrite open_GetNode. destruct (db !! (trieNodesNs :: p)) as [b|] eqn:E; [|done]. intros Hd.
      destruct (Hok _ _ E) as (m' & Hd' & HU & -> & _). rewrite Hd in Hd'. by injection Hd' as ->.
    + intros m Hm'. rewrite open_GetNode.
      destruct (in_db_marker _ (PutUint64 8 blockNum) _ (Hall m Hm')) as [(b & Hb & Hd) _]. fold db in Hb. by rewrite Hb.
    + intros key vp d Hkey Hget. destruct (Hent key vp d Hkey Hget) as (w & Hw & -> & Hgw). exists w. split_and!; [done|done|].
      destruct (root_entry_node _ _ _ _ _ Hwf Hget) as (m & Hm' & Hval).
      destruct (in_db_marker _ (PutUint64 8 blockNum) _ (Hall m Hm')) as [_ Hsome]. destruct (Hsome _ Hval) as [b Hb]. fold db in Hb.
      rewrite open_GetValue, Hb.
      destruct (Hfrom2 _ _ Hb) as (key' & Hb' & Heq).
      by destruct (value_ptr_inj L ops values_distinct keys_ok _ _ _ _ (Hsub _ Hw) (Hsub _ Hb') Heq) as [_ ->].
  - done.
Qed.

Lemma reopen_ok cs done dis db :
  holds L U (mkMPTrie (Some (branch_of cs)) (openTrieStore db)) cs done →
  reopen (mkMPTrie (Some (branch_of cs)) (mkTrieStore dis db ∅ ∅ ∅ ∅)) =
    (mkMPTrie (Some (branch_of cs)) (openTrieStore db), Ok tt).
Proof using.
  intros [_ _ _ Hst _]. unfold reopen. change (Hash _) with (Ok (nhash (branch_of cs))). cbn [store trieDataDB].
  unfold NewTrie. rewrite bool_decide_eq_false_2 by apply nhash_not_nil.
  cbn [store] in Hst. by rewrite (Hst (branch_of cs) (tnode_in (TNode [] cs))).
Qed.

Lemma run_nodes_app cs a b m :
  m ∈ run_nodes cs a ∨ m ∈ run_nodes (foldl tree_op cs a) b → m ∈ run_nodes cs (a ++ b).
Proof using.
  revert cs. induction a as [|op a IH]; intros cs Hm.
  - cbn [app foldl] in *. destruct Hm as [Hm|]; [|done]. cbn [run_nodes] in Hm. rewrite app_nil_r in Hm.
    destruct b; by apply elem_of_app; left.
  - cbn [app foldl] in *. apply elem_of_app. destruct Hm as [[Hm|Hm]%elem_of_app|Hm]; [by left|right; apply IH; auto..].
Qed.

Lemma durable_apply done op_list t t' :
  durable t done → apply_ops op_list t = (t', Ok tt) → durable t' (done ++ op_list).
Proof using.
  intros [Hdb Hn Hv Hfrom] Ht. pose proof (frame_apply_ops op_list t) as (F1 & F2 & F3). rewrite Ht in F1, F2, F3. cbn in F1, F2, F3.
  split; [by rewrite F1|by rewrite F2|by rewrite F3|]. intros vp b. rewrite F1. intros (key & Hk & ->)%Hfrom.
  exists key. split; [apply elem_of_app; by left|done].
Qed.

Lemma run_blocks_ok depth blocks : (4 * L ≤ depth)%nat → ∀ t cs done blockNum,
  holds L U t cs done → durable t done → (∀ op, op ∈ done ++ List.concat blocks → op ∈ ops) →
  (∀ m, m ∈ run_nodes cs (List.concat blocks) → U m) →
  ∃ t', run_blocks depth blockNum blocks t = (t', Ok tt) ∧
    holds L U t' (foldl tree_op cs (List.concat blocks)) (done ++ List.concat blocks).
Proof using hash_inj values_distinct L_pos keys_ok nm.
  intros Hdepth. induction blocks as [|b blocks IH]; intros t cs done blockNum Hh Hdu Hsub HU.
  { exists t. cbn [List.concat foldl]. by rewrite app_nil_r. }
  cbn [List.concat] in *.
  destruct (apply_ops_ok L ops U hash_inj values_distinct L_pos keys_ok b t cs done Hh) as (t1 & Ht1 & Hh1).
  { intros op Hop. apply Hsub. set_solver. }
  { intros m Hm. apply HU, run_nodes_app. by left. }
  destruct (Commit_durable t1 _ _ depth blockNum Hh1 (durable_apply _ _ _ _ Hdu Ht1) Hdepth) as (db & dis & Hc & Hh2 & Hdu2).
  { intros op Hop. apply Hsub. set_solver. }
  destruct (IH _ _ _ (blockNum + 1) Hh2 Hdu2) as (t' & Ht' & Hh').
  { intros op Hop. apply Hsub. set_solver. }
  { intros m Hm. apply HU, run_nodes_app. by right. }
  exists t'. rewrite foldl_app, app_assoc. split; [|done]. cbn [run_blocks].
  erewrite bind_step by done. erewrite bind_step by done. erewrite bind_step by (by eapply reopen_ok). done.
Qed.
End Blocks.

(** A new database, and blocks with a restart after each. *)
Definition run_restarting (depth : nat) (blockNum : Z) (blocks : list (list trie_op)) : MPTrie Store * res unit :=
  match NewTrie [] (openTrieStore ∅) with
  | (s, Ok r) => run_blocks depth blockNum blocks (mkMPTrie (Some r) s)
  | (s, Err e) => (mkMPTrie None s, Err e)
  | (s, Panic w) => (mkMPTrie None s, Panic w)
  end.

Lemma open_empty : empty_store (openTrieStore ∅).
Proof. intros p m. cbn. unfold store_GetNode, lookup3. cbn. by rewrite !lookup_empty. Qed.

(** C27: commits are durable: blocks of operations on a new trie, with a commit and a
    restart from the database after each block, give the same root hash and the same
    value of every key as the operations without commits and restarts. *)
Theorem trie_survives_restarts `{nm : !NodesMarshal} L blocks depth blockNum :
  (0 < L)%nat → ops_ok L (List.concat blocks) → nodes_distinct (run_nodes no_trees (List.concat blocks)) →
  collision_free (value_messages (List.concat blocks)) → (4 * L ≤ depth)%nat →
  ∃ t t0 h, run_restarting depth blockNum blocks = (t, Ok tt) ∧
    build (openTrieStore ∅) (List.concat blocks) = (t0, Ok tt) ∧ Hash t = Ok h ∧ Hash t0 = Ok h ∧
    ∀ key, key_ok L key → Get t key = Get t0 key.
Proof.
  intros HL Hok Hinj Hcf Hdepth. set (ops := List.concat blocks) in *. set (U := fun m => m ∈ run_nodes no_trees ops).
  destruct (build_ok L ops (openTrieStore ∅) HL Hok open_empty Hinj Hcf) as (t0 & Ht0 & Hh0).
  assert (Hnew : ∃ s, NewTrie [] (openTrieStore ∅) = (s, Ok (branch_of no_trees)) ∧
    holds L U (mkMPTrie (Some (branch_of no_trees)) s) no_trees [] ∧ durable U (mkMPTrie (Some (branch_of no_trees)) s) []).
  { assert (HU : ∀ m, m ∈ rnodes no_trees → U m) by (intros m Hm; unfold U; destruct ops; by apply elem_of_app; left).
    destruct (NewTrie_ok L U Hinj (openTrieStore ∅) open_empty HU) as (s & Hs & Hh). exists s. split_and!; [done..|].
    assert (Hf : framed (NewTrie (St := Store) [])) by (unfold NewTrie; framed).
    destruct (Hf (openTrieStore ∅)) as (F1 & F2 & F3). rewrite Hs in F1, F2, F3. cbn [fst openTrieStore trieDataDB nodesToPersist valuesToPersist] in F1, F2, F3.
    split; cbn [store]; [|done|done|]; rewrite F1; intros p b Hp; by rewrite lookup_empty in Hp. }
  destruct Hnew as (s & Hnew & Hh & Hdu).
  destruct (run_blocks_ok L ops U Hinj Hcf HL Hok depth blocks Hdepth _ _ _ blockNum Hh Hdu) as (t & Ht & Hht); [done|done|].
  exists t, t0, (nhash (branch_of (tree_run ops))). split_and!; [unfold run_restarting; by rewrite Hnew|done| | |].
  - unfold Hash. by rewrite (ho_root _ _ _ _ _ Hht).
  - unfold Hash. by rewrite (ho_root _ _ _ _ _ Hh0).
  - intros key Hkey. cbn [app] in Hht. fold ops in Hht.
    pose proof (getNode_ok L U HL _ _ _ key Hht Hkey) as H1. pose proof (getNode_ok L _ HL _ _ _ key Hh0 Hkey) as H2.
    unfold Get. change (foldl tree_op no_trees ops) with (tree_run ops) in *.
    destruct (rget (tree_run ops) (convertByteToHex key)) as [[vp d]|] eqn:E; [|by rewrite H1, H2].
    destruct H1 as [k1 ->], H2 as [k2 ->]. cbn [mbind res_bind isDeleted VN_Deleted getValuePtr VN_ValuePtr]. destruct d; [done|].
    destruct (ho_entries _ _ _ _ _ Hht key vp false Hkey E) as (v & Hv & -> & ->).
    destruct (ho_entries _ _ _ _ _ Hh0 key _ false Hkey E) as (w & Hw & Heq & ->).
    by destruct (value_ptr_inj L ops Hcf Hok _ _ _ _ Hv Hw Heq) as [_ ->].
Qed.
End Durability.
