(* ===== verification/TrieExample.v ===== *)
(** * A small trie

    A wire format for the nodes, a trie with keys of one byte, and what goes wrong
    when keys are deleted. *)

From S2P Require Import Prelude Crypto Types MPTrie TrieTree TrieRefinement TrieProofs TrieStore TrieDurability.
Open Scope Z_scope.

Module TrieExample.

(** Byte strings, each behind its length. *)
Definition pack (l : list bytes) : bytes := l ≫= fun b => Z.of_nat (length b) :: b.

Fixpoint unpack (fuel : nat) (b : bytes) : list bytes :=
  match fuel, b with
  | S fuel, n :: rest => take (Z.to_nat n) rest :: unpack fuel (drop (Z.to_nat n) rest)
  | _, _ => []
  end.

Lemma unpack_pack l fuel : (length l ≤ fuel)%nat → unpack fuel (pack l) = l.
Proof.
  revert fuel. induction l as [|b l IH]; intros fuel Hf; [by destruct fuel|].
  destruct fuel as [|fuel]; [cbn in Hf; lia|]. unfold pack. cbn. fold (pack l).
  rewrite Nat2Z.id, take_app_length, drop_app_length. f_equal. apply IH. cbn in Hf. lia.
Qed.

Lemma pack_length l : (length l ≤ length (pack l))%nat.
Proof. induction l as [|b l IH]; [done|]. unfold pack. cbn. fold (pack l). rewrite length_app. lia. Qed.

Definition flag (b : bool) : bytes := if b then [1] else [].

Program Definition pack_codec {A} (fields : A → list bytes) (make : list bytes → option A)
    (H : ∀ a, make (fields a) = Some a) : Codec A := {|
  Marshal a := Ok (pack (fields a));
  Unmarshal b := match make (unpack (length b) b) with Some a => Ok a | None => Err (PlainErr "malformed node") end;
|}.
Next Obligation. intros A fields make H a b [= <-]. cbn. by rewrite unpack_pack, H by apply pack_length. Qed.

Definition branch_make (l : list bytes) : option BranchNode :=
  match l with d :: vp :: cs => Some (mkBranchNode cs vp (bool_decide (d = [1]))) | _ => None end.
Definition extension_make (l : list bytes) : option ExtensionNode :=
  match l with [k; c] => Some (mkExtensionNode k c) | _ => None end.
Definition value_make (l : list bytes) : option ValueNode :=
  match l with [k; vp; d] => Some (mkValueNode k vp (bool_decide (d = [1]))) | _ => None end.

Lemma branch_made n : branch_make (flag (BN_Deleted n) :: BN_ValuePtr n :: BN_Children n) = Some n.
Proof. by destruct n as [cs vp []]. Qed.
Lemma extension_made n : extension_make [EN_Key n; EN_Child n] = Some n.
Proof. by destruct n. Qed.
Lemma value_made n : value_make [VN_Key n; VN_ValuePtr n; flag (VN_Deleted n)] = Some n.
Proof. by destruct n as [k vp []]. Qed.

#[export] Instance branch_codec : Codec BranchNode := pack_codec _ branch_make branch_made.
#[export] Instance extension_codec : Codec ExtensionNode := pack_codec _ extension_make extension_made.
#[export] Instance value_codec : Codec ValueNode := pack_codec _ value_make value_made.

#[export] Instance nodes_marshal : NodesMarshal.
Proof. done. Qed.

(** The hypotheses on hashes, decided. *)
Definition nodes_distinctb (nodes : list TrieNode) : bool :=
  let hashed := (fun m => (nhash m, m)) <$> nodes in
  forallb (fun x => forallb (fun y => implb (bool_decide (x.1 = y.1)) (bool_decide (x.2 = y.2))) hashed) hashed.

Lemma nodes_distinctb_ok nodes : nodes_distinctb nodes = true → nodes_distinct nodes.
Proof.
  unfold nodes_distinctb. intros Hb m m' Hm Hm' Heq. rewrite forallb_forall in Hb.
  assert (Hin : ∀ x, x ∈ nodes → In (nhash x, x) ((fun m => (nhash m, m)) <$> nodes)).
  { intros x Hx. apply list_elem_of_In, list_elem_of_fmap. by exists x. }
  specialize (Hb _ (Hin m Hm)). rewrite forallb_forall in Hb. specialize (Hb _ (Hin m' Hm')). cbn in Hb.
  rewrite bool_decide_eq_true_2 in Hb by done. by apply bool_decide_eq_true in Hb.
Qed.

Definition key_okb (L : nat) (key : bytes) : bool :=
  bool_decide (length key = L) && forallb (fun v => (0 <=? v) && (v <? 256)) key.

Lemma key_okb_ok L key : key_okb L key = true → key_ok L key.
Proof.
  unfold key_okb. intros [Hl%bool_decide_eq_true Hk]%andb_true_iff. split; [|done]. apply Forall_forall.
  intros v Hv. rewrite forallb_forall in Hk. specialize (Hk v (proj1 (list_elem_of_In _ _) Hv)). lia.
Qed.

Lemma ops_okb_ok L ops : forallb (fun op => key_okb L (op_key op)) ops = true → ops_ok L ops.
Proof.
  intros Hb op Hop. rewrite forallb_forall in Hb. apply key_okb_ok, Hb. by apply list_elem_of_In.
Qed.

(** Two keys that share a nibble, and a third one. *)
Definition ops : list trie_op := [OpUpdate [0x12] [7]; OpUpdate [0x13] [8]; OpUpdate [0x21] [9]].
Definition ops' : list trie_op := [OpUpdate [0x21] [9]; OpUpdate [0x13] [8]; OpUpdate [0x12] [7]].

Lemma ops_keys : ops_ok 1 ops.
Proof. apply ops_okb_ok. reflexivity. Qed.
Lemma ops'_keys : ops_ok 1 ops'.
Proof. apply ops_okb_ok. reflexivity. Qed.
Lemma ops_nodes : nodes_distinct (run_nodes no_trees ops).
Proof. apply nodes_distinctb_ok. vm_compute. reflexivity. Qed.
Lemma ops'_nodes : nodes_distinct (run_nodes no_trees ops').
Proof. apply nodes_distinctb_ok. vm_compute. reflexivity. Qed.
Lemma ops_values : collision_free (value_messages ops).
Proof. apply collision_freeb_ok. vm_compute. reflexivity. Qed.
Lemma ops'_values : collision_free (value_messages ops').
Proof. apply collision_freeb_ok. vm_compute. reflexivity. Qed.
Lemma key12 : key_ok 1 [0x12].
Proof. apply key_okb_ok. reflexivity. Qed.

Lemma trie_lookup_witness :
  ∃ t, build (openTrieStore ∅) ops = (t, Ok tt) ∧ Get t [0x12] = Ok (Some [7]).
Proof.
  destruct (trie_lookup 1 ops (openTrieStore ∅) ltac:(lia) ops_keys open_empty ops_nodes ops_values) as (t & Ht & Hget).
  exists t. split; [exact Ht|]. exact (proj1 (Hget [0x12] key12) [7] eq_refl).
Defined.

Lemma trie_proof_complete_witness :
  ∃ t h path, build (openTrieStore ∅) ops = (t, Ok tt) ∧ GetProof t [0x12] false = Ok (Some path) ∧
    Verify path (CalculateKeyValueHash [0x12] [7]) h false = Ok true.
Proof.
  destruct (trie_proof_complete 1 ops (openTrieStore ∅) ltac:(lia) ops_keys open_empty ops_nodes ops_values) as (t & h & Ht & _ & Hp).
  destruct (proj1 (Hp [0x12] key12) [7] eq_refl) as (path & H1 & H2). exists t, h, path. exact (conj Ht (conj H1 H2)).
Defined.

Lemma ops_same key : key_ok 1 key → live ops key = live ops' key.
Proof. intros _. cbn. repeat case_bool_decide; subst; done. Qed.

Lemma trie_root_canonical_witness :
  ∃ t t' h, build (openTrieStore ∅) ops = (t, Ok tt) ∧ build (openTrieStore ∅) ops' = (t', Ok tt) ∧ Hash t = Ok h ∧ Hash t' = Ok h.
Proof.
  exact (trie_root_canonical 1 ops ops' (openTrieStore ∅) (openTrieStore ∅) ltac:(lia) ops_keys ops'_keys open_empty open_empty
    ops_nodes ops'_nodes ops_values ops'_values ltac:(repeat constructor) ltac:(repeat constructor) ops_same).
Defined.

Lemma trie_survives_restarts_witness :
  ∃ t t0 h, run_restarting 4 1 [[OpUpdate [0x12] [7]; OpUpdate [0x13] [8]]; [OpUpdate [0x21] [9]]] = (t, Ok tt) ∧
    build (openTrieStore ∅) ops = (t0, Ok tt) ∧ Hash t = Ok h ∧ Hash t0 = Ok h ∧
    ∀ key, key_ok 1 key → Get t key = Get t0 key.
Proof.
  exact (trie_survives_restarts 1 [[OpUpdate [0x12] [7]; OpUpdate [0x13] [8]]; [OpUpdate [0x21] [9]]] 4 1 ltac:(lia)
    ops_keys ops_nodes ops_values ltac:(lia)).
Defined.

(** The node of a key [0x12] with its value pointer, and the proof cut around the nibble 1. *)
Definition forged_root : bytes := CalcHash [[1; 2]; [5; 6]].

Lemma deletion_proof_forgeable_witness :
  Verify [[[]; KeyDeleteMarkerBytes; [2]; [5; 6]]] [5; 6] forged_root true = Ok true.
Proof.
  exact (deletion_proof_forgeable [] [] [2] [[5; 6]] [] [5; 6] forged_root ltac:(vm_compute; reflexivity) ltac:(by left)).
Defined.

(** A deleted key and one next to it. *)
Definition delete_ops : list trie_op := [OpUpdate [0x12] [7]; OpDelete [0x12]; OpUpdate [0x13] [8]].

Definition comes_back (x : MPTrie Store * res unit) : bool :=
  let t := x.1 in
  bool_decide (x.2 = Ok tt) && bool_decide (Get t [0x12] = Ok (Some [7])) &&
  match Hash t, GetProof t [0x12] false with
  | Ok h, Ok (Some path) => bool_decide (Verify path (CalculateKeyValueHash [0x12] [7]) h false = Ok true)
  | _, _ => false
  end && bool_decide (GetProof t [0x12] true = Ok None).

(** A deletion does not last: the update of another key that shares a nibble with a
    deleted one splits its leaf, and the new leaf is written without the mark of the
    deletion, so that the deleted value is found again, with a valid proof. *)
Theorem deleted_key_comes_back :
  live delete_ops [0x12] = None ∧ ∃ t h path, build (openTrieStore ∅) delete_ops = (t, Ok tt) ∧
    Get t [0x12] = Ok (Some [7]) ∧ Hash t = Ok h ∧ GetProof t [0x12] false = Ok (Some path) ∧
    Verify path (CalculateKeyValueHash [0x12] [7]) h false = Ok true ∧ GetProof t [0x12] true = Ok None.
Proof.
  split; [reflexivity|].
  assert (Hb : comes_back (build (openTrieStore ∅) delete_ops) = true) by (vm_compute; reflexivity).
  destruct (build (openTrieStore ∅) delete_ops) as [t r]. unfold comes_back in Hb. cbn [fst snd] in Hb.
  apply andb_true_iff in Hb as [[[H1 H2]%andb_true_iff H3]%andb_true_iff H4]. apply bool_decide_eq_true in H1, H2, H4.
  destruct (Hash t) as [h| |] eqn:Eh; [|discriminate..].
  destruct (GetProof t [0x12] false) as [[path|]| |] eqn:Ep; [|discriminate..].
  apply bool_decide_eq_true in H3. exists t, h, path. rewrite H1. split_and!; (reflexivity || assumption).
Qed.

(** A lookup of a key that is a prefix of another one finds the value of that one: the
    trie is for keys of one length, as the composite keys of the world state are. *)
Example prefix_key_found :
  Get (build (openTrieStore ∅) [OpUpdate [0x12; 0x34] [7]; OpUpdate [0x13; 0x34] [8]]).1 [0x12] = Ok (Some [7]).
Proof. vm_compute. reflexivity. Qed.

End TrieExample.
