(* ===== verification/SkipList.v ===== *)
(** * The skip list of block headers

    A block header holds the hashes of earlier headers at distances that are powers
    of two ([AddSkipListLinks] of [internal/blockstore]); a path through them is what
    the ledger query processor returns ([findPath] of [internal/bcdb]).  The path
    exists for every pair of blocks, is logarithmic in their distance, and each header
    on it is authenticated by the one before. *)

From S2P Require Import Prelude Crypto Types BlockEncoding BlockStore BlockStoreProofs.
Open Scope Z_scope.

(** ** The links of a block *)

(** The exponent of two in a number. *)
Definition twos (m v : Z) : Prop := 0 ≤ v ∧ ∃ q, m = 2 ^ v * q ∧ q mod 2 = 1.

Lemma twos_step m v : m mod 2 = 0 → twos (m / 2) v → twos m (v + 1).
Proof.
  intros Hm (Hv & q & Hq & Hodd). split; [lia|]. exists q. split; [|done].
  rewrite Z.pow_add_r by lia. rewrite (Z.div_mod m 2), Hm, Hq by lia. lia.
Qed.

Lemma skipListHeight_loop_spec fuel m :
  0 < m < 2 ^ Z.of_nat fuel → ∃ v, skipListHeight_loop fuel m = 1 + v ∧ twos m v.
Proof.
  revert m. induction fuel as [|fuel IH]; intros m Hm; [cbn in Hm; lia|]. cbn [skipListHeight_loop]. unfold SkipListBase.
  pose proof (Z.mod_pos_bound m 2 ltac:(lia)). destruct (Z.eqb_spec (m mod 2) 0) as [E|E]; cbn [negb].
  - assert (Hh : 0 < m / 2 < 2 ^ Z.of_nat fuel).
    { rewrite Nat2Z.inj_succ, Z.pow_succ_r in Hm by lia. pose proof (Z.div_mod m 2 ltac:(lia)). lia. }
    destruct (IH _ Hh) as (v & -> & Hv). exists (v + 1). split; [lia|]. by apply twos_step.
  - exists 0. split; [done|]. split; [lia|]. exists m. lia.
Qed.

Lemma skipListHeight_spec m : 0 < m < 2 ^ 64 → ∃ v, skipListHeight m = 1 + v ∧ twos m v.
Proof. apply (skipListHeight_loop_spec 64). Qed.

Lemma twos_le m v : 0 < m → twos m v → 2 ^ v ≤ m.
Proof.
  intros Hm (Hv & q & -> & Hq). assert (0 < 2 ^ v) by (apply Z.pow_pos_nonneg; lia). clear Hq.
  assert (0 < q) by nia. nia.
Qed.

(** The links of block [b] are [b - 1], [b - 2], [b - 4], ... *)
Lemma links_loop_spec n b i :
  0 ≤ i → b < 2 ^ 64 → (∀ j, 0 ≤ j < i + Z.of_nat n → 2 ^ j < b) →
  links_loop n b (2 ^ i) = (fun j => b - 2 ^ (i + Z.of_nat j)) <$> seq 0 n.
Proof.
  revert i. induction n as [|n IH]; intros i Hi Hb Hj; [done|]. cbn [links_loop]. rewrite <- cons_seq. cbn [fmap list_fmap].
  assert (Hi1 : 2 ^ i < b) by (apply Hj; lia). assert (0 < 2 ^ i) by (apply Z.pow_pos_nonneg; lia).
  f_equal; [rewrite Z.add_0_r; by rewrite u64_small by lia|].
  destruct n as [|n']; [done|].
  assert (H2 : 2 ^ (i + 1) < b) by (apply Hj; lia).
  replace (2 ^ i * SkipListBase) with (2 ^ (i + 1)) by (rewrite Z.pow_add_r by lia; unfold SkipListBase; lia).
  rewrite u64_small by (assert (0 < 2 ^ (i + 1)) by (apply Z.pow_pos_nonneg; lia); lia).
  rewrite IH by (lia || intros j Hj'; apply Hj; lia). rewrite <- fmap_S_seq, <- list_fmap_compose. apply list_fmap_ext. intros k x _. cbn. f_equal. f_equal. lia.
Qed.

Lemma links_spec b :
  1 < b < 2 ^ 64 → ∃ v, twos (b - 1) v ∧
    CalculateSkipListLinks b = (fun j => b - 2 ^ Z.of_nat j) <$> seq 0 (S (Z.to_nat v)).
Proof.
  intros Hb. destruct (skipListHeight_spec (b - 1) ltac:(lia)) as (v & Hh & Hv). exists v. split; [done|].
  pose proof (twos_le (b - 1) v ltac:(lia) Hv) as Hle. destruct Hv as [Hv _].
  unfold CalculateSkipListLinks. rewrite (proj2 (Z.ltb_lt _ _)), Hh by lia.
  replace (Z.to_nat (1 + v)) with (S (Z.to_nat v)) by lia. rewrite <- (Z.pow_0_r 2), links_loop_spec; [done|lia|lia|].
  intros j Hj. apply Z.le_lt_trans with (2 ^ v); [apply Z.pow_le_mono_r; lia|lia].
Qed.

Lemma links_range b l : 1 < b < 2 ^ 64 → l ∈ CalculateSkipListLinks b → 1 ≤ l < b.
Proof.
  intros Hb Hl. destruct (links_spec b Hb) as (v & Hv & Heq). rewrite Heq in Hl. apply list_elem_of_fmap in Hl as (j & -> & Hj).
  apply elem_of_seq in Hj. pose proof (twos_le (b - 1) v ltac:(lia) Hv) as Hle. destruct Hv as [Hv _].
  assert (2 ^ Z.of_nat j ≤ 2 ^ v) by (apply Z.pow_le_mono_r; lia). assert (0 < 2 ^ Z.of_nat j) by (apply Z.pow_pos_nonneg; lia). lia.
Qed.

(** ** The farthest useful link *)

Lemma twos_divide m v k : twos m v → 0 ≤ k → (2 ^ k | m) ↔ k ≤ v.
Proof.
  intros (Hv & q & -> & Hq) Hk. split.
  - intros [c Hc]. destruct (Z.le_gt_cases k v) as [|Hlt]; [done|exfalso].
    replace k with (v + (1 + (k - v - 1))) in Hc by lia. rewrite !Z.pow_add_r in Hc by lia.
    assert (0 < 2 ^ v) by (apply Z.pow_pos_nonneg; lia).
    assert (Hq' : q = 2 * (c * 2 ^ (k - v - 1))) by nia. rewrite Hq', Z.mul_comm, Z.mod_mul in Hq; lia.
  - intros Hle. replace v with (k + (v - k)) by lia. rewrite Z.pow_add_r by lia. exists (2 ^ (v - k) * q). lia.
Qed.

Lemma twos_next m v : twos m v → (2 ^ (v + 1) | m - 2 ^ v).
Proof.
  intros (Hv & q & -> & Hq). exists (q / 2). rewrite Z.pow_add_r by lia. pose proof (Z.div_mod q 2 ltac:(lia)). nia.
Qed.

Lemma find_reverse_seq (p : Z → bool) (f : nat → Z) (t : Z) n :
  0 ≤ t → (∀ j, p (f j) = (Z.of_nat j <=? t)) →
  find p (reverse (f <$> seq 0 (S n))) = Some (f (Z.to_nat (Z.min (Z.of_nat n) t))).
Proof.
  intros Ht Hp. induction n as [|n IH].
  - cbn. rewrite Hp, (proj2 (Z.leb_le _ _)) by lia. by rewrite Z.min_l by lia.
  - rewrite seq_S, fmap_app, reverse_app. cbn [fmap list_fmap reverse rev_append app find].
    rewrite Nat.add_0_l, Hp. destruct (Z.leb_spec (Z.of_nat (S n)) t).
    + f_equal. f_equal. lia.
    + rewrite IH. f_equal. f_equal. lia.
Qed.

(** The search from block [b] for block [start] takes the link of distance [2 ^ i],
    for the largest [i] the alignment of [b] and the remaining distance allow. *)
Lemma find_link b start :
  1 < b < 2 ^ 64 → 1 ≤ start < b →
  ∃ v, twos (b - 1) v ∧
    let i := Z.min v (Z.log2 (b - start)) in
    0 ≤ i ∧ 2 ^ i ≤ b - start ∧ 0 < 2 ^ i ∧
    find (fun l => start <=? l) (reverse (CalculateSkipListLinks b)) = Some (b - 2 ^ i) ∧
    b - 2 ^ i ∈ CalculateSkipListLinks b.
Proof.
  intros Hb Hs. destruct (links_spec b Hb) as (v & Hv & Hl). exists v. split; [done|]. cbn zeta.
  pose proof (Z.log2_nonneg (b - start)) as Hlog. destruct (Z.log2_spec (b - start) ltac:(lia)) as [Hlo Hhi].
  destruct Hv as [Hv0 _]. set (i := Z.min v (Z.log2 (b - start))).
  assert (Hi : 2 ^ i ≤ 2 ^ Z.log2 (b - start)) by (apply Z.pow_le_mono_r; lia).
  assert (Hf : find (fun l => start <=? l) (reverse (CalculateSkipListLinks b)) = Some (b - 2 ^ i)).
  { rewrite Hl, (find_reverse_seq _ (fun j => b - 2 ^ Z.of_nat j) (Z.log2 (b - start))); [|done|].
    - rewrite !Z2Nat.id by lia. done.
    - intros j. rewrite eq_iff_eq_true, !Z.leb_le. rewrite <- Z.log2_le_pow2 by lia. lia. }
  split_and!; [lia|lia|apply Z.pow_pos_nonneg; lia|done|].
  apply find_some in Hf as [Hin _]. rewrite <- elem_of_reverse. by apply list_elem_of_In.
Qed.

(** [n] hops are enough from a block [m + 1] over a distance [d]: at most [2 K] for a
    distance below [2 ^ K], and only [K] if the block is aligned. *)
Definition bounded (n m d : Z) : Prop :=
  ∀ K, 0 ≤ K → d < 2 ^ K →
    ((2 ^ K | m) → n ≤ K) ∧ (∀ k, 0 ≤ k ≤ K → (2 ^ k | m) → n ≤ 2 * K - k).

Lemma bounded_done m : bounded 0 m 0.
Proof. intros K HK Hd. split; [done|]. intros; lia. Qed.

Lemma bounded_hop n m d v :
  twos m v → 0 < d →
  let i := Z.min v (Z.log2 d) in
  bounded n (m - 2 ^ i) (d - 2 ^ i) → bounded (n + 1) m d.
Proof.
  intros Hv Hd i Hn K HK HdK. pose proof (Z.log2_nonneg d) as Hlog. destruct (Z.log2_spec d Hd) as [Hlo Hhi].
  pose proof (proj1 Hv) as Hv0. assert (HlogK : Z.log2 d < K) by (by apply Z.log2_lt_pow2).
  rewrite Z.pow_succ_r in Hhi by lia.
  assert (Hshort : Z.log2 d ≤ v → n + 1 ≤ K).
  { intros Hle. subst i. rewrite Z.min_r in Hn by lia.
    destruct (Hn (Z.log2 d)) as [Hn1 _]; [lia|lia|]. enough (n ≤ Z.log2 d) by lia. apply Hn1.
    apply Z.divide_sub_r; [|apply Z.divide_refl]. by apply (twos_divide m v). }
  split.
  - intros HK'. apply Hshort. apply (twos_divide m v) in HK'; [lia|done..].
  - intros k Hk Hk'. apply (twos_divide m v) in Hk'; [|done|lia].
    destruct (Z.le_gt_cases (Z.log2 d) v) as [Hle|Hlt]; [specialize (Hshort Hle); lia|].
    subst i. rewrite Z.min_l in Hn by lia. assert (0 < 2 ^ v) by (apply Z.pow_pos_nonneg; lia).
    destruct (Hn K) as [_ Hn2]; [lia|lia|]. specialize (Hn2 (v + 1) ltac:(lia) (twos_next m v Hv)). lia.
Qed.

Lemma bounded_log n m d : 0 < d → bounded n m d → n ≤ 2 * Z.log2 d + 2.
Proof.
  intros Hd Hn. destruct (Z.log2_spec d Hd) as [_ Hhi]. pose proof (Z.log2_nonneg d).
  destruct (Hn (Z.succ (Z.log2 d)) ltac:(lia) Hhi) as [_ H2].
  specialize (H2 0 ltac:(lia) (Z.divide_1_l _)). lia.
Qed.
