(* ===== verification/Ledger.v ===== *)
(** * Ledger queries

    [internal/bcdb/ledger_query_procesor.go]: block headers, receipts, proofs of
    transactions and of data, and the path of headers between two blocks. *)

From S2P Require Import Prelude Crypto Types WorldState Identity Validation MerkleTree BlockEncoding BlockStore BlockStoreProofs SkipList MPTrie.
Open Scope Z_scope.

(** The outcome of the search for the next header on a path. *)
Inductive walk :=
  | Arrived (headers : list BlockHeader)
  | StillAt (headers : list BlockHeader) (currentBlock : BlockHeader).

Record TxReceipt := mkTxReceipt {
  TR_Header : BlockHeader;
  TR_TxIndex : Z;
}.

Section LedgerQueryProcessor.
Context `{!WorldState D, !Codec User, !Codec NodeConfig} {x509 : X509}.
Context `{!Codec Block, !Codec BlockHeader, !Codec BlockHeaderBase, !Codec BlockLocation,
          !Codec TxInfo, !Codec BlockTxIDs} {sn : Snappy} {pv : ProtoVarint}.
Context `{!TxMarshal DataTxEnvelope, !TxMarshal UserAdministrationTxEnvelope,
          !TxMarshal DBAdministrationTxEnvelope, !TxMarshal ConfigTxEnvelope, !TxMarshal ValidationInfo}.
Context {St : Type} `{!TrieStore St}.

Implicit Types (db : D) (s : Store) (ts : St).

Definition header_number (h : BlockHeader) : Z := Number (BaseHeader h).

(** The guard every ledger query starts with. *)
Definition checkLedgerAccess db (userId : string) : res unit :=
  hasAccess ← HasLedgerAccess db userId;
  if (hasAccess : bool) then Ok tt
  else Err (PermissionErr ("user " +:+ userId +:+ " has no permission to access the ledger")).

Definition getBlockHeader db s (userId : string) (blockNum : Z) : res BlockHeader :=
  checkLedgerAccess db userId;; BlockStore.GetHeader s blockNum.

Definition getAugmentedBlockHeader db s (userId : string) (blockNum : Z) : res AugmentedBlockHeader :=
  checkLedgerAccess db userId;; GetAugmentedHeader s blockNum.

(** One pass of the inner loop: the links are tried from the farthest one; where none
    reaches [startIndex] the block stays the same. *)
Definition findPath_step s (startIndex : Z) (currentBlock : BlockHeader) (headers : list BlockHeader) : res walk :=
  match find (fun link => startIndex <=? link) (reverse (CalculateSkipListLinks (header_number currentBlock))) with
  | None => Ok (StillAt headers currentBlock)
  | Some link =>
    h ← BlockStore.GetHeader s link;
    Ok (if startIndex <? link then StillAt (headers ++ [h]) h else Arrived (headers ++ [h]))
  end.

(** [None]: the fuel does not suffice. *)
Fixpoint findPath_loop (fuel : nat) s (startIndex endNumber : Z) (currentBlock : BlockHeader)
    (headers : list BlockHeader) : option (res (list BlockHeader)) :=
  match fuel with
  | O => None
  | S fuel =>
    if header_number currentBlock <=? startIndex then
      Some (Err (PlainErr ("can't find path in blocks skip list between " +:+ pretty endNumber +:+ " " +:+ pretty startIndex)))
    else
      match findPath_step s startIndex currentBlock headers with
      | Ok (Arrived headers) => Some (Ok headers)
      | Ok (StillAt headers b) => findPath_loop fuel s startIndex endNumber b headers
      | Err e => Some (Err e)
      | Panic m => Some (Panic m)
      end
  end.

(** Every hop moves to an earlier block, so that the distance is enough fuel. *)
Definition ledgerFindPath s (endBlock : BlockHeader) (startIndex : Z) : option (res (list BlockHeader)) :=
  if header_number endBlock =? startIndex then Some (Ok [endBlock])
  else findPath_loop (S (Z.to_nat (header_number endBlock - startIndex))) s startIndex (header_number endBlock) endBlock [endBlock].

Definition getPath_guards (startBlockIdx endBlockIdx : Z) : res unit :=
  if startBlockIdx <? 1 then Err (BadRequestErr "start block number must be >=1")
  else if endBlockIdx <? startBlockIdx then
    Err (BadRequestErr ("can't find path from start block " +:+ pretty startBlockIdx +:+ " to end block " +:+
           pretty endBlockIdx +:+ ", start must be <= end"))
  else Ok tt.

(** The message of a block that is not found is completed. *)
Definition endOfPath s (startBlockIdx endBlockIdx : Z) : res BlockHeader :=
  match BlockStore.GetHeader s endBlockIdx with
  | Err (NotFoundErr m) =>
    Err (NotFoundErr ("can't find path in blocks skip list between " +:+ pretty endBlockIdx +:+ " " +:+
           pretty startBlockIdx +:+ ": " +:+ m))
  | r => r
  end.

Definition getLedgerPath db s (userId : string) (startBlockIdx endBlockIdx : Z) : option (res (list BlockHeader)) :=
  match (getPath_guards startBlockIdx endBlockIdx;; checkLedgerAccess db userId;; endOfPath s startBlockIdx endBlockIdx) with
  | Ok endBlock => ledgerFindPath s endBlock startBlockIdx
  | Err e => Some (Err e)
  | Panic m => Some (Panic m)
  end.

Definition calculateProof (block : Block) (txIdx : Z) : res (list bytes) :=
  root ← BuildTreeForBlockTx block; Node_Proof root (i64 txIdx).

Definition getTxProof db (userId : string) (blockNum txIdx : Z) : prog Store (list bytes) :=
  lift (checkLedgerAccess db userId);;
  block ← BlockStore.Get blockNum;
  lift (calculateProof block txIdx).

Definition getDataProof db s (userId : string) (blockNum : Z) (dbname key : string) (isDeleted : bool)
    : prog St (list (list bytes)) :=
  lift (checkLedgerAccess db userId);;
  disabled ← gets IsDisabled;
  if (disabled : bool) then lift (Err (ServerRestrictionErr "State Merkle Patricia Trie is disabled")) else
  blockHeader ← lift (BlockStore.GetHeader s blockNum);
  root ← NewTrie (StateMerkelTreeRootHash blockHeader);
  ts ← gets id;
  proof ← lift (GetProof (mkMPTrie (Some root) ts) (ConstructCompositeKey dbname key) isDeleted);
  match proof with
  | Some path => mret path
  | None =>
    lift (Err (NotFoundErr ("no proof for block " +:+ pretty blockNum +:+ ", db " +:+ dbname +:+ ", key " +:+ key +:+
            ", isDeleted " +:+ (if isDeleted then "true" else "false") +:+ " found")))
  end.

Definition getTxReceipt db s (userId : string) (txId : string) : res TxReceipt :=
  checkLedgerAccess db userId;;
  txInfo ← GetTxInfo s txId;
  blockHeader ← BlockStore.GetHeader s (TI_BlockNumber txInfo);
  Ok (mkTxReceipt blockHeader (TI_TxIndex txInfo)).
End LedgerQueryProcessor.

(** ** Paths *)

(** Each header holds the hash of the next one and is later. *)
Fixpoint hash_path `{!Codec BlockHeader} (l : list BlockHeader) : Prop :=
  match l with
  | h :: ((h' :: _) as rest) =>
    (∃ x, ComputeBlockHash h' = Ok x ∧ x ∈ SkipchainHashes h) ∧ header_number h' < header_number h ∧ hash_path rest
  | _ => True
  end.

Section Paths.
Context `{!WorldState D, !Codec User, !Codec NodeConfig} {x509 : X509}.
Context `{!Codec Block, !Codec BlockHeader, !Codec BlockHeaderBase, !Codec BlockLocation,
          !Codec TxInfo, !Codec BlockTxIDs} {sn : Snappy} {pv : ProtoVarint}.
Implicit Types (db : D) (s : Store) (chain : list Block).

(** The hashes of the blocks at the distances of the skip list. *)
Definition links_ok chain (n : Z) (hashes : list bytes) : Prop :=
  Forall2 (fun l x => ∃ b, chain !! Z.to_nat (l - 1) = Some b ∧ ComputeBlockHash (Header b) = Ok x)
    (CalculateSkipListLinks n) hashes.

Definition linked chain : Prop :=
  ∀ i b, chain !! i = Some b → links_ok chain (Z.of_nat i + 1) (SkipchainHashes (Header b)).

Lemma links_ok_app chain b n hashes : links_ok chain n hashes → links_ok (chain ++ b) n hashes.
Proof. intros H. apply (Forall2_impl _ _ _ _ H). intros l x (b' & Hb & Hx). exists b'. split; [|done]. by apply lookup_app_l_Some. Qed.

(** Adding the links to the next block of a stored chain succeeds and gives the hashes
    of the blocks it links to. *)
Lemma AddSkipListLinks_ok s chain b :
  readable s chain → block_number b = Z.of_nat (length chain) + 1 → block_number b < 2 ^ 64 →
  ∃ hashes, AddSkipListLinks s b =
      Ok (mkBlock (mkBlockHeader (BaseHeader (Header b)) hashes (TxMerkelTreeRootHash (Header b))
            (StateMerkelTreeRootHash (Header b)) (ValidationInfos (Header b))) (Payload b) (Block_ConsensusMetadata b)) ∧
    links_ok chain (block_number b) hashes.
Proof.
  intros Hr Hb Hs. unfold AddSkipListLinks, links_ok.
  assert (Hl : ∀ l, l ∈ CalculateSkipListLinks (block_number b) → ∃ b' x, chain !! Z.to_nat (l - 1) = Some b' ∧
            ComputeBlockHash (Header b') = Ok x ∧ GetHash s l = Ok x).
  { intros l Hl. destruct (Z.le_gt_cases (block_number b) 1) as [Hle|Hgt].
    { unfold CalculateSkipListLinks in Hl. rewrite (proj2 (Z.ltb_ge _ _)) in Hl by lia. by apply not_elem_of_nil in Hl. }
    apply links_range in Hl; [|lia].
    destruct (lookup_lt_is_Some_2 chain (Z.to_nat (l - 1))) as [b' Hb']; [lia|].
    destruct (GetHeader_ok s chain _ b' Hr Hb') as (_ & (x & Hx & Hg) & _). exists b', x.
    by replace (Z.of_nat (Z.to_nat (l - 1)) + 1) with l in Hg by lia. }
  induction (CalculateSkipListLinks (block_number b)) as [|l ls IH]; [by exists []|].
  destruct (Hl l ltac:(set_solver)) as (b' & x & H1 & H2 & H3).
  destruct IH as (xs & Hxs & Hf); [set_solver|]. exists (x :: xs). cbn [res_mapM]. rewrite H3. cbn [mbind res_bind] in *.
  destruct (res_mapM (GetHash s) ls) as [ys| |]; cbn [mbind res_bind] in *; try done. injection Hxs as ->. split; [done|]. constructor; eauto.
Qed.

Lemma linked_snoc chain b :
  linked chain → links_ok chain (Z.of_nat (length chain) + 1) (SkipchainHashes (Header b)) → linked (chain ++ [b]).
Proof.
  intros Hl Hb i b' [[_ Hi]|[-> ->]]%lookup_snoc_Some.
  - apply links_ok_app, (Hl i b'), Hi.
  - by apply links_ok_app.
Qed.

(** One hop of the search. *)
Lemma findPath_step_ok s chain i b start headers :
  readable s chain → linked chain → chain !! i = Some b → 1 ≤ start < Z.of_nat i + 1 →
  ∃ v b', twos (Z.of_nat i) v ∧
    let d := Z.of_nat i + 1 - start in
    let n := Z.of_nat i + 1 - 2 ^ Z.min v (Z.log2 d) in
    start ≤ n < Z.of_nat i + 1 ∧ chain !! Z.to_nat (n - 1) = Some b' ∧
    hash_path [Header b; Header b'] ∧
    findPath_step s start (Header b) headers =
      Ok (if start <? n then StillAt (headers ++ [Header b']) (Header b') else Arrived (headers ++ [Header b'])).
Proof.
  intros Hr Hl Hi Hs. pose proof (lookup_lt_Some _ _ _ Hi) as Hlt. pose proof (rd_small _ _ Hr) as Hsm.
  pose proof (rd_num _ _ Hr _ _ Hi) as Hnum.
  destruct (find_link (Z.of_nat i + 1) start ltac:(lia) Hs) as (v & Hv & Hi0 & Hle & Hpos & Hf & Hin).
  replace (Z.of_nat i + 1 - 1) with (Z.of_nat i) in Hv by lia. exists v. cbn zeta in *.
  set (n := Z.of_nat i + 1 - 2 ^ Z.min v (Z.log2 (Z.of_nat i + 1 - start))) in *.
  destruct (Forall2_lookup_l _ _ _ (default O (fst <$> list_find (n =.) (CalculateSkipListLinks (Z.of_nat i + 1)))) n (Hl i b Hi))
    as (x & Hx & b' & Hb' & Hhash).
  { destruct (list_find_elem_of (n =.) _ n Hin eq_refl) as [[j y] Hj]. rewrite Hj. cbn.
    by apply list_find_Some in Hj as (? & -> & _). }
  exists b'. pose proof (lookup_lt_Some _ _ _ Hb') as Hlt'. pose proof (rd_num _ _ Hr _ _ Hb') as Hnum'.
  split_and!; [done|lia|lia|done| |].
  - cbn. split_and!; [|unfold header_number; unfold block_number in *; lia|done].
    exists x. split; [done|]. by apply list_elem_of_lookup_2 in Hx.
  - unfold findPath_step, header_number. fold (block_number b). rewrite Hnum, Hf.
    destruct (GetHeader_ok s chain _ b' Hr Hb') as [Hg _].
    replace (Z.of_nat (Z.to_nat (n - 1)) + 1) with n in Hg by lia. by rewrite Hg.
Qed.

Lemma hash_path_cons h h' rest : hash_path [h; h'] → hash_path (h' :: rest) → hash_path (h :: h' :: rest).
Proof. intros (H1 & H2 & _) H3. by split_and!. Qed.

Lemma findPath_loop_ok fuel s chain i b start e headers :
  readable s chain → linked chain → chain !! i = Some b → 1 ≤ start < Z.of_nat i + 1 →
  Z.of_nat i + 1 - start ≤ Z.of_nat fuel →
  ∃ path b0, findPath_loop fuel s start e (Header b) headers = Some (Ok (headers ++ path)) ∧
    chain !! Z.to_nat (start - 1) = Some b0 ∧ last path = Some (Header b0) ∧
    hash_path (Header b :: path) ∧
    bounded (Z.of_nat (length path)) (Z.of_nat i) (Z.of_nat i + 1 - start).
Proof.
  intros Hr Hl. revert i b headers. induction fuel as [|fuel IH]; intros i b headers Hi Hs Hfuel; [lia|].
  destruct (findPath_step_ok s chain i b start headers Hr Hl Hi Hs) as (v & b' & Hv & Hn & Hb' & Hhash & Hstep).
  cbn zeta in *. set (n := Z.of_nat i + 1 - 2 ^ _) in *. cbn [findPath_loop].
  pose proof (rd_num _ _ Hr _ _ Hi) as Hnum. rewrite (proj2 (Z.leb_gt _ _)) by (unfold header_number; unfold block_number in Hnum; lia).
  rewrite Hstep. destruct (Z.ltb_spec start n) as [Hlt|Hge].
  - destruct (IH (Z.to_nat (n - 1)) b' (headers ++ [Header b']) Hb') as (path & b0 & Hloop & Hb0 & Hlast & Hpath & Hbound); [lia|lia|].
    exists (Header b' :: path), b0. rewrite Hloop, <- app_assoc. split_and!; [done|done| |by apply hash_path_cons|].
    + destruct path; [done|]. by rewrite last_cons_cons.
    + rewrite length_cons, Nat2Z.inj_succ. apply (bounded_hop _ _ _ v Hv); [lia|].
      cbn zeta. replace (Z.of_nat i - _) with (Z.of_nat (Z.to_nat (n - 1))) by lia.
      by replace (Z.of_nat i + 1 - start - _) with (Z.of_nat (Z.to_nat (n - 1)) + 1 - start) by lia.
  - assert (n = start) as Hn' by lia. exists [Header b'], b'. rewrite Hn' in Hb'. split_and!; [done..|].
    apply (bounded_hop 0 _ _ v Hv); [lia|]. cbn zeta.
    replace (Z.of_nat i + 1 - start - _) with 0 by lia. apply bounded_done.
Qed.

(** C28: in a chain whose blocks were linked by [AddSkipListLinks], the path between
    two blocks is found: it leads from the end block to the start block, every header
    on it holds the hash of the next, and its length is logarithmic in the distance. *)
Theorem ledger_path_found db s chain userId startBlockIdx endBlockIdx :
  store_ok s chain → linked chain → HasLedgerAccess db userId = Ok true →
  1 ≤ startBlockIdx ≤ endBlockIdx → endBlockIdx ≤ Z.of_nat (length chain) →
  ∃ path first last_block, getLedgerPath db s userId startBlockIdx endBlockIdx = Some (Ok path) ∧
    chain !! Z.to_nat (startBlockIdx - 1) = Some first ∧ chain !! Z.to_nat (endBlockIdx - 1) = Some last_block ∧
    head path = Some (Header last_block) ∧ last path = Some (Header first) ∧ hash_path path ∧
    Z.of_nat (length path) ≤ 2 * Z.log2 (endBlockIdx - startBlockIdx) + 3.
Proof.
  intros [Hr _] Hl Hacc Hs He. unfold getLedgerPath, getPath_guards, checkLedgerAccess, endOfPath.
  rewrite (proj2 (Z.ltb_ge _ _)), (proj2 (Z.ltb_ge _ _)), Hacc by lia. cbn [mbind res_bind].
  destruct (lookup_lt_is_Some_2 chain (Z.to_nat (endBlockIdx - 1))) as [b Hb]; [lia|].
  destruct (GetHeader_ok s chain _ b Hr Hb) as [Hg _]. pose proof (rd_num _ _ Hr _ _ Hb) as Hnum.
  replace (Z.of_nat (Z.to_nat (endBlockIdx - 1)) + 1) with endBlockIdx in * by lia. rewrite Hg.
  unfold ledgerFindPath, header_number. fold (block_number b). rewrite Hnum.
  destruct (Z.eqb_spec endBlockIdx startBlockIdx) as [->|Hne].
  - exists [Header b], b, b. split_and!; [done..|]. rewrite Z.sub_diag. done.
  - destruct (findPath_loop_ok (S (Z.to_nat (endBlockIdx - startBlockIdx))) s chain _ b startBlockIdx endBlockIdx [Header b] Hr Hl Hb)
      as (path & b0 & Hloop & Hb0 & Hlast & Hpath & Hbound); [lia|lia|].
    exists (Header b :: path), b0, b. rewrite Hloop. split_and!; [done..| |done|].
    + by rewrite last_cons, Hlast.
    + apply bounded_log in Hbound; [|lia]. rewrite length_cons.
      replace (Z.of_nat (Z.to_nat (endBlockIdx - 1)) + 1 - startBlockIdx) with (endBlockIdx - startBlockIdx) in Hbound by lia. lia.
Qed.
End Paths.
