(* ===== verification/Processor.v ===== *)
(** * The block processor

    [internal/blockprocessor]: [validateAndCommit] drives validation, the skip list,
    the Merkle tree of the block, the state trie, the block store, the provenance store
    and the world state; at a start the world state and the trie are brought up to the
    block store. *)

From S2P Require Import Prelude Crypto Types WorldState Identity Validation ReConfig ConfigTxValidator Validator DbEntries.
From S2P Require Import StateIndex Committer MerkleTree BlockEncoding BlockStore MPTrie.
Open Scope Z_scope.

(** What the committer asks of the provenance store. *)
Class ProvenanceStore (P : Type) := {
  ProvenanceCommit : Z → list TxDataForProvenance → prog P unit;
}.

(** [BlockProcessor] with its [committer].  The trie, if there is one, shares the trie
    store; its root may be nil. *)
Record BlockProcessor (D P St : Type) := mkBlockProcessor {
  bp_db : D;
  bp_blockStore : Store;
  bp_provenanceStore : option P;
  bp_stateTrieStore : St;
  bp_stateTrie : option (option TrieNode);
}.
Arguments mkBlockProcessor {D P St} _ _ _ _ _.
Arguments bp_db {D P St} _.
Arguments bp_blockStore {D P St} _.
Arguments bp_provenanceStore {D P St} _.
Arguments bp_stateTrieStore {D P St} _.
Arguments bp_stateTrie {D P St} _.

(** [if err != nil { panic(err) }] *)
Definition must {S A} (m : prog S A) : prog S A := fun s =>
  match m s with
  | (s, Err e) => (s, Panic (Error e))
  | r => r
  end.

(** Fields that are assigned on the way. *)
Definition set_tx_root (block : Block) (h : bytes) : Block :=
  let hd := Header block in
  mkBlock (mkBlockHeader (BaseHeader hd) (SkipchainHashes hd) h (StateMerkelTreeRootHash hd) (ValidationInfos hd)) (Payload block) (Block_ConsensusMetadata block).
Definition set_state_root (block : Block) (h : bytes) : Block :=
  let hd := Header block in
  mkBlock (mkBlockHeader (BaseHeader hd) (SkipchainHashes hd) (TxMerkelTreeRootHash hd) h (ValidationInfos hd)) (Payload block) (Block_ConsensusMetadata block).
Definition set_validation_info (block : Block) (infos : list ValidationInfo) : Block :=
  let hd := Header block in
  mkBlock (mkBlockHeader (BaseHeader hd) (SkipchainHashes hd) (TxMerkelTreeRootHash hd) (StateMerkelTreeRootHash hd) infos) (Payload block) (Block_ConsensusMetadata block).

(** ** The updates of a block on the trie *)

Section Trie.
Context {St : Type} `{!TrieStore St} {mr : MapRange}.

Fixpoint trieWrites (dbName : string) (writes : list KVWithMetadata) : prog (MPTrie St) unit :=
  match writes with
  | [] => mret tt
  | w :: writes => MPTrie.Update (ConstructCompositeKey dbName (KV_Key w)) (KV_Value w);; trieWrites dbName writes
  end.

Fixpoint trieDeletes (dbName : string) (deletes : list string) : prog (MPTrie St) unit :=
  match deletes with
  | [] => mret tt
  | k :: deletes => MPTrie.Delete (ConstructCompositeKey dbName k);; trieDeletes dbName deletes
  end.

Fixpoint applyUpdates (updates : list (string * DBUpdates)) : prog (MPTrie St) unit :=
  match updates with
  | [] => mret tt
  | (dbName, u) :: updates => trieWrites dbName (Writes u);; trieDeletes dbName (Deletes u);; applyUpdates updates
  end.

(** The databases are visited in the order of a Go map. *)
Definition ApplyBlockOnStateTrie (worldStateUpdates : gmap string DBUpdates) : prog (MPTrie St) unit :=
  applyUpdates (range worldStateUpdates).
End Trie.

Section Processor.
Context `{!WorldState D, !ProvenanceStore P} {St : Type} `{!TrieStore St}.
Context `{!Codec User, !Codec NodeConfig, !Codec ClusterConfig} {mr : MapRange} {x509 : X509} {nt : NetTime}.
Context `{!Codec Block, !Codec BlockHeader, !Codec BlockHeaderBase, !Codec BlockLocation,
          !Codec TxInfo, !Codec BlockTxIDs} {sn : Snappy} {pv : ProtoVarint}.
Context `{!TxMarshal DataTx, !TxMarshal UserAdministrationTx, !TxMarshal DBAdministrationTx, !TxMarshal ConfigTx}.
Context `{!TxMarshal DataTxEnvelope, !TxMarshal UserAdministrationTxEnvelope,
          !TxMarshal DBAdministrationTxEnvelope, !TxMarshal ConfigTxEnvelope, !TxMarshal ValidationInfo}.
(** The size of a full chunk, and a bound on the depth of the trie. *)
Context (chunkSizeLimit : Z) (depth : nat).

Notation BP := (BlockProcessor D P St).
Implicit Types (b : BP).

(** ** Calls of the parts *)

Definition on_block_store {A} (m : prog Store A) : prog BP A := fun b =>
  let '(s, r) := m (bp_blockStore b) in
  (mkBlockProcessor (bp_db b) s (bp_provenanceStore b) (bp_stateTrieStore b) (bp_stateTrie b), r).

Definition on_db (m : D → D * res unit) : prog BP unit := fun b =>
  let '(d, r) := m (bp_db b) in
  (mkBlockProcessor d (bp_blockStore b) (bp_provenanceStore b) (bp_stateTrieStore b) (bp_stateTrie b), r).

Definition on_trie_store {A} (m : prog St A) : prog BP A := fun b =>
  let '(s, r) := m (bp_stateTrieStore b) in
  (mkBlockProcessor (bp_db b) (bp_blockStore b) (bp_provenanceStore b) s (bp_stateTrie b), r).

Definition on_trie {A} (m : prog (MPTrie St) A) : prog BP A := fun b =>
  match bp_stateTrie b with
  | None => (b, Panic "invalid memory address or nil pointer dereference")
  | Some r =>
    let '(t, a) := m (mkMPTrie r (bp_stateTrieStore b)) in
    (mkBlockProcessor (bp_db b) (bp_blockStore b) (bp_provenanceStore b) (store t) (Some (root t)), a)
  end.

(** ** The committer *)

Definition entriesOf (block : Block) : prog BP (gmap string DBUpdates * list TxDataForProvenance * Block) := fun b =>
  (b, constructDBAndProvenanceEntries (bp_db b) (bool_decide (is_Some (bp_provenanceStore b))) block).

Definition applyBlockOnStateTrie (ups : gmap string DBUpdates) : prog BP unit := on_trie (ApplyBlockOnStateTrie ups).

Definition commitTrie (height : Z) : prog BP unit := on_trie (MPTrie.Commit depth height).

(** [c.stateTrie.Hash()]; a nil trie has no hash. *)
Definition stateTrieHash : prog BP bytes := fun b =>
  (b, match bp_stateTrie b with
      | None => Ok []
      | Some r => MPTrie.Hash (mkMPTrie r (bp_stateTrieStore b))
      end).

Definition commitToBlockStore (block : Block) : prog BP unit :=
  wrap_prog ("failed to commit block " +:+ pretty (block_number block) +:+ " to block store")
    (on_block_store (BlockStore.Commit chunkSizeLimit None (Some block))).

Definition commitToProvenanceStore (blockNum : Z) (provenanceData : list TxDataForProvenance) : prog BP unit := fun b =>
  match bp_provenanceStore b with
  | None => (b, Ok tt)
  | Some p =>
    let '(p, r) := ProvenanceCommit blockNum provenanceData p in
    (mkBlockProcessor (bp_db b) (bp_blockStore b) (Some p) (bp_stateTrieStore b) (bp_stateTrie b),
     wrap_err ("failed to commit block " +:+ pretty blockNum +:+ " to provenance store") r)
  end.

Definition commitToDBs (dbsUpdates : gmap string DBUpdates) (provenanceData : list TxDataForProvenance) (block : Block)
    : prog BP unit :=
  wrap_prog ("error while committing block " +:+ pretty (block_number block) +:+ " to the block store")
    (commitToProvenanceStore (block_number block) provenanceData);;
  on_db (fun d => commitToStateDB d (block_number block) dbsUpdates).

(** The block is returned as the calls leave it. *)
Definition commitBlock (block : Block) : prog BP Block :=
  '(dbsUpdates, provenanceData, block) ←
    wrap_prog ("error while constructing database and provenance entries for block " +:+ pretty (block_number block))
      (entriesOf block);
  disabled ← gets (fun b => IsDisabled (bp_stateTrieStore b));
  (if (disabled : bool) then mret tt else must (applyBlockOnStateTrie dbsUpdates));;
  stateTrieRootHash ← must stateTrieHash;
  let block := set_state_root block stateTrieRootHash in
  wrap_prog ("error while committing block " +:+ pretty (block_number block) +:+ " to the block store")
    (commitToBlockStore block);;
  commitToDBs dbsUpdates provenanceData block;;
  disabled ← gets (fun b => IsDisabled (bp_stateTrieStore b));
  (if (disabled : bool) then mret tt else commitTrie (block_number block));;
  mret block.

(** ** The processor *)

(** A block other than the first one that cannot be validated stops the node. *)
Definition validateOrPanic (block : Block) : prog BP (list ValidationInfo) := fun b =>
  (b, match ValidateBlock (bp_db b) block with
      | Err e => if 1 <? block_number block then Panic (Error e) else Err e
      | r => r
      end).

Definition validateAndCommit (block : Block) : prog BP Block :=
  validationInfo ← validateOrPanic block;
  let block := set_validation_info block validationInfo in
  block ← must (fun b => (b, AddSkipListLinks (bp_blockStore b) block));
  root ← must (lift (BuildTreeForBlockTx block));
  let block := set_tx_root block (MerkleTree.Hash root) in
  must (commitBlock block).

(** ** Recovery *)

Definition recoverWorldStateDBIfNeeded : prog BP unit :=
  blockStoreHeight ← (fun b => (b, BlockStore.Height (bp_blockStore b)));
  stateDBHeight ← (fun b => (b, WorldState.Height (bp_db b)));
  if stateDBHeight =? blockStoreHeight then mret tt
  else if blockStoreHeight <? stateDBHeight then
    lift (Err (PlainErr ("the height of state database [" +:+ pretty stateDBHeight +:+
      "] is higher than the height of block store [" +:+ pretty blockStoreHeight +:+ "]. The node cannot be recovered")))
  else if 1 <? blockStoreHeight - stateDBHeight then
    lift (Err (PlainErr ("the difference between the height of the block store [" +:+ pretty blockStoreHeight +:+
      "] and the state database [" +:+ pretty stateDBHeight +:+ "] cannot be greater than 1 block. The node cannot be recovered")))
  else
    block ← on_block_store (BlockStore.Get blockStoreHeight);
    '(dbsUpdates, provenanceData, block) ← entriesOf block;
    commitToDBs dbsUpdates provenanceData block.

(** [err == leveldb.ErrNotFound] *)
Definition is_not_found (h : res Z) : bool :=
  match h with Err (PlainErr m) => bool_decide (m = "leveldb: not found") | _ => false end.

(** The heights of the trie store and of the block store; the trie is opened at the lower
    one.  Only [leveldb.ErrNotFound] of the trie's height is looked at. *)
Definition loadStateTrie : prog BP (Z * Z) :=
  let open h := r ← on_trie_store (NewTrie h); modify (fun b =>
    mkBlockProcessor (bp_db b) (bp_blockStore b) (bp_provenanceStore b) (bp_stateTrieStore b) (Some (Some r))) in
  blockStoreHeight ← (fun b => (b, BlockStore.Height (bp_blockStore b)));
  if blockStoreHeight =? 0 then open [];; mret (0, 0) else
  h ← gets (fun b => TrieHeight (bp_stateTrieStore b));
  match h with
  | Panic w => lift (Panic w)
  | Ok _ | Err _ =>
    if is_not_found h then open [];; mret (0, blockStoreHeight) else
    let trieStoreHeight := match h with Ok h => h | _ => 0 end in
    if blockStoreHeight <? trieStoreHeight then
      lift (Err (PlainErr ("height of block store (" +:+ pretty blockStoreHeight +:+
        ") is smalled that height of trie store (" +:+ pretty trieStoreHeight +:+ "), check underline database")))
    else
      lastTrieBlockHeader ← (fun b => (b, BlockStore.GetHeader (bp_blockStore b) trieStoreHeight));
      open (StateMerkelTreeRootHash lastTrieBlockHeader);;
      mret (trieStoreHeight, blockStoreHeight)
  end.

Definition initAndRecoverStateTrieIfNeeded : prog BP unit :=
  '(trieStoreHeight, blockStoreHeight) ← loadStateTrie;
  if blockStoreHeight =? trieStoreHeight then mret tt
  else if u64 (trieStoreHeight + 1) =? blockStoreHeight then
    block ← on_block_store (BlockStore.Get blockStoreHeight);
    '(dbsUpdates, _, _) ← entriesOf block;
    applyBlockOnStateTrie dbsUpdates;;
    commitTrie blockStoreHeight
  else
    lift (Err (PlainErr ("the difference between the height of the block store [" +:+ pretty blockStoreHeight +:+
      "] and the state trie store [" +:+ pretty trieStoreHeight +:+ "] cannot be greater than 1 block. The node cannot be recovered"))).

Definition Bootstrap (configBlock : Block) (stateMerklePatriciaTrieDisabled : bool) : prog BP Block :=
  (if stateMerklePatriciaTrieDisabled then on_trie_store (SetDisabled true)
   else wrap_prog "error while recovering node state trie" initAndRecoverStateTrieIfNeeded);;
  validateAndCommit configBlock.

(** [Start], up to the loop. *)
Definition startRecovery : prog BP unit :=
  must (wrap_prog "error while recovering node" recoverWorldStateDBIfNeeded);;
  disabled ← gets (fun b => IsDisabled (bp_stateTrieStore b));
  if (disabled : bool) then mret tt
  else must (wrap_prog "error while recovering node state trie" initAndRecoverStateTrieIfNeeded).

(** The new configuration that is handed to the replication component. *)
Definition reConfigOf (block : Block) : option ClusterConfig :=
  match Payload block with
  | Some (Block_ConfigTxEnvelope env) =>
    match ValidationInfos (Header block) with
    | i :: _ => if bool_decide (VI_Flag i = VALID) then NewConfig (CEnv_Payload env) else None
    | [] => None
    end
  | _ => None
  end.

(** The body of the loop of [Start] on a block from the queue, with what is replied. *)
Definition processBlock (block : Block) : prog BP (Block * option ClusterConfig) :=
  block ← must (validateAndCommit block);
  mret (block, reConfigOf block).

Fixpoint processBlocks (blocks : list Block) : prog BP (list Block) :=
  match blocks with
  | [] => mret []
  | block :: blocks =>
    '(block, _) ← processBlock block;
    rest ← processBlocks blocks;
    mret (block :: rest)
  end.
End Processor.
