(* ===== verification/ProcessorProofs.v ===== *)
(** * Correctness of the block processor

    Processing blocks keeps the block store, the skip list and the world state in step;
    a node that stopped between the block store and the world state catches up. *)

From S2P Require Import Prelude Crypto Types WorldState Identity Validation ReConfig ConfigTxValidator Validator DbEntries.
From S2P Require Import StateIndex Committer CommitProofs MerkleTree BlockEncoding BlockStore BlockStoreProofs SkipList MPTrie Ledger.
From S2P Require Import Processor.
Open Scope Z_scope.

(** ** Inversion of stateful calls *)

Lemma must_ok {S A} (m : prog S A) s s' a : must m s = (s', Ok a) ↔ m s = (s', Ok a).
Proof. unfold must. destruct (m s) as [? [?|?|?]]; naive_solver. Qed.

Lemma wrap_prog_ok {S A} msg (m : prog S A) s s' a : wrap_prog msg m s = (s', Ok a) ↔ m s = (s', Ok a).
Proof. unfold wrap_prog. destruct (m s) as [? [?|?|?]]; cbn; naive_solver. Qed.

(** Splits a successful sequence of calls into its steps. *)
Ltac prog_inv H :=
  lazymatch type of H with
  | (_ ≫= _) _ = (_, Ok _) =>
    let s1 := fresh "b" in let a := fresh "a" in let H1 := fresh "H" in
    apply prog_bind_ok_inv in H as (s1 & a & H1 & H); prog_inv H1; prog_inv H
  | must _ _ = (_, Ok _) => rewrite must_ok in H; prog_inv H
  | wrap_prog _ _ _ = (_, Ok _) => rewrite wrap_prog_ok in H; prog_inv H
  | lift _ _ = (_, Ok _) => rewrite lift_ok_inv in H; destruct H as [? H]; subst
  | gets _ _ = (_, Ok _) => unfold gets in H; injection H as ? ?; subst
  | _ => idtac
  end.

(** Splits the construction of the entries of a block. *)
Ltac entries_inv H :=
  repeat first
    [ progress inv_res
    | match type of H with context [let '(_, _) := ?x in _] => destruct x end
    | case_bool_decide
    | progress simplify_eq ].

Section Steps.
Context `{!WorldState D, !ProvenanceStore P} {St : Type} `{!TrieStore St}.
Context `{!Codec User, !Codec NodeConfig, !Codec ClusterConfig} {mr : MapRange} {x509 : X509} {nt : NetTime}.
Context `{!Codec Block, !Codec BlockHeader, !Codec BlockHeaderBase, !Codec BlockLocation,
          !Codec TxInfo, !Codec BlockTxIDs} {sn : Snappy} {pv : ProtoVarint}.
Context `{!TxMarshal DataTx, !TxMarshal UserAdministrationTx, !TxMarshal DBAdministrationTx, !TxMarshal ConfigTx}.
Context `{!TxMarshal DataTxEnvelope, !TxMarshal UserAdministrationTxEnvelope,
          !TxMarshal DBAdministrationTxEnvelope, !TxMarshal ConfigTxEnvelope, !TxMarshal ValidationInfo}.
Context (chunkSizeLimit : Z) (depth : nat).

Notation BP := (BlockProcessor D P St).
Implicit Types (b : BP) (block : Block).

(** The trie has its own part of the state. *)
Definition same_stores b b' : Prop :=
  bp_db b' = bp_db b ∧ bp_blockStore b' = bp_blockStore b ∧ bp_provenanceStore b' = bp_provenanceStore b.

Lemma on_trie_frame {A} (m : prog (MPTrie St) A) b b' r : on_trie m b = (b', r) → same_stores b b'.
Proof.
  unfold on_trie. destruct (bp_stateTrie b) as [t|]; [|by intros [= <- <-]].
  destruct (m _) as [t' a]. by intros [= <- <-].
Qed.

Lemma same_stores_refl b : same_stores b b.
Proof. done. Qed.

(** A call on the trie that is skipped where the trie is disabled. *)
Lemma optional_trie_frame (c : bool) (m : prog (MPTrie St) unit) b b' :
  (if c then mret tt else on_trie m) b = (b', Ok tt) → same_stores b b'.
Proof. destruct c; [intros [= <-]; apply same_stores_refl|apply on_trie_frame]. Qed.

(** Only the index map of a database administration transaction changes. *)
Lemma entries_block db prov block ups pd block' :
  constructDBAndProvenanceEntries db prov block = Ok (ups, pd, block') →
  Header block' = Header block ∧
  ((∀ env, Payload block ≠ Some (Block_DbAdministrationTxEnvelope env)) → block' = block).
Proof.
  unfold constructDBAndProvenanceEntries. intros H.
  destruct (Payload block) as [[envs|env|env|env]|] eqn:Hp; entries_inv H; split; try done; intros Hno; by destruct (Hno env).
Qed.

(** The entries depend on the transactions, the number and the verdicts. *)
Lemma entries_same db prov block1 block2 ups pd block1' :
  BaseHeader (Header block2) = BaseHeader (Header block1) →
  ValidationInfos (Header block2) = ValidationInfos (Header block1) → Payload block2 = Payload block1 →
  constructDBAndProvenanceEntries db prov block1 = Ok (ups, pd, block1') →
  ∃ block2', constructDBAndProvenanceEntries db prov block2 = Ok (ups, pd, block2') ∧ Header block2' = Header block2.
Proof.
  unfold constructDBAndProvenanceEntries. intros -> -> -> H.
  unfold mbind, res_bind, wrap_err in *. repeat case_match; simplify_eq; eauto.
Qed.

(** ** One block *)

(** What a successful commit did, store by store. *)
Record commits b block b' block' : Prop := {
  cm_entries : ∃ ups pd block1,
    constructDBAndProvenanceEntries (bp_db b) (bool_decide (is_Some (bp_provenanceStore b))) block = Ok (ups, pd, block1) ∧
    (∃ root, block' = set_state_root block1 root) ∧
    commitToStateDB (bp_db b) (block_number block) ups = (bp_db b', Ok tt) ∧
    match bp_provenanceStore b with
    | None => bp_provenanceStore b' = None
    | Some p => ∃ p', ProvenanceCommit (block_number block) pd p = (p', Ok tt) ∧ bp_provenanceStore b' = Some p'
    end;
  cm_store : BlockStore.Commit chunkSizeLimit None (Some block') (bp_blockStore b) = (bp_blockStore b', Ok tt);
}.

Lemma commitToBlockStore_ok block b b' :
  commitToBlockStore chunkSizeLimit block b = (b', Ok tt) →
  BlockStore.Commit chunkSizeLimit None (Some block) (bp_blockStore b) = (bp_blockStore b', Ok tt) ∧
  bp_db b' = bp_db b ∧ bp_provenanceStore b' = bp_provenanceStore b.
Proof.
  unfold commitToBlockStore, on_block_store. intros H. prog_inv H.
  destruct (BlockStore.Commit _ _ _ _) as [s r]. by injection H as <- <-.
Qed.

Lemma commitToDBs_ok ups pd block b b' :
  commitToDBs ups pd block b = (b', Ok tt) ↔
  bp_blockStore b' = bp_blockStore b ∧ bp_stateTrieStore b' = bp_stateTrieStore b ∧ bp_stateTrie b' = bp_stateTrie b ∧
  commitToStateDB (bp_db b) (block_number block) ups = (bp_db b', Ok tt) ∧
  match bp_provenanceStore b with
  | None => bp_provenanceStore b' = None
  | Some p => ∃ p', ProvenanceCommit (block_number block) pd p = (p', Ok tt) ∧ bp_provenanceStore b' = Some p'
  end.
Proof.
  destruct b as [d s p ts t], b' as [d' s' p' ts' t']. unfold commitToDBs, commitToProvenanceStore, on_db, wrap_prog, mbind, prog_bind.
  generalize (block_number block) as n. intros n. cbn [bp_db bp_blockStore bp_provenanceStore bp_stateTrieStore bp_stateTrie].
  destruct p as [p|]; [destruct (ProvenanceCommit _ _ _) as [p1 [[]|e|w]]|];
    cbn [wrap_err bp_db bp_blockStore bp_provenanceStore bp_stateTrieStore bp_stateTrie];
    try (destruct (commitToStateDB _ _ _) as [d1 r]); split.
  - intros [= <- <- <- <- <- ->]. eauto 10.
  - intros (-> & -> & -> & [= -> ->] & p2 & [= ->] & ->). done.
  - done.
  - by intros (_ & _ & _ & _ & p2 & ? & _).
  - done.
  - by intros (_ & _ & _ & _ & p2 & ? & _).
  - intros [= <- <- <- <- <- ->]. eauto.
  - by intros (-> & -> & -> & [= -> ->] & ->).
Qed.

Lemma commitBlock_commits b block b' block' :
  commitBlock chunkSizeLimit depth block b = (b', Ok block') → commits b block b' block'.
Proof.
  unfold commitBlock. intros H. prog_inv H. destruct a as [[ups pd] block1].
  unfold entriesOf in H0. injection H0 as <- He. destruct (entries_block _ _ _ _ _ _ He) as [Hh _].
  apply prog_bind_ok_inv in H as (b1 & dis & H1 & H). prog_inv H1.
  apply prog_bind_ok_inv in H as (b2 & [] & H2 & H).
  assert (Hs : same_stores b1 b2).
  { apply (optional_trie_frame (IsDisabled (bp_stateTrieStore b1)) (ApplyBlockOnStateTrie ups)).
    destruct (IsDisabled _); [exact H2|]. rewrite must_ok in H2. exact H2. }
  apply prog_bind_ok_inv in H as (b3 & root & H3 & H). prog_inv H3. injection H3 as <- Hroot.
  apply prog_bind_ok_inv in H as (b4 & [] & H4 & H). prog_inv H4. apply commitToBlockStore_ok in H4 as (Hc & Hd4 & Hp4).
  apply prog_bind_ok_inv in H as (b5 & [] & H5 & H). apply commitToDBs_ok in H5 as (Hs5 & _ & _ & Hd5 & Hp5).
  apply prog_bind_ok_inv in H as (b6 & dis' & H6 & H). prog_inv H6.
  apply prog_bind_ok_inv in H as (b7 & [] & H7 & H). injection H as <- <-.
  assert (Hs' : same_stores b6 b7).
  { exact (optional_trie_frame _ _ _ _ H7). }
  assert (Hn : block_number (set_state_root block1 root) = block_number block) by (unfold block_number, set_state_root; cbn; by rewrite Hh).
  destruct Hs as (Hd2 & Hs2 & Hp2), Hs' as (Hd7 & Hs7 & Hp7).
  rewrite Hn, Hd4, Hd2, <- Hd7 in Hd5. rewrite Hn, Hp4, Hp2, <- Hp7 in Hp5. rewrite Hs2, <- Hs5, <- Hs7 in Hc.
  split; [|done]. exists ups, pd, block1. split_and!; eauto.
Qed.

(** ** The invariant of the stores *)

(** The block store holds [chain], its headers form the skip list, and the world state
    is at its height. *)
Record in_step b chain : Prop := {
  is_store : store_ok (bp_blockStore b) chain;
  is_end : at_end (bp_blockStore b);
  is_linked : linked chain;
  is_height : WorldState.Height (bp_db b) = Ok (Z.of_nat (length chain));
}.

(** What becomes of a block: its verdicts, its links and its Merkle root are filled in. *)
Record completed db block block' : Prop := {
  co_base : BaseHeader (Header block') = BaseHeader (Header block);
  co_verdicts : ValidateBlock db block = Ok (ValidationInfos (Header block'));
  co_tx_root : ∃ root,
    BuildTreeForBlockTx (set_validation_info block (ValidationInfos (Header block'))) = Ok root ∧
    TxMerkelTreeRootHash (Header block') = MerkleTree.Hash root;
}.

(** The world state follows the blocks: each is judged on the state that the blocks before
    it left, and its updates are applied to that state. *)
Inductive replay : D → list Block → list Block → D → Prop :=
  | replay_nil db : replay db [] [] db
  | replay_cons db db1 db2 block block' blocks done prov ups pd block1 :
      completed db block block' →
      constructDBAndProvenanceEntries db prov (set_validation_info block (ValidationInfos (Header block'))) = Ok (ups, pd, block1) →
      commitToStateDB db (block_number block) ups = (db1, Ok tt) →
      replay db1 blocks done db2 →
      replay db (block :: blocks) (block' :: done) db2.

Lemma tx_tree_same block1 block2 :
  ValidationInfos (Header block2) = ValidationInfos (Header block1) → Payload block2 = Payload block1 →
  BuildTreeForBlockTx block2 = BuildTreeForBlockTx block1.
Proof.
  intros Hi Hp. assert (Hat : ∀ i, info_at block2 i = info_at block1 i) by (intros i; unfold info_at; by rewrite Hi).
  unfold BuildTreeForBlockTx, calculateBlockTxHashes. rewrite Hp.
  destruct (Payload block1) as [[envs|env|env|env]|]; [|unfold singleTxHash; by rewrite Hat..|done].
  assert (Hd : ∀ i, dataTxHashes block2 i envs = dataTxHashes block1 i envs); [|by rewrite Hd].
  clear Hp. induction envs as [|env envs IH]; intros i; [done|]. cbn [dataTxHashes]. by rewrite Hat, IH.
Qed.

Lemma Commit_number s block s' :
  BlockStore.Commit chunkSizeLimit None (Some block) s = (s', Ok tt) → block_number block = u64 (lastCommittedBlockNum s + 1).
Proof.
  unfold BlockStore.Commit. intros H. apply prog_bind_ok_inv in H as (s1 & n & H1 & H). injection H1 as <- <-.
  destruct (Z.eqb_spec (block_number block) (u64 (lastCommittedBlockNum s + 1))); [done|]. by cbn in H.
Qed.

Lemma validateAndCommit_inv b block b' block' :
  validateAndCommit chunkSizeLimit depth block b = (b', Ok block') →
  ∃ infos linked_block root,
    ValidateBlock (bp_db b) block = Ok infos ∧
    AddSkipListLinks (bp_blockStore b) (set_validation_info block infos) = Ok linked_block ∧
    BuildTreeForBlockTx linked_block = Ok root ∧
    commits b (set_tx_root linked_block (MerkleTree.Hash root)) b' block'.
Proof.
  unfold validateAndCommit. intros H. apply prog_bind_ok_inv in H as (b1 & infos & H1 & H). injection H1 as <- Hval.
  apply prog_bind_ok_inv in H as (b2 & lb & H2 & H). rewrite must_ok in H2. injection H2 as <- Hadd.
  apply prog_bind_ok_inv in H as (b3 & root & H3 & H). rewrite must_ok, lift_ok_inv in H3. destruct H3 as [-> Hroot].
  rewrite must_ok in H. apply commitBlock_commits in H. exists infos, lb, root. split_and!; [|done..].
  destruct (ValidateBlock _ _) as [i|e|w]; [by injection Hval as <-| |done]. by destruct (1 <? block_number block).
Qed.

Lemma AddSkipListLinks_inv s block block' :
  AddSkipListLinks s block = Ok block' → ∃ hashes,
    block' = mkBlock (mkBlockHeader (BaseHeader (Header block)) hashes (TxMerkelTreeRootHash (Header block))
                        (StateMerkelTreeRootHash (Header block)) (ValidationInfos (Header block))) (Payload block) (Block_ConsensusMetadata block).
Proof. unfold AddSkipListLinks. intros H. apply bind_ok_inv in H as (hashes & _ & H). injection H as <-. eauto. Qed.

Lemma commits_header b block b' block' :
  commits b block b' block' →
  BaseHeader (Header block') = BaseHeader (Header block) ∧ SkipchainHashes (Header block') = SkipchainHashes (Header block) ∧
  TxMerkelTreeRootHash (Header block') = TxMerkelTreeRootHash (Header block) ∧
  ValidationInfos (Header block') = ValidationInfos (Header block).
Proof. intros [(ups & pd & block1 & He & [root ->] & _) _]. apply entries_block in He as [Hh _]. cbn. by rewrite Hh. Qed.

Context `{!WorldStateLaws D}.
Context (location_marshals : ∀ l : BlockLocation, is_ok (Marshal l) = true).

Lemma validateAndCommit_step b chain block b' block' :
  in_step b chain → validateAndCommit chunkSizeLimit depth block b = (b', Ok block') →
  storable block' → Z.of_nat (length chain) + 1 < 2 ^ 64 →
  in_step b' (chain ++ [block']) ∧ (∀ blocks done db, replay (bp_db b') blocks done db → replay (bp_db b) (block :: blocks) (block' :: done) db).
Proof.
  intros [[Hr Hlast] He Hl Hht] H Hso Hlt.
  apply validateAndCommit_inv in H as (infos & lb & root & Hval & Hadd & Hroot & Hc).
  pose proof (cm_store _ _ _ _ Hc) as Hcom. pose proof (Commit_number _ _ _ Hcom) as Hnum.
  rewrite Hlast, u64_small in Hnum by lia.
  destruct (commits_header _ _ _ _ Hc) as (Hbase & Hlinks & Htx & Hinfos).
  destruct (AddSkipListLinks_inv _ _ _ Hadd) as [hashes ->]. cbn in Hbase, Hlinks, Htx, Hinfos.
  assert (Hnum' : block_number (set_validation_info block infos) = Z.of_nat (length chain) + 1)
    by (rewrite <- Hnum; unfold block_number; cbn; by rewrite Hbase).
  split; [split|].
  - destruct (store_Commit_ok chunkSizeLimit location_marshals _ chain block' (conj Hr Hlast) He Hso Hnum) as (s' & Hc' & Hok & _); [lia|].
    rewrite Hcom in Hc'. by injection Hc' as <-.
  - destruct (store_Commit_ok chunkSizeLimit location_marshals _ chain block' (conj Hr Hlast) He Hso Hnum) as (s' & Hc' & _ & He'); [lia|].
    rewrite Hcom in Hc'. by injection Hc' as <-.
  - apply linked_snoc; [done|]. destruct (AddSkipListLinks_ok _ _ _ Hr Hnum') as (hashes' & Hadd' & Hok); [lia|].
    rewrite Hadd in Hadd'. injection Hadd' as ->. rewrite Hlinks, <- Hnum'. done.
  - destruct (cm_entries _ _ _ _ Hc) as (ups & pd & block1 & _ & _ & Hdb & _).
    apply commitToStateDB_ok in Hdb as (idx & _ & Hdb). rewrite length_app. cbn [length].
    erewrite commit_height; [|exact Hdb|]; fold (block_number block'); unfold block_number in *; cbn in *; rewrite <- Hbase, Hnum; [f_equal; lia|lia].
  - intros blocks done db Hrest. destruct (cm_entries _ _ _ _ Hc) as (ups & pd & block1 & Hent & _ & Hdb & _).
    assert (Hco : completed (bp_db b) block block').
    { split; [done|by rewrite Hinfos|]. exists root. rewrite Hinfos, Htx. split; [|done]. rewrite <- Hroot. by apply tx_tree_same. }
    apply (entries_same _ _ _ (set_validation_info block infos)) in Hent as (block2 & Hent & _); [|done..].
    rewrite <- Hinfos in Hent. by apply (replay_cons _ (bp_db b') _ _ _ _ _ _ _ _ _ Hco Hent).
Qed.

Lemma processBlocks_cons b b1 b2 block block' blocks done :
  validateAndCommit chunkSizeLimit depth block b = (b1, Ok block') →
  processBlocks chunkSizeLimit depth blocks b1 = (b2, Ok done) →
  processBlocks chunkSizeLimit depth (block :: blocks) b = (b2, Ok (block' :: done)).
Proof.
  intros H1 H2. cbn [processBlocks]. unfold processBlock.
  erewrite bind_step by (erewrite bind_step by (by apply must_ok); reflexivity). cbv beta iota. by erewrite bind_step by exact H2.
Qed.

Lemma processBlocks_in_step blocks b chain b' done :
  in_step b chain → processBlocks chunkSizeLimit depth blocks b = (b', Ok done) →
  Forall storable done → Z.of_nat (length (chain ++ done)) < 2 ^ 64 →
  in_step b' (chain ++ done) ∧ replay (bp_db b) blocks done (bp_db b').
Proof.
  revert b chain done. induction blocks as [|block blocks IH]; intros b chain done Hs H Hso Hlt.
  { injection H as <- <-. rewrite app_nil_r. split; [done|constructor]. }
  cbn [processBlocks] in H. apply prog_bind_ok_inv in H as (b1 & [block' c] & H1 & H).
  unfold processBlock in H1. apply prog_bind_ok_inv in H1 as (b2 & block2 & H1 & H2). injection H2 as -> -> _. rewrite must_ok in H1.
  apply prog_bind_ok_inv in H as (b3 & rest & H3 & H). injection H as -> <-.
  apply Forall_cons in Hso as [Hb Hso]. rewrite length_app, length_cons in Hlt.
  destruct (validateAndCommit_step _ _ _ _ _ Hs H1 Hb) as [Hs1 Hrep]; [lia|].
  destruct (IH _ _ _ Hs1 H3 Hso) as [Hs2 Hall]; [rewrite !length_app; cbn [length]; lia|].
  rewrite <- app_assoc in Hs2. split; [done|]. by apply Hrep.
Qed.

(** C19: processing blocks one after the other appends exactly these blocks, with their
    verdicts and Merkle roots, to the block store, and keeps the links of the skip list;
    the world state is at the height of the block store, and is what applying the blocks
    in turn, each judged on the state before it, gives. *)
Theorem processed_blocks_in_step blocks b chain b' done :
  in_step b chain → processBlocks chunkSizeLimit depth blocks b = (b', Ok done) →
  Forall storable done → Z.of_nat (length (chain ++ done)) < 2 ^ 64 →
  in_step b' (chain ++ done) ∧ replay (bp_db b) blocks done (bp_db b').
Proof. apply processBlocks_in_step. Qed.

(** ** Recovery of the world state *)








End Steps.
