(* ===== verification/ProvenanceCommit.v ===== *)
(** * The provenance store follows the world state

    The records the committer makes for a data block fit the history in the provenance
    store, and after the commit of both the last recorded value of every key is the
    value in the world state. *)

From S2P Require Import Prelude StringOrder Types JSON JSONPrint WorldState ProvenanceJSON Identity Validation.
From S2P Require Import DataTxValidator DataTxProofs UserTxValidator DbTxValidator ReConfig ConfigTxValidator.
From S2P Require Import Validator BlockIsolation AdminTx DbEntries StateIndex Committer CommitProofs Processor.
From S2P Require Import Provenance ProvenanceProofs ProvenanceHistory.
Open Scope Z_scope.

(** The provenance store as the committer uses it. *)
#[export] Instance provenance_store {G : Type} `{!Graph G} {mr : MapRange} : ProvenanceStore G := {
  ProvenanceCommit := Provenance.Commit;
}.

Section Records.
Context `{!WorldState D, !Codec ClusterConfig, !WorldStateLaws D, !Codec User, !Codec NodeConfig} {mr : MapRange}.
Implicit Types (db : D).

(** ** The record of the operations on a database *)

Record record_of db (version : Version) (txID : string) (o : DBOperation) (e : TxDataForProvenance) : Prop := {
  ro_valid : PD_IsValid e = true;
  ro_db : PD_DBName e = DbName o;
  ro_tx : PD_TxID e = txID;
  ro_reads : PD_Reads e = (fun r => mkKeyWithVersion (DR_Key r) (DR_Version r)) <$> DataReads o;
  ro_writes : PD_Writes e = entry_of version <$> omap id (DataWrites o);
  ro_deletes k v : PD_Deletes e !! k = Some v ↔ k ∈ delete_keys o ∧ GetVersion db (DbName o) k = Ok v;
  ro_old k : k ∈ write_keys o →
    ∃ v, GetVersion db (DbName o) k = Ok v ∧ PD_OldVersionOfWrites e !! k = match v with Some _ => Some v | None => None end;
}.

Lemma prov_writes db n version ws p p' : res_foldM (provDataWrite db n version) p ws = Ok p' →
  PD_IsValid p' = PD_IsValid p ∧ PD_DBName p' = PD_DBName p ∧ PD_UserID p' = PD_UserID p ∧ PD_TxID p' = PD_TxID p ∧
  PD_Reads p' = PD_Reads p ∧ PD_Deletes p' = PD_Deletes p ∧
  PD_Writes p' = PD_Writes p ++ (entry_of version <$> omap id ws) ∧
  (∀ k, k ∈ DW_Key <$> omap id ws → ∃ v, GetVersion db n k = Ok v ∧
     (is_Some v → PD_OldVersionOfWrites p' !! k = Some v) ∧
     (v = None → PD_OldVersionOfWrites p' !! k = PD_OldVersionOfWrites p !! k)) ∧
  (∀ k, k ∉ DW_Key <$> omap id ws → PD_OldVersionOfWrites p' !! k = PD_OldVersionOfWrites p !! k).
Proof.
  revert p. induction ws as [|w ws IH]; intros p H; cbn [res_foldM] in H.
  { injection H as <-. cbn. rewrite app_nil_r. split_and!; try done. intros k Hk. by inversion Hk. }
  apply bind_ok_inv in H as (p1 & H1 & H). apply IH in H as (-> & -> & -> & -> & -> & -> & -> & Hin & Hout). clear IH.
  unfold provDataWrite in H1. apply bind_ok_inv in H1 as (w' & ->%deref_ok & H1). apply bind_ok_inv in H1 as (v & Hv & [= <-]).
  cbn [omap list_omap id fmap list_fmap PD_IsValid PD_DBName PD_UserID PD_TxID PD_Reads PD_Deletes PD_Writes PD_OldVersionOfWrites] in *.
  split_and!; try done; [by rewrite <- app_assoc|..].
  - intros k Hk. destruct (decide (k ∈ DW_Key <$> omap id ws)) as [Hk'|Hk'].
    + destruct (Hin k Hk') as (v' & Hv' & Hs & Hn). exists v'. split_and!; [done..|]. intros ->. rewrite Hn by done.
      destruct v as [v|]; [|done]. rewrite lookup_insert_ne; [done|]. intros <-. congruence.
    + apply elem_of_cons in Hk as [->|Hk]; [|done]. exists v. rewrite (Hout _ Hk'). split_and!; [done|..].
      * intros [x ->]. by rewrite lookup_insert_eq.
      * by intros ->.
  - intros k [Hne Hk]%not_elem_of_cons. rewrite (Hout _ Hk). destruct v; [|done]. by rewrite lookup_insert_ne.
Qed.

Lemma prov_deletes db n ds p p' :
  res_foldM (fun pData d => d ← deref d; v ← GetVersion db n (DD_Key d); Ok (addProvDelete pData (DD_Key d) v)) p ds = Ok p' →
  PD_IsValid p' = PD_IsValid p ∧ PD_DBName p' = PD_DBName p ∧ PD_UserID p' = PD_UserID p ∧ PD_TxID p' = PD_TxID p ∧
  PD_Reads p' = PD_Reads p ∧ PD_Writes p' = PD_Writes p ∧ PD_OldVersionOfWrites p' = PD_OldVersionOfWrites p ∧
  ∀ k v, PD_Deletes p' !! k = Some v ↔
    (k ∈ DD_Key <$> omap id ds ∧ GetVersion db n k = Ok v) ∨ (k ∉ DD_Key <$> omap id ds ∧ PD_Deletes p !! k = Some v).
Proof.
  revert p. induction ds as [|d ds IH]; intros p H; cbn [res_foldM] in H.
  { injection H as <-. split_and!; try done. intros k v. cbn. split; [right; split; [set_solver|done]|].
    intros [[Hin _]|[_ ?]]; [by inversion Hin|done]. }
  apply bind_ok_inv in H as (p1 & H1 & H). apply IH in H as (-> & -> & -> & -> & -> & -> & -> & Hd). clear IH.
  apply bind_ok_inv in H1 as (d' & ->%deref_ok & H1). apply bind_ok_inv in H1 as (v0 & Hv0 & [= <-]).
  split_and!; try done. intros k v. rewrite Hd. cbn [omap list_omap id fmap list_fmap addProvDelete PD_Deletes].
  rewrite elem_of_cons. destruct (decide (k = DD_Key d')) as [->|Hne].
  - rewrite lookup_insert_eq. split.
    + intros [[? ?]|[Hn [= <-]]]; left; auto.
    + intros [[_ Hg]|[Hn _]]; [|by destruct Hn; left].
      destruct (decide (DD_Key d' ∈ DD_Key <$> omap id ds)); [by left|right]. split; [done|congruence].
  - rewrite lookup_insert_ne by done. naive_solver.
Qed.

Lemma records_of_tx db tx version l : constructProvenanceEntriesForDataTx db tx version = Ok l →
  (∀ e, e ∈ l → ∃ o, o ∈ DbOperations tx ∧ record_of db version (DTx_TxId tx) o e) ∧
  (∀ o, o ∈ DbOperations tx → ∃ e, e ∈ l ∧ record_of db version (DTx_TxId tx) o e).
Proof.
  intros H. unfold constructProvenanceEntriesForDataTx in H.
  assert (Hone : ∀ o e, (userID ← match MustSignUserIds tx with
                                  | [] => Panic "index out of range [0] with length 0" | u :: _ => Ok u end;
    let pData := mkTxDataForProvenance true (DbName o) userID (DTx_TxId tx)
                   ((fun r => mkKeyWithVersion (DR_Key r) (DR_Version r)) <$> DataReads o) [] ∅ ∅ in
    pData ← res_foldM (provDataWrite db (DbName o) version) pData (DataWrites o);
    res_foldM (fun pData d => d ← deref d; v ← GetVersion db (DbName o) (DD_Key d);
      Ok (addProvDelete pData (DD_Key d) v)) pData (DataDeletes o)) = Ok e → record_of db version (DTx_TxId tx) o e).
  { intros o e He. apply bind_ok_inv in He as (u & _ & He). apply bind_ok_inv in He as (p & Hw & Hd).
    apply prov_writes in Hw as (E1 & E2 & _ & E4 & E5 & E6 & E7 & Hin & _).
    apply prov_deletes in Hd as (D1 & D2 & _ & D4 & D5 & D6 & D7 & HD). cbn in *. split; try congruence.
    - intros k v. rewrite HD, E6, lookup_empty. unfold delete_keys. naive_solver.
    - intros k Hk. destruct (Hin k Hk) as (v & Hv & Hs & Hn). exists v. split; [done|]. rewrite D7.
      destruct v; [by apply Hs|]. by rewrite Hn, lookup_empty. }
  split.
  - intros e He. apply (res_mapM_elem _ _ _ _ H) in He as (o & Ho & He). exists o. auto.
  - intros o [i Hi]%list_elem_of_lookup_1. destruct (res_mapM_lookup _ _ _ _ _ H Hi) as (e & He & Hr).
    exists e. split; [by eapply list_elem_of_lookup_2|]. auto.
Qed.

(** ** The records of a block *)

Lemma records_of_block db b i infos envs ups pd ups' pd' :
  dataEntries db true b i infos envs ups pd = Ok (ups', pd') →
  (∀ e, e ∈ pd' → e ∈ pd ∨ PD_IsValid e = false ∨
     ∃ j env o, valid_at envs infos j env ∧ o ∈ DbOperations (DEnv_Payload env) ∧
       record_of db (mkVersion b (Z.of_nat (i + j))) (DTx_TxId (DEnv_Payload env)) o e) ∧
  (∀ e, e ∈ pd → e ∈ pd') ∧
  (∀ j env o, valid_at envs infos j env → o ∈ DbOperations (DEnv_Payload env) →
     ∃ e, e ∈ pd' ∧ record_of db (mkVersion b (Z.of_nat (i + j))) (DTx_TxId (DEnv_Payload env)) o e).
Proof.
  revert i envs ups pd. induction infos as [|info infos IH]; intros i envs ups pd H; cbn [dataEntries] in H.
  { injection H as <- <-. unfold valid_at. naive_solver. }
  destruct envs as [|env envs]; [by rewrite andb_false_r in H|].
  setoid_rewrite valid_at_cons. case_bool_decide as Hv.
  - apply IH in H as (H1 & H2 & H3). split_and!.
    + intros e He. destruct (H1 e He) as [[Hin| ->%list_elem_of_singleton]%elem_of_app|[?|(j & en & o & ? & ? & Hr)]];
        [by left|by right; left|by right; left|]. right. right. exists (S j), en, o. rewrite Nat.add_succ_comm in Hr. eauto 10.
    + intros e He. apply H2, elem_of_app. by left.
    + intros j en o [(-> & -> & ?)|(j' & -> & Hva)] Ho; [done|]. destruct (H3 j' en o Hva Ho) as (e & ? & Hr).
      exists e. by rewrite <- Nat.add_succ_comm.
  - apply bind_ok_inv in H as (nd & Hnd & H). apply bind_ok_inv in H as (ups1 & _ & H).
    apply records_of_tx in Hnd as [R1 R2]. apply IH in H as (H1 & H2 & H3). split_and!.
    + intros e He. destruct (H1 e He) as [[Hin|Hin]%elem_of_app|[?|(j & en & o & ? & ? & Hr)]].
      * by left.
      * right. right. destruct (R1 e Hin) as (o & Ho & Hr). exists 0%nat, env, o. rewrite Nat.add_0_r.
        split; [|done]. left. clear -Hv. naive_solver.
      * by right; left.
      * right. right. exists (S j), en, o. rewrite Nat.add_succ_comm in Hr. eauto 10.
    + intros e He. apply H2, elem_of_app. by left.
    + intros j en o [(-> & -> & _)|(j' & -> & Hva)] Ho.
      * destruct (R2 o Ho) as (e & He & Hr). exists e. rewrite Nat.add_0_r. split; [|done]. apply H2, elem_of_app. by right.
      * destruct (H3 j' en o Hva Ho) as (e & ? & Hr). exists e. by rewrite <- Nat.add_succ_comm.
Qed.

End Records.

(** ** A data block *)

Section Follow.
Context `{!WorldState D, !Codec ClusterConfig, !WorldStateLaws D, !Codec User, !Codec NodeConfig,
  !TxMarshal DataTx, !TxMarshal UserAdministrationTx, !TxMarshal DBAdministrationTx, !TxMarshal ConfigTx}
  {x509 : X509} {mr : MapRange} {nt : NetTime}.
Implicit Types (db : D).

Definition user_db (n : string) : Prop := IsSystemDB n = false ∧ ∀ m, n ≠ IndexDB m.

(** A key holds its last recorded value, or nothing when it was never written or was
    deleted since. *)
Definition current (H : history) (n k : string) (c : bytes * option Metadata) : Prop :=
  (∃ kv, latest H n k kv ∧ c = (KV_Value kv, KV_Metadata kv)) ∨
  (c = ([], None) ∧ ((∀ kv, wrote H n kv → KV_Key kv ≠ k) ∨ ∃ kv, latest H n k kv ∧ deleted H n kv)).

Definition in_step (H : history) db : Prop :=
  ∀ n k, user_db n → current H n k (BlockIsolation.committed db n k).

(** Keys, values and identifiers as decoded messages have them, without the separator
    in identifiers. *)
Definition texts_wf (pd : list TxDataForProvenance) : Prop :=
  ∀ e, e ∈ pd → PD_IsValid e = true →
    no_separator (PD_TxID e) ∧ no_separator (PD_UserID e) ∧ ∀ kv, kv ∈ PD_Writes e → kv_wf kv.

Lemma valid_name_wf db n : ValidDBName db n = true → name_wf n.
Proof.
  intros [_ Hn]%valid_db_name_chars%andb_true_iff. split_and!.
  - unfold no_separator. induction n as [|c n IH]; [done|]. cbn in *. apply andb_true_iff in Hn as [Hc Hn].
    rewrite IH by done. rewrite bool_decide_eq_true_2; [done|]. by intros ->.
  - apply ascii_string_valid. induction n as [|c n IH]; [done|]. cbn in *. apply andb_true_iff in Hn as [Hc Hn].
    rewrite IH, andb_true_r by done. unfold allowed_char in Hc. unfold code.
    repeat rewrite ?orb_true_iff, ?andb_true_iff, ?N.leb_le, ?N.eqb_eq in Hc. apply Z.ltb_lt. lia.
  - intros r ->. cbn in Hn. done.
Qed.

Lemma version_committed db n k v : GetVersion db n k = Ok v → v = GetVersion_of (BlockIsolation.committed db n k).2.
Proof.
  rewrite get_version_get. intros H. apply bind_ok_inv in H as ([val m] & Hg & [= <-]).
  unfold BlockIsolation.committed. by rewrite Hg.
Qed.

(** The version of a key in step is that of its last recorded value. *)
Lemma current_version H db n k v : history_wf H → in_step H db → user_db n → GetVersion db n k = Ok v →
  match v with
  | Some _ => ∃ kv, latest H n k kv ∧ version_of kv = v
  | None => (∀ kv, wrote H n kv → KV_Key kv ≠ k) ∨ ∃ kv, latest H n k kv ∧ deleted H n kv
  end.
Proof.
  intros HH Hs Hn Hv%version_committed. destruct (Hs n k Hn) as [(kv & Hl & E)|[E Hno]]; rewrite E in Hv; cbn in Hv.
  - destruct (wrote_version_wf _ _ _ HH (proj1 Hl)) as (w & Ew & _). unfold version_of in Ew. unfold GetVersion_of in Hv.
    rewrite Ew in Hv. subst v. exists kv. split; [done|]. unfold version_of. by rewrite Ew.
  - by subst v.
Qed.

Section Block.
Context (H : history) (db : D) (block : Block) (envs : list DataTxEnvelope) (infos : list ValidationInfo).
Context (ups : gmap string DBUpdates) (pd : list TxDataForProvenance).
Let b := Number (BaseHeader (Header block)).
Hypothesis (Hval : ValidateBlock db block = Ok infos) (Hng : not_genesis block).
Hypothesis (Hpay : Payload block = Some (Block_DataTxEnvelopes envs)).
Hypothesis (Hent : dataEntries db true b 0 infos envs ∅ [] = Ok (ups, pd)).
Hypothesis (HH : history_wf H) (Hs : in_step H db) (Ht : texts_wf pd).
Hypothesis (Hnum : 0 < b < 2 ^ 64) (Hlater : ∀ b' txs, (b', txs) ∈ H → b' < b) (Hidx : ∀ m, ups !! IndexDB m = None).

Lemma record_inv e : e ∈ pd → PD_IsValid e = true → ∃ j env o, valid_at envs infos j env ∧
  o ∈ DbOperations (DEnv_Payload env) ∧ record_of db (mkVersion b (Z.of_nat j)) (DTx_TxId (DEnv_Payload env)) o e.
Proof using All.
  intros He Hv. destruct (records_of_block _ _ _ _ _ _ _ _ _ Hent) as (H1 & _).
  destruct (H1 e He) as [Hin|[?|?]]; [by inversion Hin|congruence|done].
Qed.

Lemma op_user_db j env o : valid_at envs infos j env → o ∈ DbOperations (DEnv_Payload env) →
  ValidDBName db (DbName o) = true ∧ user_db (DbName o).
Proof using All.
  intros Hv Ho. pose proof (valid_at_spec db block envs infos Hval Hng Hpay j env Hv) as (_ & us & _ & [_ Hops]).
  destruct (Hops o Ho) as ([Hn _ Hsys] & _). split; [done|]. split; [done|]. intros m E.
  destruct (dataEntries_ok _ _ _ _ _ _ _ _ _ _ Hent) as (Hi & _).
  assert (is_Some (ups !! DbName o)) as [u Hu] by (apply Hi; right; by exists j, env, o).
  by rewrite E, Hidx in Hu.
Qed.

Lemma op_write_inv version o kv : kv ∈ entry_of version <$> omap id (DataWrites o) →
  ∃ w, Some w ∈ DataWrites o ∧ kv = entry_of version w ∧ KV_Key kv ∈ write_keys o.
Proof.
  intros (w & -> & Hw)%list_elem_of_fmap. exists w. split_and!; [by apply elem_of_omap_id|done|].
  change (KV_Key (entry_of version w)) with (DW_Key w). by apply list_elem_of_fmap_2.
Qed.

(** A key that a valid transaction deletes holds its last recorded value. *)
Lemma deleted_key_current j env o k : valid_at envs infos j env → o ∈ DbOperations (DEnv_Payload env) → k ∈ delete_keys o →
  ∃ kv, latest H (DbName o) k kv ∧ BlockIsolation.committed db (DbName o) k = (KV_Value kv, KV_Metadata kv) ∧
    GetVersion db (DbName o) k = Ok (version_of kv).
Proof using All.
  intros Hva Ho Hk. pose proof (valid_at_spec db block envs infos Hval Hng Hpay j env Hva) as (_ & us & _ & [_ Hops]).
  destruct (Hops o Ho) as (_ & acc & _ & [_ Hdel _ _ _ _ _] & _).
  apply list_elem_of_fmap in Hk as (d & -> & Hd%elem_of_omap_id). destruct (Hdel _ Hd) as (d' & [= <-] & _ & val & m & Hg & Hne).
  destruct (Hs (DbName o) (DD_Key d)) as [(kv & Hl & E)|[E _]]; [by eapply op_user_db| |].
  - exists kv. split_and!; [done..|]. unfold BlockIsolation.committed in E. rewrite Hg in E. injection E as _ ->.
    by rewrite get_version_get, Hg.
  - destruct Hne. unfold BlockIsolation.committed in E. rewrite Hg in E. by injection E.
Qed.

(** The records of the block extend the history. *)
Lemma records_wf : block_wf H b pd.
Proof using All.
  pose proof (valid_at_spec db block envs infos Hval Hng Hpay) as Hspec. split.
  - done.
  - done.
  - intros e He Hv. destruct (record_inv e He Hv) as (j & env & o & Hva & Ho & Hr). destruct (Ht e He Hv) as (? & ? & _).
    split_and!; [|done..]. rewrite (ro_db _ _ _ _ _ Hr). eapply valid_name_wf, op_user_db; done.
  - intros e kv He Hv Hkv. destruct (record_inv e He Hv) as (j & env & o & Hva & Ho & Hr). destruct (Ht e He Hv) as (_ & _ & Hwf).
    split; [by apply Hwf|]. rewrite (ro_writes _ _ _ _ _ Hr) in Hkv. apply op_write_inv in Hkv as (w & _ & -> & _). by eexists _, _.
  - intros e e' kv kv' He He' Hv Hv' Hkv Hkv' Hdb Hk.
    destruct (record_inv e He Hv) as (j & env & o & Hva & Ho & Hr). destruct (record_inv e' He' Hv') as (j' & env' & o' & Hva' & Ho' & Hr').
    rewrite (ro_writes _ _ _ _ _ Hr) in Hkv. rewrite (ro_writes _ _ _ _ _ Hr') in Hkv'.
    rewrite (ro_db _ _ _ _ _ Hr), (ro_db _ _ _ _ _ Hr') in Hdb.
    apply op_write_inv in Hkv as (w & Hw & -> & Hwk). apply op_write_inv in Hkv' as (w' & Hw' & -> & Hwk'). cbn in Hk.
    assert (j = j') as <-.
    { eapply (valid_at_unique db block envs infos Hval Hng Hpay j j' env env' (DbName o) (DW_Key w)); [done..|left|left].
      - by exists o.
      - rewrite Hk. exists o'. split_and!; [done|by rewrite Hdb|done]. }
    assert (env' = env) as -> by (destruct Hva as [? _], Hva' as [? _]; congruence).
    destruct (find_write env (DbName o) (DW_Key w)) as [w0|] eqn:Ef; [|exfalso; apply find_write_none in Ef; apply Ef; by exists o].
    rewrite (valid_write_unique _ _ _ _ _ _ _ _ (Hspec _ _ Hva) Ef Ho eq_refl Hw eq_refl).
    by rewrite (valid_write_unique _ _ _ _ _ _ _ _ (Hspec _ _ Hva) Ef Ho' (eq_sym Hdb) Hw' (eq_sym Hk)).
  - intros e r He Hv Hrd Hn. destruct (record_inv e He Hv) as (j & env & o & Hva & Ho & Hr).
    rewrite (ro_reads _ _ _ _ _ Hr) in Hrd. apply list_elem_of_fmap in Hrd as (r' & -> & Hr'). cbn in *.
    destruct (data_tx_valid_read _ _ _ _ _ (Hspec _ _ Hva) Ho Hr') as [_ Hver].
    apply (current_version H) in Hver; [|done..|by eapply op_user_db]. destruct (DR_Version r') as [v|]; [|done].
    destruct Hver as (kv & (Hw & Hk & _) & Hve). exists kv. by rewrite (ro_db _ _ _ _ _ Hr).
  - intros e k v He Hv Hdel. destruct (record_inv e He Hv) as (j & env & o & Hva & Ho & Hr).
    apply (ro_deletes _ _ _ _ _ Hr) in Hdel as [Hk Hver]. rewrite (ro_db _ _ _ _ _ Hr).
    destruct (deleted_key_current j env o k Hva Ho Hk) as (kv & Hl & _ & Ev).
    destruct (Hl) as (Hw & Hkk & _). exists kv. split_and!; [done..|]. congruence.
  - intros e kv He Hv Hkv. destruct (record_inv e He Hv) as (j & env & o & Hva & Ho & Hr).
    rewrite (ro_writes _ _ _ _ _ Hr) in Hkv. apply op_write_inv in Hkv as (w & _ & -> & Hwk).
    rewrite (ro_db _ _ _ _ _ Hr). destruct (ro_old _ _ _ _ _ Hr _ Hwk) as (v & Hver & ->).
    apply (current_version H) in Hver; [|done..|by eapply op_user_db]. by destruct v.
Qed.

(** ** The state after the block *)

Let H' := H ++ [(b, pd)].

Lemma new_write n kv : wrote H' n kv → wrote H n kv ∨
  ∃ j env o w, valid_at envs infos j env ∧ o ∈ DbOperations (DEnv_Payload env) ∧ DbName o = n ∧ Some w ∈ DataWrites o ∧
    kv = entry_of (mkVersion b (Z.of_nat j)) w ∧ writes_key env n (KV_Key kv).
Proof using All.
  intros [Hw|(e & He & Hv & Hdb & Hkv)]%wrote_snoc; [by left|right].
  destruct (record_inv e He Hv) as (j & env & o & Hva & Ho & Hr).
  rewrite (ro_writes _ _ _ _ _ Hr) in Hkv. rewrite (ro_db _ _ _ _ _ Hr) in Hdb.
  apply op_write_inv in Hkv as (w & Hw & -> & Hwk). exists j, env, o, w. split_and!; try done. by exists o.
Qed.

Lemma latest_kept n k kv : (∀ j env, valid_at envs infos j env → ¬ writes_key env n k) → latest H n k kv → latest H' n k kv.
Proof using All.
  intros Hno (Hw & Hk & Hmax). split_and!; [apply wrote_snoc; by left|done|].
  intros kv' [Hw'|(j & env & o & w & Hva & _ & _ & _ & _ & Hwk)]%new_write Hk'; [by apply Hmax|].
  rewrite Hk' in Hwk. by destruct (Hno j env).
Qed.

Lemma current_kept n k c : (∀ j env, valid_at envs infos j env → ¬ writes_key env n k) → current H n k c → current H' n k c.
Proof using All.
  intros Hno [(kv & Hl & ->)|[-> [Hn|(kv & Hl & Hd)]]].
  - left. exists kv. split; [by apply latest_kept|done].
  - right. split; [done|]. left. intros kv [Hw|(j & env & o & w & Hva & _ & _ & _ & _ & Hwk)]%new_write Hk; [by eapply Hn|].
    rewrite Hk in Hwk. by destruct (Hno j env).
  - right. split; [done|]. right. exists kv. split; [by apply latest_kept|]. apply deleted_snoc. by left.
Qed.

(** The key is deleted by a valid transaction of the block. *)
Lemma current_deleted j env n k : valid_at envs infos j env → deletes_key env n k → current H' n k ([], None).
Proof using All.
  intros Hva (o & Ho & <- & Hk). pose proof (valid_at_spec db block envs infos Hval Hng Hpay) as Hspec.
  destruct (deleted_key_current j env o k Hva Ho Hk) as (kv & Hl & _ & Hver).
  right. split; [done|]. right. exists kv. split.
  - apply latest_kept; [|done]. intros j' env' Hva' Hw.
    assert (j' = j) as ->.
    { eapply (valid_at_unique db block envs infos Hval Hng Hpay); [done..|by left|right; by exists o]. }
    assert (env' = env) as -> by (destruct Hva as [? _], Hva' as [? _]; congruence).
    eapply valid_write_not_delete; [by apply Hspec|done|by exists o].
  - apply deleted_snoc. right. destruct (records_of_block _ _ _ _ _ _ _ _ _ Hent) as (_ & _ & Hrec).
    destruct (Hrec j env o Hva Ho) as (e & He & Hr). exists e.
    split_and!; [done|by apply (ro_valid _ _ _ _ _ Hr)|by apply (ro_db _ _ _ _ _ Hr)|].
    apply (ro_deletes _ _ _ _ _ Hr). destruct Hl as (_ & -> & _). done.
Qed.

(** The key is written by a valid transaction of the block. *)
Lemma current_written j env n w : valid_at envs infos j env → find_write env n (DW_Key w) = Some w →
  current H' n (DW_Key w) (BlockIsolation.written b j w).
Proof using All.
  intros Hva (o & Ho & <- & Hw & _)%find_write_some. left. exists (entry_of (mkVersion b (Z.of_nat j)) w).
  split; [|done]. split_and!; [|done|].
  - apply wrote_snoc. right. destruct (records_of_block _ _ _ _ _ _ _ _ _ Hent) as (_ & _ & Hrec).
    destruct (Hrec j env o Hva Ho) as (e & He & Hr). exists e.
    split_and!; [done|by apply (ro_valid _ _ _ _ _ Hr)|by apply (ro_db _ _ _ _ _ Hr)|].
    rewrite (ro_writes _ _ _ _ _ Hr). by apply list_elem_of_fmap_2, elem_of_omap_id.
  - change (block_of (entry_of (mkVersion b (Z.of_nat j)) w)) with b.
    intros kv' [Hw'|(j' & env' & o' & w' & _ & _ & _ & _ & -> & _)]%new_write _; [|done].
    pose proof (wrote_block_earlier _ _ _ _ _ HH records_wf Hw'). lia.
Qed.

Lemma state_in_step db' : (∀ n k, user_db n → BlockIsolation.committed db' n k =
    execute_serially b 0 (zip envs infos) (BlockIsolation.committed db) n k) → in_step H' db'.
Proof using All.
  intros Hser n k Hn. rewrite Hser by done.
  destruct (decide (Exists (fun p => is_valid p.2 = true ∧ (deletesb p.1 n k = true ∨ find_write p.1 n k ≠ None)) (zip envs infos)))
    as [Hex|Hno].
  - apply Exists_exists in Hex as ([env info] & [j Hj]%list_elem_of_lookup_1 & Hv & Hm). cbn in Hv, Hm.
    pose proof (zip_valid_at envs infos _ _ _ Hj Hv) as Hva.
    assert (Hmod : modifies_key env n k).
    { destruct Hm as [Hd|Hw]; [right; by apply deletesb_spec|left].
      destruct (find_write env n k) as [w|] eqn:Ef; [|done]. apply find_write_some in Ef as (o & Ho & Hon & Hw' & <-).
      exists o. split_and!; [done..|]. by apply list_elem_of_fmap_2, elem_of_omap_id. }
    destruct (execute_serially_at b 0 (zip envs infos) (BlockIsolation.committed db) n k j env info Hj Hv) as [st ->].
    { intros j' env' info' Hne Hz Hv' Hm'. apply Hne.
      eapply (valid_at_unique db block envs infos Hval Hng Hpay); [by eapply zip_valid_at|done..]. }
    unfold execute. destruct (deletesb env n k) eqn:Ed.
    + eapply current_deleted; [done|]. by apply deletesb_spec.
    + destruct (find_write env n k) as [w|] eqn:Ef; [|by destruct Hm].
      pose proof (find_write_some _ _ _ _ Ef) as (o & _ & _ & _ & <-). by eapply current_written.
  - assert (Hnone : ∀ env info, (env, info) ∈ zip envs infos → is_valid info = true → ¬ modifies_key env n k).
    { intros env info Hin Hv Hm. apply Hno, Exists_exists. exists (env, info). split; [done|]. split; [done|]. cbn.
      destruct Hm as [Hw|Hd]; [right; by intros Ef%find_write_none|left; by apply deletesb_spec]. }
    rewrite execute_serially_other by done. apply current_kept; [|by apply Hs].
    intros j env (He & info & Hi & Hv) Hw. eapply (Hnone env info); [| |by left].
    + apply (list_elem_of_lookup_2 _ j). apply lookup_zip_with_Some. eauto.
    + by apply is_valid_spec.
Qed.

End Block.

Lemma follow_step {G} `{!Graph G, !GraphLaws G} H (g g' : G) db block infos envs ups pd block' db' :
  ValidateBlock db block = Ok infos → not_genesis block → Payload block = Some (Block_DataTxEnvelopes envs) →
  constructDBAndProvenanceEntries db true (with_infos block infos) = Ok (ups, pd, block') →
  ProvenanceCommit (Number (BaseHeader (Header block))) pd g = (g', Ok tt) →
  commitToStateDB db (Number (BaseHeader (Header block))) ups = (db', Ok tt) →
  0 < Number (BaseHeader (Header block)) < 2 ^ 64 →
  (∀ b txs, (b, txs) ∈ H → b < Number (BaseHeader (Header block))) →
  texts_wf pd → (∀ m, ups !! IndexDB m = None) →
  ProvenanceHistory.committed H g → in_step H db →
  ProvenanceHistory.committed (H ++ [(Number (BaseHeader (Header block)), pd)]) g' ∧
  in_step (H ++ [(Number (BaseHeader (Header block)), pd)]) db'.
Proof.
  intros Hval Hng Hpay Hc Hg Hcom Hnum Hlater Ht Hidx HC Hs. destruct (committed_recorded _ _ HC) as [HH _].
  pose proof (data_block_entries _ _ _ _ _ _ _ _ Hpay Hc) as Hent. split.
  - eapply committed_block; [done| |done]. by eapply records_wf.
  - eapply state_in_step; try done. intros n k [Hsys Hn]. eapply committed_serially; try done. by intros ->.
Qed.

(** C12: the provenance store follows the world state: when every key of the user
    databases holds its last recorded value, and nothing if it was deleted since, this
    still holds after a validated data block is committed to both, and the records of the
    block extend the history of the store. *)
Theorem provenance_follows_state {G} `{!Graph G, !GraphLaws G} H (g g' : G) db block infos envs ups pd block' db' :
  ValidateBlock db block = Ok infos → not_genesis block → Payload block = Some (Block_DataTxEnvelopes envs) →
  constructDBAndProvenanceEntries db true (with_infos block infos) = Ok (ups, pd, block') →
  ProvenanceCommit (Number (BaseHeader (Header block))) pd g = (g', Ok tt) →
  commitToStateDB db (Number (BaseHeader (Header block))) ups = (db', Ok tt) →
  0 < Number (BaseHeader (Header block)) < 2 ^ 64 →
  (∀ b txs, (b, txs) ∈ H → b < Number (BaseHeader (Header block))) →
  texts_wf pd → (∀ m, ups !! IndexDB m = None) →
  ProvenanceHistory.committed H g → in_step H db →
  ProvenanceHistory.committed (H ++ [(Number (BaseHeader (Header block)), pd)]) g' ∧
  in_step (H ++ [(Number (BaseHeader (Header block)), pd)]) db'.
Proof. apply follow_step. Qed.

End Follow.
