(* ===== verification/ProvenanceExample.v ===== *)
(** * A small provenance store

    A key is created, deleted and created again while the provenance store follows; and
    transaction identifiers that look like composite keys. *)

From S2P Require Import Prelude StringOrder Types JSON JSONPrint WorldState ProvenanceJSON LevelDB Identity Validation.
From S2P Require Import DataTxValidator UserTxValidator DbTxValidator ReConfig ConfigTxValidator Instances Validator.
From S2P Require Import BlockIsolation AdminTx DbEntries StateIndex Committer CommitProofs Processor.
From S2P Require Import Provenance QuadList ProvenanceProofs ProvenanceHistory ProvenanceCommit.
From Stdlib Require Import Ascii.
Open Scope Z_scope.

Module ProvenanceExample.
Import Toy.

(** ** Running blocks on both stores *)

Definition both : Type := LevelDB * list Quad.

#[local] Notation number block := (Number (BaseHeader (Header block))).
Definition infos_of (s : both) block : list ValidationInfo := match ValidateBlock s.1 block with Ok l => l | _ => [] end.
Definition entries (s : both) block := constructDBAndProvenanceEntries s.1 true (with_infos block (infos_of s block)).
Definition ups_of (s : both) block : gmap string DBUpdates := match entries s block with Ok (u, _, _) => u | _ => ∅ end.
Definition pd_of (s : both) block : list TxDataForProvenance := match entries s block with Ok (_, p, _) => p | _ => [] end.

Definition next (s : both) block : both :=
  ((commitToStateDB s.1 (number block) (ups_of s block)).1, (ProvenanceCommit (number block) (pd_of s block) s.2).1).

Definition text_okb (e : TxDataForProvenance) : bool :=
  string_forallb (fun x => bool_decide (x ≠ "$"%char)) (PD_TxID e) &&
  string_forallb (fun x => bool_decide (x ≠ "$"%char)) (PD_UserID e) &&
  forallb (fun kv => utf8_valid (KV_Key kv) && bool_decide (Forall byte (KV_Value kv)) &&
    match KV_Metadata kv with
    | Some (mkMetadata (Some v) None) =>
      (0 <=? BlockNum v) && (BlockNum v <? 2 ^ 64) && (0 <=? TxNum v) && (TxNum v <? 2 ^ 64)
    | _ => false
    end) (PD_Writes e).

Lemma text_okb_wf pd : forallb text_okb pd = true → texts_wf pd.
Proof.
  intros H e He _. rewrite forallb_forall in H. specialize (H e (proj1 (list_elem_of_In _ _) He)).
  unfold text_okb in H. apply andb_true_iff in H as [[H1 H2]%andb_true_iff H]. split_and!; [done..|].
  intros kv Hkv. rewrite forallb_forall in H. specialize (H kv (proj1 (list_elem_of_In _ _) Hkv)).
  apply andb_true_iff in H as [[Hu Hb%bool_decide_eq_true]%andb_true_iff H]. split_and!; [done..|].
  intros m Em. rewrite Em in H. destruct m as [[v|] [a|]]; try done.
  rewrite !andb_true_iff, !Z.leb_le, !Z.ltb_lt in H. split; [|done]. intros v' [= <-]. unfold version_wf, uint64. lia.
Qed.

Definition okb (H : history) (s : both) block : bool :=
  is_ok (ValidateBlock s.1 block) && is_ok (entries s block) &&
  is_ok (ProvenanceCommit (number block) (pd_of s block) s.2).2 &&
  is_ok (commitToStateDB s.1 (number block) (ups_of s block)).2 &&
  forallb text_okb (pd_of s block) && forallb (fun p => p.1 <? number block) H &&
  forallb (fun p => negb (String.prefix "_index_" p.1)) (map_to_list (ups_of s block)).

Lemma ends_ok {S} (x : S * res unit) : is_ok x.2 = true → x = (x.1, Ok tt).
Proof. by destruct x as [? [[]| |]]. Qed.

Lemma index_prefix m : String.prefix "_index_" (IndexDB m) = true.
Proof. by destruct m. Qed.

(** The hypotheses of a step, evaluated. *)
Lemma okb_hyps H s block : okb H s block = true →
  ValidateBlock s.1 block = Ok (infos_of s block) ∧
  (∃ block', constructDBAndProvenanceEntries s.1 true (with_infos block (infos_of s block)) =
    Ok (ups_of s block, pd_of s block, block')) ∧
  ProvenanceCommit (number block) (pd_of s block) s.2 = ((next s block).2, Ok tt) ∧
  commitToStateDB s.1 (number block) (ups_of s block) = ((next s block).1, Ok tt) ∧
  texts_wf (pd_of s block) ∧ (∀ b txs, (b, txs) ∈ H → b < number block) ∧ (∀ m, ups_of s block !! IndexDB m = None).
Proof.
  unfold okb. rewrite !andb_true_iff. intros ((((((H1 & H2) & H3) & H4) & H5) & H6) & H7).
  split_and!.
  - unfold infos_of. by destruct (ValidateBlock s.1 block).
  - unfold ups_of, pd_of. fold (entries s block). destruct (entries s block) as [[[u p] b']| |]; [|done..]. by exists b'.
  - by apply ends_ok.
  - by apply ends_ok.
  - by apply text_okb_wf.
  - intros b txs Hin. rewrite forallb_forall in H6. by apply Z.ltb_lt, (H6 (b, txs)), list_elem_of_In.
  - intros m. apply eq_None_not_Some. intros [u Hu%elem_of_map_to_list]. rewrite forallb_forall in H7.
    specialize (H7 _ (proj1 (list_elem_of_In _ _) Hu)). cbn [fst] in H7. by rewrite index_prefix in H7.
Qed.

(** ** A key with three versions *)

Definition block_of_txs (n : Z) (envs : list DataTxEnvelope) : Block := mkBlock (header n) (Some (Block_DataTxEnvelopes envs)) None.

Lemma numbered n envs : n ≠ 1 → not_genesis (block_of_txs n envs).
Proof. done. Qed.

Definition create : list DataTxEnvelope := [data_tx "alice" 1 "create" (data_op [("k1", None)] ["k1"] [])].
Definition remove : list DataTxEnvelope := [data_tx "bob" 2 "remove" (data_op [("k1", version 3 0)] ["k2"] ["k1"])].
Definition again : list DataTxEnvelope := [data_tx "alice" 1 "again" (data_op [("k2", version 4 0)] ["k1"] [])].

Definition both2 : both := (state2, []).
Definition both3 : both := next both2 (block_of_txs 3 create).
Definition both4 : both := next both3 (block_of_txs 4 remove).
Definition both5 : both := next both4 (block_of_txs 5 again).

Definition H3 : history := [(3, pd_of both2 (block_of_txs 3 create))].
Definition H4 : history := H3 ++ [(4, pd_of both3 (block_of_txs 4 remove))].
Definition H5 : history := H4 ++ [(5, pd_of both4 (block_of_txs 5 again))].

Lemma empty_okb : forallb (fun p : string * gmap string bytes => IsSystemDB p.1 || bool_decide (p.2 = ∅)) (map_to_list (dbs state2)) = true.
Proof. vm_compute. reflexivity. Qed.

Lemma empty_in_step : in_step [] both2.1.
Proof.
  change both2.1 with state2. intros n k [Hs _]. right. split.
  - unfold BlockIsolation.committed. change (Get state2 n k) with (LDB.Get state2 n k). unfold LDB.Get.
    destruct (dbs state2 !! n) as [m|] eqn:E; [|done]. apply elem_of_map_to_list in E.
    pose proof empty_okb as H. rewrite forallb_forall in H. specialize (H _ (proj1 (list_elem_of_In _ _) E)).
    cbn [fst snd] in H. rewrite Hs in H. apply bool_decide_eq_true in H. by rewrite H, lookup_empty.
  - left. intros kv (? & ? & (? & Hin & _) & _). by inversion Hin.
Qed.

Lemma steps_ok : okb [] both2 (block_of_txs 3 create) = true ∧ okb H3 both3 (block_of_txs 4 remove) = true ∧
  okb H4 both4 (block_of_txs 5 again) = true.
Proof. vm_compute. done. Qed.

Lemma empty_committed : ProvenanceHistory.committed [] both2.2.
Proof. apply committed_empty. intros q Hq. by inversion Hq. Qed.

Lemma history4 : ProvenanceHistory.committed H4 both4.2 ∧ in_step H4 both4.1.
Proof.
  destruct steps_ok as (Ok3 & Ok4 & _).
  destruct (okb_hyps _ _ _ Ok3) as (V3 & [b3 E3] & P3 & C3 & T3 & L3 & I3).
  destruct (okb_hyps _ _ _ Ok4) as (V4 & [b4 E4] & P4 & C4 & T4 & L4 & I4).
  destruct (follow_step [] both2.2 both3.2 both2.1 (block_of_txs 3 create) _ create
    (ups_of both2 (block_of_txs 3 create)) (pd_of both2 (block_of_txs 3 create)) b3 both3.1
    V3 (numbered 3 create ltac:(done)) eq_refl E3 P3 C3 (conj eq_refl eq_refl) L3 T3 I3 empty_committed empty_in_step)
    as [HC3 HS3].
  exact (follow_step H3 both3.2 both4.2 both3.1 (block_of_txs 4 remove) _ remove
    (ups_of both3 (block_of_txs 4 remove)) (pd_of both3 (block_of_txs 4 remove)) b4 both4.1
    V4 (numbered 4 remove ltac:(done)) eq_refl E4 P4 C4 (conj eq_refl eq_refl) L4 T4 I4 HC3 HS3).
Qed.

Lemma provenance_follows_state_witness :
  ProvenanceHistory.committed H5 both5.2 ∧ in_step H5 both5.1.
Proof.
  destruct (okb_hyps _ _ _ (proj2 (proj2 steps_ok))) as (V5 & [b5 E5] & P5 & C5 & T5 & L5 & I5).
  exact (provenance_follows_state H4 both4.2 both5.2 both4.1 (block_of_txs 5 again) _ again
    (ups_of both4 (block_of_txs 5 again)) (pd_of both4 (block_of_txs 5 again)) b5 both5.1
    V5 (numbered 5 again ltac:(done)) eq_refl E5 P5 C5 (conj eq_refl eq_refl) L5 T5 I5 (proj1 history4) (proj2 history4)).
Defined.

Lemma run5 : ProvenanceHistory.committed H5 both5.2.
Proof.
  destruct (okb_hyps _ _ _ (proj2 (proj2 steps_ok))) as (V5 & [b5 E5] & P5 & C5 & T5 & L5 & I5).
  exact (proj1 (follow_step H4 both4.2 both5.2 both4.1 (block_of_txs 5 again) _ again
    (ups_of both4 (block_of_txs 5 again)) (pd_of both4 (block_of_txs 5 again)) b5 both5.1
    V5 (numbered 5 again ltac:(done)) eq_refl E5 P5 C5 (conj eq_refl eq_refl) L5 T5 I5 (proj1 history4) (proj2 history4))).
Qed.

(** The last block once more. *)
Definition again5 := Provenance.Commit 5 (pd_of both4 (block_of_txs 5 again)) both5.2.

Lemma again5_ok : again5 = (again5.1, Ok tt).
Proof. apply ends_ok. vm_compute. reflexivity. Qed.

Lemma commit_again_changes_nothing_witness :
  again5 = (again5.1, Ok tt) ∧ ∀ q, has_quad again5.1 q ↔ has_quad both5.2 q.
Proof.
  destruct (okb_hyps _ _ _ (proj2 (proj2 steps_ok))) as (_ & _ & P5 & _).
  exact (conj again5_ok (proj2 (commit_again_changes_nothing H4 both4.2 5 (pd_of both4 (block_of_txs 5 again)) both5.2
    (proj1 history4) (committed_last _ _ _ _ run5) P5) again5.1 again5_ok)).
Defined.

(** ** Queries on its history *)

Lemma db1_name : name_wf "db1".
Proof. split_and!; [reflexivity..|]. by intros r [=]. Qed.

(** The value of k1 at the end. *)
Definition last_value : KVWithMetadata := mkKVWithMetadata "k1" [8] (meta 5 0).

Lemma wrote_checked H b txs db kv : (b, txs) ∈ H →
  existsb (fun tx => PD_IsValid tx && bool_decide (PD_DBName tx = db) && bool_decide (kv ∈ PD_Writes tx)) txs = true →
  wrote H db kv.
Proof.
  intros Hin (tx & Htx%list_elem_of_In & Hc)%existsb_exists.
  apply andb_true_iff in Hc as [[Hv Hd%bool_decide_eq_true]%andb_true_iff Hw%bool_decide_eq_true].
  exists b, tx. split_and!; [|done..]. by exists txs.
Qed.

Lemma last_written : wrote H5 "db1" last_value.
Proof.
  apply (wrote_checked _ 5 (pd_of both4 (block_of_txs 5 again))); [apply elem_of_app; right; apply list_elem_of_singleton; reflexivity|].
  vm_compute. reflexivity.
Qed.

Lemma provenance_values_exact_witness :
  ∃ l, GetValues both5.2 "db1" "k1" = Ok l ∧ ∀ x, x ∈ l ↔ ∃ kv, wrote H5 "db1" kv ∧ KV_Key kv = "k1" ∧ x = value_of kv.
Proof. exact (proj1 (provenance_values_exact H5 both5.2 "db1" "k1" run5 db1_name)). Defined.

Lemma provenance_chain_exact_witness :
  ∃ l, GetPreviousValues both5.2 "db1" "k1" (version_of last_value) (-1) = Ok l ∧
    ∀ x, x ∈ l ↔ ∃ kv', wrote H5 "db1" kv' ∧ (KV_Key kv' = "k1" ∧ block_of kv' < block_of last_value) ∧ x = value_of kv'.
Proof. exact (proj1 (provenance_chain_exact H5 both5.2 "db1" last_value run5 last_written)). Defined.

Definition all_txs (H : history) : list TxDataForProvenance := H ≫= snd.

Lemma valid_in_all H b tx : valid_in H b tx → tx ∈ all_txs H.
Proof. intros (txs & Hin & Htx & _). apply list_elem_of_bind. by exists (b, txs). Qed.

Lemma keys5_checked : forallb (fun tx => forallb (fun kv =>
  string_forallb (fun x => bool_decide (x ≠ "$"%char)) (KV_Key kv)) (PD_Writes tx)) (all_txs H5) = true.
Proof. vm_compute. reflexivity. Qed.

Lemma ids5_checked : forallb (fun tx => forallb (fun tx' =>
  bool_decide (PD_TxID tx ≠ PD_TxID tx') || bool_decide (PD_UserID tx = PD_UserID tx')) (all_txs H5)) (all_txs H5) = true.
Proof. vm_compute. reflexivity. Qed.

Lemma provenance_users_exact_witness :
  ∃ m, GetValuesDeletedByUser both5.2 "bob" = Ok m ∧
    ∀ db kv, kv ∈ default [] (m !! db) ↔
      ∃ b tx, valid_in H5 b tx ∧ PD_UserID tx = "bob" ∧ PD_DBName tx = db ∧ wrote H5 db kv ∧
        PD_Deletes tx !! KV_Key kv = Some (version_of kv).
Proof.
  refine (proj1 (proj2 (proj2 (proj2 (provenance_users_exact H5 both5.2 run5 _ _)))) "bob").
  - intros db kv (b & tx & Hv%valid_in_all & _ & Hkv). pose proof keys5_checked as H. rewrite forallb_forall in H.
    specialize (H tx (proj1 (list_elem_of_In _ _) Hv)). rewrite forallb_forall in H.
    exact (H kv (proj1 (list_elem_of_In _ _) Hkv)).
  - intros b tx b' tx' Hv%valid_in_all Hv'%valid_in_all E. pose proof ids5_checked as H. rewrite forallb_forall in H.
    specialize (H tx (proj1 (list_elem_of_In _ _) Hv)). rewrite forallb_forall in H.
    specialize (H tx' (proj1 (list_elem_of_In _ _) Hv')).
    apply orb_true_iff in H as [H%bool_decide_eq_true|H%bool_decide_eq_true]; done.
Defined.

(** ** Identifiers and keys with the separator *)

Definition crafted : list DataTxEnvelope := [data_tx "bob" 2 "db1$k9" (data_op [] [] ["k1"])].
Definition first_k9 : list DataTxEnvelope := [data_tx "alice" 1 "innocent" (data_op [] ["k9"] [])].

Definition crafted4 : both := next both3 (block_of_txs 4 crafted).

(** A transaction whose identifier is the composite key of another key can stop the
    commit of later blocks: bob deletes k1 under the identifier "db1$k9"; when alice then
    creates k9 for the first time, her transaction is valid, but the provenance store takes
    the deleted value of k1 for an old value of k9, does not find it under k9, and refuses
    the block. *)
Theorem crafted_tx_id_stops_commit :
  ValidateBlock both3.1 (block_of_txs 4 crafted) = Ok [valid] ∧
  (ProvenanceCommit 4 (pd_of both3 (block_of_txs 4 crafted)) both3.2).2 = Ok tt ∧
  ValidateBlock crafted4.1 (block_of_txs 5 first_k9) = Ok [valid] ∧
  (ProvenanceCommit 5 (pd_of crafted4 (block_of_txs 5 first_k9)) crafted4.2).2 =
    Err (PlainErr "error while finding the previous version of the key[db1$k9]").
Proof. vm_compute. done. Qed.

(** Keys are cut at the separator in the answers by user: alice writes the key a$b,
    and the store answers that she wrote the key a. *)
Theorem separator_in_key_is_cut :
  let s := next both2 (block_of_txs 3 [data_tx "alice" 1 "tx" (data_op [] ["a$b"] [])]) in
  (GetValuesWrittenByUser s.2 "alice" = Ok {["db1" := [mkKVWithMetadata "a" [8] (meta 3 0)]]}) ∧
  GetValues s.2 "db1" "a" = Ok [].
Proof. vm_compute. done. Qed.

End ProvenanceExample.
