(* ===== verification/Queue.v ===== *)
(** * Queues and promises

    [internal/queue]: queues on Go channels, the promises that clients wait for, and
    the table of pending transactions.  A channel operation that blocks is [None]. *)

From S2P Require Import Prelude Types.
Open Scope Z_scope.

(** ** Go channels *)

Record chan (A : Type) := mkChan { buffer : list A; capacity : nat; closed : bool }.

Arguments mkChan {A} _ _ _.
Arguments buffer {A} _.
Arguments capacity {A} _.
Arguments closed {A} _.

Definition make_chan {A} (n : nat) : chan A := mkChan [] n false.

Definition chan_send {A} (c : chan A) (x : A) : option (res (chan A)) :=
  if closed c then Some (Panic "send on closed channel")
  else if bool_decide (length (buffer c) < capacity c)%nat
  then Some (Ok (mkChan (buffer c ++ [x]) (capacity c) false))
  else None.

(** The zero value once the channel is closed and drained. *)
Definition chan_recv {A} (c : chan A) : option (option A * chan A) :=
  match buffer c with
  | x :: b => Some (Some x, mkChan b (capacity c) (closed c))
  | [] => if closed c then Some (None, c) else None
  end.

Definition chan_close {A} (c : chan A) : res (chan A) :=
  if closed c then Panic "close of closed channel" else Ok (mkChan (buffer c) (capacity c) true).

(** ** Queues *)

Definition Queue (A : Type) : Type := chan A.

Section Queue.
Context {A : Type}.
Implicit Types (q : Queue A).

Definition New (size : Z) : Queue A := make_chan (Z.to_nat size).

Definition Enqueue q (entry : A) : option (res (Queue A)) := chan_send q entry.

Definition Dequeue q : option (option A * Queue A) := chan_recv q.

(** Whether the entry or the timer comes first is not determined. *)
Inductive DequeueWithWaitLimit q : option A → Queue A → Prop :=
  | wait_entry entry q' : chan_recv q = Some (entry, q') → DequeueWithWaitLimit q entry q'
  | wait_timeout : DequeueWithWaitLimit q None q.

Definition Size q : Z := Z.of_nat (length (buffer q)).

Definition IsFull q : bool := Size q =? Z.of_nat (capacity q).

Definition IsEmpty q : bool := Size q =? 0.

Definition Capacity q : Z := Z.of_nat (capacity q).

Definition Close q : res (Queue A) := chan_close q.

(** A queue that is open, within its capacity and not full takes an entry at once. *)
Lemma enqueue_not_full q x : closed q = false → (length (buffer q) ≤ capacity q)%nat → IsFull q = false →
  Enqueue q x = Some (Ok (mkChan (buffer q ++ [x]) (capacity q) false)).
Proof.
  unfold IsFull, Size, Enqueue, chan_send. intros -> Hle Hf. apply Z.eqb_neq in Hf. rewrite bool_decide_eq_true_2; [done|]. lia.
Qed.

Lemma enqueue_ok q x q' : Enqueue q x = Some (Ok q') →
  closed q = false ∧ (length (buffer q) < capacity q)%nat ∧ q' = mkChan (buffer q ++ [x]) (capacity q) false.
Proof. unfold Enqueue, chan_send. destruct (closed q); [done|]. case_bool_decide; [|done]. by intros [= <-]. Qed.

Lemma chan_recv_some q x q' : chan_recv q = Some (Some x, q') →
  buffer q = x :: buffer q' ∧ capacity q' = capacity q ∧ closed q' = closed q.
Proof.
  unfold chan_recv. destruct (buffer q) as [|y b] eqn:E; [by destruct (closed q)|]. by intros [= -> <-].
Qed.

Lemma chan_recv_none q q' : chan_recv q = Some (None, q') → q' = q ∧ closed q = true ∧ buffer q = [].
Proof.
  unfold chan_recv. destruct (buffer q) as [|y b] eqn:E; [|done]. destruct (closed q) eqn:Ec; [|done]. by intros [= <-].
Qed.

End Queue.

(** ** Promises *)

Record TxReceipt := mkTxReceipt { Receipt_Header : BlockHeader; Receipt_TxIndex : Z }.

(** What is sent to a waiting client. *)
Inductive result :=
  | ReceiptResult (r : TxReceipt)
  | ErrorResult (e : goerr).

(** A promise by its address, nil for asynchronous submissions, and the result channels of
    the promises at their addresses. *)
#[global] Notation promise := (option nat).
#[global] Notation heap := (gmap nat (chan result)).

Definition NewCompletionPromise (timeout : Z) (h : heap) : promise * heap :=
  if timeout <=? 0 then (None, h)
  else let p := fresh (dom h) in (Some p, <[p := make_chan 1]> h).

(** [s.resultCh <- r; close(s.resultCh)] *)
Definition fulfil (s : promise) (r : result) (h : heap) : option (res heap) :=
  match s with
  | None => Some (Ok h)
  | Some p =>
    match h !! p with
    | None => Some (Panic "invalid memory address or nil pointer dereference")
    | Some ch =>
      match chan_send ch r with
      | None => None
      | Some (Ok ch) => Some (ch ← chan_close ch; Ok (<[p := ch]> h))
      | Some (Err e) => Some (Err e)
      | Some (Panic w) => Some (Panic w)
      end
    end
  end.

Definition done (s : promise) (r : TxReceipt) (h : heap) : option (res heap) := fulfil s (ReceiptResult r) h.

Definition error (s : promise) (err : goerr) (h : heap) : option (res heap) := fulfil s (ErrorResult err) h.

(** The result of waiting: nothing for asynchronous submissions; otherwise the timer or
    what the channel holds. *)
Inductive Wait : promise → heap → res (option TxReceipt) → heap → Prop :=
  | wait_async h : Wait None h (Ok None) h
  | wait_timer p h : Wait (Some p) h (Err (TimeoutErr "timeout has occurred while waiting for the transaction receipt")) h
  | wait_result p h ch r ch' : h !! p = Some ch → chan_recv ch = Some (r, ch') →
    Wait (Some p) h
      match r with
      | Some (ErrorResult e) => Err e
      | Some (ReceiptResult r) => Ok (Some r)
      | None => Err (ClosedErr "closed: promise consumed")
      end (<[p := ch']> h).

(** ** Pending transactions *)

Record PendingTxs := mkPendingTxs { txs : gmap string promise; promises : heap }.

Definition NewPendingTxs : PendingTxs := mkPendingTxs ∅ ∅.

Definition Add (txID : string) (s : promise) (p : PendingTxs) : PendingTxs :=
  mkPendingTxs (<[txID := s]> (txs p)) (promises p).

Definition Has (txID : string) (p : PendingTxs) : bool := bool_decide (is_Some (txs p !! txID)).

Definition Empty (p : PendingTxs) : bool := bool_decide (size (txs p) = 0%nat).

(** [p.txs[txID].done(...)] and [delete(p.txs, txID)]; a missing entry is a nil promise. *)
Definition resolve (p : PendingTxs) (txID : string) (r : result) : option (res PendingTxs) :=
  match fulfil (default None (txs p !! txID)) r (promises p) with
  | None => None
  | Some (Ok h) => Some (Ok (mkPendingTxs (delete txID (txs p)) h))
  | Some (Err e) => Some (Err e)
  | Some (Panic w) => Some (Panic w)
  end.

Fixpoint resolve_all (p : PendingTxs) (results : list (string * result)) : option (res PendingTxs) :=
  match results with
  | [] => Some (Ok p)
  | (txID, r) :: results =>
    match resolve p txID r with
    | Some (Ok p) => resolve_all p results
    | o => o
    end
  end.

Definition DoneWithReceipt (txIDs : list string) (blockHeader : BlockHeader) (p : PendingTxs) : option (res PendingTxs) :=
  resolve_all p (imap (fun txIndex txID => (txID, ReceiptResult (mkTxReceipt blockHeader (Z.of_nat txIndex)))) txIDs).

Definition ReleaseWithError (txIDs : list string) (err : goerr) (p : PendingTxs) : option (res PendingTxs) :=
  resolve_all p ((fun txID => (txID, ErrorResult err)) <$> txIDs).

(** ** Pending promises are open

    A promise in the table has not been fulfilled, and no two transactions share one. *)

Definition open (ch : chan result) : Prop := buffer ch = [] ∧ capacity ch = 1%nat ∧ closed ch = false.

Record pending_ok (p : PendingTxs) : Prop := {
  po_open txID i : txs p !! txID = Some (Some i) → ∃ ch, promises p !! i = Some ch ∧ open ch;
  po_unique txID txID' i : txs p !! txID = Some (Some i) → txs p !! txID' = Some (Some i) → txID = txID';
}.

Lemma new_pending_ok : pending_ok NewPendingTxs.
Proof. split; intros *; cbn; by rewrite lookup_empty. Qed.

(** A submission adds a new promise. *)
Lemma add_pending_ok p txID timeout s h : pending_ok p → NewCompletionPromise timeout (promises p) = (s, h) →
  pending_ok (Add txID s (mkPendingTxs (txs p) h)).
Proof.
  intros [Ho Hu] E. unfold NewCompletionPromise in E. destruct (timeout <=? 0); injection E as <- <-.
  - split; cbn [Add txs promises].
    + intros t i [[_ ?]|[_ Ht]]%lookup_insert_Some; [done|]. by eapply Ho.
    + intros t t' i [[_ ?]|[_ Ht]]%lookup_insert_Some [[_ ?]|[_ Ht']]%lookup_insert_Some; try done. by eapply Hu.
  - set (i := fresh (dom (promises p))). pose proof (is_fresh (dom (promises p))) as Hf. fold i in Hf.
    assert (Hne : ∀ t j, txs p !! t = Some (Some j) → j ≠ i).
    { intros t j Ht ->. destruct (Ho _ _ Ht) as (ch & Hch & _). apply Hf, elem_of_dom. eauto. }
    split; cbn [Add txs promises].
    + intros t j [[_ [= <-]]|[_ Ht]]%lookup_insert_Some.
      * exists (make_chan 1). split; [apply lookup_insert_eq|done].
      * destruct (Ho _ _ Ht) as (ch & Hch & Hop). exists ch. split; [|done].
        rewrite lookup_insert_ne; [done|]. by apply not_eq_sym, (Hne t).
    + intros t t' j [[<- [= <-]]|[_ Ht]]%lookup_insert_Some [[<- E]|[_ Ht']]%lookup_insert_Some.
      * done.
      * by destruct (Hne _ _ Ht').
      * injection E as <-. by destruct (Hne _ _ Ht).
      * by eapply Hu.
Qed.

(** What [fulfil] leaves in a channel. *)
Definition fulfilled (r : result) : chan result := mkChan [r] 1 true.

Lemma resolve_spec p txID r : pending_ok p → ∃ p', resolve p txID r = Some (Ok p') ∧ pending_ok p' ∧
  txs p' = delete txID (txs p) ∧
  promises p' = match txs p !! txID with Some (Some i) => <[i := fulfilled r]> (promises p) | _ => promises p end.
Proof.
  intros [Ho Hu]. unfold resolve.
  assert (Hd : ∀ h, (∀ t i, t ≠ txID → txs p !! t = Some (Some i) → h !! i = promises p !! i) →
    pending_ok (mkPendingTxs (delete txID (txs p)) h)).
  { intros h Hh. split; cbn [txs promises].
    - intros t i [Hne Ht]%lookup_delete_Some. destruct (Ho _ _ Ht) as (ch & Hch & Hop). exists ch. by rewrite (Hh t).
    - intros t t' i [_ Ht]%lookup_delete_Some [_ Ht']%lookup_delete_Some. by eapply Hu. }
  destruct (txs p !! txID) as [[i|]|] eqn:E; cbn [from_option id fulfil].
  - destruct (Ho _ _ E) as (ch & Hch & Hb & Hc & Hcl). rewrite Hch. unfold chan_send. rewrite Hcl, Hb, Hc. cbn.
    eexists. split_and!; [done| |done..]. apply Hd. intros t j Hne Ht. rewrite lookup_insert_ne; [done|].
    intros <-. apply Hne. by eapply Hu.
  - eexists. split_and!; [done| |done..]. by apply Hd.
  - eexists. split_and!; [done| |done..]. by apply Hd.
Qed.

Lemma resolve_all_spec p results : pending_ok p → ∃ p', resolve_all p results = Some (Ok p') ∧ pending_ok p' ∧
  (∀ t s, txs p' !! t = Some s ↔ txs p !! t = Some s ∧ t ∉ results.*1) ∧
  (∀ t i, t ∈ results.*1 → txs p !! t = Some (Some i) → ∃ r, (t, r) ∈ results ∧ promises p' !! i = Some (fulfilled r)) ∧
  (∀ i, (∀ t, t ∈ results.*1 → txs p !! t ≠ Some (Some i)) → promises p' !! i = promises p !! i).
Proof.
  revert p. induction results as [|[t r] l IH]; intros p Hp; cbn [resolve_all].
  { exists p. split_and!; try done; [set_solver|]. intros t i Hin. by inversion Hin. }
  destruct (resolve_spec p t r Hp) as (p1 & -> & Hp1 & Ht1 & Hh1). pose proof Hp as [Ho Hu].
  destruct (IH p1 Hp1) as (p2 & -> & Hp2 & Ht2 & Hr2 & Hk2). exists p2.
  assert (Hkeep : ∀ i, txs p !! t ≠ Some (Some i) → promises p1 !! i = promises p !! i).
  { intros i Hi. rewrite Hh1. destruct (txs p !! t) as [[j|]|]; [|done..]. apply lookup_insert_ne. by intros ->. }
  split_and!; [done..| | |].
  - intros t' s. rewrite Ht2, Ht1, lookup_delete_Some. cbn. rewrite not_elem_of_cons. naive_solver.
  - intros t' i Hin Hi. destruct (decide (t' = t)) as [->|Hne].
    + exists r. split; [by left|]. rewrite Hk2; [rewrite Hh1, Hi; apply lookup_insert_eq|]. intros t' Ht'. rewrite Ht1.
      intros [Hne Ht]%lookup_delete_Some. by apply Hne, (Hu _ _ i).
    + apply elem_of_cons in Hin as [->|Hin]; [done|]. destruct (Hr2 t' i Hin) as (r' & Hr' & Hi').
      { rewrite Ht1. apply lookup_delete_Some. split; [by apply not_eq_sym|done]. }
      exists r'. split; [by right|done].
  - intros i Hi. rewrite Hk2, Hkeep; [done| |].
    + apply Hi. by left.
    + intros t' Ht'. rewrite Ht1. intros [_ Ht]%lookup_delete_Some. eapply Hi; [by right|done].
Qed.
