(* ===== verification/Pipeline.v ===== *)
(** * The way of a transaction into a block

    [internal/bcdb/transaction_processor.go], [internal/txreorderer] and
    [internal/blockcreator]: clients submit transactions, the reorderer collects them in
    batches, the block creator hands blocks to the replicator, and the clients are told
    when a block is committed.  The goroutines are a step relation on the shared state. *)

From S2P Require Import Prelude Types WorldState BlockStore Queue.
From Stdlib Require Import Ascii.
Open Scope Z_scope.

(** ** Transactions *)

Inductive Tx :=
  | TxData (env : DataTxEnvelope)
  | TxUserAdministration (env : UserAdministrationTxEnvelope)
  | TxDBAdministration (env : DBAdministrationTxEnvelope)
  | TxConfig (env : ConfigTxEnvelope).

Definition tx_id (tx : Tx) : string :=
  match tx with
  | TxData env => DTx_TxId (DEnv_Payload env)
  | TxUserAdministration env => UTx_TxId (UEnv_Payload env)
  | TxDBAdministration env => DBTx_TxId (DBEnv_Payload env)
  | TxConfig env => CTx_TxId (CEnv_Payload env)
  end.

Definition payload_txs (p : BlockPayload) : list Tx :=
  match p with
  | Block_DataTxEnvelopes envs => TxData <$> envs
  | Block_UserAdministrationTxEnvelope env => [TxUserAdministration env]
  | Block_DbAdministrationTxEnvelope env => [TxDBAdministration env]
  | Block_ConfigTxEnvelope env => [TxConfig env]
  end.

Definition block_txs (b : Block) : list Tx := match Payload b with Some p => payload_txs p | None => [] end.

Definition block_ids (b : Block) : list string := tx_id <$> block_txs b.

(** ** Identifiers that are safe in a URL *)

Definition between (lo hi : N) (c : ascii) : bool := N.leb lo (N_of_ascii c) && N.leb (N_of_ascii c) hi.

(** unreserved, sub-delims, ":" and "@" *)
Definition segment_char (c : ascii) : bool :=
  between 48 57 c || between 65 90 c || between 97 122 c ||
  bool_decide (c ∈ ["-"; "."; "_"; "~"; "!"; "$"; "&"; "'"; "("; ")"; "*"; "+"; ","; ";"; "="; ":"; "@"]%char).

Definition hex_digit (c : ascii) : bool := between 48 57 c || between 65 70 c || between 97 102 c.

Fixpoint segment_chars (s : string) : bool :=
  match s with
  | EmptyString => true
  | String "%" (String a (String b s)) => hex_digit a && hex_digit b && segment_chars s
  | String c s => segment_char c && segment_chars s
  end.

Definition SafeURLSegmentNZ (s : string) : res unit :=
  if negb (bool_decide (s = "")) && segment_chars s then Ok tt
  else Err (PlainErr ("un-safe for a URL segment: " +:+ s)).

(** ** The reorderer *)

Definition enqueueAndResetPendingDataTxBatch (pendingDataTxs : list DataTxEnvelope)
    : list BlockPayload * list DataTxEnvelope :=
  match pendingDataTxs with
  | [] => ([], [])
  | _ => ([Block_DataTxEnvelopes pendingDataTxs], [])
  end.

(** What a transaction from the queue makes the reorderer enqueue, and what is pending then. *)
Definition reorder (maxTxCountPerBatch : Z) (pendingDataTxs : list DataTxEnvelope) (tx : Tx)
    : list BlockPayload * list DataTxEnvelope :=
  match tx with
  | TxData env =>
    let pendingDataTxs := pendingDataTxs ++ [env] in
    if Z.of_nat (length pendingDataTxs) mod 2 ^ 32 =? maxTxCountPerBatch
    then enqueueAndResetPendingDataTxBatch pendingDataTxs
    else ([], pendingDataTxs)
  | TxUserAdministration env =>
    let '(out, pendingDataTxs) := enqueueAndResetPendingDataTxBatch pendingDataTxs in
    (out ++ [Block_UserAdministrationTxEnvelope env], pendingDataTxs)
  | TxDBAdministration env =>
    let '(out, pendingDataTxs) := enqueueAndResetPendingDataTxBatch pendingDataTxs in
    (out ++ [Block_DbAdministrationTxEnvelope env], pendingDataTxs)
  | TxConfig env =>
    let '(out, pendingDataTxs) := enqueueAndResetPendingDataTxBatch pendingDataTxs in
    (out ++ [Block_ConfigTxEnvelope env], pendingDataTxs)
  end.

(** ** The block creator *)

Definition proposal (nextProposalNumber : Z) (batch : BlockPayload) : Block :=
  mkBlock (mkBlockHeader (mkBlockHeaderBase nextProposalNumber [] [] 0) [] [] [] []) (Some batch) None.

Definition BootstrapBlock (tx : ConfigTxEnvelope) : res Block :=
  Ok (mkBlock (mkBlockHeader (mkBlockHeaderBase 1 [] [] 0) [] [] [] []) (Some (Block_ConfigTxEnvelope tx)) None).

(** ** The state of a node *)

(** A call of [SubmitTransaction]: the points at which other goroutines can act. *)
Inductive client :=
  | Called (tx : Tx) (timeout : Z)
  | IdChecked (tx : Tx) (timeout : Z)
  | LeaderChecked (tx : Tx) (timeout : Z)
  | Locked (tx : Tx) (timeout : Z)
  | NotPending (tx : Tx) (timeout : Z)
  | NotDuplicate (tx : Tx) (timeout : Z)
  | Enqueued (tx : Tx) (timeout : Z)
  | Added (tx : Tx) (s : promise)
  | Failed (tx : Tx) (err : goerr)
  | Waiting (tx : Tx) (s : promise)
  | Returned (tx : Tx) (r : res (option TxReceipt)).

(** How far [Close] has come: it stops the reorderer, then the block creator. *)
Inductive stage := Running | StoppingReorderer | ReordererStopped | StoppingCreator | CreatorStopped | Closed.

#[export] Instance stage_eq_dec : EqDecision stage.
Proof. solve_decision. Defined.

(** The goroutine of the reorderer is between two rounds of its loop when its outbox is
    empty, and is enqueueing batches otherwise; that of the block creator is between two
    rounds, or in the call of [Submit] with a block.  The last two fields record what was
    accepted and batched so far. *)
Record node := mkNode {
  txQueue : Queue Tx;
  txBatchQueue : Queue BlockPayload;
  pendingDataTxs : list DataTxEnvelope;
  outbox : list BlockPayload;
  nextProposalNumber : Z;
  submitting : option Block;
  pendingTxs : PendingTxs;
  mutex : bool;
  clients : gmap nat client;
  proposals : list Block;
  ledger : list Block;
  notifications : list Block;
  closing : stage;
  accepted : list Tx;
  batched : list BlockPayload;
}.

Definition set_queue (n : node) q acc : node :=
  mkNode q (txBatchQueue n) (pendingDataTxs n) (outbox n) (nextProposalNumber n) (submitting n) (pendingTxs n)
    (mutex n) (clients n) (proposals n) (ledger n) (notifications n) (closing n) acc (batched n).
Definition set_reorderer (n : node) q bq pending out done : node :=
  mkNode q bq pending out (nextProposalNumber n) (submitting n) (pendingTxs n)
    (mutex n) (clients n) (proposals n) (ledger n) (notifications n) (closing n) (accepted n) done.
Definition set_creator (n : node) bq num sub props : node :=
  mkNode (txQueue n) bq (pendingDataTxs n) (outbox n) num sub (pendingTxs n)
    (mutex n) (clients n) props (ledger n) (notifications n) (closing n) (accepted n) (batched n).
Definition set_pending (n : node) p : node :=
  mkNode (txQueue n) (txBatchQueue n) (pendingDataTxs n) (outbox n) (nextProposalNumber n) (submitting n) p
    (mutex n) (clients n) (proposals n) (ledger n) (notifications n) (closing n) (accepted n) (batched n).
Definition set_client (n : node) (lock : bool) (i : nat) (c : client) : node :=
  mkNode (txQueue n) (txBatchQueue n) (pendingDataTxs n) (outbox n) (nextProposalNumber n) (submitting n) (pendingTxs n)
    lock (<[i := c]> (clients n)) (proposals n) (ledger n) (notifications n) (closing n) (accepted n) (batched n).
Definition set_ledger (n : node) props l notif : node :=
  mkNode (txQueue n) (txBatchQueue n) (pendingDataTxs n) (outbox n) (nextProposalNumber n) (submitting n) (pendingTxs n)
    (mutex n) (clients n) props l notif (closing n) (accepted n) (batched n).

Definition set_closing (n : node) (lock : bool) q bq (st : stage) : node :=
  mkNode q bq (pendingDataTxs n) (outbox n) (nextProposalNumber n) (submitting n) (pendingTxs n)
    lock (clients n) (proposals n) (ledger n) (notifications n) st (accepted n) (batched n).

Definition DoesTxIDExist (l : list Block) (txID : string) : bool := bool_decide (txID ∈ l ≫= block_ids).

Definition PostBlockCommitProcessing (block : Block) (p : PendingTxs) : option (res PendingTxs) :=
  match Payload block with
  | None => Some (Err (PlainErr "unexpected transaction envelope in the block"))
  | Some _ => DoneWithReceipt (block_ids block) (Header block) p
  end.

(** ** Submission *)

Definition full_msg : string := "transaction queue is full. It means the server load is high. Try after sometime".

Inductive client_step (i : nat) (n : node) : client → node → Prop :=
  | submit_bad_id tx timeout e : SafeURLSegmentNZ (tx_id tx) = Err e →
    client_step i n (Called tx timeout)
      (set_client n (mutex n) i (Returned tx (Err (BadRequestErr ("bad TxId: " +:+ Error e)))))
  | submit_id tx timeout : SafeURLSegmentNZ (tx_id tx) = Ok tt →
    client_step i n (Called tx timeout) (set_client n (mutex n) i (IdChecked tx timeout))
  (** [IsLeader] asks the replicator. *)
  | submit_not_leader tx timeout leader host : mutex n = false →
    client_step i n (IdChecked tx timeout)
      (set_client n false i (Returned tx (Err (NotLeaderErr leader host))))
  | submit_leader tx timeout : mutex n = false →
    client_step i n (IdChecked tx timeout) (set_client n false i (LeaderChecked tx timeout))
  | submit_lock tx timeout : mutex n = false →
    client_step i n (LeaderChecked tx timeout) (set_client n true i (Locked tx timeout))
  | submit_pending tx timeout : Has (tx_id tx) (pendingTxs n) = true →
    client_step i n (Locked tx timeout) (set_client n true i (Failed tx (DuplicateTxIDErr (tx_id tx))))
  | submit_not_pending tx timeout : Has (tx_id tx) (pendingTxs n) = false →
    client_step i n (Locked tx timeout) (set_client n true i (NotPending tx timeout))
  | submit_committed tx timeout : DoesTxIDExist (ledger n) (tx_id tx) = true →
    client_step i n (NotPending tx timeout) (set_client n true i (Failed tx (DuplicateTxIDErr (tx_id tx))))
  | submit_new tx timeout : DoesTxIDExist (ledger n) (tx_id tx) = false →
    client_step i n (NotPending tx timeout) (set_client n true i (NotDuplicate tx timeout))
  | submit_full tx timeout : IsFull (txQueue n) = true →
    client_step i n (NotDuplicate tx timeout) (set_client n true i (Failed tx (PlainErr full_msg)))
  | submit_enqueue tx timeout q : IsFull (txQueue n) = false → Enqueue (txQueue n) tx = Some (Ok q) →
    client_step i n (NotDuplicate tx timeout)
      (set_client (set_queue n q (accepted n ++ [tx])) true i (Enqueued tx timeout))
  | submit_enqueue_panics tx timeout w : IsFull (txQueue n) = false → Enqueue (txQueue n) tx = Some (Panic w) →
    client_step i n (NotDuplicate tx timeout) (set_client n true i (Returned tx (Panic w)))
  | submit_add tx timeout s h : NewCompletionPromise timeout (promises (pendingTxs n)) = (s, h) →
    client_step i n (Enqueued tx timeout)
      (set_client (set_pending n (Add (tx_id tx) s (mkPendingTxs (txs (pendingTxs n)) h))) true i (Added tx s))
  | submit_unlock tx s : client_step i n (Added tx s) (set_client n false i (Waiting tx s))
  | submit_fail tx e : client_step i n (Failed tx e) (set_client n false i (Returned tx (Err e)))
  | submit_wait tx s r h : Wait s (promises (pendingTxs n)) r h →
    client_step i n (Waiting tx s)
      (set_client (set_pending n (mkPendingTxs (txs (pendingTxs n)) h)) (mutex n) i (Returned tx r)).

(** ** The loops *)

Inductive reorderer_step (maxTxCountPerBatch : Z) (n : node) : node → Prop :=
  | reorderer_enqueue b out q : outbox n = b :: out → Enqueue (txBatchQueue n) b = Some (Ok q) →
    reorderer_step maxTxCountPerBatch n
      (set_reorderer n (txQueue n) q (pendingDataTxs n) out (batched n ++ [b]))
  | reorderer_ticker out pending : outbox n = [] → enqueueAndResetPendingDataTxBatch (pendingDataTxs n) = (out, pending) →
    reorderer_step maxTxCountPerBatch n (set_reorderer n (txQueue n) (txBatchQueue n) pending out (batched n))
  | reorderer_tx tx q out pending : outbox n = [] → DequeueWithWaitLimit (txQueue n) (Some tx) q →
    reorder maxTxCountPerBatch (pendingDataTxs n) tx = (out, pending) →
    reorderer_step maxTxCountPerBatch n (set_reorderer n q (txBatchQueue n) pending out (batched n))
  | reorderer_none q : outbox n = [] → DequeueWithWaitLimit (txQueue n) None q →
    reorderer_step maxTxCountPerBatch n
      (set_reorderer n q (txBatchQueue n) (pendingDataTxs n) [] (batched n)).

Inductive creator_step (n : node) : node → Prop :=
  | creator_dequeue batch q : submitting n = None → Dequeue (txBatchQueue n) = Some (Some batch, q) →
    creator_step n (set_creator n q (nextProposalNumber n) (Some (proposal (nextProposalNumber n) batch)) (proposals n))
  | creator_accepted block : submitting n = Some block →
    creator_step n (set_creator n (txBatchQueue n) (u64 (nextProposalNumber n + 1)) None (proposals n ++ [block]))
  | creator_closed block : submitting n = Some block →
    creator_step n (set_creator n (txBatchQueue n) (nextProposalNumber n) None (proposals n))
  | creator_not_leader block leader host txIDs p : submitting n = Some block →
    BlockPayloadToTxIDs (Payload block) = Ok txIDs →
    ReleaseWithError txIDs (NotLeaderErr leader host) (pendingTxs n) = Some (Ok p) →
    creator_step n (set_pending (set_creator n (txBatchQueue n) (nextProposalNumber n) None (proposals n)) p)
  | creator_not_leader_no_ids block e : submitting n = Some block → BlockPayloadToTxIDs (Payload block) = Err e →
    creator_step n (set_creator n (txBatchQueue n) (nextProposalNumber n) None (proposals n)).

(** ** Replication and commit

    A proposal is given up with an error, or its transactions are committed, under their
    identifiers (committing a block that creates databases changes the payload, not the
    identifiers); blocks of other leaders are committed as well, those that [foreign]
    admits.  The listeners hear of a block after it is committed. *)

Inductive commit_step (foreign : node → Block → Prop) (n : node) : node → Prop :=
  | replicator_releases props block props' txIDs err p : proposals n = props ++ block :: props' →
    BlockPayloadToTxIDs (Payload block) = Ok txIDs →
    ReleaseWithError txIDs err (pendingTxs n) = Some (Ok p) →
    commit_step foreign n (set_pending (set_ledger n (props ++ props') (ledger n) (notifications n)) p)
  | replicator_drops props block props' e : proposals n = props ++ block :: props' →
    BlockPayloadToTxIDs (Payload block) = Err e →
    commit_step foreign n (set_ledger n (props ++ props') (ledger n) (notifications n))
  | commit_proposal props block props' block' : proposals n = props ++ block :: props' →
    block_ids block' = block_ids block →
    commit_step foreign n (set_ledger n (props ++ props') (ledger n ++ [block']) (notifications n ++ [block']))
  | commit_foreign block : foreign n block →
    commit_step foreign n (set_ledger n (proposals n) (ledger n ++ [block]) (notifications n ++ [block]))
  | notify_listener block notif p : notifications n = block :: notif →
    PostBlockCommitProcessing block (pendingTxs n) = Some (Ok p) →
    commit_step foreign n (set_pending (set_ledger n (proposals n) (ledger n) notif) p).

(** ** Shutdown *)

Inductive close_step (n : node) : node → Prop :=
  | close_begin q : mutex n = false → closing n = Running → Close (txQueue n) = Ok q →
    close_step n (set_closing n true q (txBatchQueue n) StoppingReorderer)
  | close_reorderer : closing n = StoppingReorderer → outbox n = [] →
    close_step n (set_closing n true (txQueue n) (txBatchQueue n) ReordererStopped)
  | close_batches bq : closing n = ReordererStopped → Close (txBatchQueue n) = Ok bq →
    close_step n (set_closing n true (txQueue n) bq StoppingCreator)
  | close_creator : closing n = StoppingCreator → submitting n = None →
    close_step n (set_closing n true (txQueue n) (txBatchQueue n) CreatorStopped)
  | close_end : closing n = CreatorStopped →
    close_step n (set_closing n false (txQueue n) (txBatchQueue n) Closed).

(** ** A node *)

Section Node.
Context (maxTxCountPerBatch : Z) (foreign : node → Block → Prop).

Inductive step (n : node) : node → Prop :=
  | step_call i tx timeout : clients n !! i = None → step n (set_client n (mutex n) i (Called tx timeout))
  | step_client i c n' : clients n !! i = Some c → client_step i n c n' → step n n'
  | step_reorderer n' : closing n ∈ [Running; StoppingReorderer] → reorderer_step maxTxCountPerBatch n n' → step n n'
  | step_creator n' : closing n ∈ [Running; StoppingReorderer; ReordererStopped; StoppingCreator] →
    creator_step n n' → step n n'
  | step_commit n' : commit_step foreign n n' → step n n'
  | step_close n' : close_step n n' → step n n'.

Definition new_node (queueLength batchQueueLength : Z) (blocks : list Block) : node :=
  mkNode (New queueLength) (New batchQueueLength) [] [] 1 None NewPendingTxs false ∅ [] blocks [] Running [] [].

Inductive reachable (n0 : node) : node → Prop :=
  | reachable_refl : reachable n0 n0
  | reachable_step n n' : reachable n0 n → step n n' → reachable n0 n'.

End Node.
