(* ===== verification/PipelineProofs.v ===== *)
(** * Properties of the transaction pipeline

    Transactions are batched in the order of their acceptance, each of them once; no two
    transactions on the way have the same identifier; receipts are true. *)

From S2P Require Import Prelude Types BlockStore Queue Pipeline.
Open Scope Z_scope.

(** ** Runs *)

(** A node that can commit more blocks of others has more runs. *)
Lemma reachable_mono max (f g : node → Block → Prop) n0 n : (∀ n b, f n b → g n b) →
  reachable max f n0 n → reachable max g n0 n.
Proof.
  intros Hfg. induction 1 as [|n n' _ IH Hst]; [constructor|]. eapply reachable_step; [done|].
  destruct Hst as [i tx t Hc|i c n' Hc Hst|n' Hcl Hst|n' Hcl Hst|n' Hst|n' Hst];
    [by apply step_call|by eapply step_client|by apply step_reorderer|by apply step_creator| |by apply step_close].
  apply step_commit. destruct Hst; [by eapply replicator_releases|by eapply replicator_drops|by eapply commit_proposal
    |by apply commit_foreign, Hfg|by eapply notify_listener].
Qed.

(** ** Order and size of batches *)

Lemma flush_txs pending out rest : enqueueAndResetPendingDataTxBatch pending = (out, rest) →
  (out ≫= payload_txs) = TxData <$> pending ∧ rest = [].
Proof. destruct pending; intros [= <- <-]; cbn; by rewrite ?app_nil_r. Qed.

Lemma reorder_txs max pending tx out rest : reorder max pending tx = (out, rest) →
  (out ≫= payload_txs) ++ (TxData <$> rest) = (TxData <$> pending) ++ [tx].
Proof.
  destruct tx; cbn [reorder].
  - destruct (_ =? _).
    + intros [-> ->]%flush_txs. by rewrite fmap_app, app_nil_r.
    + intros [= <- <-]. by rewrite fmap_app.
  - destruct (enqueueAndResetPendingDataTxBatch pending) eqn:E. apply flush_txs in E as [Eo ->].
    intros [= <- <-]. by rewrite bind_app, Eo, app_nil_r.
  - destruct (enqueueAndResetPendingDataTxBatch pending) eqn:E. apply flush_txs in E as [Eo ->].
    intros [= <- <-]. by rewrite bind_app, Eo, app_nil_r.
  - destruct (enqueueAndResetPendingDataTxBatch pending) eqn:E. apply flush_txs in E as [Eo ->].
    intros [= <- <-]. by rewrite bind_app, Eo, app_nil_r.
Qed.

(** A batch has one administration transaction, or at least one and at most [max] data
    transactions. *)
Definition batch_ok (max : Z) (p : BlockPayload) : Prop :=
  match p with
  | Block_DataTxEnvelopes envs => 1 ≤ Z.of_nat (length envs) ≤ max
  | _ => True
  end.

Lemma flush_ok max pending out rest : Z.of_nat (length pending) ≤ max →
  enqueueAndResetPendingDataTxBatch pending = (out, rest) → Forall (batch_ok max) out ∧ rest = [].
Proof.
  intros Hl. destruct pending; intros [= <- <-]; (split; [|done]); [constructor|].
  repeat constructor; cbn in *; lia.
Qed.

Lemma reorder_ok max pending tx out rest : 0 < max < 2 ^ 32 → Z.of_nat (length pending) < max →
  reorder max pending tx = (out, rest) → Forall (batch_ok max) out ∧ Z.of_nat (length rest) < max.
Proof.
  intros Hmax Hl. destruct tx; cbn [reorder].
  2-4: destruct (enqueueAndResetPendingDataTxBatch pending) eqn:E; apply (flush_ok max) in E as [? ->]; [|lia];
    intros [= <- <-]; split; [by apply Forall_app; split; [|repeat constructor]|cbn; lia].
  assert (Hla : Z.of_nat (length (pending ++ [env])) = Z.of_nat (length pending) + 1)
    by (rewrite length_app; cbn; lia).
  destruct (_ =? _) eqn:Eq.
  - intros E. apply (flush_ok max) in E as [? ->]; [|lia]. split; [done|cbn; lia].
  - intros [= <- <-]. rewrite Z.mod_small in Eq by lia. apply Z.eqb_neq in Eq. split; [constructor|lia].
Qed.

Section Order.
Context (max : Z) (foreign : node → Block → Prop).

Record fifo (n : node) : Prop := {
  ff_order : accepted n =
    (batched n ≫= payload_txs) ++ (outbox n ≫= payload_txs) ++ (TxData <$> pendingDataTxs n) ++ buffer (txQueue n);
  ff_creator : buffer (txBatchQueue n) `suffix_of` batched n;
  ff_sizes : 0 < max < 2 ^ 32 → Forall (batch_ok max) (batched n ++ outbox n) ∧ Z.of_nat (length (pendingDataTxs n)) < max;
}.

Lemma fifo_same n n' : fifo n → accepted n' = accepted n → batched n' = batched n → outbox n' = outbox n →
  pendingDataTxs n' = pendingDataTxs n → buffer (txQueue n') = buffer (txQueue n) →
  buffer (txBatchQueue n') = buffer (txBatchQueue n) → fifo n'.
Proof. intros [] E1 E2 E3 E4 E5 E6. split; rewrite ?E1, ?E2, ?E3, ?E4, ?E5, ?E6; done. Qed.

Lemma fifo_reorderer n n' : fifo n → reorderer_step max n n' → fifo n'.
Proof.
  intros [Ho Hc Hs] Hst. destruct Hst as [b out q Eo Eq|out rest Eo Ef|tx q out rest Eo Hq Er|q Eo Hq];
    (split; cbn [accepted batched outbox pendingDataTxs txQueue txBatchQueue set_reorderer]).
  - rewrite Ho, Eo. rewrite bind_app. cbn. by rewrite app_nil_r, <- !app_assoc.
  - apply enqueue_ok in Eq as (_ & _ & ->). cbn. by apply suffix_app.
  - intros Hmax. destruct (Hs Hmax) as [Hf ?]. split; [|done]. by rewrite Eo, cons_middle, app_assoc in Hf.
  - rewrite Ho, Eo. apply flush_txs in Ef as [-> ->]. cbn. done.
  - done.
  - intros Hmax. destruct (Hs Hmax) as [Hf ?]. rewrite Eo, app_nil_r in Hf.
    apply (flush_ok max) in Ef as [? ->]; [|lia]. split; [by apply Forall_app|cbn; lia].
  - rewrite Ho, Eo. inversion Hq as [e q' Hr|]; subst. apply chan_recv_some in Hr as (-> & _).
    apply reorder_txs in Er. cbn. f_equal. rewrite app_assoc, Er, <- app_assoc. done.
  - done.
  - intros Hmax. destruct (Hs Hmax) as [Hf ?]. rewrite Eo, app_nil_r in Hf.
    apply reorder_ok in Er as [? ?]; [|done..]. split; [by apply Forall_app|done].
  - rewrite Ho, Eo. inversion Hq as [e q' Hr|]; subst; [|done]. by apply chan_recv_none in Hr as [-> _].
  - done.
  - by rewrite <- Eo.
Qed.

Lemma fifo_step n n' : fifo n → step max foreign n n' → fifo n'.
Proof.
  intros Hf Hst. destruct Hst as [i tx t _|i c n' _ Hst|n' _ Hst|n' _ Hst|n' Hst|n' Hst].
  - by eapply fifo_same.
  - destruct Hst; try (by eapply fifo_same). destruct Hf as [Ho Hc Hs]. apply enqueue_ok in H0 as (_ & _ & ->).
    split; cbn; [|done..]. rewrite Ho. by rewrite <- !app_assoc.
  - by eapply fifo_reorderer.
  - destruct Hst as [batch q _ Hq| | | |]; try (by eapply fifo_same). apply chan_recv_some in Hq as (Eb & _ & _).
    destruct Hf as [Ho Hc Hs]. split; cbn; [done| |done]. rewrite Eb in Hc. by eapply suffix_cons_l.
  - destruct Hst; by eapply fifo_same.
  - destruct Hst as [q _ _ Hq| |q _ Hq| |]; try (by eapply fifo_same); unfold Close, chan_close in Hq;
      destruct (closed _); try done; injection Hq as <-; by eapply fifo_same.
Qed.

Lemma fifo_reachable ql bl blocks n : reachable max foreign (new_node ql bl blocks) n → fifo n.
Proof.
  induction 1 as [|n n' _ IH Hst]; [|by eapply fifo_step]. split; cbn; [done..|]. intros Hmax. split; [constructor|lia].
Qed.

End Order.

(** C33: the transactions a node accepts leave the reorderer in the order of acceptance, in
    batches of one administration transaction or of at least one and at most
    [maxTxCountPerBatch] data transactions, none lost and none twice; the block creator
    takes the batches in their order. *)
Theorem batches_in_order max foreign ql bl blocks n : 0 < max < 2 ^ 32 →
  reachable max foreign (new_node ql bl blocks) n →
  accepted n = (batched n ≫= payload_txs) ++
    (outbox n ≫= payload_txs) ++ (TxData <$> pendingDataTxs n) ++ buffer (txQueue n) ∧
  Forall (batch_ok max) (batched n) ∧ Z.of_nat (length (pendingDataTxs n)) < max ∧
  buffer (txBatchQueue n) `suffix_of` batched n.
Proof.
  intros Hmax [Ho Hc Hs]%fifo_reachable. destruct (Hs Hmax) as [Hf ?]. apply Forall_app in Hf as [? _]. done.
Qed.

(** ** Identifiers and receipts *)

Lemma submseteq_NoDup {A} (l k : list A) : l ⊆+ k → NoDup k → NoDup l.
Proof. intros [k' E]%submseteq_Permutation. rewrite E. by intros [? _]%NoDup_app. Qed.

(** The transactions on their way: accepted, and neither committed nor given up. *)
Definition live (n : node) : list Tx :=
  buffer (txQueue n) ++ (TxData <$> pendingDataTxs n) ++ (outbox n ≫= payload_txs) ++
  (buffer (txBatchQueue n) ≫= payload_txs) ++ (from_option block_txs [] (submitting n)) ++ (proposals n ≫= block_txs).

Definition live_ids (n : node) : list string := tx_id <$> live n.
Definition ledger_ids (n : node) : list string := ledger n ≫= block_ids.

(** A receipt names a committed block and the place of the transaction in it. *)
Definition receipt_ok (n : node) (tx : Tx) (r : TxReceipt) : Prop :=
  ∃ b i, b ∈ ledger n ∧ Receipt_Header r = Header b ∧ Receipt_TxIndex r = Z.of_nat i ∧ block_ids b !! i = Some (tx_id tx).

Definition result_ok (n : node) (tx : Tx) (r : result) : Prop :=
  match r with ReceiptResult r => receipt_ok n tx r | ErrorResult _ => True end.

Definition holds_lock (c : client) : bool :=
  match c with
  | Locked _ _ | NotPending _ _ | NotDuplicate _ _ | Enqueued _ _ | Added _ _ | Failed _ _ => true
  | Returned _ (Panic _) => true
  | _ => false
  end.

Definition promise_of (c : client) : promise :=
  match c with Added _ s | Waiting _ s => s | _ => None end.

Lemma block_payload_ids b ids : BlockPayloadToTxIDs (Payload b) = Ok ids → ids = block_ids b.
Proof.
  assert (Hs : ∀ id, singleTxID id = Ok ids → ids = [id]).
  { intros id. unfold singleTxID. case_bool_decide; [done|]. by intros [= <-]. }
  assert (Hd : ∀ envs l, dataTxIDs envs = Ok l → l = tx_id <$> (TxData <$> envs)).
  { intros envs. induction envs as [|e envs IH]; intros l H; cbn in H; [by injection H as <-|].
    case_bool_decide; [done|]. apply bind_ok_inv in H as (l' & H & [= <-]). by rewrite (IH l'). }
  unfold block_ids, block_txs. destruct (Payload b) as [[envs|env|env|env]|]; cbn; [|by apply Hs..|done].
  intros H. apply bind_ok_inv in H as (l & Hl & H). case_bool_decide; [done|]. injection H as <-. by apply Hd.
Qed.

Lemma release_spec ids err p : pending_ok p → ∃ p', ReleaseWithError ids err p = Some (Ok p') ∧ pending_ok p' ∧
  (∀ t s, txs p' !! t = Some s ↔ txs p !! t = Some s ∧ t ∉ ids) ∧
  (∀ t i, t ∈ ids → txs p !! t = Some (Some i) → promises p' !! i = Some (fulfilled (ErrorResult err))) ∧
  (∀ i, (∀ t, txs p !! t ≠ Some (Some i)) → promises p' !! i = promises p !! i).
Proof.
  intros Hp. unfold ReleaseWithError.
  destruct (resolve_all_spec p ((fun txID => (txID, ErrorResult err)) <$> ids) Hp) as (p' & -> & Hp' & Ht & Hr & Hk).
  exists p'. assert (E : ((fun txID : string => (txID, ErrorResult err)) <$> ids).*1 = ids).
  { rewrite <- list_fmap_compose. apply list_fmap_id. }
  rewrite E in *. split_and!; [done..| |].
  - intros t i Hin Hi. destruct (Hr t i Hin Hi) as (r & (x & [= _ ->] & _)%list_elem_of_fmap & H). done.
  - intros i Hi. apply Hk. auto.
Qed.

Lemma notify_spec b p : pending_ok p → is_Some (Payload b) → ∃ p', PostBlockCommitProcessing b p = Some (Ok p') ∧ pending_ok p' ∧
  (∀ t s, txs p' !! t = Some s ↔ txs p !! t = Some s ∧ t ∉ block_ids b) ∧
  (∀ t i, t ∈ block_ids b → txs p !! t = Some (Some i) →
    ∃ j, block_ids b !! j = Some t ∧
      promises p' !! i = Some (fulfilled (ReceiptResult (mkTxReceipt (Header b) (Z.of_nat j))))) ∧
  (∀ i, (∀ t, txs p !! t ≠ Some (Some i)) → promises p' !! i = promises p !! i).
Proof.
  intros Hp [pl Hpl]. unfold PostBlockCommitProcessing. rewrite Hpl. unfold DoneWithReceipt.
  set (results := imap (fun txIndex txID => (txID, ReceiptResult (mkTxReceipt (Header b) (Z.of_nat txIndex)))) (block_ids b)).
  destruct (resolve_all_spec p results Hp) as (p' & -> & Hp' & Ht & Hr & Hk).
  exists p'. assert (E : results.*1 = block_ids b).
  { subst results. rewrite fmap_imap. transitivity (imap (fun _ => id) (block_ids b)); [done|].
    generalize (block_ids b). intros l. induction l as [|x l IH] using rev_ind; [done|]. by rewrite imap_app, IH. }
  rewrite E in *. split_and!; [done..| |].
  - intros t i Hin Hi. destruct (Hr t i Hin Hi) as (r & Hin' & H). subst results.
    apply elem_of_lookup_imap in Hin' as (j & x & [= -> ->] & Hj). by exists j.
  - intros i Hi. apply Hk. auto.
Qed.

(** The transactions of a block have identifiers that the node has not seen: they are
    not in its ledger, not on their way into a block, and no client is about to enqueue
    one of them. *)
Definition brings_new (n : node) (b : Block) : Prop :=
  NoDup (block_ids b) ∧ ∀ x, x ∈ block_ids b → x ∉ ledger_ids n ∧ x ∉ live_ids n ∧
    ∀ i tx t, clients n !! i = Some (NotDuplicate tx t) → tx_id tx ≠ x.

(** A node that commits its own blocks only. *)
Definition nobody (n : node) (b : Block) : Prop := False.

Section Ids.
Context (max : Z) (foreign : node → Block → Prop).

(** The other leaders bring only blocks that are new to the node. *)
Definition others_new : Prop := ∀ n b, foreign n b → brings_new n b.

Definition client_ok (n : node) (c : client) : Prop :=
  match c with
  | NotPending tx _ => txs (pendingTxs n) !! tx_id tx = None
  | NotDuplicate tx _ => txs (pendingTxs n) !! tx_id tx = None ∧ tx_id tx ∉ live_ids n ∧
      (others_new → tx_id tx ∉ ledger_ids n)
  | Enqueued tx _ => txs (pendingTxs n) !! tx_id tx = None
  | Added tx (Some p) | Waiting tx (Some p) =>
    txs (pendingTxs n) !! tx_id tx = Some (Some p) ∨
    ∃ r, promises (pendingTxs n) !! p = Some (fulfilled r) ∧ result_ok n tx r
  | Returned tx (Ok (Some r)) => receipt_ok n tx r
  | _ => True
  end.

Record inv (n : node) : Prop := {
  iv_pending : pending_ok (pendingTxs n);
  iv_queue : (length (buffer (txQueue n)) ≤ capacity (txQueue n))%nat;
  iv_lock i c : clients n !! i = Some c → holds_lock c = true →
    mutex n = true ∧ closing n ∈ [Running; Closed] ∧
    ∀ j c', clients n !! j = Some c' → holds_lock c' = true → i = j;
  iv_closing : closing n ∉ [Running; Closed] → mutex n = true;
  iv_unique : NoDup (live_ids n);
  iv_known x : x ∈ live_ids n → is_Some (txs (pendingTxs n) !! x) ∨
    (∃ i tx t, clients n !! i = Some (Enqueued tx t) ∧ tx_id tx = x) ∨ x ∈ ledger_ids n;
  iv_client i c : clients n !! i = Some c → client_ok n c;
  iv_promise i j c c' p : clients n !! i = Some c → clients n !! j = Some c' →
    promise_of c = Some p → promise_of c' = Some p → i = j;
  iv_notif b : b ∈ notifications n → b ∈ ledger n;
  iv_ledger : others_new → NoDup (ledger_ids n ++ live_ids n);
}.

Lemma receipt_ok_mono n n' tx r : (∀ b, b ∈ ledger n → b ∈ ledger n') → receipt_ok n tx r → receipt_ok n' tx r.
Proof. intros Hl (b & i & ? & ?). exists b, i. auto. Qed.

Lemma result_ok_mono n n' tx r : (∀ b, b ∈ ledger n → b ∈ ledger n') → result_ok n tx r → result_ok n' tx r.
Proof. destruct r; [apply receipt_ok_mono|done]. Qed.

(** A step of a client that changes nothing else. *)
Lemma inv_set_client n lock i c' : inv n → client_ok n c' →
  (holds_lock c' = true → lock = true ∧ closing n ∈ [Running; Closed]) →
  (∀ j d, j ≠ i → clients n !! j = Some d → holds_lock d = true → lock = true ∧ holds_lock c' = false) →
  (closing n ∉ [Running; Closed] → lock = true) →
  (∀ tx t, clients n !! i = Some (Enqueued tx t) → is_Some (txs (pendingTxs n) !! tx_id tx)) →
  (∀ p j d, promise_of c' = Some p → j ≠ i → clients n !! j = Some d → promise_of d ≠ Some p) →
  inv (set_client n lock i c').
Proof.
  intros [] Hok Hlock Hother Hcl Henq Hp. split; try done; cbn [clients set_client mutex closing].
  - intros j d [[<- <-]|[Hne Hj]]%lookup_insert_Some Hd.
    + destruct (Hlock Hd) as [-> ?]. split_and!; [done..|].
      intros k e [[<- _]|[Hk He]]%lookup_insert_Some Hh; [done|]. destruct (Hother k e) as [_ E]; [done..|congruence].
    + destruct (Hother j d) as [-> E]; [done..|]. destruct (iv_lock0 j d Hj Hd) as (_ & ? & Hu). split_and!; [done..|].
      intros k e [[<- <-]|[Hk He]]%lookup_insert_Some Hh; [congruence|]. by eapply Hu.
  - intros x Hx. destruct (iv_known0 x Hx) as [?|[(j & tx & t & Hj & Ht)|?]]; [by left| |by right; right].
    destruct (decide (j = i)) as [->|Hne]; [left; rewrite <- Ht; by eapply Henq|].
    right. left. exists j, tx, t. split; [|done]. cbn. by rewrite lookup_insert_ne.
  - intros j d [[<- <-]|[Hne Hj]]%lookup_insert_Some; [done|]. by apply (iv_client0 j).
  - intros j k d e p [[<- <-]|[Hne Hj]]%lookup_insert_Some [[<- <-]|[Hk He]]%lookup_insert_Some Hd Hep; [done|..].
    + by destruct (Hp p k e).
    + by destruct (Hp p j d).
    + by eapply iv_promise0.
Qed.

(** Identifiers leave the table of pending transactions, and transactions the pipeline. *)
Lemma inv_resolve n n' (ids : list string) : inv n → clients n' = clients n → mutex n' = mutex n → closing n' = closing n →
  (∀ b, b ∈ notifications n' → b ∈ notifications n) → ledger n' = ledger n →
  (length (buffer (txQueue n')) ≤ capacity (txQueue n'))%nat → live_ids n' ⊆+ live_ids n →
  pending_ok (pendingTxs n') →
  (∀ t s, txs (pendingTxs n') !! t = Some s ↔ txs (pendingTxs n) !! t = Some s ∧ t ∉ ids) →
  (∀ t i, t ∈ ids → txs (pendingTxs n) !! t = Some (Some i) →
    ∃ r, promises (pendingTxs n') !! i = Some (fulfilled r) ∧ ∀ tx, tx_id tx = t → result_ok n tx r) →
  (∀ i, (∀ t, txs (pendingTxs n) !! t ≠ Some (Some i)) → promises (pendingTxs n') !! i = promises (pendingTxs n) !! i) →
  (∀ x, x ∈ ids → x ∈ live_ids n' → x ∈ ledger_ids n) → inv n'.
Proof.
  intros [] Ecl Emu Eco Hnot Ele Hq Hlive Hp Htx Hres Hkeep Hids.
  assert (Hnone : ∀ x, txs (pendingTxs n) !! x = None → txs (pendingTxs n') !! x = None).
  { intros x Hx. apply eq_None_not_Some. intros [s [E _]%Htx]. congruence. }
  assert (El : ledger_ids n' = ledger_ids n) by (unfold ledger_ids; by rewrite Ele).
  assert (Hmono : ∀ b, b ∈ ledger n → b ∈ ledger n') by (by rewrite Ele).
  assert (Hwait : ∀ tx p, txs (pendingTxs n) !! tx_id tx = Some (Some p) ∨
      (∃ r, promises (pendingTxs n) !! p = Some (fulfilled r) ∧ result_ok n tx r) →
    txs (pendingTxs n') !! tx_id tx = Some (Some p) ∨ ∃ r, promises (pendingTxs n') !! p = Some (fulfilled r) ∧ result_ok n' tx r).
  { intros tx p [Ht|(r & Hr & Hrok)].
    - destruct (decide (tx_id tx ∈ ids)) as [Hin|Hin]; [|left; by apply Htx].
      destruct (Hres _ _ Hin Ht) as (r & Hr & Hrok). right. exists r. split; [done|]. apply (result_ok_mono n); auto.
    - right. exists r. split; [|by apply (result_ok_mono n)]. rewrite Hkeep; [done|]. intros t Ht.
      destruct (po_open _ iv_pending0 _ _ Ht) as (ch & Hch & Hb & _). rewrite Hr in Hch. injection Hch as <-. done. }
  split; rewrite ?Ecl, ?Emu, ?Eco; try done.
  - by eapply submseteq_NoDup.
  - intros x Hx. rewrite El. destruct (decide (x ∈ ids)) as [Hin|Hin]; [right; right; auto|].
    destruct (iv_known0 x) as [[s Hs]|[?|?]]; [by eapply elem_of_submseteq| |by right; left|by right; right].
    left. exists s. by apply Htx.
  - intros i c Hi. pose proof (iv_client0 i c Hi) as Hc.
    destruct c as [| | | |tx t|tx t|tx t|tx [p|]| |tx [p|]|tx [[r|]| |]]; cbn [client_ok] in *; auto.
    + destruct Hc as (? & Hn & ?). rewrite El. split_and!; [by apply Hnone| |done].
      intros Hx. apply Hn. by eapply elem_of_submseteq.
    + by apply (receipt_ok_mono n).
  - intros b Hb. rewrite Ele. by apply iv_notif0, Hnot.
  - intros Hf. rewrite El. eapply submseteq_NoDup; [|by apply iv_ledger0]. by apply submseteq_skips_l.
Qed.

(** Transactions leave the pipeline. *)
Lemma inv_shrink n n' : inv n → clients n' = clients n → mutex n' = mutex n → closing n' = closing n →
  notifications n' = notifications n → ledger n' = ledger n → pendingTxs n' = pendingTxs n →
  (length (buffer (txQueue n')) ≤ capacity (txQueue n'))%nat → live_ids n' ⊆+ live_ids n → inv n'.
Proof.
  intros Hi Ecl Emu Eco Eno Ele Ep Hq Hlive. apply (inv_resolve n n' []); rewrite ?Ep; try done.
  - by rewrite Eno.
  - apply (iv_pending _ Hi).
  - intros t s. set_solver.
  - intros t i Hin. by inversion Hin.
  - intros x Hin. by inversion Hin.
Qed.

(** A block is committed. *)
Lemma inv_commit n n' b : inv n → clients n' = clients n → mutex n' = mutex n → closing n' = closing n →
  notifications n' = notifications n ++ [b] → ledger n' = ledger n ++ [b] → pendingTxs n' = pendingTxs n →
  txQueue n' = txQueue n → live_ids n' ⊆+ live_ids n →
  (others_new → NoDup (ledger_ids n ++ block_ids b ++ live_ids n') ∧
    ∀ i tx t, clients n !! i = Some (NotDuplicate tx t) → tx_id tx ∉ block_ids b) → inv n'.
Proof.
  intros [] Ecl Emu Eco Eno Ele Ep Eq Hlive Hown.
  assert (Hmono : ∀ b, b ∈ ledger n → b ∈ ledger n') by (rewrite Ele; set_solver).
  assert (El : ledger_ids n' = ledger_ids n ++ block_ids b).
  { unfold ledger_ids. rewrite Ele, bind_app. cbn. by rewrite app_nil_r. }
  split; rewrite ?Ecl, ?Emu, ?Eco, ?Ep, ?Eq; try done.
  - by eapply submseteq_NoDup.
  - intros x Hx. rewrite El, elem_of_app.
    destruct (iv_known0 x) as [?|[?|?]]; [by eapply elem_of_submseteq|by left|by right; left|by right; right; left].
  - intros i c Hi. pose proof (iv_client0 i c Hi) as Hc.
    destruct c as [| | | |tx t|tx t|tx t|tx [p|]| |tx [p|]|tx [[r|]| |]]; cbn [client_ok] in *; rewrite ?Ep; auto.
    + destruct Hc as (? & Hn & Hl). split_and!; [done| |].
      * intros Hx. apply Hn. by eapply elem_of_submseteq.
      * intros Hf. rewrite El, not_elem_of_app. split; [auto|]. by eapply (Hown Hf).
    + destruct Hc as [?|(r & ? & ?)]; [by left|right]. exists r. split; [done|]. by apply (result_ok_mono n).
    + destruct Hc as [?|(r & ? & ?)]; [by left|right]. exists r. split; [done|]. by apply (result_ok_mono n).
    + by apply (receipt_ok_mono n).
  - intros b' Hb. rewrite Eno, elem_of_app in Hb. rewrite Ele, elem_of_app. destruct Hb; [left; auto|by right].
  - intros Hf. rewrite El, <- app_assoc. by apply Hown.
Qed.

(** The lock is held by one client, or by [Close]. *)
Lemma lock_free n i c : inv n → mutex n = false → clients n !! i = Some c → holds_lock c = false.
Proof. intros [] Hm Hi. destruct (holds_lock c) eqn:E; [|done]. destruct (iv_lock0 i c Hi E) as [? _]. congruence. Qed.

Lemma running n : inv n → mutex n = false → closing n ∈ [Running; Closed].
Proof. intros [] Hm. destruct (decide (closing n ∈ [Running; Closed])) as [|H]; [done|]. rewrite iv_closing0 in Hm; done. Qed.

(** A step that neither takes nor gives back the lock. *)
Lemma inv_client_same n i c c' : inv n → clients n !! i = Some c → client_ok n c' → holds_lock c' = holds_lock c →
  promise_of c' = None → (∀ tx t, c ≠ Enqueued tx t) → inv (set_client n (mutex n) i c').
Proof.
  intros Hi Hc Hok Hh Hp Hne. apply inv_set_client; try done.
  - intros E. rewrite Hh in E. destruct (iv_lock _ Hi i c Hc E) as (? & ? & _). done.
  - intros j d Hj Hd Ed. destruct (iv_lock _ Hi j d Hd Ed) as (? & _ & Hu). split; [done|]. rewrite Hh.
    destruct (holds_lock c) eqn:E; [|done]. by destruct Hj; eapply Hu.
  - apply (iv_closing _ Hi).
  - intros tx t E. rewrite Hc in E. injection E as ->. by destruct (Hne tx t).
  - intros p j d E. congruence.
Qed.

Lemma inv_client_take n i c c' : inv n → mutex n = false → clients n !! i = Some c → client_ok n c' →
  promise_of c' = None → (∀ tx t, c ≠ Enqueued tx t) → inv (set_client n true i c').
Proof.
  intros Hi Hm Hc Hok Hp Hne. apply inv_set_client; try done.
  - intros _. split; [done|]. by apply running.
  - intros j d _ Hd Ed. rewrite (lock_free n j d) in Ed; done.
  - intros tx t E. rewrite Hc in E. injection E as ->. by destruct (Hne tx t).
  - intros p j d E. congruence.
Qed.

Lemma inv_client_give n i c c' : inv n → holds_lock c = true → holds_lock c' = false → clients n !! i = Some c → client_ok n c' →
  (promise_of c' = None ∨ promise_of c' = promise_of c) → (∀ tx t, c ≠ Enqueued tx t) → inv (set_client n false i c').
Proof.
  intros Hi Hh Hh' Hc Hok Hp Hne. destruct (iv_lock _ Hi i c Hc Hh) as (? & ? & Hu). apply inv_set_client; try done.
  - intros E. congruence.
  - intros j d Hj Hd Ed. by destruct Hj; symmetry; eapply Hu.
  - intros tx t E. rewrite Hc in E. injection E as ->. by destruct (Hne tx t).
  - intros p j d E Hj Hd Ed. destruct Hp as [Hp|Hp]; rewrite Hp in E; [done|]. apply Hj. by eapply (iv_promise _ Hi).
Qed.

Lemma inv_enqueue n i tx t q : inv n → clients n !! i = Some (NotDuplicate tx t) → Enqueue (txQueue n) tx = Some (Ok q) →
  inv (set_client (set_queue n q (accepted n ++ [tx])) true i (Enqueued tx t)).
Proof.
  intros Hi Hc (Hcl & Hlen & ->)%enqueue_ok. set (n1 := set_client _ _ _ _).
  destruct (iv_client _ Hi i _ Hc) as (Hnone & Hnl & Hnled).
  destruct (iv_lock _ Hi i _ Hc eq_refl) as (Hm & Hrun & Hu). destruct Hi.
  assert (Hl : live_ids n1 ≡ₚ tx_id tx :: live_ids n).
  { unfold live_ids, live. cbn. rewrite <- app_assoc, fmap_app, (fmap_app _ (buffer _)). cbn. by rewrite Permutation_middle. }
  assert (Hothers : ∀ j d, j ≠ i → clients n !! j = Some d → holds_lock d = false).
  { intros j d Hne Hj. destruct (holds_lock d) eqn:E; [|done]. by destruct Hne; symmetry; eapply Hu. }
  assert (Ecl : clients n1 = <[i := Enqueued tx t]> (clients n)) by done. split; rewrite ?Ecl; try done.
  - cbn. rewrite length_app. cbn. lia.
  - intros j d [[<- <-]|[Hne Hj]]%lookup_insert_Some Hd.
    + split_and!; [done..|]. intros k e [[<- _]|[Hk He]]%lookup_insert_Some Hh; [done|].
      rewrite (Hothers k e) in Hh; [done|by apply not_eq_sym|done].
    + rewrite (Hothers j d) in Hd; [done|by apply not_eq_sym|done].
  - rewrite Hl. by constructor.
  - intros x. rewrite Hl. intros [->|Hx]%elem_of_cons.
    + right. left. exists i, tx, t. split; [apply lookup_insert_eq|done].
    + destruct (iv_known0 x Hx) as [?|[(j & tx' & t' & Hj & Ht)|?]]; [by left| |by right; right].
      right. left. exists j, tx', t'. split; [|done]. cbn. rewrite lookup_insert_ne; [done|]. intros <-. congruence.
  - intros j d [[<- <-]|[Hne Hj]]%lookup_insert_Some; [done|]. pose proof (iv_client0 j d Hj) as Hd.
    destruct d; try done. by specialize (Hothers j _ (not_eq_sym Hne) Hj).
  - intros j k d e p [[<- <-]|[Hne Hj]]%lookup_insert_Some [[<- <-]|[Hk He]]%lookup_insert_Some Hd Hep; try done.
    by eapply iv_promise0.
  - intros Hf. rewrite Hl, <- Permutation_middle. constructor; [|auto]. rewrite not_elem_of_app. auto.
Qed.

Lemma promise_known n i c p : inv n → clients n !! i = Some c → promise_of c = Some p → is_Some (promises (pendingTxs n) !! p).
Proof.
  intros Hi Hc Hp. pose proof (iv_client _ Hi i c Hc) as Hok.
  destruct c; cbn in Hp; try done; subst s; destruct Hok as [Ht|(r & Hr & _)]; try eauto;
    destruct (po_open _ (iv_pending _ Hi) _ _ Ht) as (ch & ? & _); eauto.
Qed.

Lemma inv_add n i tx t s h : inv n → clients n !! i = Some (Enqueued tx t) →
  NewCompletionPromise t (promises (pendingTxs n)) = (s, h) →
  inv (set_client (set_pending n (Add (tx_id tx) s (mkPendingTxs (txs (pendingTxs n)) h))) true i (Added tx s)).
Proof.
  intros Hi Hc Hnew. set (n1 := set_client _ _ _ _).
  destruct (iv_lock _ Hi i _ Hc eq_refl) as (Hm & Hrun & Hu). assert (Hnone : txs (pendingTxs n) !! tx_id tx = None) by exact (iv_client _ Hi i _ Hc).
  assert (Hothers : ∀ j d, j ≠ i → clients n !! j = Some d → holds_lock d = false).
  { intros j d Hne Hj. destruct (holds_lock d) eqn:E; [|done]. by destruct Hne; symmetry; eapply Hu. }
  assert (Hh : ∀ p, is_Some (promises (pendingTxs n) !! p) → h !! p = promises (pendingTxs n) !! p ∧ s ≠ Some p).
  { intros p Hp. unfold NewCompletionPromise in Hnew. destruct (t <=? 0); injection Hnew as <- <-; [done|].
    assert (fresh (dom (promises (pendingTxs n))) ≠ p) as Hne.
    { intros <-. by apply (is_fresh (dom (promises (pendingTxs n)))), elem_of_dom. }
    split; [by apply lookup_insert_ne|]. by intros [= ?]. }
  pose proof (add_pending_ok _ (tx_id tx) _ _ _ (iv_pending _ Hi) Hnew) as Hpok.
  pose proof (promise_known n) as Hpk. pose proof Hi as Hi'. destruct Hi.
  assert (Ecl : clients n1 = <[i := Added tx s]> (clients n)) by done. split; rewrite ?Ecl; try done.
  - intros j d [[<- <-]|[Hne Hj]]%lookup_insert_Some Hd.
    + split_and!; [done..|]. intros k e [[<- _]|[Hk He]]%lookup_insert_Some Hhe; [done|].
      rewrite (Hothers k e) in Hhe; [done|by apply not_eq_sym|done].
    + rewrite (Hothers j d) in Hd; [done|by apply not_eq_sym|done].
  - intros x Hx. cbn. destruct (decide (x = tx_id tx)) as [->|Hne]; [left; rewrite lookup_insert_eq; eauto|].
    destruct (iv_known0 x Hx) as [?|[(j & tx' & t' & Hj & Ht)|?]]; [left; by rewrite lookup_insert_ne| |by right; right].
    right. left. exists j, tx', t'. split; [|done]. rewrite lookup_insert_ne; [done|]. intros <-. congruence.
  - intros j d [[<- <-]|[Hne Hj]]%lookup_insert_Some.
    { destruct s; [|done]. left. cbn. apply lookup_insert_eq. }
    pose proof (iv_client0 j d Hj) as Hd. pose proof (Hothers j d (not_eq_sym Hne) Hj) as Hdl.
    destruct d as [| | | |tx' t'|tx' t'|tx' t'|tx' [p|]| |tx' [p|]|tx' [[r|]| |]]; try done.
    destruct Hd as [Hd|(r & Hr & Hro)].
    + left. cbn. rewrite lookup_insert_ne; [done|]. intros E. rewrite E in Hnone. by rewrite Hnone in Hd.
    + right. exists r. cbn. destruct (Hh p) as [-> _]; [eauto|]. done.
  - intros j k d e p [[<- <-]|[Hne Hj]]%lookup_insert_Some [[<- <-]|[Hk He]]%lookup_insert_Some Hd Hep; [done|..].
    + cbn in Hd. subst s. destruct (Hh p) as [_ ?]; [by eapply Hpk|done].
    + cbn in Hep. subst s. destruct (Hh p) as [_ ?]; [by eapply Hpk|done].
    + by eapply iv_promise0.
Qed.

Lemma inv_wait n i tx s r h : inv n → clients n !! i = Some (Waiting tx s) → Wait s (promises (pendingTxs n)) r h →
  inv (set_client (set_pending n (mkPendingTxs (txs (pendingTxs n)) h)) (mutex n) i (Returned tx r)).
Proof.
  intros Hi Hc Hw.
  assert (En : set_pending n (mkPendingTxs (txs (pendingTxs n)) (promises (pendingTxs n))) = n) by (by destruct n as [? ? ? ? ? ? [] ? ? ? ? ? ? ? ?]).
  remember (promises (pendingTxs n)) as h0 eqn:Eh0. destruct Hw as [h|p h|p h ch r ch' Hch Hr]; subst h.
  1,2: rewrite En; by eapply inv_client_same.
  destruct (iv_client _ Hi i _ Hc) as [Ht|(r0 & Hr0 & Hok)].
  { destruct (po_open _ (iv_pending _ Hi) _ _ Ht) as (ch0 & Hch0 & Hb & _ & Hcl). rewrite Hch in Hch0. injection Hch0 as <-.
    unfold chan_recv in Hr. by rewrite Hb, Hcl in Hr. }
  rewrite Hch in Hr0. injection Hr0 as ->. injection Hr as <- <-.
  assert (Hnt : ∀ t, txs (pendingTxs n) !! t ≠ Some (Some p)).
  { intros t Ht. destruct (po_open _ (iv_pending _ Hi) _ _ Ht) as (ch0 & Hch0 & Hb & _). rewrite Hch in Hch0. by injection Hch0 as <-. }
  pose proof Hi as Hi'. destruct Hi. set (n1 := set_client _ _ _ _).
  assert (Hpk : pending_ok (pendingTxs n1)).
  { split; cbn; [|apply iv_pending0]. intros t j Ht. destruct (po_open _ iv_pending0 _ _ Ht) as (ch0 & Hch0 & Ho).
    exists ch0. split; [|done]. rewrite lookup_insert_ne; [done|]. intros <-. by destruct (Hnt t). }
  assert (Ecl : ∃ c, clients n1 = <[i := c]> (clients n) ∧ holds_lock c = false ∧ promise_of c = None ∧ client_ok n1 c)
    by (eexists; split; [done|]; by destruct r0).
  destruct Ecl as (c' & Ecl & Hcl & Hcp & Hcok). split; rewrite ?Ecl; try done.
  - intros j d [[<- <-]|[Hne Hj]]%lookup_insert_Some Hd; [congruence|].
    destruct (iv_lock0 j d Hj Hd) as (? & ? & Hu). split_and!; [done..|].
    intros k e [[<- <-]|[Hk He]]%lookup_insert_Some Hh; [congruence|]. by eapply Hu.
  - intros x Hx. destruct (iv_known0 x Hx) as [?|[(j & tx' & t' & Hj & Ht)|?]]; [by left| |by right; right].
    right. left. exists j, tx', t'. split; [|done]. cbn. rewrite lookup_insert_ne; [done|]. intros <-. congruence.
  - intros j d [[<- <-]|[Hne Hj]]%lookup_insert_Some; [done|]. pose proof (iv_client0 j d Hj) as Hd.
    destruct d as [| | | |tx' t'|tx' t'|tx' t'|tx' [p'|]| |tx' [p'|]|tx' [[r|]| |]]; try done.
    all: destruct Hd as [Hd|(r' & Hr' & Hro)]; [by left|right]; exists r'; split; [|done]; cbn;
      rewrite lookup_insert_ne; [done|]; intros <-; apply Hne; by eapply iv_promise0.
  - intros j k d e p' [[<- <-]|[Hne Hj]]%lookup_insert_Some [[<- <-]|[Hk He]]%lookup_insert_Some Hd Hep;
      [done|congruence..|]. by eapply iv_promise0.
Qed.

Lemma inv_client_step n i c n' : inv n → clients n !! i = Some c → client_step i n c n' → inv n'.
Proof.
  intros Hi Hc Hst. destruct Hst.
  1,2: by eapply inv_client_same.
  1,2: match goal with H : mutex ?m = false |- _ => rewrite <- H end; by eapply inv_client_same.
  - by eapply inv_client_take.
  - destruct (iv_lock _ Hi i _ Hc eq_refl) as (Hm & _). rewrite <- Hm. by eapply inv_client_same.
  - destruct (iv_lock _ Hi i _ Hc eq_refl) as (Hm & _). rewrite <- Hm. eapply inv_client_same; try done.
    cbn. unfold Has in H. apply bool_decide_eq_false in H. by apply eq_None_not_Some.
  - destruct (iv_lock _ Hi i _ Hc eq_refl) as (Hm & _). rewrite <- Hm. by eapply inv_client_same.
  - destruct (iv_lock _ Hi i _ Hc eq_refl) as (Hm & _ & Hu). rewrite <- Hm. eapply inv_client_same; try done.
    unfold DoesTxIDExist in H. apply bool_decide_eq_false in H. assert (Hn : txs (pendingTxs n) !! tx_id tx = None) by exact (iv_client _ Hi i _ Hc).
    split_and!; [done| |done]. intros [[s Hs]|[(j & tx' & t' & Hj & Ht)|Hl]]%(iv_known _ Hi); [congruence| |done].
    pose proof (Hu _ _ Hj eq_refl). subst j. congruence.
  - destruct (iv_lock _ Hi i _ Hc eq_refl) as (Hm & _). rewrite <- Hm. by eapply inv_client_same.
  - by eapply inv_enqueue.
  - destruct (iv_lock _ Hi i _ Hc eq_refl) as (Hm & _). rewrite <- Hm. by eapply inv_client_same.
  - by eapply inv_add.
  - apply (inv_client_give n i (Added tx s)); try done; [|by right]. exact (iv_client _ Hi i _ Hc).
  - apply (inv_client_give n i (Failed tx e)); try done. by left.
  - by eapply inv_wait.
Qed.

Lemma inv_reorderer n n' : inv n → reorderer_step max n n' → inv n'.
Proof.
  intros Hi Hst. destruct Hst as [b out q Eo Eq|out rest Eo Ef|tx q out rest Eo Hq Er|q Eo Hq];
    apply (inv_shrink n); try done; try apply (iv_queue _ Hi).
  - apply enqueue_ok in Eq as (_ & _ & ->). unfold live_ids, live. cbn. rewrite Eo, bind_app. cbn. rewrite app_nil_r.
    apply Permutation_submseteq, Permutation_map. solve_Permutation.
  - apply flush_txs in Ef as [Ef ->]. unfold live_ids, live. cbn. rewrite Eo, Ef. done.
  - inversion Hq as [e q' Hr|]; subst. apply chan_recv_some in Hr as (Eb & Ec & _). pose proof (iv_queue _ Hi) as Hl.
    cbn. rewrite Eb, <- Ec in Hl. cbn in Hl. lia.
  - inversion Hq as [e q' Hr|]; subst. apply chan_recv_some in Hr as (Eb & _ & _). apply reorder_txs in Er.
    unfold live_ids, live. cbn. rewrite Eo, Eb. apply Permutation_submseteq, Permutation_map. cbn.
    rewrite (app_assoc (TxData <$> rest)), (Permutation_app_comm (TxData <$> rest)), Er. solve_Permutation.
  - inversion Hq as [e q' Hr|]; subst; [by apply chan_recv_none in Hr as [-> _]; apply (iv_queue _ Hi)|apply (iv_queue _ Hi)].
  - unfold live_ids, live. cbn. rewrite Eo. inversion Hq as [e q' Hr|]; subst; [by apply chan_recv_none in Hr as [-> _]|done].
Qed.

Lemma live_proposals n props b props' : proposals n = props ++ b :: props' →
  live_ids n ≡ₚ block_ids b ++ live_ids (set_ledger n (props ++ props') (ledger n) (notifications n)).
Proof.
  intros E. unfold live_ids, live, block_ids. cbn. rewrite E, !bind_app. cbn. rewrite <- fmap_app.
  apply Permutation_map. solve_Permutation.
Qed.

(** What is released with a block is nowhere else in the pipeline. *)
Lemma inv_release n n' b err p : inv n → clients n' = clients n → mutex n' = mutex n → closing n' = closing n →
  notifications n' = notifications n → ledger n' = ledger n → txQueue n' = txQueue n →
  ReleaseWithError (block_ids b) err (pendingTxs n) = Some (Ok p) → pendingTxs n' = p →
  live_ids n ≡ₚ block_ids b ++ live_ids n' → inv n'.
Proof.
  intros Hi Ecl Emu Eco Eno Ele Eq Hr Ep Hl.
  destruct (release_spec (block_ids b) err _ (iv_pending _ Hi)) as (p' & Hr' & Hp & Ht & Hres & Hk).
  rewrite Hr in Hr'. injection Hr' as <-. pose proof (iv_unique _ Hi) as Hnd. rewrite Hl in Hnd.
  apply NoDup_app in Hnd as (_ & Hdisj & _). apply (inv_resolve n n' (block_ids b)); rewrite ?Ep; try done.
  - by rewrite Eno.
  - rewrite Eq. apply (iv_queue _ Hi).
  - rewrite Hl. apply submseteq_inserts_l. done.
  - intros t i Hin Hi'. exists (ErrorResult err). by rewrite (Hres t i).
  - intros x Hx Hx'. by destruct (Hdisj x).
Qed.

Lemma inv_creator n n' : inv n → creator_step n n' → inv n'.
Proof.
  intros Hi Hst. destruct Hst as [batch q Es Hq|b Es|b Es|b leader host ids p Es Hids Hr|b e Es He].
  - apply chan_recv_some in Hq as (Eb & _ & _). apply (inv_shrink n); try done; [apply (iv_queue _ Hi)|].
    unfold live_ids, live. cbn. rewrite Eb, Es. cbn. unfold block_txs. cbn.
    apply Permutation_submseteq, Permutation_map. solve_Permutation.
  - apply (inv_shrink n); try done; [apply (iv_queue _ Hi)|]. unfold live_ids, live. cbn. rewrite Es, bind_app. cbn.
    apply Permutation_submseteq, Permutation_map. rewrite app_nil_r. solve_Permutation.
  - apply (inv_shrink n); try done; [apply (iv_queue _ Hi)|]. unfold live_ids, live. cbn. rewrite Es. cbn.
    rewrite !fmap_app. do 4 apply submseteq_skips_l. by apply submseteq_inserts_l.
  - apply block_payload_ids in Hids as ->. eapply (inv_release n _ b); try done.
    unfold live_ids, live, block_ids. cbn. rewrite Es. cbn. rewrite <- fmap_app. apply Permutation_map. solve_Permutation.
  - apply (inv_shrink n); try done; [apply (iv_queue _ Hi)|]. unfold live_ids, live. cbn. rewrite Es. cbn.
    rewrite !fmap_app. do 4 apply submseteq_skips_l. by apply submseteq_inserts_l.
Qed.

Lemma inv_commit_step n n' : inv n → commit_step foreign n n' → inv n'.
Proof.
  intros Hi Hst. destruct Hst as [props b props' ids err p Ep Hids Hr|props b props' e Ep He|props b props' b' Ep Epl|b Hf|b notif p En Hp].
  - apply block_payload_ids in Hids as ->. eapply (inv_release n _ b); try done. by rewrite (live_proposals n _ _ _ Ep).
  - apply (inv_shrink n); try done; [apply (iv_queue _ Hi)|]. rewrite (live_proposals n _ _ _ Ep). by apply submseteq_inserts_l.
  - pose proof (live_proposals n _ _ _ Ep) as Hl. apply (inv_commit n _ b'); try done.
    + rewrite Hl. by apply submseteq_inserts_l.
    + intros Hf. rewrite Epl. split; [pose proof (iv_ledger _ Hi Hf) as Hnd; by rewrite Hl in Hnd|].
      intros i tx t Hc Hx. destruct (iv_client _ Hi i _ Hc) as (_ & Hn & _). apply Hn. rewrite Hl. set_solver.
  - apply (inv_commit n _ b); try done. intros Ho. destruct (Ho _ _ Hf) as [Hnd Hnew]. split.
    + pose proof (iv_ledger _ Hi Ho) as Hl. apply NoDup_app in Hl as (Hl1 & Hl2 & Hl3).
      apply NoDup_app. split_and!; [done| |].
      * intros x Hx [Hb|Hb]%elem_of_app; [by destruct (Hnew x Hb)|by apply (Hl2 x)].
      * apply NoDup_app. split_and!; [done| |done]. intros x Hx. by destruct (Hnew x Hx) as (_ & ? & _).
    + intros i tx t Hc Hx. destruct (Hnew _ Hx) as (_ & _ & Hn). by apply (Hn i tx t).
  - destruct (Payload b) as [pl|] eqn:Epl; [|unfold PostBlockCommitProcessing in Hp; by rewrite Epl in Hp].
    destruct (notify_spec b _ (iv_pending _ Hi) (ex_intro _ _ Epl)) as (p' & Hp' & Hok & Ht & Hres & Hk).
    rewrite Hp in Hp'. injection Hp' as <-. assert (Hb : b ∈ ledger n) by (apply (iv_notif _ Hi); rewrite En; by left).
    apply (inv_resolve n _ (block_ids b)); try done.
    + intros b' Hb'. rewrite En. by right.
    + apply (iv_queue _ Hi).
    + intros t i Hin Ht'. destruct (Hres t i Hin Ht') as (j & Hj & Hpr).
      eexists. split; [exact Hpr|]. intros tx <-. exists b, j. done.
    + intros x Hx _. unfold ledger_ids. apply list_elem_of_bind. by exists b.
Qed.

Lemma inv_close n n' : inv n → close_step n n' → inv n'.
Proof.
  intros Hi Hst.
  assert (Hno : closing n ∉ [Running; Closed] → ∀ i c, clients n !! i = Some c → holds_lock c = false).
  { intros Hc i c Hcl. destruct (holds_lock c) eqn:E; [|done]. by destruct (iv_lock _ Hi i c Hcl E) as (_ & ? & _). }
  assert (Hgen : ∀ lock q bq st, (st ∉ [Running; Closed] → lock = true) → buffer q = buffer (txQueue n) →
    capacity q = capacity (txQueue n) → buffer bq = buffer (txBatchQueue n) →
    (∀ i c, clients n !! i = Some c → holds_lock c = false) → inv (set_closing n lock q bq st)).
  { intros lock q bq st Hlock Eq Ec Eb Hf. destruct Hi.
    assert (El : live_ids (set_closing n lock q bq st) = live_ids n) by (unfold live_ids, live; cbn; by rewrite Eq, Eb).
    split; rewrite ?El; try done.
    - cbn. by rewrite Eq, Ec.
    - intros i c Hc Hh. by rewrite (Hf i c Hc) in Hh.
    - intros i c Hc. pose proof (iv_client0 i c Hc). destruct c; try done. cbn. by rewrite El. }
  assert (Hclose : ∀ {A} (q q' : Queue A), Close q = Ok q' → buffer q' = buffer q ∧ capacity q' = capacity q).
  { intros A q q'. unfold Close, chan_close. destruct (closed q); [done|]. by intros [= <-]. }
  destruct Hst as [q Hm Hr Hq|Hs Ho|bq Hs Hq|Hs Ho|Hs].
  - apply Hclose in Hq as [? ?]. apply Hgen; try done. intros i c Hc. by eapply lock_free.
  - apply Hgen; try done. apply Hno. rewrite Hs. set_solver.
  - apply Hclose in Hq as [? ?]. apply Hgen; try done. apply Hno. rewrite Hs. set_solver.
  - apply Hgen; try done. apply Hno. rewrite Hs. set_solver.
  - apply Hgen; try done; [set_solver|]. apply Hno. rewrite Hs. set_solver.
Qed.

Lemma inv_step n n' : inv n → step max foreign n n' → inv n'.
Proof.
  intros Hi Hst. destruct Hst as [i tx t Hc|i c n' Hc Hst|n' _ Hst|n' _ Hst|n' Hst|n' Hst].
  - apply inv_set_client; try done.
    + intros j d _ Hd Ed. by destruct (iv_lock _ Hi j d Hd Ed) as (? & _).
    + apply (iv_closing _ Hi).
    + intros tx' t' E. congruence.
  - by eapply inv_client_step.
  - by eapply inv_reorderer.
  - by eapply inv_creator.
  - by eapply inv_commit_step.
  - by eapply inv_close.
Qed.

Lemma inv_reachable ql bl blocks n : NoDup (blocks ≫= block_ids) →
  reachable max foreign (new_node ql bl blocks) n → inv n.
Proof.
  intros Hnd. induction 1 as [|n n' _ IH Hst]; [|by eapply inv_step]. split; cbn; try done.
  - lia.
  - intros H. destruct H. by left.
  - constructor.
  - intros x Hx. by inversion Hx.
  - intros b Hb. by inversion Hb.
  - intros _. by rewrite app_nil_r.
Qed.

End Ids.

(** C34: no two transactions on the way into a block have the same identifier, whatever
    blocks other leaders bring.  Where these blocks bring only identifiers that the node
    has neither committed nor accepted, in particular on a node that commits only its own
    blocks, every identifier is committed at most once: the identifiers of the ledger and
    of the transactions on their way are pairwise different. *)
Theorem identifiers_unique max foreign ql bl blocks n : NoDup (blocks ≫= block_ids) →
  reachable max foreign (new_node ql bl blocks) n →
  NoDup (live_ids n) ∧ ((∀ n' b, foreign n' b → brings_new n' b) → NoDup (ledger_ids n ++ live_ids n)).
Proof. intros Hnd Hr. destruct (inv_reachable max foreign ql bl blocks n Hnd Hr). done. Qed.

(** C15: a receipt that [SubmitTransaction] returns is true: it names a committed block and
    the place of the transaction in that block. *)
Theorem receipts_are_true max foreign ql bl blocks n i tx r : NoDup (blocks ≫= block_ids) →
  reachable max foreign (new_node ql bl blocks) n → clients n !! i = Some (Returned tx (Ok (Some r))) →
  ∃ b j, b ∈ ledger n ∧ Receipt_Header r = Header b ∧ Receipt_TxIndex r = Z.of_nat j ∧ block_ids b !! j = Some (tx_id tx).
Proof. intros Hnd Hr Hc. exact (iv_client _ _ (inv_reachable max foreign ql bl blocks n Hnd Hr) i _ Hc). Qed.

(** ** Calls that cannot fail *)

Lemma open_while_running max foreign ql bl blocks n : reachable max foreign (new_node ql bl blocks) n →
  closing n = Running → closed (txQueue n) = false.
Proof.
  induction 1 as [|n n' _ IH Hst]; [done|]. intros Hrun.
  destruct Hst as [i tx t Hc|i c n' Hc Hst|n' _ Hst|n' _ Hst|n' Hst|n' Hst].
  - by apply IH.
  - destruct Hst; try by apply IH. by apply enqueue_ok in H0 as (_ & _ & ->).
  - destruct Hst as [b out q Eo Eq|out rest Eo Ef|tx q out rest Eo Hq Er|q Eo Hq]; try by apply IH.
    + inversion Hq as [e q' Hr|]; subst. apply chan_recv_some in Hr as (_ & _ & E). cbn. rewrite E. by apply IH.
    + inversion Hq as [e q' Hr|]; subst; [apply chan_recv_none in Hr as [-> _]|]; by apply IH.
  - destruct Hst; by apply IH.
  - destruct Hst; by apply IH.
  - by destruct Hst.
Qed.

(** Telling clients of committed or rejected transactions neither blocks nor panics,
    whatever the transactions, and while a node runs, a client that found room in the
    queue enqueues at once, although it holds the lock of the node. *)
Theorem pending_calls_succeed max foreign ql bl blocks n : NoDup (blocks ≫= block_ids) →
  reachable max foreign (new_node ql bl blocks) n →
  (∀ b, is_Some (Payload b) → ∃ p, PostBlockCommitProcessing b (pendingTxs n) = Some (Ok p)) ∧
  (∀ ids err, ∃ p, ReleaseWithError ids err (pendingTxs n) = Some (Ok p)) ∧
  (∀ tx, closing n = Running → IsFull (txQueue n) = false → ∃ q, Enqueue (txQueue n) tx = Some (Ok q)).
Proof.
  intros Hnd Hr. pose proof (inv_reachable max foreign ql bl blocks n Hnd Hr) as [Hp Hq _ _ _ _ _ _ _ _]. split_and!.
  - intros b Hb. destruct (notify_spec b _ Hp Hb) as (p & ? & _). by exists p.
  - intros ids err. destruct (release_spec ids err _ Hp) as (p & ? & _). by exists p.
  - intros tx Hrun Hf. eexists. apply enqueue_not_full; [by eapply open_while_running|done..].
Qed.

(** ** A lost receipt

    [SubmitTransaction] enqueues the transaction before it adds the promise.  When the
    block is committed and announced in between, nobody fulfils the promise any more. *)

Record lost (x : string) (p : nat) (n : node) : Prop := {
  lo_inv : inv nobody n;
  lo_pending : txs (pendingTxs n) !! x = Some (Some p);
  lo_committed : x ∈ ledger_ids n;
  lo_announced b : b ∈ notifications n → x ∉ block_ids b;
}.

Lemma lost_not_live x p n : lost x p n → x ∉ live_ids n.
Proof.
  intros [Hi _ Hl _]. pose proof (iv_ledger _ _ Hi (fun _ _ H => False_ind _ H)) as Hnd. apply NoDup_app in Hnd as (_ & Hd & _). by apply Hd.
Qed.

Lemma lost_step max x p n n' : lost x p n → step max nobody n n' → lost x p n'.
Proof.
  intros Hl Hst. pose proof (lost_not_live _ _ _ Hl) as Hnl. pose proof Hl as [Hi Hp Hc Ha].
  assert (Hrel : ∀ b err p', ReleaseWithError (block_ids b) err (pendingTxs n) = Some (Ok p') → x ∉ block_ids b →
    txs p' !! x = Some (Some p)).
  { intros b err p' Hr Hx. destruct (release_spec (block_ids b) err _ (iv_pending _ _ Hi)) as (p2 & Hr2 & _ & Ht & _).
    rewrite Hr in Hr2. injection Hr2 as <-. by apply Ht. }
  split; [by eapply inv_step|..];
    destruct Hst as [i tx t Hcl|i c n' Hcl Hst|n' _ Hst|n' _ Hst|n' Hst|n' Hst]; try (by destruct Hst); try done.
  - destruct Hst; try done. cbn. rewrite lookup_insert_ne; [done|]. intros E.
    pose proof (iv_client _ _ Hi i _ Hcl) as Hn. cbn [client_ok] in Hn. by rewrite E, Hp in Hn.
  - destruct Hst as [| | |b leader host ids p' Es Hids Hr|]; try done. apply block_payload_ids in Hids as ->.
    eapply Hrel; [done|]. intros Hx. apply Hnl. unfold live_ids, live. rewrite Es. rewrite !fmap_app. set_solver.
  - destruct Hst as [props b props' ids err p' Ep Hids Hr|props b props' e Ep He|props b props' b' Ep Epl|b Hf|b notif p' En Hp']; try done.
    + apply block_payload_ids in Hids as ->. eapply Hrel; [done|]. intros Hx. apply Hnl. rewrite (live_proposals n _ _ _ Ep). set_solver.
    + destruct (Payload b) as [pl|] eqn:Epl; [|unfold PostBlockCommitProcessing in Hp'; by rewrite Epl in Hp'].
      destruct (notify_spec b _ (iv_pending _ _ Hi) (ex_intro _ _ Epl)) as (p2 & Hp2 & _ & Ht & _).
      rewrite Hp' in Hp2. injection Hp2 as <-. apply Ht. split; [done|]. apply Ha. rewrite En. by left.
  - unfold ledger_ids in *. destruct Hst; try done; cbn; rewrite bind_app, elem_of_app; by left.
  - intros b0. destruct Hst as [props b props' ids err p' Ep Hids Hr|props b props' e Ep He|props b props' b' Ep Epl|b Hf|b notif p' En Hp'];
      try done; cbn [notifications set_ledger set_pending].
    + apply Ha.
    + apply Ha.
    + intros [Hb0|Hb0]%elem_of_app; [by apply Ha|]. apply list_elem_of_singleton in Hb0 as ->. intros Hx. apply Hnl.
      rewrite (live_proposals n _ _ _ Ep). apply elem_of_app. left. by rewrite <- Epl.
    + intros Hb0. apply Ha. rewrite En. by right.
Qed.

Lemma lost_forever max x p n n' : lost x p n → reachable max nobody n n' → lost x p n'.
Proof. intros Hl. induction 1; [done|]. by eapply lost_step. Qed.
