(* ===== verification/PipelineExample.v ===== *)
(** * A run of the pipeline

    One client and one transaction: a run in which the client gets its receipt, and one
    in which the block is announced before the client has registered its promise. *)

From S2P Require Import Prelude Types BlockStore Queue Pipeline PipelineProofs.
Open Scope Z_scope.

Module PipelineExample.

Definition tx : Tx := TxData (mkDataTxEnvelope (mkDataTx ["alice"] "t" []) ∅).
Definition batch : BlockPayload := Block_DataTxEnvelopes [mkDataTxEnvelope (mkDataTx ["alice"] "t" []) ∅].
Definition block : Block := proposal 1 batch.

Definition n0 : node := new_node 1 1 [].

(** The client up to the enqueueing of its transaction. *)
Definition n1 : node := set_client n0 false 0 (Called tx 1).
Definition n2 : node := set_client n1 false 0 (IdChecked tx 1).
Definition n3 : node := set_client n2 false 0 (LeaderChecked tx 1).
Definition n4 : node := set_client n3 true 0 (Locked tx 1).
Definition n5 : node := set_client n4 true 0 (NotPending tx 1).
Definition n6 : node := set_client n5 true 0 (NotDuplicate tx 1).
Definition n7 : node := set_client (set_queue n6 (mkChan [tx] 1 false) [tx]) true 0 (Enqueued tx 1).

(** The other goroutines, from a state with the transaction in the queue up to the commit of
    its block. *)
Section Through.
Context (p : PendingTxs) (m : bool) (cl : gmap nat client).
Definition in_queue : node := mkNode (mkChan [tx] 1 false) (make_chan 1) [] [] 1 None p m cl [] [] [] Running [tx] [].
Definition reordered : node := mkNode (make_chan 1) (make_chan 1) [] [batch] 1 None p m cl [] [] [] Running [tx] [].
Definition batched_up : node := mkNode (make_chan 1) (mkChan [batch] 1 false) [] [] 1 None p m cl [] [] [] Running [tx] [batch].
Definition created : node := mkNode (make_chan 1) (make_chan 1) [] [] 1 (Some block) p m cl [] [] [] Running [tx] [batch].
Definition proposed : node := mkNode (make_chan 1) (make_chan 1) [] [] 2 None p m cl [block] [] [] Running [tx] [batch].
Definition committed : node := mkNode (make_chan 1) (make_chan 1) [] [] 2 None p m cl [] [block] [block] Running [tx] [batch].

Lemma goes_through n : reachable 1 nobody n in_queue → reachable 1 nobody n committed.
Proof.
  intros R0.
  assert (R1 : reachable 1 nobody n reordered).
  { eapply reachable_step; [done|]. apply step_reorderer; [by left|].
    by apply (reorderer_tx 1 in_queue tx (make_chan 1) [batch] []); [|apply wait_entry|]. }
  assert (R2 : reachable 1 nobody n batched_up).
  { eapply reachable_step; [done|]. apply step_reorderer; [by left|]. by apply (reorderer_enqueue 1 reordered batch []). }
  assert (R3 : reachable 1 nobody n created).
  { eapply reachable_step; [done|]. apply step_creator; [by left|]. by apply (creator_dequeue batched_up batch). }
  assert (R4 : reachable 1 nobody n proposed).
  { eapply reachable_step; [done|]. apply step_creator; [by left|]. by apply (creator_accepted created block). }
  eapply reachable_step; [done|]. apply step_commit. by apply (commit_proposal nobody proposed [] block [] block).
Qed.
End Through.

Lemma client_moves n c n' : reachable 1 nobody n0 n → clients n !! 0%nat = Some c → client_step 0 n c n' →
  reachable 1 nobody n0 n'.
Proof. intros Hr Hc Hst. eapply reachable_step; [done|]. by eapply step_client. Qed.

Lemma to_enqueued : reachable 1 nobody n0 n7.
Proof.
  assert (R1 : reachable 1 nobody n0 n1) by (eapply reachable_step; [apply reachable_refl|by apply step_call]).
  assert (R2 : reachable 1 nobody n0 n2) by (eapply (client_moves n1); [done..|by apply submit_id]).
  assert (R3 : reachable 1 nobody n0 n3) by (eapply (client_moves n2); [done..|by apply submit_leader]).
  assert (R4 : reachable 1 nobody n0 n4) by (eapply (client_moves n3); [done..|by apply submit_lock]).
  assert (R5 : reachable 1 nobody n0 n5) by (eapply (client_moves n4); [done..|by apply submit_not_pending]).
  assert (R6 : reachable 1 nobody n0 n6) by (eapply (client_moves n5); [done..|by apply submit_new]).
  eapply (client_moves n6); [done..|]. by apply (submit_enqueue 0 n6 tx 1).
Qed.

(** ** A receipt *)

Definition added : PendingTxs := mkPendingTxs {["t" := Some 0%nat]} {[0%nat := make_chan 1]}.
Definition n8 : node := set_client (set_pending n7 added) true 0 (Added tx (Some 0%nat)).
Definition n9 : node := in_queue added false (<[0%nat := Waiting tx (Some 0%nat)]> (clients n8)).
Definition n14 : node := committed added false (clients n9).
Definition receipt : TxReceipt := mkTxReceipt (Header block) 0.
Definition n15 : node :=
  set_pending (set_ledger n14 [] [block] []) (mkPendingTxs (delete "t" (txs added)) (<[0%nat := fulfilled (ReceiptResult receipt)]> (promises added))).
Definition n16 : node :=
  set_client (set_pending n15 (mkPendingTxs (txs (pendingTxs n15)) (<[0%nat := mkChan [] 1 true]> (promises (pendingTxs n15)))))
    false 0 (Returned tx (Ok (Some receipt))).

Lemma to_receipt : reachable 1 nobody n0 n16.
Proof.
  assert (R8 : reachable 1 nobody n0 n8).
  { eapply (client_moves n7); [apply to_enqueued|done|]. by apply (submit_add 0 n7 tx 1). }
  assert (R9 : reachable 1 nobody n0 n9).
  { eapply (client_moves n8); [done..|]. by apply (submit_unlock 0 n8 tx). }
  assert (R14 : reachable 1 nobody n0 n14) by by apply goes_through.
  assert (R15 : reachable 1 nobody n0 n15).
  { eapply reachable_step; [done|]. apply step_commit. by apply (notify_listener nobody n14 block []). }
  eapply (client_moves n15); [done..|].
  by apply (submit_wait 0 n15 tx (Some 0%nat)), (wait_result 0 _ (fulfilled (ReceiptResult receipt)) (Some (ReceiptResult receipt))).
Qed.

Lemma batches_in_order_witness :
  accepted n16 = (batched n16 ≫= payload_txs) ++
    (outbox n16 ≫= payload_txs) ++ (TxData <$> pendingDataTxs n16) ++ buffer (txQueue n16) ∧
  Forall (batch_ok 1) (batched n16) ∧ Z.of_nat (length (pendingDataTxs n16)) < 1 ∧
  buffer (txBatchQueue n16) `suffix_of` batched n16.
Proof. exact (batches_in_order 1 nobody 1 1 [] n16 (conj eq_refl eq_refl) to_receipt). Defined.

(** After that run, a block of another leader. *)
Definition foreign_block : Block := proposal 2 (Block_DataTxEnvelopes [mkDataTxEnvelope (mkDataTx ["bob"] "u" []) ∅]).
Definition n17 : node := set_ledger n16 (proposals n16) (ledger n16 ++ [foreign_block]) (notifications n16 ++ [foreign_block]).

Lemma foreign_block_new : brings_new n16 foreign_block.
Proof.
  split; [repeat constructor; set_solver|]. intros x Hx. apply list_elem_of_singleton in Hx as ->.
  split_and!; [intros H; vm_compute in H; set_solver|intros H; vm_compute in H; set_solver|].
  assert (Hc : clients n16 = {[0%nat := Returned tx (Ok (Some receipt))]}) by (vm_compute; reflexivity).
  intros i c t Hi. rewrite Hc in Hi. by apply lookup_singleton_Some in Hi as [_ [=]].
Qed.

Lemma to_foreign : reachable 1 brings_new n0 n17.
Proof.
  eapply reachable_step; [eapply reachable_mono, to_receipt; done|].
  apply step_commit, commit_foreign, foreign_block_new.
Qed.

Lemma identifiers_unique_witness : NoDup (live_ids n17) ∧ NoDup (ledger_ids n17 ++ live_ids n17) ∧ ledger_ids n17 = ["t"; "u"].
Proof.
  destruct (identifiers_unique 1 brings_new 1 1 [] n17 (NoDup_nil_2) to_foreign) as [H1 H2].
  exact (conj H1 (conj (H2 (fun _ _ H => H)) eq_refl)).
Defined.

Lemma receipts_are_true_witness :
  ∃ b j, b ∈ ledger n16 ∧ Receipt_Header receipt = Header b ∧ Receipt_TxIndex receipt = Z.of_nat j ∧ block_ids b !! j = Some (tx_id tx).
Proof. exact (receipts_are_true 1 nobody 1 1 [] n16 0 tx receipt (NoDup_nil_2) to_receipt eq_refl). Defined.

Lemma pending_calls_succeed_witness : ∃ p, PostBlockCommitProcessing block (pendingTxs n16) = Some (Ok p).
Proof.
  exact (proj1 (pending_calls_succeed 1 nobody 1 1 [] n16 (NoDup_nil_2) to_receipt) block (ex_intro _ batch eq_refl)).
Defined.

(** ** A receipt that is lost *)

Definition l12 : node := committed NewPendingTxs true (clients n7).
Definition l13 : node := set_pending (set_ledger l12 [] [block] []) (mkPendingTxs (delete "t" ∅) ∅).
Definition l14 : node := set_client (set_pending l13 added) true 0 (Added tx (Some 0%nat)).
Definition l15 : node := set_client l14 false 0 (Waiting tx (Some 0%nat)).

Lemma to_lost : reachable 1 nobody n0 l15.
Proof.
  assert (R12 : reachable 1 nobody n0 l12) by (apply goes_through; apply to_enqueued).
  assert (R13 : reachable 1 nobody n0 l13).
  { eapply reachable_step; [done|]. apply step_commit. by apply (notify_listener nobody l12 block []). }
  assert (R14 : reachable 1 nobody n0 l14).
  { eapply (client_moves l13); [done..|]. by apply (submit_add 0 l13 tx 1). }
  eapply (client_moves l14); [done..|]. by apply (submit_unlock 0 l14 tx).
Qed.

(** A receipt can be lost: the transaction of a waiting client is committed and
    announced before the client registers its promise, and from then on the promise is
    never fulfilled and the transaction stays pending, whatever happens. *)
Theorem receipt_can_be_lost :
  ∃ n, reachable 1 nobody (new_node 1 1 []) n ∧
    clients n !! 0%nat = Some (Waiting tx (Some 0%nat)) ∧ tx_id tx ∈ ledger_ids n ∧
    ∀ n', reachable 1 nobody n n' →
      Has (tx_id tx) (pendingTxs n') = true ∧ promises (pendingTxs n') !! 0%nat = Some (make_chan 1).
Proof.
  exists l15. split_and!; [apply to_lost|done|by left|].
  assert (Hl : lost "t" 0 l15).
  { split; [by eapply (inv_reachable 1 nobody 1 1 []), to_lost; constructor|done|by left|].
    intros b Hb. by inversion Hb. }
  intros n' Hr. destruct (lost_forever _ _ _ _ _ Hl Hr) as [Hi Hp _ _]. split.
  - unfold Has. change (tx_id tx) with "t". apply bool_decide_eq_true. rewrite Hp. eauto.
  - destruct (po_open _ (iv_pending _ _ Hi) _ _ Hp) as ([] & Hch & Hb & Hc & Hcl). cbn in *. by subst.
Qed.

End PipelineExample.
