(* ===== verification/Barrier.v ===== *)
(** * The barrier between replication and the block processor

    [internal/queue/onequeuebarrier.go] with the goroutines on its two sides: the
    replicator, which calls [EnqueueWait], and the loop of the block processor
    ([internal/blockprocessor/processor.go], [Start]), which dequeues an entry, processes
    it and replies.  The channels have no buffer: an entry or a reply passes when one side
    sends while the other receives. *)

From S2P Require Import Prelude.

Section Barrier.
(** Entries, replies, the state of the consumer and how it processes an entry. *)
Context {E R W : Type} (process : W → E → W * R).

(** The producer is outside of [EnqueueWait], or in one of its two selects. *)
Inductive producer :=
  | Outside
  | Sending (entry : E)
  | AwaitingReply (entry : E).

(** The consumer is in [Dequeue], processes an entry, is in [Reply], or has left its loop. *)
Inductive consumer :=
  | Dequeueing
  | Processing (entry : E)
  | Replying (entry : E) (reply : R)
  | Stopped.

(** [stopCh] is closed; the calls of [EnqueueWait] that returned, and the entries that were
    processed with their replies, are recorded. *)
Record barrier := mkBarrier {
  prod : producer;
  cons : consumer;
  stopCh : bool;
  world : W;
  calls : list (E * res R);
  processed : list (E * R);
}.

Definition NewOneQueueBarrier (w : W) : barrier := mkBarrier Outside Dequeueing false w [] [].

Definition closed_err : goerr := ClosedErr "closed".

(** [Close]: only the first call closes the channel. *)
Definition CloseBarrier (b : barrier) : barrier * res unit :=
  if stopCh b then (b, Err closed_err)
  else (mkBarrier (prod b) (cons b) true (world b) (calls b) (processed b), Ok tt).

Inductive barrier_step (b : barrier) : barrier → Prop :=
  (** [EnqueueWait] *)
  | enqueue_call entry : prod b = Outside →
    barrier_step b (mkBarrier (Sending entry) (cons b) (stopCh b) (world b) (calls b) (processed b))
  | enqueue_stopped entry : prod b = Sending entry → stopCh b = true →
    barrier_step b (mkBarrier Outside (cons b) true (world b) (calls b ++ [(entry, Err closed_err)]) (processed b))
  | entry_passes entry : prod b = Sending entry → cons b = Dequeueing →
    barrier_step b (mkBarrier (AwaitingReply entry) (Processing entry) (stopCh b) (world b) (calls b) (processed b))
  | reply_stopped entry : prod b = AwaitingReply entry → stopCh b = true →
    barrier_step b (mkBarrier Outside (cons b) true (world b) (calls b ++ [(entry, Err closed_err)]) (processed b))
  | reply_passes entry entry' reply : prod b = AwaitingReply entry → cons b = Replying entry' reply →
    barrier_step b (mkBarrier Outside Dequeueing (stopCh b) (world b) (calls b ++ [(entry, Ok reply)]) (processed b))
  (** The loop of the consumer; an error of [Dequeue] or [Reply] starts the next round. *)
  | consumer_processes entry w reply : cons b = Processing entry → process (world b) entry = (w, reply) →
    barrier_step b (mkBarrier (prod b) (Replying entry reply) (stopCh b) w (calls b) (processed b ++ [(entry, reply)]))
  | consumer_reply_fails entry reply : cons b = Replying entry reply → stopCh b = true →
    barrier_step b (mkBarrier (prod b) Dequeueing true (world b) (calls b) (processed b))
  | consumer_stops : cons b = Dequeueing → stopCh b = true →
    barrier_step b (mkBarrier (prod b) Stopped true (world b) (calls b) (processed b))
  | barrier_closes b' r : CloseBarrier b = (b', r) → barrier_step b b'.

Inductive barrier_reachable (w : W) : barrier → Prop :=
  | barrier_start : barrier_reachable w (NewOneQueueBarrier w)
  | barrier_next b b' : barrier_reachable w b → barrier_step b b' → barrier_reachable w b'.

(** ** Calls in sequence *)

(** Processing the entries one after the other gives these replies. *)
Inductive sequential (w : W) : list (E * R) → W → Prop :=
  | sequential_nil : sequential w [] w
  | sequential_snoc l w1 entry w2 reply :
    sequential w l w1 → process w1 entry = (w2, reply) → sequential w (l ++ [(entry, reply)]) w2.

(** The calls that returned a reply. *)
Definition successful (b : barrier) : list (E * R) :=
  omap (fun c => match c.2 with Ok r => Some (c.1, r) | _ => None end) (calls b).

(** What the producer still has to be told, while the barrier is open. *)
Definition in_progress (b : barrier) : list (E * R) :=
  match cons b with Replying entry reply => [(entry, reply)] | _ => [] end.

Record barrier_inv (w : W) (b : barrier) : Prop := {
  bi_sequential : sequential w (processed b) (world b);
  bi_open : stopCh b = false → processed b = successful b ++ in_progress b ∧
    match prod b, cons b with
    | AwaitingReply e, Processing e' | AwaitingReply e, Replying e' _ => e = e'
    | Outside, Dequeueing | Sending _, Dequeueing => True
    | _, _ => False
    end;
  bi_replies : match prod b, cons b with
    | AwaitingReply e, Processing e' | AwaitingReply e, Replying e' _ => e = e'
    | _, _ => True
    end;
  bi_calls : (successful b ++ match prod b with AwaitingReply _ => in_progress b | _ => [] end) `sublist_of` processed b;
}.

Lemma successful_err b p c s w l e : successful (mkBarrier p c s w (calls b ++ [(e, Err closed_err)]) l) = successful b.
Proof. unfold successful. cbn. by rewrite omap_app, app_nil_r. Qed.

Lemma successful_ok b p c s w l e r : successful (mkBarrier p c s w (calls b ++ [(e, Ok r)]) l) = successful b ++ [(e, r)].
Proof. unfold successful. cbn. by rewrite omap_app. Qed.

Lemma barrier_inv_step w b b' : barrier_inv w b → barrier_step b b' → barrier_inv w b'.
Proof.
  intros [Hseq Hopen Hrep Hcalls] Hst.
  assert (Hsub : successful b `sublist_of` processed b).
  { etrans; [|exact Hcalls]. apply sublist_inserts_r. done. }
  destruct Hst as [entry Ep|entry Ep Es|entry Ep Ec|entry Ep Es|entry entry' reply Ep Ec|entry w' reply Ec Epr|entry reply Ec Es|Ec Es|b' r Hc].
  - split; cbn; try done.
    + intros Es. destruct (Hopen Es) as [-> Hm]. rewrite Ep in Hm. split; [done|]. by destruct (cons b).
    + by rewrite app_nil_r.
  - split; try rewrite successful_err; cbn; try done. by rewrite app_nil_r.
  - unfold in_progress in *. rewrite Ep, Ec in *. split; cbn; try done. intros Es. by destruct (Hopen Es) as [-> _].
  - split; try rewrite successful_err; cbn; try done. by rewrite app_nil_r.
  - unfold in_progress in *. rewrite Ep, Ec in *. cbn in Hrep. subst entry'.
    split; try rewrite successful_ok; cbn; try done.
    + intros Es. destruct (Hopen Es) as [-> _]. by rewrite app_nil_r.
    + by rewrite app_nil_r.
  - unfold in_progress in *. rewrite Ec in *. split; cbn.
    + by eapply sequential_snoc.
    + intros Es. destruct (Hopen Es) as [-> Hm]. rewrite app_nil_r. split; [done|]. by destruct (prod b).
    + by destruct (prod b).
    + destruct (prod b) eqn:Ep; cbn; [by apply sublist_inserts_r; rewrite app_nil_r in *..|].
      rewrite app_nil_r in Hcalls. by apply sublist_app.
  - unfold in_progress in *. rewrite Ec in *. split; cbn; try done.
    + by destruct (prod b).
    + destruct (prod b); by rewrite app_nil_r.
  - unfold in_progress in *. rewrite Ec in *. split; cbn; try done; by destruct (prod b).
  - unfold CloseBarrier in Hc. destruct (stopCh b) eqn:Es; injection Hc as <- _; split; cbn; try done. by rewrite Es.
Qed.

Lemma barrier_inv_reachable w b : barrier_reachable w b → barrier_inv w b.
Proof.
  induction 1 as [|b b' _ IH Hst]; [|by eapply barrier_inv_step]. split; cbn; try done. constructor.
Qed.

(** C32: a call of [EnqueueWait] is as good as processing the entry in place: in every run
    of the two goroutines the entries are processed one after the other, and the calls
    that return a reply return the reply to their own entry, in the order of the calls;
    while the barrier is open, the processed entries are exactly those of the calls that
    returned and of the call whose reply is on its way. *)
Theorem enqueue_wait_is_a_call w b : barrier_reachable w b →
  sequential w (processed b) (world b) ∧ successful b `sublist_of` processed b ∧
  (stopCh b = false → processed b = successful b ++ in_progress b ∧ (prod b = Outside → processed b = successful b)).
Proof.
  intros [Hseq Hopen _ Hcalls]%barrier_inv_reachable. split_and!; [done| |].
  - etrans; [|exact Hcalls]. by apply sublist_inserts_r.
  - intros Es. destruct (Hopen Es) as [-> Hm]. split; [done|]. intros Ep. rewrite Ep in Hm. unfold in_progress.
    destruct (cons b); try done. by rewrite app_nil_r.
Qed.

End Barrier.

Arguments Outside {E}.
Arguments Dequeueing {E R}.
Arguments Stopped {E R}.

Module BarrierExample.

(** The consumer adds up the entries and replies with the sum. *)
Definition add (w e : nat) : nat * nat := (w + e, w + e)%nat.

Definition b1 : @barrier nat nat nat := mkBarrier (Sending 3%nat) Dequeueing false 4%nat [] [].
Definition b2 : @barrier nat nat nat := mkBarrier (AwaitingReply 3%nat) (Processing 3%nat) false 4%nat [] [].
Definition b3 : @barrier nat nat nat := mkBarrier (AwaitingReply 3%nat) (Replying 3%nat 7%nat) false 7%nat [] [(3%nat, 7%nat)].
Definition b4 : @barrier nat nat nat := mkBarrier Outside Dequeueing false 7%nat [(3%nat, Ok 7%nat)] [(3%nat, 7%nat)].

Lemma run4 : barrier_reachable add 4%nat b4.
Proof.
  apply (barrier_next _ _ b3); [|by apply (reply_passes add b3 3%nat 3%nat)].
  apply (barrier_next _ _ b2); [|by apply (consumer_processes add b2 3%nat)].
  apply (barrier_next _ _ b1); [|by apply (entry_passes add b1)].
  apply (barrier_next _ _ (NewOneQueueBarrier 4%nat)); [apply barrier_start|by apply (enqueue_call add (NewOneQueueBarrier 4%nat))].
Qed.

Lemma enqueue_wait_is_a_call_witness :
  sequential add 4%nat (processed b4) (world b4) ∧ successful b4 `sublist_of` processed b4 ∧
  (stopCh b4 = false → processed b4 = successful b4 ++ in_progress b4 ∧ (prod b4 = Outside → processed b4 = successful b4)).
Proof. exact (enqueue_wait_is_a_call add 4%nat b4 run4). Defined.

End BarrierExample.
