(* ===== verification/Replicator.v ===== *)
(** * The block replicator

    [internal/replication/blockreplicator.go]: blocks are numbered and proposed to Raft by
    the leader, committed entries of the Raft log are delivered to the block processor, and
    a node that lags behind pulls blocks from the others.  The Raft library, its storage,
    the transport and the block processor are an interface. *)

From S2P Require Import Prelude Types ReConfig BlockEncoding BlockStore Queue Pipeline.
Open Scope Z_scope.

(** ** Messages of the Raft library *)

Inductive EntryType := EntryNormal | EntryConfChange | EntryConfChangeV2.

Record Entry := mkEntry { Entry_Term : Z; Entry_Index : Z; Entry_Type : EntryType; Entry_Data : bytes }.

Inductive ConfChangeType := ConfChangeAddNode | ConfChangeRemoveNode | ConfChangeUpdateNode | ConfChangeAddLearnerNode.

Record ConfChange := mkConfChange { CC_Type : ConfChangeType; CC_NodeID : Z }.

(** The context is nil when it is absent. *)
Record ConfChangeV2 := mkConfChangeV2 { Changes : list ConfChange; Context : option bytes }.

Record ConfState := mkConfState { Voters : list Z }.

Record Snapshot := mkSnapshot { Snap_Data : bytes; Snap_ConfState : ConfState; Snap_Index : Z; Snap_Term : Z }.

Definition IsEmptySnap (s : Snapshot) : bool := Snap_Index s =? 0.

Record SoftState := mkSoftState { Lead : Z }.

(** ** The surroundings of the replicator *)

Class RaftEnv (E : Type) := {
  (** The block processor behind the barrier: the block as it is left, with a new cluster
      configuration if the block brings a valid one. *)
  EnqueueWait : Block → prog E (Block * option ClusterConfig);
  ReleaseTxs : list string → goerr → prog E unit;
  ValidateConfigTx : E → ConfigTxEnvelope → res ValidationInfo;
  (** The Raft node; a proposal has a context that may be cancelled. *)
  Message : Type;
  From : Message → Z;
  RaftPropose : bool → bytes → prog E unit;
  RaftProposeConfChange : bool → ConfChangeV2 → prog E unit;
  ApplyConfChange : ConfChange → prog E ConfState;
  ApplyConfChangeV2 : ConfChangeV2 → prog E ConfState;
  RaftStep : Message → prog E unit;
  RaftAdvance : prog E unit;
  RestartNode : prog E unit;
  (** Its storage. *)
  LastIndex : E → Z;
  LastSnapshot : E → Snapshot;
  StoreRaft : list Entry → Snapshot → prog E unit;
  TakeSnapshot : Z → ConfState → bytes → prog E unit;
  (** The transport. *)
  SendConsensus : list Message → prog E unit;
  PullBlocks : Z → Z → Z → prog E (list Block);
  UpdatePeers : list PeerConfig → list PeerConfig → list PeerConfig → ClusterConfig → prog E unit;
  ActivePeers : E → gmap string PeerConfig;
  (** The ledger. *)
  LedgerHeight : E → res Z;
  LedgerGet : E → Z → res Block;
}.

(** ** The state *)

Record replicator := mkReplicator {
  raftID : Z;
  joinBlock : option Block;
  joinExistingCluster : bool;
  finishedJoin : bool;
  runCampaign : bool;
  clusterConfig : ClusterConfig;
  lastKnownLeader : Z;
  lastKnownLeaderHost : string;
  justElectedInFlightBlocks : bool;
  proposeCancelled : bool;
  lastProposedBlockNumber : Z;
  lastProposedBlockHeaderBaseHash : bytes;
  lastCommittedBlock : option Block;
  numInFlightBlocks : Z;
  inFlightConfigBlockNumber : Z;
  appliedIndex : Z;
  sizeLimit : Z;
  accDataSize : Z;
  lastSnapBlockNum : Z;
  confState : ConfState;
}.

Definition set_cluster (r : replicator) x : replicator :=
  mkReplicator (raftID r) (joinBlock r) (joinExistingCluster r) (finishedJoin r) (runCampaign r) x (lastKnownLeader r)
    (lastKnownLeaderHost r) (justElectedInFlightBlocks r) (proposeCancelled r) (lastProposedBlockNumber r)
    (lastProposedBlockHeaderBaseHash r) (lastCommittedBlock r) (numInFlightBlocks r) (inFlightConfigBlockNumber r)
    (appliedIndex r) (sizeLimit r) (accDataSize r) (lastSnapBlockNum r) (confState r).
Definition set_leader (r : replicator) leader host : replicator :=
  mkReplicator (raftID r) (joinBlock r) (joinExistingCluster r) (finishedJoin r) (runCampaign r) (clusterConfig r) leader
    host (justElectedInFlightBlocks r) (proposeCancelled r) (lastProposedBlockNumber r)
    (lastProposedBlockHeaderBaseHash r) (lastCommittedBlock r) (numInFlightBlocks r) (inFlightConfigBlockNumber r)
    (appliedIndex r) (sizeLimit r) (accDataSize r) (lastSnapBlockNum r) (confState r).
Definition set_just_elected (r : replicator) x : replicator :=
  mkReplicator (raftID r) (joinBlock r) (joinExistingCluster r) (finishedJoin r) (runCampaign r) (clusterConfig r) (lastKnownLeader r)
    (lastKnownLeaderHost r) x (proposeCancelled r) (lastProposedBlockNumber r)
    (lastProposedBlockHeaderBaseHash r) (lastCommittedBlock r) (numInFlightBlocks r) (inFlightConfigBlockNumber r)
    (appliedIndex r) (sizeLimit r) (accDataSize r) (lastSnapBlockNum r) (confState r).
Definition set_cancelled (r : replicator) x : replicator :=
  mkReplicator (raftID r) (joinBlock r) (joinExistingCluster r) (finishedJoin r) (runCampaign r) (clusterConfig r) (lastKnownLeader r)
    (lastKnownLeaderHost r) (justElectedInFlightBlocks r) x (lastProposedBlockNumber r)
    (lastProposedBlockHeaderBaseHash r) (lastCommittedBlock r) (numInFlightBlocks r) (inFlightConfigBlockNumber r)
    (appliedIndex r) (sizeLimit r) (accDataSize r) (lastSnapBlockNum r) (confState r).
Definition set_proposed (r : replicator) num hash : replicator :=
  mkReplicator (raftID r) (joinBlock r) (joinExistingCluster r) (finishedJoin r) (runCampaign r) (clusterConfig r) (lastKnownLeader r)
    (lastKnownLeaderHost r) (justElectedInFlightBlocks r) (proposeCancelled r) num
    hash (lastCommittedBlock r) (numInFlightBlocks r) (inFlightConfigBlockNumber r)
    (appliedIndex r) (sizeLimit r) (accDataSize r) (lastSnapBlockNum r) (confState r).
Definition set_committed (r : replicator) x : replicator :=
  mkReplicator (raftID r) (joinBlock r) (joinExistingCluster r) (finishedJoin r) (runCampaign r) (clusterConfig r) (lastKnownLeader r)
    (lastKnownLeaderHost r) (justElectedInFlightBlocks r) (proposeCancelled r) (lastProposedBlockNumber r)
    (lastProposedBlockHeaderBaseHash r) x (numInFlightBlocks r) (inFlightConfigBlockNumber r)
    (appliedIndex r) (sizeLimit r) (accDataSize r) (lastSnapBlockNum r) (confState r).
Definition set_in_flight (r : replicator) num config : replicator :=
  mkReplicator (raftID r) (joinBlock r) (joinExistingCluster r) (finishedJoin r) (runCampaign r) (clusterConfig r) (lastKnownLeader r)
    (lastKnownLeaderHost r) (justElectedInFlightBlocks r) (proposeCancelled r) (lastProposedBlockNumber r)
    (lastProposedBlockHeaderBaseHash r) (lastCommittedBlock r) num config
    (appliedIndex r) (sizeLimit r) (accDataSize r) (lastSnapBlockNum r) (confState r).
Definition set_applied (r : replicator) x : replicator :=
  mkReplicator (raftID r) (joinBlock r) (joinExistingCluster r) (finishedJoin r) (runCampaign r) (clusterConfig r) (lastKnownLeader r)
    (lastKnownLeaderHost r) (justElectedInFlightBlocks r) (proposeCancelled r) (lastProposedBlockNumber r)
    (lastProposedBlockHeaderBaseHash r) (lastCommittedBlock r) (numInFlightBlocks r) (inFlightConfigBlockNumber r)
    x (sizeLimit r) (accDataSize r) (lastSnapBlockNum r) (confState r).
Definition set_snapshot (r : replicator) acc num : replicator :=
  mkReplicator (raftID r) (joinBlock r) (joinExistingCluster r) (finishedJoin r) (runCampaign r) (clusterConfig r) (lastKnownLeader r)
    (lastKnownLeaderHost r) (justElectedInFlightBlocks r) (proposeCancelled r) (lastProposedBlockNumber r)
    (lastProposedBlockHeaderBaseHash r) (lastCommittedBlock r) (numInFlightBlocks r) (inFlightConfigBlockNumber r)
    (appliedIndex r) (sizeLimit r) acc num (confState r).
Definition set_conf_state (r : replicator) x : replicator :=
  mkReplicator (raftID r) (joinBlock r) (joinExistingCluster r) (finishedJoin r) (runCampaign r) (clusterConfig r) (lastKnownLeader r)
    (lastKnownLeaderHost r) (justElectedInFlightBlocks r) (proposeCancelled r) (lastProposedBlockNumber r)
    (lastProposedBlockHeaderBaseHash r) (lastCommittedBlock r) (numInFlightBlocks r) (inFlightConfigBlockNumber r)
    (appliedIndex r) (sizeLimit r) (accDataSize r) (lastSnapBlockNum r) x.
Definition set_joined (r : replicator) x : replicator :=
  mkReplicator (raftID r) (joinBlock r) (joinExistingCluster r) x (runCampaign r) (clusterConfig r) (lastKnownLeader r)
    (lastKnownLeaderHost r) (justElectedInFlightBlocks r) (proposeCancelled r) (lastProposedBlockNumber r)
    (lastProposedBlockHeaderBaseHash r) (lastCommittedBlock r) (numInFlightBlocks r) (inFlightConfigBlockNumber r)
    (appliedIndex r) (sizeLimit r) (accDataSize r) (lastSnapBlockNum r) (confState r).

(** [block.GetHeader().GetBaseHeader().GetNumber()] of a block that may be nil *)
Definition number_of (b : option Block) : Z := match b with Some b => block_number b | None => 0 end.

Definition IsConfigBlock (b : Block) : bool :=
  match Payload b with Some (Block_ConfigTxEnvelope _) => true | _ => false end.

(** ** Leadership *)

Definition isLeader (r : replicator) : option goerr :=
  if lastKnownLeader r =? raftID r then None
  else Some (NotLeaderErr (lastKnownLeader r) (lastKnownLeaderHost r)).

Definition isLeaderReady (r : replicator) : option goerr :=
  if lastKnownLeader r =? raftID r then
    if justElectedInFlightBlocks r then Some (NotLeaderErr 0 "") else None
  else Some (NotLeaderErr (lastKnownLeader r) (lastKnownLeaderHost r)).

Definition IsLeader (r : replicator) : option goerr := isLeaderReady r.

Definition GetLeaderID (r : replicator) : Z := lastKnownLeader r.

Definition getLastCommittedBlockNumber (r : replicator) : Z := number_of (lastCommittedBlock r).

(** The members and nodes of a configuration; a nil entry panics. *)
Fixpoint find_member (raftID : Z) (members : list (option PeerConfig)) : res (option string) :=
  match members with
  | [] => Ok None
  | p :: members => p ← deref p; if RaftId p =? raftID then Ok (Some (NodeId p)) else find_member raftID members
  end.

Fixpoint find_node (nodeID : string) (nodes : list (option NodeConfig)) : res string :=
  match nodes with
  | [] => Ok ""
  | n :: nodes =>
    n ← deref n;
    if bool_decide (Node_Id n = nodeID) then Ok (Node_Address n +:+ ":" +:+ pretty (Node_Port n)) else find_node nodeID nodes
  end.

Definition nodeHostPortFromRaftID (r : replicator) (raftID : Z) : res string :=
  if raftID =? 0 then Ok "" else
  consensus ← deref (Consensus (clusterConfig r));
  nodeID ← find_member raftID (Members consensus);
  match nodeID with
  | None | Some EmptyString => Ok ""
  | Some nodeID => find_node nodeID (Nodes (clusterConfig r))
  end.

Definition isOnBoarding (r : replicator) : bool := joinExistingCluster r && negb (finishedJoin r).

Definition isIDRemoved (r : replicator) (id : Z) : bool :=
  match Consensus (clusterConfig r) with
  | None => true
  | Some c => negb (existsb (fun m => match m with Some m => RaftId m =? id | None => false end) (Members c))
  end.

Definition IsIDRemoved (r : replicator) (id : Z) : bool := isIDRemoved r id.

(** [MaxInflightBlocks] of the present configuration *)
Definition maxInFlight (r : replicator) : res Z :=
  c ← deref (Consensus (clusterConfig r)); rc ← deref (CC_RaftConfig c); Ok (MaxInflightBlocks rc).

Section Replicator.
Context {E : Type} `{!RaftEnv E, !Codec Block, !Codec BlockHeader, !Codec BlockHeaderBase, !Codec ConfChange, !Codec ConfChangeV2}
  {mr : MapRange}.

(** Calls on the replicator and its surroundings. *)
#[local] Notation rep := (prog (replicator * E)).
Definition env {A} (m : prog E A) : rep A := fun s => let '(e, x) := m s.2 in ((s.1, e), x).
Definition upd (f : replicator → replicator) : rep unit := modify (fun s => (f s.1, s.2)).
Definition look {A} (f : replicator → A) : rep A := gets (fun s => f s.1).
Definition panic {A} (msg : string) : rep A := lift (Panic msg).

(** The hashes of a block that may be nil. *)
Definition baseHash (b : option Block) : res bytes :=
  match b with
  | Some b => ComputeBlockBaseHash (Header b)
  | None => Err (PlainErr "proto: Marshal called with nil")
  end.
Definition fullHash (b : option Block) : res bytes :=
  match b with
  | Some b => ComputeBlockHash (Header b)
  | None => Err (PlainErr "proto: Marshal called with nil")
  end.

Definition or_panic {A} (msg : string) (m : res A) : res A :=
  match m with Err _ => Panic msg | _ => m end.

Definition panic_on_err {A} (msg : string) (m : rep A) : rep A := fun s => let '(s, x) := m s in (s, or_panic msg x).

Definition resetLastProposed : rep unit :=
  last ← look lastCommittedBlock;
  hash ← lift (or_panic "Error computing base header hash of last commited block" (baseHash last));
  upd (fun r => set_proposed r (number_of last) hash).

Definition processLeaderJustElected : rep unit :=
  just ← look justElectedInFlightBlocks;
  if just : bool then
    lastIndex ← gets (fun s => LastIndex s.2);
    applied ← look appliedIndex;
    if lastIndex >? applied then mret tt
    else upd (fun r => set_just_elected r false);; resetLastProposed
  else mret tt.

Definition processLeaderChanges (leader : Z) : rep unit :=
  r ← look (fun r => r);
  if negb (leader =? lastKnownLeader r) then
    let lostLeadership := lastKnownLeader r =? raftID r in
    let assumedLeadership := leader =? raftID r in
    (if lostLeadership then upd (fun r => set_cancelled r true)
     else if assumedLeadership then
       lastIndex ← gets (fun s => LastIndex s.2);
       if lastIndex >? appliedIndex r then upd (fun r => set_just_elected r true) else mret tt
     else mret tt);;
    (if lostLeadership || assumedLeadership then resetLastProposed;; upd (fun r => set_in_flight r 0 0) else mret tt);;
    host ← lift (nodeHostPortFromRaftID r leader);
    upd (fun r => set_leader r leader host)
  else mret tt.

Definition GetClusterStatus : rep (Z * gmap string PeerConfig) :=
  r ← look (fun r => r);
  activePeers ← gets (fun s => ActivePeers s.2);
  mret (if (lastKnownLeader r =? raftID r) && justElectedInFlightBlocks r then 0 else lastKnownLeader r, activePeers).

(** ** Commit *)

Definition setLastCommittedBlock (block : Block) : rep unit :=
  r ← look (fun r => r);
  upd (fun r => set_committed r (Some block));;
  (if numInFlightBlocks r >? 0 then
     upd (fun r => set_in_flight r (numInFlightBlocks r - 1) (inFlightConfigBlockNumber r))
   else mret tt);;
  if (inFlightConfigBlockNumber r >? 0) && IsConfigBlock block then
    if inFlightConfigBlockNumber r =? block_number block then
      upd (fun r => set_in_flight r (numInFlightBlocks r) 0)
    else panic "A config block committed, but it is not the one expected to be in-flight!"
  else mret tt.

Definition updateClusterConfig (config : ClusterConfig) : rep unit :=
  r ← look (fun r => r);
  current ← lift (deref (Consensus (clusterConfig r)));
  updated ← lift (deref (Consensus config));
  '(addedPeers, removedPeers, changedPeers) ←
    lift (wrap_err "failed to detect peer config changes" (detectPeerConfigChanges current updated));
  wrap_prog "failed to update peers on transport" (env (UpdatePeers addedPeers removedPeers changedPeers config));;
  upd (fun r => set_cluster r config).

Definition commitBlock (block : Block) (updateConfig : bool) : rep unit :=
  '(block, reConfig) ← (env (EnqueueWait block) : rep _);
  setLastCommittedBlock block;;
  match reConfig with
  | None => mret tt
  | Some config =>
    if updateConfig then
      panic_on_err "Failed to update to ClusterConfig during commitBlock" (updateClusterConfig config)
    else mret tt
  end.

(** ** Delivery of committed entries *)

(** The block of an entry, with the place of the entry in the log. *)
Definition withMetadata (block : Block) (e : Entry) : Block :=
  mkBlock (Header block) (Payload block) (Some (mkConsensusMetadata (Entry_Term e) (Entry_Index e))).

(** [commitBlock] in the loop over the entries: [false] stops the replicator. *)
Definition commitEntry (block : Block) (e : Entry) : rep bool := fun s =>
  match commitBlock (withMetadata block e) true s with
  | (s, Ok _) => (s, Ok true)
  | (s, Err _) => (s, Ok false)
  | (s, Panic w) => (s, Panic w)
  end.

(** What the loop does after an entry: go on, go on without updating the applied index, or
    return false. *)
Inductive after := Advance | Skip | Return.

Definition deliverNormal (e : Entry) : rep after :=
  if bool_decide (length (Entry_Data e) = 0%nat) then mret Advance else
  upd (fun r => set_snapshot r (u64 (accDataSize r + Z.of_nat (length (Entry_Data e)))) (lastSnapBlockNum r));;
  applied ← look appliedIndex;
  if Entry_Index e <=? applied then mret Advance else
  block ← lift (or_panic "Error unmarshaling entry" (Unmarshal (Entry_Data e)));
  ok ← commitEntry block e;
  mret (if ok : bool then Advance else Return).

Definition deliverConfChange (e : Entry) : rep after :=
  match (Unmarshal (Entry_Data e) : res ConfChange) with
  | Err _ => mret Skip
  | Panic w => panic w
  | Ok cc =>
    state ← env (ApplyConfChange cc);
    upd (fun r => set_conf_state r state);;
    match CC_Type cc with
    | ConfChangeAddNode | ConfChangeRemoveNode => mret Advance
    | _ => panic "Programming error, encountered unsupported raft config change"
    end
  end.

Definition deliverConfChangeV2 (e : Entry) : rep after :=
  match (Unmarshal (Entry_Data e) : res ConfChangeV2) with
  | Err _ => mret Skip
  | Panic w => panic w
  | Ok cc =>
    applied ← look appliedIndex;
    ok ← match Context cc with
         | Some context =>
           if Entry_Index e <=? applied then mret true else
           block ← lift (or_panic "Error unmarshaling entry" (Unmarshal context));
           commitEntry block e
         | None => mret true
         end;
    if negb ok then mret Return else
    state ← env (ApplyConfChangeV2 cc);
    upd (fun r => set_conf_state r state);;
    r ← look (fun r => r);
    mret (if bool_decide (raftID r ∈ Voters (confState r)) then Advance else Return)
  end.

(** The position of the last entry with a block, for the snapshot. *)
Definition newPosition (i : nat) (e : Entry) (position : nat) : nat :=
  match Entry_Type e with
  | EntryNormal => if bool_decide (length (Entry_Data e) = 0%nat) then position else i
  | _ => position
  end.

Fixpoint deliverLoop (i : nat) (entries : list Entry) (position : nat) : rep (option nat) :=
  match entries with
  | [] => mret (Some position)
  | e :: entries =>
    a ← match Entry_Type e with
        | EntryNormal => deliverNormal e
        | EntryConfChange => deliverConfChange e
        | EntryConfChangeV2 => deliverConfChangeV2 e
        end;
    let position := newPosition i e position in
    match a with
    | Return => mret None
    | Skip => deliverLoop (S i) entries position
    | Advance =>
      upd (fun r => if appliedIndex r <? Entry_Index e then set_applied r (Entry_Index e) else r);;
      deliverLoop (S i) entries position
    end
  end.

(** The block in the entry at the position, if there is one; the data of an empty entry is nil. *)
Definition snapshotData (e : Entry) : res (option (bytes * Block)) :=
  match Entry_Type e with
  | EntryNormal =>
    block ← or_panic "Error unmarshaling Normal entry" (Unmarshal (Entry_Data e));
    Ok (if bool_decide (length (Entry_Data e) = 0%nat) then None else Some (Entry_Data e, block))
  | EntryConfChangeV2 =>
    cc ← or_panic "Error unmarshaling ConfChangeV2 entry" (Unmarshal (Entry_Data e));
    match Context cc with
    | None => Ok None
    | Some context =>
      block ← or_panic "Error unmarshaling entry" (Unmarshal context);
      Ok (Some (context, block))
    end
  | EntryConfChange => Ok None
  end.

Definition takeSnapshotIfNeeded (entries : list Entry) (position : nat) : rep unit :=
  r ← look (fun r => r);
  if accDataSize r >=? sizeLimit r then
    e ← lift (match entries !! position with Some e => Ok e | None => Panic "index out of range" end);
    data ← lift (snapshotData e);
    match data with
    | None => mret tt
    | Some (snapData, snapBlock) =>
      panic_on_err "Failed to create snapshot" (env (TakeSnapshot (appliedIndex r) (confState r) snapData));;
      upd (fun r => set_snapshot r 0 (block_number snapBlock))
    end
  else mret tt.

Definition deliverEntries (committedEntries : list Entry) : rep bool :=
  match committedEntries with
  | [] => mret true
  | e :: _ =>
    applied ← look appliedIndex;
    if Entry_Index e >? u64 (applied + 1) then panic "First index of committed entry should <= appliedIndex+1" else
    position ← deliverLoop 0 committedEntries 0;
    match position with
    | None => mret false
    | Some position => takeSnapshotIfNeeded committedEntries position;; mret true
    end
  end.

(** ** Catching up *)

Fixpoint commitPulled (blocks : list Block) (updateConfig : bool) (nextBlockNumber : Z) : rep Z :=
  match blocks with
  | [] => mret nextBlockNumber
  | block :: blocks => commitBlock block updateConfig;; commitPulled blocks updateConfig (u64 (nextBlockNumber + 1))
  end.

Definition pull (nextBlockNumber targetBlockNumber leader : Z) : prog E (list Block) := fun e =>
  match PullBlocks nextBlockNumber targetBlockNumber leader e with
  | (e, Err (ClosedErr m)) => (e, Err (ClosedErr m))
  | (e, r) => (e, wrap_err "failed to pull blocks from cluster" r)
  end.

(** The loop over pulls, with fuel; [None] when the fuel is used up. *)
Fixpoint pullLoop (fuel : nat) (nextBlockNumber targetBlockNumber : Z) (updateConfig : bool) : rep (option unit) :=
  if nextBlockNumber <=? targetBlockNumber then
    match fuel with
    | O => mret None
    | S fuel =>
      leader ← look GetLeaderID;
      blocks ← env (pull nextBlockNumber targetBlockNumber leader);
      nextBlockNumber ← commitPulled blocks updateConfig nextBlockNumber;
      pullLoop fuel nextBlockNumber targetBlockNumber updateConfig
    end
  else mret (Some tt).

Definition catchUpToBlock (fuel : nat) (initBlockNumber targetBlockNumber : Z) (updateConfig : bool) : rep (option unit) :=
  pullLoop fuel (u64 (initBlockNumber + 1)) targetBlockNumber updateConfig.

(** A closed server is not an error. *)
Definition unless_closed (m : rep (option unit)) : rep (option unit) := fun s =>
  match m s with
  | (s, Err (ClosedErr _)) => (s, Ok (Some tt))
  | x => x
  end.

Definition catchUp (fuel : nat) (snap : Snapshot) : rep (option unit) :=
  applied ← look appliedIndex;
  if Snap_Index snap <=? applied then mret (Some tt) else
  snapBlock ← lift (match Unmarshal (Snap_Data snap) with
                    | Err e => Err (PlainErr ("failed to unmarshal snapshot data to block: " +:+ Error e))
                    | x => x
                    end);
  initBlockNumber ← look getLastCommittedBlockNumber;
  if initBlockNumber >=? block_number snapBlock then mret (Some tt) else
  upd (fun r => set_applied (set_conf_state r (Snap_ConfState snap)) (Snap_Index snap));;
  unless_closed (catchUpToBlock fuel initBlockNumber (block_number snapBlock) true).

(** [lastBlock.GetConsensusMetadata().GetRaftIndex()] *)
Definition raftIndexOf (b : option Block) : Z :=
  match b ≫= Block_ConsensusMetadata with Some m => RaftIndex m | None => 0 end.
Definition raftTermOf (b : option Block) : Z :=
  match b ≫= Block_ConsensusMetadata with Some m => RaftTerm m | None => 0 end.

Definition onBoard (fuel : nat) (joinBlock : Block) : rep (option unit) :=
  initBlockNumber ← look getLastCommittedBlockNumber;
  if initBlockNumber >=? block_number joinBlock then mret (Some tt) else
  ok ← catchUpToBlock fuel initBlockNumber (block_number joinBlock) false;
  match ok with
  | None => mret None
  | Some _ =>
    upd (fun r => if number_of (lastCommittedBlock r) >? 1 then set_applied r (raftIndexOf (lastCommittedBlock r)) else r);;
    mret (Some tt)
  end.

(** ** Proposals *)

Definition releasePendingTXs (blockToPropose : Block) (reasonErr : goerr) : rep unit :=
  match BlockPayloadToTxIDs (Payload blockToPropose) with
  | Ok txIDs => env (ReleaseTxs txIDs reasonErr)
  | Err _ => mret tt
  | Panic w => panic w
  end.

(** The block with its number and the hashes of the blocks before it. *)
Definition insertBlockBaseHeader (proposedBlock : Block) : rep Block :=
  r ← look (fun r => r);
  let blockNum := u64 (lastProposedBlockNumber r + 1) in
  baseHeader ←
    (if blockNum >? 1 then
       hash ← lift (or_panic "Error while creating block header for proposed block" (fullHash (lastCommittedBlock r)));
       mret (mkBlockHeaderBase blockNum (lastProposedBlockHeaderBaseHash r) hash (number_of (lastCommittedBlock r)))
     else mret (mkBlockHeaderBase blockNum (lastProposedBlockHeaderBaseHash r) [] 0));
  mret (mkBlock (mkBlockHeader baseHeader [] [] [] []) (Payload proposedBlock) (Block_ConsensusMetadata proposedBlock)).

(** The numbered block and its bytes; [None] when this node is not a leader that is ready. *)
Definition prepareProposal (blockToPropose : Block) : rep (option (Block * bytes)) :=
  r ← look (fun r => r);
  match isLeaderReady r with
  | Some errLeader => releasePendingTXs blockToPropose errLeader;; mret None
  | None =>
    block ← insertBlockBaseHeader blockToPropose;
    blockBytes ← lift (or_panic "Error marshaling a block" (Marshal block));
    upd (fun r => set_cancelled r false);;
    mret (Some (block, blockBytes))
  end.

(** The proposal itself: an error releases the transactions of the block. *)
Definition submitProposal (block : Block) (propose : bool → prog E unit) : rep (option Block) := fun s =>
  match env (propose (proposeCancelled s.1)) s with
  | (s, Ok _) => (s, Ok (Some block))
  | (s, Err e) => (releasePendingTXs block e;; mret None) s
  | (s, Panic w) => (s, Panic w)
  end.

Definition proposeRegular (blockToPropose : Block) : rep (option Block) :=
  p ← prepareProposal blockToPropose;
  match p with
  | None => mret None
  | Some (block, blockBytes) => submitProposal block (fun cancelled => RaftPropose cancelled blockBytes)
  end.

Definition membershipChange (addedPeers removedPeers : list PeerConfig) (blockBytes : bytes) : ConfChangeV2 :=
  mkConfChangeV2
    (((fun p => mkConfChange ConfChangeAddNode (RaftId p)) <$> addedPeers) ++
     ((fun p => mkConfChange ConfChangeRemoveNode (RaftId p)) <$> removedPeers)) (Some blockBytes).

Definition proposeMembershipConfigChange (blockToPropose : Block) (addedPeers removedPeers : list PeerConfig)
    : rep (option Block) :=
  p ← prepareProposal blockToPropose;
  match p with
  | None => mret None
  | Some (block, blockBytes) =>
    submitProposal block (fun cancelled => RaftProposeConfChange cancelled (membershipChange addedPeers removedPeers blockBytes))
  end.

(** Up to the wait for blocks to commit; [mustWait] is the condition of the wait. *)
Definition updateLastProposal (lastBlockProposed : Block) : rep unit :=
  r ← look (fun r => r);
  match isLeader r with
  | Some _ => mret tt
  | None =>
    hash ← lift (or_panic "Failed to compute last block base hash" (baseHash (Some lastBlockProposed)));
    upd (fun r => set_proposed r (block_number lastBlockProposed) hash);;
    upd (fun r => set_in_flight r ((numInFlightBlocks r + 1) mod 2 ^ 32) (inFlightConfigBlockNumber r));;
    if IsConfigBlock lastBlockProposed then
      if inFlightConfigBlockNumber r >? 0 then panic "A config block was proposed, but there is still a config block in-flight!"
      else upd (fun r => set_in_flight r (numInFlightBlocks r) (block_number lastBlockProposed))
    else mret tt
  end.

Definition mustWait (r : replicator) : res bool :=
  max ← maxInFlight r; Ok ((numInFlightBlocks r >? max) || (inFlightConfigBlockNumber r >? 0)).

(** What a config block changes in the membership, against the configuration the
    replicator knows: [None] when the block was refused. *)
Definition checkConfigBlock (block : Block) : rep (option (list PeerConfig * list PeerConfig)) :=
  match Payload block with
  | Some (Block_ConfigTxEnvelope configTxEnv) => fun s =>
    match ValidateConfigTx s.2 configTxEnv with
    | Err errVal => (releasePendingTXs block errVal;; mret None) s
    | Panic w => panic w s
    | Ok valInfo =>
      if bool_decide (VI_Flag valInfo ≠ VALID) then
        (releasePendingTXs block (BadRequestErr ("Invalid config tx, reason: " +:+ ReasonIfInvalid valInfo));; mret None) s
      else
        match NewConfig (CEnv_Payload configTxEnv) with
        | None => panic "invalid memory address or nil pointer dereference" s
        | Some newClusterConfig =>
          let '(_, consensus, _, _) := ClassifyClusterReConfig (clusterConfig s.1) newClusterConfig in
          if consensus : bool then
            match (current ← deref (Consensus (clusterConfig s.1)); updated ← deref (Consensus newClusterConfig);
                   detectPeerConfigChanges current updated) with
            | Err errDetect => (releasePendingTXs block errDetect;; mret None) s
            | Panic w => panic w s
            | Ok (addedPeers, removedPeers, _) => (s, Ok (Some (addedPeers, removedPeers)))
            end
          else (s, Ok (Some ([], [])))
        end
    end
  | _ => mret (Some ([], []))
  end.

(** A round of the propose loop, up to the wait. *)
Definition proposeBlock (blockToPropose : Block) : rep unit :=
  change ← checkConfigBlock blockToPropose;
  match change with
  | None => mret tt
  | Some (addedPeers, removedPeers) =>
    proposed ← (if bool_decide (length addedPeers + length removedPeers = 0)%nat then proposeRegular blockToPropose
                else proposeMembershipConfigChange blockToPropose addedPeers removedPeers);
    match proposed with
    | None => mret tt
    | Some block => updateLastProposal block
    end
  end.

(** [Submit]: refused unless this node is a leader that is ready; otherwise the block waits
    for room in the channel of proposals, or the replicator stops. *)
Inductive Submit (r : replicator) (proposeCh : chan Block) (stopCh : bool) (block : Block) : res unit → chan Block → Prop :=
  | submit_refused err : IsLeader r = Some err → Submit r proposeCh stopCh block (Err err) proposeCh
  | submit_stopped : IsLeader r = None → stopCh = true →
    Submit r proposeCh stopCh block (Err (ClosedErr "block replicator closed")) proposeCh
  | submit_sent proposeCh' : IsLeader r = None → chan_send proposeCh block = Some (Ok proposeCh') →
    Submit r proposeCh stopCh block (Ok tt) proposeCh'.

(** ** The event loop *)

Record Ready := mkReady {
  Ready_SoftState : option SoftState;
  Ready_Entries : list Entry;
  Ready_Snapshot : Snapshot;
  CommittedEntries : list Entry;
  Messages : list Message;
}.

(** [raftNode.Ready()] has something to do: [false] leaves the loop. *)
Definition handleReady (fuel : nat) (rd : Ready) : rep (option bool) :=
  panic_on_err "Failed to persist etcd/raft data" (env (StoreRaft (Ready_Entries rd) (Ready_Snapshot rd)));;
  caught ← (if IsEmptySnap (Ready_Snapshot rd) then mret (Some tt)
            else panic_on_err "Failed to catch-up to snapshot" (catchUp fuel (Ready_Snapshot rd)));
  match caught with
  | None => mret None
  | Some _ =>
    (fun s => let '(s, _) := env (SendConsensus (Messages rd)) s in (s, Ok tt));;
    ok ← deliverEntries (CommittedEntries rd);
    if negb ok then mret (Some false) else
    processLeaderJustElected;;
    match Ready_SoftState rd with
    | None => mret tt
    | Some soft => processLeaderChanges (Lead soft)
    end;;
    env RaftAdvance;;
    mret (Some true)
  end.

(** The start of the loop: a snapshot beyond the ledger is caught up with first. *)
Definition startEventLoop (fuel : nat) : rep (option unit) :=
  snap ← gets (fun s => LastSnapshot s.2);
  if IsEmptySnap snap then mret (Some tt)
  else panic_on_err "Failed to catch-up to last snapshot" (catchUp fuel snap).

(** The end of the loop wakes up the propose loop. *)
Definition endEventLoop : rep unit := upd (fun r => set_in_flight (set_leader r 0 "") 0 0).

Definition Process (m : Message) : rep unit :=
  r ← look (fun r => r);
  if isOnBoarding r then lift (Err (PlainErr "rejected raft message, not ready, on-boarding in progress (503)"))
  else if isIDRemoved r (From m) then lift (Err (PlainErr "rejected raft message from removed peer (403)"))
  else env (RaftStep m).

(** ** Joining a cluster *)

(** A closed server stops the on-boarding; every other error is a panic. *)
Definition panic_unless_closed {A} (msg : string) (m : rep A) : rep A := fun s =>
  match m s with
  | (s, Err (ClosedErr w)) => (s, Err (ClosedErr w))
  | (s, x) => (s, or_panic msg x)
  end.

Definition startOnBoarding (fuel : nat) : rep (option unit) :=
  r ← look (fun r => r);
  join ← lift (deref (joinBlock r));
  joined ← panic_unless_closed "Failed to on-board to join-block" (onBoard fuel join);
  match joined with
  | None => mret None
  | Some _ =>
    snapData ← lift (or_panic "Failed to marshal join block" (Marshal join));
    members ← lift (match Consensus (clusterConfig r) with
                    | None => Ok []
                    | Some c => res_mapM deref (Members c)
                    end);
    let state := mkConfState (merge_sort Z.le (RaftId <$> members)) in
    upd (fun r => set_conf_state r state);;
    panic_on_err "Failed to store join block as snapshot in raft storage"
      (env (StoreRaft [] (mkSnapshot snapData state (raftIndexOf (Some join)) (raftTermOf (Some join)))));;
    env RestartNode;;
    upd (fun r => set_joined r true);;
    mret (Some tt)
  end.

(** ** A new replicator *)

(** [crc64.Checksum] with the ISO polynomial *)
Definition crc64_shift (crc : Z) : Z :=
  if Z.odd crc then Z.lxor (Z.shiftr crc 1) (Z.shiftl 27 59) else Z.shiftr crc 1.
Definition crc64_byte (crc b : Z) : Z :=
  Z.lxor (Nat.iter 8 crc64_shift (Z.land (Z.lxor crc b) 255)) (Z.shiftr crc 8).
Definition crc64_iso (data : bytes) : Z :=
  Z.lxor (foldl crc64_byte (2 ^ 64 - 1) data) (2 ^ 64 - 1).

(** The start peers, and whether this node is the one that campaigns in a new cluster. *)
Definition raftPeers (config : ClusterConfig) : res (list Z) :=
  c ← deref (Consensus config); Ok ((fun m => match m with Some m => RaftId m | None => 0 end) <$> Members c).

Definition campaigns (peers : list Z) (genesisBytes : bytes) (raftID : Z) : res bool :=
  if bool_decide (length peers = 0%nat) then Panic "integer divide by zero" else
  match peers !! Z.to_nat (crc64_iso genesisBytes mod Z.of_nat (length peers)) with
  | None => Panic "index out of range"
  | Some id => Ok (id =? raftID)
  end.

Fixpoint MemberRaftID (memberID : string) (members : list (option PeerConfig)) : res Z :=
  match members with
  | [] => Err (PlainErr ("node ID '" +:+ memberID +:+ "' is not in Consensus members"))
  | m :: members => m ← deref m; if bool_decide (NodeId m = memberID) then Ok (RaftId m) else MemberRaftID memberID members
  end.

(** The state after the snapshot, the ledger and the configuration are read; [haveWAL] tells
    a restart from a first start. *)
Definition NewBlockReplicator (nodeID : string) (config : ClusterConfig) (join : option Block) (haveWAL : bool) (e : E)
    : res replicator :=
  consensus ← deref (Consensus config);
  id ← MemberRaftID nodeID (Members consensus);
  let snap := LastSnapshot e in
  '(snapBlkNum, state) ←
    (if IsEmptySnap snap then Ok (0, mkConfState [])
     else wrap_err "failed to unmarshal snapshot block"
            (b ← Unmarshal (Snap_Data snap); Ok (block_number b, Snap_ConfState snap)));
  raftConfig ← deref (CC_RaftConfig consensus);
  height ← or_panic "Failed to read block height" (LedgerHeight e);
  '(last, num, hash) ←
    (if height >? 0 then
       b ← or_panic "Failed to read last block" (LedgerGet e height);
       hash ← or_panic "Failed to compute last block base hash" (baseHash (Some b));
       Ok (Some b, block_number b, hash)
     else Ok (None, 0, []));
  let applied := if height >? 1 then raftIndexOf last else 0 in
  let joining := match join with Some b => height <? block_number b | None => false end in
  campaign ← (if haveWAL || joining then Ok false else
              peers ← raftPeers config;
              genesisBytes ← match last with
                             | Some b => or_panic "Failed to read genesis block" (Marshal b)
                             | None => Panic "Failed to read genesis block"
                             end;
              campaigns peers genesisBytes id);
  Ok (mkReplicator id join joining false campaign config 0 "" false false num hash last 0 0 applied
        (SnapshotIntervalSize raftConfig) 0 snapBlkNum state).

End Replicator.
