(* ===== verification/HttpUtils.v ===== *)
(** * Parameters of HTTP requests

    [internal/utils/http.go]: the numbers that requests carry as text. *)

From S2P Require Import Prelude Types JSON JSONPrint.
Open Scope Z_scope.

(** The variables of a request, as the router leaves them. *)
Notation Vars := (gmap string string).

Definition StatusOK : Z := 200.
Definition StatusAccepted : Z := 202.
Definition StatusTemporaryRedirect : Z := 307.
Definition StatusBadRequest : Z := 400.
Definition StatusUnauthorized : Z := 401.
Definition StatusForbidden : Z := 403.
Definition StatusNotFound : Z := 404.
Definition StatusRequestTimeout : Z := 408.
Definition StatusInternalServerError : Z := 500.
Definition StatusServiceUnavailable : Z := 503.

(** The message ends with the one of [strconv.ParseUint], which is left out. *)
Definition GetUintParam (key : string) (params : Vars) : res Z :=
  match params !! key with
  | None => Err (PlainErr ("query error - bad or missing literal: " +:+ key))
  | Some valStr =>
    match ParseUint64 valStr with
    | Some val => Ok val
    | None => Err (PlainErr ("query error - bad or missing literal: " +:+ key +:+ " "))
    end
  end.

Definition GetStartAndEndBlockNum (params : Vars) : res (Z * Z) :=
  startBlockNum ← GetUintParam "startId" params;
  endBlockNum ← GetUintParam "endId" params;
  if endBlockNum <? startBlockNum then
    Err (PlainErr ("query error: startId=" +:+ pretty startBlockNum +:+ " > endId=" +:+ pretty endBlockNum))
  else Ok (startBlockNum, endBlockNum).

Definition GetBlockNumAndTxIndex (params : Vars) : res (Z * Z) :=
  blockNum ← GetUintParam "blockId" params;
  txIndex ← GetUintParam "idx" params;
  Ok (blockNum, txIndex).

Definition GetBlockNum (params : Vars) : res Z := GetUintParam "blockId" params.

Definition GetVersion (params : Vars) : res (option Version) :=
  match params !! "blknum" with
  | None => Ok None
  | Some _ =>
    blockNum ← GetUintParam "blknum" params;
    txNum ← GetUintParam "txnum" params;
    Ok (Some (mkVersion blockNum txNum))
  end.

Lemma GetUintParam_pretty key params n : 0 ≤ n < 2 ^ 64 → params !! key = Some (pretty n) → GetUintParam key params = Ok n.
Proof. intros Hn Hp. unfold GetUintParam. by rewrite Hp, ParseUint64_pretty. Qed.
