(* ===== verification/Catchup.v ===== *)
(** * Pulling blocks from other nodes

    [internal/comm/catchup_handler.go] and [internal/comm/catchup_client.go]: a node serves
    segments of its ledger, and a node that lags behind pulls them.  The network, that is
    the HTTP library, is an interface. *)

From S2P Require Import Prelude Types JSON JSONPrint BlockStore HttpUtils.
Open Scope Z_scope.

(** ** The handler *)

(** The answer to a request for blocks: an error, or the blocks as the parts of a multipart
    message. *)
Inductive blocks_reply :=
  | Refused (code : Z) (msg : string)
  | MultiPart (parts : list bytes).

Definition maxResponseBytesDefault : Z := 100 * 1024 * 1024.

Section Handler.
Context `{!Codec Block}.

(** [LedgerReader] *)
Record LedgerReader := mkLedgerReader {
  Reader_Height : res Z;
  Reader_Get : Z → res Block;
}.

Definition internal {A} (m : res A) (f : A → blocks_reply) : res blocks_reply :=
  match m with
  | Ok x => Ok (f x)
  | Err e => Ok (Refused StatusInternalServerError (Error e))
  | Panic w => Panic w
  end.

(** The loop over the blocks: [blocks] and [blocksSize] are its variables.  It ends with the
    height of the ledger; the fuel is the number of rounds. *)
Fixpoint blocksLoop (fuel : nat) (maxResponseBytes : Z) (ledger : LedgerReader) (height startBlockNum endBlockNum i : Z)
    (blocks : list bytes) (blocksSize : Z) : res (list bytes) :=
  match fuel with
  | O => Ok blocks
  | S fuel =>
    if i <=? endBlockNum then
      if i >? height then Ok blocks else
      block ← Reader_Get ledger i;
      blockBytes ← Marshal block;
      let blocksSize := blocksSize + Z.of_nat (length blockBytes) in
      if blocksSize >? maxResponseBytes then Ok (if i =? startBlockNum then blocks ++ [blockBytes] else blocks)
      else blocksLoop fuel maxResponseBytes ledger height startBlockNum endBlockNum (u64 (i + 1)) (blocks ++ [blockBytes]) blocksSize
    else Ok blocks
  end.

Definition blocksRequest (maxResponseBytes : Z) (ledger : LedgerReader) (params : Vars) : res blocks_reply :=
  match GetStartAndEndBlockNum params with
  | Err e => Ok (Refused StatusBadRequest (Error e))
  | Panic w => Panic w
  | Ok (startBlockNum, endBlockNum) =>
    match Reader_Height ledger with
    | Err e => Ok (Refused StatusInternalServerError (Error e))
    | Panic w => Panic w
    | Ok height =>
      if startBlockNum <? 1 then
        Ok (Refused StatusBadRequest ("requested startId [" +:+ pretty startBlockNum +:+ "] must be greater than 0"))
      else if startBlockNum >? height then
        Ok (Refused StatusBadRequest ("requested startId [" +:+ pretty startBlockNum +:+ "] is out of range, height is [" +:+
                                      pretty height +:+ "]"))
      else
        internal (blocksLoop (Z.to_nat (height - startBlockNum + 2)) maxResponseBytes ledger height startBlockNum endBlockNum
                    startBlockNum [] 0) MultiPart
    end
  end.

(** [heightRequest]: a status and the height. *)
Definition heightRequest (ledger : LedgerReader) : res (Z * (string + Z)) :=
  match Reader_Height ledger with
  | Ok height => Ok (StatusOK, inr height)
  | Err e => Ok (StatusInternalServerError, inl (Error e))
  | Panic w => Panic w
  end.

End Handler.

(** ** The client *)

(** The network as the client uses it: requests to the URL of a member, the context of the
    call, the order in which the members are tried, and the pause between rounds. *)
Class PeerNetwork (E : Type) := {
  DoBlocks : string → Vars → prog E blocks_reply;
  Cancelled : E → bool;
  Shuffle : E → list Z → list Z;
  Pause : Z → E → E;
}.

Definition RetryIntervalMin : Z := 10.
Definition RetryIntervalMax : Z := 10000.

Record catchUpClient := mkCatchUpClient { client_tls : bool; members : gmap Z string }.

Fixpoint memberURLs (scheme : string) (memberList : list PeerConfig) (acc : gmap Z string) : res (gmap Z string) :=
  match memberList with
  | [] => Ok acc
  | m :: memberList =>
    if RaftId m =? 0 then Err (PlainErr "raft ID cannot be 0, PeerConfig: ")
    else memberURLs scheme memberList
           (<[RaftId m := scheme +:+ "://" +:+ PeerHost m +:+ ":" +:+ pretty (PeerPort m)]> acc)
  end.

(** [UpdateMembers]; that the address is a URL is a check of the library. *)
Definition UpdateMembers (memberList : list PeerConfig) (c : catchUpClient) : res catchUpClient :=
  members ← memberURLs (if client_tls c then "https" else "http") memberList ∅;
  Ok (mkCatchUpClient (client_tls c) members).

Section Client.
Context {E : Type} `{!PeerNetwork E, !Codec Block}.

Definition multipartResponseToBlocks (parts : list bytes) : res (list Block) :=
  blocks ← res_mapM (fun p => wrap_err "failed to unmarshal block" (Unmarshal p)) parts;
  if bool_decide (length blocks = 0%nat) then Err (PlainErr "empty multipart/form-data, no blocks found") else Ok blocks.

Definition GetBlocks (c : catchUpClient) (targetID start end_ : Z) : prog E (list Block) :=
  match members c !! targetID with
  | None => lift (Err (PlainErr ("target ID [" +:+ pretty targetID +:+ "] not found")))
  | Some baseURL =>
    reply ← DoBlocks baseURL (<["startId" := pretty start]> (<["endId" := pretty end_]> ∅));
    match reply with
    | Refused _ msg => lift (Err (PlainErr msg))
    | MultiPart parts => lift (multipartResponseToBlocks parts)
    end
  end.

Definition canceled : goerr := WrappedErr "PullBlocks canceled" (PlainErr "context canceled").

(** A round over the members: [None] when none of them gave blocks. *)
Fixpoint tryMembers (c : catchUpClient) (start end_ : Z) (memberIDs : list Z) : prog E (option (list Block)) := fun e =>
  match memberIDs with
  | [] => (e, Ok None)
  | id :: memberIDs =>
    if Cancelled e then (e, Err canceled) else
    match GetBlocks c id start end_ e with
    | (e, Ok blocks) => (e, Ok (Some blocks))
    | (e, Err _) => tryMembers c start end_ memberIDs e
    | (e, Panic w) => (e, Panic w)
    end
  end.

(** The rounds, with fuel; [None] when it is used up. *)
Fixpoint pullRounds (fuel : nat) (c : catchUpClient) (start end_ leaderHint curRetryInterval : Z) : prog E (option (list Block)) := fun e =>
  match fuel with
  | O => (e, Ok None)
  | S fuel =>
    let memberIDs := (if leaderHint =? 0 then [] else [leaderHint]) ++ Shuffle e ((map_to_list (members c)).*1) in
    match tryMembers c start end_ memberIDs e with
    | (e, Ok None) =>
      let e := Pause curRetryInterval e in
      if Cancelled e then (e, Err canceled)
      else pullRounds fuel c start end_ 0 (Z.min (2 * curRetryInterval) RetryIntervalMax) e
    | x => x
    end
  end.

Definition client_PullBlocks (fuel : nat) (c : catchUpClient) (start end_ leaderHint : Z) : prog E (option (list Block)) :=
  pullRounds fuel c start end_ leaderHint RetryIntervalMin.

End Client.
