(* ===== verification/CatchupProofs.v ===== *)
(** * What a node pulls

    The handler serves a segment of its ledger, within the bound on the size of a response
    but for the first block; the client gets a segment of the chain of the cluster. *)

From S2P Require Import Prelude Types JSON JSONPrint BlockStore HttpUtils Catchup.
Open Scope Z_scope.

(** The number of bytes of a response. *)
Definition total (parts : list bytes) : Z := Z.of_nat (length (concat parts)).

Lemma total_nil : total [] = 0.
Proof. done. Qed.

Lemma total_app p q : total (p ++ q) = total p + total q.
Proof. unfold total. rewrite concat_app, length_app. lia. Qed.

Lemma total_one b : total [b] = Z.of_nat (length b).
Proof. unfold total. cbn. by rewrite app_nil_r. Qed.

Section Serve.
Context `{!Codec Block}.

(** The blocks from a number on, as bytes. *)
Definition segment (chain : list Block) (start : Z) (k : nat) (parts : list bytes) : Prop :=
  res_mapM Marshal (take k (drop (Z.to_nat (start - 1)) chain)) = Ok parts ∧
  start - 1 + Z.of_nat k ≤ Z.of_nat (length chain).

(** A ledger that holds a chain. *)
Definition serves (ledger : LedgerReader) (chain : list Block) : Prop :=
  Reader_Height ledger = Ok (Z.of_nat (length chain)) ∧
  ∀ i b, chain !! i = Some b → Reader_Get ledger (Z.of_nat i + 1) = Ok b ∧ is_ok (Marshal b) = true.

Lemma segment_nil chain i : 1 ≤ i ≤ Z.of_nat (length chain) + 1 → segment chain i 0 [].
Proof. intros Hi. split; [done|lia]. Qed.

Lemma segment_cons chain i b bs k parts : 1 ≤ i → chain !! Z.to_nat (i - 1) = Some b → Marshal b = Ok bs →
  segment chain (i + 1) k parts → segment chain i (S k) (bs :: parts).
Proof.
  intros Hi Hb Hm [Hs Hl]. split; [|lia]. rewrite (drop_S _ b) by done. cbn [take res_mapM]. rewrite Hm. cbn [mbind].
  replace (Z.to_nat (i + 1 - 1)) with (S (Z.to_nat (i - 1))) in Hs by lia. cbn. by rewrite Hs.
Qed.

Lemma blocks_loop_segment max ledger chain start end_ : serves ledger chain → 1 ≤ start → Z.of_nat (length chain) < 2 ^ 64 - 1 →
  ∀ fuel i acc size, start ≤ i ≤ Z.of_nat (length chain) + 1 → (Z.to_nat (Z.of_nat (length chain) + 1 - i) < fuel)%nat →
  ∃ k parts, blocksLoop fuel max ledger (Z.of_nat (length chain)) start end_ i acc size = Ok (acc ++ parts) ∧
    segment chain i k parts ∧ i - 1 + Z.of_nat k ≤ Z.max (i - 1) end_ ∧
    (i = start → i ≤ end_ → i ≤ Z.of_nat (length chain) → (1 ≤ k)%nat) ∧
    (size + total parts ≤ Z.max size max ∨ i = start ∧ k = 1%nat) ∧
    (i - 1 + Z.of_nat k = Z.max (i - 1) (Z.min end_ (Z.of_nat (length chain))) ∨
     ∃ parts', segment chain i (S k) parts' ∧ max < size + total parts').
Proof.
  intros [_ Hget] Hst Hmax. induction fuel as [|fuel IH]; intros i acc size Hi Hf; [lia|]. cbn [blocksLoop].
  assert (Hstop : ∃ k parts, Ok acc = Ok (acc ++ parts) ∧ segment chain i k parts ∧ k = 0%nat ∧ parts = []).
  { exists 0%nat, []. rewrite app_nil_r. by split_and!; [|apply segment_nil; lia| |]. }
  destruct (Z.leb_spec i end_) as [He|He].
  2:{ destruct Hstop as (k & parts & Ha & Hs & -> & ->). exists 0%nat, []. split_and!; [done|done|lia|lia|left; rewrite total_nil; lia|left; lia]. }
  rewrite Z.gtb_ltb. destruct (Z.ltb_spec (Z.of_nat (length chain)) i) as [Hh|Hh].
  { destruct Hstop as (k & parts & Ha & Hs & -> & ->). exists 0%nat, []. split_and!; [done|done|lia|lia|left; rewrite total_nil; lia|left; lia]. }
  destruct (lookup_lt_is_Some_2 chain (Z.to_nat (i - 1))) as [b Hb]; [lia|]. destruct (Hget _ _ Hb) as [Hg Hm].
  replace (Z.of_nat (Z.to_nat (i - 1)) + 1) with i in Hg by lia. rewrite Hg. cbn [mbind res_bind].
  destruct (Marshal b) as [bs|?|?] eqn:Em; [|done..]. cbn [mbind res_bind].
  rewrite Z.gtb_ltb. destruct (Z.ltb_spec max (size + Z.of_nat (length bs))) as [Hx|Hx].
  - assert (Hone : segment chain i 1 [bs]) by (eapply segment_cons; [lia|done|done|apply segment_nil; lia]).
    destruct (Z.eqb_spec i start) as [->|Hne].
    + exists 1%nat, [bs]. split_and!; [done|done|lia|lia|by right|].
      destruct (decide (start < Z.min end_ (Z.of_nat (length chain)))) as [Hlt|]; [right|left; lia].
      destruct (lookup_lt_is_Some_2 chain (Z.to_nat start)) as [b2 Hb2]; [lia|]. destruct (Hget _ _ Hb2) as [_ Hm2].
      destruct (Marshal b2) as [bs2|?|?] eqn:Em2; [|done..]. exists [bs; bs2]. split.
      * eapply segment_cons; [lia|done|done|]. eapply segment_cons; [lia| |done|apply segment_nil; lia].
        by replace (start + 1 - 1) with start by lia.
      * change [bs; bs2] with ([bs] ++ [bs2]). rewrite total_app, !total_one. lia.
    + exists 0%nat, []. rewrite app_nil_r. split_and!; [done|apply segment_nil; lia|lia|lia|left; rewrite total_nil; lia|].
      right. exists [bs]. by rewrite total_one.
  - destruct (IH (i + 1) (acc ++ [bs]) (size + Z.of_nat (length bs))) as (k & parts & Hl & Hs & H1 & _ & H2 & H3); [lia|lia|].
    exists (S k), (bs :: parts). unfold u64. rewrite Z.mod_small by lia. rewrite Hl, <-(assoc (++)).
    assert (total (bs :: parts) = Z.of_nat (length bs) + total parts) as Ht.
    { change (bs :: parts) with ([bs] ++ parts). by rewrite total_app, total_one. }
    split_and!; [done|eapply segment_cons; (lia || done)|lia|lia| |].
    + destruct H2 as [H2|[? _]]; [left; rewrite Ht; lia|lia].
    + destruct H3 as [H3|(parts' & Hs' & H3)]; [left; lia|right]. exists (bs :: parts'). split; [eapply segment_cons; (lia || done)|].
      change (bs :: parts') with ([bs] ++ parts'). rewrite total_app, total_one. lia.
Qed.

Lemma serve_segment max ledger chain params start end_ : 0 ≤ max → serves ledger chain → Z.of_nat (length chain) < 2 ^ 64 - 1 →
  GetStartAndEndBlockNum params = Ok (start, end_) → 1 ≤ start ≤ Z.of_nat (length chain) →
  ∃ k parts, blocksRequest max ledger params = Ok (MultiPart parts) ∧ segment chain start k parts ∧
    (1 ≤ k)%nat ∧ start - 1 + Z.of_nat k ≤ end_ ∧ (total parts ≤ max ∨ k = 1%nat) ∧
    (start - 1 + Z.of_nat k = Z.min end_ (Z.of_nat (length chain)) ∨
     ∃ parts', segment chain start (S k) parts' ∧ max < total parts').
Proof.
  intros Hmax Hs Hl Hp Hst. assert (start ≤ end_) as Hse.
  { unfold GetStartAndEndBlockNum in Hp. apply bind_ok_inv in Hp as (s1 & _ & (e1 & _ & Hp)%bind_ok_inv).
    destruct (Z.ltb_spec e1 s1); [done|]. by injection Hp as <- <-. }
  destruct (blocks_loop_segment max ledger chain start end_ Hs ltac:(lia) Hl (Z.to_nat (Z.of_nat (length chain) - start + 2)) start [] 0)
    as (k & parts & Hk & Hseg & H1 & H2 & H3 & H4); [lia|lia|]. exists k, parts. specialize (H2 eq_refl Hse ltac:(lia)).
  unfold blocksRequest. rewrite Hp, (proj1 Hs). rewrite Z.gtb_ltb.
  destruct (Z.ltb_spec start 1); [lia|]. destruct (Z.ltb_spec (Z.of_nat (length chain)) start); [lia|]. rewrite Hk.
  split_and!; [done|done|done|lia|destruct H3 as [|[_ ->]]; [left; lia|by right]|].
  destruct H4 as [H4|(parts' & Hs' & H4)]; [left; lia|right]. by exists parts'.
Qed.

(** C30: the answer to a request for the blocks of a range that begins within the ledger is a
    segment of the ledger that begins where it was asked to: at least one block, no block
    beyond the range, no more bytes than the bound unless it is one block, and no fewer
    blocks than the range and the bound permit. *)
Theorem blocks_served max ledger chain params start end_ : 0 ≤ max → serves ledger chain → Z.of_nat (length chain) < 2 ^ 64 - 1 →
  GetStartAndEndBlockNum params = Ok (start, end_) → 1 ≤ start ≤ Z.of_nat (length chain) →
  ∃ k parts, blocksRequest max ledger params = Ok (MultiPart parts) ∧ segment chain start k parts ∧
    (1 ≤ k)%nat ∧ start - 1 + Z.of_nat k ≤ end_ ∧ (total parts ≤ max ∨ k = 1%nat) ∧
    (start - 1 + Z.of_nat k = Z.min end_ (Z.of_nat (length chain)) ∨
     ∃ parts', segment chain start (S k) parts' ∧ max < total parts').
Proof. apply serve_segment. Qed.

(** A request that begins beyond the ledger is refused. *)
Lemma blocks_refused max ledger chain params start end_ parts : serves ledger chain →
  GetStartAndEndBlockNum params = Ok (start, end_) → blocksRequest max ledger params = Ok (MultiPart parts) →
  1 ≤ start ≤ Z.of_nat (length chain).
Proof.
  intros Hs Hp. unfold blocksRequest. rewrite Hp, (proj1 Hs), Z.gtb_ltb.
  destruct (Z.ltb_spec start 1); [done|]. destruct (Z.ltb_spec (Z.of_nat (length chain)) start); [done|lia].
Qed.

(** ** The client *)

Lemma segment_decodes chain start k parts : segment chain start k parts →
  res_mapM (fun p => wrap_err "failed to unmarshal block" (Unmarshal p)) parts = Ok (take k (drop (Z.to_nat (start - 1)) chain)).
Proof.
  intros [Hs _]. revert parts Hs. generalize (take k (drop (Z.to_nat (start - 1)) chain)) as l.
  induction l as [|b l IH]; intros parts Hs; [by injection Hs as <-|].
  apply res_mapM_cons_inv in Hs as (y & ys & -> & Hy & Hys). cbn [res_mapM]. rewrite (unmarshal_marshal b y Hy). cbn.
  by rewrite (IH _ Hys).
Qed.

Lemma res_mapM_take {A B} (f : A → res B) l x y : res_mapM f l = Ok (x ++ y) → res_mapM f (take (length x) l) = Ok x.
Proof.
  revert x. induction l as [|a l IH]; intros [|b x] H; cbn in *; try done.
  apply res_mapM_cons_inv in H as (b' & ys & [= <- <-] & Hb & Hys). by rewrite Hb; cbn; rewrite (IH _ Hys).
Qed.

Lemma segment_prefix chain start k parts parts' : segment chain start k parts → parts' `prefix_of` parts →
  (length parts' ≤ k)%nat ∧ segment chain start (length parts') parts'.
Proof.
  intros [Hs Hl] [rest ->]. pose proof (res_mapM_length _ _ _ Hs) as Hlen. apply res_mapM_take in Hs.
  rewrite length_app, length_take in Hlen. rewrite take_take, Nat.min_l in Hs by lia. split; [lia|]. split; [done|lia].
Qed.

Lemma segment_of_prefix chain chain' start k parts : chain' `prefix_of` chain → segment chain' start k parts → 1 ≤ start →
  segment chain start k parts ∧ take k (drop (Z.to_nat (start - 1)) chain') = take k (drop (Z.to_nat (start - 1)) chain).
Proof.
  intros [rest ->] [Hs Hl] Hst. assert (take k (drop (Z.to_nat (start - 1)) (chain' ++ rest)) = take k (drop (Z.to_nat (start - 1)) chain')) as E.
  { rewrite drop_app_le by lia. rewrite take_app_le by (rewrite length_drop; lia). done. }
  split; [|done]. split; [by rewrite E|]. rewrite length_app. lia.
Qed.

End Serve.

Section Pull.
Context {E : Type} `{!PeerNetwork E, !Codec Block}.

(** Every answer that arrives is, but for parts that are cut off at its end, what the handler
    of a node gives whose ledger is a prefix of the chain. *)
Definition honest (chain : list Block) : Prop :=
  ∀ url params e e' parts, DoBlocks url params e = (e', Ok (MultiPart parts)) →
  ∃ max ledger chain' parts', 0 ≤ max ∧ chain' `prefix_of` chain ∧ serves ledger chain' ∧
    blocksRequest max ledger params = Ok (MultiPart parts') ∧ parts `prefix_of` parts'.

Lemma get_blocks_segment chain c id start end_ e e' blocks : honest chain → Z.of_nat (length chain) < 2 ^ 64 - 1 →
  0 ≤ start ≤ end_ → end_ < 2 ^ 64 → GetBlocks c id start end_ e = (e', Ok blocks) →
  ∃ k, (1 ≤ k)%nat ∧ 1 ≤ start ∧ start - 1 + Z.of_nat k ≤ Z.min end_ (Z.of_nat (length chain)) ∧
    blocks = take k (drop (Z.to_nat (start - 1)) chain).
Proof.
  intros Hh Hlen Hse He. unfold GetBlocks. destruct (members c !! id) as [url|]; [|done].
  set (params := <["startId" := _]> _). intros H. apply prog_bind_ok_inv in H as (e1 & reply & Hd & H).
  destruct reply as [code msg|parts]; [done|]. apply lift_ok_inv in H as [-> H].
  destruct (Hh _ _ _ _ _ Hd) as (max & ledger & chain' & parts' & Hmax & Hpre & Hs & Hreq & Hpp).
  pose proof (prefix_length _ _ Hpre) as Hlp.
  assert (GetStartAndEndBlockNum params = Ok (start, end_)) as Hp.
  { unfold GetStartAndEndBlockNum. rewrite (GetUintParam_pretty "startId" params start); [|lia|apply lookup_insert_eq]. cbn [mbind res_bind].
    rewrite (GetUintParam_pretty "endId" params end_); [|lia|unfold params; by rewrite lookup_insert_ne, lookup_insert_eq]. cbn [mbind res_bind].
    by destruct (Z.ltb_spec end_ start); [lia|]. }
  pose proof (blocks_refused _ _ _ _ _ _ _ Hs Hp Hreq) as Hst.
  destruct (serve_segment max ledger chain' params start end_) as (k & parts1 & Hr & Hseg & _ & Hke & _); [done|done|lia|done|done|].
  rewrite Hr in Hreq. injection Hreq as ->. destruct (segment_prefix _ _ _ _ _ Hseg Hpp) as [Hk Hseg'].
  destruct (segment_of_prefix _ _ _ _ _ Hpre Hseg') as [Hseg1 Hx]; [lia|].
  unfold multipartResponseToBlocks in H. rewrite (segment_decodes _ _ _ _ Hseg1) in H. cbn in H.
  case_bool_decide as Hz; [done|]. injection H as <-. exists (length parts). destruct Hseg1 as [Hm1 Hl1].
  rewrite length_take in Hz. split_and!; [lia|lia|lia|done].
Qed.

Lemma try_members_segment chain c start end_ ids e e' blocks : honest chain → Z.of_nat (length chain) < 2 ^ 64 - 1 →
  0 ≤ start ≤ end_ → end_ < 2 ^ 64 → tryMembers c start end_ ids e = (e', Ok (Some blocks)) →
  ∃ k, (1 ≤ k)%nat ∧ 1 ≤ start ∧ start - 1 + Z.of_nat k ≤ Z.min end_ (Z.of_nat (length chain)) ∧
    blocks = take k (drop (Z.to_nat (start - 1)) chain).
Proof.
  intros Hh Hl H1 H2. revert e. induction ids as [|id ids IH]; intros e; cbn; [done|]. destruct (Cancelled e); [done|].
  destruct (GetBlocks c id start end_ e) as [e1 [bs|err|w]] eqn:Eg; [|apply IH|done]. intros [= <- <-].
  by eapply get_blocks_segment.
Qed.

(** Whichever members answer, however often the client has to ask and wherever answers
    are cut off, the blocks it returns are a non-empty segment of the chain that begins with
    the block that was asked for. *)
Theorem pulled_blocks chain fuel c start end_ hint e e' blocks : honest chain → Z.of_nat (length chain) < 2 ^ 64 - 1 →
  0 ≤ start ≤ end_ → end_ < 2 ^ 64 → client_PullBlocks fuel c start end_ hint e = (e', Ok (Some blocks)) →
  ∃ k, (1 ≤ k)%nat ∧ 1 ≤ start ∧ start - 1 + Z.of_nat k ≤ Z.min end_ (Z.of_nat (length chain)) ∧
    blocks = take k (drop (Z.to_nat (start - 1)) chain).
Proof.
  intros Hh Hl H1 H2. unfold client_PullBlocks. generalize RetryIntervalMin as d. revert e hint.
  induction fuel as [|fuel IH]; intros e hint d; cbn; [done|].
  destruct (tryMembers _ _ _ _ _) as [e1 [[bs|]|err|w]] eqn:Et; [|destruct (Cancelled _); [done|apply IH]|done|done].
  intros [= <- <-]. by eapply try_members_segment.
Qed.

(** A member that answers whenever it is asked is enough for a pull to succeed. *)
Lemma try_members_succeeds c start end_ ids id e : (∀ e, Cancelled e = false) →
  (∀ id e w, (GetBlocks c id start end_ e).2 ≠ Panic w) → id ∈ ids →
  (∀ e, ∃ e' blocks, GetBlocks c id start end_ e = (e', Ok blocks)) →
  ∃ e' blocks, tryMembers c start end_ ids e = (e', Ok (Some blocks)).
Proof.
  intros Hc Hp Hin Hid. revert e. induction ids as [|id' ids IH]; intros e; [by apply not_elem_of_nil in Hin|]. cbn. rewrite Hc.
  apply elem_of_cons in Hin as [<-|Hin].
  - destruct (Hid e) as (e' & bs & ->). by exists e', bs.
  - specialize (IH Hin). destruct (GetBlocks c id' start end_ e) as [e1 [bs|err|w]] eqn:Eg; [by exists e1, bs|apply IH|].
    specialize (Hp id' e w). by rewrite Eg in Hp.
Qed.

Lemma pull_succeeds fuel c start end_ hint id e : (∀ e, Cancelled e = false) → (∀ e ids, Shuffle e ids ≡ₚ ids) →
  (∀ id e w, (GetBlocks c id start end_ e).2 ≠ Panic w) → is_Some (members c !! id) →
  (∀ e, ∃ e' blocks, GetBlocks c id start end_ e = (e', Ok blocks)) →
  ∃ e' blocks, client_PullBlocks (S fuel) c start end_ hint e = (e', Ok (Some blocks)).
Proof.
  intros Hc Hsh Hp [url Hid] Hget. unfold client_PullBlocks. cbn [pullRounds].
  set (ids := _ ++ Shuffle e _).
  destruct (try_members_succeeds c start end_ ids id e Hc Hp) as (e' & bs & ->); [|done|by exists e', bs].
  apply elem_of_app. right. rewrite Hsh. apply list_elem_of_fmap. exists (id, url). split; [done|]. by apply elem_of_map_to_list.
Qed.

End Pull.
