(* ===== verification/Transport.v ===== *)
(** * The transport between the nodes

    [internal/comm/httptransport.go]: the peers that the Raft transport and the catch-up
    client know, and how they follow the cluster configuration.  The Raft transport is a
    library; what it keeps is a table of peers. *)

From S2P Require Import Prelude Types ReConfig JSON JSONPrint BlockStore HttpUtils Catchup Replicator.
Open Scope Z_scope.

(** [rafthttp.Transport]: adding a peer that is known and updating one that is not do
    nothing; removing a peer that is not known panics. *)
Class PeerTable (T : Type) := {
  table : T → gmap Z string;
  AddPeer : Z → string → T → T;
  RemovePeer : Z → T → res T;
  UpdatePeer : Z → string → T → T;
  add_peer id url t : table (AddPeer id url t) = match table t !! id with Some _ => table t | None => <[id := url]> (table t) end;
  remove_peer id t : is_Some (table t !! id) → ∃ t', RemovePeer id t = Ok t' ∧ table t' = delete id (table t);
  update_peer id url t : table (UpdatePeer id url t) = match table t !! id with Some _ => <[id := url]> (table t) | None => table t end;
}.

Record HTTPTransport (T : Type) := mkHTTPTransport {
  tr_nodeID : string;
  tr_tls : bool;
  tr_raftID : Z;
  tr_clusterConfig : option ClusterConfig;
  tr_listener : bool;
  tr_transport : T;
  tr_catchUpClient : catchUpClient;
}.
Arguments mkHTTPTransport {T}.
Arguments tr_nodeID {T}.
Arguments tr_tls {T}.
Arguments tr_raftID {T}.
Arguments tr_clusterConfig {T}.
Arguments tr_listener {T}.
Arguments tr_transport {T}.
Arguments tr_catchUpClient {T}.

Section Transport.
Context {T : Type} `{!PeerTable T}.
Implicit Types (p : HTTPTransport T) (t : T).

Definition peerURL (tls : bool) (m : PeerConfig) : string :=
  (if tls then "https" else "http") +:+ "://" +:+ PeerHost m +:+ ":" +:+ pretty (PeerPort m).

Definition SetConsensusListener p : res (HTTPTransport T) :=
  if tr_listener p then Err (PlainErr "ConsensusListener already set")
  else Ok (mkHTTPTransport (tr_nodeID p) (tr_tls p) (tr_raftID p) (tr_clusterConfig p) true (tr_transport p) (tr_catchUpClient p)).

Definition SetClusterConfig (clusterConfig : ClusterConfig) p : res (HTTPTransport T) :=
  match tr_clusterConfig p with
  | Some _ => Err (PlainErr "cluster config already exists")
  | None =>
    consensus ← deref (Consensus clusterConfig);
    raftID ← MemberRaftID (tr_nodeID p) (Members consensus);
    Ok (mkHTTPTransport (tr_nodeID p) (tr_tls p) raftID (Some clusterConfig) (tr_listener p) (tr_transport p) (tr_catchUpClient p))
  end.

(** The other members; a nil one panics. *)
Fixpoint otherMembers (raftID : Z) (members : list (option PeerConfig)) : res (list PeerConfig) :=
  match members with
  | [] => Ok []
  | m :: members =>
    m ← deref m; rest ← otherMembers raftID members;
    Ok (if RaftId m =? raftID then rest else m :: rest)
  end.

Definition addPeers (tls : bool) (raftID : Z) (peers : list PeerConfig) t : T :=
  foldl (fun t m => if RaftId m =? raftID then t else AddPeer (RaftId m) (peerURL tls m) t) t peers.

Fixpoint removePeers (raftID : Z) (peers : list PeerConfig) t : res T :=
  match peers with
  | [] => Ok t
  | m :: peers => t ← (if RaftId m =? raftID then Ok t else RemovePeer (RaftId m) t); removePeers raftID peers t
  end.

Definition changePeers (tls : bool) (raftID : Z) (peers : list PeerConfig) t : T :=
  foldl (fun t m => if RaftId m =? raftID then t else UpdatePeer (RaftId m) (peerURL tls m) t) t peers.

(** [Start], but for the listener and the HTTP server. *)
Definition startTransport p : res (HTTPTransport T) :=
  if negb (tr_listener p) then Panic "Must set ConsensusListener before Start()" else
  match tr_clusterConfig p with
  | None => Panic "Must update ClusterConfig before Start()"
  | Some config =>
    consensus ← deref (Consensus config);
    membersList ← otherMembers (tr_raftID p) (Members consensus);
    client ← UpdateMembers membersList (tr_catchUpClient p);
    Ok (mkHTTPTransport (tr_nodeID p) (tr_tls p) (tr_raftID p) (tr_clusterConfig p) (tr_listener p)
          (addPeers (tr_tls p) (tr_raftID p) membersList (tr_transport p)) client)
  end.

Definition transport_UpdatePeers (added removed changed : list PeerConfig) (updatedClusterConfig : ClusterConfig) p
    : res (HTTPTransport T) :=
  t ← removePeers (tr_raftID p) removed (addPeers (tr_tls p) (tr_raftID p) added (tr_transport p));
  let t := changePeers (tr_tls p) (tr_raftID p) changed t in
  client ← (if bool_decide (length added + length removed + length changed = 0)%nat then Ok (tr_catchUpClient p)
            else
              consensus ← deref (Consensus updatedClusterConfig);
              membersList ← otherMembers (tr_raftID p) (Members consensus);
              UpdateMembers membersList (tr_catchUpClient p));
  Ok (mkHTTPTransport (tr_nodeID p) (tr_tls p) (tr_raftID p) (Some updatedClusterConfig) (tr_listener p) t client).

(** [ActivePeers]: [activeFor] is how long a peer has been active, if it is. *)
Definition transport_ActivePeers (activeFor : Z → option Z) (minDuration : Z) (includeSelf : bool) p : res (gmap string PeerConfig) :=
  let members := match tr_clusterConfig p ≫= Consensus with Some c => Members c | None => [] end in
  foldl (fun acc m =>
    acc ← acc; m ← deref m;
    Ok (if includeSelf && (RaftId m =? tr_raftID p) then <[NodeId m := m]> acc
        else match activeFor (RaftId m) with
             | Some dur => if minDuration <=? dur then <[NodeId m := m]> acc else acc
             | None => acc
             end)) (Ok ∅) members.

(** ** The tables of peers *)

Lemma add_peers_lookup tls self l t k u : NoDup (RaftId <$> l) → (∀ m, m ∈ l → table t !! RaftId m = None) →
  table (addPeers tls self l t) !! k = Some u ↔
  table t !! k = Some u ∨ ∃ m, m ∈ l ∧ RaftId m = k ∧ k ≠ self ∧ u = peerURL tls m.
Proof.
  revert t. induction l as [|m l IH]; intros t Hnd Hnone; cbn; [set_solver|].
  rewrite fmap_cons in Hnd. apply NoDup_cons in Hnd as [Hm Hnd]. unfold addPeers in IH. rewrite IH; [|done|].
  - destruct (Z.eqb_spec (RaftId m) self) as [Hs|Hs]; [set_solver|].
    rewrite add_peer, (Hnone m) by set_solver. rewrite lookup_insert_Some. set_solver.
  - intros m' Hm'. destruct (_ =? _); [apply Hnone; set_solver|]. rewrite add_peer, (Hnone m) by set_solver.
    rewrite lookup_insert_ne; [apply Hnone; set_solver|]. intros E. apply Hm. rewrite E. by apply list_elem_of_fmap_2.
Qed.

Lemma remove_peers_lookup self l t : NoDup (RaftId <$> l) → (∀ m, m ∈ l → RaftId m ≠ self → is_Some (table t !! RaftId m)) →
  ∃ t', removePeers self l t = Ok t' ∧ ∀ k u, table t' !! k = Some u ↔
    table t !! k = Some u ∧ ∀ m, m ∈ l → RaftId m ≠ self → RaftId m ≠ k.
Proof.
  revert t. induction l as [|m l IH]; intros t Hnd Hsome; cbn; [exists t; set_solver|].
  rewrite fmap_cons in Hnd. apply NoDup_cons in Hnd as [Hm Hnd]. destruct (Z.eqb_spec (RaftId m) self) as [Hs|Hs]; cbn.
  - destruct (IH t Hnd) as (t' & -> & Ht); [set_solver|]. exists t'. split; [done|]. intros k u. rewrite Ht. set_solver.
  - destruct (remove_peer (RaftId m) t) as (t1 & -> & Ht1); [set_solver|]. cbn. destruct (IH t1 Hnd) as (t' & -> & Ht).
    + intros m' Hm' Hs'. rewrite Ht1, lookup_delete_ne; [set_solver|]. intros E. apply Hm. rewrite E. by apply list_elem_of_fmap_2.
    + exists t'. split; [done|]. intros k u. rewrite Ht, Ht1, lookup_delete_Some. set_solver.
Qed.

Lemma change_peers_lookup tls self l t k u : NoDup (RaftId <$> l) → (∀ m, m ∈ l → RaftId m ≠ self → is_Some (table t !! RaftId m)) →
  table (changePeers tls self l t) !! k = Some u ↔
  (∃ m, m ∈ l ∧ RaftId m = k ∧ k ≠ self ∧ u = peerURL tls m) ∨
  table t !! k = Some u ∧ ∀ m, m ∈ l → RaftId m ≠ self → RaftId m ≠ k.
Proof.
  revert t. induction l as [|m l IH]; intros t Hnd Hsome; cbn; [set_solver|].
  rewrite fmap_cons in Hnd. apply NoDup_cons in Hnd as [Hm Hnd]. unfold changePeers in IH.
  assert (Hne : ∀ m', m' ∈ l → RaftId m ≠ RaftId m') by (intros m' Hm' E; apply Hm; rewrite E; by apply list_elem_of_fmap_2).
  destruct (Z.eqb_spec (RaftId m) self) as [Hs|Hs]; [rewrite IH; [|done|]; set_solver|].
  destruct (Hsome m) as [u0 Hu0]; [set_solver|done|]. rewrite IH; [|done|].
  - rewrite update_peer, Hu0, lookup_insert_Some. set_solver.
  - intros m' Hm' Hs'. rewrite update_peer, Hu0, lookup_insert_ne by auto. set_solver.
Qed.

End Transport.
