(* ===== verification/TransportProofs.v ===== *)
(** * The transport follows the configuration

    What [detectPeerConfigChanges] finds is what the transport needs to get from the peers of
    one configuration to those of the next. *)

From S2P Require Import Prelude Types ReConfig JSON JSONPrint BlockStore HttpUtils Catchup Replicator Transport.
Open Scope Z_scope.

Definition unique_raft_ids (c : ConsensusConfig) : Prop := NoDup (RaftId <$> omap id (Members c)).

Section Detect.
Context {mr : MapRange}.

Lemma NodeId_member c p : has_member c p → NodeId p ∈ member_ids c.
Proof. intros Hp%elem_of_omap_id. unfold member_ids. set_solver. Qed.

Lemma member_NodeId c k : k ∈ member_ids c → ∃ p, has_member c p ∧ NodeId p = k.
Proof.
  unfold member_ids. rewrite elem_of_list_to_set, list_elem_of_fmap. intros (p & -> & Hp). exists p. split; [by apply elem_of_omap_id|done].
Qed.

(** The added, the removed and the changed peers. *)
Lemma detect_spec cur upd a d c : unique_ids cur → unique_ids upd → detectPeerConfigChanges cur upd = Ok (a, d, c) →
  None ∉ Members upd ∧
  (a = filter (fun p => NodeId p ∉ member_ids cur) (omap id (Members upd))) ∧
  (∀ p, p ∈ d ↔ has_member cur p ∧ NodeId p ∉ member_ids upd) ∧ NoDup d ∧
  (c = filter (fun p => NodeId p ∈ member_ids cur ∧ ¬ has_member cur p) (omap id (Members upd))) ∧
  (∀ p, has_member upd p → NodeId p ∉ member_ids cur → ∃ rc, CC_RaftConfig cur = Some rc ∧ MaxRaftId rc < RaftId p) ∧
  (∀ p q, has_member upd p → has_member cur q → NodeId p = NodeId q → RaftId p = RaftId q).
Proof.
  intros Hc Hu. unfold detectPeerConfigChanges. intros (m & Hm & H)%bind_ok_inv.
  apply bind_ok_inv in H as ([[up add] chg] & Hl & H). injection H as <- <- <-.
  destruct (peersByID_spec _ _ Hc Hm) as (_ & Hd & Hlk).
  apply detectPeers_loop_ok in Hl as (Hn & Hdu & -> & -> & Hok). rewrite dom_empty_L, union_empty_r_L in Hdu. cbn.
  split_and!; [done| | | | | |].
  - apply list_filter_iff. intros p. unfold peer_added. by rewrite <- Hd, not_elem_of_dom.
  - intros p. rewrite list_elem_of_filter, <- not_elem_of_dom, Hdu, list_elem_of_fmap. fold (member_ids upd). split.
    + intros [Hp ([k p'] & -> & Hin%elem_of_range)]. cbn in *. apply Hlk in Hin as [? _]. done.
    + intros [Hp Hnot]. split; [done|]. exists (NodeId p, p). split; [done|]. by apply elem_of_range, Hlk.
  - apply NoDup_filter, (NoDup_fmap_1 NodeId).
    assert (NodeId <$> (range m).*2 = range_keys m) as ->; [|apply range_keys_NoDup].
    unfold range_keys. rewrite <- list_fmap_compose. apply list_fmap_ext. intros i [k p] Hi. cbn.
    eapply Hlk, elem_of_range, list_elem_of_lookup. by eexists.
  - apply list_filter_iff. intros p. unfold peer_changed. rewrite <- Hd, elem_of_dom.
    destruct (m !! NodeId p) as [q|] eqn:Eq; [|split; [done|by intros [[? ?] _]]]. apply Hlk in Eq as [Hq Heq]. split.
    + intros Hne. split; [done|]. intros Hp. apply Hne.
      eapply (NoDup_fmap_elem NodeId _ _ _ Hc); [by apply elem_of_omap_id..|done].
    + intros [_ Hp] ->. done.
  - intros p Hp Hnot. specialize (Hok p). rewrite elem_of_omap_id in Hok. specialize (Hok Hp). unfold peer_ok in Hok.
    rewrite <- Hd, not_elem_of_dom in Hnot. by rewrite Hnot in Hok.
  - intros p q Hp Hq Heq. specialize (Hok p). rewrite elem_of_omap_id in Hok. specialize (Hok Hp). unfold peer_ok in Hok.
    assert (m !! NodeId p = Some q) as Eq by (by apply Hlk). by rewrite Eq in Hok.
Qed.

End Detect.

Section Follow.
Context {T : Type} `{!PeerTable T} {mr : MapRange}.

(** The peers of a node: the members of the configuration but for itself. *)
Definition peers_of (tls : bool) (self : Z) (c : ConsensusConfig) (m : gmap Z string) : Prop :=
  ∀ k u, m !! k = Some u ↔ ∃ q, has_member c q ∧ RaftId q = k ∧ k ≠ self ∧ u = peerURL tls q.

Lemma raft_id_member c p q : unique_raft_ids c → has_member c p → has_member c q → RaftId p = RaftId q → p = q.
Proof. intros Hu Hp Hq. apply (NoDup_fmap_elem RaftId _ _ _ Hu); by apply elem_of_omap_id. Qed.

Lemma filtered_raft_ids (P : PeerConfig → Prop) `{!∀ q, Decision (P q)} c : unique_raft_ids c → NoDup (RaftId <$> filter P (omap id (Members c))).
Proof. intros Hu. eapply sublist_NoDup; [apply Hu|]. apply fmap_sublist, sublist_filter. Qed.

(** What the changes are, with the Raft IDs of the two configurations. *)
Record changes (cur upd : ConsensusConfig) (a d c : list PeerConfig) : Prop := {
  ch_added q : q ∈ a ↔ has_member upd q ∧ NodeId q ∉ member_ids cur;
  ch_removed q : q ∈ d ↔ has_member cur q ∧ NodeId q ∉ member_ids upd;
  ch_changed q : q ∈ c ↔ has_member upd q ∧ NodeId q ∈ member_ids cur ∧ ¬ has_member cur q;
  ch_fresh q q' : q ∈ a → has_member cur q' → RaftId q ≠ RaftId q';
  ch_same q q' : has_member upd q → has_member cur q' → NodeId q = NodeId q' → RaftId q = RaftId q';
  ch_nodup : NoDup (RaftId <$> a) ∧ NoDup (RaftId <$> d) ∧ NoDup (RaftId <$> c);
}.

Lemma detect_changes cur upd a d c : unique_ids cur → unique_ids upd → unique_raft_ids cur → unique_raft_ids upd →
  (∀ q rc, has_member cur q → CC_RaftConfig cur = Some rc → RaftId q ≤ MaxRaftId rc) →
  detectPeerConfigChanges cur upd = Ok (a, d, c) → changes cur upd a d c.
Proof.
  intros Hc Hu Hrc Hru Hmax Hd. destruct (detect_spec _ _ _ _ _ Hc Hu Hd) as (_ & Ea & Hdd & Hdn & Ec & Hnew & Hsame).
  assert (Ha : ∀ q, q ∈ a ↔ has_member upd q ∧ NodeId q ∉ member_ids cur).
  { intros q. rewrite Ea, list_elem_of_filter, elem_of_omap_id. tauto. }
  split; [done|done| | |done|].
  - intros q. rewrite Ec, list_elem_of_filter, elem_of_omap_id. tauto.
  - intros q q' [Hq Hn]%Ha Hq' E. destruct (Hnew q Hq Hn) as (rc & Erc & Hlt). specialize (Hmax q' rc Hq' Erc). lia.
  - split_and!; [rewrite Ea; by apply filtered_raft_ids| |rewrite Ec; by apply filtered_raft_ids].
    apply (NoDup_fmap_2_strong RaftId); [|done]. intros x y [Hx _]%Hdd [Hy _]%Hdd. by apply (raft_id_member cur).
Qed.

(** A member of both configurations is not removed. *)
Lemma kept_not_removed cur upd a d c q q' : changes cur upd a d c → unique_raft_ids cur → has_member upd q → has_member cur q' →
  NodeId q = NodeId q' → ∀ m, m ∈ d → RaftId m ≠ RaftId q.
Proof.
  intros H Hrc Hq Hq' E m [Hm Hn]%(ch_removed _ _ _ _ _ H) Em. apply Hn.
  rewrite (raft_id_member cur m q' Hrc Hm Hq'); [rewrite <- E; by apply NodeId_member|].
  rewrite Em. by apply (ch_same _ _ _ _ _ H).
Qed.

Lemma added_not_removed cur upd a d c q : changes cur upd a d c → q ∈ a → ∀ m, m ∈ d → RaftId m ≠ RaftId q.
Proof. intros H Hq m [Hm _]%(ch_removed _ _ _ _ _ H) E. by destruct (ch_fresh _ _ _ _ _ H q m Hq Hm). Qed.

(** The members of the next configuration: those that changed, and those that were there or
    are added, and are neither removed nor changed. *)
Lemma members_after cur upd a d c q : changes cur upd a d c → unique_raft_ids cur → unique_raft_ids upd →
  has_member upd q ↔
  q ∈ c ∨ (has_member cur q ∨ q ∈ a) ∧ (∀ m, m ∈ d → RaftId m ≠ RaftId q) ∧ (∀ m, m ∈ c → RaftId m ≠ RaftId q).
Proof.
  intros H Hrc Hru. split.
  - intros Hq. destruct (decide (q ∈ c)) as [|Hnc]; [by left|right].
    assert (Hc' : ∀ m, m ∈ c → RaftId m ≠ RaftId q).
    { intros m Hm E. pose proof Hm as [Hm' _]%(ch_changed _ _ _ _ _ H). by rewrite (raft_id_member upd m q) in Hm. }
    destruct (decide (NodeId q ∈ member_ids cur)) as [Hin|Hin].
    + destruct (member_NodeId _ _ Hin) as (q' & Hq' & E). split_and!; [|by eapply kept_not_removed|done].
      left. destruct (decide (has_member cur q)); [done|]. destruct Hnc. by apply (ch_changed _ _ _ _ _ H).
    + assert (q ∈ a) by (by apply (ch_added _ _ _ _ _ H)). split_and!; [by right|by eapply added_not_removed|done].
  - intros [Hq|[[Hq|Hq] [Hd Hc]]].
    + by apply (ch_changed _ _ _ _ _ H) in Hq as [? _].
    + destruct (decide (NodeId q ∈ member_ids upd)) as [Hin|Hin].
      * destruct (member_NodeId _ _ Hin) as (q' & Hq' & E). destruct (decide (has_member cur q')) as [Hc'|Hc'].
        { rewrite (raft_id_member cur q q'); [done|done|done|done|]. symmetry. by apply (ch_same _ _ _ _ _ H). }
        exfalso. apply (Hc q'); [|by apply (ch_same _ _ _ _ _ H)]. apply (ch_changed _ _ _ _ _ H). split_and!; [done| |done].
        rewrite E. by apply NodeId_member.
      * exfalso. apply (Hd q); [|done]. by apply (ch_removed _ _ _ _ _ H).
    + by apply (ch_added _ _ _ _ _ H) in Hq as [? _].
Qed.

Lemma table_follows tls self cur upd a d c (t : T) : changes cur upd a d c → unique_raft_ids cur → unique_raft_ids upd →
  peers_of tls self cur (table t) →
  ∃ t', removePeers self d (addPeers tls self a t) = Ok t' ∧ peers_of tls self upd (table (changePeers tls self c t')).
Proof.
  intros H Hrc Hru Ht. destruct (ch_nodup _ _ _ _ _ H) as (Hna & Hnd & Hnc).
  assert (H1 : ∀ k u, table (addPeers tls self a t) !! k = Some u ↔
    ∃ q, (has_member cur q ∨ q ∈ a) ∧ RaftId q = k ∧ k ≠ self ∧ u = peerURL tls q).
  { intros k u. rewrite add_peers_lookup, (Ht k u); [set_solver|done|]. intros m Hm.
    destruct (table t !! RaftId m) as [u'|] eqn:Eu; [|done]. apply Ht in Eu as (q & Hq & E & _). by destruct (ch_fresh _ _ _ _ _ H m q Hm Hq). }
  destruct (remove_peers_lookup self d (addPeers tls self a t)) as (t1 & Hr & H2); [done| |].
  { intros m [Hm _]%(ch_removed _ _ _ _ _ H) Hs. exists (peerURL tls m). apply H1. exists m. split_and!; [by left|done..]. }
  exists t1. split; [done|]. intros k u. rewrite change_peers_lookup; [|done|].
  - rewrite H2, H1. split.
    + intros [(q & Hq & ? & ? & ?)|[[(q & Hq & <- & Hs & ->) Hd] Hc]]; exists q; (split; [|done]); apply (members_after _ _ _ _ _ q H Hrc Hru); [by left|right].
      split_and!; [done| |]; intros m Hm E; [apply (Hd m Hm)|apply (Hc m Hm)]; congruence.
    + intros (q & Hq & <- & Hs & ->). apply (members_after _ _ _ _ _ q H Hrc Hru) in Hq as [Hq|(Hq & Hd & Hc)]; [left; by exists q|right].
      split; [split; [by exists q|]|]; intros m Hm _; [by apply Hd|by apply Hc].
  - intros m Hm Hs. apply (ch_changed _ _ _ _ _ H) in Hm as (Hm & Hin & _). destruct (member_NodeId _ _ Hin) as (q & Hq & Eq).
    exists (peerURL tls q). apply H2. assert (RaftId m = RaftId q) as E by (by apply (ch_same _ _ _ _ _ H)). split.
    + apply H1. exists q. split_and!; [by left|done|done|done].
    + intros m' Hm' _. rewrite E. rewrite <- E. by eapply kept_not_removed.
Qed.

Lemma other_members_ok self l : None ∉ l → otherMembers self l = Ok (filter (fun q => RaftId q ≠ self) (omap id l)).
Proof.
  induction l as [|[q|] l IH]; intros Hn; [done| |set_solver]. cbn [otherMembers deref mbind res_bind]. rewrite IH by set_solver.
  change (omap id (Some q :: l)) with (q :: omap id l). rewrite filter_cons. cbn [mbind res_bind]. destruct (Z.eqb_spec (RaftId q) self); [by rewrite decide_False by tauto|by rewrite decide_True].
Qed.

Lemma member_urls_ok (tls : bool) (l : list PeerConfig) (acc : gmap Z string) : (∀ q, q ∈ l → RaftId q ≠ 0) → NoDup (RaftId <$> l) →
  ∃ m, memberURLs (if tls then "https" else "http") l acc = Ok m ∧ ∀ k u, m !! k = Some u ↔
    (∃ q, q ∈ l ∧ RaftId q = k ∧ u = peerURL tls q) ∨ acc !! k = Some u ∧ ∀ q, q ∈ l → RaftId q ≠ k.
Proof.
  revert acc. induction l as [|q l IH]; intros acc H0 Hnd; cbn; [exists acc; set_solver|].
  rewrite fmap_cons in Hnd. apply NoDup_cons in Hnd as [Hq Hnd].
  destruct (Z.eqb_spec (RaftId q) 0) as [E|_]; [by destruct (H0 q); [set_solver|]|].
  edestruct (IH (<[RaftId q := peerURL tls q]> acc)) as (m & Hm & Hk); [set_solver|done|]. exists m. split; [done|].
  assert (Hne : ∀ q', q' ∈ l → RaftId q' ≠ RaftId q) by (intros q' Hq' E; apply Hq; rewrite <- E; by apply list_elem_of_fmap_2).
  intros k u. rewrite Hk, lookup_insert_Some. set_solver.
Qed.

Lemma update_members_ok tls self c (client : catchUpClient) : client_tls client = tls → None ∉ Members c → unique_raft_ids c →
  (∀ q, has_member c q → RaftId q ≠ 0) →
  ∃ client', (l ← otherMembers self (Members c); UpdateMembers l client) = Ok client' ∧ peers_of tls self c (members client').
Proof.
  intros <- Hn Hru H0. rewrite other_members_ok by done. cbn. unfold UpdateMembers.
  destruct (member_urls_ok (client_tls client) (filter (fun q => RaftId q ≠ self) (omap id (Members c))) ∅) as (m & -> & Hm).
  - intros q [_ Hq%elem_of_omap_id]%list_elem_of_filter. by apply H0.
  - by apply filtered_raft_ids.
  - eexists. split; [done|]. intros k u. cbn. rewrite Hm. split.
    + intros [(q & [Hs Hq%elem_of_omap_id]%list_elem_of_filter & <- & ->)|[? _]]; [by exists q|done].
    + intros (q & Hq & <- & Hs & ->). left. exists q. split_and!; [|done..]. apply list_elem_of_filter. split; [done|]. by apply elem_of_omap_id.
Qed.

(** A transport whose peers are those of a configuration. *)
Definition follows (p : HTTPTransport T) (c : ConsensusConfig) : Prop :=
  peers_of (tr_tls p) (tr_raftID p) c (table (tr_transport p)) ∧
  peers_of (tr_tls p) (tr_raftID p) c (members (tr_catchUpClient p)) ∧ client_tls (tr_catchUpClient p) = tr_tls p.

(** C31: when the configuration changes, the peers of the Raft transport and of the catch-up
    client become the members of the new configuration with their new addresses, but for the
    node itself, whatever combination of additions, removals and new addresses the change
    is. *)
Theorem transport_follows_config (p : HTTPTransport T) cur upd config a d c :
  unique_ids cur → unique_ids upd → unique_raft_ids cur → unique_raft_ids upd →
  (∀ q rc, has_member cur q → CC_RaftConfig cur = Some rc → RaftId q ≤ MaxRaftId rc) →
  (∀ q, has_member upd q → RaftId q ≠ 0) → Consensus config = Some upd →
  detectPeerConfigChanges cur upd = Ok (a, d, c) → follows p cur →
  ∃ p', transport_UpdatePeers a d c config p = Ok p' ∧ follows p' upd ∧ tr_clusterConfig p' = Some config.
Proof.
  intros Hc Hu Hrc Hru Hmax H0 Hcons Hd (Ht & Hcl & Htls).
  pose proof (detect_changes _ _ _ _ _ Hc Hu Hrc Hru Hmax Hd) as H. destruct (detect_spec _ _ _ _ _ Hc Hu Hd) as (Hn & _).
  destruct (table_follows _ _ _ _ _ _ _ _ H Hrc Hru Ht) as (t1 & Hr & Ht1).
  unfold transport_UpdatePeers. rewrite Hr. cbn [mbind res_bind]. case_bool_decide as Hz.
  - eexists. split; [done|]. split; [|done]. split; [done|]. split; [|done]. cbn. intros k u. rewrite (Hcl k u).
    destruct a, d, c; try done. assert (Hm : ∀ q, has_member upd q ↔ has_member cur q).
    { intros q. rewrite (members_after _ _ _ _ _ q H Hrc Hru). set_solver. }
    by setoid_rewrite Hm.
  - rewrite Hcons. destruct (update_members_ok (tr_tls p) (tr_raftID p) upd _ Htls Hn Hru H0) as (client & Hcm & Hpm).
    cbn [deref mbind res_bind] in *. rewrite Hcm. eexists. split; [done|]. split; [|done]. split; [done|]. split; [done|].
    cbn. unfold UpdateMembers in Hcm. apply bind_ok_inv in Hcm as (l & _ & (m & _ & [= <-])%bind_ok_inv). done.
Qed.

End Follow.

(** ** A change of the configuration *)

Module TransportExample.

#[export, refine] Instance map_table : PeerTable (gmap Z string) := {|
  table t := t;
  AddPeer id url t := match t !! id with Some _ => t | None => <[id := url]> t end;
  RemovePeer id t := match t !! id with Some _ => Ok (delete id t) | None => Panic "unexpected removal of unknown remote peer" end;
  UpdatePeer id url t := match t !! id with Some _ => <[id := url]> t | None => t end;
|}.
Proof.
  - done.
  - intros id t [u Hu]. exists (delete id t). by rewrite Hu.
  - done.
Defined.
#[export] Instance order : MapRange := canonical_range.

(** The second of three nodes leaves, the third moves and a fourth joins; this is the first. *)
Definition peer (id : Z) (host : string) : PeerConfig := mkPeerConfig ("n" +:+ pretty id) id host 7000.
Definition consensus (members : list PeerConfig) : ConsensusConfig :=
  mkConsensusConfig "raft" (Some <$> members) [] (Some (mkRaftConfig "100ms" 10 1 50 1 3)).
Definition cur : ConsensusConfig := consensus [peer 1 "a"; peer 2 "b"; peer 3 "c"].
Definition upd : ConsensusConfig := consensus [peer 1 "a"; peer 3 "d"; peer 4 "e"].
Definition config : ClusterConfig := mkClusterConfig [] [] None (Some upd) None.

Definition urls (l : list (Z * string)) : gmap Z string := list_to_map l.
Definition before : HTTPTransport (gmap Z string) :=
  mkHTTPTransport "n1" false 1 None true (urls [(2, "http://b:7000"); (3, "http://c:7000")])
    (mkCatchUpClient false (urls [(2, "http://b:7000"); (3, "http://c:7000")])).
Definition after : HTTPTransport (gmap Z string) :=
  mkHTTPTransport "n1" false 1 (Some config) true (urls [(3, "http://d:7000"); (4, "http://e:7000")])
    (mkCatchUpClient false (urls [(3, "http://d:7000"); (4, "http://e:7000")])).

Lemma before_peers : peers_of false 1 cur (urls [(2, "http://b:7000"); (3, "http://c:7000")]).
Proof.
  intros k u. unfold urls. cbn [list_to_map foldr uncurry]. rewrite lookup_insert_Some, lookup_insert_Some, lookup_empty. split.
  - intros [[<- <-]|[_ [[<- <-]|[_ ?]]]]; [exists (peer 2 "b")|exists (peer 3 "c")|done]; (split; [unfold has_member; cbn; set_solver|]); by vm_compute.
  - intros (q & Hq & <- & Hs & ->). unfold has_member, cur, consensus in Hq. cbn in Hq.
    repeat (apply elem_of_cons in Hq as [[= ->]|Hq]); [by vm_compute in Hs|by left|right; split; [by vm_compute|by left]|by apply not_elem_of_nil in Hq].
Qed.

Lemma transport_follows_config_witness : transport_UpdatePeers [peer 4 "e"] [peer 2 "b"] [peer 3 "d"] config before = Ok after ∧ follows after upd.
Proof.
  destruct (transport_follows_config before cur upd config [peer 4 "e"] [peer 2 "b"] [peer 3 "d"]) as (p & Hp & Hf & _).
  - by apply (bool_decide_unpack _); vm_compute.
  - by apply (bool_decide_unpack _); vm_compute.
  - by apply (bool_decide_unpack _); vm_compute.
  - by apply (bool_decide_unpack _); vm_compute.
  - intros q rc Hq [= <-]. unfold has_member in Hq. cbn in Hq. repeat (apply elem_of_cons in Hq as [[= ->]|Hq]); [cbn; lia..|by apply not_elem_of_nil in Hq].
  - intros q Hq. unfold has_member in Hq. cbn in Hq. repeat (apply elem_of_cons in Hq as [[= ->]|Hq]); [cbn; lia..|by apply not_elem_of_nil in Hq].
  - done.
  - vm_compute. reflexivity.
  - split; [apply before_peers|]. split; [apply before_peers|done].
  - assert (Ha : transport_UpdatePeers [peer 4 "e"] [peer 2 "b"] [peer 3 "d"] config before = Ok after) by (vm_compute; reflexivity).
    split; [exact Ha|]. rewrite Ha in Hp. injection Hp as <-. exact Hf.
Defined.

End TransportExample.
