(* ===== verification/ReplicatorProofs.v ===== *)
(** * Delivery of the Raft log

    Whatever is replayed, every block of the log is committed once and in the order of the
    log. *)

From S2P Require Import Prelude Types ReConfig BlockEncoding BlockStore Queue Pipeline Replicator.
Open Scope Z_scope.

(** What the surroundings do that matters here: a block that the block processor took is
    appended to the ledger, with its place in the log and its base header unchanged, and it stays a
    configuration block or another one; nothing else changes the ledger.  The payload may change: committing
    a block that creates databases strips their index definitions from it. *)
Class RaftEnvLaws (E : Type) `{!RaftEnv E} := {
  blocks : E → list Block;
  enqueue_wait b e e' b' config : EnqueueWait b e = (e', Ok (b', config)) →
    blocks e' = blocks e ++ [b'] ∧ Block_ConsensusMetadata b' = Block_ConsensusMetadata b ∧
    BaseHeader (Header b') = BaseHeader (Header b);
  enqueue_wait_kind b e e' b' config : EnqueueWait b e = (e', Ok (b', config)) → IsConfigBlock b' = IsConfigBlock b;
  enqueue_wait_fails b e e' x : EnqueueWait b e = (e', x) → is_ok x = false →
    blocks e' = blocks e ∨
    ∃ b', blocks e' = blocks e ++ [b'] ∧ Block_ConsensusMetadata b' = Block_ConsensusMetadata b ∧
      BaseHeader (Header b') = BaseHeader (Header b);
  apply_conf_change cc e : blocks (ApplyConfChange cc e).1 = blocks e;
  apply_conf_change_v2 cc e : blocks (ApplyConfChangeV2 cc e).1 = blocks e;
  take_snapshot i c d e : blocks (TakeSnapshot i c d e).1 = blocks e;
  update_peers a r c config e : blocks (UpdatePeers a r c config e).1 = blocks e;
  ledger_height e n : LedgerHeight e = Ok n → n = Z.of_nat (length (blocks e));
  ledger_get e n b : LedgerGet e n = Ok b → 0 < n → blocks e !! Z.to_nat (n - 1) = Some b;
}.

(** The place in the log and the base header of a block. *)
Definition stamp (b : Block) : option ConsensusMetadata * BlockHeaderBase := (Block_ConsensusMetadata b, BaseHeader (Header b)).

Section Delivery.
Context {E : Type} `{!RaftEnv E, !RaftEnvLaws E, !Codec Block, !Codec BlockHeader, !Codec BlockHeaderBase, !Codec ConfChange,
  !Codec ConfChangeV2} {mr : MapRange}.
Implicit Types (r : replicator) (e : E) (s : replicator * E).

(** The block of an entry. *)
Definition entry_block (x : Entry) : option Block :=
  match Entry_Type x with
  | EntryNormal =>
    if bool_decide (length (Entry_Data x) = 0%nat) then None
    else match Unmarshal (Entry_Data x) with Ok b => Some (withMetadata b x) | _ => None end
  | EntryConfChangeV2 =>
    match (Unmarshal (Entry_Data x) : res ConfChangeV2) with
    | Ok cc => match Context cc with
               | Some context => match Unmarshal context with Ok b => Some (withMetadata b x) | _ => None end
               | None => None
               end
    | _ => None
    end
  | EntryConfChange => None
  end.

Definition log_stamps (l : list Entry) := stamp <$> omap entry_block l.

(** Changes of the membership can be decoded. *)
Definition decodes (x : Entry) : Prop :=
  match Entry_Type x with
  | EntryNormal => True
  | EntryConfChange => is_ok (Unmarshal (Entry_Data x) : res ConfChange) = true
  | EntryConfChangeV2 => is_ok (Unmarshal (Entry_Data x) : res ConfChangeV2) = true
  end.

(** Calls that leave the ledger and the applied index as they are. *)
Definition keeps {A} (m : prog (replicator * E) A) : Prop :=
  ∀ s, blocks (m s).1.2 = blocks s.2 ∧ appliedIndex (m s).1.1 = appliedIndex s.1.

Lemma keeps_ret {A} (x : A) : keeps (mret x).
Proof. done. Qed.

Lemma keeps_lift {A} (x : res A) : keeps (lift x).
Proof. done. Qed.

Lemma keeps_look {A} (f : replicator → A) : keeps (look f).
Proof. done. Qed.

Lemma keeps_upd f : (∀ r, appliedIndex (f r) = appliedIndex r) → keeps (upd f).
Proof. intros Hf s. by split; [|apply Hf]. Qed.

Lemma keeps_env {A} (m : prog E A) : (∀ e, blocks (m e).1 = blocks e) → keeps (env m).
Proof. intros Hm [r e]. unfold env. cbn. specialize (Hm e). destruct (m e). done. Qed.

Lemma keeps_bind {A B} (m : prog (replicator * E) A) (f : A → prog (replicator * E) B) :
  keeps m → (∀ a, keeps (f a)) → keeps (m ≫= f).
Proof.
  intros Hm Hf s. specialize (Hm s). unfold mbind, prog_bind. destruct (m s) as [s1 [a|err|w]]; [|done..].
  destruct (Hf a s1) as [-> ->]. done.
Qed.

Lemma keeps_panic_on_err {A} msg (m : prog (replicator * E) A) : keeps m → keeps (panic_on_err msg m).
Proof. intros Hm s. specialize (Hm s). unfold panic_on_err. destruct (m s). done. Qed.

Lemma keeps_wrap {A} msg (m : prog (replicator * E) A) : keeps m → keeps (wrap_prog msg m).
Proof. intros Hm s. specialize (Hm s). unfold wrap_prog. destruct (m s). done. Qed.

End Delivery.

Create HintDb keeps discriminated.
#[export] Hint Resolve keeps_ret keeps_lift keeps_look keeps_panic_on_err keeps_wrap keeps_bind : keeps.
#[export] Hint Extern 1 (keeps (upd _)) => (apply keeps_upd; intros; repeat case_match; reflexivity) : keeps.

Section Delivery.
Context {E : Type} `{!RaftEnv E, !RaftEnvLaws E, !Codec Block, !Codec BlockHeader, !Codec BlockHeaderBase, !Codec ConfChange,
  !Codec ConfChangeV2} {mr : MapRange}.
Implicit Types (r : replicator) (e : E) (s : replicator * E).

Lemma set_last_committed_keeps b : keeps (setLastCommittedBlock b : prog (replicator * E) unit).
Proof.
  unfold setLastCommittedBlock, panic. repeat (apply keeps_bind; [auto with keeps|intros]).
  - destruct (_ >? _); auto with keeps.
  - destruct (_ && _); [|auto with keeps]. destruct (_ =? _); auto with keeps.
Qed.

Lemma update_cluster_config_keeps config : keeps (updateClusterConfig config).
Proof.
  unfold updateClusterConfig. do 3 (apply keeps_bind; [auto with keeps|intros]).
  apply keeps_bind; [auto with keeps|]. intros [[? ?] ?].
  apply keeps_bind; [apply keeps_wrap, keeps_env, update_peers|]. auto with keeps.
Qed.

Lemma commit_block_ok b flag s s' : commitBlock b flag s = (s', Ok tt) →
  (∃ b', blocks s'.2 = blocks s.2 ++ [b'] ∧ stamp b' = stamp b) ∧ appliedIndex s'.1 = appliedIndex s.1.
Proof.
  unfold commitBlock. intros H. apply prog_bind_ok_inv in H as (s1 & [b' config] & H1 & H).
  destruct s as [r e]. unfold env in H1. cbn [fst snd] in H1. destruct (EnqueueWait b e) as [e1 x] eqn:Ew.
  injection H1 as <- ->. apply enqueue_wait in Ew as (Eb & Em & Eh).
  assert (Hk : keeps (setLastCommittedBlock b' ≫= fun _ => match config with
    | None => mret tt
    | Some config => if flag then panic_on_err "Failed to update to ClusterConfig during commitBlock" (updateClusterConfig config) else mret tt
    end)).
  { apply keeps_bind; [apply set_last_committed_keeps|]. intros _. destruct config; [|auto with keeps].
    destruct flag; [|auto with keeps]. apply keeps_panic_on_err, update_cluster_config_keeps. }
  specialize (Hk (r, e1)). rewrite H in Hk. cbn [fst snd] in Hk. destruct Hk as [-> ->]. split; [|done].
  exists b'. split; [done|]. unfold stamp. by rewrite Em, Eh.
Qed.

Lemma commit_entry_ok b x s s' : commitEntry b x s = (s', Ok true) →
  stamp <$> blocks s'.2 = (stamp <$> blocks s.2) ++ [stamp (withMetadata b x)] ∧ appliedIndex s'.1 = appliedIndex s.1.
Proof.
  unfold commitEntry. destruct (commitBlock (withMetadata b x) true s) as [s1 [[]|err|w]] eqn:Ec; intros [= <-].
  apply commit_block_ok in Ec as [(b' & -> & Hs) ->]. by rewrite fmap_app, <- Hs.
Qed.

(** One entry: its block is committed if its index is new. *)
Definition new_stamps (x : Entry) (applied : Z) :=
  if Entry_Index x <=? applied then [] else stamp <$> option_list (entry_block x).

Definition delivers (m : prog (replicator * E) after) (x : Entry) : Prop := ∀ s s' a, m s = (s', Ok a) → a ≠ Return →
  a = Advance ∧ appliedIndex s'.1 = appliedIndex s.1 ∧
  stamp <$> blocks s'.2 = (stamp <$> blocks s.2) ++ new_stamps x (appliedIndex s.1).

Lemma deliver_normal x : Entry_Type x = EntryNormal → delivers (deliverNormal x) x.
Proof.
  intros Et s s' a. unfold deliverNormal, new_stamps, entry_block. rewrite Et. case_bool_decide as Hd.
  { intros [= <- <-] _. split_and!; [done..|]. destruct (_ <=? _); by rewrite app_nil_r. }
  intros H Hr. apply prog_bind_ok_inv in H as (s1 & [] & [= <-] & H).
  apply prog_bind_ok_inv in H as (s2 & applied & [= <- <-] & H). cbn [fst appliedIndex set_snapshot] in H.
  destruct (Entry_Index x <=? appliedIndex s.1).
  { injection H as <- <-. split_and!; [done..|]. by rewrite app_nil_r. }
  apply prog_bind_ok_inv in H as (s3 & b & [-> Hb]%lift_ok_inv & H).
  destruct (Unmarshal (Entry_Data x)) as [b0|err|w] eqn:Eu; [|done..]. cbn in Hb. injection Hb as ->.
  apply prog_bind_ok_inv in H as (s4 & ok & Hc & [= <- <-]). destruct ok; [|done].
  apply commit_entry_ok in Hc as [-> ->]. done.
Qed.

Lemma deliver_conf_change x : Entry_Type x = EntryConfChange → decodes x → delivers (deliverConfChange x) x.
Proof.
  intros Et Hd s s' a H Hr. unfold deliverConfChange in H. unfold decodes in Hd. rewrite Et in Hd.
  assert (Hn : new_stamps x (appliedIndex s.1) = []).
  { unfold new_stamps, entry_block. rewrite Et. by destruct (_ <=? _). }
  rewrite Hn, app_nil_r. destruct (Unmarshal (Entry_Data x)) as [cc| |] eqn:Eu; [|done..].
  assert (Hk : keeps (env (ApplyConfChange cc) ≫= fun state => upd (fun r => set_conf_state r state) ≫= fun _ =>
    match CC_Type cc with ConfChangeAddNode | ConfChangeRemoveNode => mret Advance
    | _ => panic "Programming error, encountered unsupported raft config change" end)).
  { apply keeps_bind; [apply keeps_env, apply_conf_change|]. intros state. apply keeps_bind; [auto with keeps|].
    intros _. unfold panic. destruct (CC_Type cc); auto with keeps. }
  destruct (Hk s) as [Hb Ha]. rewrite H in Hb, Ha. cbn in Hb, Ha. rewrite Hb. split_and!; [|done..].
  apply prog_bind_ok_inv in H as (s1 & state & _ & H). apply prog_bind_ok_inv in H as (s2 & [] & _ & H).
  by destruct (CC_Type cc); injection H.
Qed.

Lemma deliver_conf_change_v2 x : Entry_Type x = EntryConfChangeV2 → decodes x → delivers (deliverConfChangeV2 x) x.
Proof.
  intros Et Hd s s' a H Hr. unfold deliverConfChangeV2 in H. unfold decodes in Hd. rewrite Et in Hd.
  unfold new_stamps, entry_block. rewrite Et. destruct (Unmarshal (Entry_Data x)) as [cc| |] eqn:Eu; [|done..].
  apply prog_bind_ok_inv in H as (s1 & applied & [= <- <-] & H). apply prog_bind_ok_inv in H as (s2 & ok & Hok & H).
  destruct ok; cbn [negb] in H; [|by injection H as _ <-].
  assert (Hk : keeps (env (ApplyConfChangeV2 cc) ≫= fun state => upd (fun r => set_conf_state r state) ≫= fun _ =>
    look (fun r => r) ≫= fun r => mret (if bool_decide (raftID r ∈ Voters (confState r)) then Advance else Return))).
  { apply keeps_bind; [apply keeps_env, apply_conf_change_v2|]. intros state. apply keeps_bind; [auto with keeps|].
    intros _. apply keeps_bind; auto with keeps. }
  destruct (Hk s2) as [Hb Ha]. rewrite H in Hb, Ha. cbn [fst snd] in Hb, Ha. rewrite Hb, Ha.
  assert (Hadv : a = Advance).
  { apply prog_bind_ok_inv in H as (s3 & state & _ & H). apply prog_bind_ok_inv in H as (s4 & [] & _ & H).
    apply prog_bind_ok_inv in H as (s5 & r & _ & H). injection H as _ <-. by case_bool_decide. }
  split; [done|]. destruct (Context cc) as [context|].
  - destruct (Entry_Index x <=? appliedIndex s.1); [injection Hok as <-; by rewrite app_nil_r|].
    apply prog_bind_ok_inv in Hok as (s3 & b & [-> Hb']%lift_ok_inv & Hok).
    destruct (Unmarshal context) as [b0| |] eqn:Ec; [|done..]. cbn in Hb'. injection Hb' as ->.
    by apply commit_entry_ok in Hok as [-> ->].
  - injection Hok as <-. split; [done|]. destruct (_ <=? _); by rewrite app_nil_r.
Qed.

(** A segment of the log. *)
Definition indexed (i : nat) (entries : list Entry) : Prop :=
  ∀ k x, entries !! k = Some x → Entry_Index x = Z.of_nat (i + k + 1) ∧ decodes x.

Lemma indexed_cons i x l : indexed i (x :: l) → Entry_Index x = Z.of_nat (i + 1) ∧ decodes x ∧ indexed (S i) l.
Proof.
  intros H. destruct (H 0%nat x eq_refl) as [Ei ?]. rewrite Nat.add_0_r in Ei. split_and!; [done..|].
  intros k y Hk. destruct (H (S k) y Hk) as [-> ?]. split; [lia|done].
Qed.

(** The entries of a segment after the applied index. *)
Definition news (i : nat) (applied : Z) (l : list Entry) : list Entry := drop (Z.to_nat applied - i) l.

Lemma news_cons i applied x l : Entry_Index x = Z.of_nat (i + 1) → 0 ≤ applied → Z.of_nat i ≤ applied →
  log_stamps (news i applied (x :: l)) =
  new_stamps x applied ++ log_stamps (news (S i) (Z.max applied (Entry_Index x)) l).
Proof.
  intros Ex H0 Hi. unfold news, new_stamps, log_stamps. destruct (Entry_Index x <=? applied) eqn:Ele.
  - apply Z.leb_le in Ele. rewrite Z.max_l by lia.
    replace (Z.to_nat applied - i)%nat with (S (Z.to_nat applied - S i)) by lia. done.
  - apply Z.leb_gt in Ele. rewrite Z.max_r by lia. rewrite Ex.
    replace (Z.to_nat applied - i)%nat with 0%nat by lia. replace (Z.to_nat (Z.of_nat (i + 1)) - S i)%nat with 0%nat by lia.
    rewrite !drop_0. cbn. by destruct (entry_block x).
Qed.

Lemma deliver_loop i j l pos s s' p : indexed i l → 0 ≤ appliedIndex s.1 → Z.of_nat i ≤ appliedIndex s.1 →
  deliverLoop j l pos s = (s', Ok (Some p)) →
  appliedIndex s'.1 = Z.max (appliedIndex s.1) (Z.of_nat (i + length l)) ∧
  stamp <$> blocks s'.2 = (stamp <$> blocks s.2) ++ log_stamps (news i (appliedIndex s.1) l).
Proof.
  revert i j pos s. induction l as [|x l IH]; intros i j pos s Hx H0 Hi H; cbn [deliverLoop] in H.
  { injection H as <- _. unfold news. rewrite drop_nil. cbn. rewrite app_nil_r. split; [lia|done]. }
  apply indexed_cons in Hx as (Ex & Hd & Hl). apply prog_bind_ok_inv in H as (s1 & a & Ha & H).
  assert (Hone : delivers (match Entry_Type x with EntryNormal => deliverNormal x | EntryConfChange => deliverConfChange x
    | EntryConfChangeV2 => deliverConfChangeV2 x end) x).
  { destruct (Entry_Type x) eqn:Et; [by apply deliver_normal|by apply deliver_conf_change|by apply deliver_conf_change_v2]. }
  destruct (Hone s s1 a Ha) as (-> & Ea & Eb); [by intros ->|].
  apply prog_bind_ok_inv in H as (s2 & [] & [= <-] & H).
  assert (Emax : appliedIndex (if appliedIndex s1.1 <? Entry_Index x then set_applied s1.1 (Entry_Index x) else s1.1) =
    Z.max (appliedIndex s.1) (Entry_Index x)).
  { rewrite Ea. destruct (Z.ltb_spec (appliedIndex s.1) (Entry_Index x)); cbn; lia. }
  apply (IH (S i)) in H; cbn [fst snd] in *; [|done|rewrite Emax; lia|rewrite Emax, Ex; lia].
  destruct H as [-> ->]. rewrite Emax, Eb, (news_cons i (appliedIndex s.1) x l Ex H0 Hi), app_assoc, Ex. cbn [length].
  split; [lia|done].
Qed.

Lemma snapshot_keeps l p : keeps (takeSnapshotIfNeeded l p).
Proof.
  unfold takeSnapshotIfNeeded. apply keeps_bind; [auto with keeps|]. intros r. destruct (_ >=? _); [|auto with keeps].
  do 2 (apply keeps_bind; [auto with keeps|intros]). case_match; [|auto with keeps]. destruct p0 as [d b].
  apply keeps_bind; [|auto with keeps]. apply keeps_panic_on_err, keeps_env. apply take_snapshot.
Qed.

(** The ledger holds the blocks of the log up to the applied index, after the blocks it had
    when the log began. *)
Definition in_step (base : list (option ConsensusMetadata * BlockHeaderBase)) (log : list Entry) s : Prop :=
  0 ≤ appliedIndex s.1 ≤ Z.of_nat (length log) ∧
  stamp <$> blocks s.2 = base ++ log_stamps (take (Z.to_nat (appliedIndex s.1)) log).

Lemma log_stamps_app l k : log_stamps (l ++ k) = log_stamps l ++ log_stamps k.
Proof. unfold log_stamps. by rewrite omap_app, fmap_app. Qed.

Lemma take_segment {A} (l : list A) a i n : (i ≤ a ≤ length l)%nat →
  take a l ++ drop (a - i) (take n (drop i l)) = take (a `max` (i + length (take n (drop i l)))) l.
Proof.
  intros Ha. rewrite length_take, length_drop. destruct (decide (i + n `min` (length l - i) ≤ a)%nat) as [Hle|Hgt].
  - rewrite Nat.max_l by lia. rewrite drop_ge; [by rewrite app_nil_r|]. rewrite length_take, length_drop. lia.
  - rewrite Nat.max_r by lia. rewrite skipn_firstn_comm, drop_drop. replace (i + (a - i))%nat with a by lia.
    rewrite <- (firstn_skipn a (take (i + n `min` (length l - i)) l)). rewrite firstn_firstn. f_equal; [f_equal; lia|].
    rewrite skipn_firstn_comm. destruct (decide (n ≤ length l - i)%nat).
    + f_equal. lia.
    + rewrite !take_ge; [done|rewrite length_drop; lia..].
Qed.

Lemma deliver_in_step base log i n s s' : indexed 0 log → Z.of_nat (length log) + 1 < 2 ^ 64 → in_step base log s →
  deliverEntries (take n (drop i log)) s = (s', Ok true) →
  in_step base log s' ∧ appliedIndex s.1 ≤ appliedIndex s'.1 ∧
  ∀ x, x ∈ take n (drop i log) → Entry_Index x ≤ appliedIndex s'.1.
Proof.
  intros Hlog Hlen [Ha Hb] H.
  assert (Hseg : indexed i (take n (drop i log))).
  { intros k x Hk. apply lookup_take_Some in Hk as [Hk Hn]. rewrite lookup_drop in Hk. destruct (Hlog _ _ Hk) as [-> ?]. split; [lia|done]. }
  pose proof (take_segment log (Z.to_nat (appliedIndex s.1)) i n) as Htake.
  assert (Hl : (length (take n (drop i log)) ≤ length log - i)%nat) by (rewrite length_take, length_drop; lia).
  destruct (take n (drop i log)) as [|x l] eqn:El; [injection H as <-; split_and!; [done|lia|intros x Hx; by inversion Hx]|].
  unfold deliverEntries in H. apply prog_bind_ok_inv in H as (s1 & a & [= <- <-] & H).
  destruct (Entry_Index x >? u64 (appliedIndex s.1 + 1)) eqn:Eg; [done|]. rewrite Z.gtb_ltb in Eg. apply Z.ltb_ge in Eg.
  unfold u64 in Eg. rewrite Z.mod_small in Eg by lia. destruct (indexed_cons _ _ _ Hseg) as (Ex & _).
  apply prog_bind_ok_inv in H as (s1 & p & Hd & H). destruct p as [p|]; [|done].
  apply (deliver_loop i) in Hd as [Ea Eb]; [|done|lia..]. apply prog_bind_ok_inv in H as (s2 & [] & Hs & [= <-]).
  destruct (snapshot_keeps (x :: l) p s1) as [Kb Ka]. rewrite Hs in Kb, Ka. cbn [fst snd] in Kb, Ka.
  split_and!.
  - split; [rewrite Ka, Ea; lia|]. rewrite Kb, Eb, Hb, <- app_assoc, Ka, Ea. f_equal. unfold news. rewrite <- log_stamps_app. f_equal.
    rewrite Htake by lia. f_equal. lia.
  - rewrite Ka, Ea. lia.
  - intros y [k Hk]%list_elem_of_lookup_1. destruct (Hseg k y Hk) as [-> _]. apply lookup_lt_Some in Hk. rewrite Ka, Ea. lia.
Qed.

(** ** Stops and restarts *)

(** A call that leaves the ledger as it is, or adds a block with this stamp. *)
Definition at_most {A} (m : prog (replicator * E) A) (l : list (option ConsensusMetadata * BlockHeaderBase)) : Prop :=
  ∀ s, stamp <$> blocks (m s).1.2 = stamp <$> blocks s.2 ∨ stamp <$> blocks (m s).1.2 = (stamp <$> blocks s.2) ++ l.

Lemma keeps_at_most {A} (m : prog (replicator * E) A) l : keeps m → at_most m l.
Proof. intros Hm s. left. by destruct (Hm s) as [-> _]. Qed.

Lemma at_most_after {A B} (m : prog (replicator * E) A) (f : A → prog (replicator * E) B) l :
  at_most m l → (∀ a, keeps (f a)) → at_most (m ≫= f) l.
Proof.
  intros Hm Hf s. specialize (Hm s). unfold mbind, prog_bind. destruct (m s) as [s1 [a|err|w]]; [|done..].
  by destruct (Hf a s1) as [-> _].
Qed.

Lemma at_most_before {A B} (m : prog (replicator * E) A) (f : A → prog (replicator * E) B) l :
  keeps m → (∀ a, at_most (f a) l) → at_most (m ≫= f) l.
Proof.
  intros Hm Hf s. specialize (Hm s). unfold mbind, prog_bind. destruct (m s) as [s1 [a|err|w]]; cbn [fst snd] in *.
  - destruct Hm as [<- _]. apply Hf.
  - left. by destruct Hm as [-> _].
  - left. by destruct Hm as [-> _].
Qed.

Lemma commit_entry_at_most b x : at_most (commitEntry b x) [stamp (withMetadata b x)].
Proof.
  assert (H : at_most (commitBlock (withMetadata b x) true) [stamp (withMetadata b x)]).
  { apply at_most_after.
    - intros [r e]. unfold env. cbn [fst snd]. destruct (EnqueueWait (withMetadata b x) e) as [e' y] eqn:Ew. cbn [fst snd].
      destruct (is_ok y) eqn:Ey.
      + destruct y as [[b' config]| |]; [|done..]. apply enqueue_wait in Ew as (-> & Em & Eh). right. rewrite fmap_app. cbn.
        unfold stamp at 2. by rewrite Em, Eh.
      + apply enqueue_wait_fails in Ew as [->|(b' & -> & Em & Eh)]; [by left| |done]. right. rewrite fmap_app. cbn.
        unfold stamp at 2. by rewrite Em, Eh.
    - intros [b' config]. apply keeps_bind; [apply set_last_committed_keeps|]. intros _. destruct config; [|auto with keeps].
      apply keeps_panic_on_err, update_cluster_config_keeps. }
  intros s. specialize (H s). unfold commitEntry. by destruct (commitBlock (withMetadata b x) true s) as [s1 []].
Qed.

Lemma deliver_one_at_most x s : stamp <$> blocks (match Entry_Type x with EntryNormal => deliverNormal x
    | EntryConfChange => deliverConfChange x | EntryConfChangeV2 => deliverConfChangeV2 x end s).1.2 = stamp <$> blocks s.2 ∨
  stamp <$> blocks (match Entry_Type x with EntryNormal => deliverNormal x
    | EntryConfChange => deliverConfChange x | EntryConfChangeV2 => deliverConfChangeV2 x end s).1.2 =
  (stamp <$> blocks s.2) ++ new_stamps x (appliedIndex s.1).
Proof.
  assert (Hp : ∀ A w, keeps (@panic E A w)) by done.
  unfold new_stamps, entry_block. destruct (Entry_Type x) eqn:Et.
  - unfold deliverNormal. case_bool_decide as Hd; [by left|].
    unfold mbind, prog_bind. cbn [upd modify look gets fst snd set_snapshot appliedIndex].
    destruct (Entry_Index x <=? appliedIndex s.1); [by left|].
    destruct (Unmarshal (Entry_Data x)) as [b| |]; [|by left..]. cbn [lift or_panic].
    match goal with |- context [commitEntry b x ?s1] => pose proof (commit_entry_at_most b x s1) as Hc;
      destruct (commitEntry b x s1) as [s2 []]; exact Hc end.
  - left. unfold deliverConfChange. destruct (Unmarshal (Entry_Data x)) as [cc| |]; [|done..].
    refine (f_equal _ (proj1 (_ s))). apply keeps_bind; [apply keeps_env, apply_conf_change|]. intros state.
    apply keeps_bind; [auto with keeps|]. intros _. destruct (CC_Type cc); auto with keeps.
  - unfold deliverConfChangeV2. destruct (Unmarshal (Entry_Data x)) as [cc| |]; [|by left..].
    assert (Hk : ∀ ok : bool, keeps (if negb ok then mret Return else
      env (ApplyConfChangeV2 cc) ≫= fun state => upd (fun r => set_conf_state r state) ≫= fun _ =>
      look (fun r => r) ≫= fun r => mret (if bool_decide (raftID r ∈ Voters (confState r)) then Advance else Return))).
    { intros []; [|apply keeps_ret]. apply keeps_bind; [apply keeps_env, apply_conf_change_v2|]. intros state.
      apply keeps_bind; [auto with keeps|]. intros _. apply keeps_bind; auto with keeps. }
    rewrite (bind_step (look appliedIndex) _ s s (appliedIndex s.1) eq_refl).
    destruct (Context cc) as [context|]; [|left; exact (f_equal _ (proj1 (Hk true s)))].
    destruct (Entry_Index x <=? appliedIndex s.1); [left; exact (f_equal _ (proj1 (Hk true s)))|].
    destruct (Unmarshal context) as [b| |]; [|by left..].
    exact (at_most_after (commitEntry b x) _ [stamp (withMetadata b x)] (commit_entry_at_most b x) Hk s).
Qed.

(** The ledger holds the blocks of a part of the log. *)
Definition ledger_ok (base : list (option ConsensusMetadata * BlockHeaderBase)) (log : list Entry) (e : E) : Prop :=
  ∃ a, (a ≤ length log)%nat ∧ stamp <$> blocks e = base ++ log_stamps (take a log).

Lemma take_next {A} (l : list A) i x : l !! i = Some x → take (S i) l = take i l ++ [x].
Proof. apply take_S_r. Qed.

Lemma deliver_loop_partial base log i j n pos s : indexed 0 log → in_step base log s → Z.of_nat i ≤ appliedIndex s.1 →
  ledger_ok base log (deliverLoop j (take n (drop i log)) pos s).1.2.
Proof.
  intros Hlog. revert i j pos s. induction n as [|n IH]; intros i j pos s Hs Hi.
  { destruct Hs as [Ha Hb]. exists (Z.to_nat (appliedIndex s.1)). cbn. split; [lia|done]. }
  pose proof Hs as [Ha Hb].
  assert (Hsame : ledger_ok base log s.2) by (exists (Z.to_nat (appliedIndex s.1)); split; [lia|done]).
  destruct (drop i log) as [|x l] eqn:Ed; [done|]. cbn [take deliverLoop].
  assert (Hx : log !! i = Some x) by (rewrite <- (Nat.add_0_r i), <- lookup_drop, Ed; done).
  assert (El : l = drop (S i) log) by (rewrite <- Nat.add_1_r, <- drop_drop, Ed; done).
  destruct (Hlog _ _ Hx) as [Ex Hdec]. pose proof (lookup_lt_Some _ _ _ Hx) as Hlt.
  pose proof (deliver_one_at_most x s) as Hone.
  set (m := match Entry_Type x with EntryNormal => deliverNormal x | EntryConfChange => deliverConfChange x
    | EntryConfChangeV2 => deliverConfChangeV2 x end) in *.
  assert (Hdel : delivers m x).
  { unfold m. destruct (Entry_Type x) eqn:Et; [by apply deliver_normal|by apply deliver_conf_change|by apply deliver_conf_change_v2]. }
  assert (Hnew : (stamp <$> blocks s.2) ++ new_stamps x (appliedIndex s.1) =
    base ++ log_stamps (take (Z.to_nat (Z.max (appliedIndex s.1) (Entry_Index x))) log)).
  { rewrite Hb, <- app_assoc. f_equal. unfold new_stamps. destruct (Z.leb_spec (Entry_Index x) (appliedIndex s.1)).
    - by rewrite Z.max_l, app_nil_r by lia.
    - assert (appliedIndex s.1 = Z.of_nat i) as -> by lia. rewrite Z.max_r, Ex by lia.
      replace (Z.to_nat (Z.of_nat (0 + i + 1))) with (S i) by lia. rewrite Nat2Z.id, (take_next _ _ _ Hx), log_stamps_app. done. }
  assert (Hpart : ledger_ok base log (m s).1.2).
  { destruct Hone as [E1|E1].
    - destruct Hsame as (a & ? & Hsame). exists a. by rewrite E1.
    - exists (Z.to_nat (Z.max (appliedIndex s.1) (Entry_Index x))). rewrite E1, Hnew. split; [lia|done]. }
  unfold mbind, prog_bind at 1. destruct (m s) as [s1 [[]|err|w]] eqn:Em; try done.
  - destruct (Hdel s s1 Advance Em) as (_ & Ea & Eb); [done|]. cbn [upd modify]. rewrite El. apply IH; cbn [fst snd].
    + assert (Emax : appliedIndex (if appliedIndex s1.1 <? Entry_Index x then set_applied s1.1 (Entry_Index x) else s1.1) =
        Z.max (appliedIndex s.1) (Entry_Index x)).
      { rewrite Ea. destruct (Z.ltb_spec (appliedIndex s.1) (Entry_Index x)); cbn; lia. }
      split; cbn [fst snd]; rewrite Emax; [lia|]. by rewrite Eb, Hnew.
    + rewrite Ea. destruct (Z.ltb_spec (appliedIndex s.1) (Entry_Index x)); cbn [appliedIndex set_applied]; lia.
  - by destruct (Hdel s s1 Skip Em) as (? & _).
Qed.

Lemma deliver_partial base log i n s : indexed 0 log → Z.of_nat (length log) + 1 < 2 ^ 64 → in_step base log s →
  ledger_ok base log (deliverEntries (take n (drop i log)) s).1.2.
Proof.
  intros Hlog Hlen Hs. pose proof Hs as [Ha Hb].
  assert (Hsame : ledger_ok base log s.2) by (exists (Z.to_nat (appliedIndex s.1)); split; [lia|done]).
  destruct (take n (drop i log)) as [|x l] eqn:El; [done|]. unfold deliverEntries, mbind, prog_bind at 1. cbn [look gets].
  destruct (Entry_Index x >? u64 (appliedIndex s.1 + 1)) eqn:Eg; [done|]. rewrite Z.gtb_ltb in Eg. apply Z.ltb_ge in Eg.
  unfold u64 in Eg. rewrite Z.mod_small in Eg by lia.
  assert (Hx : log !! i = Some x).
  { assert (take n (drop i log) !! 0%nat = Some x) as Hk by (by rewrite El). apply lookup_take_Some in Hk as [Hk _].
    by rewrite lookup_drop, Nat.add_0_r in Hk. }
  destruct (Hlog _ _ Hx) as [Ex _]. pose proof (deliver_loop_partial base log i 0 n 0 s Hlog Hs ltac:(lia)) as Hp. rewrite El in Hp.
  unfold prog_bind. destruct (deliverLoop 0 (x :: l) 0 s) as [s1 [[p|]|err|w]]; try done. cbn [fst snd] in Hp.
  pose proof (snapshot_keeps (x :: l) p s1) as [Kb _]. destruct (takeSnapshotIfNeeded (x :: l) p s1) as [s2 []]; cbn in *;
    destruct Hp as (k & ? & Hk); exists k; by rewrite Kb.
Qed.

Lemma entry_block_index x b : entry_block x = Some b → raftIndexOf (Some b) = Entry_Index x.
Proof. unfold entry_block. intros H. repeat case_match; simplify_eq; done. Qed.

(** The last entry with a block. *)
Lemma last_block log a : (a ≤ length log)%nat → log_stamps (take a log) = [] ∨
  ∃ k x b, (k < a)%nat ∧ log !! k = Some x ∧ entry_block x = Some b ∧
    log_stamps (take a log) = log_stamps (take (S k) log) ∧ last (log_stamps (take a log)) = Some (stamp b).
Proof.
  induction a as [|a IH]; intros Ha; [by left|]. destruct (lookup_lt_is_Some_2 log a) as [x Hx]; [lia|].
  rewrite (take_next _ _ _ Hx), log_stamps_app. destruct (entry_block x) as [b|] eqn:Eb.
  - right. exists a, x, b. split_and!; [lia|done..| |].
    + by rewrite (take_next _ _ _ Hx), log_stamps_app.
    + unfold log_stamps at 2. cbn. rewrite Eb. cbn. apply last_snoc.
  - assert (E0 : log_stamps [x] = []) by (unfold log_stamps; cbn; by rewrite Eb). rewrite E0, app_nil_r.
    destruct IH as [?|(k & y & b & ? & ? & ? & ? & ?)]; [lia|by left|]. right. exists k, y, b. split_and!; [lia|done..].
Qed.

(** The ledger that a new replicator starts from. *)
Lemma new_replicator_ok node config join haveWAL e r : NewBlockReplicator node config join haveWAL e = Ok r →
  lastCommittedBlock r = last (blocks e) ∧
  appliedIndex r = (if (1 <? length (blocks e))%nat then raftIndexOf (last (blocks e)) else 0) ∧
  lastProposedBlockNumber r = number_of (last (blocks e)) ∧
  (∀ b, last (blocks e) = Some b → baseHash (Some b) = Ok (lastProposedBlockHeaderBaseHash r)) ∧
  numInFlightBlocks r = 0 ∧ inFlightConfigBlockNumber r = 0 ∧ clusterConfig r = config.
Proof.
  intros H. unfold NewBlockReplicator in H. apply bind_ok_inv in H as (consensus & _ & H).
  apply bind_ok_inv in H as (id & _ & H). apply bind_ok_inv in H as ([num0 state] & _ & H).
  apply bind_ok_inv in H as (rc & _ & H). apply bind_ok_inv in H as (height & Hh & H).
  apply bind_ok_inv in H as ([[lst num] hash] & Hlst & H). apply bind_ok_inv in H as (camp & _ & [= <-]). cbn.
  destruct (LedgerHeight e) as [h| |] eqn:Eh; [|done..]. injection Hh as <-. apply ledger_height in Eh as ->.
  assert (Hl : lst = last (blocks e) ∧ num = number_of (last (blocks e)) ∧
    ∀ b, last (blocks e) = Some b → ComputeBlockBaseHash (Header b) = Ok hash).
  { rewrite Z.gtb_ltb in Hlst. destruct (Z.ltb_spec 0 (Z.of_nat (length (blocks e)))) as [Eg|Eg].
    - apply bind_ok_inv in Hlst as (b & Hb & Hlst). destruct (LedgerGet e _) as [b0| |] eqn:Eg2; [|done..]. injection Hb as ->.
      apply ledger_get in Eg2; [|lia]. apply bind_ok_inv in Hlst as (h & Hh & [= <- <- <-]). cbn in Hh.
      rewrite last_lookup. replace (Nat.pred (length (blocks e))) with (Z.to_nat (Z.of_nat (length (blocks e)) - 1)) by lia.
      rewrite Eg2. split_and!; [done..|]. intros b' [= <-]. by destruct (ComputeBlockBaseHash (Header b)) as [h'| |]; [injection Hh as ->|..].
    - injection Hlst as <- <- <-. destruct (blocks e); [done|cbn in Eg; lia]. }
  destruct Hl as (-> & -> & Hhash). split_and!; try done.
  rewrite Z.gtb_ltb. destruct (Z.ltb_spec 1 (Z.of_nat (length (blocks e)))), (length (blocks e)) as [|[|k]]; try done; lia.
Qed.

Lemma restart_in_step base log node config join haveWAL e r : length base = 1%nat → indexed 0 log → ledger_ok base log e →
  NewBlockReplicator node config join haveWAL e = Ok r → in_step base log (r, e).
Proof.
  intros Hbase Hlog (a & Ha & Hb) (_ & Happ & _)%new_replicator_ok. unfold in_step. cbn [fst snd]. rewrite Happ, Hb.
  assert (Hlen : length (blocks e) = S (length (log_stamps (take a log)))).
  { rewrite <- (length_fmap stamp), Hb, length_app. lia. }
  rewrite Hlen. destruct (last_block log a Ha) as [E0|(k & x & b & Hk & Hx & Hbl & Etake & Elast)].
  - rewrite E0. cbn. split; [lia|done].
  - destruct (log_stamps (take a log)) as [|st l] eqn:El; [done|]. cbn [length Nat.ltb Nat.leb].
    assert (Hlast : ∃ b', last (blocks e) = Some b' ∧ stamp b' = stamp b).
    { assert (last (stamp <$> blocks e) = Some (stamp b)) as Hl by (by rewrite Hb, last_app, Elast).
      rewrite fmap_last in Hl. destruct (last (blocks e)) as [b'|]; [|done]. exists b'. split; [done|]. cbn in Hl. congruence. }
    destruct Hlast as (b' & -> & Est). assert (Ei : raftIndexOf (Some b') = Entry_Index x).
    { rewrite <- (entry_block_index x b Hbl). unfold raftIndexOf. cbn. by injection Est as -> _. }
    rewrite Ei. destruct (Hlog _ _ Hx) as [-> _]. replace (Z.to_nat (Z.of_nat (0 + k + 1))) with (S k) by lia.
    rewrite <- Etake. split; [lia|done].
Qed.

(** The life of a node: it starts, delivers segments of the log in any way that does not leave
    a gap, and stops at any point. *)
Inductive life (base : list (option ConsensusMetadata * BlockHeaderBase)) (log : list Entry) : option replicator → E → Prop :=
  | life_begins e : stamp <$> blocks e = base → life base log None e
  | life_starts e node config join haveWAL r : life base log None e →
    NewBlockReplicator node config join haveWAL e = Ok r → life base log (Some r) e
  | life_delivers r e i n r' e' : life base log (Some r) e →
    deliverEntries (take n (drop i log)) (r, e) = ((r', e'), Ok true) → life base log (Some r') e'
  | life_stops r e i n s x : life base log (Some r) e →
    deliverEntries (take n (drop i log)) (r, e) = (s, x) → life base log None s.2
  (** Whatever else happens leaves the ledger as it is. *)
  | life_goes_on o e e' : life base log o e → blocks e' = blocks e → life base log o e'.

Lemma life_in_step base log o e : length base = 1%nat → indexed 0 log → Z.of_nat (length log) + 1 < 2 ^ 64 →
  life base log o e → ledger_ok base log e ∧ ∀ r, o = Some r → in_step base log (r, e).
Proof.
  intros Hbase Hlog Hlen. induction 1 as [e He|e node config join haveWAL r _ [IH _] Hn|r e i n r' e' _ [_ IH] Hd
    |r e i n s x _ [_ IH] Hd|r e e' _ [IH1 IH2] Hb].
  - split; [|done]. exists 0%nat. rewrite app_nil_r. split; [lia|done].
  - split; [done|]. intros r' [= <-]. by eapply restart_in_step.
  - destruct (deliver_in_step base log i n (r, e) (r', e') Hlog Hlen (IH r eq_refl) Hd) as (Hs & _). split; [|by intros ? [= <-]].
    destruct Hs as [Ha Hs]. exists (Z.to_nat (appliedIndex r')). cbn in *. split; [lia|done].
  - split; [|done]. pose proof (deliver_partial base log i n (r, e) Hlog Hlen (IH r eq_refl)) as Hp. by rewrite Hd in Hp.
  - unfold ledger_ok, in_step in *. cbn [fst snd] in *. by rewrite Hb.
Qed.

(** C4: every block of the Raft log is committed once and in the order of the log,
    whichever segments of the log are delivered again, and wherever the node stops and
    restarts in between: the ledger is always the genesis block followed by the blocks of a
    prefix of the log. *)
Theorem log_committed_once base log o e : length base = 1%nat → indexed 0 log → Z.of_nat (length log) + 1 < 2 ^ 64 →
  life base log o e →
  ∃ a, (a ≤ length log)%nat ∧ stamp <$> blocks e = base ++ (stamp <$> omap entry_block (take a log)).
Proof. intros Hbase Hlog Hlen Hl. exact (proj1 (life_in_step base log o e Hbase Hlog Hlen Hl)). Qed.

End Delivery.
