(* ===== verification/ReplicatorLoops.v ===== *)
(** * The two loops of a leader

    [runProposeLoop] and [runRaftEventLoop] of [internal/replication/blockreplicator.go] run
    side by side and share the state of the replicator under a lock.  Here each step is what
    one of them does between two places where the other may run; the steps are the
    operations of the replicator. *)

From S2P Require Import Prelude Types ReConfig BlockEncoding BlockStore Queue Pipeline Replicator ReplicatorProofs.
Open Scope Z_scope.

(** Where the propose loop is. *)
Inductive propose_pc :=
  | Idle
  | Checked (block : Block) (addedPeers removedPeers : list PeerConfig)
  | Prepared (block : Block) (blockBytes : bytes) (addedPeers removedPeers : list PeerConfig)
  | Proposed (block : Block)
  | Waiting.

(** Where the event loop is: between blocks, or before the new configuration is taken over. *)
Inductive event_pc :=
  | Between
  | Updating (config : ClusterConfig).

(** The replicator and its surroundings, the loops, and the blocks that were proposed: those
    that are committed and those that are not. *)
Record loops (E : Type) := mkLoops {
  shared : replicator;
  around : E;
  proposer : propose_pc;
  events : event_pc;
  finished : list Block;
  pending : list Block;
}.
Arguments mkLoops {E}.
Arguments shared {E}.
Arguments around {E}.
Arguments proposer {E}.
Arguments events {E}.
Arguments finished {E}.
Arguments pending {E}.

Definition bounded_config (M : Z) (c : ClusterConfig) : Prop :=
  ∀ cc rc, Consensus c = Some cc → CC_RaftConfig cc = Some rc → MaxInflightBlocks rc ≤ M.

(** The last block of a sequence that follows a block. *)
Definition last_of (base : Block) (l : list Block) : Block := default base (last l).

Section Loops.
Context {E : Type} `{!RaftEnv E, !Codec Block, !Codec BlockHeader, !Codec BlockHeaderBase} {mr : MapRange}.
Implicit Types (r : replicator) (e : E).

(** The proposal of a prepared block. *)
Definition raftProposal (blockBytes : bytes) (addedPeers removedPeers : list PeerConfig) (cancelled : bool) : prog E unit :=
  if bool_decide (length addedPeers + length removedPeers = 0)%nat then RaftPropose cancelled blockBytes
  else RaftProposeConfChange cancelled (membershipChange addedPeers removedPeers blockBytes).

(** A leader that is ready, with no block in flight. *)
Definition ready_leader (base : Block) r : Prop :=
  isLeaderReady r = None ∧ numInFlightBlocks r = 0 ∧ inFlightConfigBlockNumber r = 0 ∧
  lastCommittedBlock r = Some base ∧ lastProposedBlockNumber r = block_number base ∧
  baseHash (Some base) = Ok (lastProposedBlockHeaderBaseHash r).

(** A step of one of the loops.  Raft keeps every proposal and commits them in their order;
    [M] bounds the number of blocks in flight that configurations allow. *)
Inductive loop_step (M : Z) : loops E → loops E → Prop :=
  (** the propose loop takes a block from its channel *)
  | step_checks r e ev f p b r' e' change :
    checkConfigBlock b (r, e) = ((r', e'), Ok change) →
    loop_step M (mkLoops r e Idle ev f p)
      (mkLoops r' e' (match change with Some (a, d) => Checked b a d | None => Idle end) ev f p)
  | step_prepares r e ev f p b a d r' e' prepared :
    prepareProposal b (r, e) = ((r', e'), Ok prepared) →
    loop_step M (mkLoops r e (Checked b a d) ev f p)
      (mkLoops r' e' (match prepared with Some (b, bs) => Prepared b bs a d | None => Idle end) ev f p)
  | step_submits r e ev f p b bs a d r' e' submitted :
    submitProposal b (raftProposal bs a d) (r, e) = ((r', e'), Ok submitted) →
    loop_step M (mkLoops r e (Prepared b bs a d) ev f p)
      (mkLoops r' e' (match submitted with Some b => Proposed b | None => Idle end) ev f
         (match submitted with Some b => p ++ [b] | None => p end))
  | step_records r e ev f p b r' e' :
    updateLastProposal b (r, e) = ((r', e'), Ok tt) →
    loop_step M (mkLoops r e (Proposed b) ev f p) (mkLoops r' e' Waiting ev f p)
  | step_wakes r e ev f p :
    mustWait r = Ok false →
    loop_step M (mkLoops r e Waiting ev f p) (mkLoops r e Idle ev f p)
  (** the event loop commits the next block *)
  | step_commits r e pc f b p x e1 b' config r' e' :
    EnqueueWait (withMetadata b x) e = (e1, Ok (b', config)) →
    setLastCommittedBlock b' (r, e1) = ((r', e'), Ok tt) →
    loop_step M (mkLoops r e pc Between f (b :: p))
      (mkLoops r' e' pc (match config with Some c => Updating c | None => Between end) (f ++ [b]) p)
  | step_updates r e pc c f p r' e' : bounded_config M c →
    updateClusterConfig c (r, e) = ((r', e'), Ok tt) →
    loop_step M (mkLoops r e pc (Updating c) f p) (mkLoops r' e' pc Between f p)
  (** anything else that happens around the replicator *)
  | step_around r e pc ev f p e' : loop_step M (mkLoops r e pc ev f p) (mkLoops r e' pc ev f p).

(** A term of this leader. *)
Inductive term (base : Block) (M : Z) : loops E → Prop :=
  | term_begins r e : ready_leader base r → bounded_config M (clusterConfig r) →
    term base M (mkLoops r e Idle Between [] [])
  | term_next l l' : term base M l → loop_step M l l' → term base M l'.

(** ** The operations, in a term *)

Lemma release_keeps b err r e s x : releasePendingTXs b err (r, e) = (s, x) → s.1 = r.
Proof.
  unfold releasePendingTXs. destruct (BlockPayloadToTxIDs _) as [ids|?|?]; cbn; [|by intros [= <- <-]..].
  unfold env. cbn. destruct (ReleaseTxs ids err e). by intros [= <- <-].
Qed.

Lemma refused_keeps {A} (y : A) b err r e s x : (releasePendingTXs b err;; mret y) (r, e) = (s, x) → s.1 = r.
Proof.
  unfold mbind, prog_bind. destruct (releasePendingTXs b err (r, e)) as [s1 x1] eqn:Er. apply release_keeps in Er.
  destruct x1; cbn; by intros [= <- _].
Qed.

Lemma check_keeps b r e s x : checkConfigBlock b (r, e) = (s, x) → s.1 = r.
Proof.
  unfold checkConfigBlock. destruct (Payload b) as [[]|]; try (by intros [= <- <-]). cbn [fst snd].
  destruct (ValidateConfigTx e _) as [v|err|w]; [|apply refused_keeps|by intros [= <- <-]].
  case_bool_decide; [apply refused_keeps|]. destruct (NewConfig _) as [c|]; [|by intros [= <- <-]].
  destruct (ClassifyClusterReConfig _ _) as [[[? cons] ?] ?]. destruct cons; [|by intros [= <- <-]].
  destruct (deref _ ≫= _) as [[[a d] ?]|err|w]; [by intros [= <- <-]|apply refused_keeps|by intros [= <- <-]].
Qed.

Lemma submit_keeps b propose r e s x : submitProposal b propose (r, e) = (s, x) → s.1 = r.
Proof.
  unfold submitProposal, env. cbn. destruct (propose _ e) as [e1 [[]|err|w]]; [by intros [= <- <-]|apply refused_keeps|by intros [= <- <-]].
Qed.

Lemma submit_same b propose r e s b' : submitProposal b propose (r, e) = (s, Ok (Some b')) → b' = b.
Proof.
  unfold submitProposal, env. cbn. destruct (propose _ e) as [e1 [[]|err|w]]; [by intros [= _ <-]| |done].
  unfold mbind, prog_bind. by destruct (releasePendingTXs _ _ _) as [? []].
Qed.

Lemma update_cluster_config_ok c r e s : updateClusterConfig c (r, e) = (s, Ok tt) → s.1 = set_cluster r c.
Proof.
  unfold updateClusterConfig. intros H. apply prog_bind_ok_inv in H as (s1 & r0 & [= <- <-] & H).
  apply prog_bind_ok_inv in H as (s1 & c1 & [-> _]%lift_ok_inv & H).
  apply prog_bind_ok_inv in H as (s1 & c2 & [-> _]%lift_ok_inv & H).
  apply prog_bind_ok_inv in H as (s1 & [[? ?] ?] & [-> _]%lift_ok_inv & H).
  apply prog_bind_ok_inv in H as (s1 & [] & H1 & [= <-]). unfold wrap_prog, env in H1. cbn in H1.
  destruct (UpdatePeers _ _ _ _ e). by injection H1 as <- _.
Qed.

Lemma ready_is_leader r : isLeaderReady r = None → isLeader r = None.
Proof. unfold isLeaderReady, isLeader. by destruct (_ =? _). Qed.

Lemma prepare_ok b r e r' e' prepared : isLeaderReady r = None → prepareProposal b (r, e) = ((r', e'), Ok prepared) →
  ∃ b' bs, prepared = Some (b', bs) ∧ r' = set_cancelled r false ∧
    block_number b' = u64 (lastProposedBlockNumber r + 1) ∧
    PreviousBaseHeaderHash (BaseHeader (Header b')) = lastProposedBlockHeaderBaseHash r.
Proof.
  intros Hl. unfold prepareProposal. intros H. apply prog_bind_ok_inv in H as (s1 & r0 & [= <- <-] & H).
  cbn [fst] in H. rewrite Hl in H. apply prog_bind_ok_inv in H as (s1 & b' & H1 & H).
  apply prog_bind_ok_inv in H as (s2 & bs & [-> _]%lift_ok_inv & H).
  apply prog_bind_ok_inv in H as (s2 & [] & [= <-] & [= <- <- <-]).
  unfold insertBlockBaseHeader in H1. apply prog_bind_ok_inv in H1 as (s2 & r0 & [= <- <-] & H1).
  apply prog_bind_ok_inv in H1 as (s3 & base & H2 & [= <- <-]). cbn [fst] in *.
  exists (mkBlock (mkBlockHeader base [] [] [] []) (Payload b) (Block_ConsensusMetadata b)), bs.
  destruct (_ >? _) in H2.
  - apply prog_bind_ok_inv in H2 as (s4 & h & [-> _]%lift_ok_inv & [= <- <-]). done.
  - by injection H2 as <- <-.
Qed.

Lemma record_ok b r e r' e' : isLeaderReady r = None → updateLastProposal b (r, e) = ((r', e'), Ok tt) →
  ∃ h, baseHash (Some b) = Ok h ∧
    r' = set_in_flight (set_proposed r (block_number b) h) ((numInFlightBlocks r + 1) mod 2 ^ 32)
           (if IsConfigBlock b then block_number b else inFlightConfigBlockNumber r).
Proof.
  intros Hl. unfold updateLastProposal. intros H. apply prog_bind_ok_inv in H as (s1 & r0 & [= <- <-] & H).
  cbn [fst] in H. rewrite (ready_is_leader r Hl) in H.
  apply prog_bind_ok_inv in H as (s1 & h & [-> Hh]%lift_ok_inv & H). exists h.
  apply prog_bind_ok_inv in H as (s1 & [] & [= <-] & H). apply prog_bind_ok_inv in H as (s1 & [] & [= <-] & H).
  split; [by destruct (baseHash (Some b))|]. destruct (IsConfigBlock b); [destruct (_ >? _) in H; [done|]|]; by injection H as <- <-.
Qed.

Lemma set_committed_ok b r e r' e' : setLastCommittedBlock b (r, e) = ((r', e'), Ok tt) →
  r' = set_in_flight (set_committed r (Some b)) (if numInFlightBlocks r >? 0 then numInFlightBlocks r - 1 else numInFlightBlocks r)
         (if (inFlightConfigBlockNumber r >? 0) && IsConfigBlock b then 0 else inFlightConfigBlockNumber r).
Proof.
  unfold setLastCommittedBlock. intros H. apply prog_bind_ok_inv in H as (s1 & r0 & [= <- <-] & H). cbn [fst] in H.
  apply prog_bind_ok_inv in H as (s1 & [] & [= <-] & H). apply prog_bind_ok_inv in H as (s1 & [] & H1 & H).
  destruct (numInFlightBlocks r >? 0); injection H1 as <-; (destruct (_ && _); [destruct (_ =? _); [|done]|]); injection H as <- <-; done.
Qed.

Lemma update_no_panic b r e h : isLeaderReady r = None → inFlightConfigBlockNumber r = 0 → baseHash (Some b) = Ok h →
  (updateLastProposal b (r, e)).2 = Ok tt.
Proof.
  intros Hl Hz Hh. unfold updateLastProposal, mbind, prog_bind, look, gets. cbn [fst].
  rewrite (ready_is_leader r Hl), Hh, Hz. cbn. by destruct (IsConfigBlock b).
Qed.

Lemma set_committed_no_panic b r e :
  ((inFlightConfigBlockNumber r >? 0) && IsConfigBlock b = true → inFlightConfigBlockNumber r = block_number b) →
  (setLastCommittedBlock b (r, e)).2 = Ok tt.
Proof.
  intros Hz. unfold setLastCommittedBlock, mbind, prog_bind, look, gets, upd, modify. cbn.
  destruct (numInFlightBlocks r >? 0); cbn; (destruct (_ && _); [|done]); by rewrite Hz, Z.eqb_refl.
Qed.

(** ** The invariant of a term *)

(** The header of a block continues the one before it. *)
Definition link (prev b : Block) : Prop :=
  block_number b = block_number prev + 1 ∧ baseHash (Some prev) = Ok (PreviousBaseHeaderHash (BaseHeader (Header b))).

Fixpoint chained (prev : Block) (l : list Block) : Prop :=
  match l with [] => True | b :: l => link prev b ∧ chained b l end.

Definition plain (b : Block) : Prop := IsConfigBlock b = false.

(** The last block that the replicator knows to be proposed. *)
Definition recorded (base : Block) (sent : list Block) r : Prop :=
  lastProposedBlockNumber r = block_number (last_of base sent) ∧
  baseHash (Some (last_of base sent)) = Ok (lastProposedBlockHeaderBaseHash r).

(** Between proposals. *)
Definition at_rest (base : Block) (M : Z) (f p : list Block) r : Prop :=
  recorded base (f ++ p) r ∧ inFlightConfigBlockNumber r = 0 ∧ Forall plain p ∧
  0 ≤ numInFlightBlocks r ≤ M ∧ Z.of_nat (length p) ≤ numInFlightBlocks r.

Definition at_proposer (base : Block) (M : Z) (f p : list Block) r (pc : propose_pc) : Prop :=
  match pc with
  | Idle | Checked _ _ _ => at_rest base M f p r
  | Prepared b _ _ _ => at_rest base M f p r ∧ link (last_of base (f ++ p)) b
  | Proposed b =>
    (∃ acked, f ++ p = acked ++ [b] ∧ recorded base acked r) ∧ inFlightConfigBlockNumber r = 0 ∧
    Forall plain (removelast p) ∧ 0 ≤ numInFlightBlocks r ≤ M ∧ Z.of_nat (length p) ≤ numInFlightBlocks r + 1
  | Waiting =>
    recorded base (f ++ p) r ∧ 0 ≤ numInFlightBlocks r ≤ M + 1 ∧ Z.of_nat (length p) ≤ numInFlightBlocks r ∧
    (inFlightConfigBlockNumber r = 0 ∧ Forall plain p ∨
     Forall plain (removelast p) ∧
     ∃ c, last (f ++ p) = Some c ∧ IsConfigBlock c = true ∧ 0 < block_number c ∧ inFlightConfigBlockNumber r = block_number c)
  end.

Record steady (base : Block) (M : Z) (l : loops E) : Prop := {
  steady_leader : isLeaderReady (shared l) = None;
  steady_config : bounded_config M (clusterConfig (shared l));
  steady_chain : chained base (finished l ++ pending l);
  steady_committed : ∃ c, lastCommittedBlock (shared l) = Some c ∧
    BaseHeader (Header c) = BaseHeader (Header (last_of base (finished l)));
  steady_proposer : at_proposer base M (finished l) (pending l) (shared l) (proposer l);
}.

Lemma last_of_snoc base l b : last_of base (l ++ [b]) = b.
Proof. unfold last_of. by rewrite last_snoc. Qed.

Lemma chained_snoc base l b : chained base (l ++ [b]) ↔ chained base l ∧ link (last_of base l) b.
Proof.
  revert base. induction l as [|b0 l IH]; intros base; cbn; [naive_solver|]. rewrite IH.
  assert (last_of base (b0 :: l) = last_of b0 l) as ->; [|naive_solver].
  destruct l as [|b1 l]; [done|]. unfold last_of. cbn [last]. by destruct (last (b1 :: l)) eqn:El; [|apply last_None in El].
Qed.

Lemma chained_number base l : chained base l → block_number (last_of base l) = block_number base + Z.of_nat (length l).
Proof.
  induction l as [|b l IH] using rev_ind; [cbn; lia|]. rewrite chained_snoc. intros [Hc [Hn _]].
  rewrite last_of_snoc, Hn, IH, length_app; [cbn; lia|done].
Qed.

Lemma removelast_plain p b : Forall plain (removelast p) → (∀ q, p = q ++ [b] → plain b) → p = [] ∨ last p = Some b → Forall plain p.
Proof.
  intros Hp Hb [->|Hl]; [constructor|]. apply last_Some in Hl as [q ->].
  rewrite removelast_last in Hp. apply Forall_app. split; [done|]. constructor; [by eapply Hb|constructor].
Qed.

Lemma removelast_Forall p : Forall plain p → Forall plain (removelast p).
Proof. destruct p as [|b p _] using rev_ind; [done|]. rewrite removelast_last. by intros [? _]%Forall_app. Qed.

Lemma plain_tail b p : Forall plain (removelast (b :: p)) → Forall plain (removelast p) ∧ (p ≠ [] → plain b).
Proof. destruct p as [|b1 p]; [by split; [constructor|]|]. cbn [removelast]. intros H. by inversion H; subst. Qed.

Lemma prepare_links base M f p r b e r' e' prepared : isLeaderReady r = None → chained base (f ++ p) → 0 ≤ block_number base →
  block_number base + Z.of_nat (length (f ++ p)) + 1 < 2 ^ 64 → at_rest base M f p r →
  prepareProposal b (r, e) = ((r', e'), Ok prepared) →
  ∃ b' bs, prepared = Some (b', bs) ∧ r' = set_cancelled r false ∧ link (last_of base (f ++ p)) b'.
Proof.
  intros Hl Hc H0 Hb ([Hn Hh] & _) (b' & bs & -> & -> & Hn' & Hh')%prepare_ok; [|done].
  exists b', bs. do 2 (split; [done|]). split; [|by rewrite Hh'].
  rewrite Hn', Hn, chained_number by done. unfold u64. apply Z.mod_small. lia.
Qed.

Lemma submit_proposes base M f p r b : at_rest base M f p r → at_proposer base M f (p ++ [b]) r (Proposed b).
Proof.
  intros (Hr & Hc & Hp & Hn & Hl). split; [exists (f ++ p); by rewrite (assoc (++))|]. split; [done|].
  rewrite removelast_last, length_app. cbn. split; [done|]. lia.
Qed.

Lemma record_waits base M f p r b h : 0 ≤ block_number base → M + 1 < 2 ^ 32 → chained base (f ++ p) →
  at_proposer base M f p r (Proposed b) → baseHash (Some b) = Ok h →
  at_proposer base M f p (set_in_flight (set_proposed r (block_number b) h) ((numInFlightBlocks r + 1) mod 2 ^ 32)
    (if IsConfigBlock b then block_number b else inFlightConfigBlockNumber r)) Waiting.
Proof.
  intros H0 HM Hc ((acked & Es & _) & Hz & Hp & Hn & Hl) Hh. unfold at_proposer, recorded. cbn.
  rewrite Es in *. rewrite last_of_snoc. rewrite Z.mod_small by lia. split; [done|]. split; [lia|]. split; [lia|].
  pose proof (chained_number _ _ Hc) as Hnum. rewrite last_of_snoc, length_app in Hnum. cbn in Hnum.
  destruct (IsConfigBlock b) eqn:Eb.
  - right. split; [done|]. exists b. rewrite last_snoc. repeat split; [done|lia].
  - left. split; [done|]. apply (removelast_plain p b); [done|done|]. destruct p as [|b1 p _] using rev_ind; [by left|].
    right. rewrite last_snoc. rewrite (assoc (++)) in Es. by apply app_inj_tail in Es as [_ ->].
Qed.

(** A block commits: the counters of the replicator follow. *)
Definition committed_state r (b : Block) : replicator :=
  set_in_flight (set_committed r (Some b)) (if numInFlightBlocks r >? 0 then numInFlightBlocks r - 1 else numInFlightBlocks r)
    (if (inFlightConfigBlockNumber r >? 0) && IsConfigBlock b then 0 else inFlightConfigBlockNumber r).

Lemma commit_counts r (b b' : Block) (p : list Block) k : 0 ≤ k → 0 ≤ numInFlightBlocks r → Z.of_nat (length (b :: p)) ≤ numInFlightBlocks r + k →
  Z.of_nat (length p) ≤ numInFlightBlocks (committed_state r b') + k ∧
  0 ≤ numInFlightBlocks (committed_state r b') ≤ numInFlightBlocks r.
Proof. unfold committed_state. cbn. rewrite Z.gtb_ltb. destruct (Z.ltb_spec 0 (numInFlightBlocks r)); lia. Qed.

Lemma commit_no_config r b : inFlightConfigBlockNumber r = 0 → inFlightConfigBlockNumber (committed_state r b) = 0.
Proof. unfold committed_state. cbn. by intros ->. Qed.

Lemma commit_at_rest base M f b p r b' : at_rest base M f (b :: p) r → at_rest base M (f ++ [b]) p (committed_state r b').
Proof.
  intros (Hr & Hc & Hp & Hn & Hl). unfold at_rest. rewrite <-(assoc (++)). split; [exact Hr|].
  split; [by apply commit_no_config|]. split; [by inversion Hp|].
  destruct (commit_counts r b b' p 0) as [? ?]; lia.
Qed.

(** The config block that commits is the one in flight. *)
Lemma commit_expected base M f b p r pc b' : at_proposer base M f (b :: p) r pc → IsConfigBlock b' = IsConfigBlock b →
  block_number b' = block_number b → (inFlightConfigBlockNumber r >? 0) && IsConfigBlock b' = true →
  inFlightConfigBlockNumber r = block_number b' ∧ p = [] ∧ pc = Waiting.
Proof.
  intros Hp Ec En [Hz%Z.gtb_lt Hb]%andb_prop. rewrite Ec in Hb.
  destruct pc as [| | | |]; [destruct Hp as (? & ? & _); lia|destruct Hp as (? & ? & _); lia
    |destruct Hp as ((? & ? & _) & _); lia|destruct Hp as (? & ? & _); lia|].
  destruct Hp as (_ & _ & _ & [[? _]|(Hpl & c & Hl & _ & _ & ->)]); [lia|].
  apply plain_tail in Hpl as [_ Hpl]. destruct p as [|b1 p]; [|by unfold plain in Hpl; rewrite Hpl in Hb].
  rewrite last_snoc in Hl. injection Hl as ->. by rewrite En.
Qed.

Lemma commit_at_waiting base M f b p r b' : at_proposer base M f (b :: p) r Waiting → IsConfigBlock b' = IsConfigBlock b →
  block_number b' = block_number b → at_proposer base M (f ++ [b]) p (committed_state r b') Waiting.
Proof.
  intros Hp Ec En. pose proof (commit_expected base M f b p r Waiting b' Hp Ec En) as Hx.
  destruct Hp as (Hr & Hn & Hl & Hc). unfold at_proposer. rewrite <-(assoc (++)). split; [exact Hr|].
  destruct (commit_counts r b b' p 0) as [? ?]; [lia..|]. do 2 (split; [lia|]).
  unfold committed_state. cbn. destruct ((inFlightConfigBlockNumber r >? 0) && IsConfigBlock b').
  - destruct Hx as (_ & -> & _); [done|]. by left.
  - destruct Hc as [[Hz Hp]|(Hpl & c & Hc)]; [left; by inversion Hp|]. right. apply plain_tail in Hpl as [Hpl _].
    split; [done|]. exists c. by rewrite <-(assoc (++)).
Qed.

Lemma commit_at_proposer base M f b p r pc b' : at_proposer base M f (b :: p) r pc → IsConfigBlock b' = IsConfigBlock b →
  block_number b' = block_number b → at_proposer base M (f ++ [b]) p (committed_state r b') pc.
Proof.
  intros Hp Ec En. destruct pc as [| | | |].
  - by apply commit_at_rest.
  - by apply commit_at_rest.
  - destruct Hp as [Hp Hl]. split; [by apply commit_at_rest|]. cbn. by rewrite <-(assoc (++)).
  - destruct Hp as ((acked & Hr) & Hc & Hp & Hn & Hl). split; [exists acked; by rewrite <-(assoc (++))|].
    split; [by apply commit_no_config|]. split; [by apply plain_tail in Hp as [? _]|].
    destruct (commit_counts r b b' p 1) as [? ?]; lia.
  - by apply commit_at_waiting.
Qed.

Lemma wake_at_rest base M f p r : at_proposer base M f p r Waiting → bounded_config M (clusterConfig r) → mustWait r = Ok false →
  at_rest base M f p r.
Proof.
  intros (Hr & Hn & Hl & Hc) HM. unfold mustWait, maxInFlight. intros (max & Hm & Hw)%bind_ok_inv.
  apply bind_ok_inv in Hm as (cc & Hcc & (rc & Hrc & [= <-])%bind_ok_inv).
  assert (MaxInflightBlocks rc ≤ M).
  { apply (HM cc rc); [by destruct (Consensus _); simplify_eq/=|by destruct (CC_RaftConfig _); simplify_eq/=]. }
  injection Hw as [Hw1 Hw2]%orb_false_elim. rewrite Z.gtb_ltb in Hw1, Hw2. apply Z.ltb_ge in Hw1, Hw2.
  destruct Hc as [[Hz Hp]|(_ & c & _ & _ & Hz & Hc)]; [|lia]. split; [exact Hr|]. do 2 (split; [done|]). lia.
Qed.

Lemma begin_steady base M r e : 0 ≤ M → ready_leader base r → bounded_config M (clusterConfig r) →
  steady base M (mkLoops r e Idle Between [] []).
Proof.
  intros HM (Hl & Hn & Hz & Hc & Hp & Hh) Hb. split; [done|done|done|by exists base|].
  split; [done|]. split; [done|]. split; [constructor|]. cbn. lia.
Qed.

(** A node that becomes the leader and has applied the whole log begins a term. *)
Lemma elected_is_ready r e base hash : raftID r ≠ 0 → lastKnownLeader r ≠ raftID r → justElectedInFlightBlocks r = false →
  LastIndex e ≤ appliedIndex r → lastCommittedBlock r = Some base → baseHash (Some base) = Ok hash →
  ∀ s, processLeaderChanges (raftID r) (r, e) = (s, Ok tt) → ready_leader base s.1.
Proof.
  intros Hid Hlead Hj Hi Hc Hh s. unfold processLeaderChanges. intros H.
  apply prog_bind_ok_inv in H as (s1 & r0 & [= <- <-] & H). cbn [fst] in H.
  assert (raftID r =? lastKnownLeader r = false) as E1 by (apply Z.eqb_neq; congruence).
  assert (lastKnownLeader r =? raftID r = false) as E2 by (by apply Z.eqb_neq). rewrite E1, E2, Z.eqb_refl in H. cbn [negb orb] in H.
  apply prog_bind_ok_inv in H as (s1 & [] & H1 & H). apply prog_bind_ok_inv in H1 as (s2 & i & [= <- <-] & H1). cbn [snd] in H1.
  rewrite Z.gtb_ltb in H1. destruct (Z.ltb_spec (appliedIndex r) (LastIndex e)); [lia|]. injection H1 as <-.
  apply prog_bind_ok_inv in H as (s1 & [] & H1 & H). apply prog_bind_ok_inv in H1 as (s2 & [] & H1 & [= <-]).
  unfold resetLastProposed in H1. apply prog_bind_ok_inv in H1 as (s3 & last & [= <- <-] & H1). cbn [fst] in H1.
  apply prog_bind_ok_inv in H1 as (s4 & h & [-> Eh]%lift_ok_inv & [= <-]). rewrite Hc, Hh in Eh. injection Eh as <-.
  apply prog_bind_ok_inv in H as (s1 & host & [-> _]%lift_ok_inv & [= <-]). unfold ready_leader, isLeaderReady. cbn.
  by rewrite Z.eqb_refl, Hj, Hc.
Qed.

End Loops.

Section Terms.
Context {E : Type} `{!RaftEnv E, !RaftEnvLaws E, !Codec Block, !Codec BlockHeader, !Codec BlockHeaderBase} {mr : MapRange}.
Implicit Types (r : replicator) (e : E).

(** What the block processor leaves of a block that it was given. *)
Lemma processed_block b x e e1 b' config : EnqueueWait (withMetadata b x) e = (e1, Ok (b', config)) →
  BaseHeader (Header b') = BaseHeader (Header b) ∧ IsConfigBlock b' = IsConfigBlock b ∧ block_number b' = block_number b.
Proof.
  intros H. destruct (enqueue_wait _ _ _ _ _ H) as (_ & _ & Hh). pose proof (enqueue_wait_kind _ _ _ _ _ H) as Hp.
  unfold block_number. by rewrite Hh, Hp.
Qed.

(** The blocks that were proposed only become more. *)
Lemma step_grows M l l' : loop_step M l l' → (length (finished l ++ pending l) ≤ length (finished l' ++ pending l'))%nat.
Proof. destruct 1; cbn; rewrite ?length_app; cbn; repeat case_match; rewrite ?length_app; lia. Qed.

Lemma step_steady base M l l' : 0 ≤ block_number base → M + 1 < 2 ^ 32 →
  block_number base + Z.of_nat (length (finished l ++ pending l)) + 1 < 2 ^ 64 →
  steady base M l → loop_step M l l' → steady base M l'.
Proof.
  intros H0 HM Hlen [Hl Hb Hch Hco Hp]. destruct 1 as [r e ev f p b r' e' change Hs|r e ev f p b a d r' e' prepared Hs
    |r e ev f p b bs a d r' e' submitted Hs|r e ev f p b r' e' Hs|r e ev f p Hs
    |r e pc f b p x e1 b' config r' e' He Hs|r e pc c f p r' e' Hc Hs|r e pc ev f p e']; cbn in *.
  - apply check_keeps in Hs. cbn in Hs. subst r'. by split; destruct change as [[? ?]|].
  - destruct (prepare_links base M f p r b e r' e' prepared) as (b' & bs & -> & -> & Hk); done.
  - apply submit_keeps in Hs as Hr. cbn in Hr. subst r'. destruct Hp as [Hp Hk]. destruct submitted as [b'|]; [|by split].
    apply submit_same in Hs as ->. split; try done; cbn; [|by apply submit_proposes].
    rewrite (assoc (++)). by apply chained_snoc.
  - apply record_ok in Hs as (h & Hh & ->); [|done]. split; try done. by apply record_waits.
  - split; try done. by apply wake_at_rest.
  - apply set_committed_ok in Hs as ->. apply processed_block in He as (Hh & Hc & Hn).
    split; cbn; [done|done|by rewrite <-(assoc (++))| |by apply commit_at_proposer].
    exists b'. split; [done|]. by rewrite Hh, last_snoc.
  - apply update_cluster_config_ok in Hs. cbn in Hs. subst r'. by split.
  - by split.
Qed.

Lemma term_steady base M l : 0 ≤ block_number base → 0 ≤ M → M + 1 < 2 ^ 32 → term base M l →
  block_number base + Z.of_nat (length (finished l ++ pending l)) + 1 < 2 ^ 64 → steady base M l.
Proof.
  intros H0 HM0 HM. induction 1 as [r e Hr Hb|l l' _ IH Hs]; intros Hlen; [by apply begin_steady|].
  pose proof (step_grows _ _ _ Hs). eapply step_steady; [..|exact Hs]; [done..|lia|]. apply IH. lia.
Qed.

(** Nothing wakes the propose loop once the config block it waits for is committed. *)
Lemma waiting_forever M l l' : rtc (loop_step M) l l' →
  proposer l = Waiting → pending l = [] → 0 < inFlightConfigBlockNumber (shared l) →
  proposer l' = Waiting ∧ finished l' = finished l ∧ pending l' = [].
Proof.
  induction 1 as [l|l l1 l2 H1 _ IH]; intros Hw Hp Hi; [done|]. destruct H1; cbn in *; try done.
  - unfold mustWait in H. apply bind_ok_inv in H as (max & _ & Hm). injection Hm as [_ Hm]%orb_false_elim.
    rewrite Z.gtb_ltb in Hm. apply Z.ltb_ge in Hm. lia.
  - apply update_cluster_config_ok in H0. cbn in H0. subst r'. by apply IH.
  - by apply IH.
Qed.

(** ** Theorems *)

(** C16: in a term of a leader, whichever way its two loops interleave, the blocks it
    proposes are numbered consecutively from the last block that was committed before the
    term, and each carries the hash of the base header of its predecessor. *)
Theorem proposals_chained base M l : 0 ≤ block_number base → 0 ≤ M → M + 1 < 2 ^ 32 → term base M l →
  block_number base + Z.of_nat (length (finished l ++ pending l)) + 1 < 2 ^ 64 →
  chained base (finished l ++ pending l) ∧
  ∃ c, lastCommittedBlock (shared l) = Some c ∧ BaseHeader (Header c) = BaseHeader (Header (last_of base (finished l))).
Proof. intros. by destruct (term_steady base M l) as [? ? ? ? _]. Qed.

(** C17: the number of blocks that are proposed and not committed exceeds the bound of the
    configuration by at most one, and no block is proposed after a config block before that
    one is committed. *)
Theorem in_flight_bounded base M l : 0 ≤ block_number base → 0 ≤ M → M + 1 < 2 ^ 32 → term base M l →
  block_number base + Z.of_nat (length (finished l ++ pending l)) + 1 < 2 ^ 64 →
  Z.of_nat (length (pending l)) ≤ M + 1 ∧ 0 ≤ numInFlightBlocks (shared l) ≤ M + 1 ∧
  ∀ q b q', pending l = q ++ b :: q' → IsConfigBlock b = true → q' = [].
Proof.
  intros H0 H1 H2 Ht Hl. destruct (term_steady base M l) as [_ _ _ _ Hp]; try done. clear Ht Hl.
  assert (Forall plain (removelast (pending l)) ∧ 0 ≤ numInFlightBlocks (shared l) ≤ M + 1 ∧
    Z.of_nat (length (pending l)) ≤ M + 1) as (Hpl & Hn & Hlen).
  { destruct (proposer l); unfold at_proposer, at_rest in Hp; repeat split; try lia; try (apply removelast_Forall; naive_solver).
    - apply Hp.
    - destruct Hp as (_ & _ & _ & [[_ ?]|[? _]]); [by apply removelast_Forall|done]. }
  split; [done|]. split; [done|]. intros q b q' Eq Hb. destruct q' as [|b' q' _] using rev_ind; [done|].
  rewrite Eq, app_comm_cons, (assoc (++)), removelast_last, Forall_app, Forall_cons in Hpl.
  destruct Hpl as (_ & Hpl & _). unfold plain in Hpl. congruence.
Qed.

(** C18: the replicator never runs into its own checks on config blocks in flight: a block
    that was proposed is recorded, and a block that was processed is taken for committed,
    without a panic. *)
Theorem config_checks_hold base M l : 0 ≤ block_number base → 0 ≤ M → M + 1 < 2 ^ 32 → term base M l →
  block_number base + Z.of_nat (length (finished l ++ pending l)) + 1 < 2 ^ 64 →
  (∀ b h, proposer l = Proposed b → baseHash (Some b) = Ok h →
     (updateLastProposal b (shared l, around l)).2 = Ok tt) ∧
  (∀ b p x e1 b' config, pending l = b :: p → EnqueueWait (withMetadata b x) (around l) = (e1, Ok (b', config)) →
     (setLastCommittedBlock b' (shared l, e1)).2 = Ok tt).
Proof.
  intros H0 H1 H2 Ht Hl. destruct (term_steady base M l) as [Hr _ _ _ Hp]; try done. split.
  - intros b h Eb Hh. rewrite Eb in Hp. destruct Hp as (_ & Hz & _). by apply update_no_panic with h.
  - intros b p x e1 b' config Eb (Hh & Hc & Hn)%processed_block. rewrite Eb in Hp.
    apply set_committed_no_panic. intros Hz. by eapply commit_expected in Hp as [? _].
Qed.

End Terms.
