(* ===== verification/OnBoarding.v ===== *)
(** * A node joins the cluster

    A node that starts with a join block pulls the blocks up to it from the others
    ([onBoard] of [internal/replication/blockreplicator.go]). *)

From S2P Require Import Prelude Types ReConfig BlockEncoding BlockStore Queue Pipeline Replicator ReplicatorProofs ReplicatorLoops.
Open Scope Z_scope.

Section OnBoarding.
Context {E : Type} `{!RaftEnv E, !RaftEnvLaws E, !Codec Block, !Codec BlockHeader, !Codec BlockHeaderBase} {mr : MapRange}.
Implicit Types (r : replicator) (e : E).

(** The chain of the cluster.  A pull gives some of the blocks it asks for, and the block
    processor takes the next block of the chain. *)
Variable chain : list Block.
Hypothesis chain_numbers : ∀ i b, chain !! i = Some b → block_number b = Z.of_nat i + 1.
Hypothesis pulls : ∀ first last leader e, 1 ≤ first ≤ last → last ≤ Z.of_nat (length chain) →
  ∃ e' k, PullBlocks first last leader e = (e', Ok (take k (drop (Z.to_nat (first - 1)) chain))) ∧
    (1 ≤ k)%nat ∧ first - 1 + Z.of_nat k ≤ last ∧ blocks e' = blocks e.
Hypothesis takes : ∀ e b, chain !! length (blocks e) = Some b → ∃ e' b' config, EnqueueWait b e = (e', Ok (b', config)).

(** The first blocks of the chain are on the ledger, and the replicator knows the last. *)
Record joined_up_to (n : nat) (r : replicator) (e : E) : Prop := {
  joined_ledger : stamp <$> blocks e = stamp <$> take n chain;
  joined_length : (n ≤ length chain)%nat;
  joined_quiet : inFlightConfigBlockNumber r = 0;
  joined_last : match n with
                | O => lastCommittedBlock r = None
                | S i => ∃ c b, lastCommittedBlock r = Some c ∧ chain !! i = Some b ∧ stamp c = stamp b
                end;
}.

Lemma joined_number n r e : joined_up_to n r e → getLastCommittedBlockNumber r = Z.of_nat n.
Proof.
  intros [_ _ _ Hl]. unfold getLastCommittedBlockNumber. destruct n as [|i]; [by rewrite Hl|].
  destruct Hl as (c & b & -> & Hb & [= _ Hs]). cbn. unfold block_number. rewrite Hs. fold (block_number b).
  rewrite (chain_numbers _ _ Hb). lia.
Qed.

Lemma joined_next n r e b : joined_up_to n r e → chain !! n = Some b →
  ∃ r' e', commitBlock b false (r, e) = ((r', e'), Ok tt) ∧ joined_up_to (S n) r' e'.
Proof.
  intros [Hl Hn Hq _] Hb. assert (length (blocks e) = n) as Hlen.
  { apply (f_equal length) in Hl. rewrite !length_fmap, length_take in Hl. lia. }
  destruct (takes e b) as (e1 & b' & config & Hw); [by rewrite Hlen|].
  destruct (enqueue_wait _ _ _ _ _ Hw) as (Hbl & Hm & Hh).
  pose proof (set_committed_no_panic b' r e1) as Hs. specialize (Hs ltac:(by rewrite Hq)).
  destruct (setLastCommittedBlock b' (r, e1)) as [[r' e'] x] eqn:Es. cbn in Hs. subst x.
  pose proof (set_last_committed_keeps b' (r, e1)) as [Hk _]. rewrite Es in Hk. cbn in Hk.
  exists r', e'. split.
  { unfold commitBlock, mbind, prog_bind, env. cbn. rewrite Hw, Es. by destruct config. }
  apply set_committed_ok in Es as ->. split; [| |by cbn; rewrite Hq|].
  - rewrite Hk, Hbl, fmap_app, Hl. rewrite (take_S_r _ _ b), fmap_app by done. cbn. unfold stamp. by rewrite Hm, Hh.
  - apply lookup_lt_Some in Hb. lia.
  - exists b', b. split_and!; [done|done|]. unfold stamp. by rewrite Hm, Hh.
Qed.

Lemma commit_pulled_joins n k r e : joined_up_to n r e → (n + k ≤ length chain)%nat → Z.of_nat (n + k) + 1 < 2 ^ 64 →
  ∃ r' e', commitPulled (take k (drop n chain)) false (Z.of_nat n + 1) (r, e) = ((r', e'), Ok (Z.of_nat (n + k) + 1)) ∧
    joined_up_to (n + k) r' e'.
Proof.
  revert n r e. induction k as [|k IH]; intros n r e Hj Hle Hlt.
  { exists r, e. rewrite Nat.add_0_r. by rewrite take_0. }
  destruct (lookup_lt_is_Some_2 chain n) as [b Hb]; [lia|]. rewrite (drop_S _ b) by done. cbn [take commitPulled].
  destruct (joined_next n r e b Hj Hb) as (r1 & e1 & H1 & Hj1). rewrite (bind_step _ _ _ _ _ H1).
  unfold u64. rewrite Z.mod_small by lia. replace (Z.of_nat n + 1 + 1) with (Z.of_nat (S n) + 1) by lia.
  destruct (IH (S n) r1 e1 Hj1) as (r2 & e2 & H2 & Hj2); [lia|lia|]. exists r2, e2.
  by replace (n + S k)%nat with (S n + k)%nat by lia.
Qed.

Lemma pull_loop_joins fuel n m r e : joined_up_to n r e → (n ≤ m ≤ length chain)%nat → Z.of_nat m + 1 < 2 ^ 64 → (m - n ≤ fuel)%nat →
  ∃ r' e', pullLoop fuel (Z.of_nat n + 1) (Z.of_nat m) false (r, e) = ((r', e'), Ok (Some tt)) ∧ joined_up_to m r' e'.
Proof.
  revert n r e. induction fuel as [|fuel IH]; intros n r e Hj Hnm Hm Hf; cbn [pullLoop].
  { assert (n = m) as -> by lia. destruct (Z.leb_spec (Z.of_nat m + 1) (Z.of_nat m)); [lia|]. by exists r, e. }
  destruct (Z.leb_spec (Z.of_nat n + 1) (Z.of_nat m)) as [Hle|Hle].
  2:{ assert (n = m) as -> by lia. by exists r, e. }
  destruct (pulls (Z.of_nat n + 1) (Z.of_nat m) (GetLeaderID r) e) as (e1 & k & Hp & Hk & Hkm & Hb); [lia|lia|].
  replace (Z.to_nat (Z.of_nat n + 1 - 1)) with n in Hp by lia.
  assert (Hj1 : joined_up_to n r e1) by (destruct Hj; split; [by rewrite Hb|done..]).
  destruct (commit_pulled_joins n k r e1 Hj1) as (r2 & e2 & H2 & Hj2); [lia|lia|].
  destruct (IH (n + k)%nat r2 e2 Hj2) as (r3 & e3 & H3 & Hj3); [lia|lia|lia|]. exists r3, e3. split; [|done].
  unfold mbind, prog_bind, look, gets, env, pull. cbn. rewrite Hp. cbn. by rewrite H2.
Qed.

(** C29: a node that joins the cluster completes its on-boarding: it pulls the blocks it lacks,
    whichever part of a request is answered each time, and then has the blocks of the chain
    up to the join block, in order, and the index of the last one as its applied index. *)
Theorem on_boarding_completes fuel n m r e join : joined_up_to n r e → (n < m ≤ length chain)%nat → Z.of_nat m + 1 < 2 ^ 64 →
  block_number join = Z.of_nat m → (m - n ≤ fuel)%nat →
  ∃ r' e', onBoard fuel join (r, e) = ((r', e'), Ok (Some tt)) ∧ stamp <$> blocks e' = stamp <$> take m chain ∧
    getLastCommittedBlockNumber r' = Z.of_nat m ∧
    ((1 < m)%nat → appliedIndex r' = raftIndexOf (chain !! (m - 1)%nat)).
Proof.
  intros Hj Hnm Hm Hn Hf. destruct (pull_loop_joins fuel n m r e Hj) as (r1 & e1 & Hp & Hj1); [lia|lia|lia|].
  unfold onBoard, catchUpToBlock, mbind, prog_bind, look, gets. cbn. rewrite (joined_number _ _ _ Hj), Hn.
  destruct (Z.of_nat n >=? Z.of_nat m) eqn:Eg; [apply Z.geb_le in Eg; lia|]. unfold u64. rewrite Z.mod_small by lia. rewrite Hp. cbn.
  pose proof (joined_number _ _ _ Hj1) as Hl1. unfold getLastCommittedBlockNumber in Hl1. rewrite Hl1, Z.gtb_ltb.
  eexists _, e1. split; [done|]. split; [apply Hj1|]. destruct Hj1 as [_ _ _ Hlast].
  destruct (Z.ltb_spec 1 (Z.of_nat m)); cbn; (split; [exact Hl1|]); [|lia]. intros _.
  destruct m as [|i]; [lia|]. destruct Hlast as (c & b & -> & Hb & [= Hs _]). cbn. rewrite Nat.sub_0_r, Hb. unfold raftIndexOf. cbn. by rewrite Hs.
Qed.

End OnBoarding.
