(* ===== verification/ReplicatorExample.v ===== *)
(** * Replicators at work

    A cluster of three nodes on a concrete ledger: the hypotheses of the theorems on
    delivery and on the loops of a leader hold of real runs, two ways in which snapshots go
    wrong, and two in which the loops do. *)

From S2P Require Import Prelude Crypto Types ReConfig BlockEncoding BlockStore BlockStoreProofs Queue Pipeline Replicator ReplicatorProofs ReplicatorLoops.
Open Scope Z_scope.

Module ReplicatorExample.

(** What surrounds a replicator: the ledger of the node, the last snapshot, and the ledger
    of the node that blocks are pulled from. *)
Record surroundings := mkSurroundings {
  ledger : list Block;
  snapshot : Snapshot;
  remote : list Block;
}.

Definition no_snapshot : Snapshot := mkSnapshot [] (mkConfState []) 0 0.

(** The block processor takes the next block of the ledger and no other. *)
Definition enqueue_block (b : Block) : prog surroundings (Block * option ClusterConfig) := fun e =>
  if block_number b =? Z.of_nat (length (ledger e)) + 1 then
    (mkSurroundings (ledger e ++ [b]) (snapshot e) (remote e),
     Ok (b, match Payload b with Some (Block_ConfigTxEnvelope c) => NewConfig (CEnv_Payload c) | _ => None end))
  else (e, Panic "error while committing block").

Definition nothing {A} (x : A) : prog surroundings A := fun e => (e, Ok x).

#[export] Instance env_instance : RaftEnv surroundings := {|
  EnqueueWait := enqueue_block;
  ReleaseTxs _ _ := nothing tt;
  ValidateConfigTx _ _ := Ok (mkValidationInfo VALID "");
  Message := Z;
  From m := m;
  RaftPropose _ _ := nothing tt;
  RaftProposeConfChange _ _ := nothing tt;
  ApplyConfChange _ := nothing (mkConfState [1; 2; 3]);
  ApplyConfChangeV2 _ := nothing (mkConfState [1; 2; 3]);
  RaftStep _ := nothing tt;
  RaftAdvance := nothing tt;
  RestartNode := nothing tt;
  LastIndex e := Z.of_nat (length (ledger e));
  LastSnapshot e := snapshot e;
  StoreRaft _ _ := nothing tt;
  TakeSnapshot i c d := fun e => (mkSurroundings (ledger e) (mkSnapshot d c i 1) (remote e), Ok tt);
  SendConsensus _ := nothing tt;
  PullBlocks first last _ := fun e =>
    (e, Ok (take (Z.to_nat (last - first + 1)) (drop (Z.to_nat (first - 1)) (remote e))));
  UpdatePeers _ _ _ _ := nothing tt;
  ActivePeers _ := ∅;
  LedgerHeight e := Ok (Z.of_nat (length (ledger e)));
  LedgerGet e n := match ledger e !! Z.to_nat (n - 1) with
                   | Some b => Ok b
                   | None => Err (PlainErr "block not found")
                   end;
|}.

#[export, refine] Instance laws_instance : RaftEnvLaws surroundings := {| blocks := ledger |}.
Proof.
  - intros b e e' b' config. cbn. unfold enqueue_block. destruct (_ =? _); [|done]. by intros [= <- <- <-].
  - intros b e e' b' config. cbn. unfold enqueue_block. destruct (_ =? _); [|done]. by intros [= <- <- <-].
  - intros b e e' x. cbn. unfold enqueue_block. destruct (_ =? _); intros [= <- <-] H; [done|by left].
  - done.
  - done.
  - done.
  - done.
  - intros e n. cbn. by intros [= <-].
  - intros e n b. cbn. by destruct (ledger e !! _) eqn:El; intros [= <-].
Defined.

(** Three members; a snapshot is taken as soon as there is a byte of data. *)
Definition peer (id : Z) (host : string) : PeerConfig := mkPeerConfig host id host 7000.
Definition config (members : list PeerConfig) : ClusterConfig :=
  mkClusterConfig [] [] None
    (Some (mkConsensusConfig "raft" (Some <$> members) [] (Some (mkRaftConfig "100ms" 10 1 50 1 3)))) None.
Definition config3 : ClusterConfig := config [peer 1 "n1"; peer 2 "n2"; peer 3 "n3"].
Definition config4 : ClusterConfig := config [peer 1 "n1"; peer 2 "n2"; peer 3 "n3"; peer 4 "n4"].

Definition header (n : Z) : BlockHeader := mkBlockHeader (mkBlockHeaderBase n [] [] 0) [] [] [] [].
Definition config_block (n : Z) (c : ClusterConfig) : Block :=
  mkBlock (header n) (Some (Block_ConfigTxEnvelope (mkConfigTxEnvelope (mkConfigTx "admin" "tx" None (Some c)) []))) None.
Definition data_block (n : Z) : Block :=
  mkBlock (header n) (Some (Block_DataTxEnvelopes [mkDataTxEnvelope (mkDataTx ["alice"] "tx" []) ∅])) None.

Definition b1 : Block := config_block 1 config3.
Definition b2 : Block := data_block 2.
Definition b3 : Block := config_block 3 config4.
Definition b4 : Block := data_block 4.

(** Blocks as a leader numbers them: a config block that adds a node and one that removes it
    again. *)
Definition proposed (n : Z) (prev : Z) (c : ClusterConfig) : Block :=
  mkBlock (mkBlockHeader (mkBlockHeaderBase n (ComputeSHA256Hash [prev]) (ComputeSHA256Hash [prev]) (n - 1)) [] [] [] [])
    (Payload (config_block n c)) None.
Definition q2 : Block := proposed 2 0 config4.
Definition q3 : Block := proposed 3 4 config3.

Definition table : list Block := [b1; b2; b3; b4; q2; q3].
#[export] Instance block_codec : Codec Block := StoreExample.table_codec table 0.
#[export] Instance header_codec : Codec BlockHeader := StoreExample.table_codec (Header <$> table) 0.
#[export] Instance base_codec : Codec BlockHeaderBase := StoreExample.table_codec (BaseHeader <$> (Header <$> table)) 0.

#[export] Instance conf_change_type_dec : EqDecision ConfChangeType.
Proof. solve_decision. Defined.
#[export] Instance conf_change_dec : EqDecision ConfChange.
Proof. solve_decision. Defined.
#[export] Instance conf_change_v2_dec : EqDecision ConfChangeV2.
Proof. solve_decision. Defined.

(** The change of the membership that adds a fourth node. *)
Definition add4 : ConfChangeV2 := membershipChange [peer 4 "n4"] [] [2].
#[export] Instance conf_change_codec : Codec ConfChange := StoreExample.table_codec (mkConfChange ConfChangeAddNode <$> [1; 2; 3]) 0.
#[export] Instance conf_change_v2_codec : Codec ConfChangeV2 := StoreExample.table_codec [add4] 0.
#[export] Instance order : MapRange := canonical_range.

(** The log: the start of the first leader, a data block, a config block that adds a node,
    and a data block. *)
Definition x1 : Entry := mkEntry 1 1 EntryNormal [].
Definition x2 : Entry := mkEntry 1 2 EntryNormal [1].
Definition x3 : Entry := mkEntry 1 3 EntryConfChangeV2 [0].
Definition x4 : Entry := mkEntry 1 4 EntryNormal [3].

Definition log : list Entry := [x1; x2; x3; x4].

(** ** A run *)

Definition start (node : string) (e : surroundings) : res replicator := NewBlockReplicator node config3 None true e.

(** A node with the genesis block. *)
Definition fresh (remote : list Block) : surroundings := mkSurroundings [b1] no_snapshot remote.

(** A node that is started delivers entries. *)
Definition start_and_deliver (node : string) (entries : list Entry) (e : surroundings) : surroundings * res bool :=
  match start node e with
  | Ok r => let '(s, x) := deliverEntries entries (r, e) in (s.2, x)
  | Err err => (e, Err err)
  | Panic w => (e, Panic w)
  end.

Definition half : surroundings := (start_and_deliver "n1" [x1; x2] (fresh [])).1.
Definition all : surroundings := (start_and_deliver "n1" [x2; x3; x4] half).1.

Lemma started_life base l e node entries : life base l None e →
  (∃ i n, entries = take n (drop i l)) → life base l None (start_and_deliver node entries e).1.
Proof.
  intros Hl (i & n & ->). unfold start_and_deliver. destruct (start node e) as [r|err|w] eqn:Es; [|done..].
  destruct (deliverEntries (take n (drop i l)) (r, e)) as [s x] eqn:Ed.
  eapply life_stops; [|exact Ed]. by eapply life_starts.
Qed.

Lemma all_life : life [stamp b1] log None all.
Proof.
  unfold all, half. apply started_life; [|by exists 1%nat, 3%nat].
  apply started_life; [|by exists 0%nat, 2%nat]. by apply life_begins.
Qed.

Lemma ledger_blocks e : ledger e = blocks e.
Proof. done. Qed.

Lemma log_committed_once_witness :
  (block_number <$> ledger all) = [1; 2; 3; 4] ∧
  ∃ a, (a ≤ length log)%nat ∧ stamp <$> ledger all = [stamp b1] ++ (stamp <$> omap entry_block (take a log)).
Proof.
  split; [vm_compute; reflexivity|]. rewrite ledger_blocks.
  apply (log_committed_once [stamp b1] log None all); [done| |cbn; lia|exact all_life].
  intros i x Hi. do 4 (destruct i as [|i]; [by injection Hi as <-|]). done.
Defined.

(** ** Snapshots *)

(** A node that committed a change of the membership, and one that lags behind it. *)
Definition leader : surroundings := (start_and_deliver "n1" [x1; x2; x3] (fresh [])).1.
Definition lagging : surroundings := fresh (ledger leader).

(** A snapshot that is taken after a change of the membership misses the block of the
    change.  The position of the block that goes into the snapshot is only moved by normal
    entries, so the snapshot has the index of the config block and the data of the block
    before it.  A node that catches up with the snapshot pulls blocks up to the earlier one,
    takes the config block for applied, even when its entry is delivered, and fails at the
    next block. *)
Theorem snapshot_misses_config_block :
  ((block_number <$> ledger leader) = [1; 2; 3] ∧ Snap_Index (snapshot leader) = 3 ∧
   Unmarshal (Snap_Data (snapshot leader)) = Ok b2) ∧
  ∃ r s, start "n2" lagging = Ok r ∧
    catchUp 1 (snapshot leader) (r, lagging) = (s, Ok (Some tt)) ∧
    (block_number <$> ledger s.2) = [1; 2] ∧ appliedIndex s.1 = 3 ∧
    (block_number <$> ledger (deliverEntries [x3] s).1.2) = [1; 2] ∧
    (deliverEntries [x4] s).2 = Panic "error while committing block".
Proof.
  split; [vm_compute; done|].
  let r := eval vm_compute in (start "n2" lagging) in
  match r with Ok ?r =>
    let s := eval vm_compute in (catchUp 1 (snapshot leader) (r, lagging)) in exists r, s.1
  end.
  vm_compute. repeat split; reflexivity.
Qed.

(** The start of a second leader is committed with the blocks of the first one. *)
Definition y3 : Entry := mkEntry 2 3 EntryNormal [].
Definition y4 : Entry := mkEntry 2 4 EntryConfChangeV2 [0].

Definition stopped : surroundings := (start_and_deliver "n1" [x1; x2; y3] (fresh [])).1.

(** A node may not be able to restart after a snapshot.  The snapshot has the applied
    index, which is beyond the entry of the last block when an entry without a block, like
    the one a new leader starts with, was committed with it.  After a restart the applied
    index is the one of the last block.  The snapshot brings no new block, so catching up
    leaves the index as it is; Raft then goes on after the snapshot, and the first entry it
    delivers is taken for a gap. *)
Theorem restart_after_snapshot_panics :
  (start_and_deliver "n1" [x1; x2; y3] (fresh [])).2 = Ok true ∧ Snap_Index (snapshot stopped) = 3 ∧
  ∃ r, start "n1" stopped = Ok r ∧ startEventLoop 1 (r, stopped) = ((r, stopped), Ok (Some tt)) ∧ appliedIndex r = 2 ∧
    (deliverEntries [y4] (r, stopped)).2 = Panic "First index of committed entry should <= appliedIndex+1".
Proof.
  split; [vm_compute; done|]. split; [vm_compute; done|].
  let r := eval vm_compute in (start "n1" stopped) in match r with Ok ?r => exists r end.
  vm_compute. repeat split; reflexivity.
Qed.

(** ** The loops of a leader *)

(** A schedule of the two loops. *)
Inductive action := Check_ (b : Block) | Prepare | Submit_ | Record_ | Wake | Commit_ | Update.

Definition advance (l : loops surroundings) (a : action) : option (loops surroundings) :=
  let '(mkLoops r e pc ev f p) := l in
  match a, pc, ev, p with
  | Check_ b, Idle, _, _ =>
    match checkConfigBlock b (r, e) with
    | ((r', e'), Ok change) => Some (mkLoops r' e' (match change with Some (a, d) => Checked b a d | None => Idle end) ev f p)
    | _ => None
    end
  | Prepare, Checked b a d, _, _ =>
    match prepareProposal b (r, e) with
    | ((r', e'), Ok x) => Some (mkLoops r' e' (match x with Some (b, bs) => Prepared b bs a d | None => Idle end) ev f p)
    | _ => None
    end
  | Submit_, Prepared b bs a d, _, _ =>
    match submitProposal b (raftProposal bs a d) (r, e) with
    | ((r', e'), Ok x) => Some (mkLoops r' e' (match x with Some b => Proposed b | None => Idle end) ev f
                                  (match x with Some b => p ++ [b] | None => p end))
    | _ => None
    end
  | Record_, Proposed b, _, _ =>
    match updateLastProposal b (r, e) with
    | ((r', e'), Ok _) => Some (mkLoops r' e' Waiting ev f p)
    | _ => None
    end
  | Wake, Waiting, _, _ => match mustWait r with Ok false => Some (mkLoops r e Idle ev f p) | _ => None end
  | Commit_, _, Between, b :: p =>
    match EnqueueWait (withMetadata b (mkEntry 1 (block_number b) EntryNormal [])) e with
    | (e1, Ok (b', config)) =>
      match setLastCommittedBlock b' (r, e1) with
      | ((r', e'), Ok _) => Some (mkLoops r' e' pc (match config with Some c => Updating c | None => Between end) (f ++ [b]) p)
      | _ => None
      end
    | _ => None
    end
  | Update, _, Updating c, _ =>
    if bool_decide (c = config3 ∨ c = config4) then
      match updateClusterConfig c (r, e) with
      | ((r', e'), Ok _) => Some (mkLoops r' e' pc Between f p)
      | _ => None
      end
    else None
  | _, _, _, _ => None
  end.

Lemma config_bounded c : c = config3 ∨ c = config4 → bounded_config 50 c.
Proof. by intros [-> | ->] cc rc [= <-] [= <-]. Qed.

Lemma advance_step l a l' : advance l a = Some l' → loop_step 50 l l'.
Proof.
  destruct l as [r e pc ev f p]. unfold advance. intros H. destruct a as [b| | | | | |].
  - destruct pc; try done. destruct (checkConfigBlock _ _) as [[r' e'] [x|?|?]] eqn:Ex; try done.
    injection H as <-. by eapply step_checks.
  - destruct pc; try done. destruct (prepareProposal _ _) as [[r' e'] [x|?|?]] eqn:Ex; try done.
    injection H as <-. by eapply step_prepares.
  - destruct pc; try done. destruct (submitProposal _ _ _) as [[r' e'] [x|?|?]] eqn:Ex; try done.
    injection H as <-. by eapply step_submits.
  - destruct pc; try done. destruct (updateLastProposal _ _) as [[r' e'] [[]|?|?]] eqn:Ex; try done.
    injection H as <-. by eapply step_records.
  - destruct pc; try done. destruct (mustWait r) as [[]|?|?] eqn:Ex; try done. injection H as <-. by apply step_wakes.
  - destruct ev, p as [|b p]; try done. destruct (EnqueueWait _ _) as [e1 [[b' config]|?|?]] eqn:Ew; try done.
    destruct (setLastCommittedBlock _ _) as [[r' e'] [[]|?|?]] eqn:Ex; try done. injection H as <-. by eapply step_commits.
  - destruct ev as [|c]; [done|]. case_bool_decide as Hc; [|done].
    destruct (updateClusterConfig _ _) as [[r' e'] [[]|?|?]] eqn:Ex; try done. injection H as <-.
    by eapply step_updates; [apply config_bounded|].
Qed.

Fixpoint run (l : loops surroundings) (actions : list action) : option (loops surroundings) :=
  match actions with
  | [] => Some l
  | a :: actions => l' ← advance l a; run l' actions
  end.

Lemma run_term base actions l l' : term base 50 l → run l actions = Some l' → term base 50 l'.
Proof.
  revert l. induction actions as [|a actions IH]; intros l Hl; cbn; [by intros [= <-]|].
  intros (l1 & H1%advance_step & H)%bind_Some. eapply IH; [|exact H]. by eapply term_next.
Qed.

(** The node becomes the leader of a cluster that has the genesis block. *)
Definition elected : option (loops surroundings) :=
  match start "n1" (fresh []) with
  | Ok r => match processLeaderChanges 1 (set_applied r 1, fresh []) with
            | ((r, e), Ok _) => Some (mkLoops r e Idle Between [] [])
            | _ => None
            end
  | _ => None
  end.

Lemma elected_term l : elected = Some l → term b1 50 l.
Proof.
  intros Hl. assert (elected = Some l ∧ ready_leader b1 (shared l) ∧ clusterConfig (shared l) = config3 ∧
    l = mkLoops (shared l) (around l) Idle Between [] []) as (_ & Hr & Hc & ->).
  { split; [done|]. vm_compute in Hl. injection Hl as <-. by vm_compute. }
  apply term_begins; [done|]. cbn. rewrite Hc. apply config_bounded. by left.
Qed.

Definition run_elected (actions : list action) : option (loops surroundings) := l ← elected; run l actions.

Lemma run_elected_term actions l : run_elected actions = Some l → term b1 50 l.
Proof. intros (l0 & H0 & H)%bind_Some. eapply run_term; [|exact H]. by apply elected_term. Qed.

(** A config block goes through the loops; then a second one is proposed. *)
Definition two_configs : list action :=
  [Check_ b3; Prepare; Submit_; Record_; Commit_; Update; Wake; Check_ (config_block 0 config3); Prepare; Submit_].

Lemma two_configs_run : ∃ l, run_elected two_configs = Some l ∧ finished l = [q2] ∧ pending l = [q3] ∧ proposer l = Proposed q3.
Proof.
  let v := eval vm_compute in (run_elected two_configs) in match v with Some ?l => exists l end.
  vm_compute. repeat split; reflexivity.
Qed.

Lemma proposals_chained_witness : chained b1 [q2; q3].
Proof.
  destruct two_configs_run as (l & Hl & Ef & Ep & _).
  destruct (proposals_chained b1 50 l) as [H _]; [done|done|done|by eapply run_elected_term|by rewrite Ef, Ep|].
  by rewrite Ef, Ep in H.
Defined.

Lemma in_flight_bounded_witness : ∃ l, run_elected two_configs = Some l ∧ pending l = [q3] ∧ 0 ≤ numInFlightBlocks (shared l) ≤ 51.
Proof.
  destruct two_configs_run as (l & Hl & Ef & Ep & _). exists l. split; [exact Hl|]. split; [exact Ep|].
  refine (proj1 (proj2 (in_flight_bounded b1 50 l _ _ _ _ _))); [done|done|done|by eapply run_elected_term|by rewrite Ef, Ep].
Defined.

Lemma config_checks_hold_witness : ∃ l, run_elected two_configs = Some l ∧
  (updateLastProposal q3 (shared l, around l)).2 = Ok tt.
Proof.
  destruct two_configs_run as (l & Hl & Ef & Ep & Eq). exists l. split; [exact Hl|].
  refine (proj1 (config_checks_hold b1 50 l _ _ _ _ _) q3 (ComputeSHA256Hash [5]) Eq _);
    [done|done|done|by eapply run_elected_term|by rewrite Ef, Ep|by vm_compute].
Defined.

(** A leader may wait for a config block that is already committed.  The event loop can
    commit the block before the propose loop has recorded its proposal; the number of the
    config block in flight is then set after the commit that would have reset it, and the
    propose loop waits for as long as this node is the leader. *)
Theorem leader_waits_forever : ∃ l, run_elected [Check_ b3; Prepare; Submit_; Commit_; Update; Record_] = Some l ∧
  finished l = [q2] ∧ pending l = [] ∧
  ∀ l', rtc (loop_step 50) l l' → proposer l' = Waiting ∧ finished l' = [q2] ∧ pending l' = [].
Proof.
  let v := eval vm_compute in (run_elected [Check_ b3; Prepare; Submit_; Commit_; Update; Record_]) in
  match v with Some ?l => exists l end.
  split; [vm_compute; reflexivity|]. do 2 (split; [vm_compute; reflexivity|]). intros l' Hr.
  apply (waiting_forever _ _ _ Hr); vm_compute; done.
Qed.

(** A change of the membership may be proposed as a regular block.  The event loop lets
    the propose loop go on before it has taken over the new configuration, so the next
    config block is compared with the configuration before: the block that removes the node
    which was just added is proposed without a change of the membership of Raft. *)
Theorem membership_change_missed :
  (current ← deref (Consensus config4); updated ← deref (Consensus config3); detectPeerConfigChanges current updated) =
    Ok ([], [peer 4 "n4"], []) ∧
  ∃ l bs, run_elected [Check_ b3; Prepare; Submit_; Record_; Commit_; Wake; Check_ (config_block 0 config3); Prepare] = Some l ∧
    finished l = [q2] ∧ Payload q2 = Payload (config_block 2 config4) ∧
    Payload q3 = Payload (config_block 3 config3) ∧ proposer l = Prepared q3 bs [] [] ∧
    ∀ cancelled, raftProposal (E := surroundings) bs [] [] cancelled = RaftPropose cancelled bs.
Proof.
  split; [vm_compute; reflexivity|].
  let v := eval vm_compute in
    (run_elected [Check_ b3; Prepare; Submit_; Record_; Commit_; Wake; Check_ (config_block 0 config3); Prepare]) in
  match v with Some ?l => exists l end.
  exists [5]. vm_compute. repeat split; reflexivity.
Qed.

End ReplicatorExample.
