(* ===== verification/CatchupExample.v ===== *)
(** * A node joins, block by block

    The replicator of a joining node on top of the catch-up client, which asks the catch-up
    handler of another node. *)

From S2P Require Import Prelude Types ReConfig BlockEncoding BlockStore Queue Pipeline HttpUtils Catchup CatchupProofs Replicator ReplicatorProofs ReplicatorLoops OnBoarding ReplicatorExample.
Import ReplicatorExample.
Open Scope Z_scope.

Module CatchupExample.

(** The chain of the cluster; the surroundings of the joining node are its ledger. *)
Definition chain : list Block := [b1; b2; b3; b4].
Notation world := (list Block).

Definition reader : LedgerReader :=
  mkLedgerReader (Ok 4) (fun n => match chain !! Z.to_nat (n - 1) with Some b => Ok b | None => Err (PlainErr "block not found") end).

(** One node answers, two blocks at a time; another does not. *)
#[export] Instance network : PeerNetwork world := {|
  DoBlocks url params e := if bool_decide (url = "http://n1:7000") then (e, blocksRequest 2 reader params)
                           else (e, Err (PlainErr "connection refused"));
  Cancelled _ := false;
  Shuffle _ ids := ids;
  Pause _ e := e;
|}.

Definition client : catchUpClient := mkCatchUpClient false {[1 := "http://n1:7000"; 2 := "http://n2:7000"]}.

Lemma client_members : UpdateMembers [peer 1 "n1"; peer 2 "n2"] (mkCatchUpClient false ∅) = Ok client.
Proof. vm_compute. reflexivity. Qed.

Lemma reader_serves : serves reader chain.
Proof. split; [done|]. intros i b Hi. do 4 (destruct i as [|i]; [injection Hi as <-; by vm_compute|]). done. Qed.

Lemma network_honest : honest chain.
Proof.
  intros url params e e' parts. cbn. case_bool_decide; [|done]. intros [= <- Hr]. exists 2, reader, chain, parts.
  split_and!; [done|done|apply reader_serves|done|done].
Qed.

Definition params : Vars := <["startId" := "2"]> (<["endId" := "4"]> ∅).

Lemma blocks_served_witness : ∃ k parts, blocksRequest 2 reader params = Ok (MultiPart parts) ∧ segment chain 2 k parts ∧ (1 ≤ k)%nat.
Proof.
  destruct (blocks_served 2 reader chain params 2 4) as (k & parts & H1 & H2 & H3 & _);
    [lia|apply reader_serves|by vm_compute|by vm_compute|by vm_compute|by exists k, parts].
Defined.

Lemma pulled_blocks_witness : ∃ k, (1 ≤ k)%nat ∧ 1 ≤ 2 ∧ 2 - 1 + Z.of_nat k ≤ 4 ∧ [b2; b3] = take k (drop 1 chain).
Proof.
  apply (pulled_blocks chain 1 client 2 4 2 [b1] [b1] [b2; b3]); [apply network_honest|by vm_compute|lia|lia|by vm_compute].
Defined.

(** The block processor takes the next block. *)
Definition take_block (b : Block) : prog world (Block * option ClusterConfig) := fun e =>
  if block_number b =? Z.of_nat (length e) + 1 then (e ++ [b], Ok (b, None)) else (e, Panic "error while committing block").

Definition pull_some (first last leader : Z) : prog world (list Block) := fun e =>
  match client_PullBlocks 1 client first last leader e with
  | (e, Ok (Some l)) => (e, Ok l)
  | (e, Ok None) => (e, Err (PlainErr "no member answers"))
  | (e, Err err) => (e, Err err)
  | (e, Panic w) => (e, Panic w)
  end.

#[export] Instance joining_env : RaftEnv world := {|
  EnqueueWait := take_block;
  ReleaseTxs _ _ := mret tt;
  ValidateConfigTx _ _ := Ok (mkValidationInfo VALID "");
  Message := Z;
  From m := m;
  RaftPropose _ _ := mret tt;
  RaftProposeConfChange _ _ := mret tt;
  ApplyConfChange _ := mret (mkConfState []);
  ApplyConfChangeV2 _ := mret (mkConfState []);
  RaftStep _ := mret tt;
  RaftAdvance := mret tt;
  RestartNode := mret tt;
  LastIndex e := 0;
  LastSnapshot e := no_snapshot;
  StoreRaft _ _ := mret tt;
  TakeSnapshot _ _ _ := mret tt;
  SendConsensus _ := mret tt;
  PullBlocks := pull_some;
  UpdatePeers _ _ _ _ := mret tt;
  ActivePeers _ := ∅;
  LedgerHeight e := Ok (Z.of_nat (length e));
  LedgerGet e n := match e !! Z.to_nat (n - 1) with Some b => Ok b | None => Err (PlainErr "block not found") end;
|}.

#[export, refine] Instance joining_laws : RaftEnvLaws world := {| blocks := id |}.
Proof.
  - intros b e e' b' config. cbn. unfold take_block. destruct (_ =? _); [|done]. by intros [= <- <- <-].
  - intros b e e' b' config. cbn. unfold take_block. destruct (_ =? _); [|done]. by intros [= <- <- <-].
  - intros b e e' x. cbn. unfold take_block. destruct (_ =? _); intros [= <- <-] H; [done|by left].
  - done.
  - done.
  - done.
  - done.
  - intros e n. cbn. by intros [= <-].
  - intros e n b. cbn. by destruct (e !! _) eqn:El; intros [= <-].
Defined.

(** The first node gives up to two blocks; everyone else gives none. *)
Lemma first_gives first last e : 1 ≤ first ≤ last → last ≤ 4 →
  GetBlocks client 1 first last e = (e, Ok (take (Z.to_nat (Z.min 2 (last - first + 1))) (drop (Z.to_nat (first - 1)) chain))).
Proof.
  intros Hf Hl. assert (first = 1 ∨ first = 2 ∨ first = 3 ∨ first = 4) as Hc by lia.
  assert (last = 1 ∨ last = 2 ∨ last = 3 ∨ last = 4) as Hd by lia.
  destruct Hc as [-> | [-> | [-> | ->]]], Hd as [-> | [-> | [-> | ->]]]; try lia; vm_compute; reflexivity.
Qed.

Lemma others_refuse id first last e : id ≠ 1 → ∃ err, GetBlocks client id first last e = (e, Err err).
Proof.
  intros Hid. unfold GetBlocks. destruct (members client !! id) as [url|] eqn:Eu; [|by eexists].
  cbn in Eu. rewrite lookup_insert_ne in Eu by done. apply lookup_singleton_Some in Eu as [<- <-].
  unfold mbind, prog_bind. cbn. by eexists.
Qed.

Lemma try_leader first last leader e : 1 ≤ first ≤ last → last ≤ 4 →
  tryMembers client first last ((if leader =? 0 then [] else [leader]) ++ [2; 1]) e =
    (e, Ok (Some (take (Z.to_nat (Z.min 2 (last - first + 1))) (drop (Z.to_nat (first - 1)) chain)))).
Proof.
  intros Hf Hl. assert (H1 : ∀ l, tryMembers client first last (1 :: l) e =
    (e, Ok (Some (take (Z.to_nat (Z.min 2 (last - first + 1))) (drop (Z.to_nat (first - 1)) chain))))).
  { intros l. cbn [tryMembers]. by rewrite first_gives. }
  assert (Ho : ∀ id l, id ≠ 1 → tryMembers client first last (id :: l) e = tryMembers client first last l e).
  { intros id l Hn. cbn [tryMembers]. by destruct (others_refuse id first last e Hn) as [err ->]. }
  destruct (Z.eqb_spec leader 0); cbn [app]; [rewrite Ho by done; apply H1|]. destruct (decide (leader = 1)) as [->|Hn]; [apply H1|].
  rewrite !Ho by done. apply H1.
Qed.

Lemma pulls first last leader e : 1 ≤ first ≤ last → last ≤ Z.of_nat (length chain) →
  ∃ e' k, PullBlocks first last leader e = (e', Ok (take k (drop (Z.to_nat (first - 1)) chain))) ∧
    (1 ≤ k)%nat ∧ first - 1 + Z.of_nat k ≤ last ∧ blocks e' = blocks e.
Proof.
  intros Hf Hl. exists e, (Z.to_nat (Z.min 2 (last - first + 1))). split; [|split; [lia|split; [lia|done]]].
  cbn [PullBlocks joining_env]. unfold pull_some, client_PullBlocks. cbn [pullRounds].
  assert ((map_to_list (members client)).*1 = [2; 1]) as -> by (vm_compute; reflexivity).
  cbn [Shuffle network]. by rewrite try_leader.
Qed.

Lemma chain_numbers i b : chain !! i = Some b → block_number b = Z.of_nat i + 1.
Proof. intros Hi. do 4 (destruct i as [|i]; [by injection Hi as <-|]). done. Qed.

Lemma takes (e : world) b : chain !! length (blocks e) = Some b → ∃ e' b' config, EnqueueWait b e = (e', Ok (b', config)).
Proof.
  intros Hb%chain_numbers. cbn in *. unfold take_block, id in *. rewrite Hb, Z.eqb_refl. by eexists _, _, _.
Qed.

(** A node with an empty ledger joins with the last block. *)
Definition joining : res replicator := NewBlockReplicator "n3" config3 (Some b4) false ([] : world).

Lemma on_boarding_completes_witness : ∃ r r' e', joining = Ok r ∧ onBoard 4 b4 (r, [] : world) = ((r', e'), Ok (Some tt)) ∧
  stamp <$> e' = stamp <$> chain.
Proof.
  destruct joining as [r| |] eqn:Er; [|vm_compute in Er; discriminate Er..].
  assert (Hj : joined_up_to chain 0 r ([] : world)).
  { vm_compute in Er. injection Er as <-. split; [done|cbn; lia|done|done]. }
  destruct (on_boarding_completes chain chain_numbers pulls takes 4 0 4 r ([] : world) b4 Hj) as (r' & e' & H1 & H2 & _);
    [cbn; lia|lia|done|lia|by exists r, r', e'].
Defined.

End CatchupExample.
