(* ===== verification/ProcessorExample.v ===== *)
(** * A small node

    The block processor from the genesis block on: a user and an indexed database are
    added; what a stop between the stores leaves; and how the order of a Go map shows in
    the state root. *)

From S2P Require Import Prelude Crypto Types WorldState LevelDB Identity Validation ReConfig ConfigTxValidator Validator.
From S2P Require Import DbEntries StateIndex Committer CommitProofs MerkleTree Varint BlockEncoding BlockStore BlockStoreProofs SkipList.
From S2P Require Import MPTrie TrieStore TrieExample Ledger Processor ProcessorProofs Instances AdminTx.
Open Scope Z_scope.

Module ProcessorExample.
Import Toy AdminExample CommitExample TrieExample.

(** ** Instances *)

Definition no_config : ClusterConfig := mkClusterConfig [] [] None None None.

(** A wire format for the messages of a table; no bytes are the message with all fields unset. *)
Program Definition zero_codec `{EqDecision A} (zero : A) (table : list A) : Codec A := {|
  Marshal a := if bool_decide (a = zero) then Ok []
               else match list_find (a =.) table with
                    | Some (i, _) => Ok [Z.of_nat i]
                    | None => Err (PlainErr "not in the table")
                    end;
  Unmarshal b := match b with
                 | [] => Ok zero
                 | i :: _ => match table !! Z.to_nat i with Some a => Ok a | None => Err (PlainErr "unknown position") end
                 end;
|}.
Next Obligation.
  intros A ? zero table a b H. cbn in *. case_bool_decide as Ha; [by injection H as <-; subst|].
  destruct (list_find (a =.) table) as [[i a']|] eqn:E; [|done]. injection H as <-.
  apply list_find_Some in E as (E & -> & _). by rewrite Nat2Z.id, E.
Qed.

#[export] Instance config_codec : Codec ClusterConfig | 1 := zero_codec no_config [config1].
#[export] Instance user_codec : Codec User | 1 := zero_codec (mkUser "" [] None) [admin_user; carol].
#[export] Instance node_codec : Codec NodeConfig | 1 := zero_codec (mkNodeConfig "" "" 0 []) [node_config].
#[export] Existing Instance VarintExample.proto_varint.
#[export] Instance snappy : Snappy := {| SnappyEncode b := b; SnappyDecode b := Ok b; snappy_decode_encode _ := eq_refl |}.

(** Short forms of the envelopes to be hashed: the identifier, and for a database
    administration transaction its indexes as well. *)
#[export] Instance user_env_marshal : TxMarshal UserAdministrationTxEnvelope | 1 :=
  fun env => Ok (bytes_of_string (UTx_TxId (UEnv_Payload env))).
#[export] Instance config_env_marshal : TxMarshal ConfigTxEnvelope | 1 :=
  fun env => Ok (bytes_of_string (CTx_TxId (CEnv_Payload env))).
#[export] Instance db_env_marshal : TxMarshal DBAdministrationTxEnvelope | 1 :=
  fun env => Ok (bytes_of_string (DBTx_TxId (DBEnv_Payload env)) ++ positive_bits (encode (DbsIndex (DBEnv_Payload env)))).

(** A provenance store that records what is committed. *)
Definition Log : Type := list (Z * list TxDataForProvenance).
#[export] Instance log_store : ProvenanceStore Log := {| ProvenanceCommit n d := modify (fun p => p ++ [(n, d)]) |}.

(** ** The transactions *)

Definition user_tx2 : UserAdministrationTx :=
  mkUserAdministrationTx "admin" "utx" [] [Some (mkUserWrite (Some carol) None)] [].
Definition user_block2 : Block :=
  mkBlock (header 2) (Some (Block_UserAdministrationTxEnvelope (mkUserAdministrationTxEnvelope user_tx2 (sign 0 user_tx2)))) None.

Definition db_tx3 : DBAdministrationTx :=
  mkDBAdministrationTx "admin" "dtx" ["db2"] [] {["db2" := Some (mkDBIndex age_index)]}.
Definition db_block3 : Block :=
  mkBlock (header 3) (Some (Block_DbAdministrationTxEnvelope (mkDBAdministrationTxEnvelope db_tx3 (sign 0 db_tx3)))) None.

Definition blocks : list Block := [genesis_block; user_block2; db_block3].

(** ** The completed blocks *)

(** The headers of the example are encoded as their number. *)
Definition header_hash (n : Z) : bytes := ComputeSHA256Hash [n].

Definition state : Type := LevelDB * MPTrie TrieStore.Store.

(** One block, without the block store. *)
Definition complete (st : state) (block : Block) : res (state * Block) :=
  infos ← ValidateBlock st.1 block;
  let block := set_validation_info block infos in
  root ← BuildTreeForBlockTx block;
  '(ups, _, block) ← constructDBAndProvenanceEntries st.1 true (set_tx_root block (MerkleTree.Hash root));
  let '(t, _) := ApplyBlockOnStateTrie ups st.2 in
  state_root ← MPTrie.Hash t;
  let '(t, _) := MPTrie.Commit 128 (block_number block) t in
  let h := Header block in
  let links := header_hash <$> CalculateSkipListLinks (block_number block) in
  Ok (((commitToStateDB st.1 (block_number block) ups).1, t),
      mkBlock (mkBlockHeader (BaseHeader h) links (TxMerkelTreeRootHash h) state_root (ValidationInfos h)) (Payload block) (Block_ConsensusMetadata block)).

Fixpoint complete_all (st : state) (blocks : list Block) : res (list Block) :=
  match blocks with
  | [] => Ok []
  | block :: blocks => '(st, block) ← complete st block; rest ← complete_all st blocks; Ok (block :: rest)
  end.

Definition state0 : state :=
  match NewTrie [] (openTrieStore ∅) with
  | (s, Ok r) => (LDB.openNewLevelDBInstance, mkMPTrie (Some r) s)
  | (s, _) => (LDB.openNewLevelDBInstance, mkMPTrie None s)
  end.

Definition or_none (r : res (list Block)) : list Block := match r with Ok l => l | _ => [] end.

Definition done : list Block := or_none (complete_all state0 blocks).

(** A block is encoded as its number. *)
Definition no_block : Block := mkBlock (header 0) None None.
Definition table : list Block := no_block :: done.
#[export] Instance block_codec : Codec Block | 1 := StoreExample.table_codec table 0.
#[export] Instance header_codec : Codec BlockHeader | 1 := StoreExample.table_codec (Header <$> table) 0.

(** ** The run *)

Notation node := (BlockProcessor LevelDB Log TrieStore.Store).

Definition node0 : node := mkBlockProcessor LDB.openNewLevelDBInstance openNewStore (Some []) (openTrieStore ∅) None.
Definition limit : Z := 65536.
Definition started : node := (initAndRecoverStateTrieIfNeeded 128 node0).1.
Definition step (n : node) (block : Block) : node * res Block := validateAndCommit limit 128 block n.

Definition result1 := step started genesis_block.
Definition node1 : node := result1.1.
Definition result2 := step node1 user_block2.
Definition node2 : node := result2.1.
Definition result3 := step node2 db_block3.
Definition node3 : node := result3.1.

Definition block_at (i : nat) : Block := default no_block (done !! i).

(** The node stops after the third block reached the block store, and recovers. *)
Definition before_provenance (n n' : node) : node :=
  mkBlockProcessor (bp_db n) (bp_blockStore n') (bp_provenanceStore n) (openTrieStore ∅) None.
Definition recovered3 : node * res unit := recoverWorldStateDBIfNeeded (before_provenance node2 node3).

Definition root_differs (r : res (option Node)) (h : bytes) : bool :=
  match r with Ok root => bool_decide (MerkleTree.Hash root ≠ h) | _ => false end.

Lemma root_differs_ok r h : root_differs r h = true → ∃ root, r = Ok root ∧ MerkleTree.Hash root ≠ h.
Proof. destruct r as [root| |]; [|done..]. intros H%bool_decide_eq_true. by exists root. Qed.

Lemma is_ok_unit (r : res unit) : is_ok r = true → r = Ok tt.
Proof. by destruct r as [[]| |]. Qed.

(** All that is computed on this example. *)
Definition checks : bool :=
  bool_decide (result1.2 = Ok (block_at 0)) && bool_decide (result2.2 = Ok (block_at 1)) && bool_decide (result3.2 = Ok (block_at 2)) &&
  bool_decide (bp_blockStore started = openNewStore) && bool_decide (WorldState.Height (bp_db started) = Ok 0) &&
  forallb storableb [block_at 0; block_at 1; block_at 2] &&
  bool_decide (HasLedgerAccess (bp_db node3) "admin" = Ok true) &&
  bool_decide (Payload (block_at 1) = Payload user_block2) &&
  Exist (bp_db node3) (IndexDB "db2") && is_ok recovered3.2 && Exist (bp_db recovered3.1) "db2" &&
  negb (Exist (bp_db recovered3.1) (IndexDB "db2")) &&
  root_differs (BuildTreeForBlockTx (block_at 2)) (TxMerkelTreeRootHash (Header (block_at 2))).

Record checked : Prop := {
  ck_run1 : step started genesis_block = (node1, Ok (block_at 0));
  ck_run2 : step node1 user_block2 = (node2, Ok (block_at 1));
  ck_run3 : step node2 db_block3 = (node3, Ok (block_at 2));
  ck_store : bp_blockStore started = openNewStore;
  ck_height : WorldState.Height (bp_db started) = Ok 0;
  ck_storable : Forall storable [block_at 0; block_at 1; block_at 2];
  ck_access : HasLedgerAccess (bp_db node3) "admin" = Ok true;
  ck_payload : Payload (block_at 1) = Payload user_block2;
  ck_index : Exist (bp_db node3) (IndexDB "db2") = true;
  ck_recovered : ∃ n, recovered3 = (n, Ok tt) ∧ Exist (bp_db n) "db2" = true ∧ Exist (bp_db n) (IndexDB "db2") = false;
  ck_root : ∃ root, BuildTreeForBlockTx (block_at 2) = Ok root ∧ MerkleTree.Hash root ≠ TxMerkelTreeRootHash (Header (block_at 2));
}.

Lemma run_pair {S A} (x : S * res A) a : x.2 = Ok a → x = (x.1, Ok a).
Proof. intros <-. apply surjective_pairing. Qed.

Lemma checks_hold : checks = true.
Proof. vm_compute. reflexivity. Qed.

Lemma all_checked : checked.
Proof.
  pose proof checks_hold as H. unfold checks in H.
  repeat lazymatch type of H with (?a && ?b) = true => destruct (proj1 (andb_true_iff a b) H) as [?H ?]; clear H; rename H0 into H end.
  split.
  - exact (run_pair result1 _ (bool_decide_eq_true_1 _ H)).
  - exact (run_pair result2 _ (bool_decide_eq_true_1 _ H12)).
  - exact (run_pair result3 _ (bool_decide_eq_true_1 _ H11)).
  - exact (bool_decide_eq_true_1 _ H10).
  - exact (bool_decide_eq_true_1 _ H9).
  - exact (forallb_storable _ H8).
  - exact (bool_decide_eq_true_1 _ H7).
  - exact (bool_decide_eq_true_1 _ H6).
  - exact H5.
  - exists recovered3.1. exact (conj (run_pair recovered3 tt (is_ok_unit _ H4)) (conj H3 (proj1 (negb_true_iff _) H2))).
  - exact (root_differs_ok _ _ H1).
Qed.

Lemma started_in_step : in_step started [].
Proof.
  destruct new_store_ok as [H1 H2]. split; [rewrite (ck_store all_checked)..|by intros i b Hi|exact (ck_height all_checked)].
  - exact H1.
  - exact H2.
Qed.

Lemma places_marshal (l : BlockLocation) : is_ok (Marshal l) = true.
Proof. done. Qed.

Lemma run3 : processBlocks limit 128 blocks started = (node3, Ok [block_at 0; block_at 1; block_at 2]).
Proof.
  eapply processBlocks_cons; [exact (ck_run1 all_checked)|]. eapply processBlocks_cons; [exact (ck_run2 all_checked)|].
  eapply processBlocks_cons; [exact (ck_run3 all_checked)|]. reflexivity.
Qed.

Lemma processed_blocks_in_step_witness :
  in_step node3 ([] ++ [block_at 0; block_at 1; block_at 2]) ∧
  replay (bp_db started) blocks [block_at 0; block_at 1; block_at 2] (bp_db node3).
Proof.
  exact (processed_blocks_in_step limit 128 places_marshal blocks started [] node3 [block_at 0; block_at 1; block_at 2]
    started_in_step run3 (ck_storable all_checked) ltac:(cbn [app length]; lia)).
Defined.

Lemma node3_in_step : in_step node3 [block_at 0; block_at 1; block_at 2].
Proof.
  exact (proj1 (processBlocks_in_step limit 128 places_marshal blocks started [] node3 [block_at 0; block_at 1; block_at 2]
    started_in_step run3 (ck_storable all_checked) ltac:(cbn [app length]; lia))).
Qed.

Lemma ledger_path_found_witness :
  ∃ path first last_block, getLedgerPath (bp_db node3) (bp_blockStore node3) "admin" 1 3 = Some (Ok path) ∧
    [block_at 0; block_at 1; block_at 2] !! 0%nat = Some first ∧ [block_at 0; block_at 1; block_at 2] !! 2%nat = Some last_block ∧
    head path = Some (Header last_block) ∧ last path = Some (Header first) ∧ hash_path path ∧
    Z.of_nat (length path) ≤ 2 * Z.log2 (3 - 1) + 3.
Proof.
  exact (ledger_path_found (bp_db node3) (bp_blockStore node3) [block_at 0; block_at 1; block_at 2] "admin" 1 3
    (is_store _ _ node3_in_step) (is_linked _ _ node3_in_step) (ck_access all_checked) ltac:(lia) ltac:(cbn [length]; lia)).
Defined.

(** ** A stop after a block reached the block store *)





(** A database that is created with an index loses it in a recovery: the committer
    removes the index from the transaction before the block is stored.  After a stop the
    database is there and its index database is not, although the uninterrupted commit has
    both; and the stored transaction no longer matches the Merkle root of its block. *)
Theorem new_index_lost_in_recovery :
  ∃ b, validateAndCommit limit 128 db_block3 node2 = (node3, Ok (block_at 2)) ∧
    Exist (bp_db node3) (IndexDB "db2") = true ∧
    recoverWorldStateDBIfNeeded (before_provenance node2 node3) = (b, Ok tt) ∧
    Exist (bp_db b) "db2" = true ∧ Exist (bp_db b) (IndexDB "db2") = false ∧
    ∃ root, BuildTreeForBlockTx (block_at 2) = Ok root ∧ MerkleTree.Hash root ≠ TxMerkelTreeRootHash (Header (block_at 2)).
Proof.
  destruct (ck_recovered all_checked) as (n & Hn & H1 & H2). exists n.
  exact (conj (ck_run3 all_checked) (conj (ck_index all_checked) (conj Hn (conj H1 (conj H2 (ck_root all_checked)))))).
Qed.

(** ** The order of a Go map *)

Definition kv (k : string) (v : Z) : KVWithMetadata := mkKVWithMetadata k [v] None.

(** db1 holds a; one block deletes it and writes a key of db2. *)
Definition before : gmap string DBUpdates := {["db1" := mkDBUpdates [kv "a" 7] []]}.
Definition block_updates : gmap string DBUpdates :=
  {["db1" := mkDBUpdates [] ["a"]; "db2" := mkDBUpdates [kv "k6" 8] []]}.

Definition root_after (order : MapRange) : res bytes :=
  let '(t, r1) := ApplyBlockOnStateTrie (mr := order) before state0.2 in
  let '(t, r2) := ApplyBlockOnStateTrie (mr := order) block_updates t in
  _ ← r1; _ ← r2; MPTrie.Hash t.

Definition roots_differ (x y : res bytes) : bool :=
  match x, y with Ok h, Ok h' => bool_decide (h ≠ h') | _, _ => false end.

(** The state root of a block is not determined by its transactions: if a block deletes
    a key in one database and writes a key in another, the order in which a node visits the
    map of updates can decide whether the deletion survives in the trie. *)
Theorem state_root_depends_on_map_order :
  ∃ h h', root_after canonical_range = Ok h ∧ root_after reversed_range = Ok h' ∧ h ≠ h'.
Proof.
  assert (H : roots_differ (root_after canonical_range) (root_after reversed_range) = true) by (vm_compute; reflexivity).
  destruct (root_after canonical_range) as [h| |], (root_after reversed_range) as [h'| |]; try discriminate.
  apply bool_decide_eq_true in H. by exists h, h'.
Qed.

End ProcessorExample.
