(* ===== verification/QueryExecutor.v ===== *)
(** * JSON queries on the world state

    [internal/queryexecutor]: the conditions of a query are checked against the
    index definition, each attribute becomes a range of the index database, and
    the keys found for the attributes are intersected or united.

    The context of the request is not cancelled here; each attribute's goroutine
    runs on its own and only its result counts, so they run one after the other. *)

From S2P Require Import Prelude StringOrder Types JSON JSONPrint WorldState Snapshot IndexEncoding StateIndex.

(** ** [pkg/constants/query.go] *)

Definition QueryOpAnd : string := "$and".
Definition QueryOpOr : string := "$or".
Definition QueryOpEqual : string := "$eq".
Definition QueryOpNotEqual : string := "$neq".
Definition QueryOpGreaterThan : string := "$gt".
Definition QueryOpLesserThan : string := "$lt".
Definition QueryOpGreaterThanOrEqual : string := "$gte".
Definition QueryOpLesserThanOrEqual : string := "$lte".
Definition QueryFieldSelector : string := "selector".

(** The slice of a [$neq] condition: encoded numbers are strings. *)
Inductive QuerySlice :=
  | QStrings (l : list string)
  | QBools (l : list bool).

(** The conditions of an attribute by operator.  The condition [$neq], the only
    one whose value is a slice, is kept apart from the others. *)
Record attributeTypeAndConditions := mkConditions {
  valueType : IndexAttributeType;
  conditions : gmap string IndexValue;
  notEqual : option QuerySlice;
}.

Abbreviation attributeToConditions := (gmap string attributeTypeAndConditions).

(** [len(conds.conditions)] *)
Definition conditions_len (c : attributeTypeAndConditions) : nat :=
  size (conditions c) + match notEqual c with Some _ => 1 | None => 0 end.

(** ** Checking the conditions *)

(** [strings.ToLower(t.String())] *)
Definition type_name (t : IndexAttributeType) : string :=
  match t with
  | IndexAttributeType_NUMBER => "number"
  | IndexAttributeType_STRING => "string"
  | IndexAttributeType_BOOLEAN => "boolean"
  | IndexAttributeType_Unknown n => pretty n
  end.

Definition isValidLogicalOperator (opt : string) : bool :=
  bool_decide (opt ∈ [QueryOpEqual; QueryOpNotEqual; QueryOpGreaterThan; QueryOpLesserThan;
                      QueryOpGreaterThanOrEqual; QueryOpLesserThanOrEqual]).

Definition type_mismatch {A} (t : IndexAttributeType) (provided : string) : res A :=
  Err (PlainErr ("the actual type [" +:+ type_name t +:+ "] does not match the provided type" +:+ provided)).

(** For [null], the type of a nil interface is asked for its kind. *)
Definition constructInternalValueForNonSliceType (v : json) (t : IndexAttributeType) : res IndexValue :=
  match v with
  | JNumber lit =>
    match t with
    | IndexAttributeType_NUMBER =>
      match ParseInt64 lit with
      | Some n => Ok (IVNumber (EncodeInt64 n))
      | None => Err (PlainErr ("strconv.ParseInt: parsing " +:+ lit))
      end
    | _ => type_mismatch t " [number]"
    end
  | JString s =>
    match t with
    | IndexAttributeType_STRING => Ok (IVString s)
    | _ => type_mismatch t " [string]"
    end
  | JBool b =>
    match t with
    | IndexAttributeType_BOOLEAN => Ok (IVBool b)
    | _ => type_mismatch t " [bool]"
    end
  | JArray _ => type_mismatch t " [slice]"
  | JObject _ => type_mismatch t " [map]"
  | JNull => Panic "invalid memory address or nil pointer dereference"
  end.

(** One item of the array, appended to the slice of its kind. *)
Definition sliceItem (t : IndexAttributeType) (acc : list string * list bool) (item : json)
    : res (list string * list bool) :=
  let '(s, b) := acc in
  match t, item with
  | IndexAttributeType_STRING, JString i => Ok (s ++ [i], b)
  | IndexAttributeType_BOOLEAN, JBool i => Ok (s, b ++ [i])
  | IndexAttributeType_NUMBER, JNumber lit =>
    match ParseInt64 lit with
    | Some v => Ok (s ++ [EncodeInt64 v], b)
    | None => type_mismatch t ""
    end
  | _, _ => type_mismatch t ""
  end.

(** [None] for an empty array *)
Definition constructInternalValueForSliceType (v : json) (t : IndexAttributeType) : res (option QuerySlice) :=
  match v with
  | JArray items =>
    '(s, b) ← res_foldM (sliceItem t) ([], []) items;
    Ok (if bool_decide (0 < length s) then Some (QStrings s)
        else if bool_decide (0 < length b) then Some (QBools b)
        else None)
  | _ => Err (PlainErr "query syntex error: array should be used for $neq condition")
  end.

(** [_, ok := conds[op]] *)
Definition has_op (conds : attributeTypeAndConditions) (op : string) : bool :=
  bool_decide (is_Some (conditions conds !! op)).

Definition validateAttrConditions (conds : attributeTypeAndConditions) : res unit :=
  let has := has_op conds in
  if has QueryOpEqual && bool_decide (1 < conditions_len conds) then
    Err (PlainErr ("with [" +:+ QueryOpEqual +:+ "] condition, no other condition should be provided"))
  else if has QueryOpGreaterThan && has QueryOpGreaterThanOrEqual then
    Err (PlainErr ("use either [" +:+ QueryOpGreaterThan +:+ "] or [" +:+ QueryOpGreaterThanOrEqual +:+ "] but not both"))
  else if has QueryOpLesserThan && has QueryOpLesserThanOrEqual then
    Err (PlainErr ("use either [" +:+ QueryOpLesserThan +:+ "] or [" +:+ QueryOpLesserThanOrEqual +:+ "] but not both"))
  else Ok tt.

(** One operator of an attribute's condition. *)
Definition addCondition (attr : string) (conds : attributeTypeAndConditions) (opr : string) (v : json)
    : res attributeTypeAndConditions :=
  let attrType := valueType conds in
  if negb (isValidLogicalOperator opr) then
    Err (PlainErr ("invalid logical operator [" +:+ opr +:+ "] provided for the attribute [" +:+ attr +:+ "]"))
  else if bool_decide (opr = QueryOpNotEqual) then
    internalVal ← wrap_err ("attribute [" +:+ attr +:+ "] is indexed but incorrect value type provided in the query")
                    (constructInternalValueForSliceType v attrType);
    Ok (match internalVal with
        | Some l => mkConditions attrType (conditions conds) (Some l)
        | None => conds
        end)
  else
    internalVal ← wrap_err ("attribute [" +:+ attr +:+
                            "] is indexed but the value type provided in the query does not match the actual indexed type")
                    (constructInternalValueForNonSliceType v attrType);
    Ok (mkConditions attrType (<[opr := internalVal]> (conditions conds)) (notEqual conds)).

(** The conditions on one attribute. *)
Definition disectAttribute (indexDef : gmap string IndexAttributeType) (attr : string) (c : json)
    : res attributeTypeAndConditions :=
  match indexDef !! attr with
  | None => Err (PlainErr ("attribute [" +:+ attr +:+ "] given in the query condition is not indexed"))
  | Some attrType =>
    match c with
    | JObject cond =>
      if bool_decide (cond = []) then
        Err (PlainErr ("no condition provided for the attribute [" +:+ attr +:+
                       "]. All given attributes must have a condition"))
      else
        conds ← res_foldM (fun conds '(opr, v) => addCondition attr conds opr v)
                  (mkConditions attrType ∅ None) cond;
        wrap_err ("query syntax error near attribute [" +:+ attr +:+ "]") (validateAttrConditions conds);;
        Ok conds
    | _ => Err (PlainErr ("query syntax error near the attribute [" +:+ attr +:+ "]"))
    end
  end.

(** The conditions on all attributes of a query. *)
Definition disectConditions (indexDef : gmap string IndexAttributeType) (conds : list (string * json))
    : res attributeToConditions :=
  res_foldM (fun (queryConditions : attributeToConditions) '(attr, c) =>
    conds ← disectAttribute indexDef attr c; Ok (<[attr := conds]> queryConditions)) ∅ conds.

(** ** Planning *)

(** The value of an entry for an item of a [$neq] slice, and the item as a key
    of the [map[interface{}]] of excluded values. *)
Definition sliceValue (t : IndexAttributeType) (item : string) : IndexValue :=
  match t with IndexAttributeType_NUMBER => IVNumber item | _ => IVString item end.

Record rangeQueryPlan := mkPlan {
  startKey : IndexEntry;
  endKey : IndexEntry;
  excludeKeys : gmap (string + bool) IndexEntry;
}.

Definition excludeEntries (attribute : string) (t : IndexAttributeType) (l : list ((string + bool) * IndexValue))
    : gmap (string + bool) IndexEntry :=
  foldl (fun m '(item, v) => <[item := mkIndexEntry attribute t Existing v Ending ""]> m) ∅ l.

Definition planExcludes (attribute : string) (conds : attributeTypeAndConditions)
    : res (gmap (string + bool) IndexEntry) :=
  match notEqual conds with
  | None => Ok ∅
  | Some v =>
    match valueType conds with
    | IndexAttributeType_BOOLEAN =>
      match v with
      | QBools l => Ok (excludeEntries attribute (valueType conds) ((fun b => (inr b, IVBool b)) <$> l))
      | QStrings _ => Panic "interface conversion: interface {} is []string, not []bool"
      end
    | IndexAttributeType_STRING | IndexAttributeType_NUMBER =>
      match v with
      | QStrings l =>
        Ok (excludeEntries attribute (valueType conds) ((fun s => (inl s, sliceValue (valueType conds) s)) <$> l))
      | QBools _ => Panic "interface conversion: interface {} is []bool, not []string"
      end
    | IndexAttributeType_Unknown _ => Ok ∅
    end
  end.

(** Assignments to the fields of a key of the plan. *)
Definition at_value (e : IndexEntry) (v : IndexValue) (kp : Z) : IndexEntry :=
  mkIndexEntry (Attribute e) (IE_Type e) Existing v kp (IE_Key e).
Definition at_position (e : IndexEntry) (vp : Z) : IndexEntry :=
  mkIndexEntry (Attribute e) (IE_Type e) vp (IE_Value e) (KeyPosition e) (IE_Key e).

Definition setPlanForSingleCondition (c : string) (v : IndexValue) (p : rangeQueryPlan) : rangeQueryPlan :=
  let '(mkPlan s e ex) := p in
  if bool_decide (c = QueryOpEqual) then mkPlan (at_value s v Beginning) (at_value e v Ending) ex
  else if bool_decide (c = QueryOpGreaterThan) then mkPlan (at_value s v Ending) (at_position e Ending) ex
  else if bool_decide (c = QueryOpGreaterThanOrEqual) then mkPlan (at_value s v Beginning) (at_position e Ending) ex
  else if bool_decide (c = QueryOpLesserThan) then mkPlan (at_position s Beginning) (at_value e v Beginning) ex
  else if bool_decide (c = QueryOpLesserThanOrEqual) then mkPlan (at_position s Beginning) (at_value e v Ending) ex
  else p.

Definition setPlanForMultipleConditions (conds : list (string * IndexValue)) (p : rangeQueryPlan) : rangeQueryPlan :=
  foldl (fun p '(c, v) =>
    let s := at_position (startKey p) Existing in
    let e := at_position (endKey p) Existing in
    let ex := excludeKeys p in
    if bool_decide (c = QueryOpGreaterThan) then mkPlan (at_value s v Ending) e ex
    else if bool_decide (c = QueryOpGreaterThanOrEqual) then mkPlan (at_value s v Beginning) e ex
    else if bool_decide (c = QueryOpLesserThan) then mkPlan s (at_value e v Beginning) ex
    else if bool_decide (c = QueryOpLesserThanOrEqual) then mkPlan s (at_value e v Ending) ex
    else mkPlan s e ex) p conds.

Section Executor.
Context {SN : Type} `{!DBsSnapshot SN} {mr : MapRange}.
Implicit Types (db : SN).

Definition validateAndDisectConditions db (dbName : string) (conds : list (string * json)) : res attributeToConditions :=
  '(marshledIndexDef, _) ← SnapGetIndexDefinition db dbName;
  if bool_decide (marshledIndexDef = []) then
    Err (PlainErr ("no index has been defined on the database " +:+ dbName))
  else
    indexDef ← UnmarshalIndexDef marshledIndexDef;
    disectConditions indexDef conds.

Definition createQueryPlan (attribute : string) (conds : attributeTypeAndConditions) : res rangeQueryPlan :=
  ex ← planExcludes attribute conds;
  let new := mkIndexEntry attribute (valueType conds) 0 IVNil 0 "" in
  let cs := range (conditions conds) in
  Ok (if bool_decide (0 < size ex) && bool_decide (length cs = 0) then
        mkPlan (at_position new Beginning) (at_position new Ending) ex
      else
        let p := mkPlan new new ∅ in
        let p := match cs with
                 | [(c, v)] => setPlanForSingleCondition c v p
                 | _ => setPlanForMultipleConditions cs p
                 end in
        mkPlan (startKey p) (endKey p) ex).

(** ** Running a plan *)

(** [iter.Seek]: the entries of the range from the key on. *)
Fixpoint seek (all : list (string * bytes)) (key : string) : list (string * bytes) :=
  match all with
  | [] => []
  | e :: all' => if String.ltb e.1 key then seek all' key else all
  end.

(** [plan.excludeKeys[indexEntry.Value]]: a slice or a map cannot be a key. *)
Definition excluded (ex : gmap (string + bool) IndexEntry) (v : json)
    : res (option ((string + bool) * IndexEntry)) :=
  let found key := match ex !! key with Some e => Some (key, e) | None => None end in
  match v with
  | JString s => Ok (found (inl s))
  | JBool b => Ok (found (inr b))
  | JArray _ | JObject _ => Panic "runtime error: hash of unhashable type"
  | JNull | JNumber _ => Ok None
  end.

(** The inner loop: skips the values that are excluded, and returns the entries
    that are left to visit, the excluded values left and the keys found. *)
Fixpoint skipExcluded (fuel : nat) (all rest : list (string * bytes)) (ex : gmap (string + bool) IndexEntry)
    (indexEntry : LoadedEntry) (keys : gset string)
    : res (list (string * bytes) * gmap (string + bool) IndexEntry * gset string) :=
  match fuel with
  | 0 => Panic "out of fuel"
  | S fuel =>
    found ← excluded ex (LE_Value indexEntry);
    match found with
    | None => Ok (rest, ex, {[LE_Key indexEntry]} ∪ keys)
    | Some (value, seekKey) =>
      key ← EntryString seekKey;
      match seek all key with
      | [] => Ok ([], ex, keys)
      | (k, _) :: rest =>
        indexEntry ← Load k;
        skipExcluded fuel all rest (delete value ex) indexEntry keys
      end
    end
  end.

Fixpoint runPlan (fuel : nat) (all rest : list (string * bytes)) (ex : gmap (string + bool) IndexEntry)
    (keys : gset string) : res (gset string) :=
  match rest with
  | [] => Ok keys
  | (k, _) :: rest =>
    match fuel with
    | 0 => Panic "out of fuel"
    | S fuel =>
      indexEntry ← Load k;
      if bool_decide (size ex = 0) then runPlan fuel all rest ex ({[LE_Key indexEntry]} ∪ keys)
      else
        '(rest, ex, keys) ← skipExcluded (size ex + 1) all rest ex indexEntry keys;
        runPlan fuel all rest ex keys
    end
  end.

Definition execute db (dbName attribute : string) (conds : attributeTypeAndConditions) : res (gset string) :=
  plan ← createQueryPlan attribute conds;
  startKey ← EntryString (startKey plan);
  endKey ← EntryString (endKey plan);
  iter ← SnapGetIterator db (IndexDB dbName) startKey endKey;
  runPlan (length iter * (size (excludeKeys plan) + 1)) iter iter (excludeKeys plan) ∅.

Definition executeAllConditions db (dbName : string) (attrsConds : attributeToConditions)
    : res (gmap string (gset string)) :=
  res_foldM (fun (attrKeys : gmap string (gset string)) '(attr, conds) =>
    keys ← execute db dbName attr conds; Ok (<[attr := keys]> attrKeys)) ∅ (range attrsConds).

(** ** Combining *)

(** The smallest set, and its attribute. *)
Definition minKeys (attrToKeys : gmap string (gset string)) : option (string * gset string) :=
  foldl (fun (acc : option (string * gset string)) '(attr, keys) =>
    match acc with
    | None => Some (attr, keys)
    | Some (_, min) => if bool_decide (size keys < size min) then Some (attr, keys) else acc
    end) None (range attrToKeys).

Definition intersection (attrToKeys : gmap string (gset string)) : gset string :=
  match minKeys attrToKeys with
  | None => ∅
  | Some (minAttr, min) =>
    foldl (fun (left : gset string) k =>
      foldl (fun (left : gset string) '(attr, keys) =>
        if bool_decide (attr = minAttr) then left
        else if bool_decide (k ∈ (keys : gset string)) then left else left ∖ {[k]})
        left (range attrToKeys)) min (elements min)
  end.

Definition union_keys (attrToKeys : gmap string (gset string)) : gset string :=
  foldl (fun (all : gset string) '(_, keys) =>
    foldl (fun (all : gset string) k => {[k]} ∪ all) all (elements (keys : gset string)))
    ∅ (range attrToKeys).

Definition executeAND db (dbName : string) (attrsConds : attributeToConditions) : res (gset string) :=
  attrKeys ← executeAllConditions db dbName attrsConds; Ok (intersection attrKeys).

Definition executeOR db (dbName : string) (attrsConds : attributeToConditions) : res (gset string) :=
  attrKeys ← executeAllConditions db dbName attrsConds; Ok (union_keys attrKeys).

(** ** The query *)

Definition lookup_field (name : string) (fields : list (string * json)) : option json :=
  (list_to_map fields : gmap string json) !! name.

Definition ExecuteQuery db (dbName : string) (selector : bytes) : res (gset string) :=
  match DecodeObject selector with
  | None => Err (PlainErr "error decoding the query")
  | Some query =>
    match lookup_field QueryFieldSelector query with
    | None => Err (PlainErr "selector field is missing in the query")
    | Some (JObject query) =>
      if bool_decide (query = []) then Err (PlainErr "query conditions cannot be empty")
      else
        match lookup_field QueryOpAnd query, lookup_field QueryOpOr query with
        | None, None =>
          disectedConditions ← validateAndDisectConditions db dbName query;
          executeAND db dbName disectedConditions
        | Some _, Some _ => Err (PlainErr "there must be a single upper level combination operator")
        | Some (JObject c), None =>
          disectedConditions ← validateAndDisectConditions db dbName c;
          executeAND db dbName disectedConditions
        | Some _, None => Err (PlainErr "query syntax error near $and")
        | None, Some (JObject c) =>
          disectedConditions ← validateAndDisectConditions db dbName c;
          executeOR db dbName disectedConditions
        | None, Some _ => Err (PlainErr "query syntax error near $or")
        end
    | Some _ => Err (PlainErr ("query syntax error near " +:+ QueryFieldSelector))
    end
  end.

End Executor.
