(* ===== verification/IndexText.v ===== *)
(** * What an index database holds

    The entries of JSON values are well formed, their texts are read back by
    [IndexEntry.Load], and the order of the texts is the order of the values. *)

From S2P Require Import Prelude StringOrder Types JSON JSONPrint WorldState IndexEncoding StateIndex.
From Stdlib Require Import Ascii.

#[local] Arguments String.append !_ _ /.

(** ** Decoded values are UTF-8 text *)

Inductive json_utf8 : json → Prop :=
  | ju_null : json_utf8 JNull
  | ju_bool b : json_utf8 (JBool b)
  | ju_number lit : json_utf8 (JNumber lit)
  | ju_string s : utf8_valid s = true → json_utf8 (JString s)
  | ju_array l : Forall json_utf8 l → json_utf8 (JArray l)
  | ju_object fields : Forall (fun p => utf8_valid p.1 = true ∧ json_utf8 p.2) fields → json_utf8 (JObject fields).

Lemma fields_map_elem fields k v : fields_map fields !! k = Some v → (k, v) ∈ fields.
Proof.
  assert (Hgen : ∀ m : gmap string json, foldl (fun m '(k, v) => <[k := v]> m) m fields !! k = Some v →
    (k, v) ∈ fields ∨ m !! k = Some v).
  { induction fields as [|[k' v'] fields IH]; intros m H; cbn in H; [by right|].
    apply IH in H as [H|H]; [left; by right|]. destruct (decide (k' = k)) as [->|Hne].
    - rewrite lookup_insert_eq in H. injection H as ->. left. by left.
    - rewrite lookup_insert_ne in H by done. by right. }
  intros [H|H]%Hgen; [done|by rewrite lookup_empty in H].
Qed.

Section Text.
Context {mr : MapRange}.

Lemma parse_utf8 f :
  (∀ d s v r, parse_value f d s = Some (v, r) → json_utf8 v) ∧
  (∀ d s l r, parse_members f d s = Some (l, r) → Forall (fun p => utf8_valid p.1 = true ∧ json_utf8 p.2) l) ∧
  (∀ d s l r, parse_elements f d s = Some (l, r) → Forall json_utf8 l).
Proof.
  induction f as [|f (IHv & IHm & IHe)]; [done|]. split_and!; intros d s v r H; cbn in H.
  - destruct (skip_space s) as [|c s1]; [done|].
    repeat (case_match; simplify_option_eq; try done); try by repeat constructor.
    + constructor. apply Forall_forall. intros [k x] Hin%elem_of_range. apply fields_map_elem in Hin.
      match goal with H : parse_members _ _ _ = Some _ |- _ => apply IHm in H; rewrite Forall_forall in H; by apply (H _ Hin) end.
    + constructor. by eapply IHe.
    + constructor. by eapply unquote_valid.
  - simplify_option_eq; repeat (case_match; simplify_option_eq; try done);
      repeat match goal with
             | H : unquote _ = Some _ |- _ => apply unquote_valid in H as [H _]
             | H : parse_value _ _ _ = Some _ |- _ => apply IHv in H
             | H : parse_members _ _ _ = Some _ |- _ => apply IHm in H
             end; by repeat constructor.
  - simplify_option_eq; repeat (case_match; simplify_option_eq; try done);
      repeat match goal with
             | H : parse_value _ _ _ = Some _ |- _ => apply IHv in H
             | H : parse_elements _ _ _ = Some _ |- _ => apply IHe in H
             end; by repeat constructor.
Qed.

Lemma decode_object_utf8 v fields : DecodeObject v = Some fields → json_utf8 (JObject fields).
Proof.
  unfold DecodeObject, parse_json. intros H.
  destruct (parse_value _ 0 _) as [[x r]|] eqn:E; [|done]. apply (proj1 (parse_utf8 _)) in E.
  destruct x; simplify_eq; [by repeat constructor|done].
Qed.

End Text.

(** ** Entries *)

Definition value_typed (t : IndexAttributeType) (v : IndexValue) : Prop :=
  match t, v with
  | IndexAttributeType_NUMBER, IVNumber s => ∃ n, int64 n ∧ s = EncodeInt64 n
  | IndexAttributeType_STRING, IVString s => utf8_valid s = true
  | IndexAttributeType_BOOLEAN, IVBool _ => True
  | _, _ => False
  end.

(** An entry of a value under an index. *)
Record entry_wf (index : gmap string IndexAttributeType) (e : IndexEntry) : Prop := {
  ew_type : index !! Attribute e = Some (IE_Type e);
  ew_attr : utf8_valid (Attribute e) = true;
  ew_vp : ValuePosition e = Existing;
  ew_value : value_typed (IE_Type e) (IE_Value e);
  ew_kp : KeyPosition e = Existing;
  ew_key : utf8_valid (IE_Key e) = true;
}.

Lemma ParseInt64_range s n : ParseInt64 s = Some n → int64 n.
Proof. unfold ParseInt64, int64. intros H. simplify_option_eq. lia. Qed.

Lemma isTypeSame_typed x t v : json_utf8 x → isTypeSame x t = Some v → value_typed t v.
Proof.
  intros Hx H. destruct x as [|b|lit|s|l|fs], t; cbn in H; try done.
  - injection H as <-. done.
  - destruct (ParseInt64 lit) as [n|] eqn:Hn; [|done]. injection H as <-.
    exists n. split; [by eapply ParseInt64_range|done].
  - injection H as <-. by inversion Hx.
Qed.

Lemma entryForAttribute_wf index attr x e :
  utf8_valid attr = true → json_utf8 x → e ∈ entryForAttribute index attr x → entry_wf index e ∧ IE_Key e = "".
Proof.
  unfold entryForAttribute. intros Ha Hx He. destruct (index !! attr) as [t|] eqn:Ht; [|set_solver].
  destruct (isTypeSame x t) as [v|] eqn:Hv; [|set_solver]. apply list_elem_of_singleton in He as ->.
  apply isTypeSame_typed in Hv; [|done]. by split; [split|].
Qed.

(** The induction follows the nested structure of values. *)
Fixpoint partial_wf index v {struct v} : json_utf8 v → ∀ e, e ∈ partialIndexEntriesForValue index v →
  entry_wf index e ∧ IE_Key e = "".
Proof.
  destruct v as [| | | | |fields]; intros Hv e He; cbn in He; try by inversion He.
  assert (Hf : Forall (fun p => utf8_valid p.1 = true ∧ json_utf8 p.2) fields) by (by inversion Hv).
  clear Hv. induction fields as [|[attr x] fields IH]; [by inversion He|].
  apply Forall_cons in Hf as [[Ha Hx] Hf]. cbn in Ha, Hx. apply elem_of_app in He as [He|He]; [|by apply IH].
  pose proof (partial_wf index x Hx) as IHx. clear partial_wf IH.
  destruct x; first [by eapply entryForAttribute_wf|by apply IHx].
Qed.

Lemma decoded_entry_wf {mr : MapRange} index k v e : utf8_valid k = true →
  e ∈ decodeJSONAndConstructIndexEntries k v index → entry_wf index e ∧ IE_Key e = k.
Proof.
  unfold decodeJSONAndConstructIndexEntries. intros Hk He.
  destruct (DecodeObject v) as [val|] eqn:Hd; [|set_solver]. apply decode_object_utf8 in Hd.
  apply list_elem_of_fmap in He as (e' & -> & He'). destruct (partial_wf _ _ Hd _ He') as [[] _]. by split; [split|].
Qed.

(** ** Reading entries back *)

(** The value of an entry as it is decoded. *)
Definition value_json (v : IndexValue) : json :=
  match v with
  | IVNumber s | IVString s => JString s
  | IVBool b => JBool b
  | IVNil => JNull
  end.

Definition loaded (e : IndexEntry) : LoadedEntry :=
  mkLoadedEntry (Attribute e) (type_number (IE_Type e)) (ValuePosition e) (value_json (IE_Value e))
    (KeyPosition e) (IE_Key e).

Lemma EncodeInt64_ascii n : string_forallb (fun c => (code c <? 0x80)%Z) (EncodeInt64 n) = true.
Proof.
  pose proof (EncodeInt64_hex n) as H. induction (EncodeInt64 n) as [|c s IH]; [done|]. cbn in *.
  apply andb_true_iff in H as [Hc Hs]. rewrite IH by done. unfold hex_code, code in *. lia.
Qed.

Lemma value_typed_utf8 t v : value_typed t v →
  match v with IVNumber s | IVString s => utf8_valid s = true | _ => True end.
Proof.
  destruct t, v; cbn; try done. intros (n & _ & ->). apply ascii_string_valid, EncodeInt64_ascii.
Qed.

Section Load.
Context {mr : MapRange}.

Lemma parse_value_text f d t v r : value_typed t v →
  parse_value (S f) d (value_text v +:+ "," +:+ r) = Some (value_json v, String (char 44) r).
Proof.
  intros Hv. pose proof (value_typed_utf8 _ _ Hv) as Hu. destruct t, v as [s|s|[]|]; try done; cbn [value_text value_json].
  - by rewrite parse_string_value.
  - by rewrite parse_string_value.
Qed.

Lemma parse_type f d t v r : value_typed t v →
  parse_value (S f) d (pretty (type_number t) +:+ "," +:+ r) =
    Some (JNumber (pretty (type_number t)), String (char 44) r).
Proof. destruct t; done. Qed.

Lemma parse_existing f d r :
  parse_value (S f) d (pretty Existing +:+ "," +:+ r) = Some (JNumber (pretty Existing), String (char 44) r).
Proof. done. Qed.

Definition entry_fields (e : IndexEntry) : list (string * json) :=
  [("a", JString (Attribute e)); ("t", JNumber (pretty (type_number (IE_Type e))));
   ("vp", JNumber (pretty Existing)); ("v", value_json (IE_Value e));
   ("kp", JNumber (pretty Existing)); ("k", JString (IE_Key e))].

Lemma parse_entry index e : entry_wf index e → parse_fields (entry_string e) = Some (entry_fields e).
Proof.
  intros [_ Ha Hvp Hv Hkp Hk]. unfold entry_string, entry_head. rewrite Hvp, Hkp, <- !string_app_assoc.
  set (rest := field "a" +:+ _).
  assert (Hm : ∀ f, parse_members (6 + S f) 1 rest = Some (entry_fields e, "")).
  { intros f. unfold rest, entry_fields.
    eapply parse_members_cons; [done|by apply parse_string_value|].
    eapply parse_members_cons; [done|by eapply parse_type|].
    eapply parse_members_cons; [done|apply parse_existing|].
    eapply parse_members_cons; [done|by eapply parse_value_text|].
    eapply parse_members_cons; [done|apply parse_existing|].
    eapply parse_members_last; [done|by apply parse_string_value]. }
  unfold parse_fields. change ("{" +:+ rest) with (String (char 123) rest).
  replace (expect 123 (skip_space (String (char 123) rest))) with (Some rest) by done.
  assert (Hfirst : expect 125 (skip_space rest) = None) by done. rewrite Hfirst.
  assert (Hlen : ∃ x, rest = String (char 34) (String "a" (String (char 34) x))) by (by eexists).
  set (n := String.length (String (char 123) rest)).
  assert (4 ≤ n) by (unfold n; destruct Hlen as [x ->]; cbn [String.length]; lia).
  replace (2 * n + 1) with (6 + S (2 * n - 6)) by lia. by rewrite Hm.
Qed.

(** The text of an entry is read back. *)
Lemma load_entry index e : entry_wf index e → Load (entry_string e) = Ok (loaded e).
Proof.
  intros He. unfold Load. rewrite (parse_entry index e He). destruct He as [_ _ Hvp Hv Hkp _].
  unfold loaded, entry_fields. rewrite Hvp, Hkp. destruct (IE_Type e), (IE_Value e); try done; reflexivity.
Qed.

End Load.

(** ** The order of values *)

(** The order of the values of an attribute: numbers by value, [false] before [true],
    strings by their bytes. *)
Definition value_compare (x y : IndexValue) : comparison :=
  match x, y with
  | IVNumber a, IVNumber b =>
    match decodeInt64 a, decodeInt64 b with
    | Ok m, Ok n => (m ?= n)%Z
    | _, _ => Eq
    end
  | IVString a, IVString b => String.compare a b
  | IVBool a, IVBool b =>
    match a, b with false, true => Lt | true, false => Gt | _, _ => Eq end
  | _, _ => Eq
  end.

(** The order of their texts in the index, which is another one for strings. *)
Definition index_compare (x y : IndexValue) : comparison :=
  match x, y with
  | IVNumber a, IVNumber b =>
    match decodeInt64 a, decodeInt64 b with
    | Ok m, Ok n => (m ?= n)%Z
    | _, _ => Eq
    end
  | IVString a, IVString b => String.compare (json_string a) (json_string b)
  | IVBool a, IVBool b =>
    match a, b with false, true => Lt | true, false => Gt | _, _ => Eq end
  | _, _ => Eq
  end.

(** The characters above the quotation mark that JSON writes as they are. *)
Definition plain_code (c : ascii) : bool :=
  ((34 <? code c) && (code c <? 128) && negb ((code c =? 38) || (code c =? 60) || (code c =? 62) || (code c =? 92)))%Z.

Definition plain_value (v : IndexValue) : Prop :=
  match v with IVString s => string_forallb plain_code s = true | _ => True end.

Lemma hex_plain s : string_forallb hex_code s = true → string_forallb plain_code s = true.
Proof.
  induction s as [|c s IH]; [done|]. cbn [string_forallb]. rewrite !andb_true_iff. intros [Hc Hs]. split; [|by apply IH].
  unfold hex_code in Hc. fold (code c) in Hc. unfold plain_code. lia.
Qed.

Lemma escape_plain s : string_forallb plain_code s = true → escape s = s.
Proof.
  unfold escape. induction s as [|c s IH]; [done|]. cbn [string_forallb]. intros [Hc Hs]%andb_true_iff.
  unfold plain_code in Hc. cbn [escape_from].
  assert ((code c <? 0x80)%Z = true) as -> by lia. rewrite IH by done.
  unfold escape_ascii. repeat (case_match; [exfalso; lia|]). done.
Qed.

Lemma compare_quoted a b : string_forallb plain_code a = true → string_forallb plain_code b = true →
  String.compare (a +:+ quote) (b +:+ quote) = String.compare a b.
Proof.
  assert (Hq : ∀ c, plain_code c = true → Ascii.compare (char 34) c = Lt).
  { intros c Hc. unfold plain_code, code in Hc. unfold Ascii.compare. apply N.compare_lt_iff.
    change (N_of_ascii (char 34)) with 34%N. lia. }
  revert b. induction a as [|c a IH]; intros [|d b] Ha Hb; cbn [string_forallb] in *.
  - done.
  - apply andb_true_iff in Hb as [Hd _]. unfold quote. cbn [String.append String.compare]. by rewrite Hq.
  - apply andb_true_iff in Ha as [Hc _]. unfold quote. cbn [String.append String.compare].
    unfold Ascii.compare. rewrite N.compare_antisym. apply Hq in Hc. unfold Ascii.compare in Hc. by rewrite Hc.
  - apply andb_true_iff in Ha as [_ Ha], Hb as [_ Hb]. cbn [String.append String.compare]. by rewrite IH.
Qed.

(** The text of a plain string is the string in quotation marks. *)
Lemma compare_plain a b : string_forallb plain_code a = true → string_forallb plain_code b = true →
  String.compare (json_string a) (json_string b) = String.compare a b.
Proof. intros Ha Hb. unfold json_string. by rewrite !escape_plain, compare_same, compare_quoted. Qed.

(** The index orders the values of an attribute as [index_compare] does. *)
Lemma value_text_compare t x y : value_typed t x → value_typed t y →
  String.compare (value_text x) (value_text y) = index_compare x y.
Proof.
  destruct t, x as [a|a|a|], y as [b|b|b|]; cbn [value_typed]; try done.
  - intros (m & Hm & ->) (n & Hn & ->). cbn [value_text index_compare].
    rewrite !decodeInt64_encode by done. rewrite compare_plain by apply hex_plain, EncodeInt64_hex.
    by rewrite EncodeInt64_compare.
  - by destruct a, b.
Qed.

Lemma index_compare_eq t x y : value_typed t x → value_typed t y → index_compare x y = Eq ↔ x = y.
Proof.
  intros Hx Hy. rewrite <- (value_text_compare t x y Hx Hy), string_compare_eq. split; [|by intros ->].
  pose proof (value_typed_utf8 _ _ Hx) as Ux. pose proof (value_typed_utf8 _ _ Hy) as Uy.
  destruct t, x as [a|a|[]|], y as [b|b|[]|]; try done; cbn [value_text]; intros H; f_equal; by apply json_string_inj.
Qed.

(** On plain strings, and on other values, the index has the order of the values; it
    never takes different values for equal. *)
Lemma index_compare_plain t x y : value_typed t x → value_typed t y → plain_value x → plain_value y →
  index_compare x y = value_compare x y.
Proof. destruct t, x, y; try done. intros _ _. apply compare_plain. Qed.

Lemma value_compare_eq t x y : value_typed t x → value_typed t y → value_compare x y = Eq ↔ x = y.
Proof.
  destruct t, x as [a|a|a|], y as [b|b|b|]; try done; intros Hx Hy.
  - exact (index_compare_eq IndexAttributeType_NUMBER (IVNumber a) (IVNumber b) Hx Hy).
  - cbn. rewrite string_compare_eq. split; congruence.
  - destruct a, b; split; done || by intros [=].
Qed.
