(* ===== verification/QueryProofs.v ===== *)
(** * What a query returns

    The range planned for the conditions on an attribute holds the index entries
    whose values satisfy them, the scan of the range skips the excluded values and
    nothing else, and the keys found are combined as the query says. *)

From S2P Require Import Prelude StringOrder Types JSON WorldState Snapshot IndexEncoding StateIndex.
From S2P Require Import QueryExecutor IndexText.

(** ** What a condition means *)

(** Whether [x op v] holds, in an order of the values. *)
Definition op_holds (compare : IndexValue → IndexValue → comparison) (op : string) (v x : IndexValue) : bool :=
  match compare x v with
  | Lt => bool_decide (op ∈ [QueryOpLesserThan; QueryOpLesserThanOrEqual])
  | Eq => bool_decide (op ∈ [QueryOpEqual; QueryOpGreaterThanOrEqual; QueryOpLesserThanOrEqual])
  | Gt => bool_decide (op ∈ [QueryOpGreaterThan; QueryOpGreaterThanOrEqual])
  end.

Definition slice_values (t : IndexAttributeType) (l : QuerySlice) : list IndexValue :=
  match l with
  | QStrings l => sliceValue t <$> l
  | QBools l => IVBool <$> l
  end.

(** A value satisfies the conditions on its attribute. *)
Definition conds_hold (compare : IndexValue → IndexValue → comparison) (c : attributeTypeAndConditions) (x : IndexValue) : Prop :=
  (∀ op v, conditions c !! op = Some v → op_holds compare op v x = true) ∧
  (∀ l, notEqual c = Some l → x ∉ slice_values (valueType c) l).

(** What the checks of a query leave of the conditions on an attribute. *)
Record conds_wf (c : attributeTypeAndConditions) : Prop := {
  cw_ops : ∀ op v, conditions c !! op = Some v →
    op ∈ [QueryOpEqual; QueryOpGreaterThan; QueryOpLesserThan; QueryOpGreaterThanOrEqual; QueryOpLesserThanOrEqual] ∧
    value_typed (valueType c) v;
  cw_slice : ∀ l, notEqual c = Some l → slice_values (valueType c) l ≠ [] ∧
    Forall (value_typed (valueType c)) (slice_values (valueType c) l);
  cw_valid : validateAttrConditions c = Ok tt;
}.

(** ** The planned range *)

Lemma index_compare_antisym t x y : value_typed t x → value_typed t y →
  index_compare y x = CompOpp (index_compare x y).
Proof.
  intros Hx Hy. rewrite <- (value_text_compare t x y), <- (value_text_compare t y x) by done.
  apply string_compare_antisym.
Qed.

Section Plan.
Context (index : gmap string IndexAttributeType) (attr : string) (t : IndexAttributeType).
Context (Hattr : utf8_valid attr = true) (Hindex : index !! attr = Some t).

(** A key of a plan for the attribute. *)
Definition plan_key (s : IndexEntry) : Prop := Attribute s = attr ∧ IE_Type s = t.

(** The comparison of two entries of one attribute. *)
Definition body_compare (s e : IndexEntry) : comparison :=
  lex (String.compare (num (ValuePosition s)) (num (ValuePosition e)))
    (lex (String.compare (value_text (IE_Value s)) (value_text (IE_Value e)))
      (lex (String.compare (num (KeyPosition s)) (num (KeyPosition e)))
        (String.compare (json_string (IE_Key s)) (json_string (IE_Key e))))).

Definition head_compare (s e : IndexEntry) : comparison :=
  lex (String.compare (json_string (Attribute s)) (json_string (Attribute e)))
    (String.compare (num (type_number (IE_Type s))) (num (type_number (IE_Type e)))).

Lemma entry_compare_parts s e :
  String.compare (entry_string s) (entry_string e) = lex (head_compare s e) (body_compare s e).
Proof. rewrite entry_compare. unfold head_compare, body_compare. by destruct (String.compare (json_string _) _). Qed.

Lemma head_compare_eq s e : plan_key s → entry_wf index e → head_compare s e = Eq ↔ Attribute e = attr.
Proof.
  intros [Hs Ht] He. unfold head_compare. rewrite lex_eq, num_eq, string_compare_eq, Hs, Ht. split.
  - intros [H _]. symmetry. apply json_string_inj; [done|apply He|done].
  - intros <-. split; [done|]. pose proof (ew_type _ _ He) as Hty. congruence.
Qed.

Lemma head_compare_antisym s e : head_compare e s = CompOpp (head_compare s e).
Proof.
  unfold head_compare. rewrite (string_compare_antisym (json_string (Attribute s))).
  rewrite (string_compare_antisym (num (type_number (IE_Type s)))).
  by destruct (String.compare (json_string _) _).
Qed.

(** Between two keys of a plan there are entries of its attribute only. *)
Lemma in_range_entries s s' e : plan_key s → plan_key s' → entry_wf index e →
  in_range (entry_string s) (entry_string s') (entry_string e) = true ↔
  Attribute e = attr ∧ body_compare s e ≠ Gt ∧ body_compare e s' = Lt.
Proof.
  intros Hs Hs' He. unfold in_range.
  assert (Hne : ∀ e, bool_decide (entry_string e = "") = false) by (intros; by apply bool_decide_eq_false_2).
  rewrite !Hne, !orb_false_l, andb_true_iff, leb_compare, ltb_compare, !entry_compare_parts.
  rewrite (head_compare_antisym s' e). pose proof (head_compare_eq s e Hs He) as Heq.
  assert (head_compare s' e = head_compare s e) as ->.
  { unfold head_compare. destruct Hs as [-> ->], Hs' as [-> ->]. done. }
  destruct (head_compare s e) eqn:E; cbn; naive_solver.
Qed.

(** *** The ends of a range *)

Context (x : IndexValue) (Hx : value_typed t x).

(** An entry with the value [x]. *)
Definition holds_value (e : IndexEntry) : Prop :=
  ValuePosition e = Existing ∧ IE_Value e = x ∧ KeyPosition e = Existing.

Lemma body_from_beginning s e : holds_value e → body_compare (at_position s Beginning) e ≠ Gt.
Proof. intros (Hvp & _). unfold body_compare. by rewrite Hvp. Qed.

Lemma body_to_ending s e : holds_value e → body_compare e (at_position s Ending) = Lt.
Proof. intros (Hvp & _). unfold body_compare. by rewrite Hvp. Qed.

Lemma body_at_value s v kp e : holds_value e → value_typed t v →
  body_compare (at_value s v kp) e =
    lex (CompOpp (index_compare x v))
      (lex (String.compare (num kp) (num Existing)) (String.compare (json_string (IE_Key s)) (json_string (IE_Key e)))).
Proof.
  intros (Hvp & Hv & Hkp) Htv. unfold body_compare. cbn. rewrite Hvp, Hv, Hkp.
  rewrite (value_text_compare t), (index_compare_antisym t x v) by done.
  by rewrite (string_compare_refl (num Existing)).
Qed.

Lemma body_value_at s v kp e : holds_value e → value_typed t v →
  body_compare e (at_value s v kp) =
    lex (index_compare x v)
      (lex (String.compare (num Existing) (num kp)) (String.compare (json_string (IE_Key e)) (json_string (IE_Key s)))).
Proof.
  intros (Hvp & Hv & Hkp) Htv. unfold body_compare. cbn. rewrite Hvp, Hv, Hkp.
  rewrite (value_text_compare t) by done. by rewrite (string_compare_refl (num Existing)).
Qed.

Lemma from_at_least s v e : holds_value e → value_typed t v →
  body_compare (at_value s v Beginning) e ≠ Gt ↔ index_compare x v ≠ Lt.
Proof. intros He Hv. rewrite body_at_value by done. by destruct (index_compare x v). Qed.

Lemma from_above s v e : holds_value e → value_typed t v →
  body_compare (at_value s v Ending) e ≠ Gt ↔ index_compare x v = Gt.
Proof. intros He Hv. rewrite body_at_value by done. by destruct (index_compare x v). Qed.

Lemma to_below s v e : holds_value e → value_typed t v →
  body_compare e (at_value s v Beginning) = Lt ↔ index_compare x v = Lt.
Proof. intros He Hv. rewrite body_value_at by done. by destruct (index_compare x v). Qed.

Lemma to_at_most s v e : holds_value e → value_typed t v →
  body_compare e (at_value s v Ending) = Lt ↔ index_compare x v ≠ Gt.
Proof. intros He Hv. rewrite body_value_at by done. by destruct (index_compare x v). Qed.

End Plan.

#[local] Arguments at_value : simpl never.
#[local] Arguments at_position : simpl never.
#[local] Arguments body_compare : simpl never.

(** Decides the comparisons of operators in the goal. *)
Ltac decide_ops :=
  repeat match goal with
         | |- context [@bool_decide ?P ?H] =>
           let b := eval vm_compute in (@bool_decide P H) in
           lazymatch b with true => idtac | false => idtac end;
           change (@bool_decide P H) with b
         end; cbn.

(** The value of an entry as a key of the excluded values. *)
Definition key_of (v : IndexValue) : option (string + bool) :=
  match v with
  | IVNumber s | IVString s => Some (inl s)
  | IVBool b => Some (inr b)
  | IVNil => None
  end.

Lemma key_of_inj t v v' : value_typed t v → value_typed t v' → key_of v = key_of v' → v = v'.
Proof. destruct t, v, v'; cbn; try done; congruence. Qed.

Section PlanRange.
Context (index : gmap string IndexAttributeType) (attr : string) (t : IndexAttributeType).
Context (Hattr : utf8_valid attr = true) (Hindex : index !! attr = Some t).
Context {mr : MapRange}.

Definition five_ops : list string :=
  [QueryOpEqual; QueryOpGreaterThan; QueryOpLesserThan; QueryOpGreaterThanOrEqual; QueryOpLesserThanOrEqual].

Lemma entry_typed e : entry_wf index e → Attribute e = attr → value_typed t (IE_Value e) ∧ holds_value (IE_Value e) e.
Proof.
  intros [Ht _ Hvp Hv Hkp _] Ha. rewrite Ha, Hindex in Ht. injection Ht as ->. by split_and!.
Qed.

(** The range between two keys of a plan, by what their ends say of a value. *)
Lemma range_iff s s' e (P : Prop) : plan_key attr t s → plan_key attr t s' → entry_wf index e →
  (value_typed t (IE_Value e) → holds_value (IE_Value e) e → body_compare s e ≠ Gt ∧ body_compare e s' = Lt ↔ P) →
  in_range (entry_string s) (entry_string s') (entry_string e) = true ↔ Attribute e = attr ∧ P.
Proof using Hattr Hindex.
  intros Hs Hs' He HP. rewrite (in_range_entries index attr t) by done. split.
  - intros [Ha H]. destruct (entry_typed e He Ha). naive_solver.
  - intros [Ha H]. destruct (entry_typed e He Ha). naive_solver.
Qed.

Lemma single_range op v p e : op ∈ five_ops → value_typed t v →
  plan_key attr t (startKey p) → plan_key attr t (endKey p) → entry_wf index e →
  let p' := setPlanForSingleCondition op v p in
  in_range (entry_string (startKey p')) (entry_string (endKey p')) (entry_string e) = true ↔
  Attribute e = attr ∧ op_holds index_compare op v (IE_Value e) = true.
Proof using Hattr Hindex.
  intros Hop Hv Hs He Hwf. destruct p as [s e' ex]. unfold op_holds.
  unfold five_ops in *. rewrite !elem_of_cons, elem_of_nil in Hop.
  destruct Hop as [->|[->|[->|[->|[->|[]]]]]]; cbn; decide_ops; apply range_iff; try done; intros Hx Hh.
  - rewrite (from_at_least t), (to_at_most t) by done. destruct (index_compare _ v); naive_solver.
  - rewrite (from_above t) by done. pose proof (body_to_ending (IE_Value e) e' e Hh). destruct (index_compare _ v); naive_solver.
  - rewrite (to_below t) by done. pose proof (body_from_beginning (IE_Value e) s e Hh). destruct (index_compare _ v); naive_solver.
  - rewrite (from_at_least t) by done. pose proof (body_to_ending (IE_Value e) e' e Hh). destruct (index_compare _ v); naive_solver.
  - rewrite (to_at_most t) by done. pose proof (body_from_beginning (IE_Value e) s e Hh). destruct (index_compare _ v); naive_solver.
Qed.

Lemma at_position_value s v kp : at_position (at_value s v kp) Existing = at_value s v kp.
Proof. done. Qed.

Definition lower_op (op : string) : bool := bool_decide (op ∈ [QueryOpGreaterThan; QueryOpGreaterThanOrEqual]).

(** A lower and an upper bound, in either order. *)
Lemma double_range op v op' v' p e : op ∈ five_ops → op' ∈ five_ops → value_typed t v → value_typed t v' →
  op ≠ QueryOpEqual → op' ≠ QueryOpEqual →
  lower_op op = negb (lower_op op') →
  plan_key attr t (startKey p) → plan_key attr t (endKey p) → entry_wf index e →
  let p' := setPlanForMultipleConditions [(op, v); (op', v')] p in
  in_range (entry_string (startKey p')) (entry_string (endKey p')) (entry_string e) = true ↔
  Attribute e = attr ∧ op_holds index_compare op v (IE_Value e) = true ∧ op_holds index_compare op' v' (IE_Value e) = true.
Proof using Hattr Hindex.
  intros Hop Hop' Hv Hv' Hne Hne' Hdual Hs He Hwf. destruct p as [s e' ex]. unfold op_holds.
  unfold five_ops in *. rewrite !elem_of_cons, elem_of_nil in Hop, Hop'.
  destruct Hop as [->|[->|[->|[->|[->|[]]]]]]; try done;
    destruct Hop' as [->|[->|[->|[->|[->|[]]]]]]; try done;
    try (by vm_compute in Hdual);
    cbn; decide_ops; rewrite at_position_value; apply range_iff; try done; intros Hx Hh;
    first [rewrite (from_at_least t) by done|rewrite (from_above t) by done];
    first [rewrite (to_below t) by done|rewrite (to_at_most t) by done];
    destruct (index_compare _ v), (index_compare _ v'); naive_solver.
Qed.

(** Two different operators of checked conditions are a lower and an upper bound. *)
Lemma two_ops c op v op' v' : conds_wf c → conditions c !! op = Some v → conditions c !! op' = Some v' → op ≠ op' →
  op ≠ QueryOpEqual ∧ op' ≠ QueryOpEqual ∧ lower_op op = negb (lower_op op').
Proof.
  intros [Hops _ Hval] H H' Hne.
  assert (Hlen : 1 < conditions_len c).
  { unfold conditions_len. pose proof (map_size_delete_Some op (conditions c) ltac:(eauto)) as Hs.
    assert (size (delete op (conditions c)) ≠ 0); [|lia].
    apply map_size_ne_0_lookup. exists op'. rewrite lookup_delete_ne by done. eauto. }
  unfold validateAttrConditions in Hval. cbv zeta in Hval.
  assert (Hhas : ∀ op v, conditions c !! op = Some v → has_op c op = true).
  { intros o w Ho. apply bool_decide_eq_true. eauto. }
  rewrite (bool_decide_eq_true_2 (1 < conditions_len c)), andb_true_r in Hval by done.
  destruct (has_op c QueryOpEqual) eqn:Heq; [done|].
  destruct (has_op c QueryOpGreaterThan && has_op c QueryOpGreaterThanOrEqual) eqn:Hgt; [done|].
  destruct (has_op c QueryOpLesserThan && has_op c QueryOpLesserThanOrEqual) eqn:Hlt; [done|].
  pose proof (Hops _ _ H) as [Hop _]. pose proof (Hops _ _ H') as [Hop' _].
  apply Hhas in H, H'. split_and!; [congruence..|].
  rewrite !elem_of_cons, elem_of_nil in Hop, Hop'.
  destruct Hop as [->|[->|[->|[->|[->|[]]]]]]; try congruence;
    destruct Hop' as [->|[->|[->|[->|[->|[]]]]]]; try congruence; try reflexivity;
    rewrite H, H' in *; done.
Qed.

Lemma excludeEntries_lookup t' l key en :
  excludeEntries attr t' l !! key = Some en → ∃ v, (key, v) ∈ l ∧ en = mkIndexEntry attr t' Existing v Ending "".
Proof.
  unfold excludeEntries.
  assert (Hgen : ∀ m : gmap (string + bool) IndexEntry,
    foldl (fun m '(item, v) => <[item := mkIndexEntry attr t' Existing v Ending ""]> m) m l !! key = Some en →
    (∃ v, (key, v) ∈ l ∧ en = mkIndexEntry attr t' Existing v Ending "") ∨ m !! key = Some en).
  { induction l as [|[item v] l IH]; intros m H; cbn in H; [by right|].
    apply IH in H as [(w & Hw & ->)|H]; [left; exists w; split; [by right|done]|].
    destruct (decide (item = key)) as [->|Hne].
    - rewrite lookup_insert_eq in H. injection H as <-. left. exists v. split; [by left|done].
    - rewrite lookup_insert_ne in H by done. by right. }
  intros [H|H]%Hgen; [done|by rewrite lookup_empty in H].
Qed.

Lemma excludeEntries_is_Some t' l key v : (key, v) ∈ l → is_Some (excludeEntries attr t' l !! key).
Proof.
  unfold excludeEntries.
  assert (Hgen : ∀ m : gmap (string + bool) IndexEntry, (∃ v, (key, v) ∈ l) ∨ is_Some (m !! key) →
    is_Some (foldl (fun m '(item, v) => <[item := mkIndexEntry attr t' Existing v Ending ""]> m) m l !! key)).
  { induction l as [|[item w] l IH]; intros m H; cbn; [destruct H as [[v' H]|H]; [by inversion H|done]|].
    apply IH. destruct H as [[v' [[= -> ->]|H]%elem_of_cons]|H].
    - right. rewrite lookup_insert_eq. eauto.
    - left. eauto.
    - right. destruct (decide (item = key)) as [->|Hne]; [rewrite lookup_insert_eq; eauto|].
      by rewrite lookup_insert_ne. }
  intros H. apply Hgen. left. eauto.
Qed.

(** The excluded values, by the key they are looked up with. *)
Definition excludes (ex : gmap (string + bool) IndexEntry) (vs : list IndexValue) : Prop :=
  (∀ key en, ex !! key = Some en → ∃ v, v ∈ vs ∧ key_of v = Some key ∧ en = mkIndexEntry attr t Existing v Ending "") ∧
  (∀ v, v ∈ vs → ∃ key, key_of v = Some key ∧ is_Some (ex !! key)).

Lemma excludeEntries_excludes {A} (f : A → IndexValue) (g : A → string + bool) l :
  (∀ a, key_of (f a) = Some (g a)) →
  excludes (excludeEntries attr t ((fun a => (g a, f a)) <$> l)) (f <$> l).
Proof.
  intros Hfg. split.
  - intros key en (v & Hin & ->)%excludeEntries_lookup.
    apply list_elem_of_fmap in Hin as (a & [= -> ->] & Ha). exists (f a). split_and!; [|done..].
    by apply list_elem_of_fmap_2.
  - intros v (a & -> & Ha)%list_elem_of_fmap. exists (g a). split; [done|].
    eapply (excludeEntries_is_Some _ _ _ (f a)). apply list_elem_of_fmap. eauto.
Qed.

Definition excluded_values (c : attributeTypeAndConditions) : list IndexValue :=
  match notEqual c with Some l => slice_values t l | None => [] end.

Lemma planExcludes_spec c : valueType c = t → conds_wf c →
  ∃ ex, planExcludes attr c = Ok ex ∧ excludes ex (excluded_values c) ∧ Forall (value_typed t) (excluded_values c) ∧
    (is_Some (notEqual c) → size ex ≠ 0).
Proof.
  intros Ht Hwf. unfold planExcludes, excluded_values.
  pose proof (cw_slice _ Hwf) as Hs. rewrite Ht in Hs.
  destruct (notEqual c) as [sl|].
  2:{ exists ∅. split_and!; [done| |done|intros [? ?]; done]. split; [|by intros v Hv; inversion Hv].
      intros key en H. by rewrite lookup_empty in H. }
  destruct (Hs sl eq_refl) as [Hne Hall]. clear Hs.
  assert (Hsize : ∀ ex, excludes ex (slice_values t sl) → size ex ≠ 0).
  { intros ex [_ H]. destruct (slice_values t sl) as [|v vs]; [done|].
    destruct (H v ltac:(by left)) as (key & _ & Hk). apply map_size_ne_0_lookup. eauto. }
  assert (Hlist : ∀ A (f : A → IndexValue) g (l : list A), (∀ a, key_of (f a) = Some (g a)) →
    slice_values t sl = f <$> l → ∃ ex, Ok (excludeEntries attr t ((fun a => (g a, f a)) <$> l)) = Ok ex ∧
      excludes ex (slice_values t sl) ∧ Forall (value_typed t) (slice_values t sl) ∧
      (is_Some (Some sl) → size ex ≠ 0)).
  { intros A f g l Hfg Hl. eexists. split; [reflexivity|].
    assert (Hexs : excludes (excludeEntries attr t ((fun a => (g a, f a)) <$> l)) (slice_values t sl))
      by (rewrite Hl; by apply excludeEntries_excludes). split_and!; [done..|]. intros _. by apply Hsize. }
  assert (Hmis : ∀ v, v ∈ slice_values t sl → value_typed t v) by (by apply Forall_forall).
  destruct (valueType c) eqn:Et, sl as [l|l]; rewrite ?Ht;
    try (by apply (Hlist _ (sliceValue t) inl); [by rewrite <- Ht|]); try (by apply (Hlist _ IVBool inr));
    (destruct l as [|a l]; [done|]); specialize (Hmis _ ltac:(by left)); by rewrite <- Ht in Hmis.
Qed.

(** The planned range holds the entries of the attribute whose value satisfies
    the conditions other than [$neq]. *)
Lemma plan_range c : valueType c = t → conds_wf c → conditions_len c ≠ 0 →
  ∃ p, createQueryPlan attr c = Ok p ∧ excludes (excludeKeys p) (excluded_values c) ∧
    Forall (value_typed t) (excluded_values c) ∧ plan_key attr t (startKey p) ∧
    ∀ e, entry_wf index e →
      in_range (entry_string (startKey p)) (entry_string (endKey p)) (entry_string e) = true ↔
      Attribute e = attr ∧ ∀ op v, conditions c !! op = Some v → op_holds index_compare op v (IE_Value e) = true.
Proof using Hattr Hindex.
  intros Ht Hwf Hlen. destruct (planExcludes_spec c Ht Hwf) as (ex & Hex & Hexs & Hty & Hsize).
  unfold createQueryPlan. rewrite Hex, Ht. cbn [mbind res_bind].
  set (new := mkIndexEntry attr t 0 IVNil 0 "").
  assert (Hnew : plan_key attr t new) by done.
  assert (Hin : ∀ op v, (op, v) ∈ range (conditions c) ↔ conditions c !! op = Some v) by (intros; apply elem_of_range).
  assert (Htyped : ∀ op v, (op, v) ∈ range (conditions c) → op ∈ five_ops ∧ value_typed t v).
  { intros op v H%Hin. rewrite <- Ht. by apply (cw_ops _ Hwf). }
  pose proof (range_keys_NoDup (conditions c)) as Hnd.
  eexists. split; [reflexivity|]. split; [by destruct (_ && _)|]. split; [done|].
  setoid_rewrite <- Hin.
  assert (Htwo : ∀ op v op' v', (op, v) ∈ range (conditions c) → (op', v') ∈ range (conditions c) → op ≠ op' →
    op ≠ QueryOpEqual ∧ op' ≠ QueryOpEqual ∧ lower_op op = negb (lower_op op')).
  { intros op v op' v' H%Hin H'%Hin. by apply (two_ops c op v op' v'). }
  assert (Hempty : range (conditions c) = [] → 0 < size ex).
  { intros Hr. destruct (notEqual c) eqn:Hn; [specialize (Hsize ltac:(eauto)); lia|].
    exfalso. apply Hlen. unfold conditions_len. rewrite Hn.
    assert (conditions c = ∅) as ->; [|done]. apply map_empty. intros op.
    destruct (conditions c !! op) eqn:E; [|done]. apply Hin in E. rewrite Hr in E. by inversion E. }
  unfold range_keys in Hnd. clear Hin Hlen Hwf.
  destruct (range (conditions c)) as [|[op v] [|[op' v'] [|[op'' v''] cs]]].
  - rewrite (bool_decide_eq_true_2 (0 < size ex)) by auto. cbn. split; [done|]. intros e He. apply range_iff; try done.
    intros Hx Hh. pose proof (body_from_beginning _ new e Hh). pose proof (body_to_ending _ new e Hh).
    split; [|done]. intros _ op v Hv. by inversion Hv.
  - rewrite andb_false_r. destruct (Htyped op v ltac:(by left)) as [Hop Hv]. split.
    { cbn. by repeat case_bool_decide. }
    intros e He. refine (iff_trans (single_range op v (mkPlan new new ∅) e Hop Hv Hnew Hnew He) _).
    apply and_iff_compat_l.
    split; [|intros H; apply H; by left]. intros H o w Ho. apply list_elem_of_singleton in Ho. congruence.
  - rewrite andb_false_r. destruct (Htyped op v ltac:(by left)) as [Hop Hv].
    destruct (Htyped op' v' ltac:(by right; left)) as [Hop' Hv'].
    destruct (Htwo op v op' v') as (He1 & He2 & Hdual); [by left|by right; left| |].
    { cbn in Hnd. apply NoDup_cons in Hnd as [Hnd _]. intros ->. apply Hnd. by left. }
    split; [cbn; by repeat case_bool_decide|].
    intros e He.
    refine (iff_trans (double_range op v op' v' (mkPlan new new ∅) e Hop Hop' Hv Hv' He1 He2 Hdual Hnew Hnew He) _).
    apply and_iff_compat_l. split.
    + intros [H1 H2] o w [Ho|Ho%list_elem_of_singleton]%elem_of_cons; congruence.
    + intros H. split; apply H; [by left|by right; left].
  - exfalso. cbn in Hnd. apply NoDup_cons in Hnd as [Hn1 Hnd]. apply NoDup_cons in Hnd as [Hn2 _].
    destruct (Htwo op v op' v') as (_ & _ & H1); [by left|by right; left|intros ->; apply Hn1; by left|].
    destruct (Htwo op v op'' v'') as (_ & _ & H2); [by left|by right; right; left|intros ->; apply Hn1; right; by left|].
    destruct (Htwo op' v' op'' v'') as (_ & _ & H3); [by right; left|by right; right; left|intros ->; apply Hn2; by left|].
    destruct (lower_op op), (lower_op op'), (lower_op op''); done.
Qed.

End PlanRange.

(** ** The scan of a range *)

Section Scan.
Context (index : gmap string IndexAttributeType) (attr : string) (t : IndexAttributeType).
Context (Hattr : utf8_valid attr = true) (Hindex : index !! attr = Some t).
Context {mr : MapRange}.

(** The entries of the attribute in the index database. *)
Definition attr_entry (e : IndexEntry) : Prop := entry_wf index e ∧ Attribute e = attr.

Definition enc (p : IndexEntry * bytes) : string * bytes := (entry_string p.1, p.2).

Definition entry_lt (p q : IndexEntry * bytes) : Prop := String.ltb (entry_string p.1) (entry_string q.1) = true.

Lemma attr_entry_typed e : attr_entry e → value_typed t (IE_Value e).
Proof using Hindex. intros [He Ha]. by apply (entry_typed index attr t Hindex). Qed.

(** Entries of the attribute compare by their values first. *)
Lemma attr_entry_lt e e' : attr_entry e → attr_entry e' →
  String.ltb (entry_string e) (entry_string e') = true → index_compare (IE_Value e) (IE_Value e') ≠ Gt.
Proof using Hindex.
  intros He He'. rewrite ltb_compare, entry_compare_parts. unfold head_compare, body_compare.
  rewrite (value_text_compare t) by (by apply attr_entry_typed).
  destruct He as [He Ha], He' as [He' Ha'].
  assert (IE_Type e = IE_Type e') as ->.
  { pose proof (ew_type _ _ He) as H. pose proof (ew_type _ _ He') as H'. congruence. }
  rewrite Ha, Ha', (ew_vp _ _ He), (ew_vp _ _ He'), !string_compare_refl. cbn.
  by destruct (index_compare _ _).
Qed.

(** The place after the last entry with a value. *)
Lemma below_ending e x : attr_entry e → value_typed t x →
  String.ltb (entry_string e) (entry_string (mkIndexEntry attr t Existing x Ending "")) = true ↔
  index_compare (IE_Value e) x ≠ Gt.
Proof using Hindex.
  intros He Hx. pose proof (attr_entry_typed e He) as Hv. destruct He as [He Ha].
  rewrite ltb_compare, entry_compare_parts.
  assert (head_compare e (mkIndexEntry attr t Existing x Ending "") = Eq) as ->.
  { unfold head_compare. cbn. pose proof (ew_type _ _ He) as H. rewrite Ha, Hindex in H. injection H as ->.
    by rewrite Ha, !string_compare_refl. }
  cbn [lex]. change (mkIndexEntry attr t Existing x Ending "") with
    (at_value (mkIndexEntry attr t 0 IVNil 0 "") x Ending).
  apply (to_at_most t); [done| |done]. split_and!; [apply He|done|apply He].
Qed.

Lemma seek_spec l key : ∃ mid l', l = mid ++ l' ∧ seek (enc <$> l) key = enc <$> l' ∧
  (∀ p, p ∈ mid → String.ltb (entry_string p.1) key = true) ∧
  (∀ p, head l' = Some p → String.ltb (entry_string p.1) key = false).
Proof.
  induction l as [|p l (mid & l' & Hl & Hs & Hm & Hh)].
  - exists [], []. split_and!; [done|done|by intros p Hp; inversion Hp|done].
  - cbn. destruct (String.ltb (entry_string p.1) key) eqn:Hp.
    + exists (p :: mid), l'. split_and!; [by rewrite Hl|done| |done].
      intros q [->|Hq]%elem_of_cons; [done|by apply Hm].
    + exists [], (p :: l). split_and!; [done|done|by intros q Hq; inversion Hq|]. by intros q [= <-].
Qed.

Lemma seek_app pre l key : (∀ p, p ∈ pre → String.ltb p.1 key = true) → seek (pre ++ l) key = seek l key.
Proof.
  induction pre as [|p pre IH]; intros H; [done|]. cbn. rewrite (H p) by (by left). apply IH. intros q Hq.
  apply H. by right.
Qed.

(** The keys of the entries of a list whose values are not excluded. *)
Definition hit (vs : list IndexValue) (l : list (IndexEntry * bytes)) (k : string) : Prop :=
  ∃ p, p ∈ l ∧ IE_Key p.1 = k ∧ IE_Value p.1 ∉ vs.

Lemma excluded_spec ex vs x : excludes attr t ex vs → Forall (value_typed t) vs → value_typed t x →
  ∃ key, key_of x = Some key ∧
    excluded ex (value_json x) =
      Ok (if bool_decide (x ∈ vs) then Some (key, mkIndexEntry attr t Existing x Ending "") else None).
Proof.
  intros [Hex1 Hex2] Hvs Hx. rewrite Forall_forall in Hvs.
  assert (Hkey : ∃ key, key_of x = Some key ∧ excluded ex (value_json x) =
    Ok (match ex !! key with Some e => Some (key, e) | None => None end)).
  { destruct t, x as [s|s|b|]; try done; cbn; eauto. }
  destruct Hkey as (key & Hkey & ->). exists key. split; [done|]. f_equal. case_bool_decide as Hin.
  - destruct (Hex2 x Hin) as (key' & Hkey' & [en Hen]). rewrite Hkey in Hkey'. injection Hkey' as <-.
    rewrite Hen. destruct (Hex1 key en Hen) as (v & Hv & Hkv & ->).
    by rewrite (key_of_inj t v x) by first [by auto|congruence].
  - destruct (ex !! key) as [en|] eqn:Hen; [|done]. destruct (Hex1 key en Hen) as (v & Hv & Hkv & _).
    destruct Hin. by rewrite <- (key_of_inj t v x) by first [by auto|congruence].
Qed.

Lemma excludes_delete ex vs x key : excludes attr t ex vs → Forall (value_typed t) vs → value_typed t x →
  key_of x = Some key → excludes attr t (delete key ex) (filter (.≠ x) vs).
Proof.
  intros [Hex1 Hex2] Hvs Hx Hkey. rewrite Forall_forall in Hvs. split.
  - intros key' en [Hne Hen]%lookup_delete_Some. destruct (Hex1 key' en Hen) as (v & Hv & Hkv & ->).
    exists v. split_and!; [|done..]. apply list_elem_of_filter. split; [|done]. intros ->. congruence.
  - intros v [Hne Hv]%list_elem_of_filter. destruct (Hex2 v Hv) as (key' & Hkv & Hs).
    exists key'. split; [done|]. rewrite lookup_delete_ne; [done|]. intros ->.
    apply Hne, (key_of_inj t); [by auto|done|congruence].
Qed.

(** A sorted list of entries of the attribute. *)
Definition scan_list (l : list (IndexEntry * bytes)) : Prop :=
  StronglySorted entry_lt l ∧ Forall (fun p => attr_entry p.1) l.

Lemma scan_list_app l l' : scan_list (l ++ l') → scan_list l' ∧ ∀ p q, p ∈ l → q ∈ l' → entry_lt p q.
Proof.
  intros [Hs Hf]. apply Forall_app in Hf as [_ Hf]. split.
  - split; [|done]. by apply StronglySorted_app_1_r in Hs.
  - intros p q. by apply StronglySorted_app_1_elem_of.
Qed.

(** Seeking past the value of the current entry skips the entries with that value
    and no other. *)
Lemma seek_value pre e b rest : scan_list (pre ++ (e, b) :: rest) →
  ∃ mid l', rest = mid ++ l' ∧
    seek (enc <$> (pre ++ (e, b) :: rest)) (entry_string (mkIndexEntry attr t Existing (IE_Value e) Ending "")) = enc <$> l' ∧
    (∀ p, p ∈ mid → IE_Value p.1 = IE_Value e) ∧ (∀ p, p ∈ l' → IE_Value p.1 ≠ IE_Value e).
Proof using Hindex.
  intros Hl. pose proof (scan_list_app _ _ Hl) as [[Hs Hf] Hpre]. destruct Hl as [_ Hall].
  apply Forall_app in Hall as [Hall _]. rewrite Forall_forall in Hall.
  apply Forall_cons in Hf as [He Hf]. cbn in He. apply StronglySorted_inv in Hs as [Hs Hlt].
  rewrite Forall_forall in Hf, Hlt. set (key := entry_string _).
  pose proof (attr_entry_typed e He) as Hx.
  assert (Hkey : ∀ p : IndexEntry * bytes, attr_entry p.1 → String.ltb (entry_string p.1) key = true ↔
    index_compare (IE_Value p.1) (IE_Value e) ≠ Gt) by (intros p Hp; by apply below_ending).
  assert (He' : String.ltb (entry_string e) key = true).
  { apply (Hkey (e, b)); [done|]. cbn. by rewrite (proj2 (index_compare_eq t _ _ Hx Hx) eq_refl). }
  rewrite cons_middle, app_assoc, fmap_app, seek_app.
  2:{ intros q Hq. apply list_elem_of_fmap in Hq as (p & -> & Hp). apply elem_of_app in Hp as [Hp|Hp%list_elem_of_singleton].
      - rewrite ltb_compare. eapply string_compare_lt_trans; apply ltb_compare; [|exact He'].
        apply (Hpre p (e, b) Hp). by left.
      - by subst. }
  destruct (seek_spec rest key) as (mid & l' & -> & -> & Hmid & Hhead). exists mid, l'. split_and!; [done|done|..].
  - intros p Hp. assert (attr_entry p.1) as Hpa by (apply Hf, elem_of_app; by left).
    pose proof (attr_entry_typed _ Hpa) as Hpx. apply (index_compare_eq t); [done..|].
    specialize (Hmid p Hp). apply Hkey in Hmid; [|done].
    assert (Hge : index_compare (IE_Value e) (IE_Value p.1) ≠ Gt).
    { apply attr_entry_lt; [done..|]. apply (Hlt p), elem_of_app. by left. }
    rewrite (index_compare_antisym t (IE_Value p.1)) in Hge by done. by destruct (index_compare _ _).
  - intros p Hp Heq. assert (attr_entry p.1) as Hpa by (apply Hf, elem_of_app; by right).
    assert (Hlk : String.ltb (entry_string p.1) key = true).
    { apply Hkey; [done|]. by rewrite Heq, (proj2 (index_compare_eq t _ _ Hx Hx) eq_refl). }
    destruct l' as [|q l']; [by inversion Hp|]. specialize (Hhead q eq_refl).
    apply elem_of_cons in Hp as [->|Hp]; [congruence|].
    apply StronglySorted_app_1_r, StronglySorted_inv in Hs as [_ Hq]. rewrite Forall_forall in Hq.
    specialize (Hq p Hp). unfold entry_lt in Hq.
    enough (String.ltb (entry_string q.1) key = true) by congruence.
    rewrite ltb_compare in *. by eapply string_compare_lt_trans.
Qed.

Lemma hit_cons vs p l k : hit vs (p :: l) k ↔ (IE_Key p.1 = k ∧ IE_Value p.1 ∉ vs) ∨ hit vs l k.
Proof. unfold hit. setoid_rewrite elem_of_cons. naive_solver. Qed.

(** The inner loop skips the entries of excluded values. *)
Lemma skip_spec fuel pre e b rest ex vs keys :
  scan_list (pre ++ (e, b) :: rest) → excludes attr t ex vs → Forall (value_typed t) vs → size ex < fuel →
  ∃ mid l' ex' vs' keys',
    skipExcluded fuel (enc <$> (pre ++ (e, b) :: rest)) (enc <$> rest) ex (loaded e) keys = Ok (enc <$> l', ex', keys') ∧
    rest = mid ++ l' ∧ excludes attr t ex' vs' ∧ Forall (value_typed t) vs' ∧ size ex' ≤ size ex ∧
    ∀ k, k ∈ keys' ∨ hit vs' l' k ↔ k ∈ keys ∨ hit vs ((e, b) :: rest) k.
Proof using Hattr Hindex.
  revert pre e b rest ex vs. induction fuel as [|fuel IH]; intros pre e b rest ex vs Hl Hex Hvs Hfuel; [lia|].
  assert (He : attr_entry e).
  { destruct Hl as [_ Hl]. apply Forall_app in Hl as [_ Hl]. by apply Forall_cons in Hl as [Hl _]. }
  pose proof (attr_entry_typed e He) as Hx.
  destruct (excluded_spec ex vs (IE_Value e) Hex Hvs Hx) as (key & Hkey & Hfound).
  cbn [skipExcluded loaded LE_Value]. rewrite Hfound. cbn [mbind res_bind]. case_bool_decide as Hin.
  2:{ exists [], rest, ex, vs, ({[IE_Key e]} ∪ keys). split_and!; [done..|]. intros k. rewrite hit_cons. set_solver. }
  cbn [EntryString mbind res_bind].
  destruct (seek_value pre e b rest Hl) as (mid & l' & -> & -> & Hmid & Hl').
  assert (Hskip : ∀ k, hit vs ((e, b) :: mid ++ l') k ↔ hit (filter (.≠ IE_Value e) vs) l' k).
  { intros k. rewrite hit_cons. unfold hit. setoid_rewrite elem_of_app. setoid_rewrite list_elem_of_filter. split.
    - intros [[_ []]|(p & [Hp|Hp] & Hk & Hv)]; [done| |naive_solver]. by rewrite (Hmid p Hp) in Hv.
    - intros (p & Hp & Hk & Hv). right. exists p. specialize (Hl' p Hp). naive_solver. }
  destruct l' as [|[e' b'] l'].
  - exists mid, [], ex, vs, keys. split_and!; [done..|]. intros k. rewrite Hskip.
    unfold hit. setoid_rewrite elem_of_nil. naive_solver.
  - cbn [fmap list_fmap enc fst snd].
    assert (Hl2 : scan_list ((pre ++ (e, b) :: mid) ++ (e', b') :: l')) by (by rewrite <- app_assoc).
    assert (He' : entry_wf index e').
    { destruct Hl2 as [_ Hl2]. apply Forall_app in Hl2 as [_ Hl2]. apply Forall_cons in Hl2 as [[Hw _] _]. done. }
    rewrite (load_entry index e' He'). cbn [mbind res_bind].
    assert (Hsome : is_Some (ex !! key)).
    { destruct Hex as [_ Hex]. destruct (Hex _ Hin) as (key' & Hk' & Hs). congruence. }
    pose proof (map_size_delete_Some key ex Hsome) as Hsize.
    assert (size ex ≠ 0) by (apply map_size_ne_0_lookup; eauto).
    destruct (IH (pre ++ (e, b) :: mid) e' b' l' (delete key ex) (filter (.≠ IE_Value e) vs) Hl2)
      as (mid' & l2 & ex' & vs' & keys' & Hrun & -> & Hex' & Hvs' & Hsz & Hkeys).
    + by apply excludes_delete.
    + rewrite Forall_forall in Hvs |- *. intros v [_ Hv]%list_elem_of_filter. by apply Hvs.
    + lia.
    + rewrite <- app_assoc in Hrun. cbn in Hrun. rewrite Hrun.
      exists (mid ++ (e', b') :: mid'), l2, ex', vs', keys'. split_and!; [done| |done|done|lia|].
      * by rewrite <- app_assoc.
      * intros k. by rewrite Hkeys, Hskip.
Qed.

(** The scan visits the whole range: the keys it finds are those of the entries
    whose values are not excluded. *)
Lemma run_spec fuel pre l ex vs keys :
  scan_list (pre ++ l) → excludes attr t ex vs → Forall (value_typed t) vs → length l ≤ fuel →
  ∃ keys', runPlan fuel (enc <$> (pre ++ l)) (enc <$> l) ex keys = Ok keys' ∧
    ∀ k, k ∈ keys' ↔ k ∈ keys ∨ hit vs l k.
Proof using Hattr Hindex.
  revert pre l ex vs keys. induction fuel as [|fuel IH]; intros pre l ex vs keys Hl Hex Hvs Hfuel.
  { destruct l; [|cbn in Hfuel; lia]. exists keys. split; [done|]. unfold hit. setoid_rewrite elem_of_nil. naive_solver. }
  destruct l as [|[e b] rest].
  { exists keys. split; [done|]. unfold hit. setoid_rewrite elem_of_nil. naive_solver. }
  assert (He : entry_wf index e).
  { destruct Hl as [_ Hl]. apply Forall_app in Hl as [_ Hl]. apply Forall_cons in Hl as [[Hw _] _]. done. }
  cbn [runPlan fmap list_fmap enc fst snd]. rewrite (load_entry index e He). cbn [mbind res_bind].
  case_bool_decide as Hsz.
  - assert (vs = []) as ->.
    { destruct vs as [|v vs]; [done|]. destruct Hex as [_ Hex]. destruct (Hex v ltac:(by left)) as (key & _ & Hs).
      apply map_size_empty_inv in Hsz. rewrite Hsz, lookup_empty in Hs. by destruct Hs. }
    destruct (IH (pre ++ [(e, b)]) rest ex [] ({[IE_Key e]} ∪ keys)) as (keys' & Hrun & Hkeys);
      [by rewrite <- app_assoc|done|done|cbn in Hfuel; lia|].
    rewrite <- app_assoc in Hrun. exists keys'. split; [done|]. intros k. rewrite Hkeys, hit_cons.
    cbn. rewrite elem_of_nil. set_solver.
  - destruct (skip_spec (size ex + 1) pre e b rest ex vs keys Hl Hex Hvs ltac:(lia))
      as (mid & l' & ex' & vs' & keys2 & Hskip & -> & Hex' & Hvs' & _ & Hkeys2).
    cbn [fmap list_fmap enc fst snd] in Hskip. rewrite Hskip. cbn [mbind res_bind].
    destruct (IH (pre ++ (e, b) :: mid) l' ex' vs' keys2) as (keys' & Hrun & Hkeys);
      [by rewrite <- app_assoc|done|done|cbn in Hfuel; rewrite length_app in Hfuel; lia|].
    rewrite <- app_assoc in Hrun. cbn in Hrun. exists keys'. split; [done|]. intros k. by rewrite Hkeys, Hkeys2.
Qed.

End Scan.

(** ** The keys found for an attribute *)

(** Equal texts are of equal values. *)
Lemma entry_string_inj index e e' : entry_wf index e → entry_wf index e' → entry_string e = entry_string e' →
  Attribute e = Attribute e' ∧ IE_Value e = IE_Value e' ∧ IE_Key e = IE_Key e'.
Proof.
  intros He He' H. pose proof (entry_string_key e e' (ew_key _ _ He) (ew_key _ _ He') H) as Hk.
  apply string_compare_eq in H. rewrite entry_compare, !lex_eq in H.
  destruct H as (Ha%string_compare_eq & _ & _ & Hv & _ & _).
  apply json_string_inj in Ha; [|apply He|apply He'].
  assert (IE_Type e = IE_Type e') as Ht.
  { pose proof (ew_type _ _ He) as H. pose proof (ew_type _ _ He') as H'. congruence. }
  split_and!; [done| |done]. pose proof (ew_value _ _ He) as Hx. pose proof (ew_value _ _ He') as Hx'.
  rewrite Ht in Hx. rewrite (value_text_compare (IE_Type e')) in Hv by done. by apply (index_compare_eq (IE_Type e')).
Qed.

Section Queries.
Context `{!WorldState D, !Codec ValueWithMetadata, !IteratorLaws D}.
Context {SN : Type} `{!DBsSnapshot SN, !Snapshotter D SN, !SnapshotLaws D SN} {mr : MapRange}.
Implicit Types (db : D) (s : SN).

(** The value of the key [k] has the attribute, with a value that satisfies the conditions. *)
Definition attr_matches (compare : IndexValue → IndexValue → comparison) db (n : string) (index : gmap string IndexAttributeType) (attr : string)
    (c : attributeTypeAndConditions) (k : string) : Prop :=
  ∃ v m e, Get db n k = Ok (v, m) ∧ e ∈ decodeJSONAndConstructIndexEntries k v index ∧
    Attribute e = attr ∧ conds_hold compare c (IE_Value e).

(** An entry of a stored value. *)
Definition stored_entry db (n : string) (index : gmap string IndexAttributeType) (e : IndexEntry) : Prop :=
  entry_wf index e ∧
  ∃ v m, Get db n (IE_Key e) = Ok (v, m) ∧ e ∈ decodeJSONAndConstructIndexEntries (IE_Key e) v index.

Lemma stored_iff db n index e : keys_utf8 db n →
  stored_entry db n index e ↔ ∃ k v m, Get db n k = Ok (v, m) ∧ e ∈ decodeJSONAndConstructIndexEntries k v index.
Proof.
  intros Hku. split; [intros (_ & v & m & H); eauto|]. intros (k & v & m & Hg & He).
  assert (Hk : utf8_valid k = true).
  { apply (Hku k v m Hg). intros ->. cbn in He. by inversion He. }
  destruct (decoded_entry_wf _ _ _ _ Hk He) as [Hwf <-]. split; [done|eauto].
Qed.

(** The entries an iterator over a range of the index database visits. *)
Lemma index_iterator db s n index names x y :
  GetDBsSnapshot db names = Ok s → IndexDB n ∈ names → index_exact db n index → keys_utf8 db n →
  ∃ l, SnapGetIterator s (IndexDB n) x y = Ok (enc <$> l) ∧ StronglySorted entry_lt l ∧
    (∀ p : IndexEntry * bytes, p ∈ l → stored_entry db n index p.1 ∧ in_range x y (entry_string p.1) = true) ∧
    (∀ e, stored_entry db n index e → in_range x y (entry_string e) = true →
      ∃ p, p ∈ l ∧ entry_string p.1 = entry_string e).
Proof.
  intros Hsnap Hin Hex Hku. rewrite (snapshot_iterator _ _ _ _ _ _ Hsnap Hin), iterator_range.
  pose proof (iterator_exists db (IndexDB n) (snapshot_taken _ _ _ _ Hsnap Hin)) as Hok.
  destruct (GetIterator db (IndexDB n) "" "") as [l0| |] eqn:Hit; try done. cbn.
  pose proof (iterator_sorted _ _ _ Hit) as Hs. assert (Hhas : ∀ k, k ∈ l0.*1 ↔ Has db (IndexDB n) k = Ok true) by (intros k; by apply iterator_has).
  assert (Hentries : ∀ l1, (∀ q, q ∈ l1 → q ∈ l0) →
    ∃ l : list (IndexEntry * bytes), l1 = enc <$> l ∧ ∀ p, p ∈ l → stored_entry db n index p.1).
  { induction l1 as [|[k b] l1 IH]; intros Hl1; [exists []; split; [done|by intros p Hp; inversion Hp]|].
    destruct IH as (l & -> & Hl); [intros q Hq; apply Hl1; by right|].
    assert (Hk : k ∈ l0.*1) by (apply list_elem_of_fmap; exists (k, b); split; [done|apply Hl1; by left]).
    apply Hhas, Hex in Hk as (k' & v & m & Hg & e & He & Hstr%EntryString_ok).
    exists ((e, b) :: l). split; [by subst k|]. intros p [->|Hp]%elem_of_cons; [|by apply Hl].
    apply stored_iff; eauto. }
  destruct (Hentries (filter (fun e => in_range x y e.1 = true) l0)) as (l & Hl & Hst).
  { intros q [_ Hq]%list_elem_of_filter. done. }
  exists l. rewrite Hl. split_and!; [done|..].
  - assert (Hsf : StronglySorted key_lt (enc <$> l)).
    { rewrite <- Hl. clear -Hs. induction Hs as [|a l0 Hs IH Ha]; [constructor|]. rewrite filter_cons.
      case_decide; [|done]. constructor; [done|]. rewrite Forall_forall in Ha |- *.
      intros q [_ Hq]%list_elem_of_filter. by apply Ha. }
    clear -Hsf. induction l as [|p l IH]; [constructor|]. cbn in Hsf. apply StronglySorted_inv in Hsf as [Hsf Hp].
    constructor; [by apply IH|]. rewrite Forall_forall in Hp. apply Forall_forall. intros q Hq.
    apply (Hp (enc q)). by apply list_elem_of_fmap_2.
  - intros p Hp. split; [by apply Hst|].
    assert (Hp' : enc p ∈ enc <$> l) by (by apply list_elem_of_fmap_2). rewrite <- Hl in Hp'.
    by apply list_elem_of_filter in Hp' as [Hr _].
  - intros e He Hr. assert (Hk : entry_string e ∈ l0.*1).
    { apply Hhas, Hex. destruct He as (_ & v & m & Hg & He). exists (IE_Key e), v, m. split; [done|].
      exists e. by split. }
    apply list_elem_of_fmap in Hk as ([k b] & Hk & Hkb). cbn in Hk. subst k.
    assert (Hf : (entry_string e, b) ∈ enc <$> l) by (rewrite <- Hl; by apply list_elem_of_filter).
    apply list_elem_of_fmap in Hf as (p & Hp & Hpl). exists p. split; [done|]. unfold enc in Hp. congruence.
Qed.

Lemma execute_exact db s n index names attr c :
  GetDBsSnapshot db names = Ok s → IndexDB n ∈ names → index_exact db n index → keys_utf8 db n →
  index !! attr = Some (valueType c) → utf8_valid attr = true → conds_wf c → conditions_len c ≠ 0 →
  ∃ keys, execute s n attr c = Ok keys ∧ ∀ k, k ∈ keys ↔ attr_matches index_compare db n index attr c k.
Proof.
  intros Hsnap Hin Hex Hku Hix Hattr Hwf Hlen.
  destruct (plan_range index attr _ Hattr Hix c eq_refl Hwf Hlen) as (p & Hp & Hexs & Hty & _ & Hrange).
  unfold execute. rewrite Hp. cbn [mbind res_bind EntryString].
  destruct (index_iterator db s n index names (entry_string (startKey p)) (entry_string (endKey p)))
    as (l & -> & Hs & Hl & Hall); [done..|]. cbn [mbind res_bind].
  assert (Hscan : scan_list index attr ([] ++ l)).
  { split; [done|]. apply Forall_forall. intros q Hq. destruct (Hl q Hq) as [[Hw _] Hr].
    split; [done|]. by apply Hrange in Hr as [Ha _]. }
  destruct (run_spec index attr _ Hattr Hix (length (enc <$> l) * (size (excludeKeys p) + 1)) [] l
    (excludeKeys p) (excluded_values (valueType c) c) ∅ Hscan Hexs Hty) as (keys & Hrun & Hkeys).
  { rewrite length_fmap. nia. }
  exists keys. split; [done|]. intros k. rewrite Hkeys. unfold attr_matches, conds_hold, hit, excluded_values. split.
  - intros [?|(q & Hq & <- & Hv)]; [set_solver|]. destruct (Hl q Hq) as [[Hw (v & m & Hg & He)] Hr].
    apply Hrange in Hr as [Ha Hops]; [|done]. exists v, m, q.1. split_and!; [done..|].
    intros sl Hsl. by rewrite Hsl in Hv.
  - intros (v & m & e & Hg & He & Ha & Hops & Hne). right.
    assert (Hst : stored_entry db n index e) by (apply stored_iff; eauto).
    destruct (Hall e Hst) as (q & Hq & Hstr); [apply Hrange; [apply Hst|done]|].
    destruct (Hl q Hq) as [[Hw _] _].
    destruct (entry_string_inj index q.1 e Hw (proj1 Hst) Hstr) as (_ & Hv & Hk).
    exists q. split; [done|]. rewrite Hk, Hv. split; [by apply decode_key in He|].
    destruct (notEqual c) as [sl|]; [by apply Hne|]. by intros ?%elem_of_nil.
Qed.

(** ** Combining the attributes *)

Lemma executeAll_exact db s n index names (q : attributeToConditions) :
  GetDBsSnapshot db names = Ok s → IndexDB n ∈ names → index_exact db n index → keys_utf8 db n →
  (∀ attr c, q !! attr = Some c → index !! attr = Some (valueType c) ∧ utf8_valid attr = true ∧
     conds_wf c ∧ conditions_len c ≠ 0) →
  ∃ m, executeAllConditions s n q = Ok m ∧
    (∀ attr, is_Some (m !! attr) ↔ is_Some (q !! attr)) ∧
    ∀ attr keys c, m !! attr = Some keys → q !! attr = Some c → ∀ k, k ∈ keys ↔ attr_matches index_compare db n index attr c k.
Proof.
  intros Hsnap Hin Hex Hku Hq. unfold executeAllConditions.
  assert (Hgen : ∀ l (acc : gmap string (gset string)), NoDup l.*1 → (∀ attr c, (attr, c) ∈ l → q !! attr = Some c) →
    ∃ m, res_foldM (fun (attrKeys : gmap string (gset string)) '(attr, conds) =>
        keys ← execute s n attr conds; Ok (<[attr := keys]> attrKeys)) acc l = Ok m ∧
      (∀ attr, is_Some (m !! attr) ↔ is_Some (acc !! attr) ∨ attr ∈ l.*1) ∧
      (∀ attr, attr ∉ l.*1 → m !! attr = acc !! attr) ∧
      ∀ attr keys c, (attr, c) ∈ l → m !! attr = Some keys → ∀ k, k ∈ keys ↔ attr_matches index_compare db n index attr c k).
  { induction l as [|[attr c] l IH]; intros acc Hnd Hl; cbn.
    { exists acc. split_and!; [done|set_solver|done|]. intros ? ? ? H. by inversion H. }
    cbn in Hnd. apply NoDup_cons in Hnd as [Hna Hnd].
    destruct (Hq attr c (Hl attr c ltac:(by left))) as (Hix & Hu & Hwf & Hlen).
    destruct (execute_exact db s n index names attr c Hsnap Hin Hex Hku Hix Hu Hwf Hlen) as (keys & -> & Hkeys).
    cbn. destruct (IH (<[attr := keys]> acc) Hnd) as (m & -> & Hdom & Hsame & Hm); [intros; apply Hl; by right|].
    exists m. split_and!; [done|..].
    - intros a. rewrite Hdom, lookup_insert_is_Some', elem_of_cons. naive_solver.
    - intros a [Hne Ha]%not_elem_of_cons. rewrite Hsame by done. by rewrite lookup_insert_ne.
    - intros a ks c' [[= -> ->]|Ha]%elem_of_cons Hks; [|by eapply Hm].
      rewrite Hsame, lookup_insert_eq in Hks by done. by injection Hks as <-. }
  destruct (Hgen (range q) ∅ (range_keys_NoDup q)) as (m & -> & Hdom & _ & Hm).
  { intros attr c. apply elem_of_range. }
  exists m. split_and!; [done|..].
  - intros attr. rewrite Hdom, lookup_empty. change (attr ∈ (range q).*1) with (attr ∈ range_keys q).
    rewrite elem_of_range_keys. split; [intros [[? ?]|?]; done|by right].
  - intros attr keys c Hk Hc. apply (Hm attr keys c); [by apply elem_of_range|done].
Qed.

Lemma minKeys_spec (m : gmap string (gset string)) :
  match minKeys m with
  | Some (attr, keys) => m !! attr = Some keys
  | None => m = ∅
  end.
Proof.
  unfold minKeys.
  assert (Hgen : ∀ l (acc : option (string * gset string)),
    match foldl (fun (acc : option (string * gset string)) '(attr, keys) =>
      match acc with
      | None => Some (attr, keys)
      | Some (_, min) => if bool_decide (size keys < size min) then Some (attr, keys) else acc
      end) acc l with
    | Some p => acc = Some p ∨ p ∈ l
    | None => acc = None ∧ l = []
    end).
  { induction l as [|[a ks] l IH]; intros acc; cbn; [destruct acc; by try left|].
    match goal with |- context [foldl _ ?x l] => specialize (IH x) end.
    destruct (foldl _ _ l) as [p|].
    - destruct IH as [IH|IH]; [|right; by right].
      destruct acc as [[a' ks']|]; [|injection IH as <-; right; by left].
      case_bool_decide; [injection IH as <-; right; by left|by left].
    - destruct IH as [IH _]. destruct acc as [[? ?]|]; [by case_bool_decide|done]. }
  specialize (Hgen (range m) None). destruct (foldl _ None (range m)) as [[attr keys]|].
  - destruct Hgen as [?|H]; [done|]. by apply elem_of_range in H.
  - destruct Hgen as [_ H]. apply map_empty. intros i. destruct (m !! i) eqn:E; [|done].
    apply elem_of_range in E. rewrite H in E. by inversion E.
Qed.

Lemma intersection_elem (m : gmap string (gset string)) k :
  k ∈ intersection m ↔ m ≠ ∅ ∧ ∀ attr keys, m !! attr = Some keys → k ∈ keys.
Proof.
  unfold intersection. pose proof (minKeys_spec m) as Hmin. destruct (minKeys m) as [[a min]|].
  2:{ subst m. split; [set_solver|]. by intros [? _]. }
  assert (Hin : ∀ x l left, k ∈ foldl (fun (left : gset string) '(attr, keys) =>
      if bool_decide (attr = a) then left
      else if bool_decide (x ∈ (keys : gset string)) then left else left ∖ {[x]}) left l ↔
    k ∈ left ∧ (k = x → ∀ attr keys, (attr, keys) ∈ l → attr ≠ a → k ∈ keys)).
  { intros x l. induction l as [|[attr keys] l IH]; intros left; cbn.
    { split; [intros Hk; split; [done|]|by intros [? _]]. intros _ ? ? He. by inversion He. }
    rewrite IH. setoid_rewrite elem_of_cons. repeat case_bool_decide; set_solver. }
  assert (Hout : ∀ xs left, k ∈ foldl (fun (left : gset string) x =>
      foldl (fun (left : gset string) '(attr, keys) =>
        if bool_decide (attr = a) then left
        else if bool_decide (x ∈ (keys : gset string)) then left else left ∖ {[x]}) left (range m)) left xs ↔
    k ∈ left ∧ (k ∈ xs → ∀ attr keys, m !! attr = Some keys → attr ≠ a → k ∈ keys)).
  { induction xs as [|x xs IH]; intros left; cbn; [set_solver|]. rewrite IH, Hin.
    setoid_rewrite elem_of_range. rewrite elem_of_cons. naive_solver. }
  rewrite Hout, elem_of_elements. split.
  - intros [Hk H]. split; [intros ->; by rewrite lookup_empty in Hmin|]. intros attr keys Hm.
    destruct (decide (attr = a)) as [->|Hne]; [congruence|]. by eapply H.
  - intros [_ H]. split; [by eapply H|]. intros _ attr keys Hm _. by eapply H.
Qed.

Lemma union_keys_elem (m : gmap string (gset string)) k :
  k ∈ union_keys m ↔ ∃ attr keys, m !! attr = Some keys ∧ k ∈ keys.
Proof.
  unfold union_keys.
  assert (Hin : ∀ xs (all : gset string), foldl (fun (all : gset string) k => {[k]} ∪ all) all xs = list_to_set xs ∪ all).
  { induction xs as [|x xs IH]; intros all; cbn; [set_solver|]. rewrite IH. set_solver. }
  assert (Hout : ∀ l (all : gset string), k ∈ foldl (fun (all : gset string) '(_, keys) =>
      foldl (fun (all : gset string) k => {[k]} ∪ all) all (elements (keys : gset string))) all l ↔
    k ∈ all ∨ ∃ attr (keys : gset string), ((attr, keys) : string * gset string) ∈ l ∧ k ∈ keys).
  { induction l as [|[attr keys] l IH]; intros all; cbn.
    { split; [by left|]. intros [?|(? & ? & H & _)]; [done|by inversion H]. }
    rewrite IH, Hin. setoid_rewrite elem_of_cons.
    rewrite elem_of_union, elem_of_list_to_set, elem_of_elements. naive_solver. }
  rewrite Hout. setoid_rewrite elem_of_range. set_solver.
Qed.

(** A key that satisfies a query: one of the attributes, or all of them. *)
Definition query_matches (compare : IndexValue → IndexValue → comparison) db (n : string) (index : gmap string IndexAttributeType) (disjunction : bool)
    (q : attributeToConditions) (k : string) : Prop :=
  if disjunction then ∃ attr c, q !! attr = Some c ∧ attr_matches compare db n index attr c k
  else q ≠ ∅ ∧ ∀ attr c, q !! attr = Some c → attr_matches compare db n index attr c k.

Lemma combine_exact db s n index names (q : attributeToConditions) (disjunction : bool) :
  GetDBsSnapshot db names = Ok s → IndexDB n ∈ names → index_exact db n index → keys_utf8 db n →
  (∀ attr c, q !! attr = Some c → index !! attr = Some (valueType c) ∧ utf8_valid attr = true ∧
     conds_wf c ∧ conditions_len c ≠ 0) →
  ∃ keys, (if disjunction then executeOR s n q else executeAND s n q) = Ok keys ∧
    ∀ k, k ∈ keys ↔ query_matches index_compare db n index disjunction q k.
Proof.
  intros Hsnap Hin Hex Hku Hq.
  destruct (executeAll_exact db s n index names q Hsnap Hin Hex Hku Hq) as (m & Hm & Hdom & Hkeys).
  unfold executeAND, executeOR, query_matches. rewrite Hm. cbn. destruct disjunction; eexists; (split; [done|]); intros k.
  - rewrite union_keys_elem. split.
    + intros (attr & keys & Ha & Hk). destruct (proj1 (Hdom attr) ltac:(eauto)) as [c Hc].
      exists attr, c. split; [done|]. by apply (Hkeys attr keys c).
    + intros (attr & c & Hc & Hk). destruct (proj2 (Hdom attr) ltac:(eauto)) as [keys Ha].
      exists attr, keys. split; [done|]. by apply (Hkeys attr keys c).
  - rewrite intersection_elem.
    assert (Hempty : m ≠ ∅ ↔ q ≠ ∅).
    { rewrite <- (map_size_non_empty_iff m), <- (map_size_non_empty_iff q).
      rewrite (map_size_ne_0_lookup m), (map_size_ne_0_lookup q).
      split; intros [i Hi]; exists i; by apply Hdom. }
    rewrite Hempty. apply and_iff_compat_l. split.
    + intros H attr c Hc. destruct (proj2 (Hdom attr) ltac:(eauto)) as [keys Ha].
      apply (Hkeys attr keys c Ha Hc), (H attr keys Ha).
    + intros H attr keys Ha. destruct (proj1 (Hdom attr) ltac:(eauto)) as [c Hc].
      apply (Hkeys attr keys c Ha Hc), (H attr c Hc).
Qed.

End Queries.
