(* ===== verification/StateQueries.v ===== *)
(** * World state queries

    [internal/bcdb/worldstate_query_processor.go]: reads of databases, keys, key
    ranges, users, nodes and configurations, with their access checks.  The
    context of a JSON query is not cancelled. *)

From S2P Require Import BlockEncoding BlockStore.
From S2P Require Import Prelude Types WorldState LevelDB Snapshot Identity Validation StateIndex QueryExecutor.

Record GetDataResponse := mkGetDataResponse {
  GD_Value : bytes;
  GD_Metadata : option Metadata;
}.

Record GetDataRangeResponse := mkGetDataRangeResponse {
  KVs : list KVWithMetadata;
  PendingResult : bool;
  NextStartKey : string;
}.

Definition GetUserResponse : Type := option User * option Metadata.

(** The access control of a key lets the user read it; the writers of a key read it too. *)
Definition acl_allows (acl : option AccessControl) (userID : string) : bool :=
  match acl with
  | None => true
  | Some acl => mget (ReadUsers acl) userID || mget (ReadWriteUsers acl) userID
  end.

Definition system_read {A} (dbName : string) : res A :=
  Err (PermissionErr ("no user can directly read from a system database [" +:+ dbName +:+
    "]. To read from a system database, use /config, /user, /db rest endpoints instead of /data")).

Section WorldstateQueryProcessor.
Context `{!WorldState D, !Codec User, !Codec NodeConfig, !Codec ValueWithMetadata} {x509 : X509}.
Context {SN : Type} `{!DBsSnapshot SN, !Snapshotter D SN} {mr : MapRange}.
Context `{!Codec Block, !Codec BlockLocation} {sn : Snappy} {pv : ProtoVarint}.
Implicit Types (db : D).

Definition isDBExists db (name : string) : bool := Exist db name.

Definition getDBStatus db (dbName : string) : res bool := Ok (isDBExists db dbName).

(** The guard of the reads of a database. *)
Definition checkReadAccess db (dbName querierUserID : string) : res unit :=
  hasPerm ← HasReadAccessOnDataDB db querierUserID dbName;
  if (hasPerm : bool) then Ok tt
  else Err (PermissionErr ("the user [" +:+ querierUserID +:+ "] has no permission to read from database [" +:+ dbName +:+ "]")).

Definition getDBIndex db (dbName querierUserID : string) : res bytes :=
  if IsSystemDB dbName then Err (PermissionErr ("no index for the system database [" +:+ dbName +:+ "]"))
  else
    checkReadAccess db dbName querierUserID;;
    '(index, _) ← GetIndexDefinition db dbName;
    Ok index.

Definition getData db (dbName querierUserID key : string) : res GetDataResponse :=
  if IsSystemDB dbName then system_read dbName
  else
    checkReadAccess db dbName querierUserID;;
    '(value, metadata) ← Get db dbName key;
    if acl_allows (GetAccessControl_of metadata) querierUserID then Ok (mkGetDataResponse value metadata)
    else Err (PermissionErr ("the user [" +:+ querierUserID +:+ "] has no permission to read key [" +:+ key +:+
                             "] from database [" +:+ dbName +:+ "]")).

(** The loop over the iterator, with the results so far, their number and their size. *)
Fixpoint dataRangeLoop (querierUserID : string) (limit sizeLimit : Z) (itr : list (string * bytes))
    (kvs : list KVWithMetadata) (resultCount size : Z) : res GetDataRangeResponse :=
  match itr with
  | [] => Ok (mkGetDataRangeResponse kvs false "")
  | (k, b) :: itr =>
    v ← Unmarshal b;
    if negb (acl_allows (GetAccessControl_of (VWM_Metadata v)) querierUserID) then
      dataRangeLoop querierUserID limit sizeLimit itr kvs resultCount size
    else
      let resultCount := if (0 <? limit)%Z then u64 (resultCount + 1) else resultCount in
      if (0 <? limit)%Z && (limit <? resultCount)%Z then Ok (mkGetDataRangeResponse kvs true k)
      else
        let size := u64 (size + Z.of_nat (String.length k + length b)) in
        if (sizeLimit <? size)%Z then
          if bool_decide (kvs = []) then
            Err (ServerRestrictionErr ("response size limit for queries is configured as " +:+ pretty sizeLimit +:+
              " bytes but a single record size itself is " +:+ pretty size +:+
              " bytes. Increase the query response size limit at the server"))
          else Ok (mkGetDataRangeResponse kvs true k)
        else
          dataRangeLoop querierUserID limit sizeLimit itr
            (kvs ++ [mkKVWithMetadata k (VWM_Value v) (VWM_Metadata v)]) resultCount size
  end.

(** The release of the iterator is deferred before its error is checked. *)
Definition getDataRange db (sizeLimit : Z) (dbName querierUserID startKey endKey : string) (limit : Z)
    : res GetDataRangeResponse :=
  if IsSystemDB dbName then system_read dbName
  else
    checkReadAccess db dbName querierUserID;;
    match GetIterator db dbName startKey endKey with
    | Ok itr => dataRangeLoop querierUserID limit sizeLimit itr [] 0 0
    | Err _ => Panic "invalid memory address or nil pointer dereference"
    | Panic w => Panic w
    end.

Definition getUser db (querierUserID targetUserID : string) : res GetUserResponse :=
  match GetUser db targetUserID with
  | Ok (user, metadata) =>
    isAdmin ← HasAdministrationPrivilege db querierUserID;
    let allowed := match GetAccessControl_of metadata with
                   | Some acl => mget (ReadUsers acl) querierUserID
                   | None => false
                   end in
    if (isAdmin : bool) || allowed then Ok (Some user, metadata)
    else Err (PermissionErr ("the user [" +:+ querierUserID +:+ "] has no permission to read info of user [" +:+
                             targetUserID +:+ "]"))
  | Err (UserNotFoundErr _) => Ok (None, None)
  | Err e => Err e
  | Panic w => Panic w
  end.

Definition checkAdmin db (querierUserID object : string) : res unit :=
  isAdmin ← HasAdministrationPrivilege db querierUserID;
  if (isAdmin : bool) then Ok tt
  else Err (PermissionErr ("the user [" +:+ querierUserID +:+ "] has no permission to read a config " +:+ object)).

Definition getConfig db (querierUserID : string) : res (ClusterConfig * option Metadata) :=
  checkAdmin db querierUserID "object";; GetConfig db.

Definition getNodeConfigAndMetadata db : res (list (option NodeConfig) * option Metadata) :=
  '(config, metadata) ← GetConfig db; Ok (Nodes config, metadata).

Definition getNodeConfig db (nodeID : string) : res (option NodeConfig) :=
  match GetNode db nodeID with
  | Ok (nodeConfig, _) => Ok (Some nodeConfig)
  | Err (UserNotFoundErr _) => Ok None
  | Err e => Err e
  | Panic w => Panic w
  end.

(** [metadata.GetVersion().GetBlockNum()] *)
Definition GetBlockNum_of (m : option Metadata) : Z :=
  match GetVersion_of m with Some v => BlockNum v | None => 0%Z end.

Definition getConfigBlock db (querierUserID : string) (blockNumber : Z) : prog Store bytes :=
  lift (checkAdmin db querierUserID "block");;
  blockNumber ← lift (if (blockNumber =? 0)%Z then '(_, metadata) ← GetConfig db; Ok (GetBlockNum_of metadata)
                      else Ok blockNumber);
  block ← BlockStore.Get blockNumber;
  match Payload block with
  | Some (Block_ConfigTxEnvelope _) => lift (Marshal block)
  | _ => lift (Err (NotFoundErr ("block [" +:+ pretty blockNumber +:+ "] is not a config block")))
  end.

(** The value of each key found, when the user may read it. *)
Definition executeJSONQuery db (dbName querierUserID : string) (query : bytes) : res (list KVWithMetadata) :=
  if IsSystemDB dbName then system_read dbName
  else
    checkReadAccess db dbName querierUserID;;
    snapshots ← GetDBsSnapshot (S := SN) db [DatabasesDBName; dbName; IndexDB dbName];
    keys ← ExecuteQuery snapshots dbName query;
    res_foldM (fun results k =>
      '(value, metadata) ← SnapGet snapshots dbName k;
      Ok (if acl_allows (GetAccessControl_of metadata) querierUserID
          then results ++ [mkKVWithMetadata k value metadata] else results)) [] (range_set keys).

End WorldstateQueryProcessor.
