(* ===== verification/StateQueryProofs.v ===== *)
(** * What the world state queries return

    A JSON query returns the keys whose values satisfy its conditions, with the
    values the user may read; the pages of a range query cover the range. *)

From S2P Require Import BlockEncoding BlockStore.
From S2P Require Import Prelude StringOrder Types JSON JSONPrint WorldState LevelDB Snapshot Identity Validation.
From S2P Require Import IndexEncoding StateIndex QueryExecutor IndexText QueryProofs StateQueries.

(** ** The conditions that pass the checks *)

Lemma nonslice_typed v t x : json_utf8 v → constructInternalValueForNonSliceType v t = Ok x → value_typed t x.
Proof.
  intros Hv H. destruct v as [|b|lit|s|l|fs], t; cbn in H; try done.
  - by injection H as <-.
  - destruct (ParseInt64 lit) as [n|] eqn:Hn; [|done]. injection H as <-. exists n.
    split; [by eapply ParseInt64_range|done].
  - injection H as <-. by inversion Hv.
Qed.

(** The slices read so far hold values of the type. *)
Definition slices_typed (t : IndexAttributeType) (acc : list string * list bool) : Prop :=
  Forall (value_typed t) (sliceValue t <$> acc.1) ∧ Forall (value_typed t) (IVBool <$> acc.2).

Lemma sliceItem_typed t acc item acc' : json_utf8 item → slices_typed t acc → sliceItem t acc item = Ok acc' →
  slices_typed t acc'.
Proof.
  destruct acc as [s b]. intros Hi [Hs Hb] H. unfold slices_typed in *.
  destruct t, item as [|i|lit|i|l|fs]; cbn in H; try done.
  - destruct (ParseInt64 lit) as [n|] eqn:Hn; [|done]. injection H as <-. cbn in *. split; [|done].
    rewrite fmap_app. apply Forall_app. split; [done|]. apply Forall_singleton. exists n.
    split; [by eapply ParseInt64_range|done].
  - injection H as <-. cbn in *. split; [|done]. rewrite fmap_app. apply Forall_app. split; [done|].
    apply Forall_singleton. by inversion Hi.
  - injection H as <-. cbn in *. split; [done|]. rewrite fmap_app. apply Forall_app. split; [done|].
    by apply Forall_singleton.
Qed.

Lemma slice_typed v t l : json_utf8 v → constructInternalValueForSliceType v t = Ok (Some l) →
  slice_values t l ≠ [] ∧ Forall (value_typed t) (slice_values t l).
Proof.
  intros Hv H. destruct v as [| | | |items|]; try done. cbn in H. inversion Hv as [| | | |? Hitems|]; subst.
  apply bind_ok_inv in H as ([s b] & Hfold & H).
  assert (Hst : slices_typed t (s, b)).
  { assert (Hgen : ∀ items acc acc', Forall json_utf8 items → slices_typed t acc →
      res_foldM (sliceItem t) acc items = Ok acc' → slices_typed t acc').
    { clear. induction items as [|i items IH]; intros acc acc' Hi Ha H; cbn in H; [by simplify_eq|].
      apply Forall_cons in Hi as [Hi Hitems]. apply bind_ok_inv in H as (acc1 & H1 & H).
      eapply IH; [done| |done]. by eapply sliceItem_typed. }
    eapply Hgen; [done| |done]. by split. }
  destruct Hst as [Hs Hb]. cbn in Hs, Hb. injection H as H.
  case_bool_decide as H1; [injection H as <-; split; [destruct s; [cbn in H1; lia|done]|done]|].
  case_bool_decide as H2; [injection H as <-; split; [destruct b; [cbn in H2; lia|done]|done]|done].
Qed.

(** What the loop over the operators keeps. *)
Record conds_typed (t : IndexAttributeType) (c : attributeTypeAndConditions) : Prop := {
  ct_type : valueType c = t;
  ct_ops : ∀ op v, conditions c !! op = Some v → op ∈ five_ops ∧ value_typed t v;
  ct_slice : ∀ l, notEqual c = Some l → slice_values t l ≠ [] ∧ Forall (value_typed t) (slice_values t l);
}.

Lemma addCondition_typed t attr c op v c' : json_utf8 v → conds_typed t c → addCondition attr c op v = Ok c' →
  conds_typed t c'.
Proof.
  intros Hv [Ht Hops Hsl] H. unfold addCondition in H. rewrite Ht in H.
  destruct (isValidLogicalOperator op) eqn:Hop; [|done]. cbn [negb] in H.
  case_bool_decide as Hne.
  - apply bind_ok_inv in H as (o & Ho & H). rewrite wrap_err_ok in Ho. destruct o as [l|]; injection H as <-; [|done].
    split; [done|done|]. cbn. intros l' [= <-]. by eapply slice_typed.
  - apply bind_ok_inv in H as (x & Hx & H). rewrite wrap_err_ok in Hx. injection H as <-.
    split; [done| |done]. cbn. intros o w Ho. apply lookup_insert_Some in Ho as [[<- <-]|[_ Ho]]; [|by apply Hops].
    split; [|by eapply nonslice_typed]. apply bool_decide_eq_true in Hop. unfold five_ops.
    clear -Hop Hne. set_solver.
Qed.

Lemma disectAttribute_wf index attr c conds : json_utf8 c → disectAttribute index attr c = Ok conds →
  index !! attr = Some (valueType conds) ∧ conds_wf conds.
Proof.
  intros Hc H. unfold disectAttribute in H. destruct (index !! attr) as [t|]; [|done].
  destruct c as [| | | | |cond]; try done. case_bool_decide; [done|].
  apply bind_ok_inv in H as (conds' & Hfold & H). apply bind_ok_inv in H as ([] & Hval & H).
  rewrite wrap_err_ok in Hval. injection H as ->.
  assert (Hty : conds_typed t conds).
  { inversion Hc as [| | | | |? Hf]; subst. clear Hc Hval.
    assert (Hgen : ∀ cond acc, Forall (fun p => utf8_valid p.1 = true ∧ json_utf8 p.2) cond → conds_typed t acc →
      res_foldM (fun conds '(opr, v) => addCondition attr conds opr v) acc cond = Ok conds → conds_typed t conds).
    { clear. induction cond as [|[op v] cond IH]; intros acc Hf Ha H; cbn in H; [by simplify_eq|].
      apply Forall_cons in Hf as [[_ Hv] Hf]. apply bind_ok_inv in H as (acc1 & H1 & H).
      eapply IH; [done| |done]. by eapply addCondition_typed. }
    eapply Hgen; [done| |done]. split; [done|intros op v; cbn; by rewrite lookup_empty|done]. }
  destruct Hty as [Ht Hops Hsl]. rewrite Ht. split; [done|]. by split; [rewrite Ht..|].
Qed.

Lemma disectConditions_wf index conds q : Forall (fun p => utf8_valid p.1 = true ∧ json_utf8 p.2) conds →
  disectConditions index conds = Ok q →
  ∀ attr c, q !! attr = Some c → index !! attr = Some (valueType c) ∧ utf8_valid attr = true ∧ conds_wf c.
Proof.
  intros Hf H. unfold disectConditions in H.
  assert (Hgen : ∀ conds acc, Forall (fun p => utf8_valid p.1 = true ∧ json_utf8 p.2) conds →
    (∀ attr c, acc !! attr = Some c → index !! attr = Some (valueType c) ∧ utf8_valid attr = true ∧ conds_wf c) →
    res_foldM (fun (queryConditions : attributeToConditions) '(attr, c) =>
      conds ← disectAttribute index attr c; Ok (<[attr := conds]> queryConditions)) acc conds = Ok q →
    ∀ attr c, q !! attr = Some c → index !! attr = Some (valueType c) ∧ utf8_valid attr = true ∧ conds_wf c).
  { clear. induction conds as [|[attr x] conds IH]; intros acc Hf Ha H; cbn in H; [by simplify_eq|].
    apply Forall_cons in Hf as [[Hu Hx] Hf]. apply bind_ok_inv in H as (acc1 & H1 & H).
    apply bind_ok_inv in H1 as (c1 & H1 & Hins). injection Hins as <-.
    destruct (disectAttribute_wf _ _ _ _ Hx H1) as [Hty Hwf].
    eapply IH; [done| |done]. intros a c [[<- <-]|[_ Hc]]%lookup_insert_Some; [done|by apply Ha]. }
  eapply Hgen; [done| |done]. intros attr c. by rewrite lookup_empty.
Qed.

(** ** JSON queries *)

(** The conditions a query names, and whether one of them suffices. *)
Inductive asks {mr : MapRange} (query : bytes) : bool → list (string * json) → Prop :=
  | asks_default top fields : DecodeObject query = Some top →
      lookup_field QueryFieldSelector top = Some (JObject fields) → fields ≠ [] →
      lookup_field QueryOpAnd fields = None → lookup_field QueryOpOr fields = None → asks query false fields
  | asks_and top fields conds : DecodeObject query = Some top →
      lookup_field QueryFieldSelector top = Some (JObject fields) →
      lookup_field QueryOpAnd fields = Some (JObject conds) → lookup_field QueryOpOr fields = None →
      asks query false conds
  | asks_or top fields conds : DecodeObject query = Some top →
      lookup_field QueryFieldSelector top = Some (JObject fields) →
      lookup_field QueryOpAnd fields = None → lookup_field QueryOpOr fields = Some (JObject conds) →
      asks query true conds.

Lemma lookup_field_utf8 name fields v : json_utf8 (JObject fields) → lookup_field name fields = Some v → json_utf8 v.
Proof.
  intros Hf H. unfold lookup_field in H. apply elem_of_list_to_map_2 in H. inversion Hf as [| | | | |? Hall]; subst.
  rewrite Forall_forall in Hall. by destruct (Hall _ H).
Qed.

Lemma asks_utf8 {mr : MapRange} query disjunction conds : asks query disjunction conds →
  Forall (fun p => utf8_valid p.1 = true ∧ json_utf8 p.2) conds.
Proof.
  intros H.
  assert (Hobj : json_utf8 (JObject conds)).
  { destruct H as [top fields Hd Hs|top fields c Hd Hs Ha _|top fields c Hd Hs _ Ho];
      apply decode_object_utf8 in Hd; apply lookup_field_utf8 in Hs; try done;
      by eapply (lookup_field_utf8 _ fields). }
  by inversion Hobj.
Qed.

Section JSONQueries.
Context `{!WorldState D, !Codec User, !Codec NodeConfig, !Codec ClusterConfig, !Codec ValueWithMetadata} {x509 : X509}.
Context `{!WorldStateLaws D, !IteratorLaws D}.
Context {SN : Type} `{!DBsSnapshot SN, !Snapshotter D SN, !SnapshotLaws D SN} {mr : MapRange}.
Implicit Types (db : D) (s : SN).

Lemma ExecuteQuery_asks s n query disjunction conds : asks query disjunction conds →
  ExecuteQuery s n query = (q ← validateAndDisectConditions s n conds;
                            if disjunction then executeOR s n q else executeAND s n q).
Proof.
  intros H. unfold ExecuteQuery.
  destruct H as [top fields Hd Hs Hne Ha Ho|top fields c Hd Hs Ha Ho|top fields c Hd Hs Ha Ho];
    rewrite Hd, Hs, Ha, Ho; [by rewrite bool_decide_eq_false_2|..];
    (rewrite bool_decide_eq_false_2; [done|]); intros ->; done.
Qed.

(** What the loop over the keys collects. *)
Lemma collect_spec s n user keys :
  (∀ k, k ∈ keys → is_ok (SnapGet s n k) = true) → NoDup keys →
  ∃ results, res_foldM (fun results k =>
      '(value, metadata) ← SnapGet s n k;
      Ok (if acl_allows (GetAccessControl_of metadata) user
          then results ++ [mkKVWithMetadata k value metadata] else results)) [] keys = Ok results ∧
    NoDup (KV_Key <$> results) ∧
    ∀ kv, kv ∈ results ↔ KV_Key kv ∈ keys ∧ SnapGet s n (KV_Key kv) = Ok (KV_Value kv, KV_Metadata kv) ∧
      acl_allows (GetAccessControl_of (KV_Metadata kv)) user = true.
Proof.
  intros Hok Hnd.
  assert (Hgen : ∀ acc, (∀ k, k ∈ keys → k ∉ KV_Key <$> acc) → NoDup (KV_Key <$> acc) →
    ∃ results, res_foldM (fun results k =>
      '(value, metadata) ← SnapGet s n k;
      Ok (if acl_allows (GetAccessControl_of metadata) user
          then results ++ [mkKVWithMetadata k value metadata] else results)) acc keys = Ok results ∧
    NoDup (KV_Key <$> results) ∧
    ∀ kv, kv ∈ results ↔ kv ∈ acc ∨ (KV_Key kv ∈ keys ∧ SnapGet s n (KV_Key kv) = Ok (KV_Value kv, KV_Metadata kv) ∧
      acl_allows (GetAccessControl_of (KV_Metadata kv)) user = true)).
  { induction keys as [|k keys IH]; intros acc Hdis Hacc; cbn.
    { exists acc. split_and!; [done..|]. intros kv. split; [by left|]. intros [?|[H _]]; [done|by inversion H]. }
    apply NoDup_cons in Hnd as [Hk Hnd]. specialize (Hok k ltac:(by left)) as Hg.
    destruct (SnapGet s n k) as [[v m]| |] eqn:Hgk; try done. cbn.
    set (acc' := if acl_allows _ _ then _ else acc).
    assert (Hin : ∀ kv, kv ∈ acc' ↔ kv ∈ acc ∨ (kv = mkKVWithMetadata k v m ∧ acl_allows (GetAccessControl_of m) user = true)).
    { intros kv. unfold acc'. destruct (acl_allows _ _); [rewrite elem_of_app, list_elem_of_singleton|]; naive_solver. }
    destruct (IH ltac:(intros; apply Hok; by right) Hnd acc') as (results & Hr & Hndr & Hres).
    - intros k' Hk' Hin'. apply list_elem_of_fmap in Hin' as (kv & -> & [Hkv|[-> _]]%Hin); [|done].
      apply (Hdis (KV_Key kv)); [by right|]. by apply list_elem_of_fmap_2.
    - unfold acc'. destruct (acl_allows _ _); [|done]. rewrite fmap_app. apply NoDup_app. split_and!; [done| |].
      + intros x Hx ->%list_elem_of_singleton. apply (Hdis k); [by left|done].
      + apply NoDup_singleton.
    - exists results. split_and!; [done..|]. intros kv. rewrite Hres, Hin, elem_of_cons. split.
      + intros [[?|[-> Ha]]|(Hkv & H)]; [by left|right|right; naive_solver]. cbn. naive_solver.
      + intros [?|([Heq|Hkv] & Hs & Ha)]; [by left; left| |by right]. left. right. rewrite Heq, Hgk in Hs.
        destruct kv as [k' v' m']. cbn in *. by simplify_eq. }
  destruct (Hgen []) as (results & Hr & Hndr & Hres); [intros ? ? H; by inversion H|constructor|].
  exists results. split_and!; [done..|]. intros kv. rewrite Hres, elem_of_nil. naive_solver.
Qed.

(** What a JSON query returns, in the order of the index. *)
Lemma json_query_finds db n user query disjunction conds def meta index q :
  IsSystemDB n = false → HasReadAccessOnDataDB db user n = Ok true →
  (∀ x, x ∈ [DatabasesDBName; n; IndexDB n] → Exist db x = true) →
  GetIndexDefinition db n = Ok (def, meta) → def ≠ [] → UnmarshalIndexDef def = Ok index →
  index_exact db n index → keys_utf8 db n →
  asks query disjunction conds → disectConditions index conds = Ok q →
  (∀ attr c, q !! attr = Some c → conditions_len c ≠ 0) →
  ∃ results, executeJSONQuery (SN := SN) db n user query = Ok results ∧ NoDup (KV_Key <$> results) ∧
    ∀ kv, kv ∈ results ↔
      query_matches index_compare db n index disjunction q (KV_Key kv) ∧
      Get db n (KV_Key kv) = Ok (KV_Value kv, KV_Metadata kv) ∧
      acl_allows (GetAccessControl_of (KV_Metadata kv)) user = true.
Proof.
  intros Hsys Hperm Hexist Hdef Hne Hun Hex Hku Hasks Hq Hlen.
  pose proof (disectConditions_wf index conds q (asks_utf8 _ _ _ Hasks) Hq) as Hwf.
  unfold executeJSONQuery, checkReadAccess. rewrite Hsys, Hperm. cbn [mbind res_bind].
  pose proof (snapshot_exists (S := SN) db _ Hexist) as Hsnap.
  destruct (GetDBsSnapshot (S := SN) db _) as [s| |] eqn:Hs; try done. cbn [mbind res_bind].
  rewrite (ExecuteQuery_asks _ _ _ _ _ Hasks). unfold validateAndDisectConditions.
  rewrite snapshot_index, (snapshot_get _ _ _ _ _ Hs) by (by left). rewrite <- get_index_get, Hdef.
  cbn [mbind res_bind]. rewrite bool_decide_eq_false_2, Hun by done. cbn [mbind res_bind]. rewrite Hq. cbn [mbind res_bind].
  destruct (combine_exact db s n index _ q disjunction Hs ltac:(by right; right; left) Hex Hku) as (keys & -> & Hkeys).
  { intros attr c Hc. destruct (Hwf attr c Hc) as (? & ? & ?). split_and!; [done..|]. by eapply Hlen. }
  cbn [mbind res_bind].
  assert (Hget : ∀ k, SnapGet s n k = Get db n k) by (intros k; apply (snapshot_get _ _ _ _ _ Hs); by right; left).
  assert (Hrange : ∀ k, k ∈ range_set keys ↔ query_matches index_compare db n index disjunction q k).
  { intros k. unfold range_set. rewrite elem_of_range_keys, <- elem_of_dom, dom_gset_to_gmap. apply Hkeys. }
  destruct (collect_spec s n user (range_set keys)) as (results & -> & Hnd & Hres).
  - intros k Hk%Hrange. rewrite Hget. destruct disjunction; cbn in Hk.
    + destruct Hk as (attr & c & _ & v & m & e & -> & _). done.
    + destruct Hk as [Hq0 Hk]. apply map_choose in Hq0 as (attr & c & Hc).
      destruct (Hk attr c Hc) as (v & m & e & -> & _). done.
  - apply range_keys_NoDup.
  - exists results. split_and!; [done..|]. intros kv. by rewrite Hres, Hrange, Hget.
Qed.

(** A condition other than an equality compares an attribute only with plain strings, and
    the stored values have only plain strings in that attribute.  (This restricts conditions
    on string attributes; numbers and booleans are plain.) *)
Definition compares_plain db (n : string) (index : gmap string IndexAttributeType) (q : attributeToConditions) : Prop :=
  ∀ attr c op v, q !! attr = Some c → conditions c !! op = Some v → op ≠ QueryOpEqual →
    plain_value v ∧
    ∀ k x m e, Get db n k = Ok (x, m) → e ∈ decodeJSONAndConstructIndexEntries k x index → Attribute e = attr →
      plain_value (IE_Value e).

Lemma op_holds_eq compare v x : op_holds compare QueryOpEqual v x = match compare x v with Eq => true | _ => false end.
Proof. unfold op_holds. by destruct (compare x v). Qed.

Lemma op_holds_plain t op v x : value_typed t v → value_typed t x → (op ≠ QueryOpEqual → plain_value v ∧ plain_value x) →
  op_holds index_compare op v x = op_holds value_compare op v x.
Proof.
  intros Hv Hx Hp. destruct (decide (op = QueryOpEqual)) as [->|Hne].
  - rewrite !op_holds_eq. pose proof (index_compare_eq t x v Hx Hv). pose proof (value_compare_eq t x v Hx Hv).
    destruct (index_compare x v), (value_compare x v); naive_solver.
  - destruct (Hp Hne). unfold op_holds. by rewrite (index_compare_plain t).
Qed.

(** There the order of the index is the order of the values. *)
Lemma query_matches_plain db n index disjunction q k : keys_utf8 db n → compares_plain db n index q →
  (∀ attr c, q !! attr = Some c → index !! attr = Some (valueType c) ∧ utf8_valid attr = true ∧ conds_wf c) →
  query_matches index_compare db n index disjunction q k ↔ query_matches value_compare db n index disjunction q k.
Proof.
  intros Hku Hpl Hwf.
  assert (Hattr : ∀ attr c, q !! attr = Some c →
    attr_matches index_compare db n index attr c k ↔ attr_matches value_compare db n index attr c k).
  { intros attr c Hc. destruct (Hwf attr c Hc) as (Hix & _ & Hcw).
    assert (Hops : ∀ x m e op v, Get db n k = Ok (x, m) → e ∈ decodeJSONAndConstructIndexEntries k x index →
      Attribute e = attr → conditions c !! op = Some v →
      op_holds index_compare op v (IE_Value e) = op_holds value_compare op v (IE_Value e)).
    { intros x m e op v Hg He Ha Hv. assert (Hst : stored_entry db n index e) by (apply stored_iff; eauto).
      destruct Hst as [Hw _]. pose proof (ew_type _ _ Hw) as Ht. rewrite Ha, Hix in Ht. injection Ht as Ht.
      apply (op_holds_plain (valueType c)); [by apply (cw_ops _ Hcw op)|rewrite Ht; apply (ew_value _ _ Hw)|].
      intros Hne. destruct (Hpl _ _ _ _ Hc Hv Hne) as [? Hall]. split; [done|]. by eapply Hall. }
    split; intros (x & m & e & Hg & He & Ha & Ho & Hn); exists x, m, e; split_and!; try done;
      (split; [|done]); intros op v Hv; [erewrite <- Hops|erewrite Hops]; eauto. }
  unfold query_matches. destruct disjunction; [|apply and_iff_compat_l]; split; intros H.
  - destruct H as (attr & c & Hc & H). exists attr, c. split; [done|]. by apply Hattr.
  - destruct H as (attr & c & Hc & H). exists attr, c. split; [done|]. by apply Hattr.
  - intros attr c Hc. apply Hattr; auto.
  - intros attr c Hc. apply Hattr; auto.
Qed.

(** Numbers and booleans are plain. *)
Lemma not_strings_plain db n index q : keys_utf8 db n →
  (∀ attr c, q !! attr = Some c → index !! attr = Some (valueType c) ∧ utf8_valid attr = true ∧ conds_wf c) →
  (∀ attr c, q !! attr = Some c → valueType c ≠ IndexAttributeType_STRING) → compares_plain db n index q.
Proof.
  intros Hku Hwf Hns attr c op v Hc Hv _. destruct (Hwf attr c Hc) as (Hix & _ & Hcw). pose proof (Hns attr c Hc) as Hn.
  assert (Hpl : ∀ x, value_typed (valueType c) x → plain_value x) by (intros []; by destruct (valueType c)).
  split; [apply Hpl; by apply (cw_ops _ Hcw op)|]. intros k x m e Hg He Ha.
  assert (Hst : stored_entry db n index e) by (apply stored_iff; eauto). destruct Hst as [Hw _].
  pose proof (ew_type _ _ Hw) as Ht. rewrite Ha, Hix in Ht. injection Ht as Ht.
  apply Hpl. rewrite Ht. apply (ew_value _ _ Hw).
Qed.

(** C8: a JSON query returns exactly what it asks for: the keys of the database whose
    values satisfy the conditions of the query, all of them or one of them as the query
    says, each with its value and metadata, provided the access control of the key lets
    the user read it.  Numbers compare by value, [false] comes before [true], and strings
    compare by their bytes.  The index is exact and the conditions passed the checks; no
    attribute has an empty [$neq] as its only condition, and where a string attribute is
    compared other than for equality, the strings are plain: the index orders strings by
    their JSON texts, which is the order of the strings only then. *)
Theorem json_query_exact db n user query disjunction conds def meta index q :
  IsSystemDB n = false → HasReadAccessOnDataDB db user n = Ok true →
  (∀ x, x ∈ [DatabasesDBName; n; IndexDB n] → Exist db x = true) →
  GetIndexDefinition db n = Ok (def, meta) → def ≠ [] → UnmarshalIndexDef def = Ok index →
  index_exact db n index → keys_utf8 db n →
  asks query disjunction conds → disectConditions index conds = Ok q →
  (∀ attr c, q !! attr = Some c → conditions_len c ≠ 0) → compares_plain db n index q →
  ∃ results, executeJSONQuery (SN := SN) db n user query = Ok results ∧ NoDup (KV_Key <$> results) ∧
    ∀ kv, kv ∈ results ↔
      query_matches value_compare db n index disjunction q (KV_Key kv) ∧
      Get db n (KV_Key kv) = Ok (KV_Value kv, KV_Metadata kv) ∧
      acl_allows (GetAccessControl_of (KV_Metadata kv)) user = true.
Proof.
  intros Hsys Hperm Hexist Hdef Hne Hun Hex Hku Hasks Hq Hlen Hpl.
  destruct (json_query_finds db n user query disjunction conds def meta index q) as (results & Hr & Hnd & Hres); try done.
  exists results. split_and!; [done..|]. intros kv. rewrite Hres, query_matches_plain; [done..|].
  exact (disectConditions_wf index conds q (asks_utf8 _ _ _ Hasks) Hq).
Qed.

(** The condition [$neq] with an empty array, which every value satisfies,
    selects nothing: no condition is recorded for it, and the range planned for
    no condition is empty whatever the index database holds. *)
Theorem empty_neq_finds_nothing db s n names attr t :
  GetDBsSnapshot db names = Ok s → IndexDB n ∈ names →
  addCondition attr (mkConditions t ∅ None) QueryOpNotEqual (JArray []) = Ok (mkConditions t ∅ None) ∧
  execute s n attr (mkConditions t ∅ None) = Ok ∅.
Proof.
  intros Hs Hin. split; [done|]. unfold execute, createQueryPlan. cbn [planExcludes notEqual mbind res_bind].
  assert (Hr : range (conditions (mkConditions t ∅ None)) = []).
  { apply Permutation_nil. rewrite range_perm. cbn. by rewrite map_to_list_empty. }
  rewrite Hr. cbn -[entry_string]. rewrite (snapshot_iterator _ _ _ _ _ _ Hs Hin), iterator_range.
  pose proof (iterator_exists db (IndexDB n) (snapshot_taken _ _ _ _ Hs Hin)) as Hok.
  destruct (GetIterator db (IndexDB n) "" "") as [l| |]; try done. cbn -[entry_string].
  set (x := entry_string _).
  assert (filter (fun e : string * bytes => in_range x x e.1 = true) l = []) as ->; [|done].
  clear Hok. induction l as [|e l IH]; [done|]. rewrite filter_cons_False; [done|].
  unfold in_range. rewrite leb_ltb, !bool_decide_eq_false_2 by done. by destruct (String.ltb e.1 x).
Qed.

End JSONQueries.

(** ** Range queries *)

Section RangeQueries.
Context `{!WorldState D, !Codec User, !Codec NodeConfig, !Codec ValueWithMetadata, !IteratorLaws D} {x509 : X509}.
Implicit Types (db : D).

(** The entry of a key, when it can be decoded and the user may read it. *)
Definition readable_entry (user : string) (e : string * bytes) : option KVWithMetadata :=
  match Unmarshal (A := ValueWithMetadata) e.2 with
  | Ok v => if acl_allows (GetAccessControl_of (VWM_Metadata v)) user
            then Some (mkKVWithMetadata e.1 (VWM_Value v) (VWM_Metadata v)) else None
  | _ => None
  end.

Definition readable (user : string) (l : list (string * bytes)) : list KVWithMetadata := omap (readable_entry user) l.

(** A client that asks for the next page until there is none. *)
Fixpoint read_pages (fuel : nat) db (sizeLimit : Z) (n user startKey endKey : string) (limit : Z)
    : res (list KVWithMetadata) :=
  match fuel with
  | 0 => Panic "out of fuel"
  | S fuel =>
    r ← getDataRange db sizeLimit n user startKey endKey limit;
    if PendingResult r then
      rest ← read_pages fuel db sizeLimit n user (NextStartKey r) endKey limit;
      Ok (KVs r ++ rest)
    else Ok (KVs r)
  end.

(** The records that can be decoded, each within the limit of a response. *)
Definition fits (sizeLimit : Z) (e : string * bytes) : Prop :=
  is_ok (Unmarshal (A := ValueWithMetadata) e.2) = true ∧ (Z.of_nat (String.length e.1 + length e.2) ≤ sizeLimit)%Z.

(** A page is what a part of the range holds; the next page starts where it ends. *)
Lemma loop_page user limit sizeLimit itr kvs resultCount size :
  (0 ≤ limit)%Z → (sizeLimit < 2 ^ 64)%Z → Forall (fits sizeLimit) itr →
  (kvs = [] → resultCount = 0%Z ∧ size = 0%Z) →
  ∃ r page rest, dataRangeLoop user limit sizeLimit itr kvs resultCount size = Ok r ∧ itr = page ++ rest ∧
    KVs r = kvs ++ readable user page ∧
    (PendingResult r = false → rest = []) ∧
    (PendingResult r = true → KVs r ≠ [] ∧ ∃ b rest', rest = (NextStartKey r, b) :: rest').
Proof.
  intros Hlim Hsl. revert kvs resultCount size.
  induction itr as [|[k b] itr IH]; intros kvs resultCount size Hfits Hstart.
  { eexists _, [], []. split_and!; [done|done|by rewrite app_nil_r|done|done]. }
  apply Forall_cons in Hfits as [[Hok Hfit] Hfits]. cbn [fst snd] in Hok, Hfit. cbn [dataRangeLoop].
  destruct (Unmarshal b) as [v| |] eqn:Hb; try done. cbn [mbind res_bind].
  assert (Hread : readable_entry user (k, b) =
    if acl_allows (GetAccessControl_of (VWM_Metadata v)) user
    then Some (mkKVWithMetadata k (VWM_Value v) (VWM_Metadata v)) else None).
  { unfold readable_entry. cbn. by rewrite Hb. }
  destruct (acl_allows _ user) eqn:Hacl; cbn [negb].
  2:{ destruct (IH kvs resultCount size Hfits Hstart) as (r & page & rest & Hr & -> & Hkv & Hdone & Hpend).
      exists r, ((k, b) :: page), rest. split_and!; [done|done| |done|done].
      unfold readable. cbn. rewrite Hread. done. }
  assert (Hhere : kvs ≠ [] → ∃ r page rest,
      Ok (mkGetDataRangeResponse kvs true k) = Ok r ∧ (k, b) :: itr = page ++ rest ∧
      KVs r = kvs ++ readable user page ∧ (PendingResult r = false → rest = []) ∧
      (PendingResult r = true → KVs r ≠ [] ∧ ∃ b0 rest', rest = (NextStartKey r, b0) :: rest')).
  { intros Hkvs. eexists _, [], ((k, b) :: itr). split_and!; [done|done|by rewrite app_nil_r|done|]. cbn. eauto. }
  set (count := if (0 <? limit)%Z then u64 (resultCount + 1) else resultCount).
  destruct ((0 <? limit)%Z && (limit <? count)%Z) eqn:Hcount.
  { apply Hhere. intros Hkv. destruct (Hstart Hkv) as [-> _]. subst count. destruct (0 <? limit)%Z eqn:E; [|done].
    rewrite u64_small in Hcount by lia. lia. }
  set (size' := u64 (size + Z.of_nat (String.length k + length b))).
  destruct (sizeLimit <? size')%Z eqn:Hsize.
  { case_bool_decide as Hnil.
    - exfalso. destruct (Hstart Hnil) as [_ ->]. subst size'. rewrite u64_small in Hsize by lia.
      apply Z.ltb_lt in Hsize. apply (Z.lt_irrefl sizeLimit). eapply Z.lt_le_trans; [exact Hsize|exact Hfit].
    - by apply Hhere. }
  destruct (IH (kvs ++ [mkKVWithMetadata k (VWM_Value v) (VWM_Metadata v)]) count size' Hfits)
    as (r & page & rest & Hr & -> & Hkv & Hdone & Hpend); [by destruct kvs|].
  exists r, ((k, b) :: page), rest. split_and!; [done|done| |done|done].
  rewrite Hkv, <- app_assoc. unfold readable. cbn. by rewrite Hread.
Qed.

(** The iterator from a key of a range visits what is left of the range. *)
Lemma iterator_from db n x y l0 page k b rest :
  GetIterator db n "" "" = Ok l0 → GetIterator db n x y = Ok (page ++ (k, b) :: rest) → page ≠ [] →
  GetIterator db n k y = Ok ((k, b) :: rest).
Proof.
  intros H0. rewrite (iterator_range db n x y), (iterator_range db n k y), H0. cbn.
  pose proof (iterator_sorted _ _ _ H0) as Hs. intros [= Hf] Hpage. f_equal.
  assert (Hsf : StronglySorted key_lt (page ++ (k, b) :: rest)).
  { rewrite <- Hf. clear -Hs. induction Hs as [|a l0 Hs IH Ha]; [constructor|]. rewrite filter_cons.
    case_decide; [|done]. constructor; [done|]. rewrite Forall_forall in Ha |- *.
    intros q [_ Hq]%list_elem_of_filter. by apply Ha. }
  assert (Hlow : ∀ p, p ∈ page → String.ltb p.1 k = true).
  { intros p Hp. apply (StronglySorted_app_1_elem_of _ _ _ p (k, b) Hsf Hp). by left. }
  assert (Hhigh : ∀ p, p ∈ (k, b) :: rest → String.leb k p.1 = true).
  { apply StronglySorted_app_1_r, StronglySorted_inv in Hsf as [_ Hr]. rewrite Forall_forall in Hr.
    intros p [->|Hp]%elem_of_cons; cbn; [rewrite leb_compare; by rewrite string_compare_refl|].
    specialize (Hr p Hp). unfold key_lt in Hr. cbn in Hr. rewrite ltb_compare in Hr. rewrite leb_compare. by rewrite Hr. }
  assert (Hk : k ≠ "").
  { intros ->. destruct page as [|p page]; [done|]. specialize (Hlow p ltac:(by left)).
    rewrite ltb_compare in Hlow. by destruct p.1. }
  assert (Hkr : in_range x y k = true).
  { assert (Hin : (k, b) ∈ filter (fun e => in_range x y e.1 = true) l0) by (rewrite Hf; apply elem_of_app; right; by left).
    by apply list_elem_of_filter in Hin as [? _]. }
  assert (Hnest : ∀ p, in_range k y p = true ↔ in_range x y p = true ∧ String.leb k p = true).
  { intros p. unfold in_range in *. rewrite (bool_decide_eq_false_2 (k = "")) by done. cbn [orb].
    apply andb_true_iff in Hkr as [Hxk _]. rewrite !andb_true_iff. split; [|naive_solver].
    intros [Hkp Hpy]. split_and!; [|done|done]. apply orb_true_iff in Hxk as [->|Hxk]; [done|].
    apply orb_true_iff. right. by eapply (string_le_trans x k p). }
  assert (Hsplit : filter (fun e => in_range k y e.1 = true) l0 =
    filter (fun e => String.leb k e.1 = true) (filter (fun e => in_range x y e.1 = true) l0)).
  { rewrite list_filter_filter. apply list_filter_iff. intros [p c]. cbn. rewrite Hnest. tauto. }
  rewrite Hsplit, Hf, filter_app.
  assert (filter (fun e => String.leb k e.1 = true) page = []) as ->.
  { clear -Hlow. induction page as [|p page IH]; [done|]. rewrite filter_cons_False.
    - apply IH. intros q Hq. apply Hlow. by right.
    - rewrite leb_ltb, (Hlow p) by (by left). done. }
  cbn [app]. clear -Hhigh. induction ((k, b) :: rest) as [|p l IH]; [done|]. rewrite filter_cons_True.
  - f_equal. apply IH. intros q Hq. apply Hhigh. by right.
  - apply Hhigh. by left.
Qed.

Lemma pages_cover fuel db sizeLimit n user x y limit l :
  IsSystemDB n = false → HasReadAccessOnDataDB db user n = Ok true → Exist db n = true →
  (0 ≤ limit)%Z → (sizeLimit < 2 ^ 64)%Z →
  GetIterator db n x y = Ok l → Forall (fits sizeLimit) l → length l < fuel →
  read_pages fuel db sizeLimit n user x y limit = Ok (readable user l).
Proof.
  intros Hsys Hperm Hexist Hlim Hsl. revert x l.
  induction fuel as [|fuel IH]; intros x l Hit Hfits Hlen; [lia|].
  cbn [read_pages]. unfold getDataRange, checkReadAccess. rewrite Hsys, Hperm, Hit. cbn [mbind res_bind].
  destruct (loop_page user limit sizeLimit l [] 0 0 Hlim Hsl Hfits) as (r & page & rest & -> & -> & Hkv & Hdone & Hpend); [done|].
  cbn [mbind res_bind]. destruct (PendingResult r).
  - destruct (Hpend eq_refl) as (Hne & b & rest' & ->). rewrite Hkv in Hne. cbn in Hne.
    assert (Hpage : page ≠ []) by (by intros ->).
    pose proof (iterator_exists db n Hexist) as Hok.
    destruct (GetIterator db n "" "") as [l0| |] eqn:H0; try done.
    rewrite (IH _ _ (iterator_from _ _ _ _ _ _ _ _ _ H0 Hit Hpage)).
    + cbn [mbind res_bind]. rewrite Hkv. unfold readable. by rewrite omap_app.
    + by apply Forall_app in Hfits as [_ Hfits].
    + rewrite length_app in Hlen. destruct page; [done|]. cbn in *. lia.
  - rewrite (Hdone eq_refl), app_nil_r. by rewrite Hkv.
Qed.

(** C23: reading a range page by page ends and loses nothing: a client that
    follows [NextStartKey] until no result is pending gets exactly the entries of
    the range it may read, in key order, after at most one request per entry and
    one more, whatever the limit on the number of results, provided every record
    fits in a response. *)
Theorem range_pages_complete db sizeLimit n user startKey endKey limit l :
  IsSystemDB n = false → HasReadAccessOnDataDB db user n = Ok true → Exist db n = true →
  (0 ≤ limit)%Z → (sizeLimit < 2 ^ 64)%Z →
  GetIterator db n startKey endKey = Ok l → Forall (fits sizeLimit) l →
  read_pages (length l + 1) db sizeLimit n user startKey endKey limit = Ok (readable user l).
Proof. intros. apply pages_cover; try done. lia. Qed.

End RangeQueries.
