(* ===== verification/QueryExample.v ===== *)
(** * Queries on a small database

    An indexed database, with witnesses for the theorems on queries, and a query
    whose answer is not the one the order of strings suggests. *)

From S2P Require Import BlockEncoding BlockStore.
From S2P Require Import Prelude StringOrder Types JSON JSONPrint WorldState LevelDB Snapshot Identity Validation ConfigTxValidator.
From S2P Require Import Instances IndexEncoding StateIndex QueryExecutor IndexText QueryProofs StateQueries StateQueryProofs.

(** ** Exactness of an index by evaluation *)

Section Decide.
Context `{!Codec ValueWithMetadata, !Codec ClusterConfig} {mr : MapRange}.

(** The entries of the values of a database. *)
Definition entries_of (index : gmap string IndexAttributeType) (p : string * bytes) : list string :=
  match Unmarshal (A := ValueWithMetadata) p.2 with
  | Ok v => entry_string <$> decodeJSONAndConstructIndexEntries p.1 (VWM_Value v) index
  | _ => []
  end.

Lemma index_exact_check (l : LevelDB) n (f g : gmap string bytes) index :
  dbs l !! n = Some f → dbs l !! IndexDB n = Some g →
  dom g = list_to_set (map_to_list f ≫= entries_of index) → index_exact l n index.
Proof.
  intros Hf Hg Hdom s. cbn. unfold LDB.Has. rewrite Hg. cbn.
  assert (Hs : is_Some (g !! s) ↔ ∃ k v m, LDB.Get l n k = Ok (v, m) ∧ indexes index k v s).
  { rewrite <- elem_of_dom, Hdom, elem_of_list_to_set, list_elem_of_bind. unfold LDB.Get. rewrite Hf. split.
    - intros ([k b] & Hs & Hk%elem_of_map_to_list). unfold entries_of in Hs. cbn in Hs.
      destruct (Unmarshal b) as [v| |] eqn:Hb; [|by inversion Hs..].
      apply list_elem_of_fmap in Hs as (e & -> & He). exists k, (VWM_Value v), (VWM_Metadata v).
      rewrite Hk, Hb. split; [done|]. by exists e.
    - intros (k & v & m & Hg' & e & He & ->%EntryString_ok). destruct (f !! k) as [b|] eqn:Hk.
      + exists (k, b). split; [|by apply elem_of_map_to_list]. unfold entries_of. cbn.
        destruct (Unmarshal b) as [v'| |] eqn:Hb; try done. cbn in Hg'. injection Hg' as <- <-.
        by apply list_elem_of_fmap_2.
      + injection Hg' as <- <-. cbn in He. by inversion He. }
  rewrite <- Hs. split; [intros [= H]; by apply bool_decide_eq_true in H|intros H; by rewrite bool_decide_eq_true_2].
Qed.

Lemma keys_utf8_check (l : LevelDB) n (f : gmap string bytes) :
  dbs l !! n = Some f → forallb (fun p => utf8_valid p.1) (map_to_list f) = true → keys_utf8 l n.
Proof.
  intros Hf Hall k v m. cbn. unfold LDB.Get. rewrite Hf. destruct (f !! k) as [b|] eqn:Hk; [|by intros [= <- _]].
  intros _ _. rewrite forallb_forall in Hall. apply (Hall (k, b)). by apply list_elem_of_In, elem_of_map_to_list.
Qed.

End Decide.

Module QueryExample.
Import Toy.

(** ** The database *)

Definition member (name value : string) : string := field name +:+ value.
Definition object (members : list string) : string := "{" +:+ strings_join members "," +:+ "}".
Definition person (age : string) (name : string) : bytes :=
  bytes_of_string (object [member "age" age; member "name" (json_string name)]).

Definition people_index : gmap string IndexAttributeType :=
  {["age" := IndexAttributeType_NUMBER; "name" := IndexAttributeType_STRING]}.
Definition people_def : bytes := match MarshalIndexDef people_index with Ok b => b | _ => [] end.

(** The third key can be read by bob only. *)
Definition bob_only : option Metadata :=
  Some (mkMetadata (version 3 0) (Some (mkAccessControl {["bob" := true]} ∅ AccessControl_ANY))).
Definition people : list KVWithMetadata :=
  [mkKVWithMetadata "k1" (person "40" "a") (meta 3 0);
   mkKVWithMetadata "k2" (person "41" "a b") (meta 3 0);
   mkKVWithMetadata "k3" (person "-5" "c") bob_only].

Definition index_writes : list KVWithMetadata :=
  people ≫= fun kv => (fun e => mkKVWithMetadata (entry_string e) [] None) <$>
    decodeJSONAndConstructIndexEntries (KV_Key kv) (KV_Value kv) people_index.

Definition people_state : LevelDB :=
  commit (commit state1 {[DatabasesDBName :=
      mkDBUpdates [mkKVWithMetadata "db1" people_def (meta 2 0);
                   mkKVWithMetadata (IndexDB "db1") [] (meta 2 0)] []]} 2)
    {["db1" := mkDBUpdates people []; IndexDB "db1" := mkDBUpdates index_writes []]} 3.

Definition people_db : gmap string bytes := default ∅ (dbs people_state !! "db1").
Definition people_ix : gmap string bytes := default ∅ (dbs people_state !! IndexDB "db1").

Definition checks : bool :=
  bool_decide (dbs people_state !! "db1" = Some people_db) &&
  bool_decide (dbs people_state !! IndexDB "db1" = Some people_ix) &&
  bool_decide (dom people_ix = list_to_set (map_to_list people_db ≫= entries_of people_index)) &&
  forallb (fun p => utf8_valid p.1) (map_to_list people_db).

Lemma checks_ok : checks = true.
Proof. vm_compute. reflexivity. Qed.

Lemma people_exact : index_exact people_state "db1" people_index ∧ keys_utf8 people_state "db1".
Proof.
  pose proof checks_ok as H. unfold checks in H. rewrite !andb_true_iff in H.
  destruct H as (((H1%bool_decide_eq_true_1 & H2%bool_decide_eq_true_1) & H3%bool_decide_eq_true_1) & H4).
  split; [exact (index_exact_check _ _ _ _ _ H1 H2 H3)|exact (keys_utf8_check _ _ _ H1 H4)].
Qed.

Lemma people_indexdef : ∃ m, GetIndexDefinition people_state "db1" = Ok (people_def, m).
Proof. eexists. vm_compute. reflexivity. Qed.

Lemma people_def_nonempty : people_def ≠ [].
Proof. vm_compute. discriminate. Qed.

Lemma people_unmarshal : UnmarshalIndexDef people_def = Ok people_index.
Proof. vm_compute. reflexivity. Qed.

Lemma people_exist x : x ∈ [DatabasesDBName; "db1"; IndexDB "db1"] → Exist people_state x = true.
Proof.
  assert (H : forallb (Exist people_state) [DatabasesDBName; "db1"; IndexDB "db1"] = true) by (vm_compute; reflexivity).
  rewrite forallb_forall in H. intros Hx. apply H. by apply list_elem_of_In.
Qed.

Lemma alice_reads : HasReadAccessOnDataDB people_state "alice" "db1" = Ok true.
Proof. vm_compute. reflexivity. Qed.

(** ** A query on ages *)

(** Ages of at least -10 other than 41. *)
Definition age_cond : string := object [member "$gte" "-10"; member "$neq" "[41]"].
Definition age_query : bytes := bytes_of_string (object [member "selector" (object [member "age" age_cond])]).

Definition age_fields : list (string * json) :=
  match DecodeObject age_query with
  | Some top => match lookup_field QueryFieldSelector top with Some (JObject f) => f | _ => [] end
  | None => []
  end.
Definition age_disected : attributeToConditions :=
  match disectConditions people_index age_fields with Ok q => q | _ => ∅ end.

Lemma age_disected_ok : disectConditions people_index age_fields = Ok age_disected.
Proof. vm_compute. reflexivity. Qed.

Lemma age_asks : asks age_query false age_fields.
Proof.
  eapply (asks_default age_query [("selector", JObject age_fields)] age_fields); vm_compute; try reflexivity. discriminate.
Qed.

Lemma age_lengths attr c : age_disected !! attr = Some c → conditions_len c ≠ 0.
Proof.
  assert (H : forallb (fun p => negb (bool_decide (conditions_len p.2 = 0))) (map_to_list age_disected) = true)
    by (vm_compute; reflexivity).
  intros Hc Hl. apply elem_of_map_to_list, list_elem_of_In in Hc. rewrite forallb_forall in H.
  specialize (H _ Hc). apply negb_true_iff, bool_decide_eq_false in H. exact (H Hl).
Qed.

(** Only numbers are compared. *)
Lemma age_numbers attr c : age_disected !! attr = Some c → valueType c ≠ IndexAttributeType_STRING.
Proof.
  assert (H : forallb (fun p => negb (bool_decide (valueType p.2 = IndexAttributeType_STRING))) (map_to_list age_disected) = true)
    by (vm_compute; reflexivity).
  intros Hc Hl. apply elem_of_map_to_list, list_elem_of_In in Hc. rewrite forallb_forall in H.
  specialize (H _ Hc). apply negb_true_iff, bool_decide_eq_false in H. exact (H Hl).
Qed.

Lemma age_plain : compares_plain people_state "db1" people_index age_disected.
Proof.
  exact (not_strings_plain people_state "db1" people_index age_disected (proj2 people_exact)
    (disectConditions_wf people_index age_fields age_disected (asks_utf8 _ _ _ age_asks) age_disected_ok) age_numbers).
Qed.

Lemma json_query_exact_witness :
  ∃ results, executeJSONQuery (SN := Snapshots) people_state "db1" "alice" age_query = Ok results ∧
    NoDup (KV_Key <$> results) ∧
    ∀ kv, kv ∈ results ↔
      query_matches value_compare people_state "db1" people_index false age_disected (KV_Key kv) ∧
      Get people_state "db1" (KV_Key kv) = Ok (KV_Value kv, KV_Metadata kv) ∧
      acl_allows (GetAccessControl_of (KV_Metadata kv)) "alice" = true.
Proof.
  destruct people_indexdef as [m Hm]. destruct people_exact as [Hex Hku].
  exact (json_query_exact people_state "db1" "alice" age_query false age_fields people_def m people_index age_disected
           eq_refl alice_reads people_exist Hm people_def_nonempty people_unmarshal Hex Hku age_asks
           age_disected_ok age_lengths age_plain).
Defined.

(** ** Pages *)

Definition all_people : list (string * bytes) := match GetIterator people_state "db1" "" "" with Ok l => l | _ => [] end.

Lemma all_people_ok : GetIterator people_state "db1" "" "" = Ok all_people.
Proof. vm_compute. reflexivity. Qed.

Lemma all_people_fit : Forall (fits 100000) all_people.
Proof.
  assert (H : forallb (fun e => is_ok (Unmarshal (A := ValueWithMetadata) e.2) &&
    (Z.of_nat (String.length e.1 + length e.2) <=? 100000)%Z) all_people = true) by (vm_compute; reflexivity).
  apply Forall_forall. intros e He. rewrite forallb_forall in H. apply list_elem_of_In in He. specialize (H e He).
  apply andb_true_iff in H as [H1 H2%Z.leb_le]. exact (conj H1 H2).
Qed.

Lemma range_pages_complete_witness :
  read_pages (length all_people + 1) people_state 100000 "db1" "alice" "" "" 1 = Ok (readable "alice" all_people).
Proof.
  exact (range_pages_complete people_state 100000 "db1" "alice" "" "" 1 all_people eq_refl alice_reads
           (people_exist "db1" ltac:(by right; left)) ltac:(lia) ltac:(lia) all_people_ok all_people_fit).
Defined.

(** ** An empty exclusion *)

Definition from_ok {A} (d : A) (m : res A) : A := match m with Ok a => a | _ => d end.

Lemma from_ok_eq {A} (d : A) (m : res A) : is_ok m = true → m = Ok (from_ok d m).
Proof. by destruct m. Qed.

Definition people_snapshot : Snapshots :=
  from_ok (mkSnapshots ∅) (GetDBsSnapshot people_state [DatabasesDBName; "db1"; IndexDB "db1"]).

Lemma people_snapshot_ok : GetDBsSnapshot people_state [DatabasesDBName; "db1"; IndexDB "db1"] = Ok people_snapshot.
Proof. apply from_ok_eq. vm_compute. reflexivity. Qed.

Lemma empty_neq_finds_nothing_witness :
  execute people_snapshot "db1" "age" (mkConditions IndexAttributeType_NUMBER ∅ None) = Ok ∅.
Proof.
  exact (proj2 (empty_neq_finds_nothing people_state people_snapshot "db1" _ "age" IndexAttributeType_NUMBER
                  people_snapshot_ok ltac:(by right; right; left))).
Defined.

(** ** The order of strings *)

(** Names greater than a given one. *)
Definition name_query : bytes :=
  bytes_of_string (object [member "selector" (object [member "name" (object [member "$gt" (json_string "a")])])]).

Definition found (r : res (list KVWithMetadata)) : res (list string) :=
  match r with Ok l => Ok (KV_Key <$> l) | Err e => Err e | Panic w => Panic w end.

(** A range query on strings can miss a value: the text of a string ends with
    a quote, which sorts after the space, so that the name [a b], greater than [a]
    in the order of Go strings, is not among the names greater than [a]; a query
    for the names greater than [a] finds only the key with the name [c]. *)
Theorem string_range_misses_extension :
  String.ltb "a" "a b" = true ∧
  found (executeJSONQuery (SN := Snapshots) people_state "db1" "bob" name_query) = Ok ["k3"] ∧
  Get people_state "db1" "k2" = Ok (person "41" "a b", meta 3 0) ∧
  decodeJSONAndConstructIndexEntries "k2" (person "41" "a b") people_index =
    [mkIndexEntry "age" IndexAttributeType_NUMBER Existing (IVNumber (EncodeInt64 41)) Existing "k2";
     mkIndexEntry "name" IndexAttributeType_STRING Existing (IVString "a b") Existing "k2"].
Proof. split_and!; vm_compute; reflexivity. Qed.

End QueryExample.
