(* ===== verification/Backend.v ===== *)
(** * The database behind the HTTP server

    [internal/bcdb/db.go]: every query goes to one of the three query processors, a
    transaction to the transaction processor, and every answer is signed by the node. *)

From S2P Require Import Prelude Types WorldState LevelDB Snapshot Identity Validation StateIndex QueryExecutor StateQueries.
From S2P Require Import BlockEncoding BlockStore MPTrie Ledger DbEntries ProvenanceJSON Provenance ProvenanceQueries Pipeline.
Open Scope Z_scope.

(** ** Responses *)

Record GetClusterStatusResponse := mkGetClusterStatusResponse {
  GCS_Nodes : list (option NodeConfig);
  GCS_Version : option Version;
  GCS_Leader : string;
  GCS_Active : list string;
}.

Inductive Response :=
  | UserResponse (r : GetUserResponse)
  | NodeConfigResponse (r : option NodeConfig)
  | ConfigResponse (config : ClusterConfig) (metadata : option Metadata)
  | ConfigBlockResponse (block : bytes)
  | ClusterStatusResponse (r : GetClusterStatusResponse)
  | DBStatusResponse (exist : bool)
  | DBIndexResponse (index : bytes)
  | TxReceiptResponse (receipt : option TxReceipt)
  | DataResponse (r : GetDataResponse)
  | DataRangeResponse (r : GetDataRangeResponse)
  | DataQueryResponse (kvs : list KVWithMetadata)
  | BlockResponse (header : BlockHeader)
  | AugmentedBlockHeaderResponse (header : AugmentedBlockHeader)
  | TxProofResponse (hashes : list bytes)
  | DataProofResponse (path : list (list bytes))
  | LedgerPathResponse (headers : list BlockHeader)
  | HistoricalDataResponse (values : list ValueWithMetadata)
  | DataProvenanceResponse (kvs : gmap string (list KVWithMetadata))
  | DataReadersResponse (readBy : gmap string Z)
  | DataWritersResponse (writtenBy : gmap string Z)
  | TxIDsSubmittedByResponse (txIDs : list string).

(** A response with the identifier of the node in its header, and the signature. *)
Record Envelope := mkEnvelope { Env_NodeID : string; Env_Response : Response; Env_Signature : bytes }.

(** The JSON of a response with its header, and the key of the node. *)
Class Signer := {
  marshalResponse : string → Response → res bytes;
  Sign : bytes → res bytes;
}.

(** [TxProcessor] *)
Class TxProcessor (P : Type) := {
  ProcSubmit : Tx → Z → prog P (option TxReceipt);
  ProcClusterStatus : P → string * list string;
  ProcIsLeader : P → option goerr;
}.

Module Backend.
Section DB.
Context `{!WorldState D, !Codec User, !Codec NodeConfig, !Codec ValueWithMetadata} {x509 : X509}.
Context {SN : Type} `{!DBsSnapshot SN, !Snapshotter D SN} {mr : MapRange}.
Context `{!Codec Block, !Codec BlockHeader, !Codec BlockHeaderBase, !Codec BlockLocation,
          !Codec TxInfo, !Codec BlockTxIDs} {sn : Snappy} {pv : ProtoVarint}.
Context `{!TxMarshal DataTxEnvelope, !TxMarshal UserAdministrationTxEnvelope,
          !TxMarshal DBAdministrationTxEnvelope, !TxMarshal ConfigTxEnvelope, !TxMarshal ValidationInfo}.
Context {St : Type} `{!TrieStore St} {G : Type} `{!Graph G} {P : Type} `{!TxProcessor P} {signer : Signer}.

Record db := mkDB {
  nodeID : string;
  worldstate : D;
  blockStore : Store;
  stateTrieStore : St;
  provenanceStore : option G;
  txProcessor : P;
  queryResponseSizeLimit : Z;
}.

(** Calls on one of the parts. *)
Definition onState {A} (f : D → res A) : prog db A := fun d => (d, f (worldstate d)).
Definition onBlocks {A} (m : prog Store A) : prog db A := fun d =>
  let '(s, x) := m (blockStore d) in
  (mkDB (nodeID d) (worldstate d) s (stateTrieStore d) (provenanceStore d) (txProcessor d) (queryResponseSizeLimit d), x).
Definition onTrie {A} (m : prog St A) : prog db A := fun d =>
  let '(s, x) := m (stateTrieStore d) in
  (mkDB (nodeID d) (worldstate d) (blockStore d) s (provenanceStore d) (txProcessor d) (queryResponseSizeLimit d), x).
Definition onProcessor {A} (m : prog P A) : prog db A := fun d =>
  let '(p, x) := m (txProcessor d) in
  (mkDB (nodeID d) (worldstate d) (blockStore d) (stateTrieStore d) (provenanceStore d) p (queryResponseSizeLimit d), x).

Definition responseHeader (d : db) : string := nodeID d.

Definition signature (d : db) (response : Response) : res bytes :=
  responseBytes ← marshalResponse (responseHeader d) response; Sign responseBytes.

(** The response with its header and its signature. *)
Definition respond {A} (f : A → Response) (m : prog db A) : prog db Envelope :=
  x ← m;
  d ← gets id;
  sign ← lift (signature d (f x));
  mret (mkEnvelope (responseHeader d) (f x) sign).

Definition LedgerHeight : prog db Z := d ← gets id; lift (BlockStore.Height (blockStore d)).

Definition Height : prog db Z := onState WorldState.Height.

Definition IsLeader (d : db) : option goerr := ProcIsLeader (txProcessor d).

Definition DoesUserExist (userID : string) : prog db bool := onState (fun w => Identity.DoesUserExist w userID).

Definition GetCertificate (userID : string) : prog db Certificate := onState (fun w => Identity.GetCertificate w userID).

Definition IsDBExists (d : db) (name : string) : bool := isDBExists (worldstate d) name.

Definition GetUser (querierUserID targetUserID : string) : prog db Envelope :=
  respond UserResponse (onState (fun w => getUser w querierUserID targetUserID)).

Definition GetNodeConfig (nodeID : string) : prog db Envelope :=
  respond NodeConfigResponse (onState (fun w => getNodeConfig w nodeID)).

Definition GetConfig (querierUserID : string) : prog db Envelope :=
  respond (fun '(config, metadata) => ConfigResponse config metadata) (onState (fun w => getConfig w querierUserID)).

Definition GetConfigBlock (querierUserID : string) (blockNumber : Z) : prog db Envelope :=
  respond ConfigBlockResponse (d ← gets id; onBlocks (getConfigBlock (worldstate d) querierUserID blockNumber)).

(** A node of the configuration with an identifier; a nil one panics. *)
Fixpoint hasNode (nodes : list (option NodeConfig)) (id : string) : res bool :=
  match nodes with
  | [] => Ok false
  | n :: nodes => n ← deref n; if bool_decide (id = Node_Id n) then Ok true else hasNode nodes id
  end.

Fixpoint activeNodes (nodes : list (option NodeConfig)) (active : list string) : res (list string) :=
  match active with
  | [] => Ok []
  | id :: active => b ← hasNode nodes id; rest ← activeNodes nodes active; Ok (if b : bool then id :: rest else rest)
  end.

Definition withoutCertificates (nodes : list (option NodeConfig)) : res (list (option NodeConfig)) :=
  res_mapM (fun n => n ← deref n; Ok (Some (mkNodeConfig (Node_Id n) (Node_Address n) (Node_Port n) []))) nodes.

Definition GetClusterStatus (noCerts : bool) : prog db Envelope :=
  respond ClusterStatusResponse (
    '(nodes, metadata) ← onState getNodeConfigAndMetadata;
    '(leader, active) ← gets (fun d => ProcClusterStatus (txProcessor d));
    active ← lift (activeNodes nodes active);
    isNode ← lift (hasNode nodes leader);
    nodes ← lift (if noCerts then withoutCertificates nodes else Ok nodes);
    mret (mkGetClusterStatusResponse nodes (GetVersion_of metadata) (if isNode : bool then leader else "") active)).

Definition GetDBStatus (dbName : string) : prog db Envelope :=
  respond DBStatusResponse (onState (fun w => getDBStatus w dbName)).

Definition GetDBIndex (dbName querierUserID : string) : prog db Envelope :=
  respond DBIndexResponse (onState (fun w => getDBIndex w dbName querierUserID)).

Definition SubmitTransaction (tx : Tx) (timeout : Z) : prog db Envelope :=
  respond TxReceiptResponse (onProcessor (ProcSubmit tx timeout)).

Definition GetData (dbName querierUserID key : string) : prog db Envelope :=
  respond DataResponse (onState (fun w => getData w dbName querierUserID key)).

Definition GetDataRange (dbName querierUserID startKey endKey : string) (limit : Z) : prog db Envelope :=
  respond DataRangeResponse
    (d ← gets id; onState (fun w => getDataRange w (queryResponseSizeLimit d) dbName querierUserID startKey endKey limit)).

(** [done]: the context of the request was cancelled meanwhile; the answer is then nil. *)
Definition DataQuery (done : bool) (dbName querierUserID : string) (query : bytes) : prog db (option Envelope) :=
  if done then mret None
  else e ← respond DataQueryResponse (onState (fun w => executeJSONQuery (SN := SN) w dbName querierUserID query)); mret (Some e).

Definition GetBlockHeader (userID : string) (blockNum : Z) : prog db Envelope :=
  respond BlockResponse (d ← gets id; lift (getBlockHeader (worldstate d) (blockStore d) userID blockNum)).

Definition GetAugmentedBlockHeader (userID : string) (blockNum : Z) : prog db Envelope :=
  respond AugmentedBlockHeaderResponse (d ← gets id; lift (getAugmentedBlockHeader (worldstate d) (blockStore d) userID blockNum)).

Definition GetTxProof (userID : string) (blockNum txIdx : Z) : prog db Envelope :=
  respond TxProofResponse (d ← gets id; onBlocks (getTxProof (worldstate d) userID blockNum txIdx)).

Definition GetDataProof (userID : string) (blockNum : Z) (dbname key : string) (deleted : bool) : prog db Envelope :=
  respond DataProofResponse
    (d ← gets id; onTrie (getDataProof (worldstate d) (blockStore d) userID blockNum dbname key deleted)).

(** The search for the path always ends. *)
Definition GetLedgerPath (userID : string) (start end_ : Z) : prog db Envelope :=
  respond LedgerPathResponse
    (d ← gets id;
     lift (match getLedgerPath (worldstate d) (blockStore d) userID start end_ with
           | Some r => r
           | None => Panic "the search does not end"
           end)).

Definition GetTxReceipt (userId txID : string) : prog db Envelope :=
  respond (fun r => TxReceiptResponse (Some r)) (d ← gets id; lift (getTxReceipt (worldstate d) (blockStore d) userId txID)).

(** The provenance queries. *)
Definition onProvenance {A} (f : D → option G → res A) : prog db A := d ← gets id; lift (f (worldstate d) (provenanceStore d)).

Definition GetValues (userID dbName key : string) : prog db Envelope :=
  respond HistoricalDataResponse (onProvenance (fun w g => ProvenanceQuery.GetValues w g userID dbName key)).
Definition GetDeletedValues (userID dbName key : string) : prog db Envelope :=
  respond HistoricalDataResponse (onProvenance (fun w g => ProvenanceQuery.GetDeletedValues w g userID dbName key)).
Definition GetValueAt (userID dbName key : string) (version : option Version) : prog db Envelope :=
  respond HistoricalDataResponse (onProvenance (fun w g => ProvenanceQuery.GetValueAt w g userID dbName key version)).
Definition GetMostRecentValueAtOrBelow (userID dbName key : string) (version : option Version) : prog db Envelope :=
  respond HistoricalDataResponse (onProvenance (fun w g => ProvenanceQuery.GetMostRecentValueAtOrBelow w g userID dbName key version)).
Definition GetPreviousValues (userID dbName key : string) (version : option Version) : prog db Envelope :=
  respond HistoricalDataResponse (onProvenance (fun w g => ProvenanceQuery.GetPreviousValues w g userID dbName key version)).
Definition GetNextValues (userID dbName key : string) (version : option Version) : prog db Envelope :=
  respond HistoricalDataResponse (onProvenance (fun w g => ProvenanceQuery.GetNextValues w g userID dbName key version)).
Definition GetValuesReadByUser (querierUserID targetUserID : string) : prog db Envelope :=
  respond DataProvenanceResponse (onProvenance (fun w g => ProvenanceQuery.GetValuesReadByUser w g querierUserID targetUserID)).
Definition GetValuesWrittenByUser (querierUserID targetUserID : string) : prog db Envelope :=
  respond DataProvenanceResponse (onProvenance (fun w g => ProvenanceQuery.GetValuesWrittenByUser w g querierUserID targetUserID)).
Definition GetValuesDeletedByUser (querierUserID targetUserID : string) : prog db Envelope :=
  respond DataProvenanceResponse (onProvenance (fun w g => ProvenanceQuery.GetValuesDeletedByUser w g querierUserID targetUserID)).
Definition GetReaders (userID dbName key : string) : prog db Envelope :=
  respond DataReadersResponse (onProvenance (fun w g => ProvenanceQuery.GetReaders w g userID dbName key)).
Definition GetWriters (userID dbName key : string) : prog db Envelope :=
  respond DataWritersResponse (onProvenance (fun w g => ProvenanceQuery.GetWriters w g userID dbName key)).
Definition GetTxIDsSubmittedByUser (querierUserID targetUserID : string) : prog db Envelope :=
  respond TxIDsSubmittedByResponse (onProvenance (fun w g => ProvenanceQuery.GetTxIDsSubmittedByUser w g querierUserID targetUserID)).

End DB.
End Backend.
