(* ===== verification/Frontend.v ===== *)
(** * The HTTP handlers

    [internal/httphandler]: a query is built from the request, its signature is verified
    and the database is asked; a transaction is decoded, its signatures are verified and it
    is submitted.  The router, the JSON forms of messages and the context of a request
    belong to libraries and are parameters or fields of the request. *)

From S2P Require Import Prelude Types WorldState Identity Validation ConfigTxValidator JSON JSONPrint HttpUtils ProvenanceJSON Pipeline Backend.
Open Scope Z_scope.

(** ** Queries *)

Record GetDataQuery := mkGetDataQuery { GDQ_UserId : string; GDQ_DbName : string; GDQ_Key : string }.
Record GetDataRangeQuery := mkGetDataRangeQuery {
  GDR_UserId : string; GDR_DbName : string; GDR_StartKey : string; GDR_EndKey : string; GDR_Limit : Z }.
Record GetUserQuery := mkGetUserQuery { GUQ_UserId : string; GUQ_TargetUserId : string }.
Record GetDBStatusQuery := mkGetDBStatusQuery { GDS_UserId : string; GDS_DbName : string }.
Record GetDBIndexQuery := mkGetDBIndexQuery { GDI_UserId : string; GDI_DbName : string }.
Record GetConfigQuery := mkGetConfigQuery { GCQ_UserId : string }.
Record GetNodeConfigQuery := mkGetNodeConfigQuery { GNC_UserId : string; GNC_NodeId : string }.
Record GetConfigBlockQuery := mkGetConfigBlockQuery { GCB_UserId : string; GCB_BlockNumber : Z }.
Record GetClusterStatusQuery := mkGetClusterStatusQuery { GCSQ_UserId : string; GCSQ_NoCertificates : bool }.
Record GetBlockQuery := mkGetBlockQuery { GBQ_UserId : string; GBQ_BlockNumber : Z; GBQ_Augmented : bool }.
Record GetLastBlockQuery := mkGetLastBlockQuery { GLB_UserId : string }.
Record GetLedgerPathQuery := mkGetLedgerPathQuery { GLP_UserId : string; GLP_StartBlockNumber : Z; GLP_EndBlockNumber : Z }.
Record GetTxProofQuery := mkGetTxProofQuery { GTP_UserId : string; GTP_BlockNumber : Z; GTP_TxIndex : Z }.
Record GetDataProofQuery := mkGetDataProofQuery {
  GDP_UserId : string; GDP_BlockNumber : Z; GDP_DbName : string; GDP_Key : string; GDP_IsDeleted : bool }.
Record GetTxReceiptQuery := mkGetTxReceiptQuery { GTR_UserId : string; GTR_TxId : string }.
Record GetHistoricalDataQuery := mkGetHistoricalDataQuery {
  GHD_UserId : string; GHD_DbName : string; GHD_Key : string; GHD_Version : option Version; GHD_Direction : string;
  GHD_OnlyDeletes : bool; GHD_MostRecent : bool }.
Record GetDataReadersQuery := mkGetDataReadersQuery { GRQ_UserId : string; GRQ_DbName : string; GRQ_Key : string }.
Record GetDataWritersQuery := mkGetDataWritersQuery { GWQ_UserId : string; GWQ_DbName : string; GWQ_Key : string }.
Record GetDataReadByQuery := mkGetDataReadByQuery { GRB_UserId : string; GRB_TargetUserId : string }.
Record GetDataWrittenByQuery := mkGetDataWrittenByQuery { GWB_UserId : string; GWB_TargetUserId : string }.
Record GetDataDeletedByQuery := mkGetDataDeletedByQuery { GDB_UserId : string; GDB_TargetUserId : string }.
Record GetTxIDsSubmittedByQuery := mkGetTxIDsSubmittedByQuery { GTS_UserId : string; GTS_TargetUserId : string }.
(** [GMR_Node]: the type of the query is a node, not a user. *)
Record GetMostRecentUserOrNodeQuery := mkGetMostRecentUserOrNodeQuery {
  GMR_Node : bool; GMR_UserId : string; GMR_Id : string; GMR_Version : option Version }.
Record DataJSONQuery := mkDataJSONQuery { DJQ_UserId : string; DJQ_DbName : string; DJQ_Query : string }.

Inductive Query :=
  | QData (q : GetDataQuery) | QDataRange (q : GetDataRangeQuery) | QUser (q : GetUserQuery)
  | QDBStatus (q : GetDBStatusQuery) | QDBIndex (q : GetDBIndexQuery) | QConfig (q : GetConfigQuery)
  | QNodeConfig (q : GetNodeConfigQuery) | QConfigBlock (q : GetConfigBlockQuery) | QClusterStatus (q : GetClusterStatusQuery)
  | QBlock (q : GetBlockQuery) | QLastBlock (q : GetLastBlockQuery) | QLedgerPath (q : GetLedgerPathQuery)
  | QTxProof (q : GetTxProofQuery) | QDataProof (q : GetDataProofQuery) | QTxReceipt (q : GetTxReceiptQuery)
  | QHistoricalData (q : GetHistoricalDataQuery) | QDataReaders (q : GetDataReadersQuery) | QDataWriters (q : GetDataWritersQuery)
  | QDataReadBy (q : GetDataReadByQuery) | QDataWrittenBy (q : GetDataWrittenByQuery) | QDataDeletedBy (q : GetDataDeletedByQuery)
  | QTxIDsSubmittedBy (q : GetTxIDsSubmittedByQuery) | QMostRecentUserOrNode (q : GetMostRecentUserOrNodeQuery)
  | QDataJSON (q : DataJSONQuery).

Definition query_user (q : Query) : string :=
  match q with
  | QData q => GDQ_UserId q | QDataRange q => GDR_UserId q | QUser q => GUQ_UserId q
  | QDBStatus q => GDS_UserId q | QDBIndex q => GDI_UserId q | QConfig q => GCQ_UserId q
  | QNodeConfig q => GNC_UserId q | QConfigBlock q => GCB_UserId q | QClusterStatus q => GCSQ_UserId q
  | QBlock q => GBQ_UserId q | QLastBlock q => GLB_UserId q | QLedgerPath q => GLP_UserId q
  | QTxProof q => GTP_UserId q | QDataProof q => GDP_UserId q | QTxReceipt q => GTR_UserId q
  | QHistoricalData q => GHD_UserId q | QDataReaders q => GRQ_UserId q | QDataWriters q => GWQ_UserId q
  | QDataReadBy q => GRB_UserId q | QDataWrittenBy q => GWB_UserId q | QDataDeletedBy q => GDB_UserId q
  | QTxIDsSubmittedBy q => GTS_UserId q | QMostRecentUserOrNode q => GMR_UserId q
  | QDataJSON q => DJQ_UserId q
  end.

(** The kinds of queries; each has a path of its own. *)
Inductive query_type :=
  | GetData | GetDataRange | GetUser | GetDBStatus | GetDBIndex | GetConfig | GetNodeConfig | GetLastConfigBlock
  | GetClusterStatus | GetBlockHeader | GetLastBlockHeader | GetPath | GetTxProof | GetDataProof | GetTxReceipt
  | GetHistoricalData | GetDataReaders | GetDataWriters | GetDataReadBy | GetDataWrittenBy | GetDataDeletedBy
  | GetTxIDsSubmittedBy | GetMostRecentUserOrNode | PostDataQuery.

(** ** Requests and answers *)

Definition UserHeader : string := "UserID".
Definition SignatureHeader : string := "Signature".
Definition TimeoutHeader : string := "TxTimeout".

(** How the context of a request ended, if it did, by the time the query is answered. *)
Inductive context := Open | DeadlineExceeded | Canceled.

(** [Body]: what is read from the body until its end, or until an error. *)
Record Request := mkRequest {
  Method : string;
  URL : string;
  Headers : gmap string string;
  Req_Vars : Vars;
  Body : option (bytes * option goerr);
  Context : context;
}.

(** [Header.Get] *)
Definition header (r : Request) (name : string) : string := default "" (Headers r !! name).
Definition var (r : Request) (name : string) : string := default "" (Req_Vars r !! name).

(** A message, the JSON of an error value, an answer of the database or a redirection. *)
Inductive content :=
  | ErrMsg (msg : string)
  | ErrValue (e : goerr)
  | Answer (e : option Envelope)
  | LeaderAt (hostPort : string).

(** What a handler writes, in order: the client sees the first status. *)
Record Sent := mkSent { Code : Z; Content : content }.

(** [bcdb.DB], as the handlers use it. *)
Class DB (B : Type) {x509 : X509} := {
  db_Height : prog B Z;
  db_GetCertificate : string → prog B Certificate;
  db_IsDBExists : B → string → bool;
  db_GetUser : string → string → prog B Envelope;
  db_GetConfig : string → prog B Envelope;
  db_GetConfigBlock : string → Z → prog B Envelope;
  db_GetClusterStatus : bool → prog B Envelope;
  db_GetNodeConfig : string → prog B Envelope;
  db_GetDBStatus : string → prog B Envelope;
  db_GetDBIndex : string → string → prog B Envelope;
  db_GetData : string → string → string → prog B Envelope;
  db_GetDataRange : string → string → string → string → Z → prog B Envelope;
  db_DataQuery : bool → string → string → bytes → prog B (option Envelope);
  db_GetBlockHeader : string → Z → prog B Envelope;
  db_GetAugmentedBlockHeader : string → Z → prog B Envelope;
  db_GetTxProof : string → Z → Z → prog B Envelope;
  db_GetDataProof : string → Z → string → string → bool → prog B Envelope;
  db_GetLedgerPath : string → Z → Z → prog B Envelope;
  db_GetTxReceipt : string → string → prog B Envelope;
  db_GetValues : string → string → string → prog B Envelope;
  db_GetDeletedValues : string → string → string → prog B Envelope;
  db_GetValueAt : string → string → string → option Version → prog B Envelope;
  db_GetMostRecentValueAtOrBelow : string → string → string → option Version → prog B Envelope;
  db_GetPreviousValues : string → string → string → option Version → prog B Envelope;
  db_GetNextValues : string → string → string → option Version → prog B Envelope;
  db_GetValuesReadByUser : string → string → prog B Envelope;
  db_GetValuesWrittenByUser : string → string → prog B Envelope;
  db_GetValuesDeletedByUser : string → string → prog B Envelope;
  db_GetReaders : string → string → string → prog B Envelope;
  db_GetWriters : string → string → string → prog B Envelope;
  db_GetTxIDsSubmittedByUser : string → string → prog B Envelope;
  db_SubmitTransaction : Tx → Z → prog B Envelope;
}.

(** The JSON of a query, as it is signed, and what is used of [strconv] and [net/url]. *)
Class QueryFormat := {
  marshalQuery : Query → res bytes;
  Unquote : bytes → res string;
  Quote : string → string;
  ParseRequestURI : string → res unit;
}.

(** [protojson.Unmarshal] into an envelope: [None] when it has no payload. *)
Class TxDecode (A : Type) := decodeTx : bytes → res (option A).

(** [strconv.ParseBool] *)
Definition ParseBool (s : string) : res bool :=
  if bool_decide (s ∈ ["1"; "t"; "T"; "true"; "TRUE"; "True"]) then Ok true
  else if bool_decide (s ∈ ["0"; "f"; "F"; "false"; "FALSE"; "False"]) then Ok false
  else Err (PlainErr "invalid syntax").

(** [s[1 : len(s)-1]] *)
Definition withoutQuotes (s : string) : res string :=
  if (String.length s <? 2)%nat then Panic "slice bounds out of range" else Ok (String.substring 1 (String.length s - 2) s).

Definition validateAndParseHeader (r : Request) : res (string * bytes) :=
  let userID := header r UserHeader in
  if bool_decide (userID = "") then Err (PlainErr (UserHeader +:+ " is not set in the http request header")) else
  let signature := header r SignatureHeader in
  if bool_decide (signature = "") then Err (PlainErr (SignatureHeader +:+ " is not set in the http request header")) else
  match base64_decode signature with
  | Some signatureBytes => Ok (userID, signatureBytes)
  | None => Err (PlainErr (SignatureHeader +:+ " is not encoded correctly"))
  end.

Section Handlers.
Context {x509 : X509} {B : Type} `{!DB B} {nt : NetTime} {qf : QueryFormat}.
Context `{!TxMarshal DataTx, !TxMarshal UserAdministrationTx, !TxMarshal DBAdministrationTx, !TxMarshal ConfigTx}.
Context `{!TxDecode DataTxEnvelope, !TxDecode UserAdministrationTxEnvelope, !TxDecode DBAdministrationTxEnvelope, !TxDecode ConfigTxEnvelope}.

(** A bad request, from an error. *)
Definition bad_request {A} (m : res A) (f : A → res (Sent + Query)) : res (Sent + Query) :=
  match m with
  | Ok x => f x
  | Err e => Ok (inl (mkSent StatusBadRequest (ErrValue e)))
  | Panic w => Panic w
  end.

(** The payload of a query; the query of a JSON query is in the body.  The message of
    [strconv.ParseUint] is left out. *)
Definition queryPayload (querierUserID : string) (queryType : query_type) (r : Request) : res (Sent + Query) :=
  let params := Req_Vars r in
  let ok q := Ok (inr q) in
  match queryType with
  | GetData => ok (QData (mkGetDataQuery querierUserID (var r "dbname") (var r "key")))
  | GetDataRange =>
    match ParseUint64 (var r "limit") with
    | None => Ok (inl (mkSent StatusBadRequest (ErrMsg "strconv.ParseUint")))
    | Some limit =>
      startKey ← withoutQuotes (var r "startkey");
      endKey ← withoutQuotes (var r "endkey");
      ok (QDataRange (mkGetDataRangeQuery querierUserID (var r "dbname") startKey endKey limit))
    end
  | GetUser => ok (QUser (mkGetUserQuery querierUserID (var r "userid")))
  | GetDBStatus => ok (QDBStatus (mkGetDBStatusQuery querierUserID (var r "dbname")))
  | GetDBIndex => ok (QDBIndex (mkGetDBIndexQuery querierUserID (var r "dbname")))
  | GetConfig => ok (QConfig (mkGetConfigQuery querierUserID))
  | GetNodeConfig => ok (QNodeConfig (mkGetNodeConfigQuery querierUserID (var r "nodeId")))
  | GetLastConfigBlock => ok (QConfigBlock (mkGetConfigBlockQuery querierUserID 0))
  | GetClusterStatus =>
    bad_request (match params !! "noCertificates" with Some v => ParseBool v | None => Ok false end) (fun noCertificates =>
      ok (QClusterStatus (mkGetClusterStatusQuery querierUserID noCertificates)))
  | GetBlockHeader =>
    bad_request (GetBlockNum params) (fun blockNum =>
      bad_request (match params !! "isAugmented" with Some v => ParseBool v | None => Ok false end) (fun augmented =>
        ok (QBlock (mkGetBlockQuery querierUserID blockNum augmented))))
  | GetLastBlockHeader => ok (QLastBlock (mkGetLastBlockQuery querierUserID))
  | GetPath =>
    bad_request (GetStartAndEndBlockNum params) (fun '(startBlockNum, endBlockNum) =>
      ok (QLedgerPath (mkGetLedgerPathQuery querierUserID startBlockNum endBlockNum)))
  | GetTxProof =>
    bad_request (GetBlockNumAndTxIndex params) (fun '(blockNum, txIndex) =>
      ok (QTxProof (mkGetTxProofQuery querierUserID blockNum txIndex)))
  | GetDataProof =>
    bad_request (GetBlockNum params) (fun blockNum =>
      bad_request (match params !! "deleted" with Some v => ParseBool v | None => Ok false end) (fun deleted =>
        ok (QDataProof (mkGetDataProofQuery querierUserID blockNum (var r "dbname") (var r "key") deleted))))
  | GetTxReceipt => ok (QTxReceipt (mkGetTxReceiptQuery querierUserID (var r "txId")))
  | GetHistoricalData =>
    bad_request (GetVersion params) (fun version =>
      match params !! "onlydeletes" with
      | Some v =>
        if bool_decide (v ≠ "true") then
          Ok (inl (mkSent StatusBadRequest (ErrMsg "the onlydeletes parameters must be set only to 'true'")))
        else
          ok (QHistoricalData (mkGetHistoricalDataQuery querierUserID (var r "dbname") (var r "key") version (var r "direction")
                true (bool_decide (is_Some (params !! "mostrecent")))))
      | None =>
        ok (QHistoricalData (mkGetHistoricalDataQuery querierUserID (var r "dbname") (var r "key") version (var r "direction")
              false (bool_decide (is_Some (params !! "mostrecent")))))
      end)
  | GetDataReaders => ok (QDataReaders (mkGetDataReadersQuery querierUserID (var r "dbname") (var r "key")))
  | GetDataWriters => ok (QDataWriters (mkGetDataWritersQuery querierUserID (var r "dbname") (var r "key")))
  | GetDataReadBy => ok (QDataReadBy (mkGetDataReadByQuery querierUserID (var r "userId")))
  | GetDataWrittenBy => ok (QDataWrittenBy (mkGetDataWrittenByQuery querierUserID (var r "userId")))
  | GetDataDeletedBy => ok (QDataDeletedBy (mkGetDataDeletedByQuery querierUserID (var r "userId")))
  | GetTxIDsSubmittedBy => ok (QTxIDsSubmittedBy (mkGetTxIDsSubmittedByQuery querierUserID (var r "userId")))
  | GetMostRecentUserOrNode =>
    bad_request (GetVersion params) (fun version =>
      ok (QMostRecentUserOrNode (mkGetMostRecentUserOrNodeQuery (bool_decide (var r "type" = "node")) querierUserID (var r "id") version)))
  | PostDataQuery =>
    match Body r with
    | None => Ok (inl (mkSent StatusBadRequest (ErrMsg "query is empty")))
    | Some (_, Some err) => Ok (inl (mkSent StatusBadRequest (ErrValue err)))
    | Some (b, None) =>
      bad_request (Unquote b) (fun q => ok (QDataJSON (mkDataJSONQuery querierUserID (var r "dbname") q)))
    end
  end.

(** [SignatureVerifier.Verify] on the database *)
Definition verify (userID : string) (signature body : bytes) : prog B unit :=
  cert ← db_GetCertificate userID; lift (CheckSignature cert body signature).

(** [VerifyRequestSignature], on the JSON of a query or of the payload of a transaction. *)
Definition VerifyRequestSignature (user : string) (signature : bytes) (requestPayload : res bytes) : prog B (option (string * Z)) := fun b =>
  match requestPayload with
  | Err e => (b, Ok (Some ("failure during Marshal: " +:+ Error e, StatusInternalServerError)))
  | Panic w => (b, Panic w)
  | Ok requestBytes =>
    match verify user signature requestBytes b with
    | (b, Ok _) => (b, Ok None)
    | (b, Err _) => (b, Ok (Some ("signature verification failed", StatusUnauthorized)))
    | (b, Panic w) => (b, Panic w)
    end
  end.

Definition extractVerifiedQueryPayload (r : Request) (queryType : query_type) : prog B (Sent + Query) := fun b =>
  match validateAndParseHeader r with
  | Err e => (b, Ok (inl (mkSent StatusBadRequest (ErrMsg (Error e)))))
  | Panic w => (b, Panic w)
  | Ok (querierUserID, signature) =>
    match queryPayload querierUserID queryType r with
    | Ok (inr payload) =>
      (failed ← VerifyRequestSignature querierUserID signature (marshalQuery payload);
       mret (match failed with Some (msg, status) => inl (mkSent status (ErrMsg msg)) | None => inr payload end)) b
    | Ok (inl sent) => (b, Ok (inl sent))
    | Err e => (b, Err e)
    | Panic w => (b, Panic w)
    end
  end.

(** A handler begins with the verified query. *)
Definition withQuery (queryType : query_type) (r : Request) (f : Query → prog B (list Sent)) : prog B (list Sent) :=
  payload ← extractVerifiedQueryPayload r queryType;
  match payload with
  | inl sent => mret [sent]
  | inr query => f query
  end.

Definition processing (r : Request) (err : goerr) : content :=
  ErrMsg ("error while processing '" +:+ Method r +:+ " " +:+ URL r +:+ "' because " +:+ Error err).

(** The answer of the database, or its error with a status. *)
Definition answer (r : Request) (status : goerr → Z) (m : prog B Envelope) : prog B (list Sent) := fun b =>
  match m b with
  | (b, Ok e) => (b, Ok [mkSent StatusOK (Answer (Some e))])
  | (b, Err err) => (b, Ok [mkSent (status err) (processing r err)])
  | (b, Panic w) => (b, Panic w)
  end.

(** The statuses of errors: each handler knows some of the types. *)
Definition permissionStatus (err : goerr) : Z :=
  match err with PermissionErr _ => StatusForbidden | _ => StatusInternalServerError end.
Definition internalStatus (err : goerr) : Z := StatusInternalServerError.
Definition notFoundStatus (err : goerr) : Z :=
  match err with
  | PermissionErr _ => StatusForbidden
  | NotFoundErr _ => StatusNotFound
  | _ => StatusInternalServerError
  end.
Definition badRequestStatus (err : goerr) : Z :=
  match err with BadRequestErr _ => StatusBadRequest | _ => notFoundStatus err end.
Definition restrictedStatus (err : goerr) : Z :=
  match err with ServerRestrictionErr _ => StatusServiceUnavailable | _ => notFoundStatus err end.

(** ** Queries on data, users and databases *)

Definition dataQuery (r : Request) : prog B (list Sent) :=
  withQuery GetData r (fun q => match q with
    | QData query => fun b =>
      if negb (db_IsDBExists b (GDQ_DbName query)) then
        (b, Ok [mkSent StatusBadRequest (ErrMsg ("error db '" +:+ GDQ_DbName query +:+ "' doesn't exist"))])
      else answer r permissionStatus (db_GetData (GDQ_DbName query) (GDQ_UserId query) (GDQ_Key query)) b
    | _ => lift (Panic "interface conversion")
    end).

Definition dataRangeQuery (r : Request) : prog B (list Sent) :=
  withQuery GetDataRange r (fun q => match q with
    | QDataRange query => fun b =>
      if negb (db_IsDBExists b (GDR_DbName query)) then
        (b, Ok [mkSent StatusBadRequest (ErrMsg ("error db '" +:+ GDR_DbName query +:+ "' doesn't exist"))])
      else answer r permissionStatus
             (db_GetDataRange (GDR_DbName query) (GDR_UserId query) (GDR_StartKey query) (GDR_EndKey query) (GDR_Limit query)) b
    | _ => lift (Panic "interface conversion")
    end).

Definition dataJSONQuery (r : Request) : prog B (list Sent) :=
  withQuery PostDataQuery r (fun q => match q with
    | QDataJSON query => fun b =>
      if negb (db_IsDBExists b (DJQ_DbName query)) then
        (b, Ok [mkSent StatusBadRequest (ErrMsg ("'" +:+ DJQ_DbName query +:+ "' does not exist"))])
      else
        match db_DataQuery (match Context r with Open => false | _ => true end) (DJQ_DbName query) (DJQ_UserId query)
                (bytes_of_string (DJQ_Query query)) b with
        | (b, Panic w) => (b, Panic w)
        | (b, data) =>
          match Context r with
          | DeadlineExceeded => (b, Ok [mkSent StatusRequestTimeout (Answer None)])
          | Canceled => (b, Ok [])
          | Open =>
            match data with
            | Err err => (b, Ok [mkSent (permissionStatus err) (processing r err)])
            | Ok data => (b, Ok [mkSent StatusOK (Answer data)])
            | Panic w => (b, Panic w)
            end
          end
        end
    | _ => lift (Panic "interface conversion")
    end).

Definition getUser (r : Request) : prog B (list Sent) :=
  withQuery GetUser r (fun q => match q with
    | QUser query => answer r permissionStatus (db_GetUser (GUQ_UserId query) (GUQ_TargetUserId query))
    | _ => lift (Panic "interface conversion")
    end).

Definition dbStatus (r : Request) : prog B (list Sent) :=
  withQuery GetDBStatus r (fun q => match q with
    | QDBStatus query => answer r internalStatus (db_GetDBStatus (GDS_DbName query))
    | _ => lift (Panic "interface conversion")
    end).

Definition dbIndex (r : Request) : prog B (list Sent) :=
  withQuery GetDBIndex r (fun q => match q with
    | QDBIndex query => answer r permissionStatus (db_GetDBIndex (GDI_DbName query) (GDI_UserId query))
    | _ => lift (Panic "interface conversion")
    end).

(** ** Queries on the configuration *)

Definition configQuery (r : Request) : prog B (list Sent) :=
  withQuery GetConfig r (fun q => match q with
    | QConfig query => answer r internalStatus (db_GetConfig (GCQ_UserId query))
    | _ => lift (Panic "interface conversion")
    end).

Definition configBlockQuery (r : Request) : prog B (list Sent) :=
  withQuery GetLastConfigBlock r (fun q => match q with
    | QConfigBlock query => answer r badRequestStatus (db_GetConfigBlock (GCB_UserId query) (GCB_BlockNumber query))
    | _ => lift (Panic "interface conversion")
    end).

Definition clusterStatusQuery (r : Request) : prog B (list Sent) :=
  withQuery GetClusterStatus r (fun q => match q with
    | QClusterStatus query => answer r internalStatus (db_GetClusterStatus (GCSQ_NoCertificates query))
    | _ => lift (Panic "interface conversion")
    end).

Definition nodeQuery (r : Request) : prog B (list Sent) :=
  withQuery GetNodeConfig r (fun q => match q with
    | QNodeConfig query => answer r internalStatus (db_GetNodeConfig (GNC_NodeId query))
    | _ => lift (Panic "interface conversion")
    end).

(** ** Queries on the ledger *)

Definition blockQuery (r : Request) : prog B (list Sent) :=
  withQuery GetBlockHeader r (fun q => match q with
    | QBlock query =>
      answer r notFoundStatus
        (if GBQ_Augmented query then db_GetAugmentedBlockHeader (GBQ_UserId query) (GBQ_BlockNumber query)
         else db_GetBlockHeader (GBQ_UserId query) (GBQ_BlockNumber query))
    | _ => lift (Panic "interface conversion")
    end).

Definition lastBlockQuery (r : Request) : prog B (list Sent) :=
  withQuery GetLastBlockHeader r (fun q => match q with
    | QLastBlock query => answer r notFoundStatus (height ← db_Height; db_GetBlockHeader (GLB_UserId query) height)
    | _ => lift (Panic "interface conversion")
    end).

Definition pathQuery (r : Request) : prog B (list Sent) :=
  withQuery GetPath r (fun q => match q with
    | QLedgerPath query =>
      answer r badRequestStatus (db_GetLedgerPath (GLP_UserId query) (GLP_StartBlockNumber query) (GLP_EndBlockNumber query))
    | _ => lift (Panic "interface conversion")
    end).

Definition txProof (r : Request) : prog B (list Sent) :=
  withQuery GetTxProof r (fun q => match q with
    | QTxProof query => answer r notFoundStatus (db_GetTxProof (GTP_UserId query) (GTP_BlockNumber query) (GTP_TxIndex query))
    | _ => lift (Panic "interface conversion")
    end).

Definition dataProof (r : Request) : prog B (list Sent) :=
  withQuery GetDataProof r (fun q => match q with
    | QDataProof query =>
      answer r restrictedStatus
        (db_GetDataProof (GDP_UserId query) (GDP_BlockNumber query) (GDP_DbName query) (GDP_Key query) (GDP_IsDeleted query))
    | _ => lift (Panic "interface conversion")
    end).

Definition txReceipt (r : Request) : prog B (list Sent) :=
  withQuery GetTxReceipt r (fun q => match q with
    | QTxReceipt query => answer r notFoundStatus (db_GetTxReceipt (GTR_UserId query) (GTR_TxId query))
    | _ => lift (Panic "interface conversion")
    end).

Definition invalidPathQuery : list Sent :=
  [mkSent StatusBadRequest (ErrMsg "query error - bad or missing start/end block number")].
Definition invalidTxProof : list Sent :=
  [mkSent StatusBadRequest (ErrMsg "tx proof query error - bad or missing query parameter")].
Definition invalidDataProof : list Sent :=
  [mkSent StatusBadRequest (ErrMsg "data proof query error - bad or missing query parameter")].

(** ** Provenance queries *)

Definition handleErrorStatus (err : goerr) : Z :=
  match err with
  | ServerRestrictionErr _ => StatusServiceUnavailable
  | PermissionErr _ => StatusForbidden
  | _ => StatusInternalServerError
  end.

(** The last case answers twice: the second answer has a nil response. *)
Definition getHistoricalData (r : Request) : prog B (list Sent) :=
  withQuery GetHistoricalData r (fun q => match q with
    | QHistoricalData query =>
      let answer := answer r handleErrorStatus in
      let userID := GHD_UserId query in
      let dbName := GHD_DbName query in
      let key := GHD_Key query in
      let version := GHD_Version query in
      let direction := GHD_Direction query in
      if GHD_OnlyDeletes query then answer (db_GetDeletedValues userID dbName key)
      else if bool_decide (version = None) then answer (db_GetValues userID dbName key)
      else if bool_decide (direction = "") && GHD_MostRecent query then
        answer (db_GetMostRecentValueAtOrBelow userID dbName key version)
      else if bool_decide (direction = "") then answer (db_GetValueAt userID dbName key version)
      else if bool_decide (direction = "previous") then answer (db_GetPreviousValues userID dbName key version)
      else if bool_decide (direction = "next") then answer (db_GetNextValues userID dbName key version)
      else mret [mkSent StatusBadRequest (ErrMsg "direction must be either [previous] or [next]"); mkSent StatusOK (Answer None)]
    | _ => lift (Panic "interface conversion")
    end).

Definition getDataReaders (r : Request) : prog B (list Sent) :=
  withQuery GetDataReaders r (fun q => match q with
    | QDataReaders query => answer r handleErrorStatus (db_GetReaders (GRQ_UserId query) (GRQ_DbName query) (GRQ_Key query))
    | _ => lift (Panic "interface conversion")
    end).

Definition getDataWriters (r : Request) : prog B (list Sent) :=
  withQuery GetDataWriters r (fun q => match q with
    | QDataWriters query => answer r handleErrorStatus (db_GetWriters (GWQ_UserId query) (GWQ_DbName query) (GWQ_Key query))
    | _ => lift (Panic "interface conversion")
    end).

Definition getDataReadByUser (r : Request) : prog B (list Sent) :=
  withQuery GetDataReadBy r (fun q => match q with
    | QDataReadBy query => answer r handleErrorStatus (db_GetValuesReadByUser (GRB_UserId query) (GRB_TargetUserId query))
    | _ => lift (Panic "interface conversion")
    end).

Definition getDataWrittenByUser (r : Request) : prog B (list Sent) :=
  withQuery GetDataWrittenBy r (fun q => match q with
    | QDataWrittenBy query => answer r handleErrorStatus (db_GetValuesWrittenByUser (GWB_UserId query) (GWB_TargetUserId query))
    | _ => lift (Panic "interface conversion")
    end).

Definition getDataDeletedByUser (r : Request) : prog B (list Sent) :=
  withQuery GetDataDeletedBy r (fun q => match q with
    | QDataDeletedBy query => answer r handleErrorStatus (db_GetValuesDeletedByUser (GDB_UserId query) (GDB_TargetUserId query))
    | _ => lift (Panic "interface conversion")
    end).

Definition getTxIDsSubmittedBy (r : Request) : prog B (list Sent) :=
  withQuery GetTxIDsSubmittedBy r (fun q => match q with
    | QTxIDsSubmittedBy query => answer r handleErrorStatus (db_GetTxIDsSubmittedByUser (GTS_UserId query) (GTS_TargetUserId query))
    | _ => lift (Panic "interface conversion")
    end).

Definition getMostRecentUserOrNode (r : Request) : prog B (list Sent) :=
  withQuery GetMostRecentUserOrNode r (fun q => match q with
    | QMostRecentUserOrNode query =>
      answer r handleErrorStatus
        (db_GetMostRecentValueAtOrBelow (GMR_UserId query) (if GMR_Node query then ConfigDBName else UsersDBName)
           (GMR_Id query) (GMR_Version query))
    | _ => lift (Panic "interface conversion")
    end).

(** ** Transactions *)

Definition validateAndParseTxPostHeader (r : Request) : res Z :=
  let timeoutStr := header r TimeoutHeader in
  if (String.length timeoutStr =? 0)%nat then Ok 0 else
  timeout ← ParseDuration timeoutStr;
  if timeout <? 0 then Err (PlainErr ("timeout can't be negative " +:+ Quote timeoutStr)) else Ok timeout.

Definition SendHTTPRedirectServer (r : Request) (hostPort : string) : res Sent :=
  match ParseRequestURI (URL r) with
  | Ok _ => Ok (mkSent StatusTemporaryRedirect (LeaderAt hostPort))
  | Err err => Ok (mkSent StatusInternalServerError (ErrMsg ("cannot parse request URL: " +:+ Error err)))
  | Panic w => Panic w
  end.

Definition handleTransaction (r : Request) (tx : Tx) (timeout : Z) : prog B Sent := fun b =>
  match db_SubmitTransaction tx timeout b with
  | (b, Ok resp) => (b, Ok (mkSent StatusOK (Answer (Some resp))))
  | (b, Panic w) => (b, Panic w)
  | (b, Err err) =>
    (b, match err with
        | BadRequestErr _ | DuplicateTxIDErr _ => Ok (mkSent StatusBadRequest (ErrMsg (Error err)))
        | TimeoutErr _ => Ok (mkSent StatusAccepted (ErrMsg "Transaction processing timeout"))
        | NotLeaderErr leaderID hostPort =>
          if leaderID =? 0 then Ok (mkSent StatusServiceUnavailable (ErrMsg "Cluster leader unavailable"))
          else SendHTTPRedirectServer r hostPort
        | _ => Ok (mkSent StatusInternalServerError (ErrMsg (Error err)))
        end)
  end.

Definition badTx (msg : string) : prog B Sent := mret (mkSent StatusBadRequest (ErrMsg msg)).

(** What the handlers of user, database and configuration transactions share: [typeName] is
    the type of the payload. *)
Definition signedTransaction {E P} `{!TxDecode E} `{!TxMarshal P} (typeName : string) (payload : E → P) (userID : E → string)
    (signature : E → bytes) (tx : E → Tx) (r : Request) : prog B (list Sent) :=
  sent ← match validateAndParseTxPostHeader r with
  | Err err => badTx (Error err)
  | Panic w => lift (Panic w)
  | Ok timeout =>
    match Body r with
    | None => lift (Panic "nil pointer dereference")
    | Some (_, Some err) => badTx (Error err)
    | Some (requestBytes, None) =>
      match decodeTx requestBytes with
      | Err err => badTx (Error err)
      | Panic w => lift (Panic w)
      | Ok None => badTx ("missing transaction envelope payload (" +:+ typeName +:+ ")")
      | Ok (Some txEnv) =>
        if bool_decide (userID txEnv = "") then badTx ("missing UserID in transaction envelope payload (" +:+ typeName +:+ ")") else
        if bool_decide (signature txEnv = []) then badTx ("missing Signature in transaction envelope payload (" +:+ typeName +:+ ")") else
        failed ← VerifyRequestSignature (userID txEnv) (signature txEnv) (marshalTx (payload txEnv));
        match failed with
        | Some (msg, code) => mret (mkSent code (ErrMsg msg))
        | None => handleTransaction r (tx txEnv) timeout
        end
      end
    end
  end;
  mret [sent].

Definition userTransaction : Request → prog B (list Sent) :=
  signedTransaction "*types.UserAdministrationTx" UEnv_Payload (fun e => UTx_UserId (UEnv_Payload e)) UEnv_Signature TxUserAdministration.

Definition dbTransaction : Request → prog B (list Sent) :=
  signedTransaction "*types.DBAdministrationTx" DBEnv_Payload (fun e => DBTx_UserId (DBEnv_Payload e)) DBEnv_Signature TxDBAdministration.

Definition configTransaction : Request → prog B (list Sent) :=
  signedTransaction "*types.ConfigTx" CEnv_Payload (fun e => CTx_UserId (CEnv_Payload e)) CEnv_Signature TxConfig.

(** The signatures of the users, in the order of the list. *)
Fixpoint verifySignatures (txEnv : DataTxEnvelope) (users : list string) : prog B (option (string * Z)) :=
  match users with
  | [] => mret None
  | userID :: users =>
    failed ← VerifyRequestSignature userID (default [] (Signatures txEnv !! userID)) (marshalTx (DEnv_Payload txEnv));
    match failed with
    | Some e => mret (Some e)
    | None => verifySignatures txEnv users
    end
  end.

Definition dataTransactionOf (r : Request) (timeout : Z) (requestBody : bytes) : prog B Sent :=
  match decodeTx requestBody with
  | Err err => badTx (Error err)
  | Panic w => lift (Panic w)
  | Ok None => badTx "missing transaction envelope payload (*types.DataTx)"
  | Ok (Some txEnv) =>
    let users := MustSignUserIds (DEnv_Payload txEnv) in
    if bool_decide (users = []) then badTx "missing UserID in transaction envelope payload (*types.DataTx)" else
    if bool_decide ("" ∈ users) then badTx "an empty UserID in MustSignUserIDs list present in the transaction envelope" else
    let notSigned := filter (fun user => Signatures txEnv !! user = None) users in
    if bool_decide (notSigned ≠ []) then
      mret (mkSent StatusUnauthorized
              (ErrMsg ("users [" +:+ strings_join (sort_strings notSigned) "," +:+ "] in the must sign list have not signed the transaction")))
    else
    failed ← verifySignatures txEnv users;
    match failed with
    | Some (msg, code) => mret (mkSent code (ErrMsg msg))
    | None => handleTransaction r (TxData txEnv) timeout
    end
  end.

(** An error of the body is answered, and the handler goes on with what was read. *)
Definition dataTransaction (r : Request) : prog B (list Sent) :=
  match validateAndParseTxPostHeader r with
  | Err err => sent ← badTx (Error err); mret [sent]
  | Panic w => lift (Panic w)
  | Ok timeout =>
    match Body r with
    | None => lift (Panic "nil pointer dereference")
    | Some (requestBody, failed) =>
      sent ← dataTransactionOf r timeout requestBody;
      mret (match failed with
            | Some err => [mkSent StatusBadRequest (ErrMsg (Error err)); sent]
            | None => [sent]
            end)
    end
  end.

End Handlers.
