(* ===== verification/FrontendProofs.v ===== *)
(** * What the HTTP handlers guarantee

    A query is answered only if the user of its header signed it, and a transaction is
    submitted only if its users signed it: whatever database is behind the handlers.  Over
    [internal/bcdb/db.go], the answers have the type of the query and the signature of the
    node, and data is read with the rights of the user who signed the query. *)

From stdpp Require Import relations.
From S2P Require Import Prelude Types WorldState LevelDB Snapshot Identity Validation ConfigTxValidator StateIndex QueryExecutor StateQueries.
From S2P Require Import BlockEncoding BlockStore MPTrie Ledger DbEntries JSON JSONPrint HttpUtils ProvenanceJSON Provenance Pipeline Backend Frontend.
Open Scope Z_scope.

(** Asking for a certificate does not change the database. *)
Class DBLaws (B : Type) {x509 : X509} `{!DB B} :=
  db_GetCertificate_pure u (b : B) : (db_GetCertificate u b).1 = b.

Section Authentication.
Context {x509 : X509} {B : Type} `{!DB B, !DBLaws B} {nt : NetTime} {qf : QueryFormat}.
Context `{!TxMarshal DataTx, !TxMarshal UserAdministrationTx, !TxMarshal DBAdministrationTx, !TxMarshal ConfigTx}.
Context `{!TxDecode DataTxEnvelope, !TxDecode UserAdministrationTxEnvelope, !TxDecode DBAdministrationTxEnvelope, !TxDecode ConfigTxEnvelope}.
Implicit Types (b : B) (r : Request).

(** The user signed the body: the certificate in the database verifies it. *)
Definition signed_by (b : B) (user : string) (signature body : bytes) : Prop :=
  ∃ cert, (db_GetCertificate user b).2 = Ok cert ∧ CheckSignature cert body signature = Ok tt.

(** The query that a request asks, signed by the user of the header. *)
Definition signed_query (b : B) (r : Request) (qt : query_type) (q : Query) : Prop :=
  let user := header r UserHeader in
  user ≠ "" ∧ header r SignatureHeader ≠ "" ∧ query_user q = user ∧ queryPayload user qt r = Ok (inr q) ∧
  ∃ signature body,
    base64_decode (header r SignatureHeader) = Some signature ∧ marshalQuery q = Ok body ∧ signed_by b user signature body.

Definition signers (tx : Tx) : list string :=
  match tx with
  | TxData env => MustSignUserIds (DEnv_Payload env)
  | TxUserAdministration env => [UTx_UserId (UEnv_Payload env)]
  | TxDBAdministration env => [DBTx_UserId (DBEnv_Payload env)]
  | TxConfig env => [CTx_UserId (CEnv_Payload env)]
  end.

Definition signature_of (tx : Tx) (user : string) : option bytes :=
  match tx with
  | TxData env => Signatures env !! user
  | TxUserAdministration env => Some (UEnv_Signature env)
  | TxDBAdministration env => Some (DBEnv_Signature env)
  | TxConfig env => Some (CEnv_Signature env)
  end.

Definition tx_body (tx : Tx) : res bytes :=
  match tx with
  | TxData env => marshalTx (DEnv_Payload env)
  | TxUserAdministration env => marshalTx (UEnv_Payload env)
  | TxDBAdministration env => marshalTx (DBEnv_Payload env)
  | TxConfig env => marshalTx (CEnv_Payload env)
  end.

(** Every user who must sign a transaction did. *)
Definition signed_tx (b : B) (tx : Tx) : Prop :=
  signers tx ≠ [] ∧
  ∀ u, u ∈ signers tx → u ≠ "" ∧ ∃ signature body, signature_of tx u = Some signature ∧ tx_body tx = Ok body ∧ signed_by b u signature body.

(** The handlers of the queries, by their paths. *)
Definition query_handler (qt : query_type) : Request → prog B (list Sent) :=
  match qt with
  | GetData => dataQuery | GetDataRange => dataRangeQuery | GetUser => getUser | GetDBStatus => dbStatus
  | GetDBIndex => dbIndex | GetConfig => configQuery | GetNodeConfig => nodeQuery | GetLastConfigBlock => configBlockQuery
  | GetClusterStatus => clusterStatusQuery | GetBlockHeader => blockQuery | GetLastBlockHeader => lastBlockQuery
  | GetPath => pathQuery | GetTxProof => txProof | GetDataProof => dataProof | GetTxReceipt => txReceipt
  | GetHistoricalData => getHistoricalData | GetDataReaders => getDataReaders | GetDataWriters => getDataWriters
  | GetDataReadBy => getDataReadByUser | GetDataWrittenBy => getDataWrittenByUser | GetDataDeletedBy => getDataDeletedByUser
  | GetTxIDsSubmittedBy => getTxIDsSubmittedBy | GetMostRecentUserOrNode => getMostRecentUserOrNode
  | PostDataQuery => dataJSONQuery
  end.

Inductive tx_type := PostDataTx | PostUserTx | PostDBTx | PostConfigTx.

Definition tx_handler (tt : tx_type) : Request → prog B (list Sent) :=
  match tt with
  | PostDataTx => dataTransaction
  | PostUserTx => userTransaction
  | PostDBTx => dbTransaction
  | PostConfigTx => configTransaction
  end.

(** An answer that refuses: a client error or a server error, with a message. *)
Definition refusal (s : Sent) : Prop :=
  400 ≤ Code s ∧ match Content s with ErrMsg _ | ErrValue _ => True | _ => False end.

(** ** Signatures *)

Lemma verify_inv user signature body b b' x : verify user signature body b = (b', x) →
  b' = b ∧ (x = Ok tt → signed_by b user signature body).
Proof.
  pose proof (db_GetCertificate_pure user b) as Hp. unfold verify, signed_by, mbind, prog_bind.
  destruct (db_GetCertificate user b) as [b1 [cert|e|w]] eqn:Hc; cbn in *; intros [= <- <-]; subst b1;
    (split; [done|]); [|done..].
  intros Hx. exists cert. done.
Qed.

Lemma VerifyRequestSignature_inv user signature payload b b' x :
  VerifyRequestSignature user signature payload b = (b', x) →
  b' = b ∧ match x with
           | Ok None => ∃ body, payload = Ok body ∧ signed_by b user signature body
           | Ok (Some (_, code)) => 400 ≤ code
           | _ => True
           end.
Proof.
  unfold VerifyRequestSignature. destruct payload as [body|e|w]; [|by intros [= <- <-]..].
  destruct (verify user signature body b) as [b1 y] eqn:Hv. apply verify_inv in Hv as [-> Hs].
  destruct y as [[]|e|w]; intros [= <- <-]; (split; [done|]); [|done..]. exists body. auto.
Qed.

Lemma queryPayload_inv user qt r s : queryPayload user qt r = Ok (inl s) → refusal s.
Proof.
  unfold queryPayload, bad_request, refusal. intros H.
  repeat (case_match; simplify_eq/=; try done; try (unfold mbind, res_bind in *; case_match; simplify_eq/=; try done)).
Qed.

Lemma queryPayload_user user qt r q : queryPayload user qt r = Ok (inr q) → query_user q = user.
Proof.
  unfold queryPayload, bad_request. intros H.
  repeat (case_match; simplify_eq/=; try done; try (unfold mbind, res_bind in *; case_match; simplify_eq/=; try done)).
Qed.

Lemma extract_inv r qt b b' x : extractVerifiedQueryPayload r qt b = (b', Ok x) →
  b' = b ∧ match x with inl s => refusal s | inr q => signed_query b r qt q end.
Proof.
  unfold extractVerifiedQueryPayload, validateAndParseHeader.
  case_bool_decide as Hu; [by intros [= <- <-]|].
  case_bool_decide as Hs; [by intros [= <- <-]|].
  destruct (base64_decode _) as [signature|] eqn:Hb; [|by intros [= <- <-]].
  destruct (queryPayload _ qt r) as [[s|q]|e|w] eqn:Hq; [| |done..].
  - intros [= <- <-]. split; [done|]. by eapply queryPayload_inv.
  - unfold mbind, prog_bind.
    destruct (VerifyRequestSignature _ _ _ b) as [b1 y] eqn:Hv. apply VerifyRequestSignature_inv in Hv as [-> Hv].
    destruct y as [[[msg code]|]|e|w]; [| |done..]; intros [= <- <-]; (split; [done|]).
    + by split.
    + destruct Hv as (body & Hm & Hsig). repeat split; [done|done|by eapply queryPayload_user|done|].
      by exists signature, body.
Qed.

Lemma withQuery_inv qt r f b b' sent : withQuery qt r f b = (b', Ok sent) →
  (b' = b ∧ ∃ s, sent = [s] ∧ refusal s) ∨ (∃ q, signed_query b r qt q ∧ f q b = (b', Ok sent)).
Proof.
  unfold withQuery, mbind at 1, prog_bind.
  destruct (extractVerifiedQueryPayload r qt b) as [b1 [[s|q]|e|w]] eqn:He; [| |done..]; apply extract_inv in He as [-> He].
  - intros [= <- <-]. left. eauto.
  - intros Hf. right. eauto.
Qed.

Lemma query_handler_inv qt r : ∃ f, query_handler qt r = withQuery qt r f.
Proof. destruct qt; eexists; reflexivity. Qed.

(** C10: every query handler either refuses the request without touching the database, or
    the user of the request's header signed the very query that the request asks for, with
    the certificate that the database holds for the user. *)
Theorem queries_authenticated qt r b b' sent : query_handler qt r b = (b', Ok sent) →
  (b' = b ∧ ∃ s, sent = [s] ∧ refusal s) ∨ ∃ q, signed_query b r qt q.
Proof.
  destruct (query_handler_inv qt r) as [f ->]. intros H.
  apply withQuery_inv in H as [?|(q & Hq & _)]; eauto.
Qed.

(** ** Transactions *)

(** The transaction was signed by its users and is what the database got; or nothing was
    submitted and the client is refused. *)
Definition submitted (r : Request) (b b' : B) (s : Sent) : Prop :=
  (∃ tx timeout, signed_tx b tx ∧ validateAndParseTxPostHeader r = Ok timeout ∧ handleTransaction r tx timeout b = (b', Ok s)) ∨
  (b' = b ∧ refusal s).

Lemma signedTransaction_inv {E P} `{!TxDecode E} `{!TxMarshal P} typeName (payload : E → P) userID signature tx r b b' sent :
  (∀ e, signers (tx e) = [userID e] ∧ signature_of (tx e) (userID e) = Some (signature e) ∧ tx_body (tx e) = marshalTx (payload e)) →
  signedTransaction typeName payload userID signature tx r b = (b', Ok sent) → ∃ s, sent = [s] ∧ submitted r b b' s.
Proof.
  intros Htx. unfold signedTransaction. unfold mbind at 1, prog_bind at 1.
  match goal with |- context [let '(_, _) := ?m in _] => destruct m as [b1 x] eqn:Hm end.
  destruct x as [s|e|w]; [|done..]. intros [= <- <-]. exists s. split; [done|]. revert Hm. unfold submitted.
  destruct (validateAndParseTxPostHeader r) as [timeout|e|w]; [|by intros [= <- <-]; right|done].
  destruct (Body r) as [[body [e|]]|]; [by intros [= <- <-]; right| |done].
  destruct (decodeTx body) as [[env|]|e|w]; [|by intros [= <- <-]; right..|done].
  case_bool_decide as Hu; [by intros [= <- <-]; right|].
  case_bool_decide as Hsig; [by intros [= <- <-]; right|].
  unfold mbind, prog_bind. destruct (VerifyRequestSignature _ _ _ b) as [b2 y] eqn:Hv.
  apply VerifyRequestSignature_inv in Hv as [-> Hv]. destruct y as [[[msg code]|]|e|w]; [| |done..].
  - intros [= <- <-]. right. by split.
  - intros Hh. left. exists (tx env), timeout. split; [|done]. destruct (Htx env) as (Hs & Hsg & Hb).
    destruct Hv as (bd & Hm & Hsb). unfold signed_tx. rewrite Hs, Hb. split; [done|].
    intros u ->%list_elem_of_singleton. split; [done|]. exists (signature env), bd. by rewrite Hsg.
Qed.

Lemma verifySignatures_inv env users b b' x : verifySignatures env users b = (b', Ok x) →
  b' = b ∧ match x with
           | Some (_, code) => 400 ≤ code
           | None => ∀ u, u ∈ users → ∃ body, marshalTx (DEnv_Payload env) = Ok body ∧ signed_by b u (default [] (Signatures env !! u)) body
           end.
Proof.
  induction users as [|u users IH]; cbn.
  - intros [= <- <-]. split; [done|]. intros u Hu. by apply not_elem_of_nil in Hu.
  - unfold mbind, prog_bind. destruct (VerifyRequestSignature _ _ _ b) as [b2 y] eqn:Hv.
    apply VerifyRequestSignature_inv in Hv as [-> Hv]. destruct y as [[[msg code]|]|e|w]; [| |done..].
    + intros [= <- <-]. done.
    + intros [-> Hx]%IH. split; [done|]. destruct x as [[msg code]|]; [done|].
      intros u' [->|Hu]%elem_of_cons; auto.
Qed.

Lemma dataTransactionOf_inv r timeout body b b' s : validateAndParseTxPostHeader r = Ok timeout →
  dataTransactionOf r timeout body b = (b', Ok s) → submitted r b b' s.
Proof.
  intros Ht. unfold dataTransactionOf, submitted.
  destruct (decodeTx body) as [[env|]|e|w]; [|by intros [= <- <-]; right..|done].
  case_bool_decide as Hu; [by intros [= <- <-]; right|].
  case_bool_decide as He; [by intros [= <- <-]; right|].
  case_bool_decide as Hn; [by intros [= <- <-]; right|].
  unfold mbind, prog_bind. destruct (verifySignatures _ _ b) as [b2 y] eqn:Hv.
  destruct y as [y|e|w]; [|done..]. apply verifySignatures_inv in Hv as [-> Hv]. destruct y as [[msg code]|].
  - intros [= <- <-]. right. by split.
  - intros Hh. left. exists (TxData env), timeout. split; [|done]. split; [done|].
    intros u Hin. split; [by intros ->|]. destruct (Hv u Hin) as (bd & Hm & Hsb).
    destruct (Signatures env !! u) as [sig|] eqn:Hsig.
    + exists sig, bd. done.
    + exfalso.
      assert (u ∈ filter (fun user => Signatures env !! user = None) (MustSignUserIds (DEnv_Payload env))) as Hf
        by by apply list_elem_of_filter.
      rewrite Hn in Hf. by apply not_elem_of_nil in Hf.
Qed.

Lemma tx_handler_inv t r b b' sent : tx_handler t r b = (b', Ok sent) →
  ∃ refused s, sent = refused ++ [s] ∧ Forall refusal refused ∧ submitted r b b' s.
Proof.
  destruct t; cbn; intros H.
  2-4: apply signedTransaction_inv in H as (s & -> & Hs); [by exists [], s|by intros].
  revert H. unfold dataTransaction. destruct (validateAndParseTxPostHeader r) as [timeout|e|w] eqn:Ht; [| |done].
  - destruct (Body r) as [[body failed]|]; [|done]. unfold mbind, prog_bind.
    destruct (dataTransactionOf r timeout body b) as [b1 [s|e|w]] eqn:Hd; [|done..].
    intros [= <- <-]. apply dataTransactionOf_inv in Hd; [|done].
    destruct failed as [e|]; [|by exists [], s].
    exists [mkSent StatusBadRequest (ErrMsg (Error e))], s. split; [done|]. split; [|done]. by apply Forall_singleton.
  - intros [= <- <-]. exists [], (mkSent StatusBadRequest (ErrMsg (Error e))). split; [done|]. split; [done|]. right. by split.
Qed.

(** C9: whatever is posted, the database is changed only by the submission of one
    transaction that all the users who must sign it signed, there is at least one such user
    and none has an empty name; otherwise the database is unchanged and every answer is a
    refusal. *)
Theorem transactions_authenticated t r b b' sent : tx_handler t r b = (b', Ok sent) →
  (∃ tx timeout x, signed_tx b tx ∧ 0 ≤ timeout ∧ db_SubmitTransaction tx timeout b = (b', x)) ∨
  (b' = b ∧ sent ≠ [] ∧ Forall refusal sent).
Proof.
  intros (refused & s & -> & Href & [(tx & timeout & Htx & Ht & Hh)|[-> Hs]])%tx_handler_inv.
  - left. revert Hh. unfold handleTransaction.
    destruct (db_SubmitTransaction tx timeout b) as [b1 x] eqn:Hs. intros H.
    assert (b' = b1) as -> by by destruct x; simplify_eq. exists tx, timeout, x.
    split; [done|]. split; [|done]. revert Ht. unfold validateAndParseTxPostHeader.
    destruct (_ =? 0)%nat; [intros [=]; lia|]. intros (n & _ & Hn)%bind_ok_inv. destruct (Z.ltb_spec n 0); [done|]. by simplify_eq.
  - right. split; [done|]. split; [by destruct refused|]. apply Forall_app. auto.
Qed.

End Authentication.

(** ** Over the database of a node *)

Section Node.
Context `{!WorldState D, !Codec User, !Codec NodeConfig, !Codec ValueWithMetadata} {x509 : X509}.
Context {SN : Type} `{!DBsSnapshot SN, !Snapshotter D SN} {mr : MapRange}.
Context `{!Codec Block, !Codec BlockHeader, !Codec BlockHeaderBase, !Codec BlockLocation,
          !Codec TxInfo, !Codec BlockTxIDs} {sn : Snappy} {pv : ProtoVarint}.
Context `{!TxMarshal DataTxEnvelope, !TxMarshal UserAdministrationTxEnvelope,
          !TxMarshal DBAdministrationTxEnvelope, !TxMarshal ConfigTxEnvelope, !TxMarshal ValidationInfo}.
Context {St : Type} `{!TrieStore St} {G : Type} `{!Graph G} {P : Type} `{!TxProcessor P} {signer : Signer}.
Context {nt : NetTime} {qf : QueryFormat}.

Notation db := (Backend.db (D := D) (St := St) (G := G) (P := P)).
Implicit Types (d : db) (r : Request).

#[export] Instance backend_DB : DB db := {|
  db_Height := Backend.Height;
  db_GetCertificate := Backend.GetCertificate;
  db_IsDBExists := Backend.IsDBExists;
  db_GetUser := Backend.GetUser;
  db_GetConfig := Backend.GetConfig;
  db_GetConfigBlock := Backend.GetConfigBlock;
  db_GetClusterStatus := Backend.GetClusterStatus;
  db_GetNodeConfig := Backend.GetNodeConfig;
  db_GetDBStatus := Backend.GetDBStatus;
  db_GetDBIndex := Backend.GetDBIndex;
  db_GetData := Backend.GetData;
  db_GetDataRange := Backend.GetDataRange;
  db_DataQuery := Backend.DataQuery (SN := SN);
  db_GetBlockHeader := Backend.GetBlockHeader;
  db_GetAugmentedBlockHeader := Backend.GetAugmentedBlockHeader;
  db_GetTxProof := Backend.GetTxProof;
  db_GetDataProof := Backend.GetDataProof;
  db_GetLedgerPath := Backend.GetLedgerPath;
  db_GetTxReceipt := Backend.GetTxReceipt;
  db_GetValues := Backend.GetValues;
  db_GetDeletedValues := Backend.GetDeletedValues;
  db_GetValueAt := Backend.GetValueAt;
  db_GetMostRecentValueAtOrBelow := Backend.GetMostRecentValueAtOrBelow;
  db_GetPreviousValues := Backend.GetPreviousValues;
  db_GetNextValues := Backend.GetNextValues;
  db_GetValuesReadByUser := Backend.GetValuesReadByUser;
  db_GetValuesWrittenByUser := Backend.GetValuesWrittenByUser;
  db_GetValuesDeletedByUser := Backend.GetValuesDeletedByUser;
  db_GetReaders := Backend.GetReaders;
  db_GetWriters := Backend.GetWriters;
  db_GetTxIDsSubmittedByUser := Backend.GetTxIDsSubmittedByUser;
  db_SubmitTransaction := Backend.SubmitTransaction;
|}.

#[export] Instance backend_DB_laws : DBLaws db.
Proof. done. Qed.

(** The block store holds the same: the bytes of the files, what it takes for the end of
    the last one, and its databases.  The position of the file descriptor is left open:
    reading a block of the current chunk moves it. *)
Definition same_blocks (s s' : Store) : Prop :=
  (∀ n, file_at s' n = file_at s n) ∧ currentOffset s' = currentOffset s ∧ currentChunkNum s' = currentChunkNum s ∧
  lastCommittedBlockNum s' = lastCommittedBlockNum s ∧ blockIndexDB s' = blockIndexDB s ∧
  blockHeaderDB s' = blockHeaderDB s ∧ txValidationInfoDB s' = txValidationInfoDB s.

(** The trie store, to which opening the trie of a block without a state root puts the
    node of the empty trie. *)
Definition same_tries : St → St → Prop := rtc (fun s s' => s' = (NewTrie [] s).1).

(** A query changes no part of the node. *)
Record same_state (d d' : db) : Prop := {
  ss_nodeID : Backend.nodeID d' = Backend.nodeID d;
  ss_worldstate : Backend.worldstate d' = Backend.worldstate d;
  ss_blocks : same_blocks (Backend.blockStore d) (Backend.blockStore d');
  ss_tries : same_tries (Backend.stateTrieStore d) (Backend.stateTrieStore d');
  ss_provenance : Backend.provenanceStore d' = Backend.provenanceStore d;
  ss_processor : Backend.txProcessor d' = Backend.txProcessor d;
  ss_limit : Backend.queryResponseSizeLimit d' = Backend.queryResponseSizeLimit d;
}.

Definition keeps {A} (m : prog db A) : Prop := ∀ d, same_state d (m d).1.

(** The type of the response to a query. *)
Definition response_of (qt : query_type) (x : Response) : bool :=
  match qt, x with
  | GetData, DataResponse _ | GetDataRange, DataRangeResponse _ | GetUser, UserResponse _ | GetDBStatus, DBStatusResponse _
  | GetDBIndex, DBIndexResponse _ | GetConfig, ConfigResponse _ _ | GetNodeConfig, NodeConfigResponse _
  | GetLastConfigBlock, ConfigBlockResponse _ | GetClusterStatus, ClusterStatusResponse _
  | GetBlockHeader, BlockResponse _ | GetBlockHeader, AugmentedBlockHeaderResponse _ | GetLastBlockHeader, BlockResponse _
  | GetPath, LedgerPathResponse _ | GetTxProof, TxProofResponse _ | GetDataProof, DataProofResponse _
  | GetTxReceipt, TxReceiptResponse _ | GetHistoricalData, HistoricalDataResponse _ | GetDataReaders, DataReadersResponse _
  | GetDataWriters, DataWritersResponse _ | GetDataReadBy, DataProvenanceResponse _ | GetDataWrittenBy, DataProvenanceResponse _
  | GetDataDeletedBy, DataProvenanceResponse _ | GetTxIDsSubmittedBy, TxIDsSubmittedByResponse _
  | GetMostRecentUserOrNode, HistoricalDataResponse _ | PostDataQuery, DataQueryResponse _ => true
  | _, _ => false
  end.

(** The node signed the response, which has the type of the query. *)
Definition typed (qt : query_type) (d : db) (e : Envelope) : Prop :=
  response_of qt (Env_Response e) = true ∧ Env_NodeID e = Backend.nodeID d ∧
  Backend.signature d (Env_Response e) = Ok (Env_Signature e).

Definition gives (qt : query_type) (m : prog db Envelope) : Prop :=
  keeps m ∧ ∀ d d' e, m d = (d', Ok e) → typed qt d e.

(** What is sent: a response with status 200 and of the right type, an error, or, where
    [empty] allows it, an answer without a response. *)
Definition sent_ok (qt : query_type) (empty : db → Sent → Prop) (d : db) (s : Sent) : Prop :=
  match Content s with
  | Answer (Some e) => Code s = StatusOK ∧ typed qt d e
  | Answer None => empty d s
  | _ => True
  end.

Definition serves (qt : query_type) (empty : db → Sent → Prop) (m : prog db (list Sent)) : Prop :=
  ∀ d d' sent, m d = (d', Ok sent) → same_state d d' ∧ Forall (sent_ok qt empty d) sent.

Lemma same_blocks_refl s : same_blocks s s.
Proof. by split_and!. Qed.

Lemma same_state_refl d : same_state d d.
Proof. split; [done|done|apply same_blocks_refl|apply rtc_refl|done..]. Qed.

Lemma same_blocks_trans s1 s2 s3 : same_blocks s1 s2 → same_blocks s2 s3 → same_blocks s1 s3.
Proof. intros (Hf&?&?&?&?&?&?) (Hf'&?&?&?&?&?&?). split; [intros n; by rewrite Hf', Hf|]. split_and!; congruence. Qed.

Lemma same_state_trans d1 d2 d3 : same_state d1 d2 → same_state d2 d3 → same_state d1 d3.
Proof.
  intros [] []. split; [congruence|congruence|by eapply same_blocks_trans|unfold same_tries in *; by etrans|congruence..].
Qed.

(** Reading a block. *)
Lemma Get_same_blocks n s : same_blocks s (BlockStore.Get n s).1.
Proof.
  unfold BlockStore.Get. destruct (_ <? n); [apply same_blocks_refl|].
  destruct (BlockStore.getLocation s n) as [l|e|w]; [|apply same_blocks_refl..]. destruct (_ =? _).
  - destruct (BlockStore.readBlockFromFile _ _). by split_and!.
  - cbn. split; [|done]. intros m. unfold file_at. cbn. destruct (decide (m = FileChunkNum l)) as [->|Hne].
    + by rewrite lookup_insert_eq.
    + by rewrite lookup_insert_ne.
Qed.

Definition keeps_blocks {A} (m : prog Store A) : Prop := ∀ s, same_blocks s (m s).1.

Lemma keeps_blocks_lift {A} (x : res A) : keeps_blocks (lift x).
Proof. intros s. apply same_blocks_refl. Qed.
Lemma keeps_blocks_bind {A C} (m : prog Store A) (f : A → prog Store C) :
  keeps_blocks m → (∀ x, keeps_blocks (f x)) → keeps_blocks (m ≫= f).
Proof.
  intros Hm Hf s. unfold mbind, prog_bind. specialize (Hm s). destruct (m s) as [s1 [x|e|w]]; [|done..].
  eapply same_blocks_trans; [exact Hm|apply Hf].
Qed.

Lemma getTxProof_keeps (w : D) u n i : keeps_blocks (getTxProof w u n i).
Proof.
  unfold getTxProof. apply keeps_blocks_bind; [apply keeps_blocks_lift|intros _].
  apply keeps_blocks_bind; [intros s; apply Get_same_blocks|intros b; apply keeps_blocks_lift].
Qed.

Lemma getConfigBlock_keeps (w : D) u n : keeps_blocks (getConfigBlock w u n).
Proof.
  unfold getConfigBlock. apply keeps_blocks_bind; [apply keeps_blocks_lift|intros _].
  apply keeps_blocks_bind; [apply keeps_blocks_lift|intros k].
  apply keeps_blocks_bind; [intros s; apply Get_same_blocks|intros b]. repeat case_match; apply keeps_blocks_lift.
Qed.

Lemma NewTrie_keeps h (ts : St) : same_tries ts (NewTrie h ts).1.
Proof.
  destruct (decide (h = [])) as [->|Hh]; [by apply rtc_once|].
  unfold NewTrie. rewrite bool_decide_eq_false_2 by done. apply rtc_refl.
Qed.

(** A proof from the trie. *)
Lemma getDataProof_keeps (w : D) s u n name key deleted ts :
  same_tries ts (getDataProof w s u n name key deleted ts).1.
Proof.
  unfold getDataProof, mbind, prog_bind, gets, lift, id. destruct (checkLedgerAccess w u); try apply rtc_refl.
  destruct (IsDisabled ts); [apply rtc_refl|]. destruct (BlockStore.GetHeader s n) as [h| |]; try apply rtc_refl.
  pose proof (NewTrie_keeps (StateMerkelTreeRootHash h) ts) as Ht. destruct (NewTrie _ ts) as [ts1 [root| |]]; try done.
  by repeat case_match.
Qed.

Lemma node_keeps_onState {A} (f : D → res A) : keeps (Backend.onState f).
Proof. intros d. apply same_state_refl. Qed.
Lemma node_keeps_onBlocks {A} (m : prog Store A) : keeps_blocks m → keeps (Backend.onBlocks m).
Proof.
  intros Hm d. specialize (Hm (Backend.blockStore d)). unfold Backend.onBlocks. destruct (m _).
  split; [done|done|exact Hm|apply rtc_refl|done..].
Qed.
Lemma node_keeps_onTrie {A} (m : prog St A) : (∀ s, same_tries s (m s).1) → keeps (Backend.onTrie m).
Proof.
  intros Hm d. specialize (Hm (Backend.stateTrieStore d)). unfold Backend.onTrie. destruct (m _).
  split; [done|done|apply same_blocks_refl|exact Hm|done..].
Qed.
Lemma node_keeps_lift {A} (x : res A) : keeps (lift x).
Proof. intros d. apply same_state_refl. Qed.
Lemma node_keeps_gets {A} (f : db → A) : keeps (gets f).
Proof. intros d. apply same_state_refl. Qed.
Lemma node_keeps_mret {A} (x : A) : keeps (mret x).
Proof. intros d. apply same_state_refl. Qed.
Lemma node_keeps_bind {A C} (m : prog db A) (f : A → prog db C) : keeps m → (∀ x, keeps (f x)) → keeps (m ≫= f).
Proof.
  intros Hm Hf d. unfold mbind, prog_bind. specialize (Hm d). destruct (m d) as [d1 [x|e|w]]; [|done..].
  eapply same_state_trans; [done|apply Hf].
Qed.

Ltac keeps :=
  repeat first
    [ assumption | apply node_keeps_onState | apply node_keeps_onBlocks, getTxProof_keeps
    | apply node_keeps_onBlocks, getConfigBlock_keeps | apply node_keeps_onTrie, getDataProof_keeps | apply node_keeps_lift | apply node_keeps_gets
    | apply node_keeps_mret | apply node_keeps_bind; [|intros ?] | progress case_match ].

Lemma node_keeps_respond {A} (f : A → Response) m : keeps m → keeps (Backend.respond f m).
Proof. intros Hm. unfold Backend.respond. keeps. Qed.

Lemma respond_inv {A} (f : A → Response) m d d' e : Backend.respond f m d = (d', Ok e) →
  ∃ x, m d = (d', Ok x) ∧ Env_Response e = f x ∧ Env_NodeID e = Backend.nodeID d' ∧
       Backend.signature d' (f x) = Ok (Env_Signature e).
Proof.
  unfold Backend.respond. intros (d1 & x & Hm & H)%prog_bind_ok_inv. exists x. revert H.
  unfold mbind, prog_bind, gets, lift, id. destruct (Backend.signature d1 (f x)) as [sig|err|w] eqn:Hs; [|done..].
  by intros [= <- <-].
Qed.

Lemma gives_respond {A} qt (f : A → Response) m : keeps m → (∀ x, response_of qt (f x) = true) → gives qt (Backend.respond f m).
Proof.
  intros Hm Hf. split; [by apply node_keeps_respond|]. intros d d' e H.
  apply respond_inv in H as (x & Hx & Hr & Hn & Hs). specialize (Hm d). rewrite Hx in Hm. pose proof (ss_nodeID _ _ Hm) as Hid. cbn in Hid.
  unfold typed. rewrite Hr, Hn. split; [done|]. split; [done|]. revert Hs. unfold Backend.signature, Backend.responseHeader.
  by rewrite Hid.
Qed.

Lemma serves_answer qt empty r status m : gives qt m → serves qt empty (answer r status m).
Proof.
  intros [Hk Hm] d d' sent. unfold answer. specialize (Hk d). destruct (m d) as [d1 [e|err|w]] eqn:He; [| |done];
    intros [= <- <-]; (split; [done|]); apply Forall_singleton; [|done]. split; [done|]. by eapply Hm.
Qed.

Lemma serves_withQuery qt (empty : db → Sent → Prop) r f :
  (∀ q, serves qt (fun d s => signed_query d r qt q → empty d s) (f q)) → serves qt empty (withQuery qt r f).
Proof.
  intros Hf d d' sent [[-> (s & -> & Hs)]|(q & Hq & H)]%withQuery_inv.
  - split; [apply same_state_refl|]. apply Forall_singleton. destruct Hs as [_ Hs]. unfold sent_ok. by destruct (Content s).
  - destruct (Hf q _ _ _ H) as [Hd Hs]. split; [done|]. eapply Forall_impl; [exact Hs|]. intros s. unfold sent_ok.
    destruct (Content s) as [| |[e|]|]; auto.
Qed.

Lemma serves_panic qt empty w : serves qt empty (lift (Panic w)).
Proof. done. Qed.

Lemma serves_known qt empty name msg m : serves qt empty m →
  serves qt empty (fun d => if negb (db_IsDBExists d name) then (d, Ok [mkSent StatusBadRequest (ErrMsg msg)]) else m d).
Proof.
  intros Hm d d' sent. destruct (negb _); [|by apply Hm]. intros [= <- <-]. split; [apply same_state_refl|].
  by apply Forall_singleton.
Qed.

Lemma serves_JSON (empty : db → Sent → Prop) r name user query :
  (∀ d s, Context r = DeadlineExceeded → Code s = StatusRequestTimeout → empty d s) →
  serves PostDataQuery empty (fun d =>
    match db_DataQuery (match Context r with Open => false | _ => true end) name user query d with
    | (b, Panic w) => (b, Panic w)
    | (b, data) =>
      match Context r with
      | DeadlineExceeded => (b, Ok [mkSent StatusRequestTimeout (Answer None)])
      | Canceled => (b, Ok [])
      | Open =>
        match data with
        | Err err => (b, Ok [mkSent (permissionStatus err) (processing r err)])
        | Ok data => (b, Ok [mkSent StatusOK (Answer data)])
        | Panic w => (b, Panic w)
        end
      end
    end).
Proof.
  intros Hempty d d' sent. destruct (Context r); cbn.
  2: intros [= <- <-]; (split; [apply same_state_refl|]); apply Forall_singleton; by apply Hempty.
  2: intros [= <- <-]; (split; [apply same_state_refl|]); constructor.
  unfold Backend.DataQuery, mbind at 1, prog_bind.
  set (m := Backend.respond _ _).
  assert (gives PostDataQuery m) as [Hk Hm] by (apply gives_respond; [keeps|done]).
  specialize (Hk d). destruct (m d) as [d1 [e|err|w]] eqn:He; [| |done]; intros [= <- <-]; (split; [done|]);
    apply Forall_singleton; [|done]. split; [done|]. by eapply Hm.
Qed.

(** The direction of a query for the history of a key is none of those that the handler knows. *)
Definition bad_direction (query : GetHistoricalDataQuery) : Prop :=
  GHD_OnlyDeletes query = false ∧ GHD_Version query ≠ None ∧ GHD_Direction query ∉ [""; "previous"; "next"].

Lemma serves_historical (empty : db → Sent → Prop) r query : (∀ d s, bad_direction query → empty d s) →
  serves GetHistoricalData empty
    (let answer := answer r handleErrorStatus in
     let userID := GHD_UserId query in
     let dbName := GHD_DbName query in
     let key := GHD_Key query in
     let version := GHD_Version query in
     let direction := GHD_Direction query in
     if GHD_OnlyDeletes query then answer (db_GetDeletedValues userID dbName key)
     else if bool_decide (version = None) then answer (db_GetValues userID dbName key)
     else if bool_decide (direction = "") && GHD_MostRecent query then
       answer (db_GetMostRecentValueAtOrBelow userID dbName key version)
     else if bool_decide (direction = "") then answer (db_GetValueAt userID dbName key version)
     else if bool_decide (direction = "previous") then answer (db_GetPreviousValues userID dbName key version)
     else if bool_decide (direction = "next") then answer (db_GetNextValues userID dbName key version)
     else mret [mkSent StatusBadRequest (ErrMsg "direction must be either [previous] or [next]"); mkSent StatusOK (Answer None)]).
Proof.
  intros Hempty. cbv zeta.
  destruct (GHD_OnlyDeletes query) eqn:Hod; [apply serves_answer, gives_respond; [keeps|done]|].
  case_bool_decide as Hv; [apply serves_answer, gives_respond; [keeps|done]|].
  destruct (_ && _); [apply serves_answer, gives_respond; [keeps|done]|].
  do 3 (case_bool_decide; [apply serves_answer, gives_respond; [keeps|done]|]).
  intros d d' sent [= <- <-]. split; [apply same_state_refl|]. constructor; [done|]. apply Forall_singleton.
  apply Hempty. split_and!; [done..|]. set_solver.
Qed.

Lemma gives_bind {A} qt (m : prog db A) f : keeps m → (∀ x, gives qt (f x)) → (∀ d, (m d).1 = d) → gives qt (m ≫= f).
Proof.
  intros Hm Hf Hd. split; [apply node_keeps_bind; [done|apply Hf]|]. intros d d' e (d1 & x & Hx & He)%prog_bind_ok_inv.
  specialize (Hd d). rewrite Hx in Hd. cbn in Hd. subst d1. by eapply Hf.
Qed.

(** The answers that have no response: a query for the history of a key with a bad
    direction gets one with status 200, after an error, and a JSON query whose time is over
    gets one with status 408. *)
Definition no_response (qt : query_type) (r : Request) (d : db) (s : Sent) : Prop :=
  (qt = GetHistoricalData ∧ ∃ q, signed_query d r qt (QHistoricalData q) ∧ bad_direction q) ∨
  (qt = PostDataQuery ∧ Context r = DeadlineExceeded ∧ Code s = StatusRequestTimeout).

Lemma query_handler_serves qt r : serves qt (no_response qt r) (query_handler qt r).
Proof.
  destruct qt; cbn [query_handler]; apply serves_withQuery; intros []; try apply serves_panic;
    try (apply serves_answer, gives_respond; [keeps|by intros]).
  - apply serves_known, serves_answer, gives_respond; [keeps|done].
  - apply serves_known, serves_answer, gives_respond; [keeps|done].
  - apply serves_answer, gives_respond; [keeps|by intros []].
  - apply serves_answer. case_match; (apply gives_respond; [keeps|done]).
  - apply serves_answer, gives_bind; [apply node_keeps_onState| |done]. intros x. apply gives_respond; [keeps|done].
  - apply serves_historical. intros d s Hbad Hq. left. eauto.
  - apply serves_known, serves_JSON. intros d s Hc Hs _. by right.
Qed.

(** C22: whatever kind of query a node is asked, every response it sends has status 200 and
    the type of that kind of query, it names the node, and the signature is the node's over
    that response; answers without a response are sent only to a query for the history of a
    key with a direction that does not exist, and to a JSON query whose time is over.  When
    the handler returns, the query has changed neither the world state nor the provenance, nor
    the transactions that are being processed, nor what the block store and the trie store hold.
    The position in the file of the current chunk may move (a commit right after such a
    read writes at that position), and the node of the empty trie may be put into the trie
    store. *)
Theorem answers_typed qt r d d' sent : query_handler qt r d = (d', Ok sent) →
  same_state d d' ∧
  (∀ s e, s ∈ sent → Content s = Answer (Some e) → Code s = StatusOK ∧ typed qt d e) ∧
  (∀ s, s ∈ sent → Content s = Answer None → no_response qt r d s).
Proof.
  intros [Hd Hs]%query_handler_serves. rewrite Forall_forall in Hs. split_and!; [done|..].
  - intros s e Hin He. specialize (Hs s Hin). unfold sent_ok in Hs. by rewrite He in Hs.
  - intros s Hin He. specialize (Hs s Hin). unfold sent_ok in Hs. by rewrite He in Hs.
Qed.

Lemma extract_signed r qt d q : signed_query d r qt q → extractVerifiedQueryPayload r qt d = (d, Ok (inr q)).
Proof.
  intros (Hu & Hn & _ & Hq & signature & body & Hb & Hm & cert & Hc & Hs).
  unfold extractVerifiedQueryPayload, validateAndParseHeader. do 2 rewrite bool_decide_eq_false_2 by done. rewrite Hb, Hq.
  unfold VerifyRequestSignature, verify, mbind, prog_bind. rewrite Hm.
  destruct (db_GetCertificate _ d) as [d1 x] eqn:Hd. cbn in Hc. subst x.
  pose proof (db_GetCertificate_pure (header r UserHeader) d) as Hp. rewrite Hd in Hp. cbn in Hp. subst d1.
  unfold lift. by rewrite Hs.
Qed.

Lemma getData_ok (w : D) dbName user key x : getData w dbName user key = Ok x ↔
  ∃ value metadata,
    IsSystemDB dbName = false ∧ HasReadAccessOnDataDB w user dbName = Ok true ∧ WorldState.Get w dbName key = Ok (value, metadata) ∧
    acl_allows (GetAccessControl_of metadata) user = true ∧ x = mkGetDataResponse value metadata.
Proof.
  unfold getData, checkReadAccess, mbind, res_bind. split.
  - destruct (IsSystemDB dbName); [done|].
    destruct (HasReadAccessOnDataDB w user dbName) as [[]|e|?]; [|done..].
    destruct (WorldState.Get w dbName key) as [[value metadata]|e|?]; [|done..].
    destruct (acl_allows _ user) eqn:Ha; [|done]. intros [= <-]. by exists value, metadata.
  - intros (value & metadata & -> & -> & -> & -> & ->). done.
Qed.

(** C21: a node answers a request for a key exactly when the user of the request signed it,
    the database exists and is not one of the system, the user has read access to it and
    the access control of the key, if any, names the user.  The answer is then the value
    and the metadata that the world state holds for the key, signed by the node, and
    nothing is changed. *)
Theorem data_query_served r d d' e :
  dataQuery r d = (d', Ok [mkSent StatusOK (Answer (Some e))]) ↔
  ∃ value metadata,
    let user := header r UserHeader in
    let dbName := var r "dbname" in
    let key := var r "key" in
    let w := Backend.worldstate d in
    signed_query d r GetData (QData (mkGetDataQuery user dbName key)) ∧
    isDBExists w dbName = true ∧ IsSystemDB dbName = false ∧ HasReadAccessOnDataDB w user dbName = Ok true ∧
    WorldState.Get w dbName key = Ok (value, metadata) ∧ acl_allows (GetAccessControl_of metadata) user = true ∧
    Backend.signature d (DataResponse (mkGetDataResponse value metadata)) = Ok (Env_Signature e) ∧
    e = mkEnvelope (Backend.nodeID d) (DataResponse (mkGetDataResponse value metadata)) (Env_Signature e) ∧ d' = d.
Proof.
  split.
  - intros [[_ (s & [= <-] & Hs & _)]|(q & Hq & H)]%withQuery_inv; [by apply Z.leb_le in Hs|].
    pose proof Hq as (_ & _ & _ & [= <-] & _). revert H. cbn.
    destruct (Backend.IsDBExists _ _) eqn:Hdb; cbn; [|done]. unfold answer.
    destruct (Backend.GetData _ _ _ d) as [d1 [e'|err|w]] eqn:He; [|by destruct err|done]. intros [= <- <-].
    apply respond_inv in He as (x & [= <- Hx] & Hr & Hn & Hs). apply getData_ok in Hx as (value & metadata & ? & ? & ? & ? & ->).
    exists value, metadata. destruct e' as [n resp sig]; cbn in *; subst. done.
  - intros (value & metadata & Hq & Hdb & Hsys & Hacc & Hg & Hacl & Hs & He & ->).
    unfold dataQuery, withQuery, mbind, prog_bind. rewrite (extract_signed _ _ _ _ Hq). cbn.
    unfold Backend.IsDBExists. rewrite Hdb. cbn. unfold answer, Backend.GetData, Backend.respond, mbind, prog_bind, Backend.onState.
    rewrite (proj2 (getData_ok _ _ _ _ _)) by (exists value, metadata; done). cbn. unfold lift. rewrite Hs. by rewrite He.
Qed.

End Node.
