(* ===== verification/FrontendExample.v ===== *)
(** * Requests to a small node

    Signed requests to a node with a few keys, and three requests that the handlers do not
    treat as they mean to. *)

From S2P Require Import Prelude Types JSON JSONPrint WorldState LevelDB Snapshot Identity Validation ConfigTxValidator Instances.
From S2P Require Import StateIndex QueryExecutor StateQueries Varint BlockEncoding BlockStore BlockStoreProofs MPTrie TrieStore TrieExample Ledger DbEntries.
From S2P Require Import HttpUtils ProvenanceJSON Provenance QuadList Pipeline Backend Frontend FrontendProofs.
Open Scope Z_scope.

Module FrontendExample.
Import Toy StoreExample TrieExample.

(** ** The node *)

(** The transactions that were submitted; none is waited for. *)
#[export] Instance submissions : TxProcessor (list Tx) := {|
  ProcSubmit tx timeout := fun l => (l ++ [tx], Ok None);
  ProcClusterStatus _ := ("node1", ["node1"]);
  ProcIsLeader _ := None;
|}.

#[export] Instance node_signer : Signer := {|
  marshalResponse nodeID response :=
    Ok (bytes_of_string nodeID ++ match response with DataResponse r => GD_Value r | _ => [] end);
  Sign b := Ok (cert 9 ++ b);
|}.

#[export] Instance formats : QueryFormat := {|
  marshalQuery q :=
    match q with
    | QData q => Ok (bytes_of_string (GDQ_UserId q +:+ "/" +:+ GDQ_DbName q +:+ "/" +:+ GDQ_Key q))
    | q => Ok (bytes_of_string (query_user q))
    end;
  Unquote b := Ok (string_of_bytes b);
  Quote s := s;
  ParseRequestURI _ := Ok tt;
|}.

(** Short forms of the payloads, to be signed. *)
Definition payload_bytes (tx : DataTx) : bytes := bytes_of_string (DTx_TxId tx).
#[export] Instance data_marshal : TxMarshal DataTx | 1 := fun tx => Ok (payload_bytes tx).

(** A transaction of alice and bob. *)
Definition joint_tx : DataTx := mkDataTx ["alice"; "bob"] "tx1" [data_op [] ["k2"] []].
Definition joint_env : DataTxEnvelope :=
  mkDataTxEnvelope joint_tx {["alice" := cert 1 ++ payload_bytes joint_tx; "bob" := cert 2 ++ payload_bytes joint_tx]}.

#[export] Instance decode_data : TxDecode DataTxEnvelope :=
  fun b => if bool_decide (b = [1]) then Ok (Some joint_env) else Err (PlainErr "invalid JSON").
#[export] Instance decode_user : TxDecode UserAdministrationTxEnvelope := fun _ => Err (PlainErr "invalid JSON").
#[export] Instance decode_db : TxDecode DBAdministrationTxEnvelope := fun _ => Err (PlainErr "invalid JSON").
#[export] Instance decode_config : TxDecode ConfigTxEnvelope := fun _ => Err (PlainErr "invalid JSON").

Notation node := (Backend.db (D := LevelDB) (St := TrieStore.Store) (G := list Quad) (P := list Tx)).

Definition node1 : node := Backend.mkDB "node1" state3 openNewStore (openTrieStore ∅) (Some []) [] 1000.

(** ** Requests *)

Definition sign_header (body : bytes) : string := base64 (cert 1 ++ body).

Definition get (url : string) (body : bytes) (vars : Vars) : Request :=
  mkRequest "GET" url {[UserHeader := "alice"; SignatureHeader := sign_header body]} vars None Open.

(** Alice asks for the key k1, and with the signature of another query. *)
Definition get_k1 : Request := get "/data/db1/k1" (bytes_of_string "alice/db1/k1") {["dbname" := "db1"; "key" := "k1"]}.
Definition replayed : Request := get "/data/db1/k2" (bytes_of_string "alice/db1/k1") {["dbname" := "db1"; "key" := "k2"]}.

Definition k1_answer : Envelope :=
  mkEnvelope "node1" (DataResponse (mkGetDataResponse [7] (meta 3 0))) (cert 9 ++ bytes_of_string "node1" ++ [7]).

Lemma ends_with {S A} (p : S * A) x : p.2 = x → p = (p.1, x).
Proof. destruct p. by intros <-. Qed.

Lemma get_k1_served : (dataQuery get_k1 node1).2 = Ok [mkSent StatusOK (Answer (Some k1_answer))].
Proof. vm_compute. reflexivity. Qed.

Lemma replayed_refused :
  (dataQuery replayed node1).2 = Ok [mkSent StatusUnauthorized (ErrMsg "signature verification failed")].
Proof. vm_compute. reflexivity. Qed.

Lemma queries_authenticated_witness :
  (∃ q, signed_query node1 get_k1 GetData q) ∧ (dataQuery replayed node1).1 = node1.
Proof.
  split.
  - destruct (queries_authenticated GetData get_k1 node1 _ _ (ends_with _ _ get_k1_served))
      as [(_ & s & [= <-] & Hs & _)|H]; [|exact H]. exfalso. cbn in Hs. unfold StatusOK in Hs. lia.
  - destruct (queries_authenticated GetData replayed node1 _ _ (ends_with _ _ replayed_refused)) as [[H _]|(q & H)]; [exact H|].
    exfalso. destruct H as (_ & _ & _ & Hq & sig & body & Hb & Hm & cert & Hc & Hs).
    vm_compute in Hq. injection Hq as <-. vm_compute in Hb, Hm, Hc. injection Hb as <-. injection Hm as <-. injection Hc as <-.
    vm_compute in Hs. discriminate.
Defined.

Lemma answers_typed_witness : same_state node1 (dataQuery get_k1 node1).1 ∧ typed GetData node1 k1_answer.
Proof.
  destruct (answers_typed GetData get_k1 node1 _ _ (ends_with _ _ get_k1_served)) as [H1 [H2 _]].
  split; [exact H1|]. apply (H2 (mkSent StatusOK (Answer (Some k1_answer))) k1_answer); [apply list_elem_of_singleton; reflexivity|reflexivity].
Defined.

Definition post (body : bytes) (failed : option goerr) : Request :=
  mkRequest "POST" "/data/tx" ∅ ∅ (Some (body, failed)) Open.

Definition submitted_answer : Envelope := mkEnvelope "node1" (TxReceiptResponse None) (cert 9 ++ bytes_of_string "node1").

Lemma joint_submitted :
  (dataTransaction (post [1] None) node1).2 = Ok [mkSent StatusOK (Answer (Some submitted_answer))] ∧
  Backend.txProcessor (dataTransaction (post [1] None) node1).1 = [TxData joint_env].
Proof. split; vm_compute; reflexivity. Qed.

Lemma not_submitted : Backend.txProcessor node1 ≠ [TxData joint_env].
Proof. by cbn [node1 Backend.txProcessor]. Qed.

Lemma transactions_authenticated_witness : signed_tx node1 (TxData joint_env).
Proof.
  destruct joint_submitted as [H1 H2].
  destruct (transactions_authenticated PostDataTx (post [1] None) node1 _ _ (ends_with _ _ H1)) as [(tx & timeout & x & H & _ & Hs)|[H _]].
  - assert (Backend.txProcessor (db_SubmitTransaction tx timeout node1).1 = [tx]) as Ht by reflexivity.
    rewrite Hs in Ht. cbn [fst tx_handler] in Ht. rewrite H2 in Ht. injection Ht as <-. exact H.
  - destruct (not_submitted (eq_trans (eq_sym (f_equal Backend.txProcessor H)) H2)).
Defined.

(** ** What goes wrong *)

(** A direction that is neither of the two. *)
Definition sideways : Request :=
  get "/provenance/data/history/db1/k1" (bytes_of_string "alice")
    {["dbname" := "db1"; "key" := "k1"; "blknum" := "3"; "txnum" := "0"; "direction" := "revious"]}.

(** A query for the history of a key with a direction other than previous and next is
    answered twice: with the error, and then with status 200 and no response, because the
    handler does not return after the error. *)
Theorem direction_answered_twice :
  (getHistoricalData sideways node1).2 =
    Ok [mkSent StatusBadRequest (ErrMsg "direction must be either [previous] or [next]"); mkSent StatusOK (Answer None)].
Proof. vm_compute. reflexivity. Qed.

(** A data transaction whose body could not be read to the end is answered with an
    error, and yet it is submitted if what was read is a signed transaction, because the
    handler does not return after the error. *)
Theorem failed_body_submitted :
  let '(node, sent) := dataTransaction (post [1] (Some (PlainErr "unexpected EOF"))) node1 in
  Backend.txProcessor node = [TxData joint_env] ∧
  sent = Ok [mkSent StatusBadRequest (ErrMsg "unexpected EOF"); mkSent StatusOK (Answer (Some submitted_answer))].
Proof.
  rewrite (surjective_pairing (dataTransaction _ _)). split; vm_compute; reflexivity.
Qed.

(** A range that starts with one character, without its quotes; nobody signed it. *)
Definition unquoted : Request :=
  mkRequest "GET" "/data/db1" {[UserHeader := "mallory"; SignatureHeader := "AAAA"]}
    {["dbname" := "db1"; "startkey" := "a"; "endkey" := "b"; "limit" := "1"]} None Open.

(** A range query with a start key of one character makes the handler panic, before
    any signature is verified. *)
Theorem short_range_key_panics : (dataRangeQuery unquoted node1).2 = Panic "slice bounds out of range".
Proof. vm_compute. reflexivity. Qed.

End FrontendExample.
